(* ===== verification/_CoqProject ===== *)
-Q . S2P
Prelude.v
ByteBuffer.v
Identifier.v
ObjectSerializer.v
PrototypeTree.v
ObjectView.v
Transaction.v
ObjectStore.v
StoreTree.v
Relations.v
RelationSync.v
ObjectDeleter.v
Session.v
SessionSync.v
SessionLoad.v
Json.v
JsonParser.v
JsonMapper.v
JsonMapping.v
Date.v
Base64.v
Sha256.v
FileSystem.v
Logger.v
Url.v
Version.v
Stream.v
ThreadPool.v
LeaderFollower.v
Reactor.v
Sql.v
Dialect.v
Dialects.v
SqlLexer.v
Statements.v
SqlSafety.v
ClassMapping.v
ParameterBinder.v
Http.v
RequestParser.v
ResponseParser.v
Regex.v
Routing.v
StaticFiles.v
HttpExchange.v
Template.v
