(* ===== verification/Prelude.v ===== *)
(** * matador: a verification library for the ORM and web framework

    matador is a C++ library: an object store with transactions and an ORM on
    top of it, a SQL layer with four backends, JSON, an HTTP client and server
    on a reactor with its own thread pool, and utilities. This library models
    the parts that carry the logic and proves what they promise. All paths
    below are relative to src/, the repository; a header file foo.hpp is
    include/matador/<part>/foo.hpp, its implementation src/<part>/foo.cpp.

    ** Conventions

    - A function that may throw returns a [result] ([Ok] or [Throw]); what the
      C++ standard leaves undefined is the exception [undefined_behaviour], so
      a theorem that says a call returns [Ok] also excludes it.
    - A member function that changes its object takes the object and returns
      the changed one. Where pointers alias (the proxies of the object store,
      the nodes of the prototype tree), objects live in finite maps indexed by
      identities, and the maps are passed along.
    - Machine integers are [Z] with the wrap-around of their width written out
      ([u64], [u32], ... below); [char] is [ascii], [std::string] a list of
      characters ([str]); [std::unordered_map] is [gmap], [std::map] is [gmap]
      or, where its order is observed, a sorted list.
    - Threads: what one thread does while it holds a mutex is one step of a
      transition system; theorems hold for every interleaving of the steps,
      spurious wake-ups included.
    - Loops that are not structural take fuel, or are defined over the rest of
      the input. Running out of fuel is [out_of_fuel], which no caller sees:
      the components prove that the fuel they pass is enough (twice the length
      of the text and two in [JsonParser] and [Template], three times the
      length of the pattern and three in [Regex]), or state how much is enough
      (the number of elements a finite stream pulls in [Stream], the nesting
      depth of the statement in [Statements], which is one for the statements
      of [ClassMapping], the depth of includes in [Template]).
    - What is not in the repository is a parameter: floating-point arithmetic
      and its printing ([Json], [ParameterBinder]), the system's time zone
      ([Date]), the files on the disk ([StaticFiles], [Template]), the time
      stamps of log lines ([Logger]), the database behind a session
      ([Session]), what sockets return ([HttpExchange]), what select reports
      ([Reactor]), the handlers of an application ([Routing]).

    ** The parts and their files

    Objects (src/object, src/utils).
    [ByteBuffer] (utils/byte_buffer) is the chunked queue of bytes; it is an
    instance of the class [ByteQueue], the only thing
    [ObjectSerializer] (object/object_serializer, object_deserializer) knows
    of it. [Identifier] (utils/identifier, sequencer,
    sequence_synchronizer) has primary keys and sequences. [PrototypeTree]
    (object/prototype_node, object_proxy, prototype_tree parts of
    object_store) has the tree of classes and the doubly linked lists of
    proxies with their markers; it shows how the nodes keep these lists.
    [ObjectView] (object/object_view) walks over them.
    [Transaction] (object/transaction, the actions and their visitors)
    collects what happens to the objects; [ObjectStore] (object/object_store
    and the restore functions of the actions) inserts, removes, modifies,
    commits and rolls back, on anything that keeps lists of proxies per class
    (the class [NodeLists]); [StoreTree] is the instance with the linked lists
    of the tree.
    [Relations] (object/object_holder, relation_endpoint,
    relation_field_endpoint, container) has the pointers and containers of
    objects and the endpoints that keep both ends of a relation in step;
    [RelationSync] their invariant; [ObjectDeleter] (object/object_deleter)
    removes objects with their relations.
    Theorems: what the queue promises; restoring a backup gives the saved
    attributes back, but for null references and the ends of [char] arrays;
    the linked lists refine plain lists when the depths of the nodes allow it,
    and a view yields the objects of its class, also through transactions of
    the store; rollback restores the state before begin, commit keeps the
    changes, when no object is removed in the transaction that inserted it;
    both ends of a relation agree and reference counters are exact as long as
    no object is taken over from another owner or partner; and an object that
    takes no others along is removed exactly when nothing else refers to it.

    The ORM (src/orm). [Session] (persistence, session, table) has the queues
    in which a persistence remembers what happened to the objects of its
    store, the sessions that write them with [flush] or [commit], and the
    tables, all against the class [Database] that says what a database does
    with rows; the store is that of [ObjectStore]. [SessionSync] proves that
    the database mirrors the store; [SessionLoad] has loading, a database in
    memory that implements [Database], and sessions at work.
    Theorems: flush and commit bring the tables into step with the store,
    when keys are not used again; rollback leaves store and database as they
    were, also after a commit that failed before it removed a row (a delete
    action is marked in place when its row is removed, and a marked one that
    is undone frees its proxy); and loading gives a store that mirrors the
    tables.

    JSON (src/json). [Json] (json) has the values, access, comparison and
    printing; [JsonParser] (generic_json_parser, json_parser) the
    recursive-descent parser with its callbacks; [JsonMapper]
    (json_serializer, basic_json_mapper, json_mapper_serializer) prints and
    reads the objects of classes, [JsonMapping] proves it right.
    Theorems: parsing what was printed gives the value back, the parser
    accepts every document of a grammar without floating-point numbers, and on
    any text it ends with a value or an exception, or reads behind a text that
    ends behind a brace or a comma; objects behave as maps, the comparison is
    a total order; the mapper reads a text of such a grammar as the object it
    means, and a printable object that is printed and read is the same object.

    SQL (src/sql, src/db). [Sql] (token classes, sql, query) has statements
    and the builder's state machine; [Dialect] (basic_dialect,
    basic_dialect_compiler, basic_dialect_linker, condition) builds the text;
    [Dialects] has the four backends' dialects; [SqlLexer] reads SQL the way
    a database does, for MySQL with backslash escapes in strings; [Statements]
    says which lexemes a statement stands for
    and proves, against the class [DialectLaws], that the built text reads as
    exactly these; [SqlSafety] gives the four instances. [ClassMapping]
    (typed_column_serializer, column_serializer, value_serializer,
    value_column_serializer, query on classes, and create, drop and prepare of
    orm/table) makes the statements of a class; [ParameterBinder]
    (parameter_binder, identifier_binder, insert, update and remove of
    orm/table, and the binders of SQLite and PostgreSQL) hands the values of
    an object to them.
    Theorems: the text of an admitted statement reads as its tokens, so that
    identifiers and values do not break out of their quotes (the statements
    that are not admitted are listed beside the theorem), every placeholder has its host
    variable, the builder only lets complete clauses through in order, the
    compilers of the backends move LIMIT as they should; the statements of a
    table have the columns of its class with their SQL types, sizes and
    constraints, specified field by field and apart from the serializers; the
    value of each column meets its placeholder and arrives at the database,
    within the bounds of what the binders pass on.

    HTTP (src/http). [Http] (http, mime_types, request, response) has the
    tables and messages; [RequestParser] and [ResponseParser] are the two
    state machines; [Regex] is the part of std::regex that [Routing]
    (routing_engine, route_endpoint, middleware) uses; [StaticFiles] is
    static_file_service; [HttpExchange] (http_client,
    http_server_connection, stream_handler) composes them into a whole
    exchange over a connection; [Template] (template_engine and detail/,
    utils/html) renders pages from JSON data.
    Theorems: a parser reads what the other side writes, however the bytes are
    cut behind the version prefix; it throws exactly for an unreadable length
    of a body; a route matches
    exactly the urls of its pattern and hands over its parameters; no file
    outside the directory is served; request and response arrive as sent; a
    template renders as its structure says, with a meaning of variables,
    filters, conditions and loops that does not use the renderer's functions,
    and an escaped value stays text.

    Network and threads (src/net, src/utils). [LeaderFollower]
    (leader_follower_thread_pool), [Reactor] (reactor, fdset, select_fdsets)
    and [ThreadPool] (utils/thread_pool) are transition systems.
    Theorems: there is at most one leader, no wake-up is lost, shutdown ends
    every thread, reading and writing are handled by one thread at a time,
    where the deletion of handlers, which runs without the mutex, is
    interleaved with everything else; a thread pool
    executes every task once and in order.

    Utilities (src/utils). [Date] (calendar, date), [Base64], [Url],
    [Version], [Sha256] (sha256, hmac), [FileSystem] (os, file) and [Stream]
    (stream, stream_processor).
    Theorems: round trips, calendar arithmetic against counting days, digests
    of messages in pieces against the published definitions, a stream against
    functions on lists.

    Logging (src/logger). [Logger] (file_sink, rotating_file_sink, log_domain,
    log_manager, logger) writes lines into the files of [FileSystem].
    Theorem: a rotating sink with numbered files keeps the latest lines, none
    torn, in files of bounded number and, if no line exceeds the limit, size.

    Interactions: ObjectStore calls PrototypeTree through [NodeLists], which
    StoreTree implements, ObjectView reads the lists of PrototypeTree,
    ObjectDeleter calls the endpoints of Relations,
    Transaction calls ObjectSerializer, which uses ByteBuffer through
    [ByteQueue]; Session observes ObjectStore and its transactions and writes
    to a [Database]; JsonParser builds Json through [JsonHandler], and
    JsonMapper parses with the same parser; Dialects
    implement the hooks of Dialect and the laws of Statements, ClassMapping
    and ParameterBinder build on them; Logger writes to FileSystem; Reactor
    runs on LeaderFollower; HttpExchange runs the parsers, Routing and the
    send loops.

    ** Where the code does not do what it means to

    Each such place is an [Example] or lemma beside the model, and the
    theorems state the condition that excludes it. Among them: a key compares
    in reverse ([Identifier]), zero bytes vanish in base64 ([Base64]), a route
    parameter behind a group or a static middleware is shifted ([Routing]),
    two responses in one piece become one ([ResponseParser]), a timer can be
    handled twice at a time ([Reactor]), a waiting caller of a thread pool can
    miss the last notification ([ThreadPool]), a template loses braces and
    ignores a misspelled filter ([Template]), an object that is put into a
    second container stays in the first ([RelationSync]), a refused
    removal spoils the next one ([ObjectDeleter]), a session that loads one
    table inserts its rows again, and one that rolls back after a commit that
    failed behind a removal deletes a stored proxy ([SessionLoad]), a quote
    behind a backslash ends a MySQL string ([SqlSafety]), a list inside an
    element of a list is lost in json ([JsonMapping]), a digest of a long message is wrong ([Sha256]), a
    rotating log in another directory does not rotate ([Logger]), and SQLite
    gets only 32 bits of a [long], and 0 instead of NULL
    ([ParameterBinder]).

    ** Not modelled

    - The connections, statements and results of the database backends, which
      are calls of their client libraries, with the binders of MySQL and SQL
      Server, which fill the buffers of these libraries.
    - Sockets, acceptors, connectors, dynamic libraries and clocks, which are
      system calls.
    - Relations that are objects with a table of their own, the resolvers that
      load them, the visitors that insert an object with its relations
      (object_inserter, node_analyzer): the theorems on relations start from
      what they establish; the JSON mappers of stored objects, which differ
      from those of plain objects in these relations.
    - Expression templates, type traits, dependency injection and other
      compile-time plumbing, which vanish when values are passed.
    - utils/tree, which no other part uses; the unit-test framework and the
      examples. *)

From Stdlib Require Export ZArith Lia Ascii Sorted.
From stdpp Require Export base list gmap strings numbers option.

(** ** Exceptions and results

    A C++ function that can throw returns a [result]: [Ok] with its value or
    [Throw] with the exception. [undefined_behaviour] marks the executions the
    C++ standard gives no meaning to (reading past the end, [front()] of an
    empty list); [out_of_fuel] marks a loop of the model that was given too
    little fuel, and the components prove that it never shows up. *)
Inductive exn : Type :=
| logic_error (msg : string)
| out_of_range (msg : string)
| invalid_argument (msg : string)
| runtime_error (msg : string)
| object_exception (msg : string)
| json_exception (msg : string)
| undefined_behaviour (msg : string)
| not_modelled (msg : string)
| out_of_fuel.

Inductive result (A : Type) : Type :=
| Ok (a : A)
| Throw (e : exn).
Arguments Ok {A} _.
Arguments Throw {A} _.

Definition rbind {A B} (r : result A) (k : A -> result B) : result B :=
  match r with
  | Ok a => k a
  | Throw e => Throw e
  end.

Definition is_ok {A} (r : result A) : bool :=
  match r with Ok _ => true | Throw _ => false end.
Definition ok_or {A} (d : A) (r : result A) : A :=
  match r with Ok a => a | Throw _ => d end.

Lemma is_ok_or {A} (d : A) r : is_ok r = true -> r = Ok (ok_or d r).
Proof. by destruct r. Qed.


Declare Scope cxx_scope.
Delimit Scope cxx_scope with cxx.

Notation "'let?' x ':=' r 'in' k" := (rbind r (fun x => k))
  (at level 10, x pattern, r at level 200, k at level 200)
  : cxx_scope.

Lemma rbind_Ok {A B} (r : result A) (k : A -> result B) b :
  rbind r k = Ok b -> exists a, r = Ok a /\ k a = Ok b.
Proof. destruct r; simpl; [eauto | discriminate]. Qed.

Lemma rbind_ret {A} (r : result A) : rbind r Ok = r.
Proof. by destruct r. Qed.

#[export] Instance exn_eq_dec : EqDecision exn.
Proof. solve_decision. Defined.

#[export] Instance result_eq_dec `{EqDecision A} : EqDecision (result A).
Proof. solve_decision. Defined.

(** ** Strings

    A [std::string] is a list of 8-bit characters; [lit] turns a literal of
    the source into such a list. *)
Abbreviation str := (list ascii).

Definition lit (s : string) : str := String.list_ascii_of_string s.
Arguments lit _%_string.

(** The [unsigned char] value of a character, and the character of a value
    (the conversion to [char] keeps the low eight bits). *)
Definition code (c : ascii) : Z := Z.of_N (N_of_ascii c).
Definition chr (z : Z) : ascii := ascii_of_N (Z.to_N (z mod 256)).

Lemma code_range c : (0 <= code c < 256)%Z.
Proof. destruct c as [[] [] [] [] [] [] [] []]; vm_compute; split; congruence. Qed.

Lemma chr_code c : chr (code c) = c.
Proof. by destruct c as [[] [] [] [] [] [] [] []]. Qed.

Lemma code_inj c d : code c = code d -> c = d.
Proof. intros H. by rewrite <- (chr_code c), <- (chr_code d), H. Qed.

Lemma code_chr z : (0 <= z < 256)%Z -> code (chr z) = z.
Proof.
  intros H. unfold code, chr.
  rewrite Z.mod_small by lia.
  rewrite N_ascii_embedding by lia. lia.
Qed.

#[export] Instance code_Inj : Inj (=) (=) code.
Proof. intros c d. apply code_inj. Qed.

(** A fact about every character is decided by running over the 256 of them. *)
Definition all_chars : list ascii := (fun n => ascii_of_nat n) <$> seq 0 256.

Lemma elem_of_all_chars c : c ∈ all_chars.
Proof.
  unfold all_chars. apply list_elem_of_fmap. exists (nat_of_ascii c).
  rewrite ascii_nat_embedding. split; [done |].
  apply elem_of_seq. pose proof (nat_ascii_bounded c). lia.
Qed.

Lemma forall_chars (p : ascii -> bool) :
  forallb p all_chars = true -> forall c, p c = true.
Proof.
  intros H c. rewrite forallb_forall in H.
  apply H, list_elem_of_In, elem_of_all_chars.
Qed.

Lemma forall_chars_dec (P : ascii -> Prop) `{!forall c, Decision (P c)} :
  forallb (fun c => bool_decide (P c)) all_chars = true -> forall c, P c.
Proof. intros E c. pose proof (forall_chars _ E c) as Hc. by apply bool_decide_eq_true in Hc. Qed.

(** Decide a property of one character, the last hypothesis reverted, by
    going through all of them. *)
Ltac by_chars c := revert c; refine (forall_chars_dec _ _); vm_compute; reflexivity.

(** Character classes of the "C" locale ([<cctype>]); characters above 127
    belong to none of them. *)
Section ctype.
Local Open Scope Z_scope.

Definition between (lo hi : Z) (c : ascii) : bool := (lo <=? code c) && (code c <=? hi).
Definition isupper (c : ascii) : bool := between 65 90 c.
Definition islower (c : ascii) : bool := between 97 122 c.
Definition isdigit (c : ascii) : bool := between 48 57 c.
Definition isalpha (c : ascii) : bool := isupper c || islower c.
Definition isalnum (c : ascii) : bool := isalpha c || isdigit c.
Definition isxdigit (c : ascii) : bool := isdigit c || between 65 70 c || between 97 102 c.
Definition isspace (c : ascii) : bool := between 9 13 c || (code c =? 32).
Definition isgraph (c : ascii) : bool := between 33 126 c.
Definition ispunct (c : ascii) : bool := isgraph c && negb (isalnum c).
Definition tolower (c : ascii) : ascii := if isupper c then chr (code c + 32) else c.
End ctype.

(** Control characters that appear in the sources. *)
Definition NUL : ascii := chr 0.
Definition CR : ascii := chr 13.
Definition LF : ascii := chr 10.
Definition TAB : ascii := chr 9.
Definition DQUOTE : ascii := chr 34.
Definition BACKSLASH : ascii := chr 92.

(** [strchr(set, c) != nullptr] for a C string [set]: the terminating NUL is
    part of the string searched. *)
Definition strchr (set : str) (c : ascii) : bool :=
  bool_decide (c ∈ set) || bool_decide (c = NUL).

(** [strcasecmp(a, b) == 0]. *)
Definition strcasecmp0 (a b : str) : bool := bool_decide (tolower <$> a = tolower <$> b).

(** [split(str, delim, values)] with [std::getline] until the stream is
    exhausted: nothing is appended for what follows the last delimiter when it
    is empty. *)
Fixpoint split_from (delim : ascii) (item s : str) : list str :=
  match s with
  | [] => if bool_decide (item = []) then [] else [item]
  | c :: s' => if bool_decide (c = delim) then item :: split_from delim [] s' else split_from delim (item ++ [c]) s'
  end.
Definition split (s : str) (delim : ascii) : list str := split_from delim [] s.

Lemma split_from_app delim item s t : (delim ∉ s) -> split_from delim item (s ++ t) = split_from delim (item ++ s) t.
Proof.
  revert item. induction s as [|c s IH]; intros item Hs; simpl; [by rewrite app_nil_r |].
  apply not_elem_of_cons in Hs as [Hc Hs]. rewrite bool_decide_eq_false_2 by congruence.
  rewrite IH by done. by rewrite <- app_assoc.
Qed.

(** Splitting joined items, none of which is empty or has the delimiter. *)
Lemma split_joined delim k ks : Forall (fun s => s <> [] /\ (delim ∉ s)) (k :: ks) ->
  split (k ++ concat (cons delim <$> ks)) delim = k :: ks.
Proof.
  unfold split. revert k. induction ks as [|k' ks IH]; intros k [[Hne Hk] H]%Forall_cons_1.
  - cbn. rewrite split_from_app by done. simpl. by rewrite bool_decide_eq_false_2.
  - cbn [fmap list_fmap concat]. rewrite split_from_app by done. simpl. rewrite bool_decide_eq_true_2 by done.
    f_equal. by apply IH.
Qed.

(** ** Fixed-width integers *)
Section widths.
Local Open Scope Z_scope.

Definition wrap (w : Z) (z : Z) : Z := z mod 2 ^ w.
Definition u8 : Z -> Z := wrap 8.
Definition u16 : Z -> Z := wrap 16.
Definition u32 : Z -> Z := wrap 32.
Definition u64 : Z -> Z := wrap 64.
Definition swrap (w : Z) (z : Z) : Z := (z + 2 ^ (w - 1)) mod 2 ^ w - 2 ^ (w - 1).
Definition s32 : Z -> Z := swrap 32.

Lemma wrap_range w z : 0 <= w -> 0 <= wrap w z < 2 ^ w.
Proof. intros H. apply Z.mod_pos_bound. apply Z.pow_pos_nonneg; lia. Qed.

Lemma wrap_small w z : 0 <= z < 2 ^ w -> wrap w z = z.
Proof. intros H. by apply Z.mod_small. Qed.

Lemma wrap_wrap w z : 0 <= w -> wrap w (wrap w z) = wrap w z.
Proof. intros H. by apply wrap_small, wrap_range. Qed.

Lemma wrap_add w a b : 0 <= w -> wrap w (wrap w a + b) = wrap w (a + b).
Proof. intros H. unfold wrap. apply Zplus_mod_idemp_l. Qed.

Lemma swrap_small w z : 1 <= w -> - 2 ^ (w - 1) <= z < 2 ^ (w - 1) -> swrap w z = z.
Proof.
  intros Hw H. unfold swrap. rewrite Z.mod_small; [lia |].
  replace (2 ^ w) with (2 * 2 ^ (w - 1)); [lia |].
  rewrite <- Z.pow_succ_r by lia. f_equal; lia.
Qed.
End widths.

(** ** Tactics *)

(** Case analysis on the condition of a conditional or the scrutinee of a
    match, in the goal or in a hypothesis. *)
Ltac case_goal :=
  match goal with
  | |- context [if ?b then _ else _] => destruct b eqn:?
  | |- context [match ?x with _ => _ end] => destruct x eqn:?
  end.
Ltac case_hyp H :=
  match type of H with
  | context [if ?b then _ else _] => destruct b eqn:?
  | context [match ?x with _ => _ end] => destruct x eqn:?
  end.

(** Equations between boolean tests of numbers. *)
Ltac zbool :=
  repeat (match goal with
          | |- context [(?a <? ?b)%Z] => destruct (Z.ltb_spec a b)
          | |- context [(?a <=? ?b)%Z] => destruct (Z.leb_spec a b)
          | |- context [(?a =? ?b)%Z] => destruct (Z.eqb_spec a b)
          end; cbn [andb orb negb]; try reflexivity; try (exfalso; lia)).

(** Boolean tests to propositions. *)
Ltac breflect :=
  repeat match goal with
  | H : (_ && _) = true |- _ => apply andb_true_iff in H as [? ?]
  | H : (_ || _) = false |- _ => apply orb_false_iff in H as [? ?]
  | H : negb _ = true |- _ => apply negb_true_iff in H
  | H : negb _ = false |- _ => apply negb_false_iff in H
  | H : bool_decide _ = true |- _ => apply bool_decide_eq_true in H
  | H : bool_decide _ = false |- _ => apply bool_decide_eq_false in H
  | H : (_ <? _)%nat = true |- _ => apply Nat.ltb_lt in H
  | H : (_ <? _)%nat = false |- _ => apply Nat.ltb_ge in H
  | H : (_ <=? _)%nat = true |- _ => apply Nat.leb_le in H
  | H : (_ <=? _)%nat = false |- _ => apply Nat.leb_gt in H
  | H : (_ =? _)%nat = true |- _ => apply Nat.eqb_eq in H
  | H : (_ =? _)%nat = false |- _ => apply Nat.eqb_neq in H
  | H : (_ <? _)%Z = true |- _ => apply Z.ltb_lt in H
  | H : (_ <? _)%Z = false |- _ => apply Z.ltb_ge in H
  | H : (_ <=? _)%Z = true |- _ => apply Z.leb_le in H
  | H : (_ <=? _)%Z = false |- _ => apply Z.leb_gt in H
  | H : (_ =? _)%Z = true |- _ => apply Z.eqb_eq in H
  | H : (_ =? _)%Z = false |- _ => apply Z.eqb_neq in H
  end.

Create HintDb matador.
Create Rewrite HintDb matador.
#[export] Hint Resolve code_range chr_code elem_of_all_chars : matador.

(** ** Lists *)
Section lists.
Context {A : Type}.
Implicit Types l k : list A.

(** [back()] and what is left of a list without its last element. *)
Fixpoint unsnoc l : option (list A * A) :=
  match l with
  | [] => None
  | [x] => Some ([], x)
  | x :: l' => match unsnoc l' with
               | Some (i, z) => Some (x :: i, z)
               | None => None
               end
  end.

Lemma unsnoc_snoc l x : unsnoc (l ++ [x]) = Some (l, x).
Proof.
  induction l as [|y l IH]; [done |]. simpl.
  destruct (l ++ [x]) eqn:E; [by destruct l |]. by rewrite IH.
Qed.

Lemma unsnoc_Some l i x : unsnoc l = Some (i, x) -> l = i ++ [x].
Proof.
  destruct l as [|z l _] using rev_ind; [done |].
  rewrite unsnoc_snoc. by intros [= -> ->].
Qed.

Lemma unsnoc_None l : unsnoc l = None -> l = [].
Proof. destruct l as [|z l _] using rev_ind; [done |]. by rewrite unsnoc_snoc. Qed.
End lists.

(** ** Lookup tables

    A constant [std::unordered_map] of the sources is a list of pairs; the
    first entry with the key is the one the initialiser list keeps. *)
Section assoc.
Context {K V : Type} `{EqDecision K}.

Fixpoint assoc (k : K) (l : list (K * V)) : option V :=
  match l with
  | [] => None
  | (k', v) :: l' => if decide (k = k') then Some v else assoc k l'
  end.

(** [map.at(k)]. *)
Definition assoc_at (k : K) (l : list (K * V)) : result V :=
  match assoc k l with
  | Some v => Ok v
  | None => Throw (out_of_range "at")
  end.
End assoc.

(** [std::map::insert] and [std::unordered_map::insert]: an existing entry is
    kept. *)
Definition map_insert_new `{Countable K} {V} (k : K) (v : V) (m : gmap K V) : gmap K V :=
  match m !! k with
  | Some _ => m
  | None => <[k := v]> m
  end.

Lemma lookup_map_insert_new `{Countable K} {V} (k : K) (v : V) (m : gmap K V) :
  map_insert_new k v m !! k = Some (default v (m !! k)).
Proof.
  unfold map_insert_new. destruct (m !! k) eqn:E; simpl; [done |]. apply lookup_insert_eq.
Qed.

Lemma lookup_map_insert_new_ne `{Countable K} {V} (k k' : K) (v : V) (m : gmap K V) :
  k <> k' -> map_insert_new k v m !! k' = m !! k'.
Proof. intros H1. unfold map_insert_new. destruct (m !! k); [done |]. by apply lookup_insert_ne. Qed.

(** ** Numbers in text *)
Section decimal.
Local Open Scope Z_scope.

Definition digit_value (c : ascii) : Z := code c - 48.

(** Value of a digit in a base up to 36, [None] for other characters. *)
Definition digit_of (c : ascii) : option Z :=
  if isdigit c then Some (code c - 48)
  else if isupper c then Some (code c - 55)
  else if islower c then Some (code c - 87)
  else None.

(** The longest prefix of base-[b] digits: value (starting from [acc]), number
    of digits and the unread rest. *)
Fixpoint digits (b : Z) (acc : Z) (n : nat) (s : str) : Z * nat * str :=
  match s with
  | c :: s' =>
    match digit_of c with
    | Some d => if d <? b then digits b (acc * b + d) (S n) s' else (acc, n, s)
    | None => (acc, n, s)
    end
  | [] => (acc, n, s)
  end.

Fixpoint skip_spaces (s : str) : str :=
  match s with
  | c :: s' => if isspace c then skip_spaces s' else s
  | [] => []
  end.

Definition ULONG_MAX : Z := 2 ^ 64 - 1.

(** [std::stoul(s)]: white space, an optional sign, decimal digits. *)
Definition stoul (s : str) : result Z :=
  let s1 := skip_spaces s in
  let '(neg, s2) :=
    match s1 with
    | c :: s' => if bool_decide (c = "-"%char) then (true, s')
                 else if bool_decide (c = "+"%char) then (false, s') else (false, s1)
    | [] => (false, s1)
    end in
  let '(v, n, _) := digits 10 0 0 s2 in
  if (n =? 0)%nat then Throw (invalid_argument "stoul")
  else if ULONG_MAX <? v then Throw (out_of_range "stoul")
  else Ok (if neg then u64 (- v) else v).

(** [std::to_string] of an unsigned number. *)
Fixpoint decimal_loop (fuel : nat) (z : Z) (acc : str) : str :=
  match fuel with
  | O => acc
  | S fuel =>
    let acc' := chr (48 + z mod 10) :: acc in
    if z / 10 =? 0 then acc' else decimal_loop fuel (z / 10) acc'
  end.

Definition to_string_u (z : Z) : str := decimal_loop (S (Z.to_nat (Z.log2 z))) z [].
Definition to_string_z (z : Z) : str :=
  if z <? 0 then "-"%char :: to_string_u (- z) else to_string_u z.

Lemma digit_of_chr d : 0 <= d < 10 -> digit_of (chr (48 + d)) = Some d.
Proof.
  intros H. assert (d = 0 \/ d = 1 \/ d = 2 \/ d = 3 \/ d = 4 \/ d = 5 \/ d = 6 \/ d = 7 \/ d = 8 \/ d = 9) as Hd by lia.
  repeat destruct Hd as [-> | Hd]; try (subst d); reflexivity.
Qed.

Lemma digits_step b acc n c s d :
  digit_of c = Some d -> d < b -> digits b acc n (c :: s) = digits b (acc * b + d) (S n) s.
Proof. intros Hd Hb. simpl. rewrite Hd. by rewrite (proj2 (Z.ltb_lt _ _) Hb). Qed.

Lemma digits_decimal_loop fuel z acc a n :
  0 <= z < 2 ^ Z.of_nat fuel -> (0 < fuel)%nat ->
  exists k, (0 < k)%nat /\
    digits 10 a n (decimal_loop fuel z acc) = digits 10 (a * 10 ^ Z.of_nat k + z) (n + k) acc.
Proof.
  revert z acc a n. induction fuel as [|fuel IH]; intros z acc a n Hz Hf; [lia |].
  assert (0 <= z mod 10 < 10) as Hm by (apply Z.mod_pos_bound; lia).
  cbn [decimal_loop]. destruct (z / 10 =? 0) eqn:E; breflect.
  - exists 1%nat. split; [lia |]. rewrite (digits_step _ _ _ _ _ _ (digit_of_chr _ Hm)) by lia.
    f_equal; [|lia]. pose proof (Z.div_mod z 10 ltac:(lia)). lia.
  - assert (2 ^ Z.of_nat (S fuel) = 2 * 2 ^ Z.of_nat fuel) as Hp
      by (rewrite Nat2Z.inj_succ, Z.pow_succ_r by lia; done).
    assert (0 < z / 10) by (pose proof (Z.div_pos z 10); lia).
    assert (z / 10 < 2 ^ Z.of_nat fuel) as Hlt.
    { apply Z.div_lt_upper_bound; lia. }
    destruct fuel as [|fuel']; [simpl in Hlt; lia |].
    destruct (IH (z / 10) (chr (48 + z mod 10) :: acc) a n) as (k & Hk & ->); [lia | lia |].
    exists (S k). split; [lia |]. rewrite (digits_step _ _ _ _ _ _ (digit_of_chr _ Hm)) by lia.
    f_equal; [|lia]. rewrite Nat2Z.inj_succ, Z.pow_succ_r by lia.
    pose proof (Z.div_mod z 10 ltac:(lia)). lia.
Qed.

Lemma decimal_loop_digits fuel z acc :
  0 <= z -> Forall (fun c => isdigit c = true) acc ->
  Forall (fun c => isdigit c = true) (decimal_loop fuel z acc).
Proof.
  revert z acc. induction fuel as [|fuel IH]; intros z acc Hz Ha; [done |]. cbn [decimal_loop].
  assert (0 <= z mod 10 < 10) as Hm by (apply Z.mod_pos_bound; lia).
  assert (isdigit (chr (48 + z mod 10)) = true) as Hd.
  { unfold isdigit, between. rewrite code_chr by lia. rewrite !(proj2 (Z.leb_le _ _)) by lia. done. }
  destruct (z / 10 =? 0); [by constructor |]. apply IH; [apply Z.div_pos; lia | by constructor].
Qed.

Lemma to_string_u_fuel z : 0 <= z -> z < 2 ^ Z.of_nat (S (Z.to_nat (Z.log2 z))).
Proof.
  intros Hz. rewrite Nat2Z.inj_succ, Z2Nat.id by apply Z.log2_nonneg.
  destruct (Z.eq_dec z 0) as [-> | Hne]; [vm_compute; done |].
  apply Z.log2_spec. lia.
Qed.

Lemma digits_to_string_u z s a n :
  0 <= z -> exists k, (0 < k)%nat /\
    digits 10 a n (to_string_u z ++ s) = digits 10 (a * 10 ^ Z.of_nat k + z) (n + k) s.
Proof.
  intros Hz. unfold to_string_u.
  assert (forall f z acc, decimal_loop f z acc ++ s = decimal_loop f z (acc ++ s)) as Happ.
  { induction f as [|f IH]; intros; cbn [decimal_loop]; [done |]. by destruct (_ =? 0). }
  rewrite Happ. apply digits_decimal_loop; [|lia]. split; [done |]. by apply to_string_u_fuel.
Qed.

Lemma to_string_u_digits z : 0 <= z -> Forall (fun c => isdigit c = true) (to_string_u z).
Proof. intros Hz. by apply decimal_loop_digits. Qed.

Lemma to_string_u_nonempty z : 0 <= z -> exists c s, to_string_u z = c :: s /\ isdigit c = true.
Proof.
  intros Hz. pose proof (to_string_u_digits z Hz) as Hd.
  destruct (to_string_u z) as [|c s] eqn:E.
  - exfalso. destruct (digits_to_string_u z [] 0 0 Hz) as (k & Hk & H).
    rewrite E in H. simpl in H. injection H as _ H2. lia.
  - apply Forall_cons_1 in Hd as [? _]. eauto.
Qed.

Lemma isdigit_not_space c : isdigit c = true -> isspace c = false /\ c <> "-"%char /\ c <> "+"%char.
Proof.
  pose proof (forall_chars (fun c => implb (isdigit c)
    (negb (isspace c) && negb (bool_decide (c = "-"%char)) && negb (bool_decide (c = "+"%char))))) as H.
  intros Hc. specialize (H eq_refl c). cbv beta in H. rewrite Hc in H. simpl in H. by breflect.
Qed.

Lemma digit_of_nonneg c d : digit_of c = Some d -> 0 <= d.
Proof.
  unfold digit_of, isdigit, isupper, islower, between. intros H.
  repeat case_match; simplify_eq; breflect; lia.
Qed.

Lemma digits_nonneg b acc n s : 0 <= b -> 0 <= acc -> 0 <= (digits b acc n s).1.1.
Proof.
  intros Hb. revert acc n. induction s as [|c s IH]; intros acc n Ha; simpl; [done |].
  destruct (digit_of c) as [d|] eqn:E; simpl; [|done]. destruct (d <? b); simpl; [|done].
  apply IH. apply digit_of_nonneg in E. nia.
Qed.

Lemma stoul_range s v : stoul s = Ok v -> 0 <= v <= ULONG_MAX.
Proof.
  unfold stoul. intros H.
  set (x := match skip_spaces s with [] => _ | _ => _ end) in H. destruct x as [neg s2].
  pose proof (digits_nonneg 10 0 0 s2 ltac:(lia) ltac:(lia)) as Hd.
  destruct (digits 10 0 0 s2) as [[v' n] rest]. simpl in Hd.
  destruct (n =? 0)%nat; [done |]. destruct (ULONG_MAX <? v') eqn:E; [done |]. breflect.
  injection H as <-. destruct neg; [|lia].
  pose proof (wrap_range 64 (- v') ltac:(lia)). unfold ULONG_MAX, u64 in *. lia.
Qed.

(** Reading back a printed number. *)
Lemma stoul_to_string z : 0 <= z <= ULONG_MAX -> stoul (to_string_u z) = Ok z.
Proof.
  intros Hz. unfold stoul.
  destruct (to_string_u_nonempty z) as (c & s & E & Hc); [lia |].
  destruct (isdigit_not_space c Hc) as (Hs & Hm & Hp).
  destruct (digits_to_string_u z [] 0 0) as (k & Hk & H); [lia |].
  rewrite app_nil_r, E in H. rewrite E.
  assert (skip_spaces (c :: s) = c :: s) as -> by (simpl; by rewrite Hs).
  rewrite !bool_decide_eq_false_2 by done. rewrite H. cbn [digits].
  destruct (0 + k =? 0)%nat eqn:E0; breflect; [lia |].
  rewrite (proj2 (Z.ltb_ge _ _)) by lia. f_equal.
Qed.
End decimal.

(** ** Ordered maps

    [std::map<std::string, V>] as the list of its entries in order. *)

(** [std::string::operator<]: lexicographic on unsigned characters. *)
Fixpoint str_ltb (a b : str) : bool :=
  match a, b with
  | _, [] => false
  | [], _ :: _ => true
  | x :: a, y :: b => (code x <? code y)%Z || ((code x =? code y)%Z && str_ltb a b)
  end.

Lemma str_ltb_irrefl s : str_ltb s s = false.
Proof. induction s as [|c s IH]; simpl; [done |]. by rewrite Z.ltb_irrefl, Z.eqb_refl, IH. Qed.

Lemma str_ltb_total a b : str_ltb a b = true \/ a = b \/ str_ltb b a = true.
Proof.
  revert b. induction a as [|x a IH]; intros [|y b]; simpl; auto.
  destruct (Z.lt_trichotomy (code x) (code y)) as [H | [H | H]].
  - left. by rewrite (proj2 (Z.ltb_lt _ _) H).
  - rewrite H, Z.ltb_irrefl, Z.eqb_refl. simpl. rewrite <- (chr_code x), <- (chr_code y), H.
    destruct (IH b) as [? | [-> | ?]]; auto.
  - right. right. by rewrite (proj2 (Z.ltb_lt _ _) H).
Qed.

Lemma str_ltb_trans a b c : str_ltb a b = true -> str_ltb b c = true -> str_ltb a c = true.
Proof.
  revert b c. induction a as [|x a IH]; intros [|y b] [|z c]; simpl; try done. intros H1 H2.
  apply orb_true_iff in H1 as [H1 | [E1 H1]%andb_true_iff]; apply orb_true_iff in H2 as [H2 | [E2 H2]%andb_true_iff];
    breflect; apply orb_true_iff.
  - left. apply Z.ltb_lt. lia.
  - left. apply Z.ltb_lt. lia.
  - left. apply Z.ltb_lt. lia.
  - right. rewrite (IH b c H1 H2), andb_true_r. apply Z.eqb_eq. lia.
Qed.

Lemma str_ltb_asym a b : str_ltb a b = true -> str_ltb b a = false.
Proof.
  intros H. destruct (str_ltb b a) eqn:E; [|done]. pose proof (str_ltb_trans _ _ _ H E) as H'.
  by rewrite str_ltb_irrefl in H'.
Qed.

Section ordered_maps.
Context {V : Type}.

(** [m[k] = v]. *)
Fixpoint map_set (k : str) (v : V) (m : list (str * V)) : list (str * V) :=
  match m with
  | [] => [(k, v)]
  | (k', v') :: m' =>
    if str_ltb k k' then (k, v) :: m
    else if str_ltb k' k then (k', v') :: map_set k v m'
    else (k, v) :: m'
  end.

(** [m.erase(k)]. *)
Definition map_erase (k : str) (m : list (str * V)) : list (str * V) := filter (fun e => e.1 <> k) m.

Definition key_lt (a b : str * V) : Prop := str_ltb a.1 b.1 = true.

#[export] Instance key_lt_trans : Transitive key_lt.
Proof. intros a b c. apply str_ltb_trans. Qed.

Abbreviation ordered := (StronglySorted key_lt).

Lemma assoc_Some_in k v (m : list (str * V)) : assoc k m = Some v -> (k, v) ∈ m.
Proof.
  induction m as [|[k' v'] m IH]; [done |]. simpl. case_decide; [intros [= ->]; subst; by left |].
  intros H'. right. auto.
Qed.

Lemma assoc_map_set k v m k' : ordered m -> assoc k' (map_set k v m) = if decide (k' = k) then Some v else assoc k' m.
Proof.
  intros Hm. induction Hm as [|[k1 v1] m Hm IH Hk]; simpl; [done |].
  destruct (str_ltb k k1) eqn:E1; [done |]. destruct (str_ltb k1 k) eqn:E2; simpl.
  - rewrite IH. do 2 case_decide; try done. subst. by rewrite str_ltb_irrefl in E2.
  - assert (k = k1) as -> by (destruct (str_ltb_total k k1) as [|[|]]; congruence). by repeat case_decide.
Qed.

Lemma elem_of_map_set k v m e : e ∈ map_set k v m -> e = (k, v) \/ e ∈ m.
Proof.
  induction m as [|[k1 v1] m IH]; simpl; [set_solver |].
  destruct (str_ltb k k1); [set_solver |]. destruct (str_ltb k1 k); set_solver.
Qed.

Lemma map_set_ordered k v m : ordered m -> ordered (map_set k v m).
Proof.
  intros Hm. induction Hm as [|[k1 v1] m Hm IH Hk]; simpl; [by repeat constructor |].
  destruct (str_ltb k k1) eqn:E1; [|destruct (str_ltb k1 k) eqn:E2].
  - constructor; [by constructor |]. constructor; [done |]. eapply Forall_impl; [|exact Hk].
    intros e He. by eapply str_ltb_trans.
  - constructor; [done |]. apply list.Forall_forall. intros e He. apply elem_of_map_set in He as [-> | He]; [done |].
    by eapply list.Forall_forall in Hk.
  - assert (k = k1) as -> by (destruct (str_ltb_total k k1) as [|[|]]; congruence). by constructor.
Qed.

(** A key behind all others is appended. *)
Lemma map_set_last k v m : Forall (fun e => str_ltb e.1 k = true) m -> map_set k v m = m ++ [(k, v)].
Proof.
  intros H. induction H as [|[k1 v1] m H1 H IH]; simpl in *; [done |]. by rewrite (str_ltb_asym _ _ H1), H1, IH.
Qed.

(** An assigned value can be assigned again. *)
Lemma map_set_set k v v' m : ordered m -> map_set k v' (map_set k v m) = map_set k v' m.
Proof.
  intros Hm. induction Hm as [|[k1 v1] m Hm IH Hk]; simpl; [by rewrite str_ltb_irrefl |].
  destruct (str_ltb k k1) eqn:E1; simpl; [by rewrite str_ltb_irrefl |].
  destruct (str_ltb k1 k) eqn:E2; simpl; [by rewrite E1, E2, IH |]. by rewrite str_ltb_irrefl.
Qed.
End ordered_maps.
Abbreviation ordered := (StronglySorted key_lt).
