(* ===== verification/ByteBuffer.v ===== *)
(** * The chunked byte queue of transactions

    Model of [byte_buffer] (include/matador/utils/byte_buffer.hpp,
    src/utils/byte_buffer.cpp): a list of fixed-size chunks that a transaction
    writes object images into and reads them back from, first in first out.
    The chunk array is uninitialised memory in the code; [data] holds the
    prefix that was written. The abstract specification is a plain queue of
    bytes, [contents], and every operation is shown to refine it. *)

From S2P Require Import Prelude.

Local Open Scope cxx_scope.

Module ByteBuffer.

Definition BUF_SIZE : nat := N.to_nat (N.shiftl 1 14).

Record buffer_chunk := Chunk {
  data : str;
  read_cursor : nat;
  write_cursor : nat }.

Definition new_chunk : buffer_chunk := Chunk [] 0 0.

Definition available (c : buffer_chunk) : nat := BUF_SIZE - write_cursor c.
Definition used (c : buffer_chunk) : nat := write_cursor c - read_cursor c.
Definition released (c : buffer_chunk) : nat := read_cursor c.

Abbreviation byte_buffer := (list buffer_chunk).

(** The constructor pushes one empty chunk. *)
Definition create : byte_buffer := [new_chunk].

(** [memcpy(&chunk.data[chunk.write_cursor], bytes, n)] followed by the
    advance of the write cursor. *)
Definition chunk_write (c : buffer_chunk) (bytes : str) : buffer_chunk :=
  Chunk (take (write_cursor c) (data c) ++ bytes ++ drop (write_cursor c + length bytes) (data c))
        (read_cursor c) (write_cursor c + length bytes).

(** The bytes [std::copy] takes out of a chunk, starting at its read cursor. *)
Definition chunk_read (c : buffer_chunk) (n : nat) : str :=
  take n (drop (read_cursor c) (data c)).

(** [append]: [bytes] is what is left to write ([ptr + bytes_written], [size]). *)
Fixpoint append_loop (fuel : nat) (cl : byte_buffer) (bytes : str) : result byte_buffer :=
  match fuel with
  | O => Throw out_of_fuel
  | S fuel =>
    match unsnoc cl with
    | None => Throw (undefined_behaviour "back() of an empty list")
    | Some (init, c) =>
      if (available c <? length bytes)%nat then
        let n := available c in
        append_loop fuel (init ++ [chunk_write c (take n bytes); new_chunk]) (drop n bytes)
      else if (0 <? length bytes)%nat then Ok (init ++ [chunk_write c bytes])
      else Ok cl
    end
  end.

Definition append (cl : byte_buffer) (bytes : str) : result byte_buffer :=
  append_loop (S (S (length bytes))) cl bytes.

(** [release]: the loop pops every chunk that is used up by the request, the
    rest is copied out of the chunk then in front. *)
Fixpoint release_loop (cl : byte_buffer) (size : nat) (acc : str) : byte_buffer * nat * str :=
  match cl with
  | c :: cl' =>
    if (used c <=? size)%nat
    then release_loop cl' (size - used c) (acc ++ chunk_read c (used c))
    else (cl, size, acc)
  | [] => (cl, size, acc)
  end.

Definition release (cl : byte_buffer) (size : nat) : result (byte_buffer * str) :=
  let '(cl1, size1, acc) := release_loop cl size [] in
  let? (cl2, acc2) :=
    (if (0 <? size1)%nat then
       match cl1 with
       | [] => Throw (undefined_behaviour "front() of an empty list")
       | c :: cl' => Ok (Chunk (data c) (read_cursor c + size1) (write_cursor c) :: cl',
                         acc ++ chunk_read c size1)
       end
     else Ok (cl1, acc)) in
  Ok (match cl2 with [] => [new_chunk] | _ => cl2 end, acc2).
Arguments release : simpl never.

Definition size (cl : byte_buffer) : result nat :=
  match unsnoc cl, cl with
  | Some (_, b), f :: _ => Ok (length cl * BUF_SIZE - available b - released f)
  | _, _ => Throw (undefined_behaviour "back() of an empty list")
  end.

Definition clear (cl : byte_buffer) : byte_buffer := [new_chunk].

(** ** Invariant and abstraction *)

Definition chunk_ok (c : buffer_chunk) : Prop :=
  length (data c) = write_cursor c /\ read_cursor c <= write_cursor c <= BUF_SIZE.

(** Every chunk but the last is full, and only the first was read from. *)
Definition full (c : buffer_chunk) : Prop := chunk_ok c /\ write_cursor c = BUF_SIZE.

Definition buffer_ok (cl : byte_buffer) : Prop :=
  exists init c, cl = init ++ [c] /\ Forall full init /\ chunk_ok c
                 /\ Forall (fun c => read_cursor c = 0) (tail cl).

Definition unread (c : buffer_chunk) : str := drop (read_cursor c) (data c).
Definition contents (cl : byte_buffer) : str := concat (unread <$> cl).

Lemma BUF_SIZE_pos : 0 < BUF_SIZE.
Proof. apply Nat.ltb_lt. vm_compute. reflexivity. Qed.
Opaque BUF_SIZE.

Lemma new_chunk_ok : chunk_ok new_chunk.
Proof. pose proof BUF_SIZE_pos. unfold chunk_ok; simpl; lia. Qed.

Lemma contents_app k l : contents (k ++ l) = contents k ++ contents l.
Proof. unfold contents. by rewrite fmap_app, concat_app. Qed.

Lemma contents_cons c l : contents (c :: l) = unread c ++ contents l.
Proof. done. Qed.

Lemma contents_one c : contents [c] = unread c.
Proof. unfold contents. simpl. apply app_nil_r. Qed.

Lemma unread_new : unread new_chunk = [].
Proof. done. Qed.

Lemma unread_length c : chunk_ok c -> length (unread c) = used c.
Proof. intros [H _]. unfold unread, used. rewrite length_drop. lia. Qed.

Lemma chunk_write_ok c bytes :
  chunk_ok c -> length bytes <= available c ->
  chunk_ok (chunk_write c bytes) /\ unread (chunk_write c bytes) = unread c ++ bytes.
Proof.
  intros [Hd Hb] Hl. unfold available in Hl. unfold chunk_ok, unread; simpl.
  rewrite (drop_ge (data c)) by lia. rewrite (take_ge (data c)) by lia.
  rewrite app_nil_r, length_app, Hd. split; [lia |].
  rewrite drop_app_le by lia. done.
Qed.

#[export] Hint Resolve new_chunk_ok BUF_SIZE_pos : matador.
#[export] Hint Rewrite contents_app contents_cons contents_one unread_new : matador.

Lemma tail_snoc_read (init : byte_buffer) c c' :
  read_cursor c' = read_cursor c ->
  Forall (fun c => read_cursor c = 0) (tail (init ++ [c])) ->
  Forall (fun c => read_cursor c = 0) (tail (init ++ [c'])).
Proof.
  intros Hr. destruct init as [|i init]; simpl; [done |].
  rewrite !Forall_app. intros [? [H _]%Forall_cons_1]. split; [done |].
  constructor; [by rewrite Hr | done].
Qed.

Lemma append_loop_spec fuel init c bytes :
  Forall full init -> chunk_ok c -> Forall (fun c => read_cursor c = 0) (tail (init ++ [c])) ->
  length bytes + (if (available c =? 0)%nat then 1 else 0) < fuel ->
  exists cl', append_loop fuel (init ++ [c]) bytes = Ok cl' /\ buffer_ok cl'
              /\ contents cl' = contents (init ++ [c]) ++ bytes.
Proof.
  revert init c bytes. induction fuel as [|fuel IH]; intros init c bytes Hi Hc Ht Hf; [lia |].
  simpl. rewrite unsnoc_snoc. destruct (available c <? length bytes)%nat eqn:E; breflect.
  - assert (length (take (available c) bytes) <= available c) as Hw by (rewrite length_take; lia).
    destruct (chunk_write_ok c (take (available c) bytes) Hc Hw) as [Hok Hun].
    destruct (IH (init ++ [chunk_write c (take (available c) bytes)]) new_chunk (drop (available c) bytes))
      as (cl' & E1 & E2 & E3); auto with matador.
    + apply Forall_app. split; [done |]. apply Forall_singleton. split; [done |].
      simpl. rewrite length_take. unfold available in *. destruct Hc. lia.
    + rewrite <- app_assoc. simpl.
      destruct init as [|i init]; simpl in *; [by repeat constructor |].
      apply Forall_app in Ht as [? [? _]%Forall_cons_1]. apply Forall_app. by repeat constructor.
    + rewrite length_drop. pose proof BUF_SIZE_pos.
      assert (available new_chunk = BUF_SIZE) as -> by (unfold available; simpl; lia).
      destruct (BUF_SIZE =? 0)%nat eqn:E0; breflect; [lia |].
      destruct (available c =? 0)%nat eqn:E1; breflect; lia.
    + exists cl'. rewrite <- app_assoc in E1. split; [done |]. split; [done |]. rewrite E3.
      autorewrite with matador. rewrite app_nil_r, Hun, <- !app_assoc, take_drop. done.
  - destruct (0 <? length bytes)%nat eqn:E0; breflect.
    + destruct (chunk_write_ok c bytes Hc) as [Hok Hun]; [lia |].
      eexists. split; [done |]. split.
      * exists init, (chunk_write c bytes). split_and!; try done.
        eapply tail_snoc_read; [|done]. done.
      * autorewrite with matador. by rewrite Hun, app_assoc.
    + eexists. split; [done |]. destruct bytes; [|simpl in *; lia].
      rewrite app_nil_r. split; [|done]. by exists init, c.
Qed.

Lemma append_spec cl bytes :
  buffer_ok cl ->
  exists cl', append cl bytes = Ok cl' /\ buffer_ok cl' /\ contents cl' = contents cl ++ bytes.
Proof.
  intros (init & c & -> & Hi & Hc & Ht). apply append_loop_spec; auto.
  destruct (available c =? 0)%nat; lia.
Qed.

Lemma release_loop_spec cl size acc :
  Forall chunk_ok cl ->
  exists k r, cl = k ++ r
    /\ release_loop cl size acc = (r, size - length (contents k), acc ++ contents k)
    /\ length (contents k) <= size
    /\ match r with [] => True | c :: _ => size - length (contents k) < used c end.
Proof.
  revert size acc. induction cl as [|c cl IH]; intros size acc Hf.
  - exists [], []. simpl. rewrite app_nil_r. split_and!; auto with lia. f_equal; f_equal; lia.
  - apply Forall_cons_1 in Hf as [Hc Hf]. simpl.
    destruct (used c <=? size)%nat eqn:E; breflect.
    + destruct (IH (size - used c) (acc ++ chunk_read c (used c)) Hf) as (k & r & -> & E1 & E2 & E3).
      assert (chunk_read c (used c) = unread c) as Hr.
      { unfold chunk_read. fold (unread c). apply take_ge. rewrite unread_length; auto. }
      exists (c :: k), r. rewrite E1, Hr. autorewrite with matador.
      rewrite length_app, unread_length by done.
      split_and!; [done | f_equal; [f_equal; lia | by rewrite app_assoc] | lia |].
      destruct r; [done |]. lia.
    + exists [], (c :: cl). simpl. rewrite app_nil_r, Nat.sub_0_r. split_and!; auto with lia.
Qed.

Lemma buffer_ok_Forall cl : buffer_ok cl -> Forall chunk_ok cl.
Proof.
  intros (init & c & -> & Hi & Hc & _). apply Forall_app. split; [|by constructor].
  eapply Forall_impl; [|exact Hi]. by intros ? [].
Qed.

Lemma create_ok : buffer_ok create.
Proof. exists [], new_chunk. split_and!; auto using Forall_nil with matador. Qed.

Lemma tail_suffix (P : buffer_chunk -> Prop) k c r :
  Forall P (tail (k ++ c :: r)) -> Forall P r.
Proof. destruct k; simpl; [done |]. by intros [_ [_ ?]%Forall_cons_1]%Forall_app. Qed.

Lemma buffer_ok_suffix k c r c' :
  buffer_ok (k ++ c :: r) -> chunk_ok c' -> write_cursor c' = write_cursor c ->
  buffer_ok (c' :: r).
Proof.
  intros (init & z & E & Hi & Hz & Ht) Hc' Hw.
  apply tail_suffix in Ht. destruct r as [|z' r' _] using rev_ind.
  - exists [], c'. split_and!; auto using Forall_nil.
  - rewrite app_comm_cons, app_assoc in E. apply app_inj_tail in E as [<- <-].
    apply Forall_app in Hi as [_ [[Hcc Hf] Hr']%Forall_cons_1].
    exists (c' :: r'), z'. split_and!; auto.
    constructor; [split; [done | congruence] | done].
Qed.

Lemma release_spec cl n :
  buffer_ok cl -> n <= length (contents cl) ->
  exists cl', release cl n = Ok (cl', take n (contents cl)) /\ buffer_ok cl'
              /\ contents cl' = drop n (contents cl).
Proof.
  intros Hok Hn. unfold release.
  destruct (release_loop_spec cl n [] (buffer_ok_Forall _ Hok)) as (k & r & -> & -> & Hk & Hr).
  rewrite contents_app in *. rewrite length_app in Hn. simpl.
  destruct r as [|c r].
  - simpl in Hn. assert (n = length (contents k)) as -> by lia.
    rewrite Nat.sub_diag. simpl. eexists. split; [|split; [apply create_ok |]].
    + rewrite app_nil_r, firstn_all. done.
    + by rewrite app_nil_r, drop_all.
  - pose proof (buffer_ok_Forall _ Hok) as [_ [Hc _]%Forall_cons_1]%Forall_app.
    pose proof (unread_length c Hc) as Hu.
    rewrite contents_cons, take_app_ge, drop_app_ge by lia.
    rewrite take_app_le, drop_app_le by lia.
    destruct (0 <? n - length (contents k))%nat eqn:E; breflect; simpl.
    + eexists. split; [done |]. split.
      * eapply buffer_ok_suffix; [done | | done]. unfold chunk_ok, used in *. simpl. lia.
      * rewrite contents_cons. unfold unread at 1 2. simpl. by rewrite drop_drop.
    + replace (n - length (contents k)) with 0 by lia. rewrite drop_0, take_0, app_nil_r.
      eexists. split; [done |]. split; [|done]. by eapply buffer_ok_suffix.
Qed.

(** C37: A well-formed buffer is a queue of bytes: appending never fails, adds
    the bytes at its end and keeps it well formed; releasing at most as many
    bytes as it holds takes them from its front, in the order they were
    appended, and leaves the rest. *)
Theorem buffer_refines_queue cl bytes n :
  buffer_ok cl ->
  (exists cl', append cl bytes = Ok cl' /\ buffer_ok cl' /\ contents cl' = contents cl ++ bytes)
  /\ (n <= length (contents cl) ->
      exists cl', release cl n = Ok (cl', take n (contents cl)) /\ buffer_ok cl'
                  /\ contents cl' = drop n (contents cl)).
Proof. intros H. split; [by apply append_spec | by apply release_spec]. Qed.

(** A buffer with three bytes, of which one was read. *)
Definition sample : byte_buffer := [Chunk (lit "abc") 1 3].

Lemma sample_ok : buffer_ok sample.
Proof.
  exists [], (Chunk (lit "abc") 1 3). split_and!; auto using Forall_nil. split; [done |]. split; [|apply Nat.leb_le; vm_compute; reflexivity]. simpl. lia.
Qed.

Lemma buffer_refines_queue_witness :
  (exists cl', append sample (lit "d") = Ok cl' /\ buffer_ok cl' /\ contents cl' = lit "bcd")
  /\ exists cl', release sample 1 = Ok (cl', lit "b") /\ buffer_ok cl' /\ contents cl' = lit "c".
Proof.
  destruct (buffer_refines_queue sample (lit "d") 1 sample_ok) as [Ha Hr].
  split; [exact Ha |]. apply Hr. vm_compute. lia.
Defined.

(** Asking for more than the queue holds reads [front()] of an empty list. *)
Lemma release_underflow cl n :
  buffer_ok cl -> length (contents cl) < n ->
  release cl n = Throw (undefined_behaviour "front() of an empty list").
Proof.
  intros Hok Hn. unfold release.
  destruct (release_loop_spec cl n [] (buffer_ok_Forall _ Hok)) as (k & r & -> & -> & Hk & Hr).
  rewrite contents_app, length_app in Hn. destruct r as [|c r].
  - simpl in *. by rewrite (proj2 (Nat.ltb_lt _ _)) by lia.
  - pose proof (buffer_ok_Forall _ Hok) as [_ [Hc _]%Forall_cons_1]%Forall_app.
    rewrite contents_cons, length_app, unread_length in Hn by done. lia.
Qed.

(** [size()] is the number of bytes in the queue. *)
Lemma size_is_length cl : buffer_ok cl -> size cl = Ok (length (contents cl)).
Proof.
  intros (init & c & -> & Hi & Hc & Ht). unfold size. rewrite unsnoc_snoc.
  assert (forall l, Forall full l -> Forall (fun c => read_cursor c = 0) l ->
          length (contents l) = length l * BUF_SIZE) as Hfull.
  { induction l as [|d l IH]; [done |]. intros [[Hd Hw] Hl]%Forall_cons_1 [Hr Hl']%Forall_cons_1.
    rewrite contents_cons, length_app, IH, unread_length by done.
    unfold used. simpl. lia. }
  rewrite contents_app, contents_one, !length_app, unread_length by done.
  unfold available, used. destruct Hc as [Hd Hc]. destruct init as [|f init]; simpl in *.
  - f_equal. unfold released. lia.
  - apply Forall_app in Ht as [Ht [Hr _]%Forall_cons_1].
    apply Forall_cons_1 in Hi as [[Hf Hw] Hi].
    rewrite contents_cons, length_app, Hfull, unread_length by done.
    destruct Hf as [_ Hf]. unfold used, released. f_equal. simpl. lia.
Qed.

(** ** What a buffer promises to its clients

    The serializers only append and release bytes: a first-in first-out queue
    of bytes is all they need. *)
Class ByteQueue (B : Type) := {
  q_append : B -> str -> result B;
  q_release : B -> nat -> result (B * str);
  q_empty : B;
  q_ok : B -> Prop;
  q_contents : B -> str;
  q_empty_spec : q_ok q_empty /\ q_contents q_empty = [];
  q_append_spec : forall b bytes, q_ok b ->
    exists b', q_append b bytes = Ok b' /\ q_ok b' /\ q_contents b' = q_contents b ++ bytes;
  q_release_spec : forall b bytes rest, q_ok b -> q_contents b = bytes ++ rest ->
    exists b', q_release b (length bytes) = Ok (b', bytes) /\ q_ok b' /\ q_contents b' = rest }.

#[export] Instance byte_buffer_queue : ByteQueue byte_buffer.
Proof.
  refine {| q_append := append; q_release := release; q_empty := create; q_ok := buffer_ok;
            q_contents := contents |}.
  - split; [exact create_ok | reflexivity].
  - apply append_spec.
  - intros b bytes rest Hok E. destruct (release_spec b (length bytes) Hok) as (b' & H1 & H2 & H3).
    { rewrite E, length_app. lia. }
    exists b'. rewrite H1, H3, E, take_app_length, drop_app_length. auto.
Defined.
End ByteBuffer.
