(* ===== verification/Identifier.v ===== *)
(** * Primary keys and sequences

    Model of [identifier] (include/matador/utils/identifier.hpp,
    src/utils/identifier.cpp), [sequencer] with its default implementation
    (src/utils/sequencer.cpp) and [sequence_synchronizer]
    (include/matador/utils/sequence_synchronizer.hpp), which moves a sequence
    past the primary keys that are already in use. *)

From S2P Require Import Prelude.

Local Open Scope cxx_scope.

Module Identifier.

(** An integral key of [w] bytes, a string key, or none. The type index of a
    key is that of its value: width and signedness, or string, or null. *)
Inductive identifier :=
| NullPk
| IntegralPk (signed : bool) (w : nat) (id : Z)
| StringPk (id : str).

#[export] Instance identifier_eq_dec : EqDecision identifier.
Proof. solve_decision. Defined.

#[export] Instance identifier_countable : Countable identifier.
Proof.
  refine (inj_countable'
    (fun i => match i with
              | NullPk => inl ()
              | IntegralPk s w z => inr (inl (s, w, z))
              | StringPk s => inr (inr s)
              end)
    (fun x => match x with
              | inl () => NullPk
              | inr (inl (s, w, z)) => IntegralPk s w z
              | inr (inr s) => StringPk s
              end) _).
  by intros [].
Defined.

Definition same_type_index (a b : identifier) : bool :=
  match a, b with
  | NullPk, NullPk | StringPk _, StringPk _ => true
  | IntegralPk s w _, IntegralPk s' w' _ => bool_decide (s = s' /\ w = w')
  | _, _ => false
  end.

Definition is_null (i : identifier) : bool := same_type_index i NullPk.

Definition is_valid (i : identifier) : bool :=
  match i with
  | NullPk => false
  | IntegralPk _ _ z => (0 <? z)%Z
  | StringPk s => negb (bool_decide (s = []))
  end.

(** [static_cast<const pk<IdType>&>(x)] of a key of another type. *)
Definition bad_cast {A} : result A := Throw (undefined_behaviour "downcast to another identifier type").

(** [a == b]: the virtual [equal_to]. *)
Definition equal_to (a b : identifier) : result bool :=
  match a, b with
  | NullPk, _ => Ok (same_type_index a b)
  | IntegralPk _ _ x, IntegralPk _ _ y =>
    if same_type_index a b then Ok (y =? x)%Z else bad_cast
  | StringPk x, StringPk y => Ok (bool_decide (y = x))
  | _, _ => bad_cast
  end.

(** [a < b]: the virtual [less]. *)
Definition less (a b : identifier) : result bool :=
  match a, b with
  | NullPk, _ => Ok (same_type_index a b)
  | IntegralPk _ _ x, IntegralPk _ _ y =>
    if same_type_index a b then Ok (y <? x)%Z else bad_cast
  | StringPk x, StringPk y => Ok (str_ltb y x)
  | _, _ => bad_cast
  end.

Definition less_equal (a b : identifier) : result bool :=
  let? e := equal_to a b in
  if e then Ok true else less a b.

Definition greater (a b : identifier) : result bool :=
  let? l := less_equal a b in Ok (negb l).

Definition greater_equal (a b : identifier) : result bool :=
  let? l := less a b in Ok (negb l).

(** ** Sequences: the number handed out last, an [unsigned long long]. *)
Abbreviation sequencer := Z.

Definition seq_init (n : sequencer) : Z := n.
Definition seq_reset (id : Z) (n : sequencer) : Z * sequencer := (id, id).
Definition seq_next (n : sequencer) : Z * sequencer := let n := u64 (n + 1) in (n, n).
Definition seq_current (n : sequencer) : Z := n.
Definition seq_update (id : Z) (n : sequencer) : Z * sequencer :=
  let n := if (n <? id)%Z then id else n in (n, n).

(** [sync_integral]: both sides are compared in the type of the key, and the
    key is converted to [unsigned long long] for the sequence. *)
Definition sync_integral (signed : bool) (w : nat) (val : Z) (n : sequencer) : sequencer :=
  let cast z := if signed then swrap (8 * Z.of_nat w) z else wrap (8 * Z.of_nat w) z in
  if (cast (seq_current n) <? val)%Z then (seq_update (u64 val) n).2 else n.

Definition sync (i : identifier) (n : sequencer) : sequencer :=
  match i with
  | IntegralPk signed w val => sync_integral signed w val n
  | _ => n
  end.

(** ** Properties *)

(** Keys of one type are totally ordered, in descending order: exactly one
    of equal, [a < b] and [b < a] holds, and [a < b] means that the value of
    [b] is the smaller one. *)
Lemma identifier_order signed w x y :
  let a := IntegralPk signed w x in
  let b := IntegralPk signed w y in
  equal_to a b = Ok (x =? y)%Z /\ less a b = Ok (y <? x)%Z
  /\ less_equal a b = Ok (y <=? x)%Z /\ greater a b = Ok (x <? y)%Z /\ greater_equal a b = Ok (x <=? y)%Z.
Proof.
  intros a b. unfold greater, greater_equal, less_equal. simpl. rewrite bool_decide_true by done. simpl.
  rewrite (Z.eqb_sym y x). split_and!; try done.
  - destruct (x =? y)%Z eqn:E; breflect; f_equal; [by rewrite E, Z.leb_refl |].
    destruct (y <? x)%Z eqn:E1, (y <=? x)%Z eqn:E2; breflect; lia || done.
  - destruct (x =? y)%Z eqn:E; breflect; simpl; f_equal; [by rewrite E, Z.ltb_irrefl |].
    destruct (y <? x)%Z eqn:E1, (x <? y)%Z eqn:E2; breflect; simpl; lia || done.
  - f_equal. by rewrite Z.leb_antisym.
Qed.

Lemma sync_current_range signed w val n :
  (0 <= n < 2 ^ 64)%Z -> (0 <= sync_integral signed w val n < 2 ^ 64)%Z.
Proof.
  intros Hn. unfold sync_integral, seq_update. destruct (_ <? val)%Z; simpl; [|done].
  destruct (n <? u64 val)%Z; [|done]. by apply wrap_range.
Qed.

Lemma sync_ge i n : (0 <= n < 2 ^ 64)%Z -> (n <= sync i n < 2 ^ 64)%Z.
Proof.
  intros Hn. destruct i as [|sg w v|]; simpl; try lia.
  pose proof (sync_current_range sg w v n Hn). unfold sync_integral, seq_update in *.
  destruct (_ <? v)%Z; simpl in *; [|lia]. destruct (n <? u64 v)%Z eqn:E; breflect; lia.
Qed.

Lemma sync_le signed w val n : (0 <= val)%Z -> (sync_integral signed w val n <= Z.max n val)%Z.
Proof.
  intros Hv. unfold sync_integral, seq_update. destruct (_ <? val)%Z; simpl; [|lia]. destruct (n <? u64 val)%Z; [|lia].
  enough (u64 val <= val)%Z by lia. unfold u64, wrap. apply Z.mod_le; lia.
Qed.

(** After [sync] with a key that fits the sequence's own range of values,
    the sequence hands out only larger numbers: the next number it gives is
    new. *)
Lemma sync_then_next_is_fresh signed w val n :
  (0 < val < 2 ^ (8 * Z.of_nat w - 1))%Z -> (0 <= n < 2 ^ (8 * Z.of_nat w - 1))%Z -> (w <= 8)%nat ->
  (val < (seq_next (sync (IntegralPk signed w val) n)).1)%Z.
Proof.
  intros Hv Hn Hw. simpl. unfold sync_integral, seq_update, seq_current.
  assert (0 < w)%nat by (destruct w; [simpl in *; lia | lia]).
  assert (2 ^ (8 * Z.of_nat w - 1) <= 2 ^ 63)%Z by (apply Z.pow_le_mono_r; lia).
  assert (2 ^ (8 * Z.of_nat w) = 2 * 2 ^ (8 * Z.of_nat w - 1))%Z as Hp.
  { rewrite <- Z.pow_succ_r by lia. f_equal. lia. }
  assert ((if signed then swrap (8 * Z.of_nat w) n else wrap (8 * Z.of_nat w) n) = n) as ->.
  { destruct signed; [apply swrap_small | apply wrap_small]; lia. }
  unfold u64. rewrite (wrap_small 64 val) by lia.
  destruct (n <? val)%Z eqn:E; simpl; rewrite ?E; breflect; rewrite wrap_small; lia.
Qed.

Lemma sync_then_next_is_fresh_witness :
  (17 < (seq_next (sync (IntegralPk true 8 17) 3)).1)%Z.
Proof. apply sync_then_next_is_fresh; simpl; lia. Defined.

End Identifier.
