(* ===== verification/ObjectSerializer.v ===== *)
(** * Backing up and restoring objects

    Model of [object_serializer] (src/object/object_serializer.cpp,
    include/matador/object/object_serializer.hpp) and [object_deserializer]
    (src/object/object_deserializer.cpp,
    include/matador/object/object_deserializer.hpp) for attributes, dates,
    times and references to other objects. An object is the list of its
    attributes in the order its [serialize] method visits them. Both sides
    only use the buffer through the [ByteQueue] interface. *)

From S2P Require Import Prelude ByteBuffer.

Local Open Scope cxx_scope.

Module ObjectSerializer.
Import ByteBuffer.

(** The bytes of a number of [w] bytes in memory, lowest first. *)
Fixpoint le_bytes (w : nat) (z : Z) : str :=
  match w with
  | O => []
  | S w => chr (z mod 256) :: le_bytes w (z / 256)
  end.

Fixpoint le_value (s : str) : Z :=
  match s with
  | [] => 0
  | c :: s => code c + 256 * le_value s
  end.

(** The value of a variable of [w] bytes whose memory is [s]. *)
Definition of_bytes (signed : bool) (s : str) : Z :=
  let z := le_value s in
  if signed then swrap (8 * Z.of_nat (length s)) z else z.

Definition to_bytes (w : nat) (z : Z) : str := le_bytes w (z mod 2 ^ (8 * Z.of_nat w)).

(** Attributes. [Scalar]: anything that is copied byte by byte, an integer of
    [w] bytes or the bit pattern of a floating-point number. [PrimaryKey]: an
    integral primary key, which is copied likewise. [CString]: the
    memory of a [char] array. [Foreign]: a [has_one] or [belongs_to] holder of
    objects of class [cls], with the id of its object or 0. *)
Inductive attribute :=
| Scalar (signed : bool) (w : nat) (z : Z)
| PrimaryKey (signed : bool) (w : nat) (z : Z)
| CString (mem : str)
| Str (s : str)
| Date (julian_date : Z)
| Time (seconds_since_epoch milliseconds : Z)
| Foreign (cls : str) (oid : Z).

#[export] Instance attribute_eq_dec : EqDecision attribute.
Proof. solve_decision. Defined.

Abbreviation object := (list attribute).

(** [strlen]. *)
Fixpoint strlen (mem : str) : nat :=
  match mem with
  | [] => 0
  | c :: mem => if bool_decide (c = NUL) then 0 else S (strlen mem)
  end.

Section Buffer.
Context {B : Type} `{!ByteQueue B}.

(** [buffer_->append(&x, sizeof(x))]. *)
Definition append_value (w : nat) (z : Z) (b : B) : result B := q_append b (to_bytes w z).

(** [object_serializer::on_attribute] and [on_foreign_object]. *)
Definition serialize_attribute (a : attribute) (b : B) : result B :=
  match a with
  | Scalar _ w z | PrimaryKey _ w z => append_value w z b
  | CString mem =>
    let? b := append_value 8 (Z.of_nat (strlen mem)) b in
    q_append b (take (strlen mem) mem)
  | Str s =>
    let? b := append_value 8 (Z.of_nat (length s)) b in
    q_append b s
  | Date jd => append_value 4 jd b
  | Time sec ms =>
    let? b := append_value 8 sec b in
    append_value 4 ms b
  | Foreign _ oid => append_value 8 oid b
  end.

Fixpoint backup (o : object) (b : B) : result B :=
  match o with
  | [] => Ok b
  | a :: o =>
    let? b := serialize_attribute a b in
    backup o b
  end.

(** [buffer_->release(&x, sizeof(x))]. *)
Definition release_value (signed : bool) (w : nat) (b : B) : result (B * Z) :=
  let? (b, s) := q_release b w in
  Ok (b, of_bytes signed s).

(** [object_deserializer::on_attribute] and [on_foreign_object]: [a] is the
    attribute as the object holds it before. The last component is the list of
    objects the store is asked for ([find_proxy], else a new one). *)
Definition deserialize_attribute (a : attribute) (b : B) : result (attribute * B * list (str * Z)) :=
  match a with
  | Scalar sg w _ =>
    let? (b, z) := release_value sg w b in Ok (Scalar sg w z, b, [])
  | PrimaryKey sg w _ =>
    let? (b, z) := release_value sg w b in Ok (PrimaryKey sg w z, b, [])
  | CString mem =>
    let? (b, len) := release_value false 8 b in
    let? (b, s) := q_release b (Z.to_nat len) in
    Ok (CString (s ++ drop (length s) mem), b, [])
  | Str _ =>
    let? (b, len) := release_value false 8 b in
    let? (b, s) := q_release b (Z.to_nat len) in
    Ok (Str s, b, [])
  | Date _ =>
    let? (b, jd) := release_value true 4 b in Ok (Date jd, b, [])
  | Time _ _ =>
    let? (b, sec) := release_value true 8 b in
    let? (b, ms) := release_value false 4 b in
    Ok (Time sec ms, b, [])
  | Foreign cls old =>
    let? (b, oid) := release_value false 8 b in
    if (0 <? oid)%Z then Ok (Foreign cls oid, b, [(cls, oid)])
    else Ok (Foreign cls old, b, [])
  end.

Fixpoint restore (o : object) (b : B) : result (object * B * list (str * Z)) :=
  match o with
  | [] => Ok ([], b, [])
  | a :: o =>
    let? (a', b, r1) := deserialize_attribute a b in
    let? (o', b, r2) := restore o b in
    Ok (a' :: o', b, r1 ++ r2)
  end.

End Buffer.

(** ** Memory of numbers *)
Section Numbers.
Local Open Scope Z_scope.

Lemma le_bytes_length w z : length (le_bytes w z) = w.
Proof. revert z. induction w; intros z; simpl; auto. Qed.

Lemma le_value_le_bytes w z : 0 <= z < 2 ^ (8 * Z.of_nat w) -> le_value (le_bytes w z) = z.
Proof.
  revert z. induction w as [|w IH]; intros z Hz; simpl le_bytes; simpl le_value; [simpl in Hz; lia |].
  rewrite code_chr by (apply Z.mod_pos_bound; lia).
  rewrite IH; [pose proof (Z.div_mod z 256 ltac:(lia)); lia |].
  split; [apply Z.div_pos; lia |]. apply Z.div_lt_upper_bound; [lia |].
  replace (8 * Z.of_nat (S w)) with (8 + 8 * Z.of_nat w) in Hz by lia.
  rewrite Z.pow_add_r in Hz by lia. lia.
Qed.

Definition in_range (signed : bool) (w : nat) (z : Z) : Prop :=
  if signed then - 2 ^ (8 * Z.of_nat w - 1) <= z < 2 ^ (8 * Z.of_nat w - 1)
  else 0 <= z < 2 ^ (8 * Z.of_nat w).

Lemma to_bytes_length w z : length (to_bytes w z) = w.
Proof. apply le_bytes_length. Qed.

Lemma of_bytes_to_bytes sg w z : (0 < w)%nat -> in_range sg w z -> of_bytes sg (to_bytes w z) = z.
Proof.
  intros Hw Hz. unfold of_bytes. rewrite to_bytes_length. unfold to_bytes.
  rewrite le_value_le_bytes by (apply Z.mod_pos_bound, Z.pow_pos_nonneg; lia).
  destruct sg; [|by apply Z.mod_small]. unfold swrap.
  rewrite Zplus_mod_idemp_l. apply swrap_small; [lia | exact Hz].
Qed.
Lemma of_bytes_range sg w v : (0 < w)%nat -> in_range sg w (of_bytes sg (to_bytes w v)).
Proof.
  intros Hw. unfold of_bytes. rewrite to_bytes_length. unfold to_bytes.
  assert (0 < 2 ^ (8 * Z.of_nat w)) by (apply Z.pow_pos_nonneg; lia).
  rewrite le_value_le_bytes by (by apply Z.mod_pos_bound).
  destruct sg; unfold in_range; [|by apply Z.mod_pos_bound]. unfold swrap.
  assert (2 ^ (8 * Z.of_nat w) = 2 * 2 ^ (8 * Z.of_nat w - 1)) as E.
  { rewrite <- Z.pow_succ_r by lia. f_equal. lia. }
  pose proof (Z.mod_pos_bound (v mod 2 ^ (8 * Z.of_nat w) + 2 ^ (8 * Z.of_nat w - 1)) (2 ^ (8 * Z.of_nat w)) ltac:(done)).
  lia.
Qed.
End Numbers.

(** ** Backup and restore are inverse *)

(** The attribute holds a value of its type. *)
Definition attribute_ok (a : attribute) : Prop :=
  match a with
  | Scalar sg w z | PrimaryKey sg w z => 0 < w /\ in_range sg w z
  | CString mem => in_range false 8 (Z.of_nat (length mem))
  | Str s => in_range false 8 (Z.of_nat (length s))
  | Date jd => in_range true 4 jd
  | Time sec ms => in_range true 8 sec /\ in_range false 4 ms
  | Foreign _ oid => in_range false 8 oid
  end.

(** Two values of the same attribute of a class. *)
Definition same_attribute (a b : attribute) : Prop :=
  match a, b with
  | Scalar sg w _, Scalar sg' w' _ | PrimaryKey sg w _, PrimaryKey sg' w' _ => sg = sg' /\ w = w'
  | CString m, CString m' => length m = length m'
  | Str _, Str _ | Date _, Date _ | Time _ _, Time _ _ => True
  | Foreign cls _, Foreign cls' _ => cls = cls'
  | _, _ => False
  end.

(** The bytes of an attribute in the buffer. *)
Definition encoding (a : attribute) : str :=
  match a with
  | Scalar _ w z | PrimaryKey _ w z => to_bytes w z
  | CString mem => to_bytes 8 (Z.of_nat (strlen mem)) ++ take (strlen mem) mem
  | Str s => to_bytes 8 (Z.of_nat (length s)) ++ s
  | Date jd => to_bytes 4 jd
  | Time sec ms => to_bytes 8 sec ++ to_bytes 4 ms
  | Foreign _ oid => to_bytes 8 oid
  end.

(** What restoring the saved attribute [a] makes of its present value: a
    holder is not cleared by a saved null reference, and a [char] array keeps
    what follows the saved characters. *)
Definition restored (a now : attribute) : attribute :=
  match a, now with
  | CString m, CString m' => CString (take (strlen m) m ++ drop (strlen m) m')
  | Foreign _ oid, Foreign cls old => if (0 <? oid)%Z then Foreign cls oid else Foreign cls old
  | _, _ => a
  end.

Definition acquired (a : attribute) : list (str * Z) :=
  match a with
  | Foreign cls oid => if (0 <? oid)%Z then [(cls, oid)] else []
  | _ => []
  end.

Lemma strlen_le mem : strlen mem <= length mem.
Proof. induction mem; simpl; [lia |]. case_bool_decide; lia. Qed.

Section Laws.
Context {B : Type} `{!ByteQueue B}.

Lemma serialize_attribute_spec a (b : B) :
  q_ok b ->
  exists b', serialize_attribute a b = Ok b' /\ q_ok b' /\ q_contents b' = q_contents b ++ encoding a.
Proof.
  intros Hb. unfold serialize_attribute, append_value.
  assert (forall x y, exists b', (let? b0 := q_append b x in q_append b0 y) = Ok b' /\ q_ok b'
            /\ q_contents b' = q_contents b ++ x ++ y) as H2.
  { intros x y. destruct (q_append_spec b x Hb) as (b1 & -> & H1 & E1). simpl.
    destruct (q_append_spec b1 y H1) as (b2 & -> & H2 & E2). exists b2.
    by rewrite E2, E1, <- app_assoc. }
  destruct a; simpl; auto using q_append_spec.
Qed.

Lemma backup_spec o (b : B) :
  q_ok b ->
  exists b', backup o b = Ok b' /\ q_ok b' /\ q_contents b' = q_contents b ++ concat (encoding <$> o).
Proof.
  revert b. induction o as [|a o IH]; intros b Hb; simpl.
  { exists b. by rewrite app_nil_r. }
  destruct (serialize_attribute_spec a b Hb) as (b1 & -> & H1 & E1). simpl.
  destruct (IH b1 H1) as (b2 & -> & H2 & E2). exists b2. by rewrite E2, E1, <- app_assoc.
Qed.

Lemma release_value_spec sg w z (b : B) rest :
  q_ok b -> q_contents b = to_bytes w z ++ rest -> 0 < w -> in_range sg w z ->
  exists b', release_value sg w b = Ok (b', z) /\ q_ok b' /\ q_contents b' = rest.
Proof.
  intros Hb E Hw Hz. destruct (q_release_spec b (to_bytes w z) rest Hb E) as (b' & H & Hb' & E').
  rewrite to_bytes_length in H. exists b'. unfold release_value. rewrite H. simpl.
  by rewrite of_bytes_to_bytes.
Qed.

Lemma deserialize_attribute_spec a now (b : B) rest :
  q_ok b -> q_contents b = encoding a ++ rest -> attribute_ok a -> same_attribute a now ->
  exists b', deserialize_attribute now b = Ok (restored a now, b', acquired a)
             /\ q_ok b' /\ q_contents b' = rest.
Proof.
  intros Hb E Ha Hs.
  assert (forall s, in_range false 8 (Z.of_nat (length s)) ->
            q_contents b = to_bytes 8 (Z.of_nat (length s)) ++ s ++ rest ->
            exists b1 b2, release_value false 8 b = Ok (b1, Z.of_nat (length s))
              /\ q_release b1 (length s) = Ok (b2, s) /\ q_ok b2 /\ q_contents b2 = rest) as Hstr.
  { intros s Hl E0. destruct (release_value_spec false 8 _ b _ Hb E0) as (b1 & H1 & Hb1 & E1); [lia | done |].
    destruct (q_release_spec b1 s rest Hb1 E1) as (b2 & H2 & Hb2 & E2). eauto 8. }
  destruct a, now; simpl in Hs, Ha; try done; cbn [encoding] in E; cbn [deserialize_attribute restored acquired].
  - destruct Hs as [<- <-], Ha as [Hw Hz].
    destruct (release_value_spec signed w z b rest) as (b1 & -> & ? & ?); auto. cbn. eauto.
  - destruct Hs as [<- <-], Ha as [Hw Hz].
    destruct (release_value_spec signed w z b rest) as (b1 & -> & ? & ?); auto. cbn. eauto.
  - assert (length (take (strlen mem) mem) = strlen mem) as Hl
      by (rewrite length_take; pose proof (strlen_le mem); lia).
    destruct (Hstr (take (strlen mem) mem)) as (b1 & b2 & -> & H2 & ? & ?).
    + rewrite Hl. pose proof (strlen_le mem). unfold in_range in *. lia.
    + rewrite Hl, E. by rewrite <- app_assoc.
    + cbn [rbind]. rewrite Nat2Z.id, H2. cbn [rbind]. rewrite Hl. eauto.
  - destruct (Hstr s) as (b1 & b2 & -> & H2 & ? & ?); [done | by rewrite E, <- app_assoc |].
    cbn [rbind]. rewrite Nat2Z.id, H2. cbn [rbind]. eauto.
  - destruct (release_value_spec true 4 julian_date b rest) as (b1 & -> & ? & ?); auto with lia. cbn. eauto.
  - destruct Ha as [Ha1 Ha2]. rewrite <- app_assoc in E.
    destruct (release_value_spec true 8 seconds_since_epoch b _ Hb E) as (b1 & -> & H1 & E1); auto with lia. cbn [rbind].
    destruct (release_value_spec false 4 milliseconds b1 _ H1 E1) as (b2 & -> & ? & ?); auto with lia. cbn. eauto.
  - subst. destruct (release_value_spec false 8 oid b rest) as (b1 & -> & ? & ?); auto with lia. cbn [rbind].
    destruct (0 <? oid)%Z; eauto.
Qed.

Lemma restore_spec o now (b : B) rest :
  q_ok b -> q_contents b = concat (encoding <$> o) ++ rest ->
  Forall attribute_ok o -> Forall2 same_attribute o now ->
  exists b', restore now b = Ok (zip_with restored o now, b', concat (acquired <$> o))
             /\ q_ok b' /\ q_contents b' = rest.
Proof.
  intros Hb E Ho Hs. revert b Hb E. induction Hs as [|a a' o now Ha Hs IH]; intros b Hb E; simpl in *.
  { eauto. }
  apply Forall_cons_1 in Ho as [Hoa Ho]. rewrite <- app_assoc in E.
  destruct (deserialize_attribute_spec a a' b _ Hb E Hoa Ha) as (b1 & -> & H1 & E1). simpl.
  destruct (IH Ho b1 H1 E1) as (b2 & -> & H2 & E2). simpl. eauto.
Qed.


End Laws.


(** A reference that was null when it was saved is not restored. *)
Example null_reference_not_restored :
  exists b b' : byte_buffer,
    backup [Foreign (lit "person") 0] create = Ok b
    /\ restore [Foreign (lit "person") 7] b = Ok ([Foreign (lit "person") 7], b', []).
Proof. eexists _, _. vm_compute. auto. Qed.

(** A [char] array that was shorter when it was saved keeps its tail. *)
Example char_array_keeps_tail :
  exists b b' : byte_buffer,
    backup [CString (lit "abc" ++ [NUL; NUL; NUL; NUL])] create = Ok b
    /\ restore [CString (lit "uvwxyz" ++ [NUL])] b = Ok ([CString (lit "abcxyz" ++ [NUL])], b', []).
Proof. eexists _, _. vm_compute. auto. Qed.

End ObjectSerializer.
