(* ===== verification/PrototypeTree.v ===== *)
(** * The prototype tree and the lists of proxies

    Model of [object_proxy] (src/object/object_proxy.cpp,
    include/matador/object/object_proxy.hpp) and [prototype_node]
    (src/object/prototype_node.cpp, include/matador/object/prototype_node.hpp).

    Every class the store knows has a node. The nodes form a tree through the
    pointers [parent], [prev], [next] and the sentinels [first] and [last] of
    the children; the objects of a class and its subclasses lie in one doubly
    linked list per root class, where each node marks the part that belongs to
    it with [op_first], [op_marker] and [op_last]. Both heaps are finite maps
    from locations; following a null or dangling pointer is undefined
    behaviour. *)

From S2P Require Import Prelude ByteBuffer Identifier ObjectSerializer.

Local Open Scope cxx_scope.

Module PrototypeTree.
Import Identifier ObjectSerializer.

Abbreviation loc := nat.

(** [node_]: the node of [object_type_entry_], null for the null entry. *)
Record object_proxy := Proxy {
  prev_ : option loc;
  next_ : option loc;
  obj_ : option object;
  node_ : option loc;
  classname_ : str;
  oid_ : Z;
  reference_counter_ : Z;
  pk_ : identifier }.

Record prototype_node := Node {
  parent : option loc;
  prev : option loc;
  next : option loc;
  first : option loc;
  last : option loc;
  op_first : option loc;
  op_marker : option loc;
  op_last : option loc;
  depth : Z;
  count : Z;
  type_ : str;
  type_id_ : str;
  abstract_ : bool;
  id_map_ : gmap identifier loc;
  id_ : identifier }.

Record tree := Tree {
  proxies : gmap loc object_proxy;
  nodes : gmap loc prototype_node }.

(** [new object_proxy()] and [new prototype_node]. *)
Definition proxy0 : object_proxy := Proxy None None None None [] 0 0 NullPk.
Definition node0 : prototype_node :=
  Node None None None None None None None None 0 0 [] [] false ∅ NullPk.

Definition set_prev_ v (p : object_proxy) :=
  Proxy v (next_ p) (obj_ p) (node_ p) (classname_ p) (oid_ p) (reference_counter_ p) (pk_ p).
Definition set_next_ v (p : object_proxy) :=
  Proxy (prev_ p) v (obj_ p) (node_ p) (classname_ p) (oid_ p) (reference_counter_ p) (pk_ p).
Definition set_obj_ v (p : object_proxy) :=
  Proxy (prev_ p) (next_ p) v (node_ p) (classname_ p) (oid_ p) (reference_counter_ p) (pk_ p).
Definition set_node_ v (p : object_proxy) :=
  Proxy (prev_ p) (next_ p) (obj_ p) v (classname_ p) (oid_ p) (reference_counter_ p) (pk_ p).
Definition set_oid_ v (p : object_proxy) :=
  Proxy (prev_ p) (next_ p) (obj_ p) (node_ p) (classname_ p) v (reference_counter_ p) (pk_ p).
Definition set_refs v (p : object_proxy) :=
  Proxy (prev_ p) (next_ p) (obj_ p) (node_ p) (classname_ p) (oid_ p) v (pk_ p).
Definition set_pk_ v (p : object_proxy) :=
  Proxy (prev_ p) (next_ p) (obj_ p) (node_ p) (classname_ p) (oid_ p) (reference_counter_ p) v.

Definition set_links (pa pr nx : option loc) (n : prototype_node) :=
  Node pa pr nx (first n) (last n) (op_first n) (op_marker n) (op_last n) (depth n) (count n)
       (type_ n) (type_id_ n) (abstract_ n) (id_map_ n) (id_ n).
Definition set_prev v (n : prototype_node) := set_links (parent n) v (next n) n.
Definition set_next v (n : prototype_node) := set_links (parent n) (prev n) v n.
Definition set_markers (f m l : option loc) (n : prototype_node) :=
  Node (parent n) (prev n) (next n) (first n) (last n) f m l (depth n) (count n)
       (type_ n) (type_id_ n) (abstract_ n) (id_map_ n) (id_ n).
Definition set_depth v (n : prototype_node) :=
  Node (parent n) (prev n) (next n) (first n) (last n) (op_first n) (op_marker n) (op_last n) v (count n)
       (type_ n) (type_id_ n) (abstract_ n) (id_map_ n) (id_ n).
Definition set_count v (n : prototype_node) :=
  Node (parent n) (prev n) (next n) (first n) (last n) (op_first n) (op_marker n) (op_last n) (depth n) v
       (type_ n) (type_id_ n) (abstract_ n) (id_map_ n) (id_ n).
Definition set_id_map v (n : prototype_node) :=
  Node (parent n) (prev n) (next n) (first n) (last n) (op_first n) (op_marker n) (op_last n) (depth n) (count n)
       (type_ n) (type_id_ n) (abstract_ n) v (id_ n).
Definition set_id v (n : prototype_node) :=
  Node (parent n) (prev n) (next n) (first n) (last n) (op_first n) (op_marker n) (op_last n) (depth n) (count n)
       (type_ n) (type_id_ n) (abstract_ n) (id_map_ n) v.

(** ** Pointers *)
Definition null_deref {A} : result A := Throw (undefined_behaviour "invalid pointer").

Definition deref {A} (h : gmap loc A) (p : option loc) : result A :=
  match p with
  | Some l => match h !! l with Some x => Ok x | None => null_deref end
  | None => null_deref
  end.

Definition store_at {A} (h : gmap loc A) (p : option loc) (f : A -> A) : result (gmap loc A) :=
  match p with
  | Some l => match h !! l with Some x => Ok (<[l := f x]> h) | None => null_deref end
  | None => null_deref
  end.

Definition upd_proxy (p : option loc) (f : object_proxy -> object_proxy) (t : tree) : result tree :=
  let? h := store_at (proxies t) p f in Ok (Tree h (nodes t)).
Definition upd_node (n : option loc) (f : prototype_node -> prototype_node) (t : tree) : result tree :=
  let? h := store_at (nodes t) n f in Ok (Tree (proxies t) h).

Definition new_proxy (x : object_proxy) (t : tree) : loc * tree :=
  let l := fresh (dom (proxies t)) in (l, Tree (<[l := x]> (proxies t)) (nodes t)).
Definition new_node (x : prototype_node) (t : tree) : loc * tree :=
  let l := fresh (dom (nodes t)) in (l, Tree (proxies t) (<[l := x]> (nodes t))).

(** ** object_proxy *)

(** [p->link(successor)]. *)
Definition link (p successor : option loc) (t : tree) : result tree :=
  let? s := deref (proxies t) successor in
  let? t := upd_proxy p (fun x => set_next_ successor (set_prev_ (prev_ s) x)) t in
  let? s := deref (proxies t) successor in
  let? t := (match prev_ s with
             | Some q => upd_proxy (Some q) (set_next_ p) t
             | None => Ok t
             end) in
  upd_proxy successor (set_prev_ p) t.

(** [p->unlink()]. *)
Definition unlink (p : option loc) (t : tree) : result tree :=
  let? x := deref (proxies t) p in
  let? t := (match prev_ x with
             | Some q => upd_proxy (Some q) (set_next_ (next_ x)) t
             | None => Ok t
             end) in
  let? x := deref (proxies t) p in
  let? t := (match next_ x with
             | Some s => upd_proxy (Some s) (set_prev_ (prev_ x)) t
             | None => Ok t
             end) in
  let? t := upd_proxy p (set_prev_ None) t in
  upd_proxy p (set_next_ None) t.

(** ** Walking the tree *)

(** [while (node->last && node->first->next != node->last.get()) node = node->last->prev;] *)
Fixpoint last_descendant (fuel : nat) (h : gmap loc prototype_node) (n : option loc) : result (option loc) :=
  match fuel with
  | O => Throw out_of_fuel
  | S fuel =>
    let? x := deref h n in
    match last x with
    | None => Ok n
    | Some l =>
      let? f := deref h (first x) in
      if decide (next f = Some l) then Ok n
      else let? y := deref h (Some l) in last_descendant fuel h (prev y)
    end
  end.

Definition previous_node (h : gmap loc prototype_node) (n : option loc) : result (option loc) :=
  let? x := deref h n in
  match prev x with
  | None => Ok (parent x)
  | Some p =>
    let? y := deref h (Some p) in
    match prev y with
    | Some _ => last_descendant (S (size h)) h (Some p)
    | None => Ok (parent x)
    end
  end.

(** [while (node->parent && node->next == node->parent->last.get()) node = node->parent;] *)
Fixpoint last_ancestor (fuel : nat) (h : gmap loc prototype_node) (n : option loc) : result (option loc) :=
  match fuel with
  | O => Throw out_of_fuel
  | S fuel =>
    let? x := deref h n in
    match parent x with
    | None => Ok (next x)
    | Some p =>
      let? y := deref h (Some p) in
      if decide (next x = last y) then last_ancestor fuel h (Some p) else Ok (next x)
    end
  end.

(** [first && first->next != last.get()]. *)
Definition child_of (h : gmap loc prototype_node) (x : prototype_node) : result (option loc) :=
  match first x with
  | None => Ok None
  | Some f =>
    let? y := deref h (Some f) in
    if decide (next y = last x) then Ok None else Ok (next y)
  end.

Definition next_node (h : gmap loc prototype_node) (n : option loc) : result (option loc) :=
  let? x := deref h n in
  let? c := child_of h x in
  match c with
  | Some _ => Ok c
  | None => last_ancestor (S (size h)) h n
  end.

(** [next_node(root)], which does not climb above [root]. *)
Fixpoint last_ancestor_below (fuel : nat) (h : gmap loc prototype_node) (root n : option loc) : result (option loc) :=
  match fuel with
  | O => Throw out_of_fuel
  | S fuel =>
    let? x := deref h n in
    match parent x with
    | None => Ok (next x)
    | Some p =>
      let? y := deref h (Some p) in
      if decide (next x = last y) then
        if decide (Some p = root) then Ok (next x) else last_ancestor_below fuel h root (Some p)
      else Ok (next x)
    end
  end.

Definition next_node_below (h : gmap loc prototype_node) (root n : option loc) : result (option loc) :=
  let? x := deref h n in
  let? c := child_of h x in
  match c with
  | Some _ => Ok c
  | None => last_ancestor_below (S (size h)) h root n
  end.

Definition has_children (h : gmap loc prototype_node) (n : option loc) : result bool :=
  let? x := deref h n in
  let? f := deref h (first x) in
  Ok (negb (bool_decide (next f = last x))).

(** [while (prnt->depth < node->depth) node = node->parent;] *)
Fixpoint climb_to (fuel : nat) (h : gmap loc prototype_node) (d : Z) (n : option loc) : result (option loc) :=
  match fuel with
  | O => Throw out_of_fuel
  | S fuel =>
    let? x := deref h n in
    if (d <? depth x)%Z then climb_to fuel h d (parent x) else Ok n
  end.

Definition is_child_of (h : gmap loc prototype_node) (prnt n : option loc) : result bool :=
  let? p := deref h prnt in
  let? m := climb_to (S (size h)) h (depth p) n in
  Ok (bool_decide (m = prnt)).

(** ** Markers *)

Definition adjust_left (d : Z) (old new : option loc) (n : prototype_node) : prototype_node :=
  let n := if decide (op_marker n = old) then set_markers (op_first n) new (op_last n) n else n in
  if decide ((d <= depth n)%Z /\ op_last n = old) then set_markers (op_first n) (op_marker n) new n else n.

Definition adjust_right (old new : option loc) (n : prototype_node) : prototype_node :=
  if decide (op_first n = old) then set_markers new (op_marker n) (op_last n) n else n.

(** The loop of [adjust_left_marker] and [adjust_right_marker]: [f] changes the
    node, [step] goes to the next one ([previous_node] or [next_node]). *)
Fixpoint adjust_loop (step : gmap loc prototype_node -> option loc -> result (option loc))
    (f : prototype_node -> prototype_node) (fuel : nat) (node : option loc) (t : tree) : result tree :=
  match node with
  | None => Ok t
  | Some _ =>
    match fuel with
    | O => Throw out_of_fuel
    | S fuel =>
      let? t := upd_node node f t in
      let? node := step (nodes t) node in
      adjust_loop step f fuel node t
    end
  end.

Definition adjust_left_marker (root old new : option loc) (t : tree) : result tree :=
  let? r := deref (nodes t) root in
  let? node := previous_node (nodes t) root in
  adjust_loop previous_node (adjust_left (depth r) old new) (size (nodes t)) node t.

Definition adjust_right_marker (root old new : option loc) (t : tree) : result tree :=
  let? node := next_node (nodes t) root in
  adjust_loop next_node (adjust_right old new) (size (nodes t)) node t.

(** ** prototype_node: nodes *)

(** [prototype_node(tree, type, proto, abstract)]: the node with its sentinels. *)
Definition make_node (type type_id : str) (abstract : bool) (t : tree) : loc * tree :=
  let '(f, t) := new_node node0 t in
  let '(l, t) := new_node (set_prev (Some f) node0) t in
  let t := Tree (proxies t) (<[f := set_next (Some l) node0]> (nodes t)) in
  new_node (Node None None None (Some f) (Some l) None None None 0 0 type type_id abstract ∅ NullPk) t.

(** [this->append(sibling)]: the statements before the test of [parent] run in
    either case. *)
Definition append (this sibling : option loc) (t : tree) : result tree :=
  let? x := deref (nodes t) this in
  let? t := upd_node sibling (set_links (parent x) this (next x)) t in
  let? t := upd_node this (set_next sibling) t in
  let? t := upd_node (next x) (set_prev sibling) t in
  let? t := upd_node sibling (set_depth (depth x)) t in
  match parent x with
  | None =>
    let '(f, t) := new_proxy proxy0 t in
    let '(l, t) := new_proxy proxy0 t in
    let? t := upd_node sibling (set_markers (Some f) (Some l) (Some l)) t in
    let? t := upd_proxy (Some f) (set_next_ (Some l)) t in
    upd_proxy (Some l) (set_prev_ (Some f)) t
  | Some _ => Throw (object_exception "failed to add node as sibling: node has no parent")
  end.

(** [this->insert(child)]. *)
Definition insert_child (this child : option loc) (t : tree) : result tree :=
  let? x := deref (nodes t) this in
  let? l := deref (nodes t) (last x) in
  let? t := upd_node child (set_links this (prev l) (last x)) t in
  let? t := upd_node (prev l) (set_next child) t in
  let? t := upd_node (last x) (set_prev child) t in
  let? t := upd_node child (set_depth (depth x + 1)) t in
  let? f := deref (proxies t) (op_first x) in
  let? of_ := (if decide (next_ f = op_last x) then Ok (op_first x)
               else let? l := deref (proxies t) (op_last x) in Ok (prev_ l)) in
  upd_node child (set_markers of_ (op_last x) (op_last x)) t.

Definition unlink_node (this : option loc) (t : tree) : result tree :=
  let? x := deref (nodes t) this in
  let? t := upd_node (prev x) (set_next (next x)) t in
  let? t := upd_node (next x) (set_prev (prev x)) t in
  upd_node this (fun n => set_links (parent n) None None n) t.

(** ** prototype_node: proxies *)

Definition empty (self : bool) (n : option loc) (t : tree) : result bool :=
  let? x := deref (nodes t) n in
  let? f := deref (proxies t) (op_first x) in
  Ok (bool_decide (next_ f = if self then op_marker x else op_last x)).

(** The part of [insert] before the bookkeeping of the node: the
    proxy is linked and the markers of the other nodes follow. *)
Definition insert_links (this p : option loc) (t : tree) : result tree :=
  let? x := deref (nodes t) this in
  let? m := deref (proxies t) (op_marker x) in
  if (2 <=? count x)%Z then link p (prev_ m) t
  else if (count x =? 1)%Z then
    let? t := link p (prev_ m) t in
    let? y := deref (proxies t) p in
    adjust_left_marker this (next_ y) p t
  else
    let? t := link p (op_marker x) t in
    let? y := deref (proxies t) p in
    let? t := adjust_left_marker this (next_ y) p t in
    adjust_right_marker this (prev_ y) p t.

(** [this->insert(proxy)]. *)
Definition insert (this p : option loc) (t : tree) : result tree :=
  let? t := insert_links this p t in
  let? t := upd_node this (fun n => set_count (u64 (count n + 1)) n) t in
  let? y := deref (proxies t) p in
  if is_null (pk_ y) then Ok t
  else match p with
       | Some l => upd_node this (fun n => set_id_map (map_insert_new (pk_ y) l (id_map_ n)) n) t
       | None => null_deref
       end.

(** The part of [remove] before the bookkeeping of the node. *)
Definition remove_links (this p : option loc) (t : tree) : result tree :=
  let? x := deref (nodes t) this in
  let? f := deref (proxies t) (op_first x) in
  let? t := (if decide (p = next_ f) then
               let? y := deref (proxies t) (next_ f) in
               adjust_left_marker this (next_ f) (next_ y) t
             else Ok t) in
  let? x := deref (nodes t) this in
  let? m := deref (proxies t) (op_marker x) in
  let? t := (if decide (p = prev_ m) then
               let? y := deref (proxies t) (prev_ m) in
               adjust_right_marker this p (prev_ y) t
             else Ok t) in
  unlink p t.

(** [this->remove(proxy)]. *)
Definition remove (this p : option loc) (t : tree) : result tree :=
  let? t := remove_links this p t in
  let? x := deref (nodes t) this in
  let? y := deref (proxies t) p in
  let? t := (if is_null (id_ x) then Ok t
             else upd_node this (fun n => set_id_map (delete (pk_ y) (id_map_ n)) n) t) in
  upd_node this (fun n => set_count (u64 (count n - 1)) n) t.

(** [while (op_first->next() != op_marker) { unlink; delete }]. *)
Fixpoint clear_loop (fuel : nat) (this : option loc) (t : tree) : result tree :=
  match fuel with
  | O => Throw out_of_fuel
  | S fuel =>
    let? x := deref (nodes t) this in
    let? f := deref (proxies t) (op_first x) in
    if decide (next_ f = op_marker x) then Ok t
    else
      let? t := unlink (next_ f) t in
      match next_ f with
      | Some l => clear_loop fuel this (Tree (delete l (proxies t)) (nodes t))
      | None => null_deref
      end
  end.

(** [clear(false)]. *)
Definition clear (this : option loc) (t : tree) : result tree :=
  let? e := empty true this t in
  if e then Ok t
  else
    let? x := deref (nodes t) this in
    let? f := deref (proxies t) (op_first x) in
    let? t := adjust_left_marker this (next_ f) (op_marker x) t in
    let? m := deref (proxies t) (op_marker x) in
    let? t := adjust_right_marker this (prev_ m) (op_first x) t in
    let? t := clear_loop (S (size (proxies t))) this t in
    upd_node this (fun n => set_count 0 (set_id_map ∅ n)) t.

Definition find_proxy (pk : identifier) (this : option loc) (t : tree) : result (option loc) :=
  let? x := deref (nodes t) this in
  Ok (id_map_ x !! pk).

(** ** Lists of proxies *)

(** Consecutive elements of [L] point to each other. *)
Fixpoint linked (h : gmap loc object_proxy) (L : list loc) : Prop :=
  match L with
  | x :: (y :: _) as L' => h !! x ≫= next_ = Some y /\ h !! y ≫= prev_ = Some x /\ linked h L'
  | _ => True
  end.

Lemma linked_cons h x y L :
  linked h (x :: y :: L) <-> h !! x ≫= next_ = Some y /\ h !! y ≫= prev_ = Some x /\ linked h (y :: L).
Proof. done. Qed.

Lemma linked_app h L x K : linked h (L ++ x :: K) <-> linked h (L ++ [x]) /\ linked h (x :: K).
Proof.
  induction L as [|a [|b L] IH].
  - simpl app. destruct K; simpl; naive_solver.
  - simpl app in *. rewrite !(linked_cons _ a x). simpl. naive_solver.
  - simpl app in *. rewrite !(linked_cons _ a b). naive_solver.
Qed.

Lemma linked_mono h h' L :
  (forall x, x ∈ L -> h' !! x ≫= next_ = h !! x ≫= next_ /\ h' !! x ≫= prev_ = h !! x ≫= prev_) ->
  linked h L -> linked h' L.
Proof.
  induction L as [|x [|y L] IH]; intros Hx; [done | done |]. rewrite !linked_cons.
  intros (H1 & H2 & H3). split_and!.
  - rewrite (proj1 (Hx x ltac:(set_solver))). done.
  - rewrite (proj2 (Hx y ltac:(set_solver))). done.
  - apply IH; [|done]. intros z Hz. apply Hx. set_solver.
Qed.

(** Two neighbours [q] and [s] of a chain, seen from the outside: the pointers
    that leave the pair do not matter for the rest of the chain. *)
Lemma linked_around h h' L q s K :
  NoDup (L ++ q :: s :: K) -> linked h (L ++ q :: s :: K) ->
  h' !! q ≫= prev_ = h !! q ≫= prev_ -> h' !! s ≫= next_ = h !! s ≫= next_ ->
  (forall x, x ∈ L ++ K -> h' !! x = h !! x) ->
  linked h' (L ++ [q]) /\ linked h' (s :: K).
Proof.
  intros Hnd Hl Hq Hs Hx. rewrite linked_app in Hl. destruct Hl as [Hl1 Hl2].
  apply linked_cons in Hl2 as (_ & _ & Hl2). apply list.NoDup_app in Hnd as (_ & Hd & Hnd).
  split.
  - clear Hl2 Hs. induction L as [|a [|b L] IH]; [done | |].
    + simpl app in *. rewrite linked_cons in *. rewrite (Hx a) by set_solver. rewrite Hq. naive_solver.
    + simpl app in *. rewrite linked_cons in *. rewrite (Hx a), (Hx b) by set_solver.
      destruct Hl1 as (? & ? & ?). split_and!; [done.. |]. apply IH; [set_solver | done | set_solver].
  - clear Hl1 Hq. destruct K as [|k K]; [done |]. rewrite linked_cons in *.
    rewrite Hs, (Hx k) by set_solver. destruct Hl2 as (? & ? & ?). split_and!; [done.. |].
    eapply linked_mono; [|done]. intros x Hx'. rewrite Hx by set_solver. done.
Qed.

Lemma bind_Some_inv {A B} (o : option A) (f : A -> option B) y :
  o ≫= f = Some y -> exists x, o = Some x /\ f x = Some y.
Proof. destruct o; naive_solver. Qed.

(** A step of the model that follows or updates a known pointer. *)
Lemma deref_Some {A} (h : gmap loc A) l x : h !! l = Some x -> deref h (Some l) = Ok x.
Proof. intros E. simpl. by rewrite E. Qed.

Lemma upd_proxy_Some l f x t :
  proxies t !! l = Some x -> upd_proxy (Some l) f t = Ok (Tree (<[l := f x]> (proxies t)) (nodes t)).
Proof. intros E. unfold upd_proxy, store_at. by rewrite E. Qed.

Lemma upd_node_Some l f x t :
  nodes t !! l = Some x -> upd_node (Some l) f t = Ok (Tree (proxies t) (<[l := f x]> (nodes t))).
Proof. intros E. unfold upd_node, store_at. by rewrite E. Qed.

Lemma link_spec h ns L q s K p P :
  linked h (L ++ q :: s :: K) -> NoDup (p :: L ++ q :: s :: K) -> h !! p = Some P ->
  exists h', link (Some p) (Some s) (Tree h ns) = Ok (Tree h' ns)
    /\ linked h' (L ++ q :: p :: s :: K)
    /\ h' !! p = Some (set_next_ (Some s) (set_prev_ (Some q) P))
    /\ (forall x, x ∉ [p; q; s] -> h' !! x = h !! x)
    /\ (forall x, pk_ <$> h' !! x = pk_ <$> h !! x).
Proof.
  intros Hl Hnd HP. apply list.NoDup_cons in Hnd as [Hp Hnd].
  assert (q <> s) as Hqs.
  { apply list.NoDup_app in Hnd as (_ & _ & Hnd). apply list.NoDup_cons in Hnd as [Hnd _]. set_solver. }
  assert (p <> q /\ p <> s) as [Hpq Hps] by set_solver.
  pose proof Hl as Hl'. apply linked_app in Hl' as [_ Hl']. apply linked_cons in Hl' as (H1 & H2 & _).
  apply bind_Some_inv in H1 as (Q & HQ & HQn). apply bind_Some_inv in H2 as (S & HS & HSp).
  set (h1 := <[p := set_next_ (Some s) (set_prev_ (Some q) P)]> h).
  set (h2 := <[q := set_next_ (Some p) Q]> h1).
  set (h3 := <[s := set_prev_ (Some p) S]> h2).
  assert (link (Some p) (Some s) (Tree h ns) = Ok (Tree h3 ns)) as E.
  { unfold link. cbn [proxies nodes]. rewrite (deref_Some h s S HS). cbn [rbind].
    rewrite (upd_proxy_Some p _ P) by done. cbn [rbind proxies nodes]. rewrite HSp. fold h1.
    assert (h1 !! s = Some S) as HS1 by (unfold h1; by rewrite lookup_insert_ne).
    rewrite (deref_Some h1 s S HS1). cbn [rbind]. rewrite HSp.
    assert (h1 !! q = Some Q) as HQ1 by (unfold h1; by rewrite lookup_insert_ne).
    rewrite (upd_proxy_Some q _ Q) by done. cbn [rbind proxies nodes]. fold h2.
    apply upd_proxy_Some. cbn [proxies]. unfold h2. by rewrite lookup_insert_ne by congruence. }
  exists h3. split; [done |].
  assert (h3 !! s = Some (set_prev_ (Some p) S)) as E3 by (unfold h3; by rewrite lookup_insert_eq).
  assert (h3 !! q = Some (set_next_ (Some p) Q)) as E2
    by (unfold h3, h2; rewrite lookup_insert_ne by congruence; by rewrite lookup_insert_eq).
  assert (h3 !! p = Some (set_next_ (Some s) (set_prev_ (Some q) P))) as E1
    by (unfold h3, h2, h1; rewrite !lookup_insert_ne by congruence; by rewrite lookup_insert_eq).
  assert (forall x, x ∉ [p; q; s] -> h3 !! x = h !! x) as Hx.
  { intros x Hx. unfold h3, h2, h1. by rewrite !lookup_insert_ne by set_solver. }
  split_and!; [|done|done|].
  - destruct (linked_around h h3 L q s K Hnd Hl) as [HA HB].
    + by rewrite E2, HQ.
    + by rewrite E3, HS.
    + intros x Hx'. apply Hx. apply list.NoDup_app in Hnd as (_ & Hd & Hnd).
      rewrite !list.NoDup_cons in Hnd. set_solver.
    + apply linked_app. split; [done |]. rewrite !linked_cons. split_and!; [| | | |done].
      all: by rewrite ?E1, ?E2, ?E3.
  - intros x. destruct (decide (x ∈ [p; q; s])) as [Hin | Hin]; [|by rewrite Hx].
    apply elem_of_cons in Hin as [-> | [-> | [-> | []%elem_of_nil]%elem_of_cons]%elem_of_cons].
    + by rewrite E1, HP. + by rewrite E2, HQ. + by rewrite E3, HS.
Qed.

(** The elements before and after a stretch without repetitions are not in it. *)
Lemma outside_middle (L M K : list loc) x :
  NoDup (L ++ M ++ K) -> x ∈ L ++ K -> x ∉ M.
Proof.
  rewrite !list.NoDup_app. intros (_ & H1 & _ & H2 & _) [H | H]%elem_of_app Hx.
  - eapply H1; [done |]. apply elem_of_app. by left.
  - by eapply H2.
Qed.

(** [unlink] of an element between [q] and [s]. *)
Lemma unlink_spec h ns L q p s K :
  linked h (L ++ q :: p :: s :: K) -> NoDup (L ++ q :: p :: s :: K) ->
  exists h' P, unlink (Some p) (Tree h ns) = Ok (Tree h' ns)
    /\ linked h' (L ++ q :: s :: K)
    /\ h !! p = Some P /\ h' !! p = Some (set_next_ None (set_prev_ None P))
    /\ (forall x, x ∉ [p; q; s] -> h' !! x = h !! x)
    /\ (forall x, pk_ <$> h' !! x = pk_ <$> h !! x).
Proof.
  intros Hl Hnd.
  assert (q <> p /\ p <> s /\ q <> s) as (Hqp & Hps & Hqs).
  { apply list.NoDup_app in Hnd as (_ & _ & Hnd). rewrite !list.NoDup_cons in Hnd. set_solver. }
  pose proof Hl as Hl'. apply linked_app in Hl' as [_ Hl']. rewrite !linked_cons in Hl'.
  destruct Hl' as (H1 & H2 & H3 & H4 & _).
  apply bind_Some_inv in H1 as (Q & HQ & HQn). apply bind_Some_inv in H2 as (P & HP & HPp).
  rewrite HP in H3. cbn in H3. apply bind_Some_inv in H4 as (S & HS & HSp).
  set (h1 := <[q := set_next_ (Some s) Q]> h).
  set (h2 := <[s := set_prev_ (Some q) S]> h1).
  set (h3 := <[p := set_prev_ None P]> h2).
  set (h4 := <[p := set_next_ None (set_prev_ None P)]> h3).
  assert (unlink (Some p) (Tree h ns) = Ok (Tree h4 ns)) as E.
  { unfold unlink. cbn [proxies nodes]. rewrite (deref_Some h p P HP). cbn [rbind]. rewrite HPp, H3.
    rewrite (upd_proxy_Some q _ Q) by done. cbn [rbind proxies nodes]. fold h1.
    assert (h1 !! p = Some P) as HP1 by (unfold h1; by rewrite lookup_insert_ne).
    rewrite (deref_Some h1 p P HP1). cbn [rbind]. rewrite HPp, H3.
    assert (h1 !! s = Some S) as HS1 by (unfold h1; by rewrite lookup_insert_ne).
    rewrite (upd_proxy_Some s _ S) by done. cbn [rbind proxies nodes]. fold h2.
    assert (h2 !! p = Some P) as HP2 by (unfold h2; by rewrite lookup_insert_ne by congruence).
    rewrite (upd_proxy_Some p _ P) by done. cbn [rbind proxies nodes]. fold h3.
    apply upd_proxy_Some. cbn [proxies]. unfold h3. by rewrite lookup_insert_eq. }
  exists h4, P. split; [done |].
  assert (h4 !! s = Some (set_prev_ (Some q) S)) as E3
    by (unfold h4, h3, h2; rewrite !lookup_insert_ne by congruence; by rewrite lookup_insert_eq).
  assert (h4 !! q = Some (set_next_ (Some s) Q)) as E2
    by (unfold h4, h3, h2, h1; rewrite !lookup_insert_ne by congruence; by rewrite lookup_insert_eq).
  assert (h4 !! p = Some (set_next_ None (set_prev_ None P))) as E1 by (unfold h4; by rewrite lookup_insert_eq).
  assert (forall x, x ∉ [p; q; s] -> h4 !! x = h !! x) as Hx.
  { intros x Hx. unfold h4, h3, h2, h1. by rewrite !lookup_insert_ne by set_solver. }
  split_and!; [|done|done|done|].
  - assert (forall x, x ∈ L ++ K -> h4 !! x = h !! x) as Hout.
    { intros x Hin. apply Hx. pose proof (outside_middle L [q; p; s] K x Hnd Hin). set_solver. }
    apply linked_app in Hl as [HlA HlB]. rewrite !linked_cons in HlB. destruct HlB as (_ & _ & _ & _ & HlB).
    apply linked_app. split.
    + destruct L as [|a L] using rev_ind; [done |]. rewrite <- app_assoc in *. cbn [app] in *.
      apply linked_app in HlA as [HlA HlC]. apply linked_app. split.
      * eapply linked_mono; [|done]. intros x Hx'. rewrite Hout; [done |]. set_solver.
      * rewrite linked_cons in *. rewrite (Hout a) by set_solver. rewrite E2. rewrite HQ in HlC. naive_solver.
    + rewrite linked_cons. split_and!; [by rewrite E2 | by rewrite E3 |].
      destruct K as [|k K]; [done |]. rewrite linked_cons in *. rewrite (Hout k) by set_solver.
      rewrite E3. rewrite HS in HlB. destruct HlB as (? & ? & ?). split_and!; [done.. |].
      eapply linked_mono; [|done]. intros x Hx'. rewrite Hout; [done |]. rewrite elem_of_app. by right.
  - intros x. destruct (decide (x ∈ [p; q; s])) as [Hin | Hin]; [|by rewrite Hx].
    apply elem_of_cons in Hin as [-> | [-> | [-> | []%elem_of_nil]%elem_of_cons]%elem_of_cons].
    + by rewrite E1, HP. + by rewrite E2, HQ. + by rewrite E3, HS.
Qed.

(** ** Walks over the tree *)

(** The pointers that make the tree; the walks read nothing else. *)
Definition shape (n : prototype_node) :=
  (parent n, prev n, next n, first n, last n).
Definition same_shape (h h' : gmap loc prototype_node) : Prop :=
  forall l, shape <$> h !! l = shape <$> h' !! l.

Lemma same_shape_cases h h' l :
  same_shape h h' ->
  (h !! l = None /\ h' !! l = None) \/
  (exists x y, h !! l = Some x /\ h' !! l = Some y /\ parent x = parent y /\ prev x = prev y
               /\ next x = next y /\ first x = first y /\ last x = last y).
Proof.
  intros H. specialize (H l). destruct (h !! l) as [x|], (h' !! l) as [y|]; simpl in H; try done; [|by left].
  unfold shape in H. right. exists x, y. injection H as ? ? ? ? ?. auto 10.
Qed.

Ltac by_shape H l :=
  let x := fresh "x" in let y := fresh "y" in
  destruct (same_shape_cases _ _ l H) as [[-> ->] | (x & y & -> & -> & ? & ? & ? & ? & ?)]; [done |]; cbn [rbind].

Lemma last_descendant_shape fuel h h' n :
  same_shape h h' -> last_descendant fuel h n = last_descendant fuel h' n.
Proof.
  intros H. revert n. induction fuel as [|fuel IH]; intros [l|]; try done. simpl.
  by_shape H l. replace (last y) with (last x). replace (first y) with (first x).
  destruct (last x) as [m|]; [|done]. destruct (first x) as [f|]; [|done]. simpl.
  by_shape H f. replace (next y0) with (next x0). destruct (decide (next x0 = Some m)); [done |].
  by_shape H m. replace (prev y1) with (prev x1). apply IH.
Qed.

Lemma last_ancestor_shape fuel h h' n :
  same_shape h h' -> last_ancestor fuel h n = last_ancestor fuel h' n.
Proof.
  intros H. revert n. induction fuel as [|fuel IH]; intros [l|]; try done. simpl.
  by_shape H l. replace (parent y) with (parent x). replace (next y) with (next x).
  destruct (parent x) as [m|]; [|done]. simpl.
  by_shape H m. replace (last y0) with (last x0). destruct (decide (next x = last x0)); [apply IH | done].
Qed.

Lemma same_shape_size h h' : same_shape h h' -> size h = size h'.
Proof.
  intros H. rewrite <- (map_size_fmap shape h), <- (map_size_fmap shape h'). f_equal.
  apply map_eq. intros l. by rewrite !lookup_fmap.
Qed.

Lemma previous_node_shape h h' n : same_shape h h' -> previous_node h n = previous_node h' n.
Proof.
  intros H. unfold previous_node. rewrite (same_shape_size h h' H).
  pose proof (fun m => last_descendant_shape (S (size h')) h h' m H) as Hd. revert Hd.
  generalize (last_descendant (S (size h')) h) (last_descendant (S (size h')) h'). intros F G Hd.
  destruct n as [l|]; [|done]. simpl.
  by_shape H l. replace (prev y) with (prev x). replace (parent y) with (parent x).
  destruct (prev x) as [m|]; [|done]. simpl. by_shape H m. replace (prev y0) with (prev x0).
  destruct (prev x0); [apply Hd | done].
Qed.

Lemma next_node_shape h h' n : same_shape h h' -> next_node h n = next_node h' n.
Proof.
  intros H. unfold next_node, child_of. rewrite (same_shape_size h h' H). destruct n as [l|]; [|done].
  cbn [deref]. by_shape H l. replace (first y) with (first x). replace (last y) with (last x).
  assert (last_ancestor (S (size h')) h (Some l) = last_ancestor (S (size h')) h' (Some l)) as ->
    by (by apply last_ancestor_shape).
  destruct (first x) as [f|]; [|done]. cbn [deref]. by_shape H f. by replace (next y0) with (next x0).
Qed.

(** [l] is the list of nodes [step] goes through from [node] on. *)
Fixpoint walk (step : gmap loc prototype_node -> option loc -> result (option loc))
    (h : gmap loc prototype_node) (node : option loc) (l : list loc) : Prop :=
  match l with
  | [] => node = None
  | x :: l => node = Some x /\ is_Some (h !! x) /\ exists y, step h (Some x) = Ok y /\ walk step h y l
  end.

Definition upd_all (f : prototype_node -> prototype_node) (l : list loc) (h : gmap loc prototype_node) :=
  foldl (fun h x => alter f x h) h l.

Lemma lookup_upd_all f l h x :
  NoDup l -> upd_all f l h !! x = if decide (x ∈ l) then f <$> h !! x else h !! x.
Proof.
  revert h. induction l as [|y l IH]; intros h Hnd; [done |]. apply list.NoDup_cons in Hnd as [Hy Hnd].
  unfold upd_all in *. simpl. rewrite IH by done. destruct (decide (x = y)) as [-> | Hne].
  - rewrite decide_False by done. rewrite decide_True by set_solver. by rewrite lookup_alter_eq.
  - rewrite lookup_alter_ne by done. by destruct (decide (x ∈ l)); destruct (decide (x ∈ y :: l)); set_solver.
Qed.

Section Loop.
Context (step : gmap loc prototype_node -> option loc -> result (option loc)).
Hypothesis step_shape : forall h h' n, same_shape h h' -> step h n = step h' n.

Lemma walk_shape h h' node l : same_shape h h' -> walk step h node l -> walk step h' node l.
Proof.
  intros H. revert node. induction l as [|x l IH]; intros node; [done |]. simpl.
  intros (-> & Hx & y & Hy & Hw). split_and!; [done | |].
  - destruct (same_shape_cases _ _ x H) as [[E _] | (? & ? & _ & -> & _)]; [|done].
    rewrite E in Hx. by destruct Hx.
  - exists y. rewrite <- (step_shape h h' _ H). auto.
Qed.

(** The loop changes the nodes of the walk and ends. *)
Lemma adjust_loop_walk f fuel node t l :
  (forall x, shape (f x) = shape x) -> walk step (nodes t) node l -> length l <= fuel ->
  adjust_loop step f fuel node t = Ok (Tree (proxies t) (upd_all f l (nodes t))).
Proof.
  intros Hf. revert fuel node t. induction l as [|x l IH]; intros fuel node t Hw Hl.
  { simpl in Hw. subst. destruct fuel; by destruct t. }
  destruct Hw as (-> & [X HX] & y & Hy & Hw). destruct fuel as [|fuel]; [simpl in Hl; lia |]. simpl in Hl.
  cbn [adjust_loop]. rewrite (upd_node_Some x f X t HX). cbn [rbind nodes].
  assert (same_shape (nodes t) (<[x := f X]> (nodes t))) as Hs.
  { intros z. destruct (decide (z = x)) as [-> | Hz].
    - rewrite lookup_insert_eq, HX. simpl. by rewrite Hf.
    - by rewrite lookup_insert_ne. }
  rewrite <- (step_shape _ _ _ Hs), Hy. cbn [rbind]. rewrite IH; [|eapply walk_shape; eauto | lia].
  cbn [proxies nodes]. unfold upd_all. simpl. do 3 f_equal.
  apply map_eq. intros z. destruct (decide (z = x)) as [-> | Hz].
  - by rewrite lookup_insert_eq, lookup_alter_eq, HX.
  - by rewrite lookup_insert_ne, lookup_alter_ne.
Qed.
End Loop.

Lemma walk_dom step h node l x : walk step h node l -> x ∈ l -> is_Some (h !! x).
Proof.
  revert node. induction l as [|y l IH]; intros node; [by intros _ ?%elem_of_nil |].
  intros (_ & Hy & z & _ & Hw) [-> | Hx]%elem_of_cons; eauto.
Qed.

Lemma walk_length step h node l : walk step h node l -> NoDup l -> length l <= size h.
Proof.
  intros Hw Hnd. rewrite <- size_dom. rewrite <- (size_list_to_set (C := gset loc) l Hnd).
  apply subseteq_size. intros x Hx. apply elem_of_dom. eapply walk_dom; [done |]. set_solver.
Qed.

Lemma adjust_left_shape d old new x : shape (adjust_left d old new x) = shape x.
Proof. unfold adjust_left. by repeat case_decide. Qed.

Lemma adjust_right_shape old new x : shape (adjust_right old new x) = shape x.
Proof. unfold adjust_right. by repeat case_decide. Qed.

(** ** The list of one root class and its subclasses *)

Definition hdd (e : loc) (l : list loc) : loc := match l with [] => e | x :: _ => x end.
Fixpoint lastd (f : loc) (l : list loc) : loc := match l with [] => f | x :: l => lastd x l end.

Lemma lastd_app f l k : lastd f (l ++ k) = lastd (lastd f l) k.
Proof. revert f. induction l; simpl; auto. Qed.

Lemma lastd_split f l : exists L, f :: l = L ++ [lastd f l].
Proof.
  destruct l as [|x l _] using rev_ind; [by exists [] |]. exists (f :: l). by rewrite lastd_app.
Qed.

Lemma hdd_split e l : exists K, l ++ [e] = hdd e l :: K.
Proof. destruct l; simpl; eauto. Qed.

Lemma lastd_elem f l : lastd f l ∈ f :: l.
Proof. destruct (lastd_split f l) as [L ->]. set_solver. Qed.

Lemma hdd_elem e l : hdd e l ∈ l ++ [e].
Proof. destruct (hdd_split e l) as [K ->]. set_solver. Qed.

(** How many nodes after a node of depth [d] lie below it, in preorder, and
    the index of the first node after the subtree of node [i]. *)
Fixpoint below (d : Z) (ds : list Z) : nat :=
  match ds with
  | [] => 0
  | d' :: ds => if (d <? d')%Z then S (below d ds) else 0
  end.
Definition subtree_end (ds : list Z) (i : nat) : nat :=
  match ds !! i with
  | Some d => S i + below d (drop (S i) ds)
  | None => S i
  end.

Lemma subtree_end_gt ds i : i < subtree_end ds i.
Proof. unfold subtree_end. destruct (ds !! i); lia. Qed.

Lemma below_le d ds j d' : ds !! j = Some d' -> (d' <= d)%Z -> below d ds <= j.
Proof.
  revert j. induction ds as [|a ds IH]; intros [|j]; simpl; intros H Hd; simplify_eq.
  - rewrite (proj2 (Z.ltb_ge _ _)) by lia. lia.
  - destruct (d <? a)%Z; [|lia]. apply IH in H; [lia | done].
Qed.

Lemma subtree_end_le ds i j di dj :
  ds !! i = Some di -> ds !! j = Some dj -> i < j -> (dj <= di)%Z -> subtree_end ds i <= j.
Proof.
  intros Hi Hj Hij Hd. unfold subtree_end. rewrite Hi.
  assert (below di (drop (S i) ds) <= j - S i); [|lia].
  apply below_le with dj; [|done]. rewrite lookup_drop. by replace (S i + (j - S i)) with j by lia.
Qed.

(** Every node before [i] that is not as deep as [i] is an ancestor of [i]. *)
Definition shallower_are_ancestors (ds : list Z) (i : nat) : Prop :=
  forall j dj di, j < i -> ds !! j = Some dj -> ds !! i = Some di -> (dj < di)%Z -> i < subtree_end ds j.

(** The markers of node [i], when the proxies of the nodes are [segs]. *)
Record marks (f e : loc) (ds : list Z) (segs : list (list loc)) (i : nat) (x : prototype_node) : Prop := {
  marks_depth : ds !! i = Some (depth x);
  marks_first : op_first x = Some (lastd f (concat (take i segs)));
  marks_marker : op_marker x = Some (hdd e (concat (drop (S i) segs)));
  marks_last : op_last x = Some (hdd e (concat (drop (subtree_end ds i) segs))) }.

Lemma adjust_left_same d o x : adjust_left d o o x = x.
Proof. unfold adjust_left. destruct x. repeat (case_decide; simpl in * ); naive_solver. Qed.

Lemma adjust_right_same o x : adjust_right o o x = x.
Proof. unfold adjust_right. destruct x. case_decide; simpl in *; naive_solver. Qed.

Lemma adjust_left_fields d o n x :
  depth (adjust_left d o n x) = depth x /\ op_first (adjust_left d o n x) = op_first x
  /\ op_marker (adjust_left d o n x) = (if decide (op_marker x = o) then n else op_marker x)
  /\ op_last (adjust_left d o n x) = (if decide ((d <= depth x)%Z /\ op_last x = o) then n else op_last x)
  /\ count (adjust_left d o n x) = count x.
Proof. unfold adjust_left. repeat (case_decide; simpl in * ); naive_solver. Qed.

Lemma adjust_right_fields o n x :
  depth (adjust_right o n x) = depth x
  /\ op_first (adjust_right o n x) = (if decide (op_first x = o) then n else op_first x)
  /\ op_marker (adjust_right o n x) = op_marker x /\ op_last (adjust_right o n x) = op_last x
  /\ count (adjust_right o n x) = count x.
Proof. unfold adjust_right. repeat (case_decide; simpl in * ); naive_solver. Qed.

(** Replacing the end or the beginning of a list without repetitions. *)
Lemma hdd_replace e M T T' :
  NoDup (M ++ T ++ [e]) ->
  hdd e (M ++ T') = if decide (hdd e (M ++ T) = hdd e T) then hdd e T' else hdd e (M ++ T).
Proof.
  intros Hnd. destruct M as [|a M]; simpl; [by rewrite decide_True |].
  rewrite decide_False; [done |]. intros ->. apply list.NoDup_cons in Hnd as [Hnd _].
  apply Hnd. rewrite elem_of_app. right. apply hdd_elem.
Qed.

Lemma lastd_replace f P P' X :
  NoDup (f :: P ++ X) ->
  lastd f (P' ++ X) = if decide (lastd f (P ++ X) = lastd f P) then lastd f P' else lastd f (P ++ X).
Proof.
  intros Hnd. destruct X as [|b X _] using rev_ind.
  { rewrite !app_nil_r. by rewrite decide_True. }
  rewrite !lastd_app. simpl. rewrite decide_False; [done |]. intros E.
  rewrite app_comm_cons in Hnd. apply list.NoDup_app in Hnd as (_ & Hnd & _).
  apply (Hnd (lastd f P)); [apply lastd_elem |]. rewrite <- E. set_solver.
Qed.

Lemma decide_Some (a b c : loc) :
  (if decide (Some a = Some b) then Some c else Some a) = Some (if decide (a = b) then c else a).
Proof. destruct (decide (a = b)); [rewrite decide_True by congruence | rewrite decide_False by congruence]; done. Qed.

(** The two lemmas that carry the marker updates: nodes before and after the
    node whose list changes from [s] to [s']. *)
Lemma marks_before f e ds A s s' B j x d :
  NoDup (concat A ++ (s ++ concat B) ++ [e]) -> ds !! length A = Some d -> shallower_are_ancestors ds (length A) ->
  j < length A -> marks f e ds (A ++ s :: B) j x ->
  marks f e ds (A ++ s' :: B) j
    (adjust_left d (Some (hdd e (s ++ concat B))) (Some (hdd e (s' ++ concat B))) x).
Proof.
  intros Hnd Hd Hsh Hj [H1 H2 H3 H4].
  destruct (adjust_left_fields d (Some (hdd e (s ++ concat B))) (Some (hdd e (s' ++ concat B))) x)
    as (E1 & E2 & E3 & E4 & _).
  assert (forall k, k <= length A ->
    hdd e (concat (drop k (A ++ s' :: B)))
    = if decide (hdd e (concat (drop k (A ++ s :: B))) = hdd e (s ++ concat B)) then hdd e (s' ++ concat B)
      else hdd e (concat (drop k (A ++ s :: B)))) as Hrep.
  { intros k Hk. rewrite !drop_app_le, !concat_app by lia. cbn [concat]. apply hdd_replace.
    rewrite <- (take_drop k A), concat_app, <- app_assoc in Hnd. by apply list.NoDup_app in Hnd as (_ & _ & ?). }
  constructor.
  - by rewrite E1.
  - by rewrite E2, H2, !take_app_le by lia.
  - rewrite E3, H3, Hrep by lia. apply decide_Some.
  - rewrite E4, H4. destruct (Z.le_gt_cases d (depth x)) as [Hle | Hlt].
    + rewrite Hrep by (eapply subtree_end_le; eauto).
      rewrite <- decide_Some. clear - Hle. do 2 case_decide; naive_solver.
    + rewrite decide_False by lia. pose proof (Hsh j _ _ Hj H1 Hd ltac:(lia)) as He.
      rewrite !drop_app_ge by lia. destruct (subtree_end ds j - length A) eqn:E; [lia | done].
Qed.

Lemma marks_after f e ds A s s' B j x :
  NoDup (f :: (concat A ++ s) ++ concat B) -> length A < j -> marks f e ds (A ++ s :: B) j x ->
  marks f e ds (A ++ s' :: B) j
    (adjust_right (Some (lastd f (concat A ++ s))) (Some (lastd f (concat A ++ s'))) x).
Proof.
  intros Hnd Hj [H1 H2 H3 H4].
  destruct (adjust_right_fields (Some (lastd f (concat A ++ s))) (Some (lastd f (concat A ++ s'))) x)
    as (E1 & E2 & E3 & E4 & _).
  assert (forall k, length A < k -> drop k (A ++ s' :: B) = drop k (A ++ s :: B)) as Hdrop.
  { intros k Hk. rewrite !drop_app_ge by lia. destruct (k - length A) eqn:E; [lia | done]. }
  constructor.
  - by rewrite E1.
  - rewrite E2, H2, !take_app_ge by lia. destruct (j - length A) as [|k] eqn:E; [lia |].
    cbn [take]. rewrite !concat_app. cbn [concat]. rewrite !app_assoc.
    rewrite (lastd_replace f (concat A ++ s) (concat A ++ s') (concat (take k B))).
    + apply decide_Some.
    + rewrite <- (take_drop k B), concat_app in Hnd. rewrite app_assoc, app_comm_cons in Hnd.
      by apply list.NoDup_app in Hnd as (? & _ & _).
  - rewrite E3, H3. by rewrite Hdrop by lia.
  - rewrite E4, H4. pose proof (subtree_end_gt ds j). by rewrite Hdrop by lia.
Qed.

(** A root class and its subclasses inside the whole tree. [pre ++ ns ++ post]
    are all nodes in preorder, [z] the sentinel after them; [ns] are the nodes
    of this root, [ds] their depths, and the list between the sentinels [f]
    and [e] holds the proxies [segs] of the nodes, one node after the other.
    The markers of the nodes delimit their own part and that of their subtree,
    and no other node points into the list. *)
Record forest (t : tree) (f e : loc) (pre ns post : list loc) (z : loc)
    (ds : list Z) (segs : list (list loc)) : Prop := {
  forest_length : length ns = length segs;
  forest_nodes : NoDup (pre ++ ns ++ post ++ [z]);
  forest_back : forall A n B, pre ++ ns ++ post = A ++ n :: B ->
    exists y, previous_node (nodes t) (Some n) = Ok y /\ walk previous_node (nodes t) y (rev A);
  forest_forth : forall A n B, pre ++ ns ++ post = A ++ n :: B ->
    exists y, next_node (nodes t) (Some n) = Ok y /\ walk next_node (nodes t) y (B ++ [z]);
  forest_linked : linked (proxies t) (f :: concat segs ++ [e]);
  forest_nodup : NoDup (f :: concat segs ++ [e]);
  forest_marks : forall i n s, ns !! i = Some n -> segs !! i = Some s ->
    exists x, nodes t !! n = Some x /\ marks f e ds segs i x /\ count x = Z.of_nat (length s);
  forest_apart : forall m x l, m ∈ pre ++ post ++ [z] -> nodes t !! m = Some x ->
    l ∈ f :: concat segs ++ [e] ->
    op_first x <> Some l /\ op_marker x <> Some l /\ op_last x <> Some l }.

(** Changing the proxies of one node from [s] to [s'] and the markers of the
    nodes before and after it accordingly. *)
Lemma forest_update t t' f e pre ns post z ds A s s' B n d :
  forest t f e pre ns post z ds (A ++ s :: B) ->
  ns !! length A = Some n -> ds !! length A = Some d -> shallower_are_ancestors ds (length A) ->
  NoDup (f :: concat (A ++ s' :: B) ++ [e]) -> linked (proxies t') (f :: concat (A ++ s' :: B) ++ [e]) ->
  (forall m, m ∈ pre ++ take (length A) ns -> nodes t' !! m =
     adjust_left d (Some (hdd e (s ++ concat B))) (Some (hdd e (s' ++ concat B))) <$> nodes t !! m) ->
  (forall m, m ∈ drop (S (length A)) ns ++ post ++ [z] -> nodes t' !! m =
     adjust_right (Some (lastd f (concat A ++ s))) (Some (lastd f (concat A ++ s'))) <$> nodes t !! m) ->
  (forall x, nodes t !! n = Some x -> exists x', nodes t' !! n = Some x'
     /\ depth x' = depth x /\ op_first x' = op_first x /\ op_marker x' = op_marker x /\ op_last x' = op_last x
     /\ count x' = Z.of_nat (length s')) ->
  same_shape (nodes t) (nodes t') ->
  (forall m x l, m ∈ pre ++ post ++ [z] -> nodes t !! m = Some x -> l ∈ s' ->
     op_first x <> Some l /\ op_marker x <> Some l /\ op_last x <> Some l) ->
  forest t' f e pre ns post z ds (A ++ s' :: B).
Proof.
  intros F Hn Hd Hsh Hnd' Hl' Hleft Hright Hself Hshape Hap.
  destruct F as [F1 F2 F3 F4 F5 F6 F7 F8]. rewrite length_app in F1. simpl in F1.
  assert (hdd e (s ++ concat B) ∈ f :: concat (A ++ s :: B) ++ [e]) as Hold1.
  { rewrite concat_app. cbn [concat]. pose proof (hdd_elem e (s ++ concat B)) as He. clear - He.
    rewrite elem_of_cons, !elem_of_app in *. tauto. }
  assert (lastd f (concat A ++ s) ∈ f :: concat (A ++ s :: B) ++ [e]) as Hold2.
  { rewrite concat_app. cbn [concat]. pose proof (lastd_elem f (concat A ++ s)) as He. clear - He.
    rewrite elem_of_cons, !elem_of_app in *. tauto. }
  assert (NoDup (concat A ++ (s ++ concat B) ++ [e])) as HndL.
  { rewrite concat_app in F6. cbn [concat] in F6. rewrite <- !app_assoc in *.
    by apply list.NoDup_cons in F6 as [_ ?]. }
  assert (NoDup (f :: (concat A ++ s) ++ concat B)) as HndR.
  { rewrite concat_app in F6. cbn [concat] in F6. rewrite app_comm_cons, app_assoc in F6.
    rewrite app_comm_cons in *. by apply list.NoDup_app in F6 as (? & _ & _). }
  constructor.
  - rewrite length_app. simpl. lia.
  - done.
  - intros C m D E. destruct (F3 C m D E) as (y & H1 & H2). exists y.
    rewrite <- (previous_node_shape _ _ _ Hshape). split; [done |].
    eapply walk_shape; [apply previous_node_shape | done | done].
  - intros C m D E. destruct (F4 C m D E) as (y & H1 & H2). exists y.
    rewrite <- (next_node_shape _ _ _ Hshape). split; [done |].
    eapply walk_shape; [apply next_node_shape | done | done].
  - done.
  - done.
  - intros i m r Hm Hr. destruct (Nat.lt_trichotomy i (length A)) as [Hi | [-> | Hi]].
    + rewrite lookup_app_l in Hr by done.
      destruct (F7 i m r Hm) as (x & Hx & Hmk & Hc); [by rewrite lookup_app_l |].
      eexists. split_and!.
      * rewrite Hleft, Hx; [reflexivity |]. apply elem_of_app. right.
        apply list_elem_of_lookup. exists i. rewrite lookup_take. by rewrite decide_True by lia.
      * by apply marks_before.
      * rewrite <- Hc. apply adjust_left_fields.
    + rewrite list_lookup_middle in Hr by done. simplify_eq.
      destruct (F7 (length A) n s Hn) as (x & Hx & [M1 M2 M3 M4] & Hc); [by apply list_lookup_middle |].
      destruct (Hself x Hx) as (x' & Hx' & E1 & E2 & E3 & E4 & E5).
      exists x'. split_and!; [done | | done]. constructor.
      * by rewrite E1.
      * rewrite E2, M2, !take_app_le by lia. done.
      * rewrite E3, M3, !drop_app_ge by lia. by replace (S (length A) - length A) with 1 by lia.
      * rewrite E4, M4. pose proof (subtree_end_gt ds (length A)).
        rewrite !drop_app_ge by lia. destruct (subtree_end ds (length A) - length A) eqn:E; [lia | done].
    + assert ((A ++ s :: B) !! i = Some r) as Hr'.
      { rewrite lookup_app_r in * by lia. destruct (i - length A) eqn:E; [lia | done]. }
      destruct (F7 i m r Hm Hr') as (x & Hx & Hmk & Hc).
      eexists. split_and!.
      * rewrite Hright, Hx; [reflexivity |]. apply elem_of_app. left.
        apply list_elem_of_lookup. exists (i - S (length A)). rewrite lookup_drop.
        by replace (S (length A) + (i - S (length A))) with i by lia.
      * by apply marks_after.
      * rewrite <- Hc. apply adjust_right_fields.
  - intros m x l Hm Hx Hl.
    assert (exists x0, nodes t !! m = Some x0 /\ op_first x = op_first x0 /\ op_marker x = op_marker x0
                       /\ op_last x = op_last x0) as (x0 & Hx0 & -> & -> & ->).
    { apply elem_of_app in Hm as [Hm | Hm].
      - rewrite Hleft in Hx by (apply elem_of_app; by left). destruct (nodes t !! m) as [x0|] eqn:E0; [|done]. exists x0.
        destruct (F8 m x0 _ ltac:(apply elem_of_app; by left) E0 Hold1) as (_ & N2 & N3). simpl in Hx. simplify_eq.
        destruct (adjust_left_fields d (Some (hdd e (s ++ concat B))) (Some (hdd e (s' ++ concat B))) x0)
          as (_ & -> & -> & -> & _).
        rewrite decide_False by done. rewrite decide_False by naive_solver. done.
      - rewrite Hright in Hx by (apply elem_of_app; by right). destruct (nodes t !! m) as [x0|] eqn:E0; [|done]. exists x0.
        destruct (F8 m x0 _ ltac:(apply elem_of_app; by right) E0 Hold2) as (N1 & _). simpl in Hx. simplify_eq.
        destruct (adjust_right_fields (Some (lastd f (concat A ++ s))) (Some (lastd f (concat A ++ s'))) x0)
          as (_ & -> & -> & -> & _).
        rewrite decide_False by done. done. }
    destruct (decide (l ∈ s')) as [Hs' | Hs']; [by eapply Hap |].
    eapply F8; [done | done |]. rewrite concat_app in *. cbn [concat] in *.
    clear - Hl Hs'. rewrite !elem_of_cons, !elem_of_app in *. tauto.
Qed.

Section Adjust.
Context (t : tree) (f e : loc) (pre ns post : list loc) (z : loc) (ds : list Z) (segs : list (list loc)).
Hypothesis F : forest t f e pre ns post z ds segs.

Lemma adjust_left_marker_spec i n x old new h ns' :
  ns !! i = Some n -> same_shape (nodes t) ns' -> ns' !! n = Some x ->
  adjust_left_marker (Some n) old new (Tree h ns')
  = Ok (Tree h (upd_all (adjust_left (depth x) old new) (rev (pre ++ take i ns)) ns')).
Proof using F.
  intros Hn Hs Hx. destruct F as [_ F2 F3 _ _ _ _ _].
  destruct (F3 (pre ++ take i ns) n (drop (S i) ns ++ post)) as (y & Hy & Hw).
  { rewrite <- (take_drop_middle ns i n Hn) at 1. by rewrite <- !app_assoc. }
  assert (NoDup (rev (pre ++ take i ns))) as Hnd.
  { rewrite <- Permutation_rev. rewrite <- (take_drop i ns), <- !app_assoc, app_assoc in F2.
    by apply list.NoDup_app in F2 as (? & _). }
  unfold adjust_left_marker. cbn [nodes]. rewrite (deref_Some ns' n x Hx). cbn [rbind].
  rewrite <- (previous_node_shape _ _ _ Hs), Hy. cbn [rbind].
  assert (walk previous_node ns' y (rev (pre ++ take i ns))) as Hw'
    by (eapply walk_shape; [apply previous_node_shape | done | done]).
  apply adjust_loop_walk; [apply previous_node_shape | intros; apply adjust_left_shape | done |].
  by eapply walk_length.
Qed.

Lemma adjust_right_marker_spec i n old new h ns' :
  ns !! i = Some n -> same_shape (nodes t) ns' ->
  adjust_right_marker (Some n) old new (Tree h ns')
  = Ok (Tree h (upd_all (adjust_right old new) (drop (S i) ns ++ post ++ [z]) ns')).
Proof using F.
  intros Hn Hs. destruct F as [_ F2 _ F4 _ _ _ _].
  destruct (F4 (pre ++ take i ns) n (drop (S i) ns ++ post)) as (y & Hy & Hw).
  { rewrite <- (take_drop_middle ns i n Hn) at 1. by rewrite <- !app_assoc. }
  assert (NoDup (drop (S i) ns ++ post ++ [z])) as Hnd.
  { rewrite <- (take_drop (S i) ns), <- !app_assoc in F2.
    apply list.NoDup_app in F2 as (_ & _ & F2). by apply list.NoDup_app in F2 as (_ & _ & ?). }
  unfold adjust_right_marker. cbn [nodes].
  rewrite <- (next_node_shape _ _ _ Hs), Hy. cbn [rbind]. rewrite <- app_assoc in Hw.
  assert (walk next_node ns' y (drop (S i) ns ++ post ++ [z])) as Hw'
    by (eapply walk_shape; [apply next_node_shape | done | done]).
  apply adjust_loop_walk; [apply next_node_shape | intros; apply adjust_right_shape | done |].
  by eapply walk_length.
Qed.

(** The three groups of nodes are disjoint. *)
Lemma forest_groups i n :
  ns !! i = Some n ->
  NoDup (rev (pre ++ take i ns)) /\ NoDup (drop (S i) ns ++ post ++ [z])
  /\ (n ∉ pre ++ take i ns) /\ (n ∉ drop (S i) ns ++ post ++ [z])
  /\ (forall m, m ∈ pre ++ take i ns -> m ∉ drop (S i) ns ++ post ++ [z]).
Proof using F.
  intros Hn. destruct F as [_ F2 _ _ _ _ _ _].
  rewrite <- (take_drop_middle ns i n Hn), <- !app_assoc, app_assoc in F2. cbn [app] in F2.
  apply list.NoDup_app in F2 as (H1 & H2 & H3). apply list.NoDup_cons in H3 as [H3 H4].
  split_and!; [by rewrite <- Permutation_rev | done | | done |].
  - intros Hx. apply (H2 n Hx). by left.
  - intros m Hm Hx. apply (H2 m Hm). by right.
Qed.

Lemma forest_outside i n : ns !! i = Some n -> n ∉ pre ++ post ++ [z].
Proof using F.
  intros Hn. destruct (forest_groups i n Hn) as (_ & _ & H1 & H2 & _). rewrite !elem_of_app in *. tauto.
Qed.

Lemma forest_self i n s :
  ns !! i = Some n -> segs !! i = Some s ->
  exists x, nodes t !! n = Some x /\ marks f e ds segs i x /\ count x = Z.of_nat (length s).
Proof using F. apply (forest_marks _ _ _ _ _ _ _ _ _ F). Qed.
End Adjust.

Lemma same_shape_upd_all g l h :
  (forall x, shape (g x) = shape x) -> same_shape h (upd_all g l h).
Proof.
  intros Hg. revert h. induction l as [|a l IH]; intros h x; [done |]. unfold upd_all in *. simpl.
  rewrite <- IH. destruct (decide (x = a)) as [-> | Hx].
  - rewrite lookup_alter_eq. destruct (h !! a); simpl; [by rewrite Hg | done].
  - by rewrite lookup_alter_ne.
Qed.

(** Where [insert] puts a new proxy among those of its node: last if it is
    the first one, else before the last one. *)
Definition place (p : loc) (s : list loc) : list loc :=
  match unsnoc s with
  | None => [p]
  | Some (s', x) => s' ++ [p; x]
  end.

(** The state after the proxies of node [n] became [s']: what
    [forest_update] asks for, except for the count of [n]. *)
Record relinked (t t' : tree) (f e : loc) (pre ns post : list loc) (z : loc)
    (A : list (list loc)) (s s' : list loc) (B : list (list loc)) (n : loc) (d : Z) : Prop := {
  relinked_linked : linked (proxies t') (f :: concat (A ++ s' :: B) ++ [e]);
  relinked_left : forall m, m ∈ pre ++ take (length A) ns -> nodes t' !! m =
     adjust_left d (Some (hdd e (s ++ concat B))) (Some (hdd e (s' ++ concat B))) <$> nodes t !! m;
  relinked_right : forall m, m ∈ drop (S (length A)) ns ++ post ++ [z] -> nodes t' !! m =
     adjust_right (Some (lastd f (concat A ++ s))) (Some (lastd f (concat A ++ s'))) <$> nodes t !! m;
  relinked_self : nodes t' !! n = nodes t !! n;
  relinked_shape : same_shape (nodes t) (nodes t');
  relinked_pk : forall x, pk_ <$> proxies t' !! x = pk_ <$> proxies t !! x;
  relinked_outside : forall x, x ∉ f :: concat (A ++ s :: s' :: B) ++ [e] -> proxies t' !! x = proxies t !! x }.

(** Marker updates on both sides, where the side that keeps its neighbour
    needs none. *)
Lemma relinked_intro t f e pre ns post z ds A s s' B n x h' (left right : bool) :
  forest t f e pre ns post z ds (A ++ s :: B) -> ns !! length A = Some n -> nodes t !! n = Some x ->
  (left = false -> hdd e (s ++ concat B) = hdd e (s' ++ concat B)) ->
  (right = false -> lastd f (concat A ++ s) = lastd f (concat A ++ s')) ->
  linked h' (f :: concat (A ++ s' :: B) ++ [e]) ->
  (forall y, pk_ <$> h' !! y = pk_ <$> proxies t !! y) ->
  (forall y, y ∉ f :: concat (A ++ s :: s' :: B) ++ [e] -> h' !! y = proxies t !! y) ->
  let fl := adjust_left (depth x) (Some (hdd e (s ++ concat B))) (Some (hdd e (s' ++ concat B))) in
  let fr := adjust_right (Some (lastd f (concat A ++ s))) (Some (lastd f (concat A ++ s'))) in
  let h1 := if left then upd_all fl (rev (pre ++ take (length A) ns)) (nodes t) else nodes t in
  let h2 := if right then upd_all fr (drop (S (length A)) ns ++ post ++ [z]) h1 else h1 in
  relinked t (Tree h' h2) f e pre ns post z A s s' B n (depth x).
Proof.
  intros F Hn Hx Hl Hr HL Hpk Hout fl fr h1 h2.
  destruct (forest_groups _ _ _ _ _ _ _ _ _ F _ _ Hn) as (G1 & G2 & G3 & G4 & G5).
  assert (forall m, m ∈ rev (pre ++ take (length A) ns) <-> m ∈ pre ++ take (length A) ns) as Hrev
    by (intros m; by rewrite <- Permutation_rev).
  assert (forall m, h1 !! m = if decide (m ∈ pre ++ take (length A) ns) then fl <$> nodes t !! m else nodes t !! m)
    as H1.
  { intros m. unfold h1. destruct left.
    - rewrite lookup_upd_all by done. destruct (decide (m ∈ rev _)), (decide (m ∈ pre ++ _)); naive_solver.
    - case_decide; [|done]. unfold fl. rewrite Hl by done. destruct (nodes t !! m); simpl; [|done].
      by rewrite adjust_left_same. }
  assert (forall m, h2 !! m = if decide (m ∈ drop (S (length A)) ns ++ post ++ [z]) then fr <$> h1 !! m else h1 !! m)
    as H2.
  { intros m. unfold h2. destruct right.
    - by rewrite lookup_upd_all.
    - case_decide; [|done]. unfold fr. rewrite Hr by done. destruct (h1 !! m); simpl; [|done].
      by rewrite adjust_right_same. }
  constructor; cbn [proxies nodes]; try done.
  - intros m Hm. rewrite H2, decide_False by auto. by rewrite H1, decide_True.
  - intros m Hm. rewrite H2, decide_True by done. rewrite H1, decide_False; [done |]. intros Hm'. by apply (G5 m).
  - by rewrite H2, decide_False, H1, decide_False.
  - assert (same_shape (nodes t) h1) as Hs1.
    { unfold h1. destruct left; [|done]. apply same_shape_upd_all. intros; apply adjust_left_shape. }
    unfold h2. destruct right; [|done]. intros l. rewrite Hs1.
    apply same_shape_upd_all. intros; apply adjust_right_shape.
Qed.

(** Cutting the list of proxies between [P] and [S]. *)
Section Cut.
Context (h : gmap loc object_proxy) (f e : loc) (P S : list loc).
Hypothesis HL : linked h (f :: P ++ S ++ [e]).

Lemma cut_split : exists L K, f :: P = L ++ [lastd f P] /\ S ++ [e] = hdd e S :: K
  /\ (forall M, f :: P ++ M ++ S ++ [e] = L ++ lastd f P :: M ++ hdd e S :: K).
Proof using.
  destruct (lastd_split f P) as [L EL], (hdd_split e S) as [K EK]. exists L, K. split_and!; [done.. |].
  intros M. rewrite EK, app_comm_cons, EL, <- app_assoc. done.
Qed.

Lemma cut_prev : exists X, h !! hdd e S = Some X /\ prev_ X = Some (lastd f P).
Proof using HL.
  destruct cut_split as (L & K & _ & _ & E). pose proof HL as H. specialize (E []). cbn [app] in E.
  rewrite E in H. apply linked_app in H as [_ H]. apply linked_cons in H as (_ & H & _).
  by apply bind_Some_inv in H.
Qed.

Lemma cut_next : exists X, h !! lastd f P = Some X /\ next_ X = Some (hdd e S).
Proof using HL.
  destruct cut_split as (L & K & _ & _ & E). pose proof HL as H. specialize (E []). cbn [app] in E.
  rewrite E in H. apply linked_app in H as [_ H]. apply linked_cons in H as (H & _ & _).
  by apply bind_Some_inv in H.
Qed.

Lemma cut_link ns p X :
  NoDup (p :: f :: P ++ S ++ [e]) -> h !! p = Some X ->
  exists h', link (Some p) (Some (hdd e S)) (Tree h ns) = Ok (Tree h' ns)
    /\ linked h' (f :: P ++ p :: S ++ [e])
    /\ h' !! p = Some (set_next_ (Some (hdd e S)) (set_prev_ (Some (lastd f P)) X))
    /\ (forall x, x ∉ f :: P ++ p :: S ++ [e] -> h' !! x = h !! x)
    /\ (forall x, pk_ <$> h' !! x = pk_ <$> h !! x).
Proof using HL.
  intros Hnd HX. destruct cut_split as (L & K & _ & _ & E).
  pose proof (E []) as E0. cbn [app] in E0. pose proof (E [p]) as E1. cbn [app] in E1.
  destruct (link_spec h ns L (lastd f P) (hdd e S) K p X) as (h' & H1 & H2 & H3 & H4 & H5); auto.
  - by rewrite <- E0.
  - by rewrite <- E0.
  - exists h'. rewrite E1. split_and!; auto. intros x Hx. apply H4. set_solver.
Qed.
End Cut.

Lemma concat_middle (A : list (list loc)) s B :
  concat (A ++ s :: B) = concat A ++ s ++ concat B.
Proof. by rewrite concat_app. Qed.

Lemma marks_middle f e ds A s B x :
  marks f e ds (A ++ s :: B) (length A) x ->
  op_first x = Some (lastd f (concat A)) /\ op_marker x = Some (hdd e (concat B)).
Proof.
  intros [_ H1 H2 _]. rewrite H1, H2, take_app_length, drop_app_ge by lia.
  by replace (S (length A) - length A) with 1 by lia.
Qed.

Lemma place_cases p s :
  (s = [] /\ place p s = [p]) \/ exists s0 a, s = s0 ++ [a] /\ place p s = s0 ++ [p; a].
Proof.
  unfold place. destruct (unsnoc s) as [[s0 a]|] eqn:E.
  - right. exists s0, a. by rewrite (unsnoc_Some _ _ _ E).
  - left. by rewrite (unsnoc_None _ E).
Qed.

Lemma insert_links_spec t f e pre ns post z ds A s B n p X :
  forest t f e pre ns post z ds (A ++ s :: B) -> ns !! length A = Some n ->
  p ∉ f :: concat (A ++ s :: B) ++ [e] -> proxies t !! p = Some X ->
  exists t' x, insert_links (Some n) (Some p) t = Ok t' /\ nodes t !! n = Some x
    /\ ds !! length A = Some (depth x) /\ count x = Z.of_nat (length s)
    /\ relinked t t' f e pre ns post z A s (place p s) B n (depth x).
Proof.
  intros F Hn Hp HX. destruct (forest_self _ _ _ _ _ _ _ _ _ F _ _ s Hn) as (x & Hx & Hmk & Hc);
    [by apply list_lookup_middle |].
  pose proof (marks_middle _ _ _ _ _ _ _ Hmk) as [_ Hm]. pose proof (marks_depth _ _ _ _ _ _ Hmk) as Hd.
  pose proof (forest_linked _ _ _ _ _ _ _ _ _ F) as HL. pose proof (forest_nodup _ _ _ _ _ _ _ _ _ F) as Hnd.
  rewrite concat_middle in HL, Hnd, Hp. rewrite <- !app_assoc in HL, Hnd, Hp.
  assert (same_shape (nodes t) (nodes t)) as Hsh by done.
  pose proof HL as HL1. rewrite app_assoc in HL1. destruct (cut_prev _ _ _ _ _ HL1) as (M & HM & HMp).
  unfold insert_links. rewrite (deref_Some _ _ _ Hx). cbn [rbind]. rewrite Hm, (deref_Some _ _ _ HM). cbn [rbind].
  rewrite HMp, Hc.
  destruct (place_cases p s) as [[-> Hpl] | (s0 & a & -> & Hpl)].
  - change (2 <=? Z.of_nat (length []))%Z with false. change (Z.of_nat (length []) =? 1)%Z with false. cbn [app] in *.
    destruct (cut_link (proxies t) f e (concat A) (concat B) HL (nodes t) p X) as (h' & H1 & H2 & H3 & H4 & H5);
      [by constructor | done |].
    assert (forall q, link (Some p) q t = link (Some p) q (Tree (proxies t) (nodes t))) as Et by (by destruct t).
    rewrite Et, H1. cbn [rbind proxies].
    rewrite (deref_Some _ _ _ H3). cbn [rbind next_ prev_ set_next_ set_prev_].
    rewrite (adjust_left_marker_spec _ _ _ _ _ _ _ _ _ F _ _ _ _ _ _ _ Hn Hsh Hx). cbn [rbind].
    rewrite (adjust_right_marker_spec _ _ _ _ _ _ _ _ _ F _ _ _ _ _ _ Hn)
      by (apply same_shape_upd_all; intros; apply adjust_left_shape).
    eexists _, x. split_and!; [reflexivity | done | done | done |]. rewrite Hpl.
    pose proof (relinked_intro t f e pre ns post z ds A [] [p] B n x h' true true F Hn Hx) as R.
    cbn [app] in R. rewrite app_nil_r, lastd_app in R. cbn [lastd hdd app] in R. apply R; try done.
    + rewrite concat_middle, <- app_assoc. done.
    + intros y Hy. apply H4. rewrite concat_middle in Hy. cbn [concat app] in Hy. rewrite <- !app_assoc in Hy. done.
  - assert (lastd f (concat A ++ s0 ++ [a]) = a) as Hla by (by rewrite !lastd_app). rewrite Hla.
    pose proof HL as HL2. rewrite <- (app_assoc s0) in HL2. rewrite app_assoc in HL2. cbn [app] in HL2.
    destruct (cut_link (proxies t) f e (concat A ++ s0) (a :: concat B) HL2 (nodes t) p X)
      as (h' & H1 & H2 & H3 & H4 & H5); [|done|].
    { constructor; [|]; rewrite <- ?app_assoc in *; cbn [app] in *; done. }
    cbn [hdd] in H1, H3. assert (forall q, link (Some p) q t = link (Some p) q (Tree (proxies t) (nodes t))) as Et by (by destruct t).
    assert (linked h' (f :: concat (A ++ (s0 ++ [p; a]) :: B) ++ [e])) as HL3.
    { rewrite concat_middle, <- !app_assoc in *. cbn [app] in *. done. }
    assert (forall y, y ∉ f :: concat (A ++ (s0 ++ [a]) :: (s0 ++ [p; a]) :: B) ++ [e] -> h' !! y = proxies t !! y) as Hout.
    { intros y Hy. apply H4. rewrite concat_middle in Hy. cbn [concat] in Hy.
      clear - Hy. set_solver. }
    destruct s0 as [|b s0]; rewrite length_app; cbn [length].
    + change (2 <=? Z.of_nat (0 + 1))%Z with false. change (Z.of_nat (0 + 1) =? 1)%Z with true. cbn iota.
      rewrite Et, H1. cbn [rbind proxies]. rewrite (deref_Some _ _ _ H3).
      cbn [rbind next_ prev_ set_next_ set_prev_].
      rewrite (adjust_left_marker_spec _ _ _ _ _ _ _ _ _ F _ _ _ _ _ _ _ Hn Hsh Hx).
      eexists _, x. split_and!; [reflexivity | done | done | done |]. rewrite Hpl.
      apply (relinked_intro t f e pre ns post z ds A [a] [p; a] B n x h' true false F Hn Hx); try done.
      intros _. by rewrite !lastd_app.
    + rewrite (proj2 (Z.leb_le _ _)) by lia. rewrite Et, H1.
      eexists _, x. split_and!; [reflexivity | done | done | by rewrite Hc, length_app |]. rewrite Hpl.
      apply (relinked_intro t f e pre ns post z ds A (b :: s0 ++ [a]) (b :: s0 ++ [p; a]) B n x h' false false F Hn Hx); try done.
      intros _. rewrite !lastd_app. cbn [lastd]. by rewrite !lastd_app.
Qed.

Lemma place_Permutation p s : place p s ≡ₚ p :: s.
Proof.
  destruct (place_cases p s) as [[-> ->] | (s0 & a & -> & ->)]; [done |].
  change (s0 ++ [p; a]) with (s0 ++ p :: [a]). by rewrite <- Permutation_middle.
Qed.

Lemma split_at {A} (l : list A) i x : l !! i = Some x -> exists l1 l2, l = l1 ++ x :: l2 /\ i = length l1.
Proof.
  intros H. exists (take i l), (drop (S i) l). rewrite (take_drop_middle l i x H). split; [done |].
  rewrite length_take. apply lookup_lt_Some in H. lia.
Qed.

(** [insert] and [remove] end by changing fields of the node itself that are
    neither links nor markers. *)
Definition only_books (x x' : prototype_node) : Prop :=
  shape x' = shape x /\ depth x' = depth x /\ op_first x' = op_first x /\ op_marker x' = op_marker x
  /\ op_last x' = op_last x.

Lemma relinked_books t t1 t' f e pre ns post z ds A s s' B n x x' :
  forest t f e pre ns post z ds (A ++ s :: B) -> ns !! length A = Some n ->
  shallower_are_ancestors ds (length A) -> nodes t !! n = Some x -> ds !! length A = Some (depth x) ->
  relinked t t1 f e pre ns post z A s s' B n (depth x) ->
  NoDup (f :: concat (A ++ s' :: B) ++ [e]) ->
  (forall m x l, m ∈ pre ++ post ++ [z] -> nodes t !! m = Some x -> l ∈ s' ->
     op_first x <> Some l /\ op_marker x <> Some l /\ op_last x <> Some l) ->
  only_books x x' -> count x' = Z.of_nat (length s') ->
  t' = Tree (proxies t1) (<[n := x']> (nodes t1)) ->
  forest t' f e pre ns post z ds (A ++ s' :: B).
Proof.
  intros F Hn Hsh Hx Hd [R1 R2 R3 R4 R5 R6 R7] Hnd Hap (B1 & B2 & B3 & B4 & B5) Hc ->.
  destruct (forest_groups _ _ _ _ _ _ _ _ _ F _ _ Hn) as (_ & _ & G3 & G4 & _).
  eapply (forest_update t _ f e pre ns post z ds A s s' B n (depth x) F); auto; cbn [nodes proxies].
  - intros m Hm. rewrite lookup_insert_ne by congruence. auto.
  - intros m Hm. rewrite lookup_insert_ne by congruence. auto.
  - intros x0 Hx0. simplify_eq. exists x'. rewrite lookup_insert_eq. auto 10.
  - intros l. rewrite (R5 l). destruct (decide (l = n)) as [-> | Hl].
    + rewrite lookup_insert_eq, R4, Hx. simpl. by rewrite B1.
    + by rewrite lookup_insert_ne.
Qed.

(** Nodes that do not point into the list are not changed by moving markers. *)
Lemma adjust_left_apart d old new x : op_marker x <> old -> op_last x <> old -> adjust_left d old new x = x.
Proof.
  intros H1 H2. unfold adjust_left. destruct (decide (op_marker x = old)); [done |].
  by destruct (decide (_ /\ _)) as [[_ ?]|].
Qed.
Lemma adjust_right_apart old new x : op_first x <> old -> adjust_right old new x = x.
Proof. intros H. unfold adjust_right. by rewrite decide_False. Qed.

Lemma relinked_apart t t' f e pre ns post z ds A s s' B n d m :
  forest t f e pre ns post z ds (A ++ s :: B) -> relinked t t' f e pre ns post z A s s' B n d ->
  m ∈ pre ++ post ++ [z] -> nodes t' !! m = nodes t !! m.
Proof.
  intros F [_ R2 R3 _ _ _ _] Hm.
  assert (forall x l, nodes t !! m = Some x -> l ∈ f :: concat (A ++ s :: B) ++ [e] ->
    op_first x <> Some l /\ op_marker x <> Some l /\ op_last x <> Some l) as Hap.
  { intros x l Hx Hl. by eapply (forest_apart _ _ _ _ _ _ _ _ _ F). }
  rewrite concat_middle in Hap. rewrite elem_of_app in Hm. destruct Hm as [Hm | Hm].
  - rewrite R2 by (rewrite elem_of_app; by left). destruct (nodes t !! m) as [x|] eqn:Hx; [|done]. simpl. f_equal.
    assert (hdd e (s ++ concat B) ∈ f :: (concat A ++ s ++ concat B) ++ [e]) as Hin.
    { pose proof (hdd_elem e (s ++ concat B)) as H. clear - H. set_solver. }
    destruct (Hap x _ eq_refl Hin) as (_ & H1 & H2). by apply adjust_left_apart.
  - rewrite R3 by (rewrite !elem_of_app in *; tauto). destruct (nodes t !! m) as [x|] eqn:Hx; [|done]. simpl. f_equal.
    assert (lastd f (concat A ++ s) ∈ f :: (concat A ++ s ++ concat B) ++ [e]) as Hin.
    { pose proof (lastd_elem f (concat A ++ s)) as H. clear - H. set_solver. }
    destruct (Hap x _ eq_refl Hin) as (H1 & _). by apply adjust_right_apart.
Qed.

Lemma insert_spec t f e pre ns post z ds segs i n s p X :
  forest t f e pre ns post z ds segs -> ns !! i = Some n -> segs !! i = Some s ->
  shallower_are_ancestors ds i -> (Z.of_nat (length s) + 1 < 2 ^ 64)%Z ->
  p ∉ f :: concat segs ++ [e] -> proxies t !! p = Some X ->
  (forall m x, m ∈ pre ++ post ++ [z] -> nodes t !! m = Some x ->
     op_first x <> Some p /\ op_marker x <> Some p /\ op_last x <> Some p) ->
  exists t', insert (Some n) (Some p) t = Ok t'
    /\ forest t' f e pre ns post z ds (<[i := place p s]> segs)
    /\ (forall y, y ∉ p :: f :: concat segs ++ [e] -> proxies t' !! y = proxies t !! y)
    /\ (forall m, m ∈ pre ++ post ++ [z] -> nodes t' !! m = nodes t !! m)
    /\ (forall x, nodes t !! n = Some x -> find_proxy (pk_ X) (Some n) t' =
          Ok (if is_null (pk_ X) then id_map_ x !! pk_ X else Some (default p (id_map_ x !! pk_ X)))).
Proof.
  intros F Hn Hs Hsh Hlen Hp HX Hap. destruct (split_at _ _ _ Hs) as (A & B & -> & ->).
  rewrite insert_app_r_alt, Nat.sub_diag by done. cbn [list_insert].
  destruct (insert_links_spec t f e pre ns post z ds A s B n p X F Hn Hp HX) as (t1 & x & E1 & Hx & Hd & Hc & R).
  pose proof R as [_ _ _ R4 _ R6 R7].
  assert (exists Y, proxies t1 !! p = Some Y /\ pk_ Y = pk_ X) as (Y & HY & HYX).
  { specialize (R6 p). rewrite HX in R6. destruct (proxies t1 !! p) as [Y|]; [|done]. exists Y. split; [done |].
    simpl in R6. congruence. }
  assert (nodes t1 !! n = Some x) as Hx1 by congruence. clear R4.
  assert (u64 (count x + 1) = Z.of_nat (length (place p s))) as Hcount.
  { rewrite place_Permutation. simpl length. unfold u64. rewrite wrap_small; lia. }
  unfold insert. rewrite E1. cbn [rbind]. rewrite (upd_node_Some n _ x t1 Hx1). cbn [rbind proxies nodes].
  rewrite (deref_Some _ _ _ HY). cbn [rbind]. rewrite HYX.
  assert (NoDup (f :: concat (A ++ place p s :: B) ++ [e])) as Hnd.
  { pose proof (forest_nodup _ _ _ _ _ _ _ _ _ F) as Hnd. rewrite concat_middle in *.
    assert (f :: (concat A ++ place p s ++ concat B) ++ [e] ≡ₚ p :: f :: (concat A ++ s ++ concat B) ++ [e]) as ->.
    { rewrite place_Permutation. cbn [app]. rewrite <- !Permutation_middle. solve_Permutation. }
    by constructor. }
  assert (forall m x l, m ∈ pre ++ post ++ [z] -> nodes t !! m = Some x -> l ∈ place p s ->
     op_first x <> Some l /\ op_marker x <> Some l /\ op_last x <> Some l) as Hap'.
  { intros m x0 l Hm Hx0. rewrite place_Permutation. intros [-> | Hl]%elem_of_cons; [by eapply Hap |].
    eapply (forest_apart _ _ _ _ _ _ _ _ _ F); [done.. |]. rewrite concat_middle. clear - Hl. set_solver. }
  assert (forall y, y ∉ p :: f :: concat (A ++ s :: B) ++ [e] -> proxies t1 !! y = proxies t !! y) as Hout.
  { intros y Hy. apply R7. rewrite !concat_middle in *. cbn [concat]. clear - Hy.
    rewrite !elem_of_cons, !elem_of_app, (place_Permutation p s), !elem_of_cons in *. tauto. }
  assert (n ∉ pre ++ post ++ [z]) as Hnout by (eapply forest_outside; eassumption).
  destruct (is_null (pk_ X)) eqn:Enull.
  - eexists. split; [reflexivity |]. split_and!.
    + by apply (relinked_books t t1 _ f e pre ns post z ds A s (place p s) B n x (set_count (u64 (count x + 1)) x)).
    + exact Hout.
    + intros m Hm. cbn [nodes]. rewrite lookup_insert_ne by (intros <-; by apply Hnout). eapply relinked_apart; eassumption.
    + intros x0 Hx0. simplify_eq. unfold find_proxy. cbn [nodes deref]. by rewrite lookup_insert_eq.
  - eexists. split; [apply upd_node_Some; cbn [nodes]; apply lookup_insert_eq |]. cbn [proxies nodes].
    rewrite insert_insert_eq. split_and!.
    + by eapply (relinked_books t t1 _ f e pre ns post z ds A s (place p s) B n x
        (set_id_map (map_insert_new (pk_ X) p (id_map_ x)) (set_count (u64 (count x + 1)) x))).
    + exact Hout.
    + intros m Hm. cbn [nodes]. rewrite lookup_insert_ne by (intros <-; by apply Hnout). eapply relinked_apart; eassumption.
    + intros x0 Hx0. simplify_eq. unfold find_proxy. cbn [nodes deref]. rewrite lookup_insert_eq. cbn.
      by rewrite lookup_map_insert_new.
Qed.

(** C13: [prototype_node::insert] puts a proxy that is in no list at its place
    in the list of its class and moves the markers of all classes so that they
    delimit the lists again, provided that every class declared before it that
    is less deep in the inheritance tree is one of its ancestors; without this
    condition the markers of another class may end up wrong
    ([insert_misses_uncle]). The proxy is found under its primary key unless
    the key is null or a proxy with the same key was there before; nothing
    outside the list is touched: neither the proxies of other lists nor the
    nodes of other root classes. The class has fewer than 2^64 objects. *)
Theorem insert_refines_list t f e pre ns post z ds segs i n s p X :
  forest t f e pre ns post z ds segs -> ns !! i = Some n -> segs !! i = Some s ->
  shallower_are_ancestors ds i -> (Z.of_nat (length s) + 1 < 2 ^ 64)%Z ->
  p ∉ f :: concat segs ++ [e] -> proxies t !! p = Some X ->
  (forall m x, m ∈ pre ++ post ++ [z] -> nodes t !! m = Some x ->
     op_first x <> Some p /\ op_marker x <> Some p /\ op_last x <> Some p) ->
  exists t', insert (Some n) (Some p) t = Ok t'
    /\ forest t' f e pre ns post z ds (<[i := place p s]> segs)
    /\ (forall y, y ∉ p :: f :: concat segs ++ [e] -> proxies t' !! y = proxies t !! y)
    /\ (forall m, m ∈ pre ++ post ++ [z] -> nodes t' !! m = nodes t !! m)
    /\ (forall x, nodes t !! n = Some x -> find_proxy (pk_ X) (Some n) t' =
          Ok (if is_null (pk_ X) then id_map_ x !! pk_ X else Some (default p (id_map_ x !! pk_ X)))).
Proof. apply insert_spec. Qed.

Lemma cut_unlink h ns f e P p S :
  linked h (f :: P ++ p :: S ++ [e]) -> NoDup (f :: P ++ p :: S ++ [e]) ->
  exists h' X, unlink (Some p) (Tree h ns) = Ok (Tree h' ns)
    /\ linked h' (f :: P ++ S ++ [e])
    /\ h !! p = Some X /\ h' !! p = Some (set_next_ None (set_prev_ None X))
    /\ (forall x, x ∉ f :: P ++ p :: S ++ [e] -> h' !! x = h !! x)
    /\ (forall x, pk_ <$> h' !! x = pk_ <$> h !! x).
Proof.
  intros HL Hnd. destruct (cut_split f e P S) as (L & K & _ & _ & E).
  pose proof (E []) as E0. pose proof (E [p]) as E1. cbn [app] in E0, E1.
  rewrite E1 in HL, Hnd.
  destruct (unlink_spec h ns L (lastd f P) p (hdd e S) K HL Hnd) as (h' & X & H1 & H2 & H3 & H4 & H5 & H6).
  exists h', X. rewrite E0, E1. split_and!; auto. intros x Hx. apply H5. clear - Hx. set_solver.
Qed.

Lemma remove_links_spec t f e pre ns post z ds A s1 p s2 B n :
  forest t f e pre ns post z ds (A ++ (s1 ++ p :: s2) :: B) -> ns !! length A = Some n ->
  exists t' x, remove_links (Some n) (Some p) t = Ok t' /\ nodes t !! n = Some x
    /\ ds !! length A = Some (depth x) /\ count x = Z.of_nat (length (s1 ++ p :: s2))
    /\ relinked t t' f e pre ns post z A (s1 ++ p :: s2) (s1 ++ s2) B n (depth x).
Proof.
  set (s := s1 ++ p :: s2). set (s' := s1 ++ s2). intros F Hn.
  destruct (forest_self _ _ _ _ _ _ _ _ _ F _ _ s Hn) as (x & Hx & Hmk & Hc); [by apply list_lookup_middle |].
  pose proof (marks_middle _ _ _ _ _ _ _ Hmk) as [Hf Hm]. pose proof (marks_depth _ _ _ _ _ _ Hmk) as Hd.
  pose proof (forest_linked _ _ _ _ _ _ _ _ _ F) as HL. pose proof (forest_nodup _ _ _ _ _ _ _ _ _ F) as Hnd.
  rewrite concat_middle in HL, Hnd. rewrite <- !app_assoc in HL, Hnd.
  assert (f :: concat A ++ s ++ concat B ++ [e] = f :: (concat A ++ s1) ++ p :: (s2 ++ concat B) ++ [e]) as Ech.
  { unfold s. rewrite <- !app_assoc. cbn [app]. by rewrite <- ?app_assoc. }
  destruct (cut_next (proxies t) f e (concat A) (s ++ concat B)) as (Xf & HXf & HXn); [by rewrite <- app_assoc |].
  pose proof HL as HL1. rewrite app_assoc in HL1. destruct (cut_prev _ _ _ _ _ HL1) as (M & HM & HMp).
  pose proof HL as HLp. rewrite Ech in HLp. pose proof Hnd as Hndp. rewrite Ech in Hndp.
  destruct (cut_prev (proxies t) f e (concat A ++ s1) (p :: s2 ++ concat B)) as (Y & HY & HYp); [done |].
  cbn [hdd] in HY.
  assert (next_ Y = Some (hdd e (s2 ++ concat B))) as HYn.
  { destruct (cut_next (proxies t) f e ((concat A ++ s1) ++ [p]) (s2 ++ concat B)) as (Y' & HY' & HYn).
    - rewrite <- (app_assoc (_ ++ s1)). done.
    - rewrite lastd_app in HY'. cbn [lastd] in HY'. congruence. }
  set (left := bool_decide (s1 = [])). set (right := bool_decide (s2 = [])).
  set (fl := adjust_left (depth x) (Some (hdd e (s ++ concat B))) (Some (hdd e (s' ++ concat B)))).
  set (fr := adjust_right (Some (lastd f (concat A ++ s))) (Some (lastd f (concat A ++ s')))).
  set (h1 := if left then upd_all fl (rev (pre ++ take (length A) ns)) (nodes t) else nodes t).
  set (h2 := if right then upd_all fr (drop (S (length A)) ns ++ post ++ [z]) h1 else h1).
  destruct (cut_unlink (proxies t) h2 f e (concat A ++ s1) p (s2 ++ concat B) HLp Hndp)
    as (h' & X & U1 & U2 & U3 & U4 & U5 & U6).
  assert (relinked t (Tree h' h2) f e pre ns post z A s s' B n (depth x)) as R.
  { apply (relinked_intro t f e pre ns post z ds A s s' B n x h' left right F Hn Hx).
    - unfold left. intros Hl. breflect. unfold s, s'. by destruct s1.
    - unfold right. intros Hl. breflect. unfold s, s'. rewrite !lastd_app. by destruct s2.
    - rewrite concat_middle. unfold s'. rewrite <- !app_assoc. rewrite <- !app_assoc in U2. done.
    - done.
    - intros y Hy. apply U5. rewrite concat_middle in Hy. clear - Hy. unfold s in Hy. set_solver. }
  exists (Tree h' h2), x. split_and!; [|done|done|done|done].
  unfold remove_links. rewrite (deref_Some _ _ _ Hx). cbn [rbind]. rewrite Hf, (deref_Some _ _ _ HXf). cbn [rbind].
  assert (same_shape (nodes t) (nodes t)) as Hsh by done.
  assert (same_shape (nodes t) h1) as Hsh1.
  { unfold h1. destruct left; [|done]. apply same_shape_upd_all. intros; apply adjust_left_shape. }
  destruct (forest_groups _ _ _ _ _ _ _ _ _ F _ _ Hn) as (G1 & _ & G3 & _).
  assert (h1 !! n = Some x) as Hx1.
  { unfold h1. destruct left; [|done]. rewrite lookup_upd_all, decide_False; [done | | done].
    by rewrite <- Permutation_rev. }
  assert ((if decide (Some p = next_ Xf) then
             let? y := deref (proxies t) (next_ Xf) in adjust_left_marker (Some n) (next_ Xf) (next_ y) t
           else Ok t) = Ok (Tree (proxies t) h1)) as ->.
  { rewrite HXn. unfold h1, left, fl, s, s'. destruct s1 as [|b s1]; cbn [app hdd].
    - rewrite decide_True by done. rewrite (deref_Some _ _ _ HY). cbn [rbind]. rewrite HYn.
      rewrite bool_decide_true by done. destruct t as [tp tn].
      by rewrite (adjust_left_marker_spec _ _ _ _ _ _ _ _ _ F _ _ _ _ _ _ _ Hn Hsh Hx).
    - rewrite decide_False; [by destruct t |]. intros [= <-].
      clear - Hndp. rewrite list.NoDup_cons, list.NoDup_app in Hndp.
      destruct Hndp as (_ & _ & H & _). apply (H p); set_solver. }
  cbn [rbind nodes proxies]. rewrite (deref_Some _ _ _ Hx1). cbn [rbind]. rewrite Hm, (deref_Some _ _ _ HM). cbn [rbind].
  assert ((if decide (Some p = prev_ M) then
             let? y := deref (proxies t) (prev_ M) in adjust_right_marker (Some n) (Some p) (prev_ y) (Tree (proxies t) h1)
           else Ok (Tree (proxies t) h1)) = Ok (Tree (proxies t) h2)) as ->.
  { rewrite HMp. unfold h2, right, fr, s, s'. destruct s2 as [|b s2 _] using rev_ind.
    - rewrite app_nil_r. rewrite (app_assoc (concat A)), lastd_app. cbn [lastd]. rewrite decide_True by done.
      rewrite (deref_Some _ _ _ HY). cbn [rbind]. rewrite HYp, bool_decide_true by done.
      by rewrite (adjust_right_marker_spec _ _ _ _ _ _ _ _ _ F _ _ _ _ _ _ Hn Hsh1).
    - rewrite bool_decide_false by (by destruct s2). rewrite decide_False; [done |].
      rewrite app_comm_cons, !lastd_app. cbn [lastd]. intros [= <-].
      clear - Hndp. rewrite list.NoDup_cons, list.NoDup_app, list.NoDup_cons in Hndp.
      destruct Hndp as (_ & _ & _ & H & _). apply H. set_solver. }
  cbn [rbind]. exact U1.
Qed.

Lemma remove_spec t f e pre ns post z ds segs i n s1 p s2 :
  forest t f e pre ns post z ds segs -> ns !! i = Some n -> segs !! i = Some (s1 ++ p :: s2) ->
  shallower_are_ancestors ds i -> (Z.of_nat (length (s1 ++ p :: s2)) < 2 ^ 64)%Z ->
  exists t', remove (Some n) (Some p) t = Ok t'
    /\ forest t' f e pre ns post z ds (<[i := s1 ++ s2]> segs)
    /\ (forall y, y ∉ f :: concat segs ++ [e] -> proxies t' !! y = proxies t !! y)
    /\ (forall m, m ∈ pre ++ post ++ [z] -> nodes t' !! m = nodes t !! m).
Proof.
  intros F Hn Hs Hsh Hlen. destruct (split_at _ _ _ Hs) as (A & B & -> & ->).
  rewrite insert_app_r_alt, Nat.sub_diag by done. cbn [list_insert].
  destruct (remove_links_spec t f e pre ns post z ds A s1 p s2 B n F Hn) as (t1 & x & E1 & Hx & Hd & Hc & R).
  pose proof R as [_ _ _ R4 _ R6 R7].
  assert (nodes t1 !! n = Some x) as Hx1 by congruence. clear R4.
  assert (exists Y, proxies t1 !! p = Some Y) as (Y & HY).
  { pose proof (forest_linked _ _ _ _ _ _ _ _ _ F) as HL. rewrite concat_middle, <- !app_assoc in HL.
    destruct (cut_prev (proxies t) f e (concat A ++ s1) (p :: s2 ++ concat B)) as (Y & HY & _).
    { rewrite <- !app_assoc. cbn [app] in *. by rewrite <- app_assoc. }
    cbn [hdd] in HY. specialize (R6 p). rewrite HY in R6. by destruct (proxies t1 !! p); eauto. }
  assert (u64 (count x - 1) = Z.of_nat (length (s1 ++ s2))) as Hcount.
  { rewrite Hc. rewrite !length_app in *. simpl length in *. unfold u64. rewrite wrap_small; lia. }
  assert (NoDup (f :: concat (A ++ (s1 ++ s2) :: B) ++ [e])) as Hnd.
  { pose proof (forest_nodup _ _ _ _ _ _ _ _ _ F) as Hnd. rewrite !concat_middle in *.
    assert (f :: (concat A ++ (s1 ++ p :: s2) ++ concat B) ++ [e]
            ≡ₚ p :: f :: (concat A ++ (s1 ++ s2) ++ concat B) ++ [e]) as E.
    { rewrite <- (Permutation_middle s1). cbn [app]. rewrite <- !Permutation_middle. solve_Permutation. }
    rewrite E in Hnd. by apply list.NoDup_cons in Hnd as [_ ?]. }
  assert (forall m x l, m ∈ pre ++ post ++ [z] -> nodes t !! m = Some x -> l ∈ s1 ++ s2 ->
     op_first x <> Some l /\ op_marker x <> Some l /\ op_last x <> Some l) as Hap'.
  { intros m x0 l Hm Hx0 Hl. eapply (forest_apart _ _ _ _ _ _ _ _ _ F); [done.. |].
    rewrite concat_middle. clear - Hl. set_solver. }
  unfold remove. rewrite E1. cbn [rbind]. rewrite (deref_Some _ _ _ Hx1). cbn [rbind].
  rewrite (deref_Some _ _ _ HY). cbn [rbind].
  set (x1 := if is_null (id_ x) then x else set_id_map (delete (pk_ Y) (id_map_ x)) x).
  assert ((if is_null (id_ x) then Ok t1
           else upd_node (Some n) (fun n => set_id_map (delete (pk_ Y) (id_map_ n)) n) t1)
          = Ok (Tree (proxies t1) (<[n := x1]> (nodes t1)))) as ->.
  { unfold x1. destruct (is_null (id_ x)); [|by rewrite (upd_node_Some n _ x t1 Hx1)].
    rewrite insert_id by done. by destruct t1. }
  cbn [rbind]. rewrite (upd_node_Some n _ x1) by (cbn [nodes]; apply lookup_insert_eq).
  eexists. split; [reflexivity |]. cbn [proxies nodes]. rewrite insert_insert_eq. split_and!.
  - apply (relinked_books t t1 _ f e pre ns post z ds A (s1 ++ p :: s2) (s1 ++ s2) B n x
      (set_count (u64 (count x1 - 1)) x1)); try done.
    + unfold x1. by destruct (is_null (id_ x)).
    + unfold x1. by destruct (is_null (id_ x)).
  - intros y Hy. apply R7. rewrite !concat_middle in *. cbn [concat]. clear - Hy. set_solver.
  - intros m Hm. rewrite lookup_insert_ne; [eapply relinked_apart; eassumption |]. intros <-. eapply forest_outside; eassumption.
Qed.

(** C15: [prototype_node::remove] takes the proxy out of the list of its class
    and moves the markers of all classes so that they delimit the lists again,
    without touching proxies and nodes outside of the list, provided that
    every class declared before its class that is less deep in the inheritance
    tree is one of its ancestors ([insert_misses_uncle] shows the condition
    for [insert]). The class has fewer than 2^64 objects. *)
Theorem remove_refines_list t f e pre ns post z ds segs i n s1 p s2 :
  forest t f e pre ns post z ds segs -> ns !! i = Some n -> segs !! i = Some (s1 ++ p :: s2) ->
  shallower_are_ancestors ds i -> (Z.of_nat (length (s1 ++ p :: s2)) < 2 ^ 64)%Z ->
  exists t', remove (Some n) (Some p) t = Ok t'
    /\ forest t' f e pre ns post z ds (<[i := s1 ++ s2]> segs)
    /\ (forall y, y ∉ f :: concat segs ++ [e] -> proxies t' !! y = proxies t !! y)
    /\ (forall m, m ∈ pre ++ post ++ [z] -> nodes t' !! m = nodes t !! m).
Proof. apply remove_spec. Qed.

(** ** A small tree *)

(** The tree of an [object_store] without classes: two sentinels. *)
Definition empty_tree : tree :=
  let '(f, t) := new_node node0 (Tree ∅ ∅) in
  let '(l, t) := new_node (set_prev (Some f) node0) t in
  Tree (proxies t) (<[f := set_next (Some l) node0]> (nodes t)).

(** A class with a subclass and one object of the subclass. *)
Definition sample : result (tree * loc * loc * loc) :=
  let '(a, t) := make_node (lit "person") (lit "6person") false empty_tree in
  let? t := append (Some 0) (Some a) t in
  let '(b, t) := make_node (lit "student") (lit "7student") false t in
  let? t := insert_child (Some a) (Some b) t in
  let '(p, t) := new_proxy proxy0 t in
  let? t := insert (Some b) (Some p) t in
  let '(q, t) := new_proxy (set_pk_ (IntegralPk true 8 42) proxy0) t in
  Ok (t, p, q, b).

Definition sample_tree : tree := match sample with Ok (t, _, _, _) => t | Throw _ => empty_tree end.

Lemma sample_forest : forest sample_tree 0 1 [] [4; 7] [] 1 [0; 1]%Z [[]; [2]].
Proof.
  constructor.
  - done.
  - refine (bool_decide_eq_true_1 (NoDup _) _). vm_compute. reflexivity.
  - intros [|a [|b A]] n B E; simplify_eq/=; [| |by destruct A].
    + eexists. split; [vm_compute; reflexivity | reflexivity].
    + eexists. split; [vm_compute; reflexivity |]. split; [reflexivity |]. split; [eexists; vm_compute; reflexivity |].
      eexists. split; [vm_compute; reflexivity | reflexivity].
  - intros [|a [|b A]] n B E; simplify_eq/=; [| |by destruct A].
    + eexists. split; [vm_compute; reflexivity |]. split; [reflexivity |]. split; [eexists; vm_compute; reflexivity |].
      eexists. split; [vm_compute; reflexivity |]. split; [reflexivity |]. split; [eexists; vm_compute; reflexivity |].
      eexists. split; [vm_compute; reflexivity | reflexivity].
    + eexists. split; [vm_compute; reflexivity |]. split; [reflexivity |]. split; [eexists; vm_compute; reflexivity |].
      eexists. split; [vm_compute; reflexivity | reflexivity].
  - vm_compute. auto.
  - refine (bool_decide_eq_true_1 (NoDup _) _). vm_compute. reflexivity.
  - intros [|[|i]] n s Hn Hs; simplify_eq/=; (eexists; split_and!; [vm_compute; reflexivity | | reflexivity]);
      constructor; vm_compute; reflexivity.
  - intros m x l Hm Hx _. apply list_elem_of_singleton in Hm as ->.
    vm_compute in Hx. injection Hx as <-. done.
Qed.

Lemma sample_shallower : shallower_are_ancestors [0; 1]%Z 1.
Proof. intros [|j] dj di Hj H1 H2 Hd; [|lia]. vm_compute. lia. Qed.

Lemma insert_refines_list_witness :
  exists t', insert (Some 7) (Some 3) sample_tree = Ok t'
    /\ forest t' 0 1 [] [4; 7] [] 1 [0; 1]%Z [[]; [3; 2]]
    /\ find_proxy (IntegralPk true 8 42) (Some 7) t' = Ok (Some 3).
Proof.
  destruct (insert_refines_list sample_tree 0 1 [] [4; 7] [] 1 [0; 1]%Z [[]; [2]] 1 7 [2] 3
              (set_pk_ (IntegralPk true 8 42) proxy0)) as (t' & H1 & H2 & _ & H3).
  - exact sample_forest.
  - reflexivity.
  - reflexivity.
  - exact sample_shallower.
  - simpl. lia.
  - refine (bool_decide_eq_true_1 (~ _) _). vm_compute. reflexivity.
  - vm_compute. reflexivity.
  - intros m x Hm Hx. apply list_elem_of_singleton in Hm as ->.
    vm_compute in Hx. injection Hx as <-. done.
  - exists t'. split; [exact H1 |]. split; [exact H2 |].
    etrans; [eapply H3; vm_compute; reflexivity | vm_compute; reflexivity].
Defined.

Lemma remove_refines_list_witness :
  exists t', remove (Some 7) (Some 2) sample_tree = Ok t'
    /\ forest t' 0 1 [] [4; 7] [] 1 [0; 1]%Z [[]; []].
Proof.
  destruct (remove_refines_list sample_tree 0 1 [] [4; 7] [] 1 [0; 1]%Z [[]; [2]] 1 7 [] 2 []) as (t' & H1 & H2 & _).
  - exact sample_forest.
  - reflexivity.
  - reflexivity.
  - exact sample_shallower.
  - simpl. lia.
  - exists t'. split; [exact H1 | exact H2].
Defined.

(** The condition is needed. Classes [b] and [c] derive from [a], and [d] from
    [c]; after the first object of [d] is inserted, [b] has an object in its
    subtree, which is the object of [d]. *)
Example insert_misses_uncle :
  (let '(a, t) := make_node [] [] false empty_tree in
   let? t := append (Some 0) (Some a) t in
   let '(b, t) := make_node [] [] false t in
   let? t := insert_child (Some a) (Some b) t in
   let '(c, t) := make_node [] [] false t in
   let? t := insert_child (Some a) (Some c) t in
   let '(d, t) := make_node [] [] false t in
   let? t := insert_child (Some c) (Some d) t in
   let? e1 := empty false (Some b) t in
   let '(p, t) := new_proxy proxy0 t in
   let? t := insert (Some d) (Some p) t in
   let? e2 := empty false (Some b) t in
   Ok (e1, e2)) = Ok (true, false).
Proof. vm_compute. reflexivity. Qed.

End PrototypeTree.
