(* ===== verification/ObjectView.v ===== *)
(** * Views of the objects of a class

    Model of [object_view] and its iterator
    (include/matador/object/object_view.hpp): the objects of a class, with or
    without those of its subclasses, read off the linked list of proxies
    between the markers of the node. An element of a view is the proxy an
    [object_ptr] is made of; [optr] makes a null pointer of a proxy without an
    object. The theorem says that a view yields what [PrototypeTree] keeps for
    the class. *)

From S2P Require Import Prelude Identifier ObjectSerializer PrototypeTree.
Local Open Scope cxx_scope.

Module ObjectView.
Import Identifier ObjectSerializer PrototypeTree.

Record object_view_iterator := Iterator { view_node_ : option loc; current_ : option loc; last_ : option loc }.

Definition increment (t : tree) (it : object_view_iterator) : result object_view_iterator :=
  if decide (current_ it = last_ it) then Ok it
  else let? x := deref (proxies t) (current_ it) in Ok (Iterator (view_node_ it) (next_ x) (last_ it)).

Definition decrement (t : tree) (it : object_view_iterator) : result object_view_iterator :=
  let? n := deref (nodes t) (view_node_ it) in
  if decide (current_ it = op_first n) then Ok it
  else let? x := deref (proxies t) (current_ it) in Ok (Iterator (view_node_ it) (prev_ x) (last_ it)).

(** [None] is the null [object_ptr]. *)
Definition pointer (t : tree) (p : option loc) : result (option loc) :=
  let? x := deref (proxies t) p in
  Ok match obj_ x with Some _ => p | None => None end.
Definition optr (t : tree) (it : object_view_iterator) : result (option loc) := pointer t (current_ it).

(** ** The view *)

Record object_view := View { skip_siblings_ : bool; node_ : option loc }.

Definition limit (v : object_view) (n : prototype_node) : option loc := if skip_siblings_ v then op_marker n else op_last n.

Definition begin (t : tree) (v : object_view) : result object_view_iterator :=
  let? n := deref (nodes t) (node_ v) in increment t (Iterator (node_ v) (op_first n) (limit v n)).

Definition end_ (t : tree) (v : object_view) : result object_view_iterator :=
  let? n := deref (nodes t) (node_ v) in Ok (Iterator (node_ v) (limit v n) (limit v n)).

Definition front (t : tree) (v : object_view) : result (option loc) := let? it := begin t v in optr t it.
Definition back (t : tree) (v : object_view) : result (option loc) :=
  let? it := end_ t v in let? it := decrement t it in optr t it.

Definition empty (t : tree) (v : object_view) : result bool :=
  let? n := deref (nodes t) (node_ v) in
  let? x := deref (proxies t) (op_first n) in
  Ok (bool_decide (next_ x = op_last n)).

(** A loop from an iterator to the end: the proxies it comes by. *)
Fixpoint traverse (fuel : nat) (t : tree) (it stop : object_view_iterator) : result (list loc) :=
  if decide (current_ it = current_ stop) then Ok []
  else
    match fuel, current_ it with
    | S fuel, Some l => let? it := increment t it in let? ls := traverse fuel t it stop in Ok (l :: ls)
    | S _, None => null_deref
    | O, _ => Throw out_of_fuel
    end.

(** A loop over the view. *)
Definition elements (t : tree) (v : object_view) : result (list loc) :=
  let? first := begin t v in
  let? stop := end_ t v in
  traverse (size (proxies t)) t first stop.

Definition size_ (t : tree) (v : object_view) : result nat := let? ls := elements t v in Ok (length ls).

Definition skip_siblings (skip : bool) (v : object_view) : object_view := View skip (node_ v).

(** [it++] and [it--]: the old iterator and the moved one. *)
Definition post_increment (t : tree) (it : object_view_iterator) : result (object_view_iterator * object_view_iterator) :=
  let? moved := increment t it in Ok (it, moved).
Definition post_decrement (t : tree) (it : object_view_iterator) : result (object_view_iterator * object_view_iterator) :=
  let? moved := decrement t it in Ok (it, moved).

Fixpoint find_from (fuel : nat) (t : tree) (pred : option loc -> bool) (it stop : object_view_iterator) : result object_view_iterator :=
  if decide (current_ it = current_ stop) then Ok it
  else
    match fuel with
    | O => Throw out_of_fuel
    | S fuel =>
      let? x := optr t it in
      if pred x then Ok it else let? it := increment t it in find_from fuel t pred it stop
    end.

Definition find_if (t : tree) (pred : option loc -> bool) (v : object_view) : result object_view_iterator :=
  let? first := begin t v in
  let? stop := end_ t v in
  find_from (size (proxies t)) t pred first stop.

(** ** Traversing a linked list *)

Lemma next_deref (h : gmap loc object_proxy) x y : h !! x ≫= next_ = Some y -> exists X, h !! x = Some X /\ next_ X = Some y.
Proof. apply bind_Some_inv. Qed.

Lemma linked_tail (h : gmap loc object_proxy) x L : linked h (x :: L) -> linked h L.
Proof. destruct L; [done |]. rewrite linked_cons. tauto. Qed.

Lemma traverse_linked t n M s K fuel :
  linked (proxies t) (M ++ s :: K) -> NoDup (M ++ [s]) -> length M <= fuel ->
  traverse fuel t (Iterator n (Some (hdd s M)) (Some s)) (Iterator n (Some s) (Some s)) = Ok M.
Proof.
  revert M. induction fuel as [|fuel IH]; intros [|x M] HL Hnd Hf; cbn [hdd]; try (simpl in Hf; lia).
  1, 2: by simpl; rewrite decide_True by done.
  cbn [app] in Hnd. apply list.NoDup_cons in Hnd as [Hx Hnd].
  assert (x <> s) as Hxs by set_solver. cbn [traverse current_]. rewrite decide_False by congruence.
  assert (proxies t !! x ≫= next_ = Some (hdd s M) /\ linked (proxies t) (M ++ s :: K)) as [Hn HL'].
  { destruct M as [|y M]; cbn [app hdd] in *; apply linked_cons in HL; naive_solver. }
  apply next_deref in Hn as (X & HX & HnX). unfold increment. cbn [current_ last_ view_node_].
  rewrite decide_False by congruence. rewrite (deref_Some _ _ _ HX). cbn [rbind]. rewrite HnX, IH; [done | done | done |].
  simpl in Hf. lia.
Qed.

(** The predicate on a proxy, as [find_if] applies it. *)
Definition holds (t : tree) (pred : option loc -> bool) (x : loc) : bool :=
  match pointer t (Some x) with Ok p => pred p | Throw _ => false end.

Lemma find_from_linked t pred n M s K fuel :
  linked (proxies t) (M ++ s :: K) -> NoDup (M ++ [s]) -> length M <= fuel ->
  find_from fuel t pred (Iterator n (Some (hdd s M)) (Some s)) (Iterator n (Some s) (Some s))
    = Ok (Iterator n (Some (hdd s (filter (holds t pred) M))) (Some s)).
Proof.
  revert M. induction fuel as [|fuel IH]; intros [|x M] HL Hnd Hf; cbn [hdd]; try (simpl in Hf; lia).
  1, 2: by simpl; rewrite decide_True by done.
  cbn [app] in Hnd. apply list.NoDup_cons in Hnd as [Hx Hnd].
  assert (x <> s) as Hxs by set_solver. cbn [find_from current_]. rewrite decide_False by congruence.
  assert (proxies t !! x ≫= next_ = Some (hdd s M) /\ linked (proxies t) (M ++ s :: K)) as [Hn HL'].
  { destruct M as [|y M]; cbn [app hdd] in *; apply linked_cons in HL; naive_solver. }
  apply next_deref in Hn as (X & HX & HnX). rewrite filter_cons.
  assert (holds t pred x = pred match obj_ X with Some _ => Some x | None => None end) as Hp.
  { unfold holds, pointer. by rewrite (deref_Some _ _ _ HX). }
  unfold optr, pointer. cbn [current_]. rewrite (deref_Some _ _ _ HX). cbn [rbind]. rewrite <- Hp. destruct (holds t pred x).
  - by rewrite decide_True by done.
  - rewrite decide_False by auto. unfold increment. cbn [current_ last_ view_node_]. rewrite decide_False by congruence.
    rewrite (deref_Some _ _ _ HX). cbn [rbind]. rewrite HnX. apply IH; [done | done |]. simpl in Hf. lia.
Qed.

(** ** What a view yields *)

Section Forest.
Context (t : tree) (f e : loc) (pre ns post : list loc) (z : loc) (ds : list Z) (segs : list (list loc)).
Context (F : forest t f e pre ns post z ds segs).

(** The lists that a view of node [i] covers. *)
Definition covered (skip : bool) (i : nat) : list loc :=
  concat (take ((if skip then S i else subtree_end ds i) - i) (drop i segs)).

Lemma covered_split skip i :
  concat segs = concat (take i segs) ++ covered skip i ++ concat (drop (if skip then S i else subtree_end ds i) segs).
Proof.
  unfold covered. set (j := if skip then S i else subtree_end ds i).
  assert (i <= j) by (unfold j; destruct skip; [lia | pose proof (subtree_end_gt ds i); lia]).
  rewrite <- !concat_app. f_equal. rewrite <- (take_drop i segs) at 1. f_equal.
  rewrite <- (take_drop (j - i) (drop i segs)) at 1. f_equal. rewrite drop_drop. f_equal. lia.
Qed.

(** The node, its first marker and its limit cut the list around them. *)
Lemma view_cut skip i n :
  ns !! i = Some n ->
  exists x L K q s, nodes t !! n = Some x /\ op_first x = Some q /\ limit (View skip (Some n)) x = Some s
    /\ linked (proxies t) (L ++ q :: covered skip i ++ s :: K) /\ NoDup (L ++ q :: covered skip i ++ s :: K).
Proof using F.
  intros Hn. assert (is_Some (segs !! i)) as [sg Hs].
  { apply lookup_lt_is_Some. rewrite <- (forest_length _ _ _ _ _ _ _ _ _ F). by eapply lookup_lt_Some. }
  destruct (forest_marks _ _ _ _ _ _ _ _ _ F i n sg Hn Hs) as (x & Hx & [M1 M2 M3 M4] & _).
  pose proof (forest_linked _ _ _ _ _ _ _ _ _ F) as HL. pose proof (forest_nodup _ _ _ _ _ _ _ _ _ F) as Hnd.
  destruct (cut_split f e (concat (take i segs)) (concat (drop (if skip then S i else subtree_end ds i) segs)))
    as (L & K & _ & _ & E). specialize (E (covered skip i)).
  rewrite (covered_split skip i), <- !app_assoc, E in HL, Hnd.
  exists x, L, K. eexists _, _. split_and!; [exact Hx | exact M2 | | exact HL | exact Hnd].
  unfold limit. cbn. destruct skip; [exact M3 | exact M4].
Qed.

Lemma begin_covered skip i n x q s L K :
  nodes t !! n = Some x -> op_first x = Some q -> limit (View skip (Some n)) x = Some s ->
  linked (proxies t) (L ++ q :: covered skip i ++ s :: K) -> NoDup (L ++ q :: covered skip i ++ s :: K) ->
  begin t (View skip (Some n)) = Ok (Iterator (Some n) (Some (hdd s (covered skip i))) (Some s))
  /\ end_ t (View skip (Some n)) = Ok (Iterator (Some n) (Some s) (Some s)).
Proof.
  intros Hx Hq Hl HL Hnd. unfold begin, end_. cbn [node_]. rewrite (deref_Some _ _ _ Hx). cbn [rbind].
  rewrite Hl, Hq. split; [|done]. unfold increment. cbn [current_ last_ view_node_].
  apply list.NoDup_app in Hnd as (_ & _ & Hnd). apply list.NoDup_cons in Hnd as [Hnq _].
  rewrite decide_False by (intros [= ->]; set_solver).
  apply linked_app in HL as [_ HL].
  assert (proxies t !! q ≫= next_ = Some (hdd s (covered skip i))) as Hn.
  { destruct (covered skip i); cbn [app hdd] in *; by apply linked_cons in HL as (H & _). }
  apply next_deref in Hn as (X & HX & HnX). rewrite (deref_Some _ _ _ HX). cbn [rbind]. by rewrite HnX.
Qed.

Lemma linked_domain (h : gmap loc object_proxy) L x : linked h L -> x ∈ L -> 2 <= length L -> is_Some (h !! x).
Proof.
  induction L as [|a [|b L] IH]; intros HL Hx Hlen; [by simpl in Hlen; lia | by simpl in Hlen; lia |].
  apply linked_cons in HL as (H1 & H2 & HL). apply elem_of_cons in Hx as [-> | Hx].
  - destruct (bind_Some_inv _ _ _ H1) as (X & -> & _). eauto.
  - destruct L as [|c L]; [|apply IH; [done | done | simpl; lia]].
    apply list_elem_of_singleton in Hx as ->. destruct (bind_Some_inv _ _ _ H2) as (X & -> & _). eauto.
Qed.

Lemma covered_short skip i q s L K :
  linked (proxies t) (L ++ q :: covered skip i ++ s :: K) ->
  NoDup (L ++ q :: covered skip i ++ s :: K) -> length (covered skip i) <= size (proxies t).
Proof.
  intros HL Hnd.
  rewrite <- (size_list_to_set (C := gset loc) (covered skip i)), <- (size_dom (proxies t)).
  - apply subseteq_size. intros y Hy. apply elem_of_list_to_set in Hy. apply elem_of_dom.
    eapply linked_domain; [exact HL | set_solver |]. rewrite !length_app. simpl. rewrite length_app. simpl. lia.
  - apply list.NoDup_app in Hnd as (_ & _ & Hnd). apply list.NoDup_cons in Hnd as [_ Hnd].
    by apply list.NoDup_app in Hnd as (? & _).
Qed.

Lemma end_before skip i n x q s L K M y :
  nodes t !! n = Some x -> op_first x = Some q -> limit (View skip (Some n)) x = Some s ->
  linked (proxies t) (L ++ q :: covered skip i ++ s :: K) -> NoDup (L ++ q :: covered skip i ++ s :: K) ->
  covered skip i = M ++ [y] ->
  decrement t (Iterator (Some n) (Some s) (Some s)) = Ok (Iterator (Some n) (Some y) (Some s)).
Proof.
  intros Hx Hq Hl HL Hnd E. unfold decrement. cbn [view_node_ current_ last_]. rewrite (deref_Some _ _ _ Hx). cbn [rbind].
  apply list.NoDup_app in Hnd as (_ & _ & Hnd). apply list.NoDup_cons in Hnd as [Hnq _].
  rewrite decide_False by (rewrite Hq; intros [= ->]; set_solver).
  rewrite E in HL. apply linked_app in HL as [_ HL]. rewrite <- app_assoc in HL. cbn [app] in HL.
  rewrite app_comm_cons in HL. apply linked_app in HL as [_ HL]. apply linked_cons in HL as (_ & H & _).
  apply bind_Some_inv in H as (X & HX & HpX). rewrite (deref_Some _ _ _ HX). cbn [rbind]. by rewrite HpX.
Qed.

Lemma elements_covered skip i n : ns !! i = Some n -> elements t (View skip (Some n)) = Ok (covered skip i).
Proof using F.
  intros Hn. destruct (view_cut skip i n Hn) as (x & L & K & q & s & Hx & Hq & Hl & HL & Hnd).
  destruct (begin_covered skip i n x q s L K Hx Hq Hl HL Hnd) as [Hb He].
  unfold elements. rewrite Hb, He. cbn [rbind]. eapply traverse_linked.
  - apply linked_app in HL as [_ HL]. exact (linked_tail _ _ _ HL).
  - apply list.NoDup_app in Hnd as (_ & _ & Hnd). apply list.NoDup_cons in Hnd as [_ Hnd].
    rewrite cons_middle, app_assoc in Hnd. by apply list.NoDup_app in Hnd as (? & _).
  - by eapply covered_short.
Qed.

Lemma covered_one i s : segs !! i = Some s -> covered true i = s.
Proof.
  intros Hs. unfold covered. replace (S i - i) with 1 by lia. rewrite (drop_S _ _ _ Hs). cbn. apply app_nil_r.
Qed.

(** The first object for which the predicate holds, or the end. *)
Lemma find_if_covered skip i n pred :
  ns !! i = Some n ->
  exists s, end_ t (View skip (Some n)) = Ok (Iterator (Some n) (Some s) (Some s))
    /\ find_if t pred (View skip (Some n)) = Ok (Iterator (Some n) (Some (hdd s (filter (holds t pred) (covered skip i)))) (Some s)).
Proof using F.
  intros Hn. destruct (view_cut skip i n Hn) as (x & L & K & q & s & Hx & Hq & Hl & HL & Hnd).
  destruct (begin_covered skip i n x q s L K Hx Hq Hl HL Hnd) as [Hb He].
  exists s. split; [done |]. unfold find_if. rewrite Hb, He. cbn [rbind]. eapply find_from_linked.
  - apply linked_app in HL as [_ HL]. exact (linked_tail _ _ _ HL).
  - apply list.NoDup_app in Hnd as (_ & _ & Hnd). apply list.NoDup_cons in Hnd as [_ Hnd].
    rewrite cons_middle, app_assoc in Hnd. by apply list.NoDup_app in Hnd as (? & _).
  - by eapply covered_short.
Qed.

(** C21: A loop over the view of a class visits the objects of the class, and
    unless [skip_siblings] is set those of its subclasses, each once, in the
    order of the linked list; [size] counts them, [front] and [back] are the
    first and the last one if there is one, and [find_if] finds the first one
    with the property or the end. [empty] tells whether the class and its
    subclasses have no objects, whatever [skip_siblings] says
    ([view_of_one_class]). *)
Theorem view_yields skip i n :
  ns !! i = Some n ->
  elements t (View skip (Some n)) = Ok (covered skip i)
  /\ NoDup (covered skip i)
  /\ size_ t (View skip (Some n)) = Ok (length (covered skip i))
  /\ (forall x M, covered skip i = x :: M -> front t (View skip (Some n)) = pointer t (Some x))
  /\ (forall M y, covered skip i = M ++ [y] -> back t (View skip (Some n)) = pointer t (Some y))
  /\ (forall pred, exists s, end_ t (View skip (Some n)) = Ok (Iterator (Some n) (Some s) (Some s))
        /\ find_if t pred (View skip (Some n)) = Ok (Iterator (Some n) (Some (hdd s (filter (holds t pred) (covered skip i)))) (Some s)))
  /\ empty t (View skip (Some n)) = Ok (bool_decide (covered false i = [])).
Proof using F.
  intros Hn. destruct (view_cut skip i n Hn) as (x & L & K & q & s & Hx & Hq & Hl & HL & Hnd).
  destruct (begin_covered skip i n x q s L K Hx Hq Hl HL Hnd) as [Hb He].
  pose proof (elements_covered skip i n Hn) as Hel.
  split_and!; [exact Hel | | by unfold size_; rewrite Hel | | | intros pred; by apply find_if_covered |].
  - apply list.NoDup_app in Hnd as (_ & _ & Hnd). apply list.NoDup_cons in Hnd as [_ Hnd].
    by apply list.NoDup_app in Hnd as (? & _).
  - intros y M E. unfold front. rewrite Hb, E. done.
  - intros M y E. unfold back. rewrite He. cbn [rbind]. by erewrite end_before.
  - clear L K s Hl HL Hnd Hb He Hel Hq q x Hx.
    destruct (view_cut false i n Hn) as (x & L & K & q & s & Hx & Hq & Hl & HL & Hnd).
    unfold empty. cbn [node_]. rewrite (deref_Some _ _ _ Hx). cbn [rbind]. rewrite Hq.
    change (op_last x = Some s) in Hl. rewrite Hl.
    apply list.NoDup_app in Hnd as (_ & _ & Hnd). apply list.NoDup_cons in Hnd as [_ Hnd].
    apply linked_app in HL as [_ HL]. destruct (covered false i) as [|y M]; cbn [app] in HL.
    + apply linked_cons in HL as (H & _). apply next_deref in H as (X & HX & HnX). rewrite (deref_Some _ _ _ HX).
      cbn [rbind]. rewrite HnX. by rewrite !bool_decide_true.
    + apply linked_cons in HL as (H & _). apply next_deref in H as (X & HX & HnX). rewrite (deref_Some _ _ _ HX).
      cbn [rbind]. rewrite HnX. rewrite !bool_decide_false; [done | done |]. intros [= ->].
      cbn [app] in Hnd. apply list.NoDup_cons in Hnd as [Hnd _]. set_solver.
Qed.

End Forest.
(** ** Examples *)

(** The class 4 with its subclass 7, which has the only object, proxy 2. *)
Lemma view_yields_witness :
  elements sample_tree (View false (Some 4)) = Ok [2] /\ elements sample_tree (View true (Some 4)) = Ok []
  /\ size_ sample_tree (View false (Some 4)) = Ok 1.
Proof.
  destruct (view_yields sample_tree 0 1 [] [4; 7] [] 1 [0; 1]%Z [[]; [2]] sample_forest false 0 4 eq_refl) as (H1 & _ & H2 & _).
  destruct (view_yields sample_tree 0 1 [] [4; 7] [] 1 [0; 1]%Z [[]; [2]] sample_forest true 0 4 eq_refl) as (H3 & _).
  split; [exact H1 |]. split; [exact H3 | exact H2].
Defined.

(** A view of the class alone has no elements, but [empty] looks at the
    subclasses, too, and [front] gives an object of the subclass. *)
Definition filled_tree : tree :=
  match upd_proxy (Some 2) (set_obj_ (Some [])) sample_tree with Ok t => t | Throw _ => sample_tree end.

Example view_of_one_class :
  elements filled_tree (View true (Some 4)) = Ok [] /\ empty filled_tree (View true (Some 4)) = Ok false
  /\ front filled_tree (View true (Some 4)) = Ok (Some 2).
Proof. vm_compute. auto. Qed.

End ObjectView.
