(* ===== verification/Transaction.v ===== *)
(** * Actions and transactions

    Model of [transaction] (src/object/transaction.cpp,
    include/matador/object/transaction.hpp), the actions it keeps
    (src/object/insert_action.cpp, update_action.cpp, delete_action.cpp) and
    the visitors that maintain the vector of actions
    (src/object/action_inserter.cpp, action_remover.cpp).

    While a transaction is open the store reports every insert, update and
    delete. The transaction collects actions and, for updated and deleted
    objects, the bytes of the object before the change. The effects of
    [commit] and [rollback] on the store are in ObjectStore.v. *)

From S2P Require Import Prelude ByteBuffer Identifier ObjectSerializer.

Local Open Scope cxx_scope.

Module Transaction.
Import ByteBuffer Identifier ObjectSerializer.

Abbreviation loc := nat.

(** The fields of [object_proxy] that store and transaction use. A node is
    named by its type, which is unique in a store; the links of the proxy
    belong to the list of its node. *)
Record proxy := Proxy {
  obj : option object;
  node : option str;
  classname : str;
  id : Z;
  reference_counter : Z;
  pk : identifier }.

Definition set_obj v (p : proxy) := Proxy v (node p) (classname p) (id p) (reference_counter p) (pk p).
Definition set_node v (p : proxy) := Proxy (obj p) v (classname p) (id p) (reference_counter p) (pk p).
Definition set_id v (p : proxy) := Proxy (obj p) (node p) (classname p) v (reference_counter p) (pk p).
Definition set_pk v (p : proxy) := Proxy (obj p) (node p) (classname p) (id p) (reference_counter p) v.

Abbreviation heap := (gmap nat proxy).

Definition deref (h : heap) (p : loc) : result proxy :=
  match h !! p with
  | Some x => Ok x
  | None => Throw (undefined_behaviour "dangling proxy")
  end.

(** [proxy->node()->type()]. *)
Definition node_type (x : proxy) : result str :=
  match node x with
  | Some n => Ok n
  | None => Throw (undefined_behaviour "null node")
  end.

(** [insert_action], [update_action] with the delete action it can turn into,
    and [delete_action]. *)
Inductive action :=
| InsertAction (type_ : str) (object_proxy_list_ : list loc)
| UpdateAction (proxy_ : loc) (classname_ : str) (id_ : Z)
| DeleteAction (classname_ : str) (id_ : Z) (proxy_ : loc) (deleted_ : bool).

Section Transactions.
Context {B : Type} `{!ByteQueue B}.

Record transaction_data := TData {
  actions_ : list action;
  id_action_index_map_ : gmap Z nat;
  object_buffer_ : B }.

Definition tdata0 : transaction_data := TData [] ∅ q_empty.

(** ** action_inserter *)

(** The loop over the vector, from index [i] on: the index of the first insert
    action of the type, to which the proxy is added. *)
Fixpoint insert_visit (type : str) (p : loc) (i : nat) (acts : list action) : option (nat * list action) :=
  match acts with
  | [] => None
  | InsertAction ty l :: acts' =>
    if bool_decide (ty = type) then Some (i, InsertAction ty (l ++ [p]) :: acts')
    else match insert_visit type p (S i) acts' with
         | Some (k, acts'') => Some (k, InsertAction ty l :: acts'')
         | None => None
         end
  | a :: acts' =>
    match insert_visit type p (S i) acts' with
    | Some (k, acts'') => Some (k, a :: acts'')
    | None => None
    end
  end.

Definition inserter_insert (type : str) (p : loc) (acts : list action) : nat * list action :=
  match insert_visit type p 0 acts with
  | Some r => r
  | None => (length acts, acts ++ [InsertAction type [p]])
  end.

(** ** action_remover *)

(** [a->find(id)] and [a->erase(i)]: the first proxy with an object and the id. *)
Fixpoint erase_by_id (h : heap) (i : Z) (l : list loc) : result (list loc) :=
  match l with
  | [] => Ok []
  | q :: l' =>
    let? x := deref h q in
    if bool_decide (is_Some (obj x)) && (id x =? i)%Z then Ok l'
    else let? l'' := erase_by_id h i l' in Ok (q :: l'')
  end.

Definition remover_remove (h : heap) (index : nat) (p : loc) (acts : list action) : result (list action) :=
  let? x := deref h p in
  match acts !! index with
  | None => Throw (out_of_range "vector::at")
  | Some (InsertAction ty l) =>
    let? l' := erase_by_id h (id x) l in
    if bool_decide (l' = []) then Ok (delete index acts)
    else Ok (<[index := InsertAction ty l']> acts)
  | Some (UpdateAction q cls i) =>
    let? y := deref h q in
    if (id y =? id x)%Z then Ok (<[index := DeleteAction cls i q false]> acts) else Ok acts
  | Some (DeleteAction _ _ _ _) => Ok acts
  end.

(** ** Notifications of the store *)

(** [transaction::backup]: the object goes to the buffer, the action to the
    end of the vector. *)
Definition backup_action (h : heap) (a : action) (p : loc) (td : transaction_data) : result transaction_data :=
  let? x := deref h p in
  let? o := (match obj x with Some o => Ok o | None => Throw (undefined_behaviour "null object") end) in
  let? b := backup o (object_buffer_ td) in
  Ok (TData (actions_ td ++ [a])
            (map_insert_new (id x) (length (actions_ td)) (id_action_index_map_ td)) b).

Definition on_insert (h : heap) (p : loc) (td : transaction_data) : result transaction_data :=
  let? x := deref h p in
  match id_action_index_map_ td !! id x with
  | None =>
    let? ty := node_type x in
    let '(index, acts) := inserter_insert ty p (actions_ td) in
    if (index =? length acts)%nat
    then Throw (object_exception "transaction: action for object couldn't be inserted")
    else Ok (TData acts (map_insert_new (id x) index (id_action_index_map_ td)) (object_buffer_ td))
  | Some _ => Throw (object_exception "transaction: an object with id already exists")
  end.

Definition on_update (h : heap) (p : loc) (td : transaction_data) : result transaction_data :=
  let? x := deref h p in
  match id_action_index_map_ td !! id x with
  | None =>
    let? ty := node_type x in
    backup_action h (UpdateAction p ty (id x)) p td
  | Some _ => Ok td
  end.

Definition on_delete (h : heap) (p : loc) (td : transaction_data) : result transaction_data :=
  let? x := deref h p in
  match id_action_index_map_ td !! id x with
  | None =>
    let? ty := node_type x in
    backup_action h (DeleteAction ty (id x) p false) p td
  | Some index =>
    let? acts := remover_remove h index p (actions_ td) in
    Ok (TData acts (id_action_index_map_ td) (object_buffer_ td))
  end.

End Transactions.

End Transaction.
