(* ===== verification/ObjectStore.v ===== *)
(** * The object store

    Model of [object_store] (src/object/object_store.cpp,
    include/matador/object/object_store.hpp): finding classes and objects,
    inserting and removing proxies, and the transactions that undo these
    changes ([transaction::begin], [commit] and [rollback] of
    src/object/transaction.cpp with the [restore] methods of the actions).

    The store reaches the lists of its classes through the [NodeLists]
    interface; PrototypeTree.v shows how the nodes keep these lists. Objects
    that hold references to other objects go through the relation machinery of
    [object_inserter] and [object_deleter], which is not modelled: inserting
    or checking such an object stops with [not_modelled]. *)

From S2P Require Import Prelude ByteBuffer Identifier ObjectSerializer PrototypeTree Transaction.

Local Open Scope cxx_scope.

Module ObjectStore.
Import ByteBuffer Identifier ObjectSerializer Transaction.

(** What the nodes promise to the store: each keeps the list of the proxies of
    its class. A proxy comes with its primary key; a list has room for as many
    proxies as [size_t] counts. *)
Class NodeLists (R : Type) := {
  nl_insert : str -> loc -> identifier -> R -> result R;
  nl_remove : str -> loc -> R -> result R;
  nl_ok : R -> Prop;
  nl_node : R -> str -> Prop;
  nl_in : R -> str -> loc -> Prop;
  nl_insert_spec : forall r n p k, nl_ok r -> nl_node r n -> (forall m, ~ nl_in r m p) ->
    (forall l, NoDup l -> (forall q, q ∈ l -> nl_in r n q) -> (Z.of_nat (length l) + 1 < 2 ^ 64)%Z) ->
    exists r', nl_insert n p k r = Ok r' /\ nl_ok r'
      /\ (forall m q, nl_in r' m q <-> nl_in r m q \/ (m = n /\ q = p))
      /\ (forall m, nl_node r' m <-> nl_node r m);
  nl_remove_spec : forall r n p, nl_ok r -> nl_in r n p ->
    (forall l, NoDup l -> (forall q, q ∈ l -> nl_in r n q) -> (Z.of_nat (length l) < 2 ^ 64)%Z) ->
    exists r', nl_remove n p r = Ok r' /\ nl_ok r'
      /\ (forall m q, nl_in r' m q <-> nl_in r m q /\ ~ (m = n /\ q = p))
      /\ (forall m, nl_node r' m <-> nl_node r m) }.

Section Store.
Context {B : Type} `{!ByteQueue B}.
Context {R : Type} `{!NodeLists R}.

(** [new T] of a class of the application. *)
Context (make_object : str -> object).

Record object_store := Store {
  prototype_map_ : gset str;
  typeid_prototype_map_ : gmap str (gset str);
  node_lists : R;
  proxies : heap;
  object_map_ : gmap Z loc;
  seq_ : sequencer;
  transactions_ : list Z;
  tdata : gmap Z (transaction_data (B := B)) }.

Definition set_lists v (s : object_store) :=
  Store (prototype_map_ s) (typeid_prototype_map_ s) v (proxies s) (object_map_ s) (seq_ s) (transactions_ s) (tdata s).
Definition set_proxies v (s : object_store) :=
  Store (prototype_map_ s) (typeid_prototype_map_ s) (node_lists s) v (object_map_ s) (seq_ s) (transactions_ s) (tdata s).
Definition set_object_map v (s : object_store) :=
  Store (prototype_map_ s) (typeid_prototype_map_ s) (node_lists s) (proxies s) v (seq_ s) (transactions_ s) (tdata s).
Definition set_seq v (s : object_store) :=
  Store (prototype_map_ s) (typeid_prototype_map_ s) (node_lists s) (proxies s) (object_map_ s) v (transactions_ s) (tdata s).
Definition set_transactions v d (s : object_store) :=
  Store (prototype_map_ s) (typeid_prototype_map_ s) (node_lists s) (proxies s) (object_map_ s) (seq_ s) v d.

(** ** Classes *)

Definition find_prototype_node (type : str) (s : object_store) : result (option str) :=
  if bool_decide (type ∈ prototype_map_ s) then Ok (Some type)
  else
    match typeid_prototype_map_ s !! type with
    | None => Ok None
    | Some val =>
      if (1 <? length (elements val))%nat then Throw (object_exception "type id not unique")
      else match elements val with
           | n :: _ => Ok (Some n)
           | [] => Throw (undefined_behaviour "begin() of an empty map")
           end
    end.

Definition find_parent (name : option str) (s : object_store) : result (option str) :=
  match name with
  | None => Ok None
  | Some name =>
    let? n := find_prototype_node name s in
    match n with
    | None => Throw (object_exception "unknown prototype type")
    | Some _ => Ok n
    end
  end.

(** [validate(node, type_name)]. *)
Definition validate (type type_name : str) (s : object_store) : result unit :=
  if bool_decide (type ∈ prototype_map_ s) then Throw (object_exception "prototype already inserted")
  else if bool_decide (type_name ∈ prototype_map_ s) then Throw (object_exception "prototype already inserted")
  else
    match typeid_prototype_map_ s !! type_name with
    | Some val => if bool_decide (type ∈ val) then Throw (object_exception "unexpectedly found prototype") else Ok tt
    | None => Ok tt
    end.

(** ** Objects *)

Definition find_proxy (i : Z) (s : object_store) : option loc := object_map_ s !! i.

(** [identifier_resolver<T>::resolve(o)]: the primary key of an object. *)
Fixpoint resolve (o : object) : identifier :=
  match o with
  | [] => NullPk
  | PrimaryKey sg w z :: _ => IntegralPk sg w z
  | _ :: o => resolve o
  end.

(** [identifier_setter<unsigned long long>::assign(value, obj)]. *)
Definition assign_pk (value : Z) (o : object) : object :=
  (fun a => match a with
            | PrimaryKey sg w _ => PrimaryKey sg w (of_bytes sg (to_bytes w value))
            | _ => a
            end) <$> o.

(** The object refers to no other object. *)
Definition no_relations (o : object) : bool :=
  forallb (fun a => match a with Foreign _ _ => false | _ => true end) o.

Definition insert_proxy (p : loc) (s : object_store) : result object_store :=
  let? x := deref (proxies s) p in
  if bool_decide (obj x = None) then Throw (object_exception "object is null")
  else if (id x =? 0)%Z then Throw (object_exception "object proxy doesn't have an id")
  else
    let? n := find_prototype_node (classname x) s in
    match n with
    | None => Throw (object_exception "couldn't find object type")
    | Some n =>
      let? r := nl_insert n p (pk x) (node_lists s) in
      Ok (set_object_map (map_insert_new (id x) p (object_map_ s)) (set_lists r s))
    end.

(** [transactions_.top()] and a notification of it. *)
Definition notify (f : heap -> transaction_data -> result transaction_data) (s : object_store) : result object_store :=
  match transactions_ s with
  | [] => Ok s
  | t :: _ =>
    match tdata s !! t with
    | None => Throw (undefined_behaviour "transaction without data")
    | Some td =>
      let? td := f (proxies s) td in
      Ok (set_transactions (transactions_ s) (<[t := td]> (tdata s)) s)
    end
  end.

Definition insert (p : loc) (notify_ : bool) (s : object_store) : result object_store :=
  let? x := deref (proxies s) p in
  match obj x with
  | None => Throw (object_exception "object is null")
  | Some o =>
    let? n := find_prototype_node (classname x) s in
    match n with
    | None => Throw (object_exception "couldn't find object type")
    | Some n =>
      if bool_decide (is_Some (node x)) && (0 <? id x)%Z then Ok s
      else if bool_decide (node x = None) && (0 <? id x)%Z
      then Throw (object_exception "object has id but doesn't belong to a store")
      else
        let '(i, seq) := seq_next (seq_ s) in
        let x := set_node (Some n) (set_id i x) in
        let '(x, seq) :=
          if is_null (pk x) then (x, seq)
          else if negb (is_valid (pk x))
          then (set_pk (IntegralPk false 8 i) (set_obj (Some (assign_pk i o)) x), seq)
          else (x, sync (pk x) seq) in
        let s := set_seq seq (set_proxies (<[p := x]> (proxies s)) s) in
        let? r := nl_insert n p (pk x) (node_lists s) in
        let s := set_lists r s in
        if negb (no_relations o) then Throw (not_modelled "object_inserter")
        else
          let? s := (if notify_ then notify (fun h => on_insert h p) s else Ok s) in
          Ok (set_object_map (map_insert_new i p (object_map_ s)) s)
    end
  end.

(** The common part of [remove_proxy] and [remove]. *)
Definition take_out (p : loc) (s : object_store) : result object_store :=
  let? x := deref (proxies s) p in
  match node x with
  | None => Throw (object_exception "prototype node is nullptr")
  | Some n =>
    match object_map_ s !! id x with
    | None => Throw (object_exception "couldn't remove object")
    | Some _ =>
      let s := set_object_map (delete (id x) (object_map_ s)) s in
      let? r := nl_remove n p (node_lists s) in
      Ok (set_lists r s)
    end
  end.

Definition delete_proxy (p : loc) (s : object_store) : object_store :=
  set_proxies (delete p (proxies s)) s.

Definition remove_proxy (p : loc) (s : object_store) : result object_store :=
  let? s := take_out p s in Ok (delete_proxy p s).

(** [object_deleter::is_deletable] for an object without relations: only its
    own reference count is looked at. *)
Definition is_deletable (p : loc) (s : object_store) : result bool :=
  let? x := deref (proxies s) p in
  match obj x with
  | None => Throw (undefined_behaviour "null object")
  | Some o =>
    if negb (no_relations o) then Throw (not_modelled "object_deleter")
    else if (0 <? reference_counter x)%Z then Ok false
    else if (reference_counter x <? 0)%Z then Throw (object_exception "reference count is less zero")
    else Ok true
  end.

Definition remove (p : loc) (check_if_deletable : bool) (s : object_store) : result object_store :=
  let? x := deref (proxies s) p in
  if bool_decide (node x = None) then Throw (object_exception "prototype node is nullptr")
  else
    let? ok := (if check_if_deletable then is_deletable p s else Ok true) in
    if negb ok then Throw (object_exception "object is not removable")
    else
      let? s := take_out p s in
      match transactions_ s with
      | [] => Ok (delete_proxy p s)
      | _ :: _ => notify (fun h => on_delete h p) s
      end.

Definition mark_modified (p : loc) (s : object_store) : result object_store :=
  let? x := deref (proxies s) p in
  let? _ := node_type x in
  notify (fun h => on_update h p) s.

(** ** Transactions *)

(** [begin]: the transaction object exists already, with its data. *)
Definition begin_ (t : Z) (s : object_store) : object_store :=
  set_transactions (t :: transactions_ s) (tdata s) s.

(** [cleanup]: the data are emptied and the top of the stack is popped. *)
Definition cleanup (t : Z) (s : object_store) : result object_store :=
  match transactions_ s with
  | [] => Throw (undefined_behaviour "pop() of an empty stack")
  | _ :: ts => Ok (set_transactions ts (<[t := tdata0]> (tdata s)) s)
  end.

(** [commit] with the default observer: delete actions are marked, and so
    delete their proxies when the vector of actions is cleared. *)
Definition commit (t : Z) (s : object_store) : result object_store :=
  match tdata s !! t with
  | None => Throw (undefined_behaviour "transaction without data")
  | Some td =>
    let gone := omap (fun a => match a with DeleteAction _ _ p _ => Some p | _ => None end) (actions_ td) in
    cleanup t (foldl (fun s p => delete_proxy p s) s gone)
  end.

(** [object_deserializer::on_foreign_object] on the store's side. *)
Definition acquire (s : object_store) (r : str * Z) : result object_store :=
  match find_proxy r.2 s with
  | Some _ => Ok s
  | None =>
    let? n := find_prototype_node r.1 s in
    match n with
    | None => Throw (undefined_behaviour "type entry of the end node")
    | Some n =>
      let p := fresh (dom (proxies s)) in
      let x := Proxy (Some (make_object r.1)) (Some n) r.1 r.2 0 NullPk in
      insert_proxy p (set_proxies (<[p := x]> (proxies s)) s)
    end
  end.

Fixpoint acquire_all (s : object_store) (rs : list (str * Z)) : result object_store :=
  match rs with
  | [] => Ok s
  | r :: rs => let? s := acquire s r in acquire_all s rs
  end.

(** [create_object]: [reset(new T)]. *)
Definition create_object (x : proxy) : proxy :=
  let o := make_object (classname x) in
  Proxy (Some o) (node x) (classname x) 0 0 (resolve o).

(** [object_proxy::restore(buffer, deserializer)]. *)
Definition proxy_restore (p : loc) (b : B) (s : object_store) : result (B * object_store) :=
  let? x := deref (proxies s) p in
  let x := (match obj x with None => create_object x | Some _ => x end) in
  match obj x with
  | None => Throw (undefined_behaviour "null object")
  | Some o =>
    let? (o', b, refs) := restore o b in
    let? s := acquire_all (set_proxies (<[p := set_obj (Some o') x]> (proxies s)) s) refs in
    Ok (b, s)
  end.

(** The [restore] methods of the actions, and the destructor of the action,
    which runs after each step of the loop of [rollback]. *)
Fixpoint remove_all (l : list loc) (s : object_store) : result object_store :=
  match l with
  | [] => Ok s
  | p :: l => let? s := remove_proxy p s in remove_all l s
  end.

Definition restore_action (a : action) (b : B) (s : object_store) : result (B * object_store) :=
  match a with
  | InsertAction _ l => let? s := remove_all l s in Ok (b, s)
  | UpdateAction p _ _ => proxy_restore p b s
  | DeleteAction _ i p del =>
    match find_proxy i s with
    | None =>
      let? s := insert_proxy p s in
      let? (b, s) := proxy_restore p b s in
      Ok (b, if del then delete_proxy p s else s)
    | Some q =>
      let? y := deref (proxies s) q in
      let? x := deref (proxies s) p in
      let y := (match obj y with
                | None => let y := create_object y in if is_null (pk x) then y else set_pk (pk x) y
                | Some _ => y
                end) in
      let? (b, s) := proxy_restore q b (set_proxies (<[q := y]> (proxies s)) s) in
      Ok (b, delete_proxy p s)
    end
  end.

Fixpoint rollback_loop (acts : list action) (b : B) (s : object_store) : result (B * object_store) :=
  match acts with
  | [] => Ok (b, s)
  | a :: acts =>
    let? (b, s) := restore_action a b s in
    rollback_loop acts b s
  end.

Definition rollback (t : Z) (s : object_store) : result object_store :=
  match transactions_ s with
  | [] => Throw (object_exception "transaction: transaction isn't current transaction")
  | top :: _ =>
    if negb (top =? t)%Z then Throw (object_exception "transaction: transaction isn't current transaction")
    else
      match tdata s !! t with
      | None => Throw (undefined_behaviour "transaction without data")
      | Some td =>
        let? (b, s) := rollback_loop (actions_ td) (object_buffer_ td) s in
        cleanup t s
      end
  end.

(** ** What the store holds *)

(** The objects of the store by id, with their classes. *)
Definition object_at (h : heap) (p : loc) : option (str * object) :=
  match h !! p with
  | Some x => match obj x with Some o => Some (classname x, o) | None => None end
  | None => None
  end.
Definition view (s : object_store) : gmap Z (str * object) := omap (object_at (proxies s)) (object_map_ s).

Lemma lookup_view s i :
  view s !! i = match object_map_ s !! i with Some p => object_at (proxies s) p | None => None end.
Proof. unfold view. rewrite lookup_omap. by destruct (object_map_ s !! i). Qed.

(** Objects whose attributes are restored exactly: no [char] arrays and no
    references. *)
Definition plain (a : attribute) : Prop :=
  match a with CString _ | Foreign _ _ => False | _ => True end.
Definition object_ok (o : object) : Prop := Forall attribute_ok o /\ Forall plain o.

Record store_ok (s : object_store) : Prop := {
  ok_lists : nl_ok (node_lists s);
  ok_object : forall i p, object_map_ s !! i = Some p ->
    exists x o n, proxies s !! p = Some x /\ id x = i /\ obj x = Some o /\ object_ok o
      /\ node x = Some n /\ find_prototype_node (classname x) s = Ok (Some n) /\ nl_in (node_lists s) n p
      /\ (0 < i <= seq_ s)%Z;
  ok_member : forall n p, nl_in (node_lists s) n p ->
    exists i x, object_map_ s !! i = Some p /\ proxies s !! p = Some x /\ node x = Some n;
  ok_node : forall cls n, find_prototype_node cls s = Ok (Some n) -> nl_node (node_lists s) n;
  ok_seq : (0 <= seq_ s < 2 ^ 64)%Z }.

(** ** Undoing a transaction, abstractly *)

(** What undoing an action does to the objects: inserted objects go away,
    changed and deleted ones come back. *)
Inductive undo_step :=
| UDelete (ids : list Z)
| URestore (i : Z) (cls : str) (o : object).

Definition undo (V : gmap Z (str * object)) (u : undo_step) : gmap Z (str * object) :=
  match u with
  | UDelete ids => foldl (fun V i => delete i V) V ids
  | URestore i cls o => <[i := (cls, o)]> V
  end.

Definition undo_ids (u : undo_step) : list Z :=
  match u with UDelete ids => ids | URestore i _ _ => [i] end.
Definition undo_bytes (u : undo_step) : str :=
  match u with UDelete _ => [] | URestore _ _ o => concat (encoding <$> o) end.

Lemma lookup_delete_all ids (V : gmap Z (str * object)) i :
  foldl (fun V i => delete i V) V ids !! i = if decide (i ∈ ids) then None else V !! i.
Proof.
  revert V. induction ids as [|j ids IH]; intros V; [done |]. simpl. rewrite IH.
  destruct (decide (i ∈ ids)) as [Hi | Hi].
  - by rewrite decide_True by set_solver.
  - destruct (decide (i = j)) as [-> | Hj].
    + by rewrite decide_True, lookup_delete_eq by set_solver.
    + by rewrite decide_False, lookup_delete_ne by set_solver.
Qed.

Lemma undo_untouched V u i : i ∉ undo_ids u -> undo V u !! i = V !! i.
Proof.
  destruct u; simpl; intros Hi.
  - rewrite lookup_delete_all. by rewrite decide_False.
  - rewrite lookup_insert_ne; set_solver.
Qed.

Lemma undo_touched V V' u i : i ∈ undo_ids u -> undo V u !! i = undo V' u !! i.
Proof.
  destruct u; simpl; intros Hi.
  - rewrite !lookup_delete_all. by rewrite !decide_True.
  - apply list_elem_of_singleton in Hi as ->. by rewrite !lookup_insert_eq.
Qed.

(** Only what was not touched is taken from the present objects. *)
Lemma undo_all_lookup us V V' i :
  (i ∉ concat (undo_ids <$> us) -> V !! i = V' !! i) -> foldl undo V us !! i = foldl undo V' us !! i.
Proof.
  revert V V'. induction us as [|u us IH]; intros V V' H; simpl; [apply H; set_solver |].
  apply IH. intros Hi. destruct (decide (i ∈ undo_ids u)) as [Hu | Hu]; [by apply undo_touched |].
  rewrite !undo_untouched by done. apply H. simpl. rewrite elem_of_app. tauto.
Qed.

Lemma undo_all_untouched us V i : i ∉ concat (undo_ids <$> us) -> foldl undo V us !! i = V !! i.
Proof.
  revert V. induction us as [|u us IH]; intros V H; [done |]. simpl in *. rewrite elem_of_app in H.
  rewrite IH by tauto. apply undo_untouched. tauto.
Qed.

(** ** Restoring one action *)

(** The action [a] of the transaction can be undone as [u] says. *)
Definition action_ok (s : object_store) (a : action) (u : undo_step) : Prop :=
  match a, u with
  | InsertAction _ l, UDelete ids => Forall2 (fun p i => object_map_ s !! i = Some p) l ids
  | UpdateAction p _ i', URestore i cls o =>
    i' = i /\ exists x now, object_map_ s !! i = Some p /\ proxies s !! p = Some x /\ classname x = cls
      /\ obj x = Some now /\ Forall2 same_attribute o now /\ object_ok o
  | DeleteAction _ i' p del, URestore i cls o =>
    i' = i /\ del = false /\ object_map_ s !! i = None /\ exists x now n, proxies s !! p = Some x
      /\ id x = i /\ (0 < i <= seq_ s)%Z /\ classname x = cls /\ obj x = Some now /\ object_ok now
      /\ Forall2 same_attribute o now /\ object_ok o /\ node x = Some n
      /\ find_prototype_node cls s = Ok (Some n)
  | _, _ => False
  end.

(** Nothing but the objects with the given ids has changed. *)
Record frame (s s' : object_store) (ids : list Z) : Prop := {
  frame_prototypes : prototype_map_ s' = prototype_map_ s;
  frame_typeids : typeid_prototype_map_ s' = typeid_prototype_map_ s;
  frame_seq : (seq_ s <= seq_ s')%Z;
  frame_map : forall i, i ∉ ids -> object_map_ s' !! i = object_map_ s !! i;
  frame_proxies : forall p x, proxies s !! p = Some x -> id x ∉ ids -> proxies s' !! p = Some x }.

Definition same_transactions (s s' : object_store) : Prop :=
  transactions_ s' = transactions_ s /\ tdata s' = tdata s.

Lemma frame_refl s ids : frame s s ids.
Proof. by constructor. Qed.

Lemma frame_trans s1 s2 s3 ids1 ids2 ids :
  frame s1 s2 ids1 -> frame s2 s3 ids2 -> ids1 ⊆ ids -> ids2 ⊆ ids -> frame s1 s3 ids.
Proof.
  intros [A1 A2 A3 A6 A7] [B1 B2 B3 B6 B7] H1 H2. constructor; try congruence; [lia | |].
  - intros i Hi. rewrite B6, A6; set_solver.
  - intros p x Hp Hx. apply B7; [apply A7 |]; set_solver.
Qed.

Lemma find_prototype_node_frame s s' ids cls :
  frame s s' ids -> find_prototype_node cls s' = find_prototype_node cls s.
Proof. intros [H1 H2 _ _ _]. unfold find_prototype_node. by rewrite H1, H2. Qed.

Lemma action_ok_frame s s' ids a u :
  frame s s' ids -> store_ok s -> action_ok s a u -> (forall i, i ∈ undo_ids u -> i ∉ ids) -> action_ok s' a u.
Proof.
  intros Hf Hs Ha Hd. destruct a as [ty l | p ty i | ty i p del], u as [ids' | j cls o]; simpl in *; try done.
  - induction Ha as [|q j l ids' Hq Ha IH]; constructor.
    + rewrite (frame_map _ _ _ Hf); [done |]. apply Hd. by left.
    + apply IH. intros k Hk. apply Hd. by right.
  - destruct Ha as (-> & x & now & Hi & Hx & Hcls & Hobj & Hsame & Hok). split; [done |].
    assert (j ∉ ids) as Hj by (apply Hd; by left). exists x, now. split_and!; try done.
    + by rewrite (frame_map _ _ _ Hf).
    + apply (frame_proxies _ _ _ Hf); [done |].
      destruct (ok_object s Hs j p Hi) as (x' & _ & _ & Hx' & Hid' & _). congruence.
  - destruct Ha as (-> & -> & Hi & x & now & n & Hx & Hid & Hpos & Hcls & Hobj & Hnow & Hsame & Hok & Hn & Hfind).
    assert (j ∉ ids) as Hj by (apply Hd; by left). split_and!; [done | done | by rewrite (frame_map _ _ _ Hf) |].
    exists x, now, n. rewrite (find_prototype_node_frame _ _ _ _ Hf). pose proof (frame_seq _ _ _ Hf).
    split_and!; try done; try lia. apply (frame_proxies _ _ _ Hf); [done | congruence].
Qed.

Lemma object_at_frame s s' ids i p :
  frame s s' ids -> store_ok s -> object_map_ s !! i = Some p -> i ∉ ids ->
  object_at (proxies s') p = object_at (proxies s) p.
Proof.
  intros Hf Hs Hi Hn. destruct (ok_object s Hs i p Hi) as (x & o & n & Hx & Hid & _).
  unfold object_at. rewrite (frame_proxies _ _ _ Hf p x Hx), Hx; [done | congruence].
Qed.

Lemma view_frame s s' ids i : frame s s' ids -> store_ok s -> i ∉ ids -> view s' !! i = view s !! i.
Proof.
  intros Hf Hs Hi. rewrite !lookup_view, (frame_map _ _ _ Hf i Hi).
  destruct (object_map_ s !! i) as [p|] eqn:E; [|done]. by eapply object_at_frame.
Qed.

(** The proxies of a class have different ids, of which there are few. *)
Lemma members_bounded s n ids l :
  store_ok s -> NoDup l -> (forall q, q ∈ l -> nl_in (node_lists s) n q) ->
  NoDup ids -> (forall i, i ∈ ids -> object_map_ s !! i = None /\ (0 < i <= seq_ s)%Z) ->
  (Z.of_nat (length l) + Z.of_nat (length ids) <= seq_ s)%Z.
Proof.
  intros Hs Hl Hin Hids Hnone. pose proof (ok_seq s Hs) as Hseq.
  assert (exists is_, NoDup is_ /\ length is_ = length l /\
    (forall i, i ∈ is_ -> (0 < i <= seq_ s)%Z /\ exists q, q ∈ l /\ object_map_ s !! i = Some q)) as (is_ & I1 & I2 & I3).
  { clear Hids Hnone. induction Hl as [|q l Hq Hl IH]; [exists []; split_and!; [constructor | done | by intros i ?%elem_of_nil] |].
    destruct IH as (js & J1 & J2 & J3); [intros; apply Hin; by right |].
    destruct (ok_member s Hs n q) as (i & x & Hi & _); [apply Hin; left |].
    destruct (ok_object s Hs i q Hi) as (? & ? & ? & _ & _ & _ & _ & _ & _ & _ & Hpos).
    exists (i :: js). split_and!; [constructor; [|done] | simpl; lia |].
    - intros (_ & q' & Hq' & Hi')%J3. congruence.
    - intros j [-> | Hj]%elem_of_cons; [split; [done |]; exists q; split; [left | done] |].
      destruct (J3 j Hj) as (H1 & q' & H2 & H3). split; [done |]. exists q'. split; [by right | done]. }
  assert (length (is_ ++ ids) <= length (seq 1 (Z.to_nat (seq_ s)))) as Hlen.
  { rewrite <- (length_fmap Z.to_nat). apply submseteq_length, NoDup_submseteq.
    - apply NoDup_fmap_2_strong.
      + intros i j Hi Hj E. assert (forall k, k ∈ is_ ++ ids -> (0 < k)%Z) as Hp.
        { intros k [Hk | Hk]%elem_of_app; [apply I3 in Hk | apply Hnone in Hk]; lia. }
        pose proof (Hp i Hi). pose proof (Hp j Hj). lia.
      + apply list.NoDup_app. split_and!; [done | | done]. intros i (_ & q & _ & Hi)%I3 [Hn _]%Hnone. congruence.
    - intros k (i & -> & Hi)%list_elem_of_fmap. apply elem_of_seq.
      assert (0 < i <= seq_ s)%Z by (apply elem_of_app in Hi as [Hi | Hi]; [by apply I3 | by apply Hnone]). lia. }
  rewrite length_app, length_seq in Hlen. lia.
Qed.

Lemma take_out_spec s i p :
  store_ok s -> object_map_ s !! i = Some p ->
  exists s', take_out p s = Ok s' /\ store_ok s' /\ frame s s' [i] /\ object_map_ s' !! i = None
    /\ (forall j, object_map_ s' !! j <> Some p) /\ proxies s' = proxies s /\ same_transactions s s'.
Proof.
  intros Hs Hi. destruct (ok_object s Hs i p Hi) as (x & o & n & Hx & Hid & Ho & Hok & Hn & Hfind & Hin & Hpos).
  destruct (nl_remove_spec (node_lists s) n p (ok_lists s Hs) Hin) as (r & Hr & Hrok & Hrin & Hrn).
  { intros l Hl Hq. pose proof (ok_seq s Hs). pose proof (members_bounded s n [] l Hs Hl Hq NoDup_nil_2) as H'. simpl in H'.
    enough (Z.of_nat (length l) + 0 <= seq_ s)%Z by lia. apply H'. by intros j ?%elem_of_nil. }
  unfold take_out, deref. rewrite Hx. cbn [rbind]. rewrite Hn, Hid, Hi. cbn [node_lists set_object_map].
  rewrite Hr. cbn [rbind]. eexists. split; [reflexivity |].
  assert (forall j q, object_map_ s !! j = Some q -> j <> i -> q <> p) as Hne.
  { intros j q Hj Hji ->. destruct (ok_object s Hs j p Hj) as (x' & _ & _ & Hx' & Hid' & _). congruence. }
  split_and!; [| | | | done | done].
  - constructor; cbn.
    + done.
    + intros j q Hj. apply lookup_delete_Some in Hj as [Hji Hj].
      destruct (ok_object s Hs j q Hj) as (x' & o' & n' & Hx' & Hid' & Ho' & Hok' & Hn' & Hfind' & Hin' & Hpos').
      exists x', o', n'. split_and!; try done; try tauto.
      apply Hrin. split; [done |]. intros [_ ->]. by eapply Hne.
    + intros m q Hq. apply Hrin in Hq as [Hq Hnq]. destruct (ok_member s Hs m q Hq) as (j & x' & Hj & Hx' & Hm).
      assert (q <> p) as Hqp by (intros ->; apply Hnq; split; congruence).
      exists j, x'. split_and!; [|done|done].
      rewrite lookup_delete_ne; [done |]. intros ->. congruence.
    + intros cls m Hm. apply Hrn. by eapply ok_node.
    + by apply ok_seq.
  - constructor; cbn; try done. intros j Hj. rewrite lookup_delete_ne; set_solver.
  - cbn. apply lookup_delete_eq.
  - cbn. intros j Hj. apply lookup_delete_Some in Hj as [Hji Hj]. by eapply Hne.
Qed.

Lemma delete_proxy_ok s p :
  store_ok s -> (forall j, object_map_ s !! j <> Some p) -> store_ok (delete_proxy p s).
Proof.
  intros Hs Hp. constructor; cbn.
  - by apply ok_lists.
  - intros j q Hj. destruct (ok_object s Hs j q Hj) as (x & o & n & Hx & H). exists x, o, n.
    rewrite lookup_delete_ne; [done |]. intros ->. by apply (Hp j).
  - intros m q Hq. destruct (ok_member s Hs m q Hq) as (j & x & Hj & Hx & Hm). exists j, x.
    rewrite lookup_delete_ne; [done |]. intros ->. by apply (Hp j).
  - exact (ok_node s Hs).
  - by apply ok_seq.
Qed.

Lemma remove_proxy_spec s i p :
  store_ok s -> object_map_ s !! i = Some p ->
  exists s', remove_proxy p s = Ok s' /\ store_ok s' /\ frame s s' [i] /\ object_map_ s' !! i = None
    /\ same_transactions s s'.
Proof.
  intros Hs Hi. destruct (take_out_spec s i p Hs Hi) as (s1 & E & Hs1 & [F1 F2 F3 F4 F5] & Hnone & Hno & Hpr & T).
  unfold remove_proxy. rewrite E. cbn [rbind]. exists (delete_proxy p s1).
  split_and!; [done | by apply delete_proxy_ok | | done | exact T].
  constructor; cbn; try done. intros q x Hq Hx. rewrite lookup_delete_ne; [by apply F5 |]. intros <-.
  destruct (ok_object s Hs i p Hi) as (x' & _ & _ & Hx' & Hid' & _). set_solver.
Qed.

(** A store in which the object [i] was added or changed. *)
Lemma store_ok_put s p x o n i r :
  store_ok s -> nl_ok r ->
  (forall m q, nl_in r m q <-> nl_in (node_lists s) m q \/ (m = n /\ q = p)) ->
  (forall m, nl_node r m <-> nl_node (node_lists s) m) ->
  ((object_map_ s !! i = Some p /\ nl_in (node_lists s) n p)
   \/ (object_map_ s !! i = None /\ forall j, object_map_ s !! j <> Some p)) ->
  id x = i -> obj x = Some o -> object_ok o -> node x = Some n ->
  find_prototype_node (classname x) s = Ok (Some n) -> (0 < i <= seq_ s)%Z ->
  store_ok (set_object_map (<[i := p]> (object_map_ s)) (set_lists r (set_proxies (<[p := x]> (proxies s)) s))).
Proof.
  intros Hs Hr Hin Hnode Hmap Hid Hobj Hok Hn Hfind Hpos.
  assert (forall j q, object_map_ s !! j = Some q -> j <> i -> q <> p) as Hne.
  { intros j q Hj Hji ->. destruct Hmap as [[Hi _] | [_ Hi]]; [|by eapply Hi].
    destruct (ok_object s Hs j p Hj) as (x1 & _ & _ & Hx1 & Hid1 & _).
    destruct (ok_object s Hs i p Hi) as (x2 & _ & _ & Hx2 & Hid2 & _). congruence. }
  constructor; cbn.
  - done.
  - intros j q Hj. apply lookup_insert_Some in Hj as [[<- <-] | [Hji Hj]].
    + exists x, o, n. rewrite lookup_insert_eq. split_and!; try done; try tauto. apply Hin. by right.
    + destruct (ok_object s Hs j q Hj) as (x' & o' & n' & Hx' & Hid' & Ho' & Hok' & Hn' & Hfind' & Hin' & Hpos').
      assert (q <> p) by (by eapply Hne).
      exists x', o', n'. rewrite lookup_insert_ne by done. split_and!; try done; try tauto. apply Hin. by left.
  - intros m q Hq. apply Hin in Hq as [Hq | [-> ->]].
    + destruct (ok_member s Hs m q Hq) as (j & x' & Hj & Hx' & Hm). destruct (decide (j = i)) as [-> | Hji].
      * destruct Hmap as [[Hi Hnp] | [Hi _]]; [|congruence]. assert (q = p) as -> by congruence.
        exists i, x. rewrite !lookup_insert_eq. split_and!; try done.
        destruct (ok_member s Hs n p Hnp) as (? & x3 & _ & Hx3 & Hn3). congruence.
      * exists j, x'. rewrite !lookup_insert_ne by (done || (symmetry; by eapply Hne)). done.
    + exists i, x. by rewrite !lookup_insert_eq.
  - intros cls m Hm. apply Hnode. by eapply ok_node.
  - by apply ok_seq.
Qed.

Lemma plain_restored o now :
  Forall plain o -> Forall2 same_attribute o now -> zip_with restored o now = o /\ concat (acquired <$> o) = [].
Proof.
  intros Hp Hs. induction Hs as [|a b o now Ha Hs IH]; [done |]. apply Forall_cons_1 in Hp as [Hpa Hp].
  destruct (IH Hp) as [E1 E2]. split; [simpl; rewrite E1; by destruct a |].
  change (acquired a ++ concat (acquired <$> o) = []). rewrite E2. by destruct a.
Qed.

Lemma proxy_restore_spec s i p x n now cls o b rest :
  store_ok s -> object_map_ s !! i = Some p -> proxies s !! p = Some x -> classname x = cls ->
  obj x = Some now -> node x = Some n -> Forall2 same_attribute o now -> object_ok o ->
  q_ok b -> q_contents b = concat (encoding <$> o) ++ rest ->
  exists b' s', proxy_restore p b s = Ok (b', s') /\ q_ok b' /\ q_contents b' = rest
    /\ store_ok s' /\ frame s s' [i] /\ view s' !! i = Some (cls, o) /\ object_map_ s' = object_map_ s
    /\ same_transactions s s'.
Proof.
  intros Hs Hi Hx Hcls Hobj Hn Hsame [Hok1 Hok2] Hb Hc.
  destruct (restore_spec o now b rest Hb Hc Hok1 Hsame) as (b' & Hr & Hb' & Hc').
  destruct (plain_restored o now Hok2 Hsame) as [E1 E2]. rewrite E1, E2 in Hr.
  unfold proxy_restore, deref. rewrite Hx. cbn [rbind]. rewrite Hobj, Hobj, Hr. cbn [rbind acquire_all].
  exists b'. eexists. split; [reflexivity |]. split_and!; [done | done | | | | done | done].
  - destruct (ok_object s Hs i p Hi) as (x' & o' & n' & Hx' & Hid' & Ho' & Hok' & Hn' & Hfind' & Hin' & Hpos').
    assert (x' = x) as -> by congruence. assert (n' = n) as -> by congruence.
    pose proof (store_ok_put s p (set_obj (Some o) x) o n i (node_lists s) Hs (ok_lists s Hs)) as H.
    cbn in H. rewrite insert_id in H by done. destruct s. cbn in *. apply H; auto; try done.
    intros m q. split; [tauto |]. intros [Hq | [-> ->]]; done.
  - constructor; cbn; try done. intros q y Hq Hy. rewrite lookup_insert_ne; [done |]. intros <-.
    destruct (ok_object s Hs i p Hi) as (x' & _ & _ & Hx' & Hid' & _). set_solver.
  - rewrite lookup_view. cbn. rewrite Hi. unfold object_at. rewrite lookup_insert_eq. cbn. by rewrite Hcls.
Qed.

Lemma insert_proxy_spec s p x n now i :
  store_ok s -> proxies s !! p = Some x -> id x = i -> object_map_ s !! i = None -> (0 < i <= seq_ s)%Z ->
  obj x = Some now -> object_ok now -> node x = Some n ->
  find_prototype_node (classname x) s = Ok (Some n) ->
  exists s', insert_proxy p s = Ok s' /\ store_ok s' /\ frame s s' [i] /\ object_map_ s' !! i = Some p
    /\ proxies s' = proxies s /\ same_transactions s s'.
Proof.
  intros Hs Hx Hid Hi Hpos Hobj Hok Hn Hfind.
  assert (forall j, object_map_ s !! j <> Some p) as Hfresh.
  { intros j Hj. destruct (ok_object s Hs j p Hj) as (x' & _ & _ & Hx' & Hid' & _). congruence. }
  destruct (nl_insert_spec (node_lists s) n p (pk x) (ok_lists s Hs)) as (r & Hr & Hrok & Hrin & Hrn).
  { by eapply ok_node. }
  { intros m Hm. destruct (ok_member s Hs m p Hm) as (j & x' & Hj & _). by eapply Hfresh. }
  { intros l Hl Hin. pose proof (ok_seq s Hs). pose proof (members_bounded s n [i] l Hs Hl Hin) as H'. simpl in H'.
    enough (Z.of_nat (length l) + 1 <= seq_ s)%Z by lia. apply H'; [apply NoDup_singleton |].
    by intros j ->%list_elem_of_singleton. }
  unfold insert_proxy, deref. rewrite Hx. cbn [rbind]. rewrite Hobj. rewrite bool_decide_false by done.
  rewrite (proj2 (Z.eqb_neq _ _)) by lia. rewrite Hfind. cbn [rbind]. rewrite Hr. cbn [rbind].
  eexists. split; [reflexivity |]. rewrite Hid. unfold map_insert_new. rewrite Hi. split_and!.
  - pose proof (store_ok_put s p x now n i r Hs Hrok Hrin Hrn) as H. rewrite (insert_id (proxies s) p x) in H by done.
    destruct s. cbn in *. apply H; auto.
  - constructor; cbn; try done. intros j Hj. rewrite lookup_insert_ne; set_solver.
  - cbn. apply lookup_insert_eq.
  - done.
  - done.
Qed.

Lemma remove_all_spec l ids s :
  store_ok s -> Forall2 (fun p i => object_map_ s !! i = Some p) l ids -> NoDup ids ->
  exists s', remove_all l s = Ok s' /\ store_ok s' /\ frame s s' ids
    /\ (forall i, i ∈ ids -> object_map_ s' !! i = None) /\ same_transactions s s'.
Proof.
  revert ids s. induction l as [|p l IH]; intros ids s Hs Ha Hnd.
  { apply Forall2_nil_inv_l in Ha as ->. exists s. split_and!; [done | done | apply frame_refl | by intros i ?%elem_of_nil | done]. }
  apply Forall2_cons_inv_l in Ha as (i & ids' & Hi & Ha & ->). apply list.NoDup_cons in Hnd as [Hni Hnd].
  destruct (remove_proxy_spec s i p Hs Hi) as (s1 & E1 & Hs1 & F1 & N1 & T1a & T1b).
  destruct (IH ids' s1 Hs1) as (s2 & E2 & Hs2 & F2 & N2 & T2a & T2b); [|done|].
  { clear - Ha F1 Hni. induction Ha as [|q j l ids' Hq Ha IH]; constructor.
    - rewrite (frame_map _ _ _ F1); set_solver.
    - apply IH. set_solver. }
  exists s2. simpl. rewrite E1. split_and!; [done | done | by eapply frame_trans; [done | done | set_solver | set_solver] | |
    split; congruence].
  intros j [-> | Hj]%elem_of_cons; [|by apply N2]. by rewrite (frame_map _ _ _ F2).
Qed.

Lemma view_none s i : object_map_ s !! i = None -> view s !! i = None.
Proof. intros H. by rewrite lookup_view, H. Qed.

Lemma restore_action_spec s a u b rest :
  store_ok s -> action_ok s a u -> NoDup (undo_ids u) -> q_ok b -> q_contents b = undo_bytes u ++ rest ->
  exists b' s', restore_action a b s = Ok (b', s') /\ q_ok b' /\ q_contents b' = rest
    /\ store_ok s' /\ frame s s' (undo_ids u) /\ view s' = undo (view s) u /\ same_transactions s s'.
Proof.
  intros Hs Ha Hnd Hb Hc.
  destruct a as [ty l | p ty j | ty j p del], u as [ids | i cls o]; simpl in Ha; try done.
  - destruct (remove_all_spec l ids s Hs Ha Hnd) as (s' & E & Hs' & F & N & T). simpl. rewrite E.
    exists b, s'. split_and!; try done. apply map_eq. intros i. rewrite lookup_delete_all.
    case_decide as Hi; [by apply view_none, N |]. by eapply view_frame.
  - destruct Ha as (-> & x & now & Hi & Hx & Hcls & Hobj & Hsame & Hok).
    destruct (ok_object s Hs i p Hi) as (x' & o' & n & Hx' & _ & _ & _ & Hn & _). simplify_eq.
    destruct (proxy_restore_spec s i p x n now (classname x) o b rest) as (b' & s' & E & Hb' & Hc' & Hs' & F & V & _ & T); auto.
    exists b', s'. split_and!; try done. apply map_eq. intros k. simpl. destruct (decide (k = i)) as [-> | Hk].
    + by rewrite lookup_insert_eq.
    + rewrite lookup_insert_ne by done. eapply view_frame; eauto. set_solver.
  - destruct Ha as (-> & -> & Hi & x & now & n & Hx & Hid & Hpos & Hcls & Hobj & Hnow & Hsame & Hok & Hn & Hfind).
    rewrite <- Hcls in Hfind.
    destruct (insert_proxy_spec s p x n now i Hs Hx Hid Hi Hpos Hobj Hnow Hn Hfind) as (s1 & E1 & Hs1 & F1 & M1 & P1 & T1a & T1b).
    destruct (proxy_restore_spec s1 i p x n now cls o b rest) as (b' & s2 & E2 & Hb2 & Hc2 & Hs2 & F2 & V2 & _ & T2a & T2b); auto.
    { by rewrite P1. }
    simpl. unfold find_proxy. rewrite Hi, E1. cbn [rbind]. rewrite E2. cbn [rbind].
    assert (frame s s2 [i]) as F by (by eapply frame_trans).
    exists b', s2. split_and!; try done; [|split; congruence]. apply map_eq. intros k. destruct (decide (k = i)) as [-> | Hk].
    + by rewrite lookup_insert_eq.
    + rewrite lookup_insert_ne by done. eapply view_frame; eauto. set_solver.
Qed.

Lemma rollback_loop_spec acts us b s rest :
  store_ok s -> Forall2 (action_ok s) acts us -> NoDup (concat (undo_ids <$> us)) ->
  q_ok b -> q_contents b = concat (undo_bytes <$> us) ++ rest ->
  exists b' s', rollback_loop acts b s = Ok (b', s') /\ store_ok s'
    /\ frame s s' (concat (undo_ids <$> us)) /\ view s' = foldl undo (view s) us
    /\ same_transactions s s'.
Proof.
  revert us b s. induction acts as [|a acts IH]; intros us b s Hs Ha Hnd Hb Hc.
  { apply Forall2_nil_inv_l in Ha as ->. exists b, s. split_and!; [done | done | apply frame_refl | done | done]. }
  apply Forall2_cons_inv_l in Ha as (u & us' & Hu & Ha & ->).
  change (concat (undo_ids <$> u :: us')) with (undo_ids u ++ concat (undo_ids <$> us')) in *.
  change (concat (undo_bytes <$> u :: us')) with (undo_bytes u ++ concat (undo_bytes <$> us')) in Hc.
  apply list.NoDup_app in Hnd as (Hnd1 & Hd & Hnd2). rewrite <- app_assoc in Hc.
  destruct (restore_action_spec s a u b _ Hs Hu Hnd1 Hb Hc) as (b1 & s1 & E1 & Hb1 & Hc1 & Hs1 & F1 & V1 & T1a & T1b).
  destruct (IH us' b1 s1 Hs1) as (b2 & s2 & E2 & Hs2 & F2 & V2 & T2a & T2b); auto.
  { clear - make_object Ha F1 Hs Hd. induction Ha as [|a u' acts us Hau Ha IH]; constructor.
    - eapply action_ok_frame; eauto. intros i Hi Hi'. apply (Hd i Hi').
      apply elem_of_app. by left.
    - apply IH. intros i Hi Hi'. apply (Hd i Hi). apply elem_of_app. by right. }
  exists b2, s2. cbn [rollback_loop]. rewrite E1. cbn [rbind]. rewrite E2. split_and!; [done | done | | | split; congruence].
  - eapply frame_trans; [done | done | set_solver | set_solver].
  - rewrite V2, V1. done.
Qed.

(** ** While a transaction is open *)

(** The data of the open transaction [t] suffice to get back to the objects
    [V0]; [us] says how each action is undone. *)
Record tx_inv (V0 : gmap Z (str * object)) (t : Z) (ts : list Z) (s : object_store)
    (td : transaction_data) (us : list undo_step) : Prop := {
  tx_store : store_ok s;
  tx_top : transactions_ s = t :: ts;
  tx_data : tdata s !! t = Some td;
  tx_actions : Forall2 (action_ok s) (actions_ td) us;
  tx_nodup : NoDup (concat (undo_ids <$> us));
  tx_buffer : q_ok (object_buffer_ td) /\ q_contents (object_buffer_ td) = concat (undo_bytes <$> us);
  tx_undo : foldl undo (view s) us = V0;
  tx_none : forall i, id_action_index_map_ td !! i = None -> i ∉ concat (undo_ids <$> us);
  tx_index : forall i k, id_action_index_map_ td !! i = Some k -> exists u, us !! k = Some u /\ i ∈ undo_ids u;
  tx_seq : forall i, i ∈ concat (undo_ids <$> us) -> (i <= seq_ s)%Z }.

Lemma elem_of_concat_ids us i :
  i ∈ concat (undo_ids <$> us) <-> exists k u, us !! k = Some u /\ i ∈ undo_ids u.
Proof.
  induction us as [|u us IH]; simpl.
  - split; [by intros ?%elem_of_nil | intros (k & u & Hk & _); by rewrite lookup_nil in Hk].
  - rewrite elem_of_app, IH. split.
    + intros [H | (k & u' & Hk & H)]; [by exists 0, u | by exists (S k), u'].
    + intros ([|k] & u' & Hk & H); simplify_eq/=; eauto.
Qed.

Lemma undo_all_deleted us V ids i :
  NoDup (concat (undo_ids <$> us)) -> UDelete ids ∈ us -> i ∈ ids -> foldl undo V us !! i = None.
Proof.
  revert V. induction us as [|u us IH]; intros V Hnd Hu Hi; [by apply elem_of_nil in Hu |].
  simpl in *. apply list.NoDup_app in Hnd as (_ & Hd & Hnd). apply elem_of_cons in Hu as [<- | Hu].
  - rewrite undo_all_untouched by (by apply Hd). simpl. rewrite lookup_delete_all. by rewrite decide_True.
  - by apply IH.
Qed.

(** Two lists of undo steps with the same effect on [j]. *)
Lemma undo_all_same j us us' V V' :
  Forall2 (fun u u' => forall V V' : gmap Z (str * object), V !! j = V' !! j -> undo V u !! j = undo V' u' !! j) us us' ->
  V !! j = V' !! j -> foldl undo V us !! j = foldl undo V' us' !! j.
Proof. intros H. revert V V'. induction H; simpl; auto. Qed.

Lemma undo_same_refl j us :
  Forall2 (fun u u' => forall V V' : gmap Z (str * object), V !! j = V' !! j -> undo V u !! j = undo V' u' !! j) us us.
Proof.
  induction us as [|u us IH]; constructor; [|done]. intros V V' H.
  destruct (decide (j ∈ undo_ids u)); [by apply undo_touched | by rewrite !undo_untouched].
Qed.

(** An object becomes part of an insert action. *)
Record adds (i : Z) (us us' : list undo_step) (k : nat) : Prop := {
  adds_ids : concat (undo_ids <$> us') ≡ₚ i :: concat (undo_ids <$> us);
  adds_bytes : concat (undo_bytes <$> us') = concat (undo_bytes <$> us);
  adds_at : exists ids, us' !! k = Some (UDelete ids) /\ i ∈ ids;
  adds_keep : forall k' u, us !! k' = Some u -> exists u', us' !! k' = Some u' /\ undo_ids u ⊆ undo_ids u';
  adds_undo : forall V V' j, j <> i -> V !! j = V' !! j -> foldl undo V us !! j = foldl undo V' us' !! j }.

Lemma insert_visit_spec ty p acts j k acts' :
  insert_visit ty p j acts = Some (k, acts') ->
  exists A l C, k = j + length A /\ acts = A ++ InsertAction ty l :: C /\ acts' = A ++ InsertAction ty (l ++ [p]) :: C.
Proof.
  revert j k acts'. induction acts as [|a acts IH]; intros j k acts' H; [done |]. cbn [insert_visit] in H.
  assert (forall k acts'', insert_visit ty p (S j) acts = Some (k, acts'') ->
    exists A l C, k = j + length A /\ a :: acts = A ++ InsertAction ty l :: C
                  /\ a :: acts'' = A ++ InsertAction ty (l ++ [p]) :: C) as Hrec.
  { intros k' acts'' H'. destruct (IH _ _ _ H') as (A & l & C & -> & -> & ->).
    exists (a :: A), l, C. simpl. split_and!; [lia | done | done]. }
  destruct a as [ty' l | |].
  - case_bool_decide as E; [simplify_eq; exists [], l, acts; simpl; split_and!; [lia | done | done] |].
    destruct (insert_visit ty p (S j) acts) as [[k' acts'']|]; simplify_eq. by apply Hrec.
  - destruct (insert_visit ty p (S j) acts) as [[k' acts'']|]; simplify_eq. by apply Hrec.
  - destruct (insert_visit ty p (S j) acts) as [[k' acts'']|]; simplify_eq. by apply Hrec.
Qed.

Lemma inserter_insert_spec s s' ty p i acts us k acts' :
  inserter_insert ty p acts = (k, acts') -> Forall2 (action_ok s) acts us ->
  (forall a u, action_ok s a u -> u ∈ us -> action_ok s' a u) -> object_map_ s' !! i = Some p ->
  exists us', k < length acts' /\ Forall2 (action_ok s') acts' us' /\ adds i us us' k.
Proof.
  unfold inserter_insert. intros H Ha Hmono Hi. destruct (insert_visit ty p 0 acts) as [[k' acts'']|] eqn:E.
  - injection H as -> ->. apply insert_visit_spec in E as (A & l & C & -> & -> & ->).
    apply Forall2_app_inv_l in Ha as (us1 & us2 & H1 & H2 & ->).
    apply Forall2_cons_inv_l in H2 as (u & us3 & Hu & H3 & ->). pose proof (Forall2_length H1) as Hlen.
    destruct u as [ids |]; [|done]. exists (us1 ++ UDelete (ids ++ [i]) :: us3). split_and!.
    + rewrite length_app. simpl. lia.
    + apply Forall2_app; [|constructor].
      * clear - H1 Hmono. induction H1; constructor; [apply Hmono; set_solver | apply IHForall2; set_solver].
      * simpl. apply Forall2_app; [|by constructor]. assert (action_ok s' (InsertAction ty l) (UDelete ids)) as Hx; [|done].
        apply Hmono; [done | set_solver].
      * clear - H3 Hmono. induction H3; constructor; [apply Hmono; set_solver | apply IHForall2; set_solver].
    + constructor.
      * rewrite !fmap_app, !concat_app. cbn [fmap list_fmap concat undo_ids]. solve_Permutation.
      * by rewrite !fmap_app, !concat_app.
      * exists (ids ++ [i]). simpl. split; [|set_solver]. by apply list_lookup_middle.
      * intros k' u Hk. destruct (decide (k' = length us1)) as [-> | Hne].
        { rewrite list_lookup_middle in Hk by done. simplify_eq. eexists. split; [by apply list_lookup_middle |]. set_solver. }
        exists u. split; [|done]. destruct (decide (k' < length us1)).
        { by rewrite lookup_app_l in * by done. }
        { rewrite lookup_app_r in * by lia. destruct (k' - length us1) eqn:E'; [lia | done]. }
      * intros V V' j Hj HV. apply undo_all_same; [|done].
        apply Forall2_app; [apply undo_same_refl |]. constructor; [|apply undo_same_refl].
        intros W W' HW. simpl. rewrite !lookup_delete_all. do 2 case_decide; set_solver.
  - injection H as <- <-. pose proof (Forall2_length Ha) as Hlen. exists (us ++ [UDelete [i]]). split_and!.
    + rewrite length_app. simpl. lia.
    + apply Forall2_app; [|repeat constructor; done].
      clear - Ha Hmono. induction Ha; constructor; [apply Hmono; set_solver | apply IHHa; set_solver].
    + constructor.
      * rewrite fmap_app, concat_app. cbn [fmap list_fmap concat undo_ids app]. solve_Permutation.
      * rewrite fmap_app, concat_app. simpl. by rewrite app_nil_r.
      * exists [i]. split; [|set_solver]. rewrite Hlen. by apply list_lookup_middle.
      * intros k' u Hk. exists u. split; [by apply lookup_app_l_Some | done].
      * intros V V' j Hj HV. rewrite foldl_app. simpl. rewrite lookup_delete_ne by done.
        apply undo_all_same; [apply undo_same_refl | done].
Qed.

(** ** The steps of a transaction *)

Lemma plain_no_relations o : Forall plain o -> no_relations o = true.
Proof.
  induction o as [|a o IH]; intros H; [done |]. apply Forall_cons_1 in H as [Ha H]. simpl. rewrite IH by done.
  by destruct a.
Qed.

Lemma assign_pk_ok v o : object_ok o -> object_ok (assign_pk v o).
Proof.
  intros [H1 H2]. split.
  - clear H2. induction H1 as [|a o Ha H1 IH]; constructor; [|done]. destruct a; try done. simpl in *.
    destruct Ha as [Hw _]. split; [done |]. by apply of_bytes_range.
  - clear H1. induction H2 as [|a o Ha H2 IH]; constructor; [|done]. by destruct a.
Qed.

Lemma store_ok_transactions s v d : store_ok s -> store_ok (set_transactions v d s).
Proof. intros [A1 A2 A3 A4 A5]. constructor; [exact A1 | exact A2 | exact A3 | exact A4 | exact A5]. Qed.

Lemma store_ok_seq s n : store_ok s -> (seq_ s <= n < 2 ^ 64)%Z -> store_ok (set_seq n s).
Proof.
  intros [A1 A2 A3 A4 A5] Hn. constructor; try done; cbn; [|lia].
  intros i p Hi. destruct (A2 i p Hi) as (x & o & m & H). exists x, o, m. naive_solver lia.
Qed.

Lemma insert_step V0 t ts s td us p cls o s' :
  tx_inv V0 t ts s td us -> proxies s !! p = None -> object_ok o -> (seq_ s + 1 < 2 ^ 64)%Z ->
  insert p true (set_proxies (<[p := Proxy (Some o) None cls 0 0 (resolve o)]> (proxies s)) s) = Ok s' ->
  exists td' us', tx_inv V0 t ts s' td' us'.
Proof.
  intros [Hs Htop Htd Hact Hnd [Hb Hc] Hundo Hnone Hidx Hseq] Hp Ho Hmax.
  pose proof (ok_seq s Hs) as Hsq.
  set (x0 := Proxy (Some o) None cls 0 0 (resolve o)). set (i := (seq_ s + 1)%Z).
  unfold insert, deref. cbn [proxies set_proxies]. rewrite lookup_insert_eq. cbn [rbind obj x0 classname].
  change (find_prototype_node cls (set_proxies (<[p := x0]> (proxies s)) s)) with (find_prototype_node cls s).
  destruct (find_prototype_node cls s) as [[n|]|] eqn:Hfind; [|done|done]. cbn [rbind].
  rewrite andb_false_r, andb_false_r.
  assert (seq_next (seq_ s) = (i, i)) as Hnext.
  { unfold seq_next, u64. rewrite wrap_small; unfold i; [done | lia]. }
  change (seq_ (set_proxies (<[p := x0]> (proxies s)) s)) with (seq_ s). rewrite Hnext.
  assert (exists o1 pk1 seq1,
    (if is_null (pk (set_node (Some n) (set_id i x0))) then (set_node (Some n) (set_id i x0), i)
     else if negb (is_valid (pk (set_node (Some n) (set_id i x0))))
     then (set_pk (IntegralPk false 8 i) (set_obj (Some (assign_pk i o)) (set_node (Some n) (set_id i x0))), i)
     else (set_node (Some n) (set_id i x0), sync (pk (set_node (Some n) (set_id i x0))) i))
    = (Proxy (Some o1) (Some n) cls i 0 pk1, seq1) /\ object_ok o1 /\ (i <= seq1 < 2 ^ 64)%Z)
    as (o1 & pk1 & seq1 & -> & Ho1 & Hseq1).
  { destruct (is_null _); [|destruct (negb _)].
    - by exists o, (resolve o), i.
    - exists (assign_pk i o), (IntegralPk false 8 i), i. split_and!; [done | by apply assign_pk_ok | lia | unfold i; lia].
    - exists o, (resolve o), (sync (resolve o) i). split_and!; [done | done | |]; apply sync_ge; unfold i; lia. }
  set (x1 := Proxy (Some o1) (Some n) cls i 0 pk1).
  assert (object_map_ s !! i = None) as Hi.
  { destruct (object_map_ s !! i) as [q|] eqn:E; [|done].
    destruct (ok_object s Hs i q E) as (? & ? & ? & _ & _ & _ & _ & _ & _ & _ & H). unfold i in H. lia. }
  assert (forall j, object_map_ s !! j <> Some p) as Hfresh.
  { intros j Hj. destruct (ok_object s Hs j p Hj) as (x & _ & _ & Hx & _). congruence. }
  destruct (nl_insert_spec (node_lists s) n p pk1 (ok_lists s Hs)) as (r & Hr & Hrok & Hrin & Hrn).
  { by eapply ok_node. }
  { intros m Hm. destruct (ok_member s Hs m p Hm) as (j & x & Hj & _). by eapply Hfresh. }
  { intros l Hl Hin. pose proof (members_bounded s n [] l Hs Hl Hin (NoDup_nil_2)) as H'. simpl in H'.
    enough (Z.of_nat (length l) <= seq_ s)%Z by lia. apply Z.le_trans with (Z.of_nat (length l) + 0)%Z; [lia |].
    apply H'. by intros j ?%elem_of_nil. }
  cbn [node_lists set_seq set_proxies pk x1]. rewrite Hr. cbn [rbind].
  rewrite plain_no_relations by apply Ho. cbn [negb].
  unfold notify. cbn [transactions_ tdata proxies set_lists set_seq set_proxies]. rewrite Htop, Htd.
  rewrite insert_insert_eq. unfold on_insert, deref. rewrite lookup_insert_eq. cbn [rbind id x1].
  destruct (id_action_index_map_ td !! i) as [k|] eqn:Hk.
  { exfalso. destruct (Hidx i k Hk) as (u & Hu & Hin).
    assert (i <= seq_ s)%Z; [|unfold i in *; lia]. apply Hseq, elem_of_concat_ids. eauto. }
  cbn [node_type node x1 rbind].
  destruct (inserter_insert n p (actions_ td)) as [k acts'] eqn:Hins.
  set (s2 := set_object_map (<[i := p]> (object_map_ s)) (set_lists r (set_proxies (<[p := x1]> (proxies s)) (set_seq seq1 s)))).
  assert (store_ok s2) as Hs2.
  { apply (store_ok_put (set_seq seq1 s) p x1 o1 n i r); try done.
    - apply store_ok_seq; [done |]. unfold i in *. lia.
    - by right.
    - cbn. unfold i in *. lia. }
  assert (frame s s2 [i]) as F2.
  { constructor; cbn; try done.
    - unfold i in *. lia.
    - intros j Hj. rewrite lookup_insert_ne; set_solver.
    - intros q y Hq _. rewrite lookup_insert_ne; [done |]. congruence. }
  destruct (inserter_insert_spec s s2 n p i (actions_ td) us k acts' Hins Hact) as (us' & Hlt & Hact' & Hadd).
  { intros a u Hau Hu. eapply action_ok_frame; [done.. |]. intros j Hj Hj'. apply list_elem_of_singleton in Hj' as ->.
    apply list_elem_of_lookup in Hu as [k' Hk'].
    assert (i <= seq_ s)%Z; [|unfold i in *; lia]. apply Hseq, elem_of_concat_ids. eauto. }
  { cbn. apply lookup_insert_eq. }
  rewrite (proj2 (Nat.eqb_neq _ _)) by lia. cbn [rbind]. unfold map_insert_new.
  cbn [object_map_ set_transactions set_lists set_seq set_proxies]. rewrite Hi, Hk. intros [= <-].
  exists (TData acts' (<[i := k]> (id_action_index_map_ td)) (object_buffer_ td)), us'.
  assert (i ∉ concat (undo_ids <$> us)) as Hinew.
  { intros Hin. apply Hseq in Hin. unfold i in Hin. lia. }
  destruct Hadd as [D1 D2 (ids & D3 & D3') D4 D5]. constructor; cbn [tdata transactions_ object_map_ set_object_map set_transactions].
  - apply (store_ok_transactions s2 (t :: ts)), Hs2.
  - done.
  - apply lookup_insert_eq.
  - exact Hact'.
  - rewrite D1. by constructor.
  - cbn. by rewrite D2.
  - rewrite <- Hundo. apply map_eq. intros j. destruct (decide (j = i)) as [-> | Hj].
    + rewrite (undo_all_deleted us' _ ids i); [|by rewrite D1; constructor | | done].
      * rewrite undo_all_untouched by done. by rewrite view_none.
      * by eapply list_elem_of_lookup_2.
    + symmetry. apply D5; [done |]. symmetry.
      apply (view_frame s s2 [i] j F2 Hs). set_solver.
  - cbn. intros j. rewrite D1, elem_of_cons. intros [Hji Hj]%lookup_insert_None [-> | Hin]; [done |]. by apply (Hnone j).
  - cbn. intros j k'. intros [[<- <-] | [Hji Hj]]%lookup_insert_Some; [eauto |].
    destruct (Hidx j k' Hj) as (u & Hu & Hin). destruct (D4 k' u Hu) as (u' & Hu' & Hsub). eauto.
  - cbn. intros j. rewrite D1. intros [-> | Hin]%elem_of_cons; [lia |]. apply Hseq in Hin. unfold i in *. lia.
Qed.

Lemma same_attribute_trans a b c : same_attribute a b -> same_attribute b c -> same_attribute a c.
Proof. destruct a, b, c; simpl; naive_solver congruence. Qed.

Lemma same_object_trans (a b c : object) :
  Forall2 same_attribute a b -> Forall2 same_attribute b c -> Forall2 same_attribute a c.
Proof.
  intros H. revert c. induction H as [|x y a b Hxy H IH]; intros c Hc; [by apply Forall2_nil_inv_l in Hc as -> |].
  apply Forall2_cons_inv_l in Hc as (z & c' & Hz & Hc & ->). constructor; [by eapply same_attribute_trans | auto].
Qed.

Lemma same_object_refl (a : object) : Forall2 same_attribute a a.
Proof. induction a as [|x a IH]; constructor; [by destruct x | done]. Qed.

(** The bookkeeping of [backup_action]: one more action with its bytes. *)
Lemma backup_action_spec h td us p x o a s :
  h !! p = Some x -> obj x = Some o ->
  id_action_index_map_ td !! id x = None ->
  (length (actions_ td) = length us) -> NoDup (concat (undo_ids <$> us)) ->
  q_ok (object_buffer_ td) /\ q_contents (object_buffer_ td) = concat (undo_bytes <$> us) ->
  (forall i, id_action_index_map_ td !! i = None -> i ∉ concat (undo_ids <$> us)) ->
  (forall i k, id_action_index_map_ td !! i = Some k -> exists u, us !! k = Some u /\ i ∈ undo_ids u) ->
  (forall i, i ∈ concat (undo_ids <$> us) -> (i <= seq_ s)%Z) -> (id x <= seq_ s)%Z ->
  exists td', backup_action h a p td = Ok td' /\ actions_ td' = actions_ td ++ [a]
    /\ let us' := us ++ [URestore (id x) (classname x) o] in
       NoDup (concat (undo_ids <$> us'))
       /\ (q_ok (object_buffer_ td') /\ q_contents (object_buffer_ td') = concat (undo_bytes <$> us'))
       /\ (forall i, id_action_index_map_ td' !! i = None -> i ∉ concat (undo_ids <$> us'))
       /\ (forall i k, id_action_index_map_ td' !! i = Some k -> exists u, us' !! k = Some u /\ i ∈ undo_ids u)
       /\ (forall i, i ∈ concat (undo_ids <$> us') -> (i <= seq_ s)%Z).
Proof.
  intros Hx Ho Hnone Hlen Hnd [Hb Hc] Hn Hidx Hseq Hi. unfold backup_action, deref. rewrite Hx. cbn [rbind].
  rewrite Ho. cbn [rbind]. destruct (backup_spec o (object_buffer_ td) Hb) as (b' & -> & Hb' & Hc'). cbn [rbind].
  eexists. split; [reflexivity |]. split; [done |]. cbn zeta.
  unfold map_insert_new. rewrite Hnone. cbn [id_action_index_map_ object_buffer_ actions_].
  assert (forall j, j ∈ concat (undo_ids <$> us ++ [URestore (id x) (classname x) o])
            <-> j ∈ concat (undo_ids <$> us) \/ j = id x) as Hin.
  { intros j. rewrite fmap_app, concat_app, elem_of_app. cbn. set_solver. }
  split_and!.
  - rewrite fmap_app, concat_app. cbn. apply list.NoDup_app. split_and!; [done | | by repeat constructor; set_solver].
    intros j Hj Hj'. apply (Hn (id x) Hnone). set_solver.
  - done.
  - rewrite Hc', Hc, fmap_app, concat_app. cbn. by rewrite app_nil_r.
  - intros j [Hji Hj]%lookup_insert_None [Hin' | ->]%Hin; [by apply (Hn j) | done].
  - intros j k [[<- <-] | [Hji Hj]]%lookup_insert_Some.
    + exists (URestore (id x) (classname x) o). rewrite Hlen. split; [by apply list_lookup_middle | set_solver].
    + destruct (Hidx j k Hj) as (u & Hu & Hu'). exists u. split; [by apply lookup_app_l_Some | done].
  - intros j [Hj | ->]%Hin; auto.
Qed.

(** Replacing the object under an id that some action takes care of. *)
Lemma action_ok_put s a u i p x o' :
  store_ok s -> action_ok s a u -> object_map_ s !! i = Some p -> proxies s !! p = Some x ->
  (forall o, obj x = Some o -> Forall2 same_attribute o o') ->
  action_ok (set_proxies (<[p := set_obj (Some o') x]> (proxies s)) s) a u.
Proof.
  intros Hs Ha Hi Hx Hsame. destruct a as [ty l | q ty j | ty j q del], u as [ids | k cls o]; simpl in *; try done.
  - destruct Ha as (-> & y & now & Hk & Hy & Hcls & Hnow & Hsm & Hok). split; [done |].
    destruct (decide (q = p)) as [-> | Hqp].
    + assert (y = x) as -> by congruence. exists (set_obj (Some o') x), o'. rewrite lookup_insert_eq.
      split_and!; try done; try apply Hok. eapply same_object_trans; [done | auto].
    + exists y, now. rewrite lookup_insert_ne by done. done.
  - destruct Ha as (-> & -> & Hk & y & now & n & Hy & Hid & H). split_and!; [done.. |].
    exists y, now, n. rewrite lookup_insert_ne; [done |]. intros <-. assert (y = x) as -> by congruence.
    destruct (ok_object s Hs i p Hi) as (x' & _ & _ & Hx' & Hid' & _). congruence.
Qed.

Lemma update_step V0 t ts s td us i p x o o' s1 :
  tx_inv V0 t ts s td us -> object_map_ s !! i = Some p -> proxies s !! p = Some x -> obj x = Some o ->
  Forall2 same_attribute o o' -> object_ok o' -> mark_modified p s = Ok s1 ->
  exists td' us', tx_inv V0 t ts (set_proxies (<[p := set_obj (Some o') x]> (proxies s1)) s1) td' us'.
Proof.
  intros [Hs Htop Htd Hact Hnd Hbuf Hundo Hnone Hidx Hseq] Hi Hx Ho Hsame Ho'.
  destruct (ok_object s Hs i p Hi) as (x' & o'' & n & Hx' & Hid & Ho'' & Hok & Hn & Hfind & Hin & Hpos).
  assert (x' = x) as -> by congruence. assert (o'' = o) as -> by congruence.
  unfold mark_modified, deref. rewrite Hx. cbn [rbind]. unfold node_type. rewrite Hn. cbn [rbind].
  unfold notify. rewrite Htop, Htd.
  (* after the notification there is an action for the object *)
  assert (exists td' us', on_update (proxies s) p td = Ok td' /\ tx_inv V0 t ts
            (set_transactions (transactions_ s) (<[t := td']> (tdata s)) s) td' us' /\ i ∈ concat (undo_ids <$> us'))
    as (td' & us' & -> & [Hs1 Htop1 Htd1 Hact1 Hnd1 Hbuf1 Hundo1 Hnone1 Hidx1 Hseq1] & Hiu).
  { unfold on_update, deref. rewrite Hx. cbn [rbind]. rewrite Hid.
    destruct (id_action_index_map_ td !! i) as [k|] eqn:Hk.
    - exists td, us. split; [done |]. split.
      + constructor; try done; [by apply store_ok_transactions | apply lookup_insert_eq].
      + apply elem_of_concat_ids. destruct (Hidx i k Hk) as (u & Hu & Hu'). eauto.
    - unfold node_type. rewrite Hn. cbn [rbind].
      destruct (backup_action_spec (proxies s) td us p x o (UpdateAction p n i) s) as
        (td' & E & Eact & Q1 & Q2 & Q3 & Q4 & Q5); try done; try (by rewrite Hid).
      + by eapply Forall2_length.
      + rewrite Hid. lia.
      + rewrite E. exists td', (us ++ [URestore (id x) (classname x) o]). split; [done |]. split.
        * constructor; try done; [by apply store_ok_transactions | apply lookup_insert_eq | |].
          -- rewrite Eact. apply Forall2_app; [done |]. repeat constructor; [done |].
             exists x, o. rewrite Hid. split_and!; try done; try apply Hok. apply same_object_refl.
          -- rewrite foldl_app. cbn [foldl undo]. change (view (set_transactions _ _ s)) with (view s). rewrite Hundo.
             apply insert_id. rewrite <- Hundo, undo_all_untouched by (rewrite Hid; auto).
             rewrite lookup_view, Hid, Hi. unfold object_at. by rewrite Hx, Ho.
        * rewrite fmap_app, concat_app. rewrite <- Hid. set_solver. }
  cbn [rbind]. intros [= <-]. exists td', us'. cbn [proxies set_transactions].
  constructor; try done.
  - rewrite Htop in Hs1. pose proof (store_ok_put _ p (set_obj (Some o') x) o' n i (node_lists s) Hs1 (ok_lists s Hs)) as H.
    cbn in H. rewrite (insert_id (object_map_ s)) in H by done. apply H; auto.
    intros m q. split; [tauto |]. intros [Hq | [-> ->]]; done.
  - rewrite Htop in *. eapply Forall2_impl; [|exact Hact1]. intros a u Hau.
    apply (action_ok_put (set_transactions (t :: ts) (<[t := td']> (tdata s)) s) a u i p x o'); try done.
    intros o1 Ho1. by assert (o1 = o) as -> by congruence.
  - rewrite <- Hundo1. apply map_eq. intros j. apply undo_all_lookup. intros Hj.
    assert (j <> i) as Hji by (by intros ->). rewrite !lookup_view. cbn.
    destruct (object_map_ s !! j) as [q|] eqn:Hq; [|done]. unfold object_at.
    rewrite lookup_insert_ne; [done |]. intros <-.
    destruct (ok_object s Hs j p Hq) as (x2 & _ & _ & Hx2 & Hid2 & _). congruence.
Qed.

Lemma concat_ids_unique us k k' u u' i :
  NoDup (concat (undo_ids <$> us)) -> us !! k = Some u -> us !! k' = Some u' ->
  i ∈ undo_ids u -> i ∈ undo_ids u' -> k = k'.
Proof.
  revert k k'. induction us as [|v us IH]; intros k k' Hnd Hk Hk' Hi Hi'; [by rewrite lookup_nil in Hk |].
  simpl in Hnd. apply list.NoDup_app in Hnd as (_ & Hd & Hnd).
  destruct k as [|k], k' as [|k']; simplify_eq/=; [done | | | f_equal; by eapply IH].
  - exfalso. apply (Hd i Hi). apply elem_of_concat_ids. eauto.
  - exfalso. apply (Hd i Hi'). apply elem_of_concat_ids. eauto.
Qed.

Lemma delete_step V0 t ts s td us i p check s' :
  tx_inv V0 t ts s td us -> object_map_ s !! i = Some p -> is_Some (V0 !! i) -> remove p check s = Ok s' ->
  exists td' us', tx_inv V0 t ts s' td' us'.
Proof.
  intros [Hs Htop Htd Hact Hnd Hbuf Hundo Hnone Hidx Hseq] Hi HV0.
  destruct (ok_object s Hs i p Hi) as (x & o & n & Hx & Hid & Ho & Hok & Hn & Hfind & Hin & Hpos).
  destruct (take_out_spec s i p Hs Hi) as (s1 & E1 & Hs1 & F1 & N1 & Hno & P1 & T1a & T1b).
  unfold remove, deref. rewrite Hx. cbn [rbind]. rewrite Hn. rewrite bool_decide_false by done.
  destruct (if check then _ else _) as [[] | e]; cbn [rbind negb]; [|done|done].
  rewrite E1. cbn [rbind]. rewrite T1a, Htop. unfold notify. rewrite T1a, Htop, T1b, Htd.
  assert (forall j, j <> i -> view s1 !! j = view s !! j) as Hview
    by (intros j Hj; eapply view_frame; eauto; set_solver).
  unfold on_delete, deref. rewrite P1, Hx. cbn [rbind]. rewrite Hid.
  assert (forall a u k, actions_ td !! k = Some a -> us !! k = Some u -> i ∉ undo_ids u -> action_ok s1 a u) as Hkeep.
  { intros a u k Ha Hu Hiu. eapply action_ok_frame; [exact F1 | done | |].
    - eapply (Forall2_lookup_lr _ _ _ _ _ _ Hact); done.
    - intros j Hj Hj'. apply list_elem_of_singleton in Hj' as ->. done. }
  assert (action_ok s1 (DeleteAction n i p false) (URestore i (classname x) o)) as Hdel.
  { split_and!; [done | done | done |]. exists x, o, n. rewrite P1, (find_prototype_node_frame _ _ _ _ F1).
    pose proof (frame_seq _ _ _ F1). split_and!; try done; try lia; try apply Hok. apply same_object_refl. }
  destruct (id_action_index_map_ td !! i) as [k|] eqn:Hk.
  - destruct (Hidx i k Hk) as (u & Hu & Hiu).
    destruct (Forall2_lookup_r _ _ _ _ _ Hact Hu) as (a & Ha & Hau).
    destruct u as [ids | i' cls o0].
    { exfalso. rewrite <- Hundo, (undo_all_deleted us _ ids i) in HV0; [by destruct HV0 | done | | done].
      by eapply list_elem_of_lookup_2. }
    apply list_elem_of_singleton in Hiu as <-.
    destruct a as [| q ty j | ty j q del]; [done | |].
    2: { destruct Hau as (_ & _ & Hau & _). congruence. }
    destruct Hau as (-> & y & now & Hiq & Hy & Hcls & Hnow & Hsm & Hok0). assert (q = p) as -> by congruence.
    assert (y = x) as -> by congruence. assert (now = o) as -> by congruence.
    unfold remover_remove, deref. rewrite Hx. cbn [rbind]. rewrite Ha. cbn [rbind]. rewrite Hx. cbn [rbind].
    rewrite Z.eqb_refl. cbn [rbind]. intros [= <-].
    eexists (TData (<[k := DeleteAction ty i p false]> (actions_ td)) _ _), us.
    constructor; try done; cbn.
    + by apply store_ok_transactions.
    + apply lookup_insert_eq.
    + apply Forall2_same_length_lookup_2; [rewrite length_insert; by eapply Forall2_length |].
      intros k' a' u' Ha' Hu'. destruct (decide (k' = k)) as [-> | Hkk].
      * rewrite list_lookup_insert_eq in Ha' by (by eapply lookup_lt_Some). simplify_eq.
        split_and!; [done | done | done |]. exists x, o, n.
        cbn [proxies set_transactions]. rewrite P1. change (find_prototype_node (classname x) (set_transactions _ _ s1)) with (find_prototype_node (classname x) s1).
        rewrite (find_prototype_node_frame _ _ _ _ F1). pose proof (frame_seq _ _ _ F1).
        cbn. split_and!; try done; try lia; try apply Hok; apply Hok0.
      * rewrite list_lookup_insert_ne in Ha' by done. eapply (Hkeep a' u' k'); [done | done |].
        intros Hiu'. apply Hkk. eapply (concat_ids_unique us k' k); eauto. set_solver.
    + rewrite <- Hundo. apply map_eq. intros j. apply undo_all_lookup. intros Hj. apply Hview. intros ->.
      apply Hj, elem_of_concat_ids. exists k. eexists. split; [done | set_solver].
    + intros j Hj. pose proof (frame_seq _ _ _ F1). apply Hseq in Hj. lia.
  - unfold node_type. rewrite Hn. cbn [rbind].
    destruct (backup_action_spec (proxies s) td us p x o (DeleteAction n i p false) s) as
      (td' & E & Eact & Q1 & Q2 & Q3 & Q4 & Q5); try done; try (by rewrite Hid).
    { by eapply Forall2_length. }
    { rewrite Hid. lia. }
    rewrite E. cbn [rbind]. intros [= <-]. exists td', (us ++ [URestore (id x) (classname x) o]).
    constructor; try done; cbn.
    + by apply store_ok_transactions.
    + apply lookup_insert_eq.
    + rewrite Eact. apply Forall2_app.
      * apply Forall2_same_length_lookup_2; [by eapply Forall2_length |]. intros k' a' u' Ha' Hu'.
        eapply (Hkeep a' u' k'); [done | done |]. intros Hiu'. apply (Hnone i Hk), elem_of_concat_ids. eauto.
      * constructor; [|constructor]. rewrite Hid. exact Hdel.
    + rewrite foldl_app. cbn [foldl undo]. rewrite <- Hundo. apply map_eq. intros j.
      change (view (set_transactions _ _ s1)) with (view s1). rewrite Hid. destruct (decide (j = i)) as [-> | Hj].
      * rewrite lookup_insert_eq. rewrite undo_all_untouched by auto. rewrite lookup_view, Hi. unfold object_at.
        by rewrite Hx, Ho.
      * rewrite lookup_insert_ne by done. apply undo_all_lookup. intros _. by apply Hview.
    + intros j Hj. pose proof (frame_seq _ _ _ F1). apply Q5 in Hj. lia.
Qed.

(** What the program can do while a transaction that started from the objects
    [V0] is open: insert a new object, change an object after
    [mark_modified], remove an object that was there when it began. *)
Inductive tx_step (V0 : gmap Z (str * object)) (s : object_store) : object_store -> Prop :=
| ts_insert p cls o s' :
    proxies s !! p = None -> object_ok o -> (seq_ s + 1 < 2 ^ 64)%Z ->
    insert p true (set_proxies (<[p := Proxy (Some o) None cls 0 0 (resolve o)]> (proxies s)) s) = Ok s' ->
    tx_step V0 s s'
| ts_update i p x o o' s' :
    object_map_ s !! i = Some p -> proxies s !! p = Some x -> obj x = Some o ->
    Forall2 same_attribute o o' -> object_ok o' -> mark_modified p s = Ok s' ->
    tx_step V0 s (set_proxies (<[p := set_obj (Some o') x]> (proxies s')) s')
| ts_delete i p check s' :
    object_map_ s !! i = Some p -> is_Some (V0 !! i) -> remove p check s = Ok s' ->
    tx_step V0 s s'.

Lemma tx_inv_begin t s :
  store_ok s -> tdata s !! t = Some tdata0 -> tx_inv (view s) t (transactions_ s) (begin_ t s) tdata0 [].
Proof.
  intros Hs Ht. destruct q_empty_spec as [Q1 Q2]. constructor; try done; cbn; try set_solver.
  - by apply store_ok_transactions.
  - constructor.
Qed.

Lemma tx_inv_steps V0 t ts s s' :
  rtc (tx_step V0) s s' -> (exists td us, tx_inv V0 t ts s td us) -> exists td us, tx_inv V0 t ts s' td us.
Proof.
  intros H. induction H as [|s s1 s' H _ IH]; [done |]. intros (td & us & Hi). apply IH.
  inversion H; subst; [by eapply insert_step | by eapply update_step | by eapply delete_step].
Qed.

(** A transaction whose data describe the way back goes back. *)
Lemma rollback_spec V0 t ts s td us :
  tx_inv V0 t ts s td us ->
  exists s', rollback t s = Ok s' /\ view s' = V0 /\ store_ok s' /\ transactions_ s' = ts /\ tdata s' !! t = Some tdata0
    /\ forall cls, find_prototype_node cls s' = find_prototype_node cls s.
Proof.
  intros [Hs Htop Htd Hact Hnd [Hb Hc] Hundo _ _ _].
  destruct (rollback_loop_spec _ us (object_buffer_ td) s [] Hs Hact Hnd Hb) as (b' & s' & E & Hs' & F & V & T1 & T2).
  { by rewrite app_nil_r. }
  unfold rollback. rewrite Htop, Z.eqb_refl, Htd. cbn [negb]. rewrite E. cbn [rbind]. unfold cleanup.
  rewrite T1, Htop. eexists. split; [reflexivity |]. split_and!; [by rewrite <- Hundo, <- V | by apply store_ok_transactions | done | apply lookup_insert_eq |].
  intros cls. exact (find_prototype_node_frame _ _ _ cls F).
Qed.

(** C4: [transaction::rollback] undoes a transaction in which objects were
    inserted and changed, and objects that were there before it removed, in
    any order: it succeeds, the store holds exactly the objects it held
    before, with the same attributes, all invariants of the store hold again
    and the transaction is closed. The objects have no references and no
    [char] arrays, each insert gets a new proxy and the sequence of object ids
    does not run over. Removing an object that was inserted in the transaction
    is left out, because the code loses track of its actions then
    ([stale_action_index]). *)
Theorem rollback_restores t s0 s1 :
  store_ok s0 -> tdata s0 !! t = Some tdata0 -> rtc (tx_step (view s0)) (begin_ t s0) s1 ->
  exists s2, rollback t s1 = Ok s2 /\ view s2 = view s0 /\ store_ok s2
    /\ transactions_ s2 = transactions_ s0 /\ tdata s2 !! t = Some tdata0.
Proof.
  intros Hs Ht Hsteps.
  destruct (tx_inv_steps _ t (transactions_ s0) _ _ Hsteps) as (td & us & Hi); [by eauto using tx_inv_begin |].
  destruct (rollback_spec _ _ _ _ _ _ Hi) as (s2 & E & V & Hs2 & T1 & T2 & _). by exists s2.
Qed.

Lemma delete_proxies_ok l s :
  store_ok s -> (forall p j, p ∈ l -> object_map_ s !! j <> Some p) ->
  let s' := foldl (fun s p => delete_proxy p s) s l in
  store_ok s' /\ view s' = view s /\ transactions_ s' = transactions_ s /\ tdata s' = tdata s
  /\ object_map_ s' = object_map_ s /\ proxies s' ⊆ proxies s /\ forall cls, find_prototype_node cls s' = find_prototype_node cls s.
Proof.
  revert s. induction l as [|p l IH]; intros s Hs Hl; [done |]. cbn [foldl].
  destruct (IH (delete_proxy p s)) as (H1 & H2 & H3 & H4 & H5 & H6 & H7).
  { apply delete_proxy_ok; [done |]. intros j. apply Hl. by left. }
  { intros q j Hq. apply Hl. by right. }
  split_and!; [done | | by rewrite H3 | by rewrite H4 | by rewrite H5 | etrans; [exact H6 | apply delete_subseteq] | intros cls; by rewrite H7].
  rewrite H2. apply map_eq. intros j. rewrite !lookup_view. cbn.
  destruct (object_map_ s !! j) as [q|] eqn:E; [|done]. unfold object_at. rewrite lookup_delete_ne; [done |].
  intros <-. eapply (Hl p j); [by left | done].
Qed.

(** The proxies of delete actions are not those of stored objects. *)
Lemma commit_spec V0 t ts s td us :
  tx_inv V0 t ts s td us ->
  exists s2, commit t s = Ok s2 /\ view s2 = view s /\ store_ok s2 /\ transactions_ s2 = ts /\ tdata s2 !! t = Some tdata0
    /\ object_map_ s2 = object_map_ s /\ proxies s2 ⊆ proxies s /\ forall cls, find_prototype_node cls s2 = find_prototype_node cls s.
Proof.
  intros [Hs Htop Htd Hact _ _ _ _ _ _]. unfold commit. rewrite Htd. set (gone := omap _ _).
  destruct (delete_proxies_ok gone s Hs) as (H1 & H2 & H3 & _ & H5 & H6 & H7).
  { intros p j Hp Hj. unfold gone in Hp. apply list_elem_of_omap in Hp as (a & Ha & Hap).
    destruct a as [| | ty i q del]; simplify_eq.
    apply list_elem_of_lookup in Ha as (k & Hk). destruct (Forall2_lookup_l _ _ _ _ _ Hact Hk) as (u & _ & Hu).
    destruct u as [|i' cls o]; [done |]. destruct Hu as (-> & _ & Hi & x & now & n & Hx & Hid & _).
    destruct (ok_object s Hs j p Hj) as (x' & _ & _ & Hx' & Hid' & _). congruence. }
  unfold cleanup. rewrite H3, Htop. eexists. split; [reflexivity |].
  split_and!; [exact H2 | by apply store_ok_transactions | done | apply lookup_insert_eq | done | done | done].
Qed.

(** [transaction::commit] keeps what the transaction did: the objects of
    the store and their attributes stay as they are, the proxies of removed
    objects are freed, none of which the store still refers to, and the
    transaction is closed. *)
Lemma commit_keeps t s0 s1 :
  store_ok s0 -> tdata s0 !! t = Some tdata0 -> rtc (tx_step (view s0)) (begin_ t s0) s1 ->
  exists s2, commit t s1 = Ok s2 /\ view s2 = view s1 /\ store_ok s2
    /\ transactions_ s2 = transactions_ s0 /\ tdata s2 !! t = Some tdata0.
Proof.
  intros Hs Ht Hsteps.
  destruct (tx_inv_steps _ t (transactions_ s0) _ _ Hsteps) as (td & us & Hi); [by eauto using tx_inv_begin |].
  destruct (commit_spec _ _ _ _ _ _ Hi) as (s2 & E & V & Hs2 & T1 & T2 & _). by exists s2.
Qed.

End Store.

(** ** The lists of the nodes, abstractly *)

(** Lists as [prototype_node] keeps them: a new proxy goes to its place, a
    removed one leaves the others in order. StoreTree.v has the instance with
    the linked lists of the nodes. *)
#[export] Instance node_lists_map : NodeLists (gmap str (list loc)).
Proof.
  refine {|
    nl_insert n p _ r := match r !! n with
                       | Some l => Ok (<[n := PrototypeTree.place p l]> r)
                       | None => Throw (undefined_behaviour "null node")
                       end;
    nl_remove n p r := match r !! n with
                       | Some l => Ok (<[n := filter (fun q => q <> p) l]> r)
                       | None => Throw (undefined_behaviour "null node")
                       end;
    nl_ok _ := True;
    nl_node r n := is_Some (r !! n);
    nl_in r n p := exists l, r !! n = Some l /\ p ∈ l |}.
  - intros r n p _ _ [l Hl] _ _. rewrite Hl. eexists. split; [reflexivity |]. split; [done |]. split.
    + intros m q. destruct (decide (m = n)) as [-> | Hm].
      * rewrite lookup_insert_eq. assert (q ∈ PrototypeTree.place p l <-> q ∈ l \/ q = p) as Hq.
        { unfold PrototypeTree.place. destruct (unsnoc l) as [[l' x]|] eqn:E.
          - apply unsnoc_Some in E as ->. set_solver.
          - apply unsnoc_None in E as ->. set_solver. }
        naive_solver.
      * rewrite lookup_insert_ne by done. naive_solver.
    + intros m. destruct (decide (m = n)) as [-> | Hm]; [rewrite lookup_insert_eq, Hl; naive_solver | by rewrite lookup_insert_ne].
  - intros r n p _ (l & Hl & Hp) _. rewrite Hl. eexists. split; [reflexivity |]. split; [done |]. split.
    + intros m q. destruct (decide (m = n)) as [-> | Hm].
      * rewrite lookup_insert_eq, Hl. setoid_rewrite (inj_iff Some). split.
        { intros (? & <- & Hq). apply list_elem_of_filter in Hq as [H1 H2]. naive_solver. }
        { intros [(? & <- & Hq) H]. eexists. split; [done |]. apply list_elem_of_filter. naive_solver. }
      * rewrite lookup_insert_ne by done. naive_solver.
    + intros m. destruct (decide (m = n)) as [-> | Hm]; [rewrite lookup_insert_eq, Hl; naive_solver | by rewrite lookup_insert_ne].
Defined.

(** ** A small store *)

Abbreviation sample_state := (object_store (B := byte_buffer) (R := gmap str (list loc))).

Definition person (name : string) : object := [PrimaryKey true 8 0; Str (lit name)].

(** Two classes; proxy 0 holds the person with id 1. *)
Definition sample_store : sample_state :=
  Store {[ lit "person"; lit "planet" ]} ∅ {[ lit "person" := [0]; lit "planet" := [] ]}
    {[ 0 := Proxy (Some (person "hans")) (Some (lit "person")) (lit "person") 1 0 NullPk ]}
    {[ 1%Z := 0 ]} 1 [] {[ 7%Z := tdata0 ]}.

Lemma person_ok name : (Z.of_nat (length (lit name)) < 2 ^ 64)%Z -> object_ok (person name).
Proof. intros H. split; repeat constructor; simpl; lia. Qed.

Lemma sample_store_ok : store_ok sample_store.
Proof.
  constructor; cbn [node_lists object_map_ proxies seq_ sample_store].
  - done.
  - intros i p Hi. apply lookup_singleton_Some in Hi as [<- <-]. do 3 eexists. split; [apply lookup_singleton_eq |].
    split; [reflexivity |]. split; [reflexivity |]. split; [by apply person_ok |]. split; [reflexivity |].
    split; [vm_compute; reflexivity |]. split; [|lia].
    exists [0]. split; [vm_compute; reflexivity | set_solver].
  - intros n p (l & Hl & Hp). apply lookup_insert_Some in Hl as [[<- <-] | [_ Hl]].
    + apply list_elem_of_singleton in Hp as ->. exists 1%Z. eexists. split_and!; vm_compute; reflexivity.
    + apply lookup_singleton_Some in Hl as [<- <-]. by apply elem_of_nil in Hp.
  - intros cls n H. unfold find_prototype_node in H. cbn in H. rewrite lookup_empty in H.
    case_bool_decide as Hc; simplify_eq. apply elem_of_union in Hc as [->%elem_of_singleton | ->%elem_of_singleton];
      vm_compute; eauto.
  - lia.
Qed.

(** The person is renamed, a planet is inserted and the person removed. *)
Definition sample_open : sample_state := begin_ 7 sample_store.
Definition sample_marked : sample_state := ok_or sample_open (mark_modified 0 sample_open).
Definition sample_renamed : sample_state :=
  set_proxies (<[0 := set_obj (Some (person "otto"))
                        (Proxy (Some (person "hans")) (Some (lit "person")) (lit "person") 1 0 NullPk)]>
               (proxies sample_marked)) sample_marked.
Definition sample_new : sample_state :=
  set_proxies (<[1 := Proxy (Some (person "mars")) None (lit "planet") 0 0 (resolve (person "mars"))]>
               (proxies sample_renamed)) sample_renamed.
Definition sample_inserted : sample_state := ok_or sample_new (insert 1 true sample_new).
Definition sample_removed : sample_state := ok_or sample_inserted (remove 0 true sample_inserted).

Lemma sample_steps : rtc (tx_step (view sample_store)) sample_open sample_removed.
Proof.
  eapply rtc_l; [|eapply rtc_l; [|eapply rtc_once]].
  - apply (ts_update _ sample_open 1 0 (Proxy (Some (person "hans")) (Some (lit "person")) (lit "person") 1 0 NullPk)
             (person "hans") (person "otto") sample_marked); [vm_compute; reflexivity.. | | |].
    + repeat constructor.
    + by apply person_ok.
    + apply is_ok_or. vm_compute. reflexivity.
  - apply (ts_insert _ sample_renamed 1 (lit "planet") (person "mars") sample_inserted).
    + vm_compute. reflexivity.
    + by apply person_ok.
    + vm_compute. reflexivity.
    + apply is_ok_or. vm_compute. reflexivity.
  - apply (ts_delete _ sample_inserted 1 0 true sample_removed).
    + vm_compute. reflexivity.
    + exists (lit "person", person "hans"). vm_compute. reflexivity.
    + apply is_ok_or. vm_compute. reflexivity.
Qed.

Lemma rollback_restores_witness :
  view sample_removed !! 1%Z = None
  /\ exists s2, rollback (fun _ => []) 7 sample_removed = Ok s2
    /\ view s2 !! 1%Z = Some (lit "person", person "hans") /\ view s2 !! 2%Z = None.
Proof.
  split; [vm_compute; reflexivity |].
  destruct (rollback_restores (fun _ => []) 7 sample_store sample_removed) as (s2 & E & V & _).
  - exact sample_store_ok.
  - vm_compute. reflexivity.
  - exact sample_steps.
  - exists s2. rewrite V. split; [exact E |]. split; vm_compute; reflexivity.
Defined.

Lemma commit_keeps_witness :
  exists s2, commit 7 sample_removed = Ok s2 /\ view s2 !! 1%Z = None
    /\ view s2 !! 2%Z = Some (lit "planet", [PrimaryKey true 8 2; Str (lit "mars")]).
Proof.
  destruct (commit_keeps (fun _ => []) 7 sample_store sample_removed) as (s2 & E & V & _).
  - exact sample_store_ok.
  - vm_compute. reflexivity.
  - exact sample_steps.
  - exists s2. rewrite V. split; [exact E |]. split; vm_compute; reflexivity.
Defined.

(** Removing an object that was inserted in the same transaction erases its
    insert action, but the indices of the actions behind it stay as they were.
    Removing the person, who was changed before, then looks for an action
    behind the end of the vector; the person is out of the store by then. *)
Example stale_action_index :
  (let s := begin_ 7 sample_store in
   let? s := insert 1 true (set_proxies (<[1 := Proxy (Some (person "mars")) None (lit "planet") 0 0 NullPk]> (proxies s)) s) in
   let? s := mark_modified 0 s in
   let? s := remove 1 true s in
   let? s := remove 0 true s in
   Ok s) = Throw (out_of_range "vector::at").
Proof. vm_compute. reflexivity. Qed.

End ObjectStore.
