(* ===== verification/StoreTree.v ===== *)
(** * The object store on prototype trees

    The store of [ObjectStore] reaches the lists of its classes through the
    interface [NodeLists]. Here the interface is implemented by what the code
    has behind it: the tree of prototype nodes with its linked lists of
    proxies ([PrototypeTree]), read with [ObjectView]. A proxy of the store is
    the cell [cell p] of the tree, which holds its links and its primary key;
    the sentinels of the lists are other cells. All theorems about the store
    hold for it with this instance. *)

From S2P Require Import Prelude ByteBuffer Identifier ObjectSerializer PrototypeTree ObjectView Transaction ObjectStore.
Local Open Scope cxx_scope.

Module StoreTree.
Import ByteBuffer Identifier ObjectSerializer PrototypeTree ObjectView.

Definition cell (p : loc) : loc := 2 * p + 1.

#[export] Instance cell_inj : Inj (=) (=) cell.
Proof. intros p q. unfold cell. lia. Qed.

(** The tree, and the map from the names of the classes to their nodes. *)
Record node_tree := NodeTree { nt_tree : tree; nt_names : gmap str loc }.

(** [node->insert(proxy)] for a proxy that is in no list. *)
Definition nt_insert (n : str) (p : loc) (k : identifier) (r : node_tree) : result node_tree :=
  match nt_names r !! n with
  | None => null_deref
  | Some nd =>
    let t := nt_tree r in
    let? t := insert (Some nd) (Some (cell p)) (Tree (<[cell p := set_pk_ k proxy0]> (proxies t)) (nodes t)) in
    Ok (NodeTree t (nt_names r))
  end.

(** [node->remove(proxy)]. *)
Definition nt_remove (n : str) (p : loc) (r : node_tree) : result node_tree :=
  match nt_names r !! n with
  | None => null_deref
  | Some nd =>
    let? t := remove (Some nd) (Some (cell p)) (nt_tree r) in
    Ok (NodeTree t (nt_names r))
  end.

(** The proxies a view of the class alone goes through. *)
Definition nt_in (r : node_tree) (n : str) (p : loc) : Prop :=
  exists ls, elements (nt_tree r) (View true (nt_names r !! n)) = Ok ls /\ cell p ∈ ls.

(** ** Well-formed trees *)

(** A root class: the sentinels of its list, its nodes in preorder with their
    depths, and the proxies of each. *)
Record root := Root {
  r_first : loc;
  r_last : loc;
  r_nodes : list loc;
  r_depths : list Z;
  r_lists : list (list loc) }.

Definition r_cells (x : root) : list loc := r_first x :: concat (r_lists x) ++ [r_last x].
Definition set_list (i : nat) (s : list loc) (x : root) : root :=
  Root (r_first x) (r_last x) (r_nodes x) (r_depths x) (<[i := s]> (r_lists x)).
Definition nodes_before (rs : list root) (k : nat) : list loc := concat (take k (r_nodes <$> rs)).
Definition nodes_after (rs : list root) (k : nat) : list loc := concat (drop (S k) (r_nodes <$> rs)).

Record tree_ok (r : node_tree) (rs : list root) (z : loc) : Prop := {
  tk_forest : forall k x, rs !! k = Some x ->
    forest (nt_tree r) (r_first x) (r_last x) (nodes_before rs k) (r_nodes x) (nodes_after rs k) z (r_depths x) (r_lists x);
  tk_shallow : forall k x i, rs !! k = Some x -> shallower_are_ancestors (r_depths x) i;
  tk_cells : forall k x q, rs !! k = Some x -> q ∈ concat (r_lists x) -> exists p, q = cell p;
  tk_sentinels : forall k x p, rs !! k = Some x -> r_first x <> cell p /\ r_last x <> cell p;
  tk_disjoint : forall k k' x x' q, rs !! k = Some x -> rs !! k' = Some x' -> q ∈ r_cells x -> q ∈ r_cells x' -> k = k';
  tk_last : forall x, nodes (nt_tree r) !! z = Some x -> op_first x = None /\ op_marker x = None /\ op_last x = None;
  tk_names : forall n nd, nt_names r !! n = Some nd -> exists k x i, rs !! k = Some x /\ r_nodes x !! i = Some nd;
  tk_named : forall k x i nd, rs !! k = Some x -> r_nodes x !! i = Some nd -> exists n, nt_names r !! n = Some nd;
  tk_inj : forall n m nd, nt_names r !! n = Some nd -> nt_names r !! m = Some nd -> n = m }.

(** A forest in another tree, when nothing that belongs to it has changed. *)
Lemma forest_frame t t' f e pre ns post z ds segs :
  forest t f e pre ns post z ds segs ->
  (forall A n B, pre ++ ns ++ post = A ++ n :: B ->
     exists y, previous_node (nodes t') (Some n) = Ok y /\ walk previous_node (nodes t') y (rev A)) ->
  (forall A n B, pre ++ ns ++ post = A ++ n :: B ->
     exists y, next_node (nodes t') (Some n) = Ok y /\ walk next_node (nodes t') y (B ++ [z])) ->
  (forall y, y ∈ f :: concat segs ++ [e] -> proxies t' !! y = proxies t !! y) ->
  (forall m, m ∈ ns -> nodes t' !! m = nodes t !! m) ->
  (forall m x l, m ∈ pre ++ post ++ [z] -> nodes t' !! m = Some x -> l ∈ f :: concat segs ++ [e] ->
     op_first x <> Some l /\ op_marker x <> Some l /\ op_last x <> Some l) ->
  forest t' f e pre ns post z ds segs.
Proof.
  intros [F1 F2 F3 F4 F5 F6 F7 F8] Hb Hf Hp Hn Ha. constructor; try done.
  - eapply linked_mono; [|exact F5]. intros x Hx. by rewrite Hp.
  - intros i n s Hi Hs. rewrite Hn by by eapply list_elem_of_lookup_2. by apply F7.
Qed.

Lemma nodes_split (rs : list root) (k : nat) x :
  rs !! k = Some x -> nodes_before rs k ++ r_nodes x ++ nodes_after rs k = concat (r_nodes <$> rs).
Proof.
  intros Hk. unfold nodes_before, nodes_after.
  assert ((r_nodes <$> rs) !! k = Some (r_nodes x)) as E by by rewrite list_lookup_fmap, Hk.
  rewrite <- (take_drop_middle _ _ _ E) at 3. rewrite concat_app. done.
Qed.

Lemma nodes_same (rs : list root) (k : nat) x x' : rs !! k = Some x -> r_nodes x' = r_nodes x -> r_nodes <$> <[k := x']> rs = r_nodes <$> rs.
Proof. intros Hk E. rewrite list_fmap_insert, E. apply list_insert_id. by rewrite list_lookup_fmap, Hk. Qed.

(** The markers of a node point into the list of its root. *)
Lemma marks_cells f e ds segs i x l :
  marks f e ds segs i x -> op_first x = Some l \/ op_marker x = Some l \/ op_last x = Some l ->
  l ∈ f :: concat segs ++ [e].
Proof.
  intros [_ M1 M2 M3]. rewrite M1, M2, M3.
  assert (forall j q, q ∈ concat (take j segs) -> q ∈ concat segs) as Ht.
  { intros j q Hq. rewrite <- (take_drop j segs), concat_app. set_solver. }
  assert (forall j q, q ∈ concat (drop j segs) -> q ∈ concat segs) as Hd.
  { intros j q Hq. rewrite <- (take_drop j segs), concat_app. set_solver. }
  intros [[= <-] | [[= <-] | [= <-]]].
  - pose proof (lastd_elem f (concat (take i segs))) as [-> | H]%elem_of_cons; [left |]. apply Ht in H. set_solver.
  - pose proof (hdd_elem e (concat (drop (S i) segs))) as [H | H]%elem_of_app; [apply Hd in H |]; set_solver.
  - pose proof (hdd_elem e (concat (drop (subtree_end ds i) segs))) as [H | H]%elem_of_app; [apply Hd in H |]; set_solver.
Qed.

Lemma concat_disjoint {A} (L : list (list A)) k k' a b m :
  NoDup (concat L) -> L !! k = Some a -> L !! k' = Some b -> m ∈ a -> m ∈ b -> k = k'.
Proof.
  revert k k'. induction L as [|l L IH]; intros [|k] [|k'] Hnd Ha Hb Hma Hmb; simplify_eq/=; [done | | |];
    apply list.NoDup_app in Hnd as (_ & Hd & Hnd).
  - destruct (Hd m Hma). apply list_elem_of_In, in_concat. exists b. split; apply list_elem_of_In; [by eapply list_elem_of_lookup_2 | done].
  - destruct (Hd m Hmb). apply list_elem_of_In, in_concat. exists a. split; apply list_elem_of_In; [by eapply list_elem_of_lookup_2 | done].
  - f_equal. by eapply IH.
Qed.

Section Update.
Context (r : node_tree) (rs : list root) (z : loc) (Hok : tree_ok r rs z).
Context (k : nat) (x : root) (i : nat) (s' : list loc) (p : loc) (t' : tree).
Context (Hk : rs !! k = Some x).
Context (Hforest : forest t' (r_first x) (r_last x) (nodes_before rs k) (r_nodes x) (nodes_after rs k) z (r_depths x)
                     (<[i := s']> (r_lists x))).
Context (Hproxies : forall y, y ∉ cell p :: r_cells x -> proxies t' !! y = proxies (nt_tree r) !! y).
Context (Hnodes : forall m, m ∈ nodes_before rs k ++ nodes_after rs k ++ [z] -> nodes t' !! m = nodes (nt_tree r) !! m).
Context (Hcells : forall q, q ∈ concat (<[i := s']> (r_lists x)) -> q ∈ concat (r_lists x) \/ q = cell p).
Context (Hfresh : forall k' x', rs !! k' = Some x' -> cell p ∈ r_cells x' -> k' = k).

Lemma update_cells q : q ∈ r_cells (set_list i s' x) -> q ∈ cell p :: r_cells x.
Proof using Hcells.
  unfold r_cells. cbn [set_list r_first r_last r_lists]. rewrite !elem_of_cons, !elem_of_app, list_elem_of_singleton.
  intros [-> | [H | ->]]; [naive_solver | | naive_solver]. apply Hcells in H. naive_solver.
Qed.

(** The cells of another root are not touched. *)
Lemma update_other k' y q :
  rs !! k' = Some y -> k' <> k -> q ∈ r_cells y -> q ∉ cell p :: r_cells x.
Proof using Hok Hk Hfresh.
  intros Hy Hne Hq [-> | Hx]%elem_of_cons; [by apply Hne, (Hfresh k' y) |]. apply Hne.
  by eapply (tk_disjoint r rs z Hok k' k y x q).
Qed.

Lemma update_forest k' y :
  rs !! k' = Some y -> k' <> k ->
  forest t' (r_first y) (r_last y) (nodes_before rs k') (r_nodes y) (nodes_after rs k') z (r_depths y) (r_lists y).
Proof using Hok Hk Hforest Hproxies Hnodes Hcells Hfresh.
  intros Hy Hne. pose proof (tk_forest r rs z Hok k' y Hy) as Fy.
  pose proof (nodes_split rs k x Hk) as Ex. pose proof (nodes_split rs k' y Hy) as Ey.
  assert (forall m, m ∈ nodes_before rs k' ++ nodes_after rs k' ++ [z] \/ m ∈ r_nodes y ->
    m ∈ r_nodes x \/ m ∈ nodes_before rs k ++ nodes_after rs k ++ [z]) as Hcase.
  { intros m Hm. assert (m ∈ concat (r_nodes <$> rs) \/ m = z) as H.
    { rewrite <- Ey. rewrite !elem_of_app, list_elem_of_singleton in *. tauto. }
    rewrite <- Ex in H. rewrite !elem_of_app, list_elem_of_singleton in *. tauto. }
  assert (forall m, m ∈ r_nodes y -> m ∉ r_nodes x) as Hapart.
  { intros m Hm Hx. pose proof (forest_nodes _ _ _ _ _ _ _ _ _ Fy) as Hnd. rewrite !app_assoc in Hnd.
    apply list.NoDup_app in Hnd as (Hnd & _ & _). rewrite <- app_assoc, Ey in Hnd.
    assert ((r_nodes <$> rs) !! k = Some (r_nodes x)) as E1 by by rewrite list_lookup_fmap, Hk.
    assert ((r_nodes <$> rs) !! k' = Some (r_nodes y)) as E2 by by rewrite list_lookup_fmap, Hy.
    apply Hne. by eapply (concat_disjoint (r_nodes <$> rs)). }
  eapply (forest_frame (nt_tree r)); [exact Fy | | | | |].
  - rewrite Ey, <- Ex. apply (forest_back _ _ _ _ _ _ _ _ _ Hforest).
  - rewrite Ey, <- Ex. apply (forest_forth _ _ _ _ _ _ _ _ _ Hforest).
  - intros q Hq. apply Hproxies. by eapply update_other.
  - intros m Hm. destruct (Hcase m (or_intror Hm)) as [H | H]; [by apply Hapart in H | by apply Hnodes].
  - intros m x0 l Hm Hx0 Hl. destruct (Hcase m (or_introl Hm)) as [H | H].
    + apply list_elem_of_lookup in H as [j Hj].
      assert (is_Some (<[i := s']> (r_lists x) !! j)) as [s Hs].
      { apply lookup_lt_is_Some. rewrite <- (forest_length _ _ _ _ _ _ _ _ _ Hforest). by eapply lookup_lt_Some. }
      destruct (forest_marks _ _ _ _ _ _ _ _ _ Hforest j m s Hj Hs) as (x1 & Hx1 & Hm1 & _). simplify_eq.
      pose proof (fun H => update_other k' y l Hy Hne Hl (update_cells l (marks_cells _ _ _ _ _ _ l Hm1 H))) as Hno.
      naive_solver.
    + rewrite (Hnodes m H) in Hx0. by eapply (forest_apart _ _ _ _ _ _ _ _ _ Fy).
Qed.

Lemma update_ok : tree_ok (NodeTree t' (nt_names r)) (<[k := set_list i s' x]> rs) z.
Proof using Hok Hk Hforest Hproxies Hnodes Hcells Hfresh.
  set (x' := set_list i s' x).
  assert (forall j y, <[k := x']> rs !! j = Some y -> (j = k /\ y = x') \/ (j <> k /\ rs !! j = Some y)) as Hcase.
  { intros j y [(<- & <- & _) | [H1 H2]]%list_lookup_insert_Some; auto. }
  assert (r_nodes <$> <[k := x']> rs = r_nodes <$> rs) as En by by eapply nodes_same.
  pose proof Hok as [K1 K2 K3 K4 K5 K6 K7 K8 K9].
  constructor; unfold nodes_before, nodes_after; rewrite ?En; cbn [nt_tree nt_names].
  - intros j y [[-> ->] | [Hj Hy]]%Hcase; [exact Hforest | by apply update_forest].
  - intros j y i0 [[-> ->] | [Hj Hy]]%Hcase; [exact (K2 k x i0 Hk) | by eapply K2].
  - intros j y q [[-> ->] | [Hj Hy]]%Hcase Hq; [|by eapply K3]. apply Hcells in Hq as [Hq | ->]; [by eapply K3 | eauto].
  - intros j y q [[-> ->] | [Hj Hy]]%Hcase; [exact (K4 k x q Hk) | by eapply K4].
  - intros j j' y y' q [[-> ->] | [Hj Hy]]%Hcase [[-> ->] | [Hj' Hy']]%Hcase Hq Hq'; [done | | | by eapply K5].
    + by destruct (update_other j' y' q Hy' Hj' Hq' (update_cells q Hq)).
    + by destruct (update_other j y q Hy Hj Hq (update_cells q Hq')).
  - intros x0. rewrite Hnodes; [by apply K6 | set_solver].
  - intros n nd Hn. destruct (K7 n nd Hn) as (j & y & i0 & Hj & Hi0). destruct (decide (j = k)) as [-> | Hjk].
    + exists k, x', i0. rewrite list_lookup_insert_eq by by eapply lookup_lt_Some. split; [done |]. simplify_eq. done.
    + exists j, y, i0. by rewrite list_lookup_insert_ne.
  - intros j y i0 nd [[-> ->] | [Hj Hy]]%Hcase Hi0; by eapply K8.
  - exact K9.
Qed.
End Update.

(** ** Membership *)

Section Members.
Context (r : node_tree) (rs : list root) (z : loc) (Hok : tree_ok r rs z).

Lemma members_of n nd k x i s p :
  nt_names r !! n = Some nd -> rs !! k = Some x -> r_nodes x !! i = Some nd -> r_lists x !! i = Some s ->
  nt_in r n p <-> cell p ∈ s.
Proof using Hok.
  intros Hn Hk Hi Hs. unfold nt_in. rewrite Hn.
  rewrite (elements_covered _ _ _ _ _ _ _ _ _ (tk_forest r rs z Hok k x Hk) true i nd Hi), (covered_one _ _ _ _ Hs).
  naive_solver.
Qed.

Lemma unnamed_empty n p : nt_names r !! n = None -> ~ nt_in r n p.
Proof. intros Hn (ls & H & _). rewrite Hn in H. done. Qed.

Lemma list_of k x i nd : rs !! k = Some x -> r_nodes x !! i = Some nd -> exists s, r_lists x !! i = Some s.
Proof using Hok.
  intros Hk Hi. apply lookup_lt_is_Some.
  rewrite <- (forest_length _ _ _ _ _ _ _ _ _ (tk_forest r rs z Hok k x Hk)). by eapply lookup_lt_Some.
Qed.

(** A proxy of a root is a member of one of its classes. *)
Lemma cell_member k x p : rs !! k = Some x -> cell p ∈ r_cells x -> exists n, nt_in r n p.
Proof using Hok.
  intros Hk. destruct (tk_sentinels r rs z Hok k x p Hk) as [S1 S2]. unfold r_cells.
  rewrite elem_of_cons, elem_of_app, list_elem_of_singleton. intros [H | [H | H]]; [congruence | | congruence].
  apply list_elem_of_In, in_concat in H as (s & Hs & Hp). apply list_elem_of_In in Hs, Hp.
  apply list_elem_of_lookup in Hs as [i Hs].
  assert (is_Some (r_nodes x !! i)) as [nd Hi].
  { apply lookup_lt_is_Some. rewrite (forest_length _ _ _ _ _ _ _ _ _ (tk_forest r rs z Hok k x Hk)). by eapply lookup_lt_Some. }
  destruct (tk_named r rs z Hok k x i nd Hk Hi) as [n Hn]. exists n. by eapply members_of.
Qed.
End Members.


(** After the list of class [n] became [s'], the other classes have the same
    members. *)
Lemma members_updated r rs z k x i s s' n nd t' m q :
  tree_ok r rs z -> tree_ok (NodeTree t' (nt_names r)) (<[k := set_list i s' x]> rs) z ->
  nt_names r !! n = Some nd -> rs !! k = Some x -> r_nodes x !! i = Some nd -> r_lists x !! i = Some s ->
  nt_in (NodeTree t' (nt_names r)) m q <-> (m = n /\ cell q ∈ s') \/ (m <> n /\ nt_in r m q).
Proof.
  intros Hok Hok' Hn Hk Hi Hs. set (x' := set_list i s' x) in *.
  assert (<[k := x']> rs !! k = Some x') as Hk' by (apply list_lookup_insert_eq; by eapply lookup_lt_Some).
  assert (r_lists x' !! i = Some s') as Hs' by (apply list_lookup_insert_eq; by eapply lookup_lt_Some).
  destruct (decide (m = n)) as [-> | Hm].
  { rewrite (members_of _ _ _ Hok' n nd k x' i s' q Hn Hk' Hi Hs'). naive_solver. }
  destruct (nt_names r !! m) as [nd'|] eqn:Em.
  - destruct (tk_names r rs z Hok m nd' Em) as (j & y & i' & Hj & Hi').
    destruct (list_of r rs z Hok j y i' nd' Hj Hi') as [sy Hsy].
    rewrite (members_of _ _ _ Hok m nd' j y i' sy q Em Hj Hi' Hsy).
    assert (nt_in (NodeTree t' (nt_names r)) m q <-> cell q ∈ sy) as ->; [|naive_solver].
    destruct (decide (j = k)) as [-> | Hjk].
    + simplify_eq. assert (i' <> i) as Hii by (intros ->; apply Hm; simplify_eq; by eapply (tk_inj r rs z Hok)).
      apply (members_of _ _ _ Hok' m nd' k x' i' sy q Em Hk' Hi'). cbn. by rewrite list_lookup_insert_ne.
    + apply (members_of _ _ _ Hok' m nd' j y i' sy q Em); [by rewrite list_lookup_insert_ne | done | done].
  - split; [intros H; by apply (unnamed_empty (NodeTree t' (nt_names r)) m q Em) in H |].
    intros [[-> _] | [_ H]]; [done |]. by apply (unnamed_empty r m q Em) in H.
Qed.

(** ** The operations *)

Lemma elem_of_concat_insert (L : list (list loc)) i s s' q :
  L !! i = Some s -> q ∈ concat (<[i := s']> L) -> q ∈ concat L \/ q ∈ s'.
Proof.
  intros Hs Hq. apply list_elem_of_In, in_concat in Hq as (l & Hl & Hq). apply list_elem_of_In in Hl, Hq.
  apply list_elem_of_lookup in Hl as [j Hj]. apply list_lookup_insert_Some in Hj as [(<- & -> & _) | [_ Hj]]; [by right |].
  left. apply list_elem_of_In, in_concat. exists l. split; apply list_elem_of_In; [by eapply list_elem_of_lookup_2 | done].
Qed.

Lemma elem_of_concat_lookup (L : list (list loc)) i s q : L !! i = Some s -> q ∈ s -> q ∈ concat L.
Proof.
  intros Hs Hq. apply list_elem_of_In, in_concat. exists s. split; apply list_elem_of_In; [by eapply list_elem_of_lookup_2 | done].
Qed.

Lemma cells_decode (s : list loc) : (forall q, q ∈ s -> exists p, q = cell p) -> exists l : list loc, s = cell <$> l.
Proof.
  induction s as [|q s IH]; intros H; [by exists [] |]. destruct (H q) as [p ->]; [left |].
  destruct IH as [l ->]; [intros; apply H; by right |]. by exists (p :: l).
Qed.

Lemma list_nodup r rs z k x i s : tree_ok r rs z -> rs !! k = Some x -> r_lists x !! i = Some s -> NoDup s.
Proof.
  intros Hok Hk Hs. pose proof (forest_nodup _ _ _ _ _ _ _ _ _ (tk_forest r rs z Hok k x Hk)) as Hnd.
  apply list.NoDup_cons in Hnd as [_ Hnd]. apply list.NoDup_app in Hnd as (Hnd & _ & _).
  rewrite <- (take_drop_middle _ _ _ Hs), concat_app in Hnd. cbn [concat] in Hnd.
  apply list.NoDup_app in Hnd as (_ & _ & Hnd). by apply list.NoDup_app in Hnd as (? & _).
Qed.

(** The nodes around those of a root belong to other roots. *)
Lemma nodes_around (rs : list root) (k : nat) z m :
  m ∈ nodes_before rs k ++ nodes_after rs k ++ [z] -> m = z \/ exists k' y, rs !! k' = Some y /\ m ∈ r_nodes y.
Proof.
  assert (forall j, m ∈ concat (take j (r_nodes <$> rs)) \/ m ∈ concat (drop j (r_nodes <$> rs)) ->
    exists k' y, rs !! k' = Some y /\ m ∈ r_nodes y) as H.
  { intros j Hm. assert (m ∈ concat (r_nodes <$> rs)) as H.
    { rewrite <- (take_drop j (r_nodes <$> rs)), concat_app. set_solver. }
    apply list_elem_of_In, in_concat in H as (l & Hl & Hml). apply list_elem_of_In in Hl, Hml.
    apply list_elem_of_fmap in Hl as (y & -> & Hy). apply list_elem_of_lookup in Hy as [k' Hk']. eauto. }
  unfold nodes_before, nodes_after. rewrite !elem_of_app, list_elem_of_singleton. intros [Hm | [Hm | ->]]; [right | right | by left].
  - apply (H k). by left.
  - apply (H (S k)). by right.
Qed.

(** No node points to a cell that is in no list. *)
Lemma pointers_known r rs z k x m nx p :
  tree_ok r rs z -> rs !! k = Some x -> m ∈ nodes_before rs k ++ nodes_after rs k ++ [z] ->
  nodes (nt_tree r) !! m = Some nx -> (forall k' y, rs !! k' = Some y -> cell p ∉ r_cells y) ->
  op_first nx <> Some (cell p) /\ op_marker nx <> Some (cell p) /\ op_last nx <> Some (cell p).
Proof.
  intros Hok Hk Hm Hx Hout. destruct (nodes_around rs k z m Hm) as [-> | (k' & y & Hy & Hmy)].
  - destruct (tk_last r rs z Hok nx Hx) as (-> & -> & ->). done.
  - apply list_elem_of_lookup in Hmy as [j Hj]. destruct (list_of r rs z Hok k' y j m Hy Hj) as [s Hs].
    destruct (forest_marks _ _ _ _ _ _ _ _ _ (tk_forest r rs z Hok k' y Hy) j m s Hj Hs) as (x1 & Hx1 & Hm1 & _). simplify_eq.
    pose proof (fun H => Hout k' y Hy (marks_cells _ _ _ _ _ _ (cell p) Hm1 H)) as Hno. naive_solver.
Qed.

Lemma nt_insert_spec r n p key :
  (exists rs z, tree_ok r rs z) -> is_Some (nt_names r !! n) -> (forall m, ~ nt_in r m p) ->
  (forall l, NoDup l -> (forall q, q ∈ l -> nt_in r n q) -> (Z.of_nat (length l) + 1 < 2 ^ 64)%Z) ->
  exists r', nt_insert n p key r = Ok r' /\ (exists rs z, tree_ok r' rs z)
    /\ (forall m q, nt_in r' m q <-> nt_in r m q \/ (m = n /\ q = p))
    /\ (forall m, is_Some (nt_names r' !! m) <-> is_Some (nt_names r !! m)).
Proof.
  intros (rs & z & Hok) [nd Hn] Hfree Hroom. destruct (tk_names r rs z Hok n nd Hn) as (k & x & i & Hk & Hi).
  destruct (list_of r rs z Hok k x i nd Hk Hi) as [s Hs]. pose proof (tk_forest r rs z Hok k x Hk) as F.
  assert (forall k' y, rs !! k' = Some y -> cell p ∉ r_cells y) as Hout.
  { intros k' y Hy Hp. destruct (cell_member r rs z Hok k' y p Hy Hp) as [m Hm]. by apply (Hfree m). }
  set (t0 := Tree (<[cell p := set_pk_ key proxy0]> (proxies (nt_tree r))) (nodes (nt_tree r))).
  assert (forall k' y, rs !! k' = Some y ->
    forest t0 (r_first y) (r_last y) (nodes_before rs k') (r_nodes y) (nodes_after rs k') z (r_depths y) (r_lists y)) as F0.
  { intros k' y Hy. pose proof (tk_forest r rs z Hok k' y Hy) as Fy. eapply (forest_frame (nt_tree r)); [exact Fy | | | | done |].
    - apply (forest_back _ _ _ _ _ _ _ _ _ Fy).
    - apply (forest_forth _ _ _ _ _ _ _ _ _ Fy).
    - intros q Hq. cbn. rewrite lookup_insert_ne; [done |]. intros <-. by apply (Hout k' y Hy).
    - apply (forest_apart _ _ _ _ _ _ _ _ _ Fy). }
  destruct (insert_spec t0 (r_first x) (r_last x) (nodes_before rs k) (r_nodes x) (nodes_after rs k) z (r_depths x) (r_lists x)
              i nd s (cell p) (set_pk_ key proxy0) (F0 k x Hk) Hi Hs) as (t' & E & F' & Hpr & Hno & _).
  - by eapply (tk_shallow r rs z Hok).
  - destruct (cells_decode s) as [l El].
    { intros q Hq. eapply (tk_cells r rs z Hok k x q Hk). by eapply elem_of_concat_lookup. }
    rewrite El, length_fmap. apply Hroom.
    + apply (NoDup_fmap_1 cell). rewrite <- El. by eapply list_nodup.
    + intros q Hq. rewrite (members_of r rs z Hok n nd k x i s q Hn Hk Hi Hs), El. by apply list_elem_of_fmap_2.
  - by eapply Hout.
  - apply lookup_insert_eq.
  - intros m nx Hm Hx. by eapply pointers_known.
  - assert (tree_ok (NodeTree t' (nt_names r)) (<[k := set_list i (place (cell p) s) x]> rs) z) as Hok'.
    { apply (update_ok r rs z Hok k x i _ p t' Hk F').
      - intros y Hy. rewrite Hpr by done. cbn. rewrite lookup_insert_ne; [done |]. intros <-. apply Hy. left.
      - exact Hno.
      - intros q Hq. destruct (elem_of_concat_insert _ _ _ _ _ Hs Hq) as [H | H]; [by left |].
        rewrite place_Permutation in H. apply elem_of_cons in H as [-> | H]; [by right |].
        left. by eapply elem_of_concat_lookup.
      - intros k' y Hy Hp. by destruct (Hout k' y Hy Hp). }
    exists (NodeTree t' (nt_names r)). split_and!.
    + unfold nt_insert. rewrite Hn. fold t0. by rewrite E.
    + eauto.
    + intros m q. rewrite (members_updated r rs z k x i s _ n nd t' m q Hok Hok' Hn Hk Hi Hs).
      rewrite place_Permutation, elem_of_cons. pose proof (members_of r rs z Hok n nd k x i s q Hn Hk Hi Hs) as Hm.
      destruct (decide (m = n)) as [-> | ]; [|naive_solver]. rewrite Hm. split; [|naive_solver].
      intros [[_ [->%(inj cell) | H]] | [H _]]; [by right | by left | done].
    + done.
Qed.

Lemma nt_remove_spec r n p :
  (exists rs z, tree_ok r rs z) -> nt_in r n p -> (forall l, NoDup l -> (forall q, q ∈ l -> nt_in r n q) -> (Z.of_nat (length l) < 2 ^ 64)%Z) ->
  exists r', nt_remove n p r = Ok r' /\ (exists rs z, tree_ok r' rs z)
    /\ (forall m q, nt_in r' m q <-> nt_in r m q /\ ~ (m = n /\ q = p))
    /\ (forall m, is_Some (nt_names r' !! m) <-> is_Some (nt_names r !! m)).
Proof.
  intros (rs & z & Hok) Hin Hroom.
  destruct (nt_names r !! n) as [nd|] eqn:Hn; [|by apply unnamed_empty in Hin].
  destruct (tk_names r rs z Hok n nd Hn) as (k & x & i & Hk & Hi).
  destruct (list_of r rs z Hok k x i nd Hk Hi) as [s Hs]. pose proof (tk_forest r rs z Hok k x Hk) as F.
  pose proof (fun q => members_of r rs z Hok n nd k x i s q Hn Hk Hi Hs) as Hmem.
  pose proof Hin as Hp. rewrite Hmem in Hp. apply list_elem_of_split in Hp as (s1 & s2 & ->).
  assert (NoDup (s1 ++ cell p :: s2)) as Hnd by by eapply list_nodup.
  destruct (remove_spec (nt_tree r) (r_first x) (r_last x) (nodes_before rs k) (r_nodes x) (nodes_after rs k) z (r_depths x)
              (r_lists x) i nd s1 (cell p) s2 F Hi Hs) as (t' & E & F' & Hpr & Hno).
  - by eapply (tk_shallow r rs z Hok).
  - destruct (cells_decode (s1 ++ cell p :: s2)) as [l El].
    { intros q Hq. eapply (tk_cells r rs z Hok k x q Hk). by eapply elem_of_concat_lookup. }
    rewrite El, length_fmap. apply Hroom.
    + apply (NoDup_fmap_1 cell). by rewrite <- El.
    + intros q Hq. rewrite Hmem, El. by apply list_elem_of_fmap_2.
  - assert (cell p ∈ r_cells x) as Hpx.
    { unfold r_cells. assert (cell p ∈ concat (r_lists x)) by (eapply elem_of_concat_lookup; [exact Hs | set_solver]). set_solver. }
    assert (tree_ok (NodeTree t' (nt_names r)) (<[k := set_list i (s1 ++ s2) x]> rs) z) as Hok'.
    { apply (update_ok r rs z Hok k x i _ p t' Hk F').
      - intros y Hy. apply Hpr. intros Hy'. apply Hy. by right.
      - exact Hno.
      - intros q Hq. destruct (elem_of_concat_insert _ _ _ _ _ Hs Hq) as [H | H]; [by left |].
        left. eapply elem_of_concat_lookup; [exact Hs |]. set_solver.
      - intros k' y Hy Hpy. by eapply (tk_disjoint r rs z Hok k' k y x (cell p)). }
    exists (NodeTree t' (nt_names r)). split_and!.
    + unfold nt_remove. by rewrite Hn, E.
    + eauto.
    + intros m q. rewrite (members_updated r rs z k x i _ _ n nd t' m q Hok Hok' Hn Hk Hi Hs).
      destruct (decide (m = n)) as [-> | ]; [|naive_solver]. rewrite Hmem.
      apply list.NoDup_app in Hnd as (_ & Hd & Hnd). apply list.NoDup_cons in Hnd as [Hd2 _].
      rewrite !elem_of_app, elem_of_cons. split.
      * intros [[_ Hq] | [? _]]; [|done]. split; [tauto |]. intros [_ ->]. destruct Hq as [Hq | Hq]; [|done].
        apply (Hd _ Hq). left.
      * intros [[Hq | [->%(inj cell) | Hq]] Hne]; [by left; auto | by destruct Hne | by left; auto].
    + done.
Qed.

(** The interface of the store, implemented by prototype trees. *)
#[export] Instance node_tree_lists : ObjectStore.NodeLists node_tree := {
  ObjectStore.nl_insert := nt_insert;
  ObjectStore.nl_remove := nt_remove;
  ObjectStore.nl_ok r := exists rs z, tree_ok r rs z;
  ObjectStore.nl_node r n := is_Some (nt_names r !! n);
  ObjectStore.nl_in := nt_in;
  ObjectStore.nl_insert_spec := nt_insert_spec;
  ObjectStore.nl_remove_spec := nt_remove_spec }.

(** ** The views of a store *)

Section Views.
Context {B : Type} `{!ByteQueue B}.
Abbreviation store := (ObjectStore.object_store (B := B) (R := node_tree)).

(** The view of every class goes exactly through the objects of that class that
    the store holds, each once. *)
Definition shown (s : store) : Prop :=
  forall cls n, ObjectStore.find_prototype_node cls s = Ok (Some n) ->
  exists ls, elements (nt_tree (ObjectStore.node_lists s)) (View true (nt_names (ObjectStore.node_lists s) !! n))
      = Ok (cell <$> ls)
    /\ NoDup ls
    /\ (forall p, p ∈ ls <-> exists i cls' o, ObjectStore.object_map_ s !! i = Some p
          /\ ObjectStore.view s !! i = Some (cls', o) /\ ObjectStore.find_prototype_node cls' s = Ok (Some n)).

Lemma store_shown (s : store) : ObjectStore.store_ok s -> shown s.
Proof.
  intros Hs cls n Hf. destruct (ObjectStore.ok_lists s Hs) as (rs & z & Hok).
  destruct (ObjectStore.ok_node s Hs cls n Hf) as [nd Hn].
  destruct (tk_names _ _ _ Hok n nd Hn) as (k & x & i & Hk & Hi). destruct (list_of _ _ _ Hok k x i nd Hk Hi) as [l Hl].
  destruct (cells_decode l) as [ls ->].
  { intros q Hq. eapply (tk_cells _ _ _ Hok k x q Hk). by eapply elem_of_concat_lookup. }
  exists ls. rewrite Hn, (elements_covered _ _ _ _ _ _ _ _ _ (tk_forest _ _ _ Hok k x Hk) true i nd Hi), (covered_one _ _ _ _ Hl).
  split_and!; [done | apply (NoDup_fmap_1 cell); by eapply list_nodup |]. intros p.
  assert (p ∈ ls <-> nt_in (ObjectStore.node_lists s) n p) as ->.
  { rewrite (members_of _ _ _ Hok n nd k x i _ p Hn Hk Hi Hl). by rewrite (list_elem_of_fmap_inj cell). }
  split.
  - intros Hp. destruct (ObjectStore.ok_member s Hs n p Hp) as (j & y & Hj & Hy & Hnode).
    destruct (ObjectStore.ok_object s Hs j p Hj) as (y' & o & n' & Hy' & _ & Ho & _ & Hn' & Hf' & _).
    assert (y' = y) as -> by congruence. assert (n' = n) as -> by congruence.
    exists j, (Transaction.classname y), o. split_and!; [done | | done].
    rewrite ObjectStore.lookup_view, Hj. unfold ObjectStore.object_at. by rewrite Hy, Ho.
  - intros (j & cls' & o & Hj & Hv & Hf').
    destruct (ObjectStore.ok_object s Hs j p Hj) as (y & o' & n' & Hy & _ & Ho & _ & _ & Hfy & Hin & _).
    rewrite ObjectStore.lookup_view, Hj in Hv. unfold ObjectStore.object_at in Hv. rewrite Hy, Ho in Hv. simplify_eq. assert (n' = n) as -> by congruence. exact Hin.
Qed.

(** A store to which classes were attached and nothing else happened. *)
Record new_store (s : store) : Prop := {
  new_tree : exists rs z, tree_ok (ObjectStore.node_lists s) rs z /\ forall k x, rs !! k = Some x -> concat (r_lists x) = [];
  new_nodes : forall cls n, ObjectStore.find_prototype_node cls s = Ok (Some n) -> is_Some (nt_names (ObjectStore.node_lists s) !! n);
  new_objects : ObjectStore.object_map_ s = ∅;
  new_seq : ObjectStore.seq_ s = 0%Z }.

Lemma new_store_ok s : new_store s -> ObjectStore.store_ok s.
Proof.
  intros [(rs & z & Hok & He) Hn Ho Hq]. constructor.
  - by exists rs, z.
  - intros i p. by rewrite Ho, lookup_empty.
  - intros n p Hin. exfalso. cbn in Hin. destruct (nt_names (ObjectStore.node_lists s) !! n) as [nd|] eqn:En; [|by apply unnamed_empty in Hin].
    destruct (tk_names _ _ _ Hok n nd En) as (k & x & i & Hk & Hi). destruct (list_of _ _ _ Hok k x i nd Hk Hi) as [l Hl].
    rewrite (members_of _ _ _ Hok n nd k x i l p En Hk Hi Hl) in Hin. apply (elem_of_concat_lookup _ _ _ _ Hl) in Hin.
    rewrite (He k x Hk) in Hin. by apply elem_of_nil in Hin.
  - exact Hn.
  - rewrite Hq. done.
Qed.

(** A transaction that is committed or rolled back. *)
Definition transacted (make_object : str -> object) (s s2 : store) : Prop :=
  exists t s1, ObjectStore.tdata s !! t = Some Transaction.tdata0
    /\ rtc (ObjectStore.tx_step (ObjectStore.view s)) (ObjectStore.begin_ t s) s1
    /\ (ObjectStore.commit t s1 = Ok s2 \/ ObjectStore.rollback make_object t s1 = Ok s2).

Lemma transacted_ok make_object s s2 : transacted make_object s s2 -> ObjectStore.store_ok s -> ObjectStore.store_ok s2.
Proof.
  intros (t & s1 & Ht & Hs1 & He) Hs. destruct (ObjectStore.tx_inv_steps make_object _ t (ObjectStore.transactions_ s) _ _ Hs1) as (td & us & Hi);
    [by eexists _, _; apply ObjectStore.tx_inv_begin |].
  destruct He as [E | E].
  - destruct (ObjectStore.commit_spec _ _ _ _ _ _ Hi) as (s' & E' & _ & Hs' & _). congruence.
  - destruct (ObjectStore.rollback_spec make_object _ _ _ _ _ _ Hi) as (s' & E' & _ & Hs' & _). congruence.
Qed.

(** C23: The views follow the store. Take a new store whose lists are the
    linked lists of the prototype tree, and any number of transactions, each
    committed or rolled back, then one more that is open: at every point of
    it, after its commit and after its rollback the view of every class,
    walking the linked list between the markers of its node, goes exactly
    through the objects of that class that the store holds, each once. The
    transactions insert, change and remove objects without references and
    [char] arrays; an object is not removed in the transaction that inserted
    it ([ObjectStore.stale_action_index]); the depths of the nodes are such
    that what lies above a node and is shallower is an ancestor
    ([PrototypeTree.insert_misses_uncle]). *)
Theorem views_follow_store make_object s0 s t s1 :
  new_store s0 -> rtc (transacted make_object) s0 s ->
  ObjectStore.tdata s !! t = Some Transaction.tdata0 ->
  rtc (ObjectStore.tx_step (ObjectStore.view s)) (ObjectStore.begin_ t s) s1 ->
  shown s1
  /\ (exists s2, ObjectStore.commit t s1 = Ok s2 /\ shown s2)
  /\ (exists s2, ObjectStore.rollback make_object t s1 = Ok s2 /\ shown s2).
Proof.
  intros Hs%new_store_ok Hrun Ht Hs1.
  assert (ObjectStore.store_ok s) as Hok by (induction Hrun; eauto using transacted_ok).
  destruct (ObjectStore.tx_inv_steps make_object _ t (ObjectStore.transactions_ s) _ _ Hs1) as (td & us & Hi); [by eexists _, _; apply ObjectStore.tx_inv_begin |].
  destruct (ObjectStore.commit_spec _ _ _ _ _ _ Hi) as (s2 & E2 & _ & Hs2 & _).
  destruct (ObjectStore.rollback_spec make_object _ _ _ _ _ _ Hi) as (s3 & E3 & _ & Hs3 & _).
  split; [apply store_shown, (ObjectStore.tx_store _ _ _ _ _ _ Hi) |].
  split; [exists s2 | exists s3]; split; [done | by apply store_shown | done | by apply store_shown].
Qed.
End Views.

(** ** A store with two classes *)

(** A tree in which the sentinels lie in the even cells. *)
Definition even_cells (t : tree) : tree :=
  let d (l : loc) := 2 * l in
  Tree (kmap d ((fun p => set_prev_ (d <$> prev_ p) (set_next_ (d <$> next_ p) p)) <$> proxies t))
    ((fun n => set_markers (d <$> op_first n) (d <$> op_marker n) (d <$> op_last n) n) <$> nodes t).

Definition two_classes : tree :=
  match (let '(a, t) := make_node (lit "person") (lit "6person") false empty_tree in
         let? t := append (Some 0) (Some a) t in
         let '(b, t) := make_node (lit "planet") (lit "6planet") false t in
         append (Some a) (Some b) t) with
  | Ok t => even_cells t
  | Throw _ => empty_tree
  end.
Definition two_names : gmap str loc := {[ lit "person" := 4; lit "planet" := 7 ]}.
Definition two_roots : list root := [Root 0 2 [4] [0%Z] [[]]; Root 4 6 [7] [0%Z] [[]]].
Definition two_nodes : node_tree := NodeTree two_classes two_names.

Lemma two_cases (P : nat -> root -> Prop) :
  P 0 (Root 0 2 [4] [0%Z] [[]]) -> P 1 (Root 4 6 [7] [0%Z] [[]]) -> forall k x, two_roots !! k = Some x -> P k x.
Proof. intros H0 H1 [|[|k]] x E; by simplify_eq/=. Qed.

Ltac walk_nodes :=
  repeat first [ lazymatch goal with |- exists _, _ => eexists; split; [vm_compute; reflexivity |] end
               | split; [reflexivity |]; split; [eexists; vm_compute; reflexivity |]
               | reflexivity ].

Lemma two_forest k x : two_roots !! k = Some x ->
  forest two_classes (r_first x) (r_last x) (nodes_before two_roots k) (r_nodes x) (nodes_after two_roots k) 1 (r_depths x) (r_lists x).
Proof.
  revert k x. apply two_cases; unfold nodes_before, nodes_after;
    cbn [two_roots take drop concat fmap list_fmap app r_first r_last r_nodes r_depths r_lists].
  all: constructor;
    [reflexivity | refine (bool_decide_eq_true_1 (NoDup _) _); vm_compute; reflexivity
    | intros [|a [|b A]] n B E; cbn in E; simplify_eq/=; [walk_nodes | walk_nodes | by destruct A]
    | intros [|a [|b A]] n B E; cbn in E; simplify_eq/=; [walk_nodes | walk_nodes | by destruct A]
    | vm_compute; auto
    | refine (bool_decide_eq_true_1 (NoDup _) _); vm_compute; reflexivity
    | intros [|[|i]] n s Hn Hs; simplify_eq/=; (eexists; split_and!; [vm_compute; reflexivity | | reflexivity]);
        constructor; vm_compute; reflexivity
    | intros m x l Hm Hx Hl; cbn in Hm, Hl;
      repeat (apply elem_of_cons in Hm as [-> | Hm]; [vm_compute in Hx; injection Hx as <-;
          repeat (apply elem_of_cons in Hl as [-> | Hl]; [done |]); by apply elem_of_nil in Hl |]);
      destruct (not_elem_of_nil _ Hm) ].
Qed.

Lemma two_ok : tree_ok two_nodes two_roots 1.
Proof.
  constructor; cbn [nt_tree nt_names two_nodes]; unfold two_names.
  - exact two_forest.
  - intros k x i Hk. revert k x Hk. apply two_cases; intros j dj di Hj _ Hi; destruct i; simplify_eq/=; lia.
  - intros k x q Hk. revert k x Hk. refine (two_cases (fun _ _ => _) _ _); cbn; intros []%not_elem_of_nil.
  - intros k x p Hk. revert k x Hk. refine (two_cases (fun _ _ => _) _ _); unfold cell; cbn; lia.
  - intros [|[|k]] [|[|k']] x x' q E E' H H'; simplify_eq/=; try done; set_solver.
  - intros x E. vm_compute in E. injection E as <-. done.
  - intros n nd [[<- <-] | [_ [<- <-]%lookup_singleton_Some]]%lookup_insert_Some; [exists 0 | exists 1]; eexists; exists 0; done.
  - intros k x i nd Hk. revert k x Hk. refine (two_cases (fun _ _ => _) _ _); destruct i as [|i]; intros E; simplify_eq/=; [exists (lit "person") | exists (lit "planet")]; reflexivity.
  - intros n m nd [[<- <-] | [_ [<- <-]%lookup_singleton_Some]]%lookup_insert_Some
      [[<- ?] | [_ [<- ?]%lookup_singleton_Some]]%lookup_insert_Some; congruence.
Qed.

(** A new store with these classes. *)
Abbreviation tree_store := (ObjectStore.object_store (B := byte_buffer) (R := node_tree)).
Definition two_store : tree_store :=
  ObjectStore.Store {[ lit "person"; lit "planet" ]} ∅ two_nodes ∅ ∅ 0 [] {[ 7%Z := Transaction.tdata0 ]}.

Lemma two_store_new : new_store two_store.
Proof.
  constructor; [| | done | done].
  - exists two_roots, 1. split; [exact two_ok |]. by apply two_cases.
  - intros cls n H. unfold ObjectStore.find_prototype_node in H. cbn in H. rewrite lookup_empty in H.
    case_bool_decide as Hc; simplify_eq. apply elem_of_union in Hc as [->%elem_of_singleton | ->%elem_of_singleton];
      vm_compute; eauto.
Qed.

(** A first transaction inserts a person and a planet and is committed, a
    second one removes the person. *)
Definition with_proxy (p : loc) (cls name : string) (s : tree_store) : tree_store :=
  ObjectStore.set_proxies
    (<[p := Transaction.Proxy (Some (ObjectStore.person name)) None (lit cls) 0 0 (ObjectStore.resolve (ObjectStore.person name))]>
      (ObjectStore.proxies s)) s.
Definition two_open : tree_store := ObjectStore.begin_ 7 two_store.
Definition two_person : tree_store := ok_or two_open (ObjectStore.insert 0 true (with_proxy 0 "person" "hans" two_open)).
Definition two_planet : tree_store := ok_or two_open (ObjectStore.insert 1 true (with_proxy 1 "planet" "mars" two_person)).
Definition two_committed : tree_store := ok_or two_open (ObjectStore.commit 7 two_planet).
Definition two_again : tree_store := ObjectStore.begin_ 7 two_committed.
Definition two_removed : tree_store := ok_or two_open (ObjectStore.remove 0 true two_again).

Lemma two_inserts : rtc (ObjectStore.tx_step (ObjectStore.view two_store)) two_open two_planet.
Proof.
  eapply rtc_l; [|eapply rtc_once].
  - apply (ObjectStore.ts_insert _ two_open 0 (lit "person") (ObjectStore.person "hans") two_person); [done | by apply ObjectStore.person_ok | done |].
    apply is_ok_or. vm_compute. reflexivity.
  - apply (ObjectStore.ts_insert _ two_person 1 (lit "planet") (ObjectStore.person "mars") two_planet);
      [vm_compute; reflexivity | by apply ObjectStore.person_ok | vm_compute; reflexivity |].
    apply is_ok_or. vm_compute. reflexivity.
Qed.

Lemma two_removes : rtc (ObjectStore.tx_step (ObjectStore.view two_committed)) two_again two_removed.
Proof.
  apply rtc_once, (ObjectStore.ts_delete _ two_again 1 0 true two_removed).
  - vm_compute. reflexivity.
  - eexists. vm_compute. reflexivity.
  - apply is_ok_or. vm_compute. reflexivity.
Qed.

Abbreviation view_of cls s := (elements (nt_tree (ObjectStore.node_lists s)) (View true (nt_names (ObjectStore.node_lists s) !! lit cls))).
Lemma views_follow_store_witness :
  view_of "person" two_committed = Ok [cell 0] /\ view_of "planet" two_committed = Ok [cell 1]
  /\ view_of "person" two_removed = Ok [] /\ view_of "planet" two_removed = Ok [cell 1]
  /\ shown two_removed
  /\ exists s2, ObjectStore.rollback (fun _ => []) 7 two_removed = Ok s2 /\ shown s2.
Proof.
  destruct (views_follow_store (fun _ => []) two_store two_committed 7 two_removed) as (H1 & _ & H2).
  - exact two_store_new.
  - apply rtc_once. exists 7%Z, two_planet. split; [done |]. split; [exact two_inserts |]. left.
    apply is_ok_or. vm_compute. reflexivity.
  - vm_compute. reflexivity.
  - exact two_removes.
  - split_and!; [vm_compute; reflexivity.. | exact H1 | exact H2].
Defined.

End StoreTree.
