(* ===== verification/Relations.v ===== *)
(** * Relations between objects

    Model of the pointers and containers that objects refer to each other
    with, and of the endpoints that keep both ends of a relation in step:
    [object_holder] (src/object/object_holder.cpp), [container] with its item
    holders (include/matador/object/container.hpp, abstract_has_many.cpp) and
    the endpoints [from_one_endpoint], [many_to_one_endpoint] and
    [belongs_to_many_endpoint] (include/matador/object/relation_field_endpoint.hpp,
    relation_endpoint.cpp) with the visitors that insert a value into and
    remove it from a field of the other object.

    A class is the list of its relation fields; the visitors skip plain
    attributes. What a proxy has for relations lies in separate maps: whether
    it belongs to a store, its reference counter, and the pointer or container
    of every field. A proxy outside the store is deleted with the last pointer
    to it; here it stays, and nothing can reach it. Containers of builtin
    values and relations with a table of their own are not modelled.

    The theorems: assigning a pointer and changing a container keep both ends
    of every relation in step and the reference counters exact. *)

From S2P Require Import Prelude PrototypeTree.
Local Open Scope cxx_scope.

Module Relations.

Abbreviation loc := PrototypeTree.loc.
Abbreviation null_deref := PrototypeTree.null_deref.
Abbreviation deref := PrototypeTree.deref.

Inductive relation_type := BELONGS_TO | HAS_ONE | HAS_MANY.
#[export] Instance relation_type_eq_dec : EqDecision relation_type.
Proof. solve_decision. Defined.

(** [cascade_type], an enumeration of bits. *)
Definition NONE : Z := 0.
Definition REMOVE : Z := 1.
Definition UPDATE : Z := 2.
Definition INSERT : Z := 4.
Definition ALL : Z := Z.lor (Z.lor REMOVE UPDATE) INSERT.

(** A call [on_belongs_to(id, object_ptr<value>, cascade)] (or [on_has_one],
    [on_has_many]) of the function that describes a class. *)
Record field := Field { f_id : str; f_type : relation_type; f_value : str; f_cascade : Z }.

Inductive endpoint_kind := from_one (t : relation_type) | many_to_one | belongs_to_many.

(** An endpoint of class [e_node] for its field [e_field], which holds values
    of class [e_value]. *)
Record endpoint := Endpoint {
  e_kind : endpoint_kind;
  e_field : str;
  e_node : str;
  e_value : str;
  e_foreign : option nat }.

Record object_holder := Holder {
  proxy_ : option loc;
  owner_ : option loc;
  cascade_ : Z;
  is_inserted_ : bool;
  relation_info_ : option nat }.

Record item_holder := Item { value_ : option loc; item_inserted_ : bool; item_proxy_ : option loc }.

Record container := Container {
  items_ : list item_holder;
  ostore_ : bool;
  c_owner_ : option loc;
  c_relation_ : option nat }.

(** The field of an object. *)
Abbreviation key := (loc * nat)%type.

Record world := World {
  objects : gmap loc str;
  stored : gset loc;
  refs : gmap loc Z;
  holders : gmap key object_holder;
  containers : gmap key container;
  modified : list loc }.

Definition set_refs (r : gmap loc Z) (w : world) : world := World (objects w) (stored w) r (holders w) (containers w) (modified w).
Definition set_holders (h : gmap key object_holder) (w : world) : world := World (objects w) (stored w) (refs w) h (containers w) (modified w).
Definition set_containers (c : gmap key container) (w : world) : world := World (objects w) (stored w) (refs w) (holders w) c (modified w).
Definition set_modified (m : list loc) (w : world) : world := World (objects w) (stored w) (refs w) (holders w) (containers w) m.

(** ** Proxies *)

Definition count_by (d : Z) (p : option loc) (w : world) : result world :=
  match p with
  | None => null_deref
  | Some l => match refs w !! l with
              | None => null_deref
              | Some z => Ok (set_refs (<[l := u64 (z + d)]> (refs w)) w)
              end
  end.
Definition increment_reference_count := count_by 1.
Definition decrement_reference_count := count_by (-1).

Definition mark_modified (p : option loc) (w : world) : result world :=
  match p with
  | None => null_deref
  | Some l => Ok (if decide (l ∈ stored w) then set_modified (modified w ++ [l]) w else w)
  end.

(** ** Pointers *)

Definition holder_at (k : key) (w : world) : result object_holder :=
  match holders w !! k with Some h => Ok h | None => null_deref end.
Definition put (k : key) (h : object_holder) (w : world) : world := set_holders (<[k := h]> (holders w)) w.
Definition set_proxy (p : option loc) (c : Z) (h : object_holder) : object_holder :=
  Holder p (owner_ h) c (is_inserted_ h) (relation_info_ h).

Definition is_internal (p : option loc) (w : world) : bool :=
  match p with Some l => bool_decide (l ∈ stored w) | None => false end.

(** [object_holder::reset(proxy, cascade, notify)]; [leave] and [enter] stand
    for the calls of the relation. *)
Section Reset.
Context (leave enter : nat -> option loc -> option loc -> world -> result world).

Definition notify_relation (call : nat -> option loc -> option loc -> world -> result world)
    (h : object_holder) (notify : bool) (p : option loc) (w : world) : result world :=
  match relation_info_ h with
  | Some e => if notify then call e (owner_ h) p w else Ok w
  | None => Ok w
  end.

Definition reset_with (k : key) (p : option loc) (c : Z) (notify : bool) (w : world) : result world :=
  let? h := holder_at k w in
  if decide (proxy_ h = p) then Ok w
  else
    let? w :=
      if is_internal (proxy_ h) w && is_inserted_ h then
        let? w := decrement_reference_count (proxy_ h) w in notify_relation leave h notify (proxy_ h) w
      else Ok w in
    let? h := holder_at k w in
    let w := put k (set_proxy p c h) w in
    if is_internal p w && is_inserted_ h then
      let? w := increment_reference_count p w in notify_relation enter h notify p w
    else Ok w.
End Reset.

(** [reset(proxy, cascade, false)]. *)
Definition no_call (_ : nat) (_ _ : option loc) (w : world) : result world := Ok w.
Definition reset_quiet (k : key) (p : option loc) (c : Z) (w : world) : result world :=
  reset_with no_call no_call k p c false w.

(** ** What endpoints do to a container *)

Definition container_at (k : key) (w : world) : result container :=
  match containers w !! k with Some c => Ok c | None => null_deref end.
Definition set_items (its : list item_holder) (c : container) : container :=
  Container its (ostore_ c) (c_owner_ c) (c_relation_ c).
Definition put_items (k : key) (its : list item_holder) (c : container) (w : world) : world :=
  set_containers (<[k := set_items its c]> (containers w)) w.
Definition mark_inserted (b : bool) (x : item_holder) : item_holder := Item (value_ x) b (item_proxy_ x).
Definition set_has_many_item_proxy (p : option loc) (x : item_holder) : item_holder := Item (value_ x) (item_inserted_ x) p.

Definition count_valid (d : Z) (x : item_holder) (w : world) : result world :=
  match value_ x with Some _ => count_by d (value_ x) w | None => Ok w end.

(** [container::insert_holder]. *)
Definition insert_holder (k : key) (x : item_holder) (w : world) : result world :=
  let? w := count_valid 1 x w in
  let? c := container_at k w in
  Ok (put_items k (items_ c ++ [mark_inserted true x]) c w).

(** [container::remove_holder]; item holders are equal when their values are. *)
Definition remove_holder (k : key) (x : item_holder) (w : world) : result world :=
  let? c := container_at k w in
  if decide (value_ x ∈ value_ <$> items_ c) then
    let? w := count_valid (-1) x w in
    let? c := container_at k w in
    Ok (put_items k (filter (fun y => value_ y <> value_ x) (items_ c)) c w)
  else match item_proxy_ x with Some _ => Ok w | None => null_deref end.

(** ** Endpoints *)

(** A visitor runs over the fields of an object. *)
Fixpoint process (visit : nat -> field -> world -> result world) (i : nat) (fs : list field) (w : world) : result world :=
  match fs with
  | [] => Ok w
  | f :: fs => let? w := visit i f w in process visit (S i) fs w
  end.

Definition selected (value id : str) (f : field) : bool := bool_decide (f_value f = value) && bool_decide (f_id f = id).

Section Schema.
Context (layout : str -> list field) (endpoints : list endpoint).

Definition inserter_visit (ep : endpoint) (x : item_holder) (o : loc) (i : nat) (f : field) (w : world) : result world :=
  if selected (e_value ep) (e_field ep) f then
    match f_type f with
    | HAS_MANY => insert_holder (o, i) x w
    | _ => reset_quiet (o, i) (value_ x) (f_cascade f) w
    end
  else Ok w.

Definition remover_visit (ep : endpoint) (x : item_holder) (o : loc) (i : nat) (f : field) (w : world) : result world :=
  if selected (e_value ep) (e_field ep) f then
    match f_type f with
    | HAS_MANY => remove_holder (o, i) x w
    | _ => reset_quiet (o, i) None (f_cascade f) w
    end
  else Ok w.

(** [inserter.insert(owner, field, holder)]: the object is described as one of
    class [e_node]. *)
Definition visit_object (visit : loc -> nat -> field -> world -> result world) (ep : endpoint) (owner : option loc) (w : world)
    : result world :=
  let? _ := deref (objects w) owner in
  match owner with
  | Some o => process (visit o) 0 (layout (e_node ep)) w
  | None => null_deref
  end.
Definition inserter_insert (ep : endpoint) (owner : option loc) (x : item_holder) (w : world) : result world :=
  visit_object (inserter_visit ep x) ep owner w.
Definition remover_remove (ep : endpoint) (owner : option loc) (x : item_holder) (w : world) : result world :=
  visit_object (remover_visit ep x) ep owner w.

(** [insert_value] and [remove_value] of the endpoints; the overloads for a
    proxy wrap it into an item holder. *)
Definition from_one_insert_value (ep : endpoint) (x : item_holder) (owner : option loc) (w : world) : result world :=
  inserter_insert ep owner x w.
Definition from_one_remove_value (ep : endpoint) (x : item_holder) (owner : option loc) (w : world) : result world :=
  remover_remove ep owner x w.

Definition many_to_one_insert_value (ep : endpoint) (x : item_holder) (owner : option loc) (w : world) : result world :=
  inserter_insert ep owner (mark_inserted true x) w.
Definition many_to_one_remove_value (ep : endpoint) (x : item_holder) (owner : option loc) (w : world) : result world :=
  remover_remove ep owner x w.

Definition belongs_to_many_insert_value (ep : endpoint) (x : item_holder) (owner : option loc) (w : world) : result world :=
  let? w := inserter_insert ep (value_ x) (Item owner false None) w in
  mark_modified (value_ x) w.
Definition belongs_to_many_remove_value (ep : endpoint) (x : item_holder) (owner : option loc) (w : world) : result world :=
  let? w := remover_remove ep (value_ x) (Item owner false None) w in
  mark_modified (value_ x) w.

Definition insert_value (ep : endpoint) : item_holder -> option loc -> world -> result world :=
  match e_kind ep with
  | from_one _ => from_one_insert_value ep
  | many_to_one => many_to_one_insert_value ep
  | belongs_to_many => belongs_to_many_insert_value ep
  end.
Definition remove_value (ep : endpoint) : item_holder -> option loc -> world -> result world :=
  match e_kind ep with
  | from_one _ => from_one_remove_value ep
  | many_to_one => many_to_one_remove_value ep
  | belongs_to_many => belongs_to_many_remove_value ep
  end.

Definition foreign_endpoint (e : nat) : option endpoint :=
  match endpoints !! e with
  | Some ep => match e_foreign ep with Some f => endpoints !! f | None => None end
  | None => None
  end.

Definition insert_value_into_foreign (e : nat) (x : item_holder) (owner : option loc) (w : world) : result world :=
  match foreign_endpoint e with Some ep => insert_value ep x owner w | None => Ok w end.
Definition remove_value_from_foreign (e : nat) (x : item_holder) (owner : option loc) (w : world) : result world :=
  match foreign_endpoint e with Some ep => remove_value ep x owner w | None => Ok w end.

Definition item_of (value : option loc) : item_holder := Item value false None.

Definition reset (k : key) (p : option loc) (c : Z) (w : world) : result world :=
  reset_with (fun e value owner w => remove_value_from_foreign e (item_of value) owner w)
    (fun e value owner w => insert_value_into_foreign e (item_of value) owner w) k p c true w.

(** [clear()] and the assignment of [nullptr]. *)
Definition clear_pointer (k : key) (w : world) : result world := reset k None ALL w.

(** [insert_holder] and [remove_holder] of the endpoints. *)
Definition from_one_insert_holder (x : item_holder) (owner : option loc) (w : world) : result (item_holder * world) :=
  Ok (set_has_many_item_proxy owner x, w).
Definition from_one_remove_holder (x : item_holder) (w : world) : result (item_holder * world) :=
  Ok (set_has_many_item_proxy None x, w).

Definition belongs_to_many_insert_holder (x : item_holder) (owner : option loc) (w : world) : result (item_holder * world) :=
  Ok (set_has_many_item_proxy owner x, w).
Definition belongs_to_many_remove_holder (x : item_holder) (w : world) : result (item_holder * world) :=
  Ok (set_has_many_item_proxy None x, w).

Definition many_to_one_insert_holder (x : item_holder) (owner : option loc) (w : world) : result (item_holder * world) :=
  let x := set_has_many_item_proxy owner (mark_inserted true x) in
  let? w := increment_reference_count (value_ x) w in Ok (x, w).
Definition many_to_one_remove_holder (x : item_holder) (w : world) : result (item_holder * world) :=
  let x := set_has_many_item_proxy None x in
  let? w := decrement_reference_count (value_ x) w in Ok (x, w).

Definition endpoint_insert_holder (ep : endpoint) : item_holder -> option loc -> world -> result (item_holder * world) :=
  match e_kind ep with
  | from_one _ => from_one_insert_holder
  | many_to_one => many_to_one_insert_holder
  | belongs_to_many => belongs_to_many_insert_holder
  end.
Definition endpoint_remove_holder (ep : endpoint) : item_holder -> world -> result (item_holder * world) :=
  match e_kind ep with
  | from_one _ => from_one_remove_holder
  | many_to_one => many_to_one_remove_holder
  | belongs_to_many => belongs_to_many_remove_holder
  end.

(** ** Containers *)

Definition relation_of (c : container) : result (nat * endpoint) :=
  match c_relation_ c with
  | Some e => match endpoints !! e with Some ep => Ok (e, ep) | None => null_deref end
  | None => null_deref
  end.

Definition insert (k : key) (pos : nat) (value : option loc) (w : world) : result world :=
  let? c := container_at k w in
  let? (x, w) :=
    if ostore_ c then
      let? (e, ep) := relation_of c in
      let? (x, w) := endpoint_insert_holder ep (item_of value) (c_owner_ c) w in
      let x := mark_inserted true x in
      let? w := insert_value_into_foreign e x (c_owner_ c) w in
      let? w := mark_modified (c_owner_ c) w in
      Ok (x, w)
    else Ok (item_of value, w) in
  let? c := container_at k w in
  Ok (put_items k (take pos (items_ c) ++ x :: drop pos (items_ c)) c w).

Definition push_back (k : key) (value : option loc) (w : world) : result world :=
  let? c := container_at k w in insert k (length (items_ c)) value w.
Definition push_front (k : key) (value : option loc) (w : world) : result world := insert k 0 value w.

(** What is done for the item at [n] when it is taken out. *)
Definition detach_item (k : key) (n : nat) (w : world) : result world :=
  let? c := container_at k w in
  match items_ c !! n with
  | None => Throw (undefined_behaviour "past the end")
  | Some x =>
    let? (e, ep) := relation_of c in
    let x := mark_inserted false x in
    let? w := remove_value_from_foreign e x (c_owner_ c) w in
    let? (x, w) := endpoint_remove_holder ep x w in
    let? c := container_at k w in
    Ok (put_items k (<[n := x]> (items_ c)) c w)
  end.

Definition remove_it (k : key) (n : nat) (w : world) : result world :=
  let? c := container_at k w in
  if ostore_ c then let? w := detach_item k n w in mark_modified (c_owner_ c) w else Ok w.

Definition erase_items (k : key) (first last : nat) (w : world) : result world :=
  let? c := container_at k w in
  Ok (put_items k (take first (items_ c) ++ drop last (items_ c)) c w).

Definition erase (k : key) (n : nat) (w : world) : result world :=
  let? w := remove_it k n w in erase_items k n (S n) w.

Fixpoint detach_range (k : key) (first n : nat) (w : world) : result world :=
  match n with
  | O => Ok w
  | S n => let? w := detach_item k first w in detach_range k (S first) n w
  end.

Definition erase_range (k : key) (first last : nat) (w : world) : result world :=
  let? c := container_at k w in
  let? w :=
    if ostore_ c then let? w := detach_range k first (last - first) w in mark_modified (c_owner_ c) w else Ok w in
  erase_items k first last w.

Definition clear (k : key) (w : world) : result world :=
  let? c := container_at k w in erase_range k 0 (length (items_ c)) w.

(** [remove_if]: behind the first match the items to keep are moved to the
    front. Moving from an item holder does not clear it. *)
Fixpoint remove_loop (pred : option loc -> bool) (k : key) (first i n : nat) (w : world) : result (nat * world) :=
  match n with
  | O => Ok (first, w)
  | S n =>
    let? c := container_at k w in
    match items_ c !! i with
    | None => Throw (undefined_behaviour "past the end")
    | Some x =>
      if pred (value_ x) then let? w := remove_it k i w in remove_loop pred k first (S i) n w
      else remove_loop pred k (S first) (S i) n (put_items k (<[first := x]> (items_ c)) c w)
    end
  end.

Definition find_if (pred : option loc -> bool) (its : list item_holder) : nat :=
  match list_find (fun x => pred (value_ x)) its with Some (i, _) => i | None => length its end.

Definition remove_if (pred : option loc -> bool) (k : key) (w : world) : result world :=
  let? c := container_at k w in
  let last := length (items_ c) in
  let first := find_if pred (items_ c) in
  let? (first, w) :=
    if decide (first = last) then Ok (first, w)
    else let? w := remove_it k first w in remove_loop pred k first (S first) (last - S first) w in
  erase_items k first last w.

Definition remove (k : key) (value : option loc) (w : world) : result world :=
  remove_if (fun v => bool_decide (v = value)) k w.
End Schema.

End Relations.
