(* ===== verification/RelationSync.v ===== *)
(** * Both ends of a relation

    The invariant of the objects of a store and their relations: every field
    is attached to its owner and to the endpoint of its class, pointers lead
    to objects of the right class, an object refers to another one exactly
    when the other refers back, and the reference counter of an object is the
    number of pointers and container items that refer to it. *)

From S2P Require Import Prelude PrototypeTree Relations.
Local Open Scope cxx_scope.

Module RelationSync.
Import Relations.

(** ** Sums over maps *)
Section Sums.
Context {K A : Type} `{Countable K}.

Definition msum (f : A -> Z) (m : gmap K A) : Z := map_fold (fun _ x z => (f x + z)%Z) 0%Z m.

Lemma msum_delete f m k x : m !! k = Some x -> msum f m = (f x + msum f (delete k m))%Z.
Proof. intros Hk. unfold msum. erewrite map_fold_delete_L; [reflexivity | intros; lia | done]. Qed.

Lemma msum_insert f m k x y : m !! k = Some x -> msum f (<[k := y]> m) = (msum f m - f x + f y)%Z.
Proof.
  intros Hk. rewrite (msum_delete f m k x Hk), (msum_delete f (<[k := y]> m) k y) by apply lookup_insert_eq.
  rewrite delete_insert_eq. lia.
Qed.
End Sums.

(** ** Counting references *)

Definition b2z (b : bool) : Z := if b then 1 else 0.
Definition weight (p : loc) (h : object_holder) : Z := b2z (is_inserted_ h && bool_decide (proxy_ h = Some p)).
Definition counted (p : loc) (x : item_holder) : Prop := item_inserted_ x = true /\ value_ x = Some p.
#[export] Instance counted_dec p x : Decision (counted p x).
Proof. unfold counted. apply _. Defined.
Definition item_weight (p : loc) (c : container) : Z := Z.of_nat (length (filter (counted p) (items_ c))).
Definition count (w : world) (p : loc) : Z := (msum (weight p) (holders w) + msum (item_weight p) (containers w))%Z.

(** The counters are exact but for the differences [d]. *)
Definition owes (w : world) (d : loc -> Z) : Prop :=
  forall a, is_Some (objects w !! a) -> refs w !! a = Some (u64 (count w a + d a)).
Definition exact (w : world) : Prop := owes w (fun _ => 0%Z).

Definition at_ (p : option loc) (z : Z) (a : loc) : Z := if decide (p = Some a) then z else 0%Z.

Lemma at_None z a : at_ None z a = 0%Z.
Proof. unfold at_. by rewrite decide_False. Qed.
Lemma at_neg p z a : at_ p (- z) a = (- at_ p z a)%Z.
Proof. unfold at_. case_decide; lia. Qed.

Lemma owes_ext w d d' : (forall a, d a = d' a) -> owes w d -> owes w d'.
Proof. intros E H a Ha. by rewrite <- E, H. Qed.

Lemma count_by_owes w p z d :
  owes w d -> is_Some (objects w !! p) ->
  exists w', count_by z (Some p) w = Ok w' /\ owes w' (fun a => d a + at_ (Some p) z a)%Z
    /\ w' = set_refs (refs w') w.
Proof.
  intros Ho Hp. cbn. rewrite (Ho p Hp). eexists. split; [done |]. split; [|done].
  intros a Ha. cbn in *. change (count (set_refs _ w) a) with (count w a). unfold at_.
  destruct (decide (p = a)) as [-> | Hne].
  - rewrite lookup_insert_eq, decide_True by done. unfold u64. rewrite wrap_add by lia. do 2 f_equal. lia.
  - rewrite lookup_insert_ne, decide_False by congruence. rewrite (Ho a Ha). do 2 f_equal. lia.
Qed.

Lemma put_owes w k h h' d :
  owes w d -> holders w !! k = Some h -> owes (put k h' w) (fun a => d a + weight a h - weight a h')%Z.
Proof.
  intros Ho Hk a Ha. cbn in *. rewrite (Ho a Ha). do 2 f_equal. unfold count. cbn.
  rewrite (msum_insert _ _ _ _ _ Hk). lia.
Qed.

Lemma put_items_owes w k c its d :
  owes w d -> containers w !! k = Some c ->
  owes (put_items k its c w) (fun a => d a + item_weight a c - item_weight a (set_items its c))%Z.
Proof.
  intros Ho Hk a Ha. cbn in *. rewrite (Ho a Ha). do 2 f_equal. unfold count. cbn.
  rewrite (msum_insert _ _ _ _ _ Hk). lia.
Qed.

Lemma weight_inserted a p o c r : weight a (Holder p o c true r) = at_ p 1 a.
Proof. unfold weight, at_. cbn. case_bool_decide; [by rewrite decide_True | by rewrite decide_False]. Qed.

Lemma item_weight_split a c l1 x l2 :
  item_inserted_ x = true ->
  item_weight a (set_items (l1 ++ x :: l2) c) = (item_weight a (set_items (l1 ++ l2) c) + at_ (value_ x) 1 a)%Z.
Proof.
  intros Hx. unfold item_weight. cbn. rewrite !list.filter_app, filter_cons, !length_app. unfold at_.
  destruct (decide (counted a x)) as [[_ H] | H].
  - rewrite decide_True by done. simpl. lia.
  - rewrite decide_False by (intros E; by apply H). lia.
Qed.

Lemma count_put w k h p c y :
  holders w !! k = Some h -> is_inserted_ h = true ->
  count (put k (set_proxy p c h) w) y = (count w y - at_ (proxy_ h) 1 y + at_ p 1 y)%Z.
Proof.
  intros Hk Hi. unfold count. cbn. rewrite (msum_insert _ _ _ _ _ Hk). destruct h as [q o c' b r]. cbn in Hi. subst b.
  unfold set_proxy. cbn [owner_ is_inserted_ relation_info_ proxy_]. rewrite !weight_inserted. lia.
Qed.

Lemma count_items w k c l1 x l2 y :
  containers w !! k = Some c -> items_ c = l1 ++ x :: l2 -> item_inserted_ x = true ->
  count (put_items k (l1 ++ l2) c w) y = (count w y - at_ (value_ x) 1 y)%Z.
Proof.
  intros Hk El Hx. unfold count. cbn. rewrite (msum_insert _ _ _ _ _ Hk).
  assert (item_weight y c = item_weight y (set_items (l1 ++ x :: l2) c)) as -> by (unfold item_weight; by rewrite El).
  rewrite item_weight_split by done. lia.
Qed.

Lemma filter_keep {A} (P : A -> Prop) `{!forall x, Decision (P x)} (l : list A) : Forall P l -> filter P l = l.
Proof. induction 1 as [|x l Hx Hl IH]; [done |]. by rewrite filter_cons, decide_True, IH. Qed.

(** Taking the only item with a value out. *)
Lemma filter_item (its : list item_holder) v :
  v ∈ value_ <$> its -> NoDup (value_ <$> its) ->
  exists l1 x l2, its = l1 ++ x :: l2 /\ value_ x = v /\ filter (fun y => value_ y <> v) its = l1 ++ l2.
Proof.
  intros Hv Hnd. apply list_elem_of_fmap in Hv as (x & -> & Hx). apply list_elem_of_split in Hx as (l1 & l2 & ->).
  exists l1, x, l2. split; [done |]. split; [done |]. rewrite fmap_app in Hnd. apply list.NoDup_app in Hnd as (_ & Hd & Hnd).
  cbn in Hnd. apply list.NoDup_cons in Hnd as [Hx _]. rewrite list.filter_app, filter_cons, decide_False by tauto.
  rewrite !filter_keep; [done | |]; apply list.Forall_forall; intros y Hy E.
  - apply Hx. rewrite <- E. by apply list_elem_of_fmap_2.
  - apply (Hd (value_ y)); [by apply list_elem_of_fmap_2 | rewrite E; left].
Qed.

(** ** The schema *)
Section Schema.
Context (layout : str -> list field) (endpoints : list endpoint).

Definition slot (ep : endpoint) : option (nat * field) :=
  list_find (fun f => selected (e_value ep) (e_field ep) f = true) (layout (e_node ep)).
Definition type_of (ep : endpoint) : relation_type :=
  match e_kind ep with from_one t => t | many_to_one => HAS_MANY | belongs_to_many => BELONGS_TO end.
Definition partners (a b : endpoint_kind) : Prop :=
  match a, b with
  | from_one HAS_ONE, from_one BELONGS_TO | from_one BELONGS_TO, from_one HAS_ONE
  | many_to_one, belongs_to_many | belongs_to_many, many_to_one => True
  | _, _ => False
  end.

(** What registering the endpoints of a class and its relations gives: a
    field of its own for every endpoint, at most one endpoint of a class for
    each class it refers to, and two endpoints that know each other for every
    relation. *)
Record schema_ok : Prop := {
  sk_slot : forall e ep, endpoints !! e = Some ep -> exists i f, slot ep = Some (i, f) /\ f_type f = type_of ep /\ e_kind ep <> from_one HAS_MANY;
  sk_unique : forall e ep i f j g, endpoints !! e = Some ep -> slot ep = Some (i, f) ->
    layout (e_node ep) !! j = Some g -> selected (e_value ep) (e_field ep) g = true -> j = i;
  sk_key : forall e e' ep ep', endpoints !! e = Some ep -> endpoints !! e' = Some ep' ->
    e_node ep = e_node ep' -> e_value ep = e_value ep' -> e = e';
  sk_foreign : forall e ep f, endpoints !! e = Some ep -> e_foreign ep = Some f ->
    f <> e /\ exists fp, endpoints !! f = Some fp /\ e_foreign fp = Some e /\ e_value fp = e_node ep
      /\ e_node fp = e_value ep /\ partners (e_kind ep) (e_kind fp) }.

(** The endpoint of a field. *)
Definition relation_at (cls : str) (i : nat) : option nat :=
  fst <$> list_find (fun ep => e_node ep = cls /\ fst <$> slot ep = Some i) endpoints.

(** ** The shape of the objects *)

Definition holder_ok (w : world) (a : loc) (cls : str) (i : nat) (f : field) (h : object_holder) : Prop :=
  is_inserted_ h = true /\ owner_ h = Some a /\ relation_info_ h = relation_at cls i
  /\ (forall b, proxy_ h = Some b -> objects w !! b = Some (f_value f)).
Definition item_ok (w : world) (f : field) (x : item_holder) : Prop :=
  item_inserted_ x = true /\ exists b, value_ x = Some b /\ objects w !! b = Some (f_value f).
Definition container_ok (w : world) (a : loc) (cls : str) (i : nat) (f : field) (c : container) : Prop :=
  ostore_ c = true /\ c_owner_ c = Some a /\ c_relation_ c = relation_at cls i /\ is_Some (relation_at cls i)
  /\ Forall (item_ok w f) (items_ c) /\ NoDup (value_ <$> items_ c).

Definition field_at (w : world) (k : key) : option (str * field) :=
  match objects w !! k.1 with
  | Some cls => match layout cls !! k.2 with Some f => Some (cls, f) | None => None end
  | None => None
  end.

Record shape (w : world) : Prop := {
  sh_holder : forall k cls f, field_at w k = Some (cls, f) -> f_type f <> HAS_MANY ->
    containers w !! k = None /\ exists h, holders w !! k = Some h /\ holder_ok w k.1 cls k.2 f h;
  sh_container : forall k cls f, field_at w k = Some (cls, f) -> f_type f = HAS_MANY ->
    holders w !! k = None /\ exists c, containers w !! k = Some c /\ container_ok w k.1 cls k.2 f c;
  sh_stored : forall a, is_Some (objects w !! a) -> a ∈ stored w }.

(** Object [b] is referred to by the field [k]. *)
Definition points (w : world) (k : key) (b : loc) : Prop :=
  (exists h, holders w !! k = Some h /\ proxy_ h = Some b)
  \/ (exists c, containers w !! k = Some c /\ Some b ∈ value_ <$> items_ c).

(** The field of object [a] that endpoint [e] is about. *)
Definition field_of (w : world) (e : nat) (a : loc) : option key :=
  match endpoints !! e with
  | Some ep => match slot ep with
               | Some (i, _) => if decide (objects w !! a = Some (e_node ep)) then Some (a, i) else None
               | None => None
               end
  | None => None
  end.
Definition refers (w : world) (e : nat) (a b : loc) : Prop := exists k, field_of w e a = Some k /\ points w k b.

Definition in_step (w : world) : Prop :=
  forall e ep f a b, endpoints !! e = Some ep -> e_foreign ep = Some f -> refers w e a b <-> refers w f b a.

Record world_ok (w : world) : Prop := {
  ok_shape : shape w;
  ok_exact : exact w;
  ok_step : in_step w }.

(** ** Fields and endpoints *)
Section Facts.
Context (Hs : schema_ok).

Lemma slot_field e ep i f :
  endpoints !! e = Some ep -> slot ep = Some (i, f) ->
  layout (e_node ep) !! i = Some f /\ f_type f = type_of ep /\ f_value f = e_value ep
  /\ selected (e_value ep) (e_field ep) f = true.
Proof using Hs.
  intros He Hi. destruct (sk_slot Hs e ep He) as (i' & f' & Hi' & Ht & _). simplify_eq.
  apply list_find_Some in Hi as (Hl & Hsel & _). split_and!; [done | done | | done].
  unfold selected in Hsel. apply andb_true_iff in Hsel as [Hv _]. by apply bool_decide_eq_true in Hv.
Qed.

Lemma slot_inj e e' ep ep' i f f' :
  endpoints !! e = Some ep -> endpoints !! e' = Some ep' -> e_node ep = e_node ep' ->
  slot ep = Some (i, f) -> slot ep' = Some (i, f') -> e = e'.
Proof using Hs.
  intros He He' Hn Hi Hi'. destruct (slot_field e ep i f He Hi) as (Hl & _ & Hv & _).
  destruct (slot_field e' ep' i f' He' Hi') as (Hl' & _ & Hv' & _). eapply (sk_key Hs); [done | done | done |]. congruence.
Qed.

Lemma relation_at_slot cls i e :
  relation_at cls i = Some e -> exists ep f, endpoints !! e = Some ep /\ e_node ep = cls /\ slot ep = Some (i, f).
Proof.
  unfold relation_at. intros ((e' & ep) & H & [= ->])%fmap_Some_1. apply list_find_Some in H as (He & [Hn Hi] & _).
  apply fmap_Some_1 in Hi as ([i' f] & Hi & [= ->]). eauto.
Qed.

Lemma slot_relation_at e ep i f :
  endpoints !! e = Some ep -> slot ep = Some (i, f) -> relation_at (e_node ep) i = Some e.
Proof using Hs.
  intros He Hi. unfold relation_at.
  destruct (list_find _ endpoints) as [[e' ep']|] eqn:E.
  - apply list_find_Some in E as (He' & [Hn Hi'] & _). apply fmap_Some_1 in Hi' as ([i' f'] & Hi' & [= ->]).
    cbn. f_equal. by eapply (slot_inj e' e ep' ep i' f' f).
  - apply list_find_None in E. rewrite list.Forall_forall in E. destruct (E ep); [by eapply list_elem_of_lookup_2 |].
    by rewrite Hi.
Qed.

Lemma field_of_Some w e a k :
  field_of w e a = Some k -> exists ep i f, endpoints !! e = Some ep /\ slot ep = Some (i, f) /\ k = (a, i)
    /\ objects w !! a = Some (e_node ep) /\ field_at w k = Some (e_node ep, f)
    /\ f_type f = type_of ep /\ f_value f = e_value ep /\ relation_at (e_node ep) i = Some e.
Proof using Hs.
  unfold field_of. destruct (endpoints !! e) as [ep|] eqn:He; [|done]. destruct (slot ep) as [[i f]|] eqn:Hi; [|done].
  case_decide as Ho; [|done]. intros [= <-]. destruct (slot_field e ep i f He Hi) as (Hl & Ht & Hv & _).
  exists ep, i, f. split_and!; try done; [| by eapply slot_relation_at]. unfold field_at. cbn. by rewrite Ho, Hl.
Qed.

Lemma field_of_inj w e a e' a' k : field_of w e a = Some k -> field_of w e' a' = Some k -> e = e' /\ a = a'.
Proof using Hs.
  intros H H'. apply field_of_Some in H as (ep & i & f & He & Hi & -> & Ho & _).
  apply field_of_Some in H' as (ep' & i' & f' & He' & Hi' & [= -> ->] & Ho' & _). split; [|done].
  eapply (slot_inj e e' ep ep' i' f f'); [done | done | congruence | done | done].
Qed.

Lemma field_of_make w e ep a :
  endpoints !! e = Some ep -> objects w !! a = Some (e_node ep) -> exists k, field_of w e a = Some k.
Proof using Hs.
  intros He Ho. destruct (sk_slot Hs e ep He) as (i & f & Hi & _). unfold field_of. rewrite He, Hi, decide_True by done. eauto.
Qed.

Lemma field_of_objects w w' e a : objects w' = objects w -> field_of w' e a = field_of w e a.
Proof. intros E. unfold field_of. by rewrite E. Qed.

Lemma field_at_objects w w' k : objects w' = objects w -> field_at w' k = field_at w k.
Proof. intros E. unfold field_at. by rewrite E. Qed.

(** A visitor changes the one field of its endpoint. *)
Lemma process_one visit n fs i f w :
  fs !! i = Some f -> (forall j g v, fs !! j = Some g -> j <> i -> visit (n + j) g v = Ok v) ->
  process visit n fs w = visit (n + i) f w.
Proof.
  revert n i w. induction fs as [|g fs IH]; intros n [|i] w Hi Hj; simplify_eq/=.
  - rewrite Nat.add_0_r. assert (forall m v, (forall j g', fs !! j = Some g' -> forall u, visit (m + j) g' u = Ok u) ->
      process visit m fs v = Ok v) as Hrest.
    { clear. induction fs as [|g fs IH]; intros m v H; [done |]. simpl. pose proof (H 0 g eq_refl v) as E.
      rewrite Nat.add_0_r in E. rewrite E. cbn [rbind]. apply IH. intros j g' Hg u.
      replace (S m + j) with (m + S j) by lia. by apply (H (S j)). }
    destruct (visit n f w) as [v|]; [|done]. cbn [rbind]. apply Hrest. intros j g' Hg u.
    replace (S n + j) with (n + S j) by lia. by apply Hj.
  - pose proof (Hj 0 g w eq_refl) as E. rewrite Nat.add_0_r in E. rewrite E by done. cbn [rbind].
    rewrite (IH (S n) i w Hi); [f_equal; lia |]. intros j g' v Hg Hne.
    replace (S n + j) with (n + S j) by lia. apply Hj; [done | lia].
Qed.

Lemma visit_one visit e ep i f o w :
  endpoints !! e = Some ep -> slot ep = Some (i, f) -> is_Some (objects w !! o) ->
  (forall j g v, selected (e_value ep) (e_field ep) g = false -> visit o j g v = Ok v) ->
  visit_object layout visit ep (Some o) w = visit o i f w.
Proof using Hs.
  intros He Hi [cls Ho] Hv. unfold visit_object. cbn [deref]. rewrite Ho. cbn [rbind].
  destruct (slot_field e ep i f He Hi) as (Hl & _). rewrite (process_one (visit o) 0 _ i f w Hl); [done |].
  intros j g v Hg Hne. apply Hv. apply not_true_iff_false. intros Hsel. apply Hne.
  by eapply (sk_unique Hs e ep i f j g).
Qed.
(** ** Updates of one field *)

Definition typed (w : world) (f : field) (p : option loc) : Prop := forall b, p = Some b -> objects w !! b = Some (f_value f).

(** The field [k] has not changed. *)
Definition same_at (w w' : world) (k : key) : Prop :=
  holders w' !! k = holders w !! k /\ containers w' !! k = containers w !! k.

(** [w'] is [w], but for counters and the field [k], which refers to the
    objects in [Q] now. *)
Record updates (w : world) (k : key) (Q : loc -> Prop) (w' : world) : Prop := {
  up_objects : objects w' = objects w;
  up_shape : shape w';
  up_field : forall b, points w' k b <-> Q b;
  up_raw : forall k', k' <> k -> same_at w w' k' }.

Lemma same_at_points w w' k b : same_at w w' k -> points w' k b <-> points w k b.
Proof. intros [E1 E2]. unfold points. by rewrite E1, E2. Qed.

Lemma up_other w k Q w' k' b : updates w k Q w' -> k' <> k -> points w' k' b <-> points w k' b.
Proof. intros U Hne. by apply same_at_points, (up_raw w k Q w' U). Qed.

Lemma shape_ext w w' :
  objects w' = objects w -> stored w' = stored w -> holders w' = holders w -> containers w' = containers w -> shape w -> shape w'.
Proof. destruct w, w'; cbn; intros -> -> -> -> [H1 H2 H3]. by constructor. Qed.

Lemma shape_put w k cls f h p c :
  shape w -> field_at w k = Some (cls, f) -> holders w !! k = Some h -> typed w f p -> shape (put k (set_proxy p c h) w).
Proof.
  intros [H1 H2 H3] Hf Hh Hp. constructor; [| | done]; intros k' cls' f' Hf' Ht.
  - change (field_at w k' = Some (cls', f')) in Hf'. destruct (H1 k' cls' f' Hf' Ht) as (Hc & h' & Hh' & Hok). split; [done |].
    cbn. destruct (decide (k' = k)) as [-> | Hne].
    + simplify_eq. rewrite lookup_insert_eq. eexists. split; [done |]. destruct Hok as (Q1 & Q2 & Q3 & _). done.
    + rewrite lookup_insert_ne by done. eauto.
  - change (field_at w k' = Some (cls', f')) in Hf'. destruct (H2 k' cls' f' Hf' Ht) as (Hc & c' & Hc' & Hok). split; [|eauto].
    cbn. destruct (decide (k' = k)) as [-> | Hne]; [congruence |]. by rewrite lookup_insert_ne.
Qed.

Lemma shape_items w k cls f c its :
  shape w -> field_at w k = Some (cls, f) -> f_type f = HAS_MANY -> containers w !! k = Some c ->
  Forall (item_ok w f) its -> NoDup (value_ <$> its) -> shape (put_items k its c w).
Proof.
  intros [H1 H2 H3] Hf Hm Hc Hits Hnd. constructor; [| | done]; intros k' cls' f' Hf' Ht.
  - change (field_at w k' = Some (cls', f')) in Hf'. destruct (H1 k' cls' f' Hf' Ht) as (Hc' & h' & Hh' & Hok). split; [|eauto].
    cbn. destruct (decide (k' = k)) as [-> | Hne]; [congruence |]. by rewrite lookup_insert_ne.
  - change (field_at w k' = Some (cls', f')) in Hf'. destruct (H2 k' cls' f' Hf' Ht) as (Hh' & c' & Hc' & Hok). split; [done |].
    cbn. destruct (decide (k' = k)) as [-> | Hne].
    + simplify_eq. rewrite lookup_insert_eq. eexists. split; [done |]. destruct Hok as (Q1 & Q2 & Q3 & Q4 & _). done.
    + rewrite lookup_insert_ne by done. eauto.
Qed.

Lemma points_put w k h b : containers w !! k = None -> points (put k h w) k b <-> proxy_ h = Some b.
Proof. intros Hc. unfold points. cbn. rewrite lookup_insert_eq, Hc. naive_solver. Qed.

Lemma points_items w k c its b : holders w !! k = None -> points (put_items k its c w) k b <-> Some b ∈ value_ <$> its.
Proof. intros Hh. unfold points. cbn. rewrite lookup_insert_eq, Hh. naive_solver. Qed.

Lemma points_holder w k h b : holders w !! k = Some h -> containers w !! k = None -> points w k b <-> proxy_ h = Some b.
Proof. intros Hh Hc. unfold points. rewrite Hh, Hc. naive_solver. Qed.

Lemma points_container w k c b : containers w !! k = Some c -> holders w !! k = None -> points w k b <-> Some b ∈ value_ <$> items_ c.
Proof. intros Hh Hc. unfold points. rewrite Hh, Hc. naive_solver. Qed.

Lemma updates_put w k cls f h p c :
  shape w -> field_at w k = Some (cls, f) -> f_type f <> HAS_MANY -> holders w !! k = Some h -> typed w f p ->
  updates w k (fun b => p = Some b) (put k (set_proxy p c h) w).
Proof.
  intros Hw Hf Ht Hh Hp. destruct (sh_holder w Hw k cls f Hf Ht) as (Hc & _).
  constructor; [done | by eapply shape_put | |].
  - intros b. by rewrite points_put.
  - intros k' Hne. split; cbn; [by rewrite lookup_insert_ne | done].
Qed.

Lemma updates_items w k cls f c its :
  shape w -> field_at w k = Some (cls, f) -> f_type f = HAS_MANY -> containers w !! k = Some c ->
  Forall (item_ok w f) its -> NoDup (value_ <$> its) ->
  updates w k (fun b => Some b ∈ value_ <$> its) (put_items k its c w).
Proof.
  intros Hw Hf Ht Hc Hits Hnd. destruct (sh_container w Hw k cls f Hf Ht) as (Hh & _).
  constructor; [done | by eapply shape_items | |].
  - intros b. by apply points_items.
  - intros k' Hne. split; cbn; [done | by rewrite lookup_insert_ne].
Qed.

(** Only counters and the list of modified objects differ. *)
Definition same_fields (w w' : world) : Prop :=
  objects w' = objects w /\ stored w' = stored w /\ holders w' = holders w /\ containers w' = containers w.

Lemma same_fields_shape w w' : same_fields w w' -> shape w -> shape w'.
Proof. intros (E1 & E2 & E3 & E4). by apply shape_ext. Qed.

Lemma same_fields_points w w' k b : same_fields w w' -> points w' k b <-> points w k b.
Proof. intros (_ & _ & E3 & E4). unfold points. by rewrite E3, E4. Qed.

Lemma updates_same w k Q w' w'' : updates w k Q w' -> same_fields w' w'' -> updates w k Q w''.
Proof.
  intros [U1 U2 U3 U4] H. constructor.
  - destruct H as (-> & _). done.
  - by eapply same_fields_shape.
  - intros b. by rewrite (same_fields_points _ _ _ _ H).
  - intros k' Hne. destruct H as (_ & _ & E3 & E4), (U4 k' Hne) as [E5 E6]. split; congruence.
Qed.

Lemma same_updates w w' k Q w'' : same_fields w w' -> updates w' k Q w'' -> updates w k Q w''.
Proof.
  intros H [U1 U2 U3 U4]. constructor.
  - destruct H as (<- & _). done.
  - done.
  - done.
  - intros k' Hne. destruct H as (_ & _ & E3 & E4), (U4 k' Hne) as [E5 E6]. split; congruence.
Qed.

Lemma updates_ext w k Q Q' w' : updates w k Q w' -> (forall b, Q b <-> Q' b) -> updates w k Q' w'.
Proof. intros [U1 U2 U3 U4] H. constructor; try done. intros b. by rewrite U3. Qed.

Lemma count_same w p z d :
  owes w d -> is_Some (objects w !! p) ->
  exists w', count_by z (Some p) w = Ok w' /\ owes w' (fun a => d a + at_ (Some p) z a)%Z /\ same_fields w w'.
Proof.
  intros Ho Hp. destruct (count_by_owes w p z d Ho Hp) as (w' & E & Ho' & Hw'). exists w'.
  split; [done |]. split; [done |]. by rewrite Hw'.
Qed.

Lemma internal_typed w f p : shape w -> typed w f p -> is_internal p w = match p with Some _ => true | None => false end.
Proof.
  intros Hw Hp. destruct p as [b|]; [|done]. apply bool_decide_eq_true, (sh_stored w Hw). by rewrite (Hp b eq_refl).
Qed.

(** Leaving the old object and taking the new one, where [d] is owed. *)
Lemma owes_move w h p d k c :
  owes w d -> holders w !! k = Some h -> is_inserted_ h = true ->
  owes (put k (set_proxy p c h) w) (fun a => d a + at_ (proxy_ h) 1 a - at_ p 1 a)%Z.
Proof.
  intros Ho Hh Hi. eapply owes_ext; [|by apply put_owes]. intros a. cbn beta.
  destruct h as [q o c' i r]. cbn in Hi. subst i. unfold set_proxy. cbn [owner_ is_inserted_ relation_info_ proxy_].
  by rewrite !weight_inserted.
Qed.

Lemma reset_quiet_spec w k cls f p c d :
  shape w -> owes w d -> field_at w k = Some (cls, f) -> f_type f <> HAS_MANY -> typed w f p ->
  exists w', reset_quiet k p c w = Ok w' /\ owes w' d /\ updates w k (fun b => p = Some b) w'
    /\ (forall h y, holders w !! k = Some h -> count w' y = count w y - at_ (proxy_ h) 1 y + at_ p 1 y)%Z.
Proof.
  intros Hw Ho Hf Ht Hp. destruct (sh_holder w Hw k cls f Hf Ht) as (Hc & h & Hh & Hi & Hown & Hrel & Hty).
  unfold reset_quiet, reset_with, holder_at. rewrite Hh. cbn [rbind]. destruct (decide (proxy_ h = p)) as [E | Hne].
  { exists w. split; [done |]. split; [done |]. split; [|intros h' y Hh'; simplify_eq; lia].
    constructor; try done. intros b. rewrite (points_holder w k h b Hh Hc). by rewrite E. }
  rewrite (internal_typed w f (proxy_ h) Hw Hty), Hi, andb_true_r.
  assert (exists w1, (if match proxy_ h with Some _ => true | None => false end
                      then let? w0 := decrement_reference_count (proxy_ h) w in
                           notify_relation no_call h false (proxy_ h) w0 else Ok w) = Ok w1
    /\ owes w1 (fun a => d a + at_ (proxy_ h) (-1) a)%Z /\ same_fields w w1) as (w1 & -> & Ho1 & Hs1).
  { destruct (proxy_ h) as [q|] eqn:Eq.
    - destruct (count_same w q (-1) d Ho) as (w1 & E1 & Ho1 & Hs1); [by rewrite (Hty q eq_refl) |].
      exists w1. unfold decrement_reference_count. rewrite E1. cbn [rbind]. unfold notify_relation. destruct (relation_info_ h); done.
    - exists w. split; [done |]. split; [|done]. eapply owes_ext; [|exact Ho]. intros a. rewrite at_None. lia. }
  cbn [rbind]. pose proof Hs1 as (E1 & E2 & E3 & E4). rewrite E3, Hh. cbn [rbind]. rewrite Hi, andb_true_r.
  assert (holders w1 !! k = Some h) as Hh1 by by rewrite E3.
  assert (updates w k (fun b => p = Some b) (put k (set_proxy p c h) w1)) as Hup.
  { eapply same_updates; [exact Hs1 |]. eapply updates_put; [by eapply same_fields_shape | | exact Ht | exact Hh1 |].
    - rewrite (field_at_objects w w1); [exact Hf | done].
    - intros b Hb. rewrite E1. by apply Hp. }
  assert (forall y, count (put k (set_proxy p c h) w1) y = (count w y - at_ (proxy_ h) 1 y + at_ p 1 y)%Z) as Hcount.
  { intros y. rewrite (count_put w1 k h p c y Hh1 Hi). unfold count. by rewrite E3, E4. }
  pose proof (owes_move w1 h p _ k c Ho1 Hh1 Hi) as Ho2.
  rewrite (internal_typed _ f p (up_shape _ _ _ _ Hup)) by (intros b Hb; cbn; rewrite E1; by apply Hp).
  destruct p as [b|].
  - destruct (count_same _ b 1 _ Ho2) as (w3 & E & Ho3 & Hs3); [cbn; by rewrite E1, (Hp b eq_refl) |].
    exists w3. unfold increment_reference_count. rewrite E. cbn [rbind]. split; [by unfold notify_relation; destruct (relation_info_ h) |].
    split; [eapply owes_ext; [|exact Ho3]; intros a; cbn beta; rewrite (at_neg _ 1); lia |]. split; [by eapply updates_same |].
    intros h' y Hh'. simplify_eq. rewrite <- Hcount. destruct Hs3 as (_ & _ & E5 & E6). unfold count. by rewrite E5, E6.
  - eexists. split; [done |]. split; [|split; [done | intros h' y Hh'; by simplify_eq]]. eapply owes_ext; [|exact Ho2]. intros a. cbn beta. rewrite (at_neg _ 1), at_None. lia.
Qed.

Lemma item_ok_objects w w' f x : objects w' = objects w -> item_ok w f x -> item_ok w' f x.
Proof. intros E. unfold item_ok. by rewrite E. Qed.

Lemma insert_holder_spec w k cls f x b d :
  shape w -> owes w d -> field_at w k = Some (cls, f) -> f_type f = HAS_MANY -> value_ x = Some b ->
  objects w !! b = Some (f_value f) -> ~ points w k b ->
  exists w', insert_holder k x w = Ok w' /\ owes w' d /\ updates w k (fun y => points w k y \/ y = b) w'.
Proof.
  intros Hw Ho Hf Ht Hx Hb Hn. destruct (sh_container w Hw k cls f Hf Ht) as (Hh & c & Hc & _ & _ & _ & _ & Hits & Hnd).
  pose proof (fun y => points_container w k c y Hc Hh) as Hpts.
  unfold insert_holder, count_valid. rewrite Hx. destruct (count_same w b 1 d Ho) as (w1 & -> & Ho1 & Hs1); [by rewrite Hb |].
  cbn [rbind]. unfold container_at. pose proof Hs1 as (E1 & E2 & E3 & E4). rewrite E4, Hc. cbn [rbind].
  set (x' := mark_inserted true x). assert (Hc1 : containers w1 !! k = Some c) by by rewrite E4.
  eexists. split; [done |]. split.
  - eapply owes_ext; [|by apply put_items_owes]. intros a. cbn beta.
    rewrite (item_weight_split a c (items_ c) x' []) by done. rewrite app_nil_r.
    replace (set_items (items_ c) c) with c by by destruct c. change (value_ x') with (value_ x). rewrite Hx. lia.
  - eapply same_updates; [exact Hs1 |]. eapply updates_ext; [eapply updates_items|].
    + by eapply same_fields_shape.
    + rewrite (field_at_objects w w1); [exact Hf | done].
    + exact Ht.
    + exact Hc1.
    + apply Forall_app. split; [eapply list.Forall_impl; [exact Hits |]; intros y; by apply item_ok_objects |].
      repeat constructor. exists b. cbn. by rewrite E1.
    + rewrite fmap_app. cbn. apply list.NoDup_app. split; [done |]. split; [|apply NoDup_singleton].
      intros v Hv ->%list_elem_of_singleton. apply Hn, Hpts. cbn in Hv. by rewrite <- Hx.
    + intros y. rewrite Hpts, fmap_app, elem_of_app. cbn. rewrite list_elem_of_singleton, Hx. naive_solver.
Qed.

Lemma remove_holder_spec w k cls f x b d :
  shape w -> owes w d -> field_at w k = Some (cls, f) -> f_type f = HAS_MANY -> value_ x = Some b -> points w k b ->
  exists w', remove_holder k x w = Ok w' /\ owes w' d /\ updates w k (fun y => points w k y /\ y <> b) w'
    /\ (forall y, count w' y = count w y - at_ (Some b) 1 y)%Z.
Proof.
  intros Hw Ho Hf Ht Hx Hn. destruct (sh_container w Hw k cls f Hf Ht) as (Hh & c & Hc & _ & _ & _ & _ & Hits & Hnd).
  pose proof (fun y => points_container w k c y Hc Hh) as Hpts. apply Hpts in Hn.
  unfold remove_holder, container_at. rewrite Hc. cbn [rbind]. rewrite Hx, decide_True by done.
  destruct (filter_item (items_ c) (Some b) Hn Hnd) as (l1 & y & l2 & El & Ey & Ef).
  assert (item_inserted_ y = true /\ objects w !! b = Some (f_value f)) as [Hy Hb].
  { rewrite El in Hits. apply Forall_app in Hits as [_ Hits]. apply Forall_cons_iff in Hits as [[H1 (b' & H2 & H3)] _].
    split; [done |]. by simplify_eq. }
  unfold count_valid. rewrite Hx. destruct (count_same w b (-1) d Ho) as (w1 & -> & Ho1 & Hs1); [by rewrite Hb |].
  cbn [rbind]. pose proof Hs1 as (E1 & E2 & E3 & E4). rewrite E4, Hc. cbn [rbind]. rewrite Ef.
  assert (Hc1 : containers w1 !! k = Some c) by by rewrite E4.
  eexists. split; [done |]. split.
  - eapply owes_ext; [|by apply put_items_owes]. intros a. cbn beta.
    assert (item_weight a c = item_weight a (set_items (l1 ++ y :: l2) c)) as -> by (unfold item_weight; by rewrite El).
    rewrite item_weight_split by done. rewrite (at_neg _ 1), Ey. lia.
  - split; [|intros z; rewrite (count_items w1 k c l1 y l2 z Hc1 El Hy), Ey; unfold count; by rewrite E3, E4].
    eapply same_updates; [exact Hs1 |]. rewrite El in Hits, Hnd, Hpts. eapply updates_ext; [eapply updates_items|].
    + by eapply same_fields_shape.
    + rewrite (field_at_objects w w1); [exact Hf | done].
    + exact Ht.
    + exact Hc1.
    + apply Forall_app in Hits as [F1 F2]. apply Forall_cons_iff in F2 as [_ F2].
      apply Forall_app. split; (eapply list.Forall_impl; [eassumption |]; intros z; by apply item_ok_objects).
    + rewrite fmap_app in Hnd |- *. cbn in Hnd. apply list.NoDup_app in Hnd as (N1 & N2 & N3). apply list.NoDup_cons in N3 as [_ N3].
      apply list.NoDup_app. split; [done |]. split; [|done]. intros v Hv Hv'. apply (N2 v Hv). by right.
    + intros z. rewrite Hpts, !fmap_app, !elem_of_app. cbn. rewrite elem_of_cons, Ey.
      rewrite fmap_app in Hnd. cbn in Hnd. rewrite Ey in Hnd. apply list.NoDup_app in Hnd as (_ & N2 & N3). apply list.NoDup_cons in N3 as [N3 _].
      split; [|naive_solver]. intros H. split; [naive_solver |]. intros ->. destruct H as [H | H]; [|done]. apply (N2 _ H). left.
Qed.

(** ** Calls of an endpoint *)

Lemma mark_modified_same w p d :
  owes w d -> exists w', mark_modified (Some p) w = Ok w' /\ owes w' d /\ same_fields w w'.
Proof. intros Ho. cbn. eexists. split; [done |]. by case_decide. Qed.

(** The call changes the field of the target [t], the value is [g]. *)
Definition directed (ep : endpoint) (x : item_holder) (owner : option loc) (t g : loc) : Prop :=
  match e_kind ep with
  | belongs_to_many => value_ x = Some t /\ owner = Some g
  | _ => owner = Some t /\ value_ x = Some g
  end.
Definition takes (w : world) (ep : endpoint) (k : key) (g : loc) : Prop :=
  match e_kind ep with
  | many_to_one => ~ points w k g
  | _ => forall y, points w k y -> y = g
  end.

Lemma remover_spec w e ep k x t g d :
  shape w -> owes w d -> endpoints !! e = Some ep -> field_of w e t = Some k -> points w k g -> value_ x = Some g \/ type_of ep <> HAS_MANY ->
  exists w', remover_remove layout ep (Some t) x w = Ok w' /\ owes w' d /\ updates w k (fun y => points w k y /\ y <> g) w'
    /\ (forall y, count w' y = count w y - at_ (Some g) 1 y)%Z.
Proof using Hs.
  intros Hw Ho He Hk Hg Hx. destruct (field_of_Some w e t k Hk) as (ep' & i & f & He' & Hi & -> & Hobj & Hf & Hty & Hv & Hr). simplify_eq.
  unfold remover_remove. rewrite (visit_one _ e ep i f t w He Hi); [| by rewrite Hobj | by intros j g' v E; unfold remover_visit; rewrite E].
  destruct (slot_field e ep i f He Hi) as (_ & _ & _ & Hsel). unfold remover_visit. rewrite Hsel.
  destruct (f_type f) eqn:Et; [| | destruct Hx as [Hx | Hx]; [by eapply remove_holder_spec | congruence]].
  all: destruct (reset_quiet_spec w (t, i) (e_node ep) f None (f_cascade f) d Hw Ho Hf) as (w' & E & Ho' & Hu & Hcnt); [congruence | done |].
  all: destruct (sh_holder w Hw (t, i) (e_node ep) f Hf) as (Hc & h & Hh & _); [congruence |].
  all: pose proof (points_holder w (t, i) h g Hh Hc) as Hpt; apply Hpt in Hg.
  all: exists w'; split; [done |]; split; [done |]; split; [|intros y; rewrite (Hcnt h y Hh), Hg, at_None; lia].
  all: eapply updates_ext; [exact Hu |]; intros y; split; [done |]; intros [Hy Hyg];
    apply (points_holder w (t, i) h _ Hh Hc) in Hy; congruence.
Qed.

Lemma inserter_spec w e ep k x t g d :
  shape w -> owes w d -> endpoints !! e = Some ep -> field_of w e t = Some k -> value_ x = Some g ->
  objects w !! g = Some (e_value ep) -> takes w ep k g ->
  exists w', inserter_insert layout ep (Some t) x w = Ok w' /\ owes w' d /\ updates w k (fun y => points w k y \/ y = g) w'.
Proof using Hs.
  intros Hw Ho He Hk Hx Hg Hfree. destruct (field_of_Some w e t k Hk) as (ep' & i & f & He' & Hi & -> & Hobj & Hf & Hty & Hv & Hr). simplify_eq.
  unfold inserter_insert. rewrite (visit_one _ e ep i f t w He Hi); [| by rewrite Hobj | by intros j g' v E; unfold inserter_visit; rewrite E].
  destruct (slot_field e ep i f He Hi) as (_ & _ & _ & Hsel). unfold inserter_visit. rewrite Hsel, Hx.
  rewrite <- Hv in Hg. unfold takes in Hfree. unfold type_of in Hty. destruct (f_type f) eqn:Et.
  3: { destruct (e_kind ep) as [t0| |] eqn:Ek; [| by eapply insert_holder_spec | congruence].
       destruct (sk_slot Hs e ep He) as (_ & _ & _ & _ & Hno). congruence. }
  all: destruct (reset_quiet_spec w (t, i) (e_node ep) f (Some g) (f_cascade f) d Hw Ho Hf) as (w' & E & Ho' & Hu & _); [congruence | by intros b [= <-] |].
  all: exists w'; split; [done |]; split; [done |]; eapply updates_ext; [exact Hu |]; intros y; split; [intros [= ->]; by right |]; intros [Hy | ->]; [|done].
  all: destruct (e_kind ep); [by rewrite (Hfree y Hy) | done | by rewrite (Hfree y Hy)].
Qed.

Lemma remove_value_spec w e ep k x owner t g d :
  shape w -> owes w d -> endpoints !! e = Some ep -> field_of w e t = Some k -> points w k g -> directed ep x owner t g ->
  exists w', remove_value layout ep x owner w = Ok w' /\ owes w' d /\ updates w k (fun y => points w k y /\ y <> g) w'
    /\ (forall y, count w' y = count w y - at_ (Some g) 1 y)%Z.
Proof using Hs.
  intros Hw Ho He Hk Hg Hd. unfold directed in Hd. unfold remove_value, belongs_to_many_remove_value. destruct (e_kind ep) eqn:Ek; destruct Hd as [Hd E]; rewrite Hd.
  1, 2: eapply remover_spec; [done.. | by left].
  destruct (remover_spec w e ep k (Item owner false None) t g d Hw Ho He Hk Hg) as (w1 & -> & Ho1 & Hu1 & Hcnt).
  { left. by rewrite E. }
  cbn [rbind]. destruct (mark_modified_same w1 t d Ho1) as (w2 & -> & Ho2 & Hs2). exists w2. split; [done |]. split; [done |].
  split; [by eapply updates_same |]. intros y. rewrite <- Hcnt. destruct Hs2 as (_ & _ & E5 & E6). unfold count. by rewrite E5, E6.
Qed.

Lemma insert_value_spec w e ep k x owner t g d :
  shape w -> owes w d -> endpoints !! e = Some ep -> field_of w e t = Some k -> directed ep x owner t g ->
  objects w !! g = Some (e_value ep) -> takes w ep k g ->
  exists w', insert_value layout ep x owner w = Ok w' /\ owes w' d /\ updates w k (fun y => points w k y \/ y = g) w'.
Proof using Hs.
  intros Hw Ho He Hk Hd Hg Ht. unfold directed in Hd. unfold insert_value, belongs_to_many_insert_value. destruct (e_kind ep) eqn:Ek; destruct Hd as [Hd E]; rewrite Hd.
  1, 2: by eapply inserter_spec.
  destruct (inserter_spec w e ep k (Item owner false None) t g d Hw Ho He Hk) as (w1 & -> & Ho1 & Hu1); [by rewrite E | done | done |].
  cbn [rbind]. destruct (mark_modified_same w1 t d Ho1) as (w2 & -> & Ho2 & Hs2). exists w2. split; [done |]. split; [done |].
  by eapply updates_same.
Qed.

(** ** References *)

Lemma refers_updates w k Q w' e x y :
  updates w k Q w' ->
  refers w' e x y <-> (field_of w e x = Some k /\ Q y) \/ (field_of w e x <> Some k /\ refers w e x y).
Proof.
  intros U. pose proof U as [U1 _ U3 _]. pose proof (fun k' b => up_other w k Q w' k' b U) as U4. unfold refers. rewrite (field_of_objects w w') by done. split.
  - intros (k' & Hk' & Hp). destruct (decide (k' = k)) as [-> | Hne].
    + left. split; [done |]. by apply U3.
    + right. split; [congruence |]. exists k'. split; [done |]. by apply U4.
  - intros [[Hk Hq] | [Hne (k' & Hk' & Hp)]].
    + exists k. split; [done |]. by apply U3.
    + exists k'. split; [done |]. apply U4; [congruence | done].
Qed.

Lemma refers_same w w' e x y : same_fields w w' -> refers w' e x y <-> refers w e x y.
Proof.
  intros H. pose proof H as (E & _). unfold refers. rewrite (field_of_objects w w') by done.
  by setoid_rewrite (same_fields_points w w' _ _ H).
Qed.

Lemma refers_points w e x y k : field_of w e x = Some k -> refers w e x y <-> points w k y.
Proof. intros Hk. unfold refers. rewrite Hk. naive_solver. Qed.

(** What a reference leads to has the class of the endpoint. *)
Lemma refers_typed w e ep x y :
  shape w -> endpoints !! e = Some ep -> refers w e x y ->
  objects w !! x = Some (e_node ep) /\ objects w !! y = Some (e_value ep).
Proof using Hs.
  intros Hw He (k & Hk & Hp). destruct (field_of_Some w e x k Hk) as (ep' & i & f & He' & Hi & -> & Hobj & Hf & Hty & Hv & Hr). simplify_eq.
  split; [done |]. rewrite <- Hv. destruct (decide (f_type f = HAS_MANY)) as [Hm | Hm].
  - destruct (sh_container w Hw _ _ _ Hf Hm) as (Hh & c & Hc & _ & _ & _ & _ & Hits & _).
    apply (points_container w (x, i) c y Hc Hh) in Hp. apply list_elem_of_fmap in Hp as (it & E & Hit).
    rewrite list.Forall_forall in Hits. destruct (Hits it Hit) as (_ & b & E' & Hb). congruence.
  - destruct (sh_holder w Hw _ _ _ Hf Hm) as (Hc & h & Hh & _ & _ & _ & Hty'). apply (points_holder w (x, i) h y Hh Hc) in Hp.
    by apply Hty'.
Qed.

(** ** Telling the other end *)

Definition foreign_of (e : nat) : option nat := match endpoints !! e with Some ep => e_foreign ep | None => None end.

Lemma foreign_of_Some e ep fe :
  endpoints !! e = Some ep -> foreign_of e = Some fe ->
  fe <> e /\ exists fp, endpoints !! fe = Some fp /\ foreign_of fe = Some e /\ e_value fp = e_node ep /\ e_node fp = e_value ep
    /\ partners (e_kind ep) (e_kind fp) /\ foreign_endpoint endpoints e = Some fp.
Proof using Hs.
  unfold foreign_of, foreign_endpoint. intros He. rewrite He. intros Hf. destruct (sk_foreign Hs e ep fe He Hf) as (Hne & fp & H1 & H2 & H3 & H4 & H5).
  split; [done |]. exists fp. rewrite H1, Hf, H1. done.
Qed.

(** [w'] differs from [w] in counters and references only. *)
Definition related (w w' : world) : Prop := objects w' = objects w /\ shape w'.

(** The object that [a] has referred to forgets [a]. *)
Lemma leave_spec w e ep x owner a b d :
  shape w -> owes w d -> endpoints !! e = Some ep ->
  (forall fe, foreign_of e = Some fe -> refers w fe b a) ->
  (forall fe fp, foreign_of e = Some fe -> endpoints !! fe = Some fp -> directed fp x owner b a) ->
  exists w', remove_value_from_foreign layout endpoints e x owner w = Ok w' /\ owes w' d /\ related w w'
    /\ (forall e' u v, refers w' e' u v <-> refers w e' u v /\ ~ (foreign_of e = Some e' /\ u = b /\ v = a))
    /\ (forall k, (forall fe, foreign_of e = Some fe -> field_of w fe b <> Some k) -> same_at w w' k)
    /\ (foreign_of e <> None -> forall y, count w' y = count w y - at_ (Some a) 1 y)%Z.
Proof using Hs.
  intros Hw Ho He Hback Hdir. unfold remove_value_from_foreign. destruct (foreign_of e) as [fe|] eqn:Ef.
  - destruct (foreign_of_Some e ep fe He Ef) as (Hne & fp & Hfp & _ & _ & _ & _ & ->).
    destruct (Hback fe eq_refl) as (k & Hk & Hp).
    destruct (remove_value_spec w fe fp k x owner b a d Hw Ho Hfp Hk Hp) as (w' & E & Ho' & Hu & Hcnt); [by apply (Hdir fe) |].
    exists w'. split; [done |]. split; [done |]. split; [by destruct Hu |].
    split; [|split; [intros k' Hk'; apply (up_raw _ _ _ _ Hu); intros ->; by apply (Hk' fe) | done]].
    intros e' u v. rewrite (refers_updates w k _ w' e' u v Hu). split.
    + intros [[H1 [H2 H3]] | [H1 H2]].
      * split; [by exists k |]. intros ([= <-] & -> & ->). done.
      * split; [done |]. intros ([= <-] & -> & ->). done.
    + intros [H1 H2]. destruct (decide (field_of w e' u = Some k)) as [Hk' | Hk']; [left | by right].
      split; [done |]. destruct (field_of_inj w e' u fe b k Hk' Hk) as [-> ->]. split; [by apply (refers_points w fe b v k Hk) |].
      intros ->. by apply H2.
  - exists w. unfold foreign_endpoint. rewrite He. unfold foreign_of in Ef. rewrite He in Ef. rewrite Ef. split; [done |]. split; [done |].
    split; [done |]. split; [naive_solver | split; [done | done]].
Qed.

(** The object that [a] refers to now gets to know [a]. *)
Lemma enter_spec w e ep x owner a b d :
  shape w -> owes w d -> endpoints !! e = Some ep -> objects w !! a = Some (e_node ep) -> objects w !! b = Some (e_value ep) ->
  (forall fe fp k, foreign_of e = Some fe -> endpoints !! fe = Some fp -> field_of w fe b = Some k -> directed fp x owner b a /\ takes w fp k a) ->
  exists w', insert_value_into_foreign layout endpoints e x owner w = Ok w' /\ owes w' d /\ related w w'
    /\ (forall e' u v, refers w' e' u v <-> refers w e' u v \/ (foreign_of e = Some e' /\ u = b /\ v = a))
    /\ (forall k, (forall fe, foreign_of e = Some fe -> field_of w fe b <> Some k) -> same_at w w' k).
Proof using Hs.
  intros Hw Ho He Ha Hb Hdir. unfold insert_value_into_foreign. destruct (foreign_of e) as [fe|] eqn:Ef.
  - destruct (foreign_of_Some e ep fe He Ef) as (Hne & fp & Hfp & _ & E1 & E2 & _ & ->).
    destruct (field_of_make w fe fp b Hfp) as [k Hk]; [by rewrite E2 |]. destruct (Hdir fe fp k eq_refl Hfp Hk) as [Hd Ht].
    destruct (insert_value_spec w fe fp k x owner b a d Hw Ho Hfp Hk Hd) as (w' & E & Ho' & Hu); [by rewrite E1 | done |].
    exists w'. split; [done |]. split; [done |]. split; [by destruct Hu |].
    split; [|intros k' Hk'; apply (up_raw _ _ _ _ Hu); intros ->; by apply (Hk' fe)].
    intros e' u v. rewrite (refers_updates w k _ w' e' u v Hu). split.
    + intros [[H1 [H2 | ->]] | [H1 H2]]; [left; by exists k | right | by left].
      destruct (field_of_inj w e' u fe b k H1 Hk) as [-> ->]. done.
    + intros [H1 | ([= <-] & -> & ->)]; [|left; auto]. destruct (decide (field_of w e' u = Some k)) as [Hk' | Hk']; [left | by right].
      split; [done |]. left. by apply (refers_points w e' u v k Hk').
  - exists w. unfold foreign_endpoint. rewrite He. unfold foreign_of in Ef. rewrite He in Ef. rewrite Ef. split; [done |]. split; [done |].
    split; [done |]. split; [naive_solver | done].
Qed.

(** ** Assigning a pointer *)

(** Where the other end is a pointer too, it must be free for [a]. *)
Definition free_for (w : world) (e : nat) (a : loc) (p : option loc) : Prop :=
  forall b fe fp, p = Some b -> foreign_of e = Some fe -> endpoints !! fe = Some fp -> e_kind fp <> many_to_one ->
  forall a', refers w fe b a' -> a' = a.

Section Assign.
Context (w : world) (a : loc) (i : nat) (e : nat) (ep : endpoint) (f : field).
Context (Hok : world_ok w) (He : endpoints !! e = Some ep) (Hi : slot ep = Some (i, f)) (Hptr : type_of ep <> HAS_MANY).
Context (Ha : objects w !! a = Some (e_node ep)).

Lemma assign_field : field_of w e a = Some (a, i).
Proof using He Hi Ha. unfold field_of. by rewrite He, Hi, decide_True. Qed.

Lemma assign_kind fe fp b :
  foreign_of e = Some fe -> endpoints !! fe = Some fp -> directed fp (item_of (Some a)) (Some b) b a.
Proof using Hs He Hptr.
  intros Hfe Hfp. destruct (foreign_of_Some e ep fe He Hfe) as (_ & fp' & Hfp' & _ & _ & _ & Hp & _). simplify_eq.
  unfold directed, partners, type_of in *. destruct (e_kind ep) as [[]| |], (e_kind fp) as [[]| |]; try done.
Qed.

Lemma assign_pointer v :
  related w v -> exists h, holders v !! (a, i) = Some h /\ holder_ok v a (e_node ep) i f h /\ relation_info_ h = Some e
    /\ (forall b, refers v e a b <-> proxy_ h = Some b).
Proof using Hs He Hi Ha Hptr.
  intros [Eo Hv]. destruct (field_of_Some w e a (a, i) assign_field) as (ep' & i' & f' & He' & Hi' & [= <-] & _ & Hf & Hty & _ & Hr). simplify_eq.
  rewrite <- (field_at_objects w v _ Eo) in Hf. destruct (sh_holder v Hv _ _ _ Hf) as (Hc & h & Hh & Hho); [congruence |].
  exists h. split_and!; [done | done | |]; [by destruct Hho as (_ & _ & -> & _) |].
  intros b. rewrite (refers_points v e a b (a, i)) by (rewrite (field_of_objects w v) by done; apply assign_field).
  by apply points_holder.
Qed.

(** The first half of [reset]: the old object is left. *)
Lemma reset_leave h :
  holders w !! (a, i) = Some h -> holder_ok w a (e_node ep) i f h -> relation_info_ h = Some e ->
  (forall b, refers w e a b <-> proxy_ h = Some b) ->
  exists w1,
    (if is_internal (proxy_ h) w && is_inserted_ h then
       let? w := decrement_reference_count (proxy_ h) w in
       notify_relation (fun e value owner w => remove_value_from_foreign layout endpoints e (item_of value) owner w) h true (proxy_ h) w
     else Ok w) = Ok w1
    /\ owes w1 (at_ (proxy_ h) (-1)) /\ related w w1
    /\ (forall e' u v, refers w1 e' u v <-> refers w e' u v /\ ~ (foreign_of e = Some e' /\ proxy_ h = Some u /\ v = a)).
Proof using Hs Hok He Hptr.
  intros Hh (Hin & Hown & _ & Hty) Hrel Hpt. destruct Hok as [Hsh Hex Hst].
  rewrite (internal_typed w f (proxy_ h) Hsh Hty), Hin. destruct (proxy_ h) as [q|] eqn:Eq; cbn [andb].
  - destruct (count_same w q (-1) _ Hex) as (w1 & E1 & Ho1 & Hs1); [by rewrite (Hty q eq_refl) |].
    unfold decrement_reference_count. rewrite E1. cbn [rbind]. unfold notify_relation. rewrite Hrel, Hown.
    pose proof (fun e' u v => refers_same w w1 e' u v Hs1) as Hr1.
    destruct (leave_spec w1 e ep (item_of (Some a)) (Some q) a q (fun x => 0 + at_ (Some q) (-1) x)%Z) as (w2 & E2 & Ho2 & Hrel2 & Hr2 & _).
    + by eapply same_fields_shape.
    + exact Ho1.
    + exact He.
    + intros fe Hfe. apply Hr1. unfold foreign_of in Hfe. rewrite He in Hfe. apply (Hst e ep fe a q He Hfe). by apply Hpt.
    + intros fe fp. by apply assign_kind.
    + exists w2. split; [exact E2 |]. split; [eapply owes_ext; [|exact Ho2]; intros x; cbn beta; lia |].
      split; [destruct Hs1 as (E & _), Hrel2 as [E' ?]; split; [congruence | done] |]. intros e' u v. rewrite Hr2, Hr1. naive_solver.
  - exists w. split; [done |]. split; [eapply owes_ext; [|exact Hex]; intros x; by rewrite at_None |]. split; [done |]. naive_solver.
Qed.

Lemma related_trans u v z : related u v -> related v z -> related u z.
Proof. intros [E1 _] [E2 Hz]. split; [congruence | done]. Qed.

(** Both ends of every relation agree again. *)
Lemma reset_in_step w' h p :
  (forall b, refers w e a b <-> proxy_ h = Some b) ->
  (forall e' u v, refers w' e' u v <->
     (((e' = e /\ u = a) /\ p = Some v)
      \/ (~ (e' = e /\ u = a) /\ refers w e' u v /\ ~ (foreign_of e = Some e' /\ proxy_ h = Some u /\ v = a)))
     \/ (foreign_of e = Some e' /\ p = Some u /\ v = a)) ->
  in_step w'
  /\ (forall x y, refers w' e x y <-> if decide (x = a) then p = Some y else refers w e x y)
  /\ (forall e' x y, e' <> e -> foreign_of e <> Some e' -> refers w' e' x y <-> refers w e' x y).
Proof using Hs Hok He.
  intros Hpt Hr. pose proof (ok_step w Hok) as Hst.
  assert (forall fe, foreign_of e = Some fe -> fe <> e) as Hfe by (intros fe H; by destruct (foreign_of_Some e ep fe He H)).
  assert (forall fe, foreign_of fe = Some e -> foreign_of e = Some fe) as Hsym.
  { intros fe H. unfold foreign_of in H. destruct (endpoints !! fe) as [fp|] eqn:Efp; [|done].
    destruct (foreign_of_Some fe fp e Efp) as (_ & ep' & He' & H' & _); [by unfold foreign_of; rewrite Efp |]. done. }
  assert (forall x y, refers w' e x y <-> if decide (x = a) then p = Some y else refers w e x y) as Hself.
  { intros x y. rewrite Hr. case_decide as Hx; naive_solver. }
  assert (forall fe x y, foreign_of e = Some fe -> refers w' e x y <-> refers w' fe y x) as Hpair.
  { intros fe x y Hf. rewrite Hself, Hr. specialize (Hfe fe Hf).
    assert (refers w e x y <-> refers w fe y x) as Hback by (unfold foreign_of in Hf; rewrite He in Hf; by apply (Hst e ep)).
    case_decide as Hx; [subst x; specialize (Hpt y) |]; naive_solver. }
  split_and!; [| exact Hself | intros e' x y Hne Hnf; rewrite Hr; naive_solver].
  intros e1 ep1 f1 x y He1 Hf1. assert (foreign_of e1 = Some f1) as Hfo by by unfold foreign_of; rewrite He1.
  destruct (decide (e1 = e)) as [-> | Hn1]; [by apply Hpair |].
  destruct (decide (f1 = e)) as [-> | Hn2]; [symmetry; apply Hpair; by apply Hsym |].
  assert (foreign_of e <> Some e1) as N1.
  { intros H. destruct (foreign_of_Some e ep e1 He H) as (_ & fp & Hfp & H' & _). congruence. }
  assert (foreign_of e <> Some f1) as N2.
  { intros H. destruct (foreign_of_Some e ep f1 He H) as (_ & fp & Hfp & H' & _).
    destruct (foreign_of_Some e1 ep1 f1 He1 Hfo) as (_ & fp' & Hfp' & H'' & _). congruence. }
  rewrite !Hr. specialize (Hst e1 ep1 f1 x y He1 Hf1). naive_solver.
Qed.

(** The second half: the new object is entered. *)
Lemma reset_enter w2 h p c d :
  shape w2 -> objects w2 = objects w -> owes w2 d -> (forall x, d x = (- at_ p 1 x)%Z) -> typed w f p -> owner_ h = Some a ->
  relation_info_ h = Some e -> is_inserted_ h = true ->
  (forall b fe fp k, p = Some b -> foreign_of e = Some fe -> endpoints !! fe = Some fp -> field_of w2 fe b = Some k -> takes w2 fp k a) ->
  exists w3,
    (if is_internal p w2 && is_inserted_ h then
       let? w := increment_reference_count p w2 in
       notify_relation (fun e value owner w => insert_value_into_foreign layout endpoints e (item_of value) owner w) (set_proxy p c h) true p w
     else Ok w2) = Ok w3
    /\ exact w3 /\ related w2 w3
    /\ (forall e' u v, refers w3 e' u v <-> refers w2 e' u v \/ (foreign_of e = Some e' /\ p = Some u /\ v = a)).
Proof using Hs He Hi Hptr Ha.
  intros Hsh Eo Ho Hd Hty Hown Hrel Hin Hfree.
  assert (typed w2 f p) as Hty2 by (intros b Hb; rewrite Eo; by apply Hty).
  rewrite (internal_typed w2 f p Hsh Hty2), Hin. destruct p as [b|]; cbn [andb].
  - assert (objects w2 !! b = Some (e_value ep)) as Hb.
    { destruct (slot_field e ep i f He Hi) as (_ & _ & <- & _). by apply Hty2. }
    destruct (count_same w2 b 1 _ Ho) as (w3 & E3 & Ho3 & Hs3); [by rewrite Hb |]. unfold increment_reference_count. rewrite E3. cbn [rbind].
    unfold notify_relation. cbn [set_proxy relation_info_ owner_]. rewrite Hrel, Hown.
    pose proof (fun e' u v => refers_same w2 w3 e' u v Hs3) as Hr3. pose proof Hs3 as (Eo3 & _).
    destruct (enter_spec w3 e ep (item_of (Some a)) (Some b) a b _ (same_fields_shape _ _ Hs3 Hsh) Ho3 He) as (w4 & E4 & Ho4 & Hrel4 & Hr4 & _).
    + by rewrite Eo3, Eo.
    + by rewrite Eo3.
    + intros fe fp k Hfe Hfp Hk. split; [by eapply assign_kind |]. rewrite (field_of_objects w2 w3) in Hk by done.
      specialize (Hfree b fe fp k eq_refl Hfe Hfp Hk). unfold takes in *. destruct (e_kind fp); setoid_rewrite (same_fields_points w2 w3 _ _ Hs3); done.
    + exists w4. split; [exact E4 |]. split; [eapply owes_ext; [|exact Ho4]; intros x; cbn beta; rewrite Hd; lia |].
      split; [destruct Hrel4; split; [congruence | done] |]. intros e' u v. rewrite Hr4, Hr3. naive_solver.
  - exists w2. split; [done |]. split; [eapply owes_ext; [|exact Ho]; intros x; rewrite Hd, at_None; lia |]. split; [done |]. naive_solver.
Qed.

Lemma reset_spec p c :
  typed w f p -> free_for w e a p ->
  exists w', reset layout endpoints (a, i) p c w = Ok w' /\ objects w' = objects w /\ world_ok w'
    /\ (forall x y, refers w' e x y <-> if decide (x = a) then p = Some y else refers w e x y)
    /\ (forall e' x y, e' <> e -> foreign_of e <> Some e' -> refers w' e' x y <-> refers w e' x y).
Proof using Hs Hok He Hi Hptr Ha.
  intros Hty Hfree. pose proof (ok_shape w Hok) as Hsh. destruct (assign_pointer w) as (h & Hh & Hho & Hrel & Hpt); [done |].
  assert (forall fe, foreign_of e = Some fe -> fe <> e) as Hfe by (intros fe H; by destruct (foreign_of_Some e ep fe He H)).
  unfold reset, reset_with, holder_at. rewrite Hh. cbn [rbind]. destruct (decide (proxy_ h = p)) as [E | Hne].
  { exists w. split_and!; [done | done | done | | done]. intros x y. case_decide as Hx; [|done]. subst x. rewrite Hpt. by rewrite E. }
  destruct (reset_leave h Hh Hho Hrel Hpt) as (w1 & -> & Ho1 & Hrl1 & Hr1). cbn [rbind].
  destruct (assign_pointer w1 Hrl1) as (h1 & Hh1 & Hho1 & Hrel1 & Hpt1). rewrite Hh1. cbn [rbind].
  assert (proxy_ h1 = proxy_ h) as Ep.
  { apply option_eq. intros b. rewrite <- Hpt1, <- Hpt, Hr1. naive_solver. }
  pose proof Hho1 as (Hin1 & Hown1 & _). pose proof Hrl1 as [Eo1 Hsh1].
  assert (updates w1 (a, i) (fun b => p = Some b) (put (a, i) (set_proxy p c h1) w1)) as Hup.
  { destruct (field_of_Some w e a (a, i) assign_field) as (ep' & i' & f' & He' & Hi' & [= <-] & _ & Hf & Hty' & _). simplify_eq.
    eapply updates_put; [done | by rewrite (field_at_objects w w1) | congruence | done |]. intros b Hb. rewrite Eo1. by apply Hty. }
  set (w2 := put (a, i) (set_proxy p c h1) w1) in *.
  pose proof (owes_move w1 h1 p _ (a, i) c Ho1 Hh1 Hin1) as Ho2. fold w2 in Ho2.
  assert (forall e' u v, refers w2 e' u v <-> ((e' = e /\ u = a) /\ p = Some v) \/ (~ (e' = e /\ u = a) /\ refers w1 e' u v)) as Hr2.
  { intros e' u v. rewrite (refers_updates w1 (a, i) _ w2 e' u v Hup).
    assert (field_of w1 e' u = Some (a, i) <-> e' = e /\ u = a) as ->; [|done]. rewrite (field_of_objects w w1) by done. split.
    - intros H. exact (field_of_inj w e' u e a (a, i) H assign_field).
    - intros [-> ->]. exact assign_field. }
  destruct (reset_enter w2 h1 p c _ (up_shape _ _ _ _ Hup) Eo1 Ho2) as (w3 & E3 & Hex3 & Hrl3 & Hr3); [| done | done | done | done | |].
  { intros x. cbn beta. rewrite Ep, (at_neg _ 1). lia. }
  { intros b fe fp k -> Hf Hfp Hk. pose proof (fun y => refers_points w2 fe b y k Hk) as Hkp. unfold takes.
    destruct (e_kind fp) eqn:Ek; [intros y; rewrite <- Hkp, Hr2, Hr1 | rewrite <- Hkp, Hr2, Hr1 | intros y; rewrite <- Hkp, Hr2, Hr1].
    1, 3: intros [[[-> _] _] | (_ & H & _)]; [by apply Hfe in Hf | eapply (Hfree b fe fp); [done | done | done | by rewrite Ek | exact H]].
    intros [[[-> _] _] | (_ & H & _)]; [by apply Hfe in Hf |]. apply Hne, Hpt.
    unfold foreign_of in Hf. rewrite He in Hf. by apply (ok_step w Hok e ep fe a b He Hf). }
  exists w3. split; [exact E3 |]. destruct Hrl3 as [Eo3 Hsh3]. destruct (reset_in_step w3 h p Hpt) as (Hst & Hself & Hoth).
  { intros e' u v. rewrite Hr3, Hr2, Hr1. tauto. }
  split_and!; [by rewrite Eo3 | by constructor | exact Hself | exact Hoth].
Qed.
End Assign.

(** ** Changing a container *)

(** The two references that make up a link from [a] to [b]. *)
Definition link (e : nat) (a b : loc) (e' : nat) (u v : loc) : Prop :=
  (e' = e /\ u = a /\ v = b) \/ (foreign_of e = Some e' /\ u = b /\ v = a).

Lemma foreign_sym e e' : foreign_of e = Some e' -> foreign_of e' = Some e.
Proof using Hs.
  intros H. destruct (endpoints !! e) as [ep|] eqn:He; [|by unfold foreign_of in H; rewrite He in H].
  by destruct (foreign_of_Some e ep e' He H) as (_ & fp & _ & H' & _).
Qed.

Lemma link_sym e a b e1 f1 u v : foreign_of e1 = Some f1 -> link e a b e1 u v <-> link e a b f1 v u.
Proof using Hs.
  intros H. pose proof (foreign_sym e1 f1 H) as H'. unfold link. split.
  - intros [(-> & -> & ->) | (He & -> & ->)]; [by right | left]. apply foreign_sym in He. split_and!; congruence.
  - intros [(-> & -> & ->) | (He & -> & ->)]; [by right | left]. apply foreign_sym in He. split_and!; congruence.
Qed.

Lemma foreign_of_endpoint e ep f : endpoints !! e = Some ep -> e_foreign ep = Some f -> foreign_of e = Some f.
Proof. intros He Hf. unfold foreign_of. by rewrite He. Qed.

Lemma link_in_step w w' e a b :
  in_step w -> (forall e' u v, refers w' e' u v <-> refers w e' u v \/ link e a b e' u v) -> in_step w'.
Proof using Hs.
  intros Hst Hr e1 ep1 f1 u v He1 Hf1. rewrite !Hr, (Hst e1 ep1 f1 u v He1 Hf1).
  by rewrite (link_sym e a b e1 f1 u v (foreign_of_endpoint e1 ep1 f1 He1 Hf1)).
Qed.

Lemma unlink_in_step w w' e a b :
  in_step w -> (forall e' u v, refers w' e' u v <-> refers w e' u v /\ ~ link e a b e' u v) -> in_step w'.
Proof using Hs.
  intros Hst Hr e1 ep1 f1 u v He1 Hf1. rewrite !Hr, (Hst e1 ep1 f1 u v He1 Hf1).
  by rewrite (link_sym e a b e1 f1 u v (foreign_of_endpoint e1 ep1 f1 He1 Hf1)).
Qed.

Section Many.
Context (a : loc) (i : nat) (e : nat) (ep : endpoint) (f : field).
Context (He : endpoints !! e = Some ep) (Hi : slot ep = Some (i, f)) (Hmany : e_kind ep = many_to_one).

Lemma many_field w : objects w !! a = Some (e_node ep) -> field_of w e a = Some (a, i) /\ field_at w (a, i) = Some (e_node ep, f) /\ f_type f = HAS_MANY.
Proof using Hs He Hi Hmany.
  intros Ha. assert (field_of w e a = Some (a, i)) as H by (unfold field_of; by rewrite He, Hi, decide_True).
  split; [done |]. destruct (field_of_Some w e a (a, i) H) as (ep' & i' & f' & He' & Hi' & [= <-] & _ & Hf & Hty & _). simplify_eq.
  split; [done |]. unfold type_of in Hty. by rewrite Hmany in Hty.
Qed.

Lemma many_container w :
  objects w !! a = Some (e_node ep) -> shape w ->
  exists c, containers w !! (a, i) = Some c /\ holders w !! (a, i) = None /\ ostore_ c = true /\ c_owner_ c = Some a /\ relation_of endpoints c = Ok (e, ep)
    /\ Forall (item_ok w f) (items_ c) /\ NoDup (value_ <$> items_ c)
    /\ (forall b, refers w e a b <-> Some b ∈ value_ <$> items_ c).
Proof using Hs He Hi Hmany.
  intros Ha Hw. destruct (many_field w Ha) as (Hk & Hf & Ht).
  destruct (sh_container w Hw _ _ _ Hf Ht) as (Hh & c & Hc & Hst & Hown & Hrel & _ & Hits & Hnd).
  exists c. split_and!; try done.
  - unfold relation_of. cbn [snd fst] in Hrel. by rewrite Hrel, (slot_relation_at e ep i f He Hi), He.
  - intros b. rewrite (refers_points w e a b (a, i) Hk). by apply points_container.
Qed.

Lemma many_kind fe fp x b : foreign_of e = Some fe -> endpoints !! fe = Some fp -> value_ x = Some b -> directed fp x (Some a) b a /\ e_kind fp = belongs_to_many.
Proof using Hs He Hmany.
  intros Hfe Hfp Hx. destruct (foreign_of_Some e ep fe He Hfe) as (_ & fp' & Hfp' & _ & _ & _ & Hp & _). simplify_eq.
  unfold directed, partners in *. rewrite Hmany in Hp. by destruct (e_kind fp).
Qed.

Lemma many_apart w b : objects w !! a = Some (e_node ep) -> forall fe, foreign_of e = Some fe -> field_of w fe b <> Some (a, i).
Proof using Hs He Hi Hmany.
  intros Ha fe Hfe Hk. destruct (many_field w Ha) as (Hk' & _). destruct (field_of_inj w fe b e a (a, i) Hk Hk') as [-> _].
  by destruct (foreign_of_Some e ep e He Hfe).
Qed.

(** The container after the other end has been told. *)
Lemma many_unchanged w w' b :
  objects w !! a = Some (e_node ep) -> objects w' = objects w ->
  (forall k, (forall fe, foreign_of e = Some fe -> field_of w fe b <> Some k) -> same_at w w' k) ->
  containers w' !! (a, i) = containers w !! (a, i).
Proof using Hs He Hi Hmany. intros Ha Eo H. apply (H (a, i)). intros fe Hfe. by eapply many_apart. Qed.

(** The world with other items in the container. *)
Lemma many_put w c its :
  shape w -> objects w !! a = Some (e_node ep) -> containers w !! (a, i) = Some c -> Forall (item_ok w f) its -> NoDup (value_ <$> its) ->
  shape (put_items (a, i) its c w)
  /\ (forall e' u v, refers (put_items (a, i) its c w) e' u v <->
       ((e' = e /\ u = a) /\ Some v ∈ value_ <$> its) \/ (~ (e' = e /\ u = a) /\ refers w e' u v)).
Proof using Hs He Hi Hmany.
  intros Hw Ha Hc Hits Hnd. destruct (many_field w Ha) as (Hk & Hf & Ht).
  pose proof (updates_items w (a, i) _ f c its Hw Hf Ht Hc Hits Hnd) as Hu. split; [by destruct Hu |].
  intros e' u v. rewrite (refers_updates w (a, i) _ _ e' u v Hu).
  assert (field_of w e' u = Some (a, i) <-> e' = e /\ u = a) as ->; [|done]. split.
  - intros H. exact (field_of_inj w e' u e a (a, i) H Hk).
  - by intros [-> ->].
Qed.

Lemma many_insert_spec w pos b c :
  world_ok w -> objects w !! a = Some (e_node ep) -> objects w !! b = Some (e_value ep) -> containers w !! (a, i) = Some c ->
  ~ refers w e a b -> (forall fe a', foreign_of e = Some fe -> ~ refers w fe b a') ->
  exists w' c', insert layout endpoints (a, i) pos (Some b) w = Ok w' /\ objects w' = objects w /\ world_ok w'
    /\ containers w' !! (a, i) = Some c' /\ value_ <$> items_ c' = take pos (value_ <$> items_ c) ++ Some b :: drop pos (value_ <$> items_ c)
    /\ (forall e' u v, refers w' e' u v <-> refers w e' u v \/ link e a b e' u v).
Proof using Hs He Hi Hmany.
  intros [Hsh Hex Hst] Ha Hb Hc Hno Hfree. destruct (many_container w Ha Hsh) as (c0 & Hc0 & Hh & Hsto & Hown & Hrel & Hits & Hnd & Hpt). simplify_eq.
  destruct (many_field w Ha) as (Hk & Hf & Ht). assert (objects w !! b = Some (f_value f)) as Hbf.
  { destruct (slot_field e ep i f He Hi) as (_ & _ & -> & _). done. }
  unfold insert, container_at. rewrite Hc. cbn [rbind]. rewrite Hsto, Hrel. cbn [rbind].
  unfold endpoint_insert_holder. rewrite Hmany, Hown. unfold many_to_one_insert_holder. cbn zeta.
  change (value_ (set_has_many_item_proxy (Some a) (mark_inserted true (item_of (Some b))))) with (Some b).
  unfold increment_reference_count. destruct (count_same w b 1 _ Hex) as (w1 & -> & Ho1 & Hs1); [by rewrite Hb |]. cbn [rbind].
  set (x := Item (Some b) true (Some a)). change (mark_inserted true (set_has_many_item_proxy (Some a) (mark_inserted true (item_of (Some b))))) with x.
  pose proof Hs1 as (Eo1 & _ & Eh1 & Ec1).
  pose proof (fun e' u v => refers_same w w1 e' u v Hs1) as Hr1.
  destruct (enter_spec w1 e ep x (Some a) a b _ (same_fields_shape _ _ Hs1 Hsh) Ho1 He) as (w2 & -> & Ho2 & [Eo2 Hsh2] & Hr2 & Hfr2).
  { by rewrite Eo1. } { by rewrite Eo1. }
  { intros fe fp k Hfe Hfp Hk'. destruct (many_kind fe fp x b Hfe Hfp eq_refl) as [Hd Hkd]. split; [done |]. unfold takes. rewrite Hkd.
    intros y Hy. destruct (Hfree fe y Hfe). apply Hr1. by exists k. }
  cbn [rbind]. destruct (mark_modified_same w2 a _ Ho2) as (w3 & -> & Ho3 & Hs3). cbn [rbind]. pose proof Hs3 as (Eo3 & _ & Eh3 & Ec3).
  assert (containers w3 !! (a, i) = Some c) as Hc3.
  { rewrite Ec3, (many_unchanged w1 w2 b), Ec1; [done | by rewrite Eo1 | done | done]. }
  rewrite Hc3. cbn [rbind]. set (its := take pos (items_ c) ++ x :: drop pos (items_ c)).
  assert (value_ <$> its = take pos (value_ <$> items_ c) ++ Some b :: drop pos (value_ <$> items_ c)) as Ev.
  { unfold its. by rewrite fmap_app, fmap_cons, fmap_take, fmap_drop. }
  assert (value_ <$> its ≡ₚ Some b :: (value_ <$> items_ c)) as Hperm.
  { rewrite Ev, <- Permutation_middle. by rewrite take_drop. }
  destruct (many_put w3 c its) as [Hsh4 Hr4]; [by eapply same_fields_shape | congruence | done | | |].
  { rewrite <- (take_drop pos (items_ c)) in Hits. apply Forall_app in Hits as [F1 F2].
    apply Forall_app. split; [|constructor; [by split; [|exists b; rewrite Eo3, Eo2, Eo1] |]];
      (eapply list.Forall_impl; [eassumption |]; intros z; apply item_ok_objects; congruence). }
  { rewrite Hperm. apply list.NoDup_cons. split; [|done]. by rewrite <- Hpt. }
  assert (forall e' u v, refers (put_items (a, i) its c w3) e' u v <-> refers w e' u v \/ link e a b e' u v) as Hr5.
  { intros e' u v. rewrite Hr4, (refers_same w2 w3 e' u v Hs3), Hr2, Hr1, Hperm, elem_of_cons. unfold link.
    assert (foreign_of e <> Some e) by (intros H; by destruct (foreign_of_Some e ep e He H)).
    destruct (decide (e' = e /\ u = a)) as [[-> ->] | Hn]; [rewrite <- Hpt; naive_solver | tauto]. }
  exists (put_items (a, i) its c w3), (set_items its c). split; [done |]. split; [cbn; congruence |]. split; [|split; [cbn; by rewrite lookup_insert_eq |]; done].
  constructor; [done | | by eapply link_in_step].
  eapply owes_ext; [|by apply put_items_owes]. intros y. cbn beta. unfold its. rewrite item_weight_split by done. rewrite take_drop.
  replace (set_items (items_ c) c) with c by by destruct c. cbn [value_ x]. lia.
Qed.

(** ** Taking items out *)

(** Telling the other end of a container does not look at containers. *)
Definition keeps_containers (g : world -> result world) : Prop :=
  forall C w, g (set_containers C w) = (let? w' := g w in Ok (set_containers C w')).

Lemma count_keeps d p : keeps_containers (count_by d p).
Proof. intros C w. destruct p as [l|]; [|done]. cbn. by destruct (refs w !! l). Qed.

Lemma bind_keeps g h : keeps_containers g -> keeps_containers h -> keeps_containers (fun w => let? w := g w in h w).
Proof. intros Hg Hh C w. rewrite Hg. destruct (g w) as [v|]; [|done]. cbn [rbind]. apply Hh. Qed.

Lemma quiet_keeps k p c : keeps_containers (reset_quiet k p c).
Proof.
  assert (forall q h n, keeps_containers (notify_relation no_call h n q)) as Hn.
  { intros q h n D v. unfold notify_relation. by destruct (relation_info_ h), n. }
  assert (forall q d h, keeps_containers (fun v => if is_internal q v && is_inserted_ h then let? v := count_by d q v in notify_relation no_call h false q v else Ok v)) as Hc.
  { intros q d h C w. change (is_internal q (set_containers C w)) with (is_internal q w). destruct (_ && _); [|done].
    by apply (bind_keeps (count_by d q)); [apply count_keeps | apply Hn]. }
  intros C w. unfold reset_quiet, reset_with, holder_at. cbn [set_containers holders]. destruct (holders w !! k) as [h|]; [|done]. cbn [rbind].
  destruct (decide (proxy_ h = p)); [done |].
  unfold decrement_reference_count, increment_reference_count. rewrite (Hc (proxy_ h) (-1)%Z h C w).
  destruct (if is_internal (proxy_ h) w && is_inserted_ h then _ else _) as [v|]; [|done]. cbn [rbind set_containers holders].
  destruct (holders v !! k) as [h'|]; [|done]. cbn [rbind].
  exact (Hc p 1%Z h' C (put k (set_proxy p c h') v)).
Qed.

Lemma process_keeps visit n fs :
  (forall j g, fs !! j = Some g -> keeps_containers (visit (n + j) g)) -> keeps_containers (process visit n fs).
Proof.
  revert n. induction fs as [|g fs IH]; intros n Hv; [done |]. cbn [process]. apply bind_keeps.
  - rewrite <- (Nat.add_0_r n). by apply Hv.
  - apply IH. intros j g' Hg. replace (S n + j) with (n + S j) by lia. by apply Hv.
Qed.

Lemma remove_keeps x owner : keeps_containers (remove_value_from_foreign layout endpoints e x owner).
Proof using Hs He Hmany.
  unfold remove_value_from_foreign. destruct (foreign_endpoint endpoints e) as [fp|] eqn:Ef; [|done].
  assert (exists fe, endpoints !! fe = Some fp /\ e_kind fp = belongs_to_many) as (fe & Hfp & Hk).
  { unfold foreign_endpoint in Ef. rewrite He in Ef. destruct (e_foreign ep) as [fe|] eqn:Ee; [|done]. exists fe. split; [done |].
    destruct (sk_foreign Hs e ep fe He Ee) as (_ & fp' & Hfp' & _ & _ & _ & Hp). simplify_eq. unfold partners in Hp. rewrite Hmany in Hp.
    by destruct (e_kind fp). }
  unfold remove_value. rewrite Hk. unfold belongs_to_many_remove_value. apply bind_keeps.
  - unfold remover_remove, visit_object. destruct (value_ x) as [t|]; [|done]. intros C w. cbn [set_containers objects].
    destruct (deref (objects w) (Some t)) as [v|]; [|done]. cbn [rbind]. refine (process_keeps _ 0 _ _ C w). intros j g Hg.
    unfold remover_visit. destruct (selected _ _ g) eqn:Hsel; [|done].
    destruct (sk_slot Hs fe fp Hfp) as (i' & f' & Hi' & Hty & _). rewrite (sk_unique Hs fe fp i' f' j g Hfp Hi' Hg Hsel) in Hg |- *.
    destruct (slot_field fe fp i' f' Hfp Hi') as (Hl & _). assert (g = f') as -> by congruence.
    unfold type_of in Hty. rewrite Hk in Hty. rewrite Hty. apply quiet_keeps.
  - intros C w. destruct (value_ x); [|done]. cbn. by destruct (decide _).
Qed.

Lemma keeps_same g w w' : keeps_containers g -> g w = Ok w' -> containers w' = containers w.
Proof.
  intros Hg E. pose proof (Hg (containers w) w) as H. assert (set_containers (containers w) w = w) as Ew by by destruct w.
  rewrite Ew, E in H. cbn [rbind] in H. injection H as H. by rewrite H.
Qed.

(** One item [x] is detached while the items [D] before it, which are detached
    already, are still in the container. *)
Lemma detach_spec w c L0 D x L2 b :
  containers w !! (a, i) = Some c -> items_ c = L0 ++ D ++ x :: L2 -> value_ x = Some b -> objects w !! a = Some (e_node ep) ->
  world_ok (put_items (a, i) (L0 ++ x :: L2) c w) ->
  exists w' c' x', detach_item layout endpoints (a, i) (length L0 + length D) w = Ok w' /\ objects w' = objects w
    /\ containers w' !! (a, i) = Some c' /\ items_ c' = L0 ++ (D ++ [x']) ++ L2
    /\ world_ok (put_items (a, i) (L0 ++ L2) c' w')
    /\ (forall e' u v, refers (put_items (a, i) (L0 ++ L2) c' w') e' u v <->
         refers (put_items (a, i) (L0 ++ x :: L2) c w) e' u v /\ ~ link e a b e' u v).
Proof using Hs He Hi Hmany.
  intros Hc El Hx Ha [Hsh Hex Hst]. set (v := put_items (a, i) (L0 ++ x :: L2) c w) in *.
  assert (w = set_containers (containers w) v) as Ew by by destruct w.
  destruct (many_container v Ha Hsh) as (cv & Hcv & _ & _ & Hown & Hrel & Hits & Hnd & Hpt). cbn in Hcv. rewrite lookup_insert_eq in Hcv.
  injection Hcv as <-. change (c_owner_ c = Some a) in Hown. change (relation_of endpoints c = Ok (e, ep)) in Hrel.
  cbn [set_items items_] in Hits, Hnd, Hpt. assert (refers v e a b) as Hab by (apply Hpt; rewrite fmap_app, fmap_cons, Hx; set_solver).
  assert (item_inserted_ x = true /\ objects v !! b = Some (f_value f)) as [Hxi Hb].
  { apply Forall_app in Hits as [_ Hits]. apply Forall_cons_iff in Hits as [[H1 (b' & H2 & H3)] _]. split; [done |]. by simplify_eq. }
  unfold detach_item, container_at. rewrite Hc. cbn [rbind]. rewrite El, (app_assoc L0 D).
  rewrite (list_lookup_middle (L0 ++ D) L2 x (length L0 + length D)) by by rewrite length_app. rewrite Hrel. cbn [rbind].
  rewrite Hown. set (x1 := mark_inserted false x). 
  replace (remove_value_from_foreign layout endpoints e x1 (Some a) w)
    with (remove_value_from_foreign layout endpoints e x1 (Some a) (set_containers (containers w) v)) by by rewrite <- Ew.
  rewrite remove_keeps.
  destruct (leave_spec v e ep x1 (Some a) a b _ Hsh Hex He) as (v1 & E1 & Ho1 & [Eo1 Hsh1] & Hr1 & _).
  { intros fe Hfe. unfold foreign_of in Hfe. rewrite He in Hfe. by apply (Hst e ep fe a b He Hfe). }
  { intros fe fp Hfe Hfp. by apply (many_kind fe fp x1 b Hfe Hfp). }
  pose proof (keeps_same _ v v1 (remove_keeps _ _) E1) as Ec1. rewrite E1. cbn [rbind].
  unfold endpoint_remove_holder. rewrite Hmany. unfold many_to_one_remove_holder. cbn zeta. set (x2 := set_has_many_item_proxy None x1). change (value_ x2) with (value_ x). rewrite Hx.
  unfold decrement_reference_count. rewrite count_keeps. destruct (count_same v1 b (-1) _ Ho1) as (v2 & E2 & Ho2 & Hs2); [by rewrite Eo1, Hb |].
  rewrite E2. pose proof Hs2 as (Eo2 & _ & _ & Ec2). cbn [rbind set_containers containers]. rewrite Hc. cbn [rbind]. rewrite El, (app_assoc L0 D).
  rewrite insert_app_r_alt by (rewrite length_app; lia). rewrite length_app, Nat.sub_diag. change (<[0 := x2]> (x :: L2)) with (x2 :: L2).
  set (its := (L0 ++ D) ++ x2 :: L2). set (cv := set_items (L0 ++ x :: L2) c).
  assert (containers v2 = <[(a, i) := cv]> (containers w)) as Ecv by by rewrite Ec2, Ec1.
  eexists _, (set_items its c), x2. split; [done |]. split; [cbn; by rewrite Eo2, Eo1 |]. split; [cbn; apply lookup_insert_eq |].
  split; [cbn; unfold its; by rewrite <- !app_assoc |].
  assert (put_items (a, i) (L0 ++ L2) (set_items its c) (put_items (a, i) its c (set_containers (containers w) v2))
    = put_items (a, i) (L0 ++ L2) cv v2) as ->.
  { unfold put_items, set_containers. cbn. f_equal. by rewrite Ecv, !insert_insert_eq. }
  assert (containers v2 !! (a, i) = Some cv) as Hcv2 by by rewrite Ecv, lookup_insert_eq.
  assert (value_ <$> L0 ++ x :: L2 ≡ₚ Some b :: (value_ <$> L0 ++ L2)) as Hperm.
  { rewrite !fmap_app, fmap_cons, Hx. by rewrite <- Permutation_middle. }
  rewrite Hperm in Hnd. apply list.NoDup_cons in Hnd as [Hnb Hnd].
  destruct (many_put v2 cv (L0 ++ L2)) as [Hsh3 Hr3]; [by eapply same_fields_shape | by rewrite Eo2, Eo1 | done | | done |].
  { apply Forall_app in Hits as [F1 F2]. apply Forall_cons_iff in F2 as [_ F2].
    apply Forall_app. split; (eapply list.Forall_impl; [eassumption |]; intros z; apply item_ok_objects; congruence). }
  assert (forall e' u y, refers (put_items (a, i) (L0 ++ L2) cv v2) e' u y <-> refers v e' u y /\ ~ link e a b e' u y) as Hr4.
  { intros e' u y. rewrite Hr3, (refers_same v1 v2 e' u y Hs2), Hr1. unfold link.
    assert (foreign_of e <> Some e) by (intros H; by destruct (foreign_of_Some e ep e He H)).
    destruct (decide (e' = e /\ u = a)) as [[-> ->] | Hn]; [|tauto]. rewrite Hpt, Hperm, elem_of_cons. split.
    - intros [[_ Hy] | [? _]]; [|tauto]. split; [by right |]. intros [(_ & _ & ->) | (? & _)]; done.
    - intros [[[= ->] | Hy] Hl]; [destruct Hl; by left | left; done]. }
  split; [|done]. constructor; [done | | by eapply unlink_in_step].
  eapply owes_ext; [|by apply put_items_owes]. intros y. cbn beta. unfold cv at 1. rewrite item_weight_split by done.
  change (item_weight y (set_items (L0 ++ L2) cv)) with (item_weight y (set_items (L0 ++ L2) c)). rewrite (at_neg _ 1), Hx. lia.
Qed.

Lemma world_ok_same w w' : same_fields w w' -> refs w' = refs w -> world_ok w -> world_ok w'.
Proof.
  intros H Er [H1 H2 H3]. pose proof H as (E1 & E2 & E3 & E4). constructor.
  - by eapply same_fields_shape.
  - intros y Hy. rewrite E1 in Hy. rewrite Er, (H2 y Hy). unfold count. by rewrite E3, E4.
  - intros e1 ep1 f1 u v He1 Hf1. rewrite !(refers_same w w') by done. by apply (H3 e1 ep1).
Qed.

(** Marking an object as modified and taking items out. *)
Lemma marked_items w c its :
  exists w1, mark_modified (Some a) w = Ok w1 /\ same_fields (put_items (a, i) its c w) (put_items (a, i) its c w1)
    /\ refs (put_items (a, i) its c w1) = refs (put_items (a, i) its c w) /\ containers w1 = containers w /\ objects w1 = objects w.
Proof. cbn. eexists. split; [done |]. by destruct (decide _). Qed.

Lemma put_items_id w c : containers w !! (a, i) = Some c -> put_items (a, i) (items_ c) c w = w.
Proof.
  intros Hc. unfold put_items. replace (set_items (items_ c) c) with c by by destruct c. rewrite insert_id by done. by destruct w.
Qed.

Lemma erase_spec w n b c :
  world_ok w -> objects w !! a = Some (e_node ep) -> containers w !! (a, i) = Some c -> (value_ <$> items_ c) !! n = Some (Some b) ->
  exists w' c', erase layout endpoints (a, i) n w = Ok w' /\ objects w' = objects w /\ world_ok w'
    /\ containers w' !! (a, i) = Some c' /\ items_ c' = take n (items_ c) ++ drop (S n) (items_ c)
    /\ (forall e' u v, refers w' e' u v <-> refers w e' u v /\ ~ link e a b e' u v).
Proof using Hs He Hi Hmany.
  intros Hok Ha Hc Hn. pose proof (ok_shape w Hok) as Hsh.
  destruct (many_container w Ha Hsh) as (c0 & Hc0 & _ & Hsto & Hown & _). simplify_eq.
  apply list_lookup_fmap_Some in Hn as (x & Hx & Hxn). assert (n < length (items_ c)) as Hlt by by eapply lookup_lt_Some.
  set (L0 := take n (items_ c)). set (L2 := drop (S n) (items_ c)).
  assert (items_ c = L0 ++ [] ++ x :: L2) as El by (symmetry; apply (take_drop_middle _ _ _ Hxn)).
  assert (length L0 = n) as Hl by (unfold L0; rewrite length_take; lia).
  assert (put_items (a, i) (L0 ++ x :: L2) c w = w) as Ew.
  { change (L0 ++ x :: L2) with (L0 ++ [] ++ x :: L2). rewrite <- El. by apply put_items_id. }
  destruct (detach_spec w c L0 [] x L2 b Hc El (eq_sym Hx) Ha) as (w1 & c1 & x' & E1 & Eo1 & Hc1 & El1 & Hok1 & Hr1); [by rewrite Ew |].
  rewrite Ew in Hr1. cbn [length] in E1. rewrite Nat.add_0_r, Hl in E1.
  unfold erase, remove_it, container_at. rewrite Hc. cbn [rbind]. rewrite Hsto, E1. cbn [rbind]. rewrite Hown.
  destruct (marked_items w1 c1 (L0 ++ L2)) as (w2 & -> & Hs3 & Er3 & Ec2 & Eo2). cbn [rbind].
  unfold erase_items, container_at. rewrite Ec2, Hc1. cbn [rbind]. rewrite El1. cbn [app].
  rewrite (take_app_length' L0 (x' :: L2)) by done. rewrite (drop_app_ge L0), Hl by lia. replace (S n - n) with 1 by lia. cbn [drop].
  eexists _, _. split; [done |]. split; [cbn; congruence |]. split; [by eapply world_ok_same |].
  split; [cbn; apply lookup_insert_eq |]. split; [done |]. intros e' u v. by rewrite (refers_same _ _ e' u v Hs3), Hr1.
Qed.

Lemma detach_range_spec L0 L1 L2 : forall w c D,
  containers w !! (a, i) = Some c -> items_ c = L0 ++ D ++ L1 ++ L2 -> objects w !! a = Some (e_node ep) ->
  world_ok (put_items (a, i) (L0 ++ L1 ++ L2) c w) ->
  exists w' c' D', detach_range layout endpoints (a, i) (length L0 + length D) (length L1) w = Ok w' /\ objects w' = objects w
    /\ containers w' !! (a, i) = Some c' /\ items_ c' = L0 ++ D' ++ L2 /\ length D' = length D + length L1
    /\ world_ok (put_items (a, i) (L0 ++ L2) c' w')
    /\ (forall e' u v, refers (put_items (a, i) (L0 ++ L2) c' w') e' u v <->
         refers (put_items (a, i) (L0 ++ L1 ++ L2) c w) e' u v /\ ~ exists b, Some b ∈ value_ <$> L1 /\ link e a b e' u v).
Proof using Hs He Hi Hmany.
  induction L1 as [|x L1 IH]; intros w c D Hc El Ha Hok.
  { exists w, c, D. split; [done |]. split; [done |]. split; [done |]. split; [done |]. split; [simpl; lia |]. split; [done |].
    intros e' u v. split; [|by intros [? _]]. intros H. split; [done |].
    intros (b & Hb & _). by apply elem_of_nil in Hb. }
  assert (exists b, value_ x = Some b) as [b Hx].
  { destruct (many_container (put_items (a, i) (L0 ++ (x :: L1) ++ L2) c w) Ha (ok_shape _ Hok)) as (cv & Hcv & _ & _ & _ & _ & Hits & _). cbn in Hcv. rewrite lookup_insert_eq in Hcv.
    injection Hcv as <-. cbn in Hits. apply Forall_app in Hits as [_ Hits]. apply Forall_cons_iff in Hits as [(_ & b & Hx & _) _]. eauto. }
  destruct (detach_spec w c L0 D x (L1 ++ L2) b Hc El Hx Ha Hok) as (w1 & c1 & x' & E1 & Eo1 & Hc1 & El1 & Hok1 & Hr1).
  destruct (IH w1 c1 (D ++ [x']) Hc1 El1) as (w2 & c2 & D' & E2 & Eo2 & Hc2 & El2 & Hlen & Hok2 & Hr2); [by rewrite Eo1 | done |].
  exists w2, c2, D'. cbn [length detach_range]. rewrite E1. cbn [rbind].
  rewrite length_app in E2, Hlen. cbn [length] in E2, Hlen. rewrite Nat.add_1_r, <- plus_n_Sm in E2.
  split; [exact E2 |]. split_and!; [congruence | done | done | lia | done |]. intros e' u v. rewrite Hr2, Hr1, fmap_cons, Hx.
  setoid_rewrite elem_of_cons. naive_solver.
Qed.

Lemma erase_range_spec w first last c :
  world_ok w -> objects w !! a = Some (e_node ep) -> containers w !! (a, i) = Some c -> first <= last <= length (items_ c) ->
  exists w' c', erase_range layout endpoints (a, i) first last w = Ok w' /\ objects w' = objects w /\ world_ok w'
    /\ containers w' !! (a, i) = Some c' /\ items_ c' = take first (items_ c) ++ drop last (items_ c)
    /\ (forall e' u v, refers w' e' u v <->
         refers w e' u v /\ ~ exists b, Some b ∈ value_ <$> take (last - first) (drop first (items_ c)) /\ link e a b e' u v).
Proof using Hs He Hi Hmany.
  intros Hok Ha Hc Hle. destruct (many_container w Ha (ok_shape w Hok)) as (c0 & Hc0 & _ & Hsto & Hown & _). simplify_eq.
  set (L0 := take first (items_ c)). set (L1 := take (last - first) (drop first (items_ c))). set (L2 := drop last (items_ c)).
  assert (items_ c = L0 ++ [] ++ L1 ++ L2) as El.
  { unfold L0, L1, L2. cbn [app]. rewrite <- (take_drop first (items_ c)) at 1. f_equal.
    rewrite <- (take_drop (last - first) (drop first (items_ c))) at 1. f_equal. rewrite drop_drop. f_equal. lia. }
  assert (length L0 = first) as Hl0 by (unfold L0; rewrite length_take; lia).
  assert (length L1 = last - first) as Hl1 by (unfold L1; rewrite length_take, length_drop; lia).
  assert (put_items (a, i) (L0 ++ L1 ++ L2) c w = w) as Ew.
  { change (L0 ++ L1 ++ L2) with (L0 ++ [] ++ L1 ++ L2). rewrite <- El. by apply put_items_id. }
  destruct (detach_range_spec L0 L1 L2 w c [] Hc El Ha) as (w1 & c1 & D' & E1 & Eo1 & Hc1 & El1 & Hlen & Hok1 & Hr1); [by rewrite Ew |].
  rewrite Ew in Hr1. cbn [length] in E1, Hlen. rewrite Nat.add_0_r, Hl0, Hl1 in E1.
  unfold erase_range, container_at. rewrite Hc. cbn [rbind]. rewrite Hsto, E1, Hown. cbn [rbind].
  destruct (marked_items w1 c1 (L0 ++ L2)) as (w2 & -> & Hs3 & Er3 & Ec2 & Eo2). cbn [rbind].
  unfold erase_items, container_at. rewrite Ec2, Hc1. cbn [rbind]. rewrite El1, (take_app_length' L0) by done.
  rewrite (app_assoc L0 D'), (drop_app_length' (L0 ++ D')) by (rewrite length_app; lia).
  eexists _, _. split; [done |]. split; [cbn; congruence |]. split; [by eapply world_ok_same |].
  split; [cbn; apply lookup_insert_eq |]. split; [done |]. intros e' u v. by rewrite (refers_same _ _ e' u v Hs3), Hr1.
Qed.

Lemma clear_spec w c :
  world_ok w -> objects w !! a = Some (e_node ep) -> containers w !! (a, i) = Some c ->
  exists w' c', clear layout endpoints (a, i) w = Ok w' /\ objects w' = objects w /\ world_ok w'
    /\ containers w' !! (a, i) = Some c' /\ items_ c' = []
    /\ (forall e' u v, refers w' e' u v <-> refers w e' u v /\ ~ exists b, refers w e a b /\ link e a b e' u v).
Proof using Hs He Hi Hmany.
  intros Hok Ha Hc. destruct (erase_range_spec w 0 (length (items_ c)) c Hok Ha Hc) as (w' & c' & E & Eo & Hok' & Hc' & Ei & Hr); [lia |].
  exists w', c'. unfold clear, container_at. rewrite Hc. cbn [rbind]. split_and!; try done.
  - rewrite Ei, drop_all. done.
  - destruct (many_container w Ha (ok_shape w Hok)) as (c0 & Hc0 & _ & _ & _ & _ & _ & _ & Hpt). simplify_eq.
    intros e' u v. rewrite Hr. setoid_rewrite Hpt. rewrite Nat.sub_0_r, drop_0, take_ge by lia. done.
Qed.

Lemma removed_cons (pred : option loc -> bool) (P : loc -> Prop) b (vs : list (option loc)) :
  (exists y, Some y ∈ Some b :: vs /\ pred (Some y) = true /\ P y)
  <-> (pred (Some b) = true /\ P b) \/ (exists y, Some y ∈ vs /\ pred (Some y) = true /\ P y).
Proof.
  setoid_rewrite elem_of_cons. split.
  - intros (y & [[= ->] | Hy] & Hp & HP); [by left | right; by exists y].
  - intros [[Hp HP] | (y & Hy & Hp & HP)]; [exists b; auto | exists y; auto].
Qed.

Lemma removed_app (pred : option loc -> bool) (P : loc -> Prop) (us vs : list (option loc)) :
  (forall y, Some y ∈ us -> pred (Some y) = false) ->
  (exists y, Some y ∈ us ++ vs /\ pred (Some y) = true /\ P y) <-> (exists y, Some y ∈ vs /\ pred (Some y) = true /\ P y).
Proof.
  intros Hus. setoid_rewrite elem_of_app. split; [|intros (y & Hy & Hp & HP); exists y; auto].
  intros (y & [Hy | Hy] & Hp & HP); [apply Hus in Hy; congruence | by exists y].
Qed.

(** [remove_if]: the items [K] are kept in front, [G] are leftovers. *)
Lemma remove_loop_spec pred R : forall w c K G,
  containers w !! (a, i) = Some c -> items_ c = K ++ G ++ R -> G <> [] -> objects w !! a = Some (e_node ep) ->
  world_ok (put_items (a, i) (K ++ R) c w) ->
  exists w' c' G', remove_loop layout endpoints pred (a, i) (length K) (length K + length G) (length R) w
      = Ok (length (K ++ filter (fun x => pred (value_ x) = false) R), w') /\ objects w' = objects w
    /\ containers w' !! (a, i) = Some c' /\ items_ c' = (K ++ filter (fun x => pred (value_ x) = false) R) ++ G'
    /\ length (items_ c') = length (items_ c)
    /\ world_ok (put_items (a, i) (K ++ filter (fun x => pred (value_ x) = false) R) c' w')
    /\ (forall e' u v, refers (put_items (a, i) (K ++ filter (fun x => pred (value_ x) = false) R) c' w') e' u v <->
         refers (put_items (a, i) (K ++ R) c w) e' u v /\ ~ exists b, Some b ∈ value_ <$> R /\ pred (Some b) = true /\ link e a b e' u v).
Proof using Hs He Hi Hmany.
  induction R as [|x R IH]; intros w c K G Hc El HG Ha Hok.
  { exists w, c, G. cbn [remove_loop length]. rewrite filter_nil. rewrite !app_nil_r in *. split; [done |]. split; [done |]. split; [done |].
    split; [done |]. split; [done |]. split; [done |]. intros e' u v. split; [|by intros [? _]]. intros H. split; [done |].
    intros (b & Hb & _). by apply elem_of_nil in Hb. }
  destruct (many_container (put_items (a, i) (K ++ x :: R) c w) Ha (ok_shape _ Hok)) as (cv & Hcv & _ & Hsto & Hown & _ & Hits & _).
  cbn in Hcv. rewrite lookup_insert_eq in Hcv. injection Hcv as <-. cbn in Hits, Hsto, Hown.
  assert (exists b, value_ x = Some b) as [b Hx].
  { apply Forall_app in Hits as [_ Hits]. apply Forall_cons_iff in Hits as [(_ & b & Hx & _) _]. eauto. }
  cbn [remove_loop length]. unfold container_at. rewrite Hc. cbn [rbind].
  assert (items_ c !! (length K + length G) = Some x) as Hxn.
  { rewrite El, (app_assoc K G). apply (list_lookup_middle (K ++ G) R x). by rewrite length_app. }
  rewrite Hxn, filter_cons.
  destruct (pred (value_ x)) eqn:Ep.
  - rewrite decide_False by done. unfold remove_it, container_at. rewrite Hc. cbn [rbind]. rewrite Hsto, Hown.
    destruct (detach_spec w c K G x R b Hc El Hx Ha Hok) as (w1 & c1 & x' & -> & Eo1 & Hc1 & El1 & Hok1 & Hr1). cbn [rbind].
    destruct (marked_items w1 c1 (K ++ R)) as (w2 & -> & Hs3 & Er3 & Ec2 & Eo2). cbn [rbind].
    destruct (IH w2 c1 K (G ++ [x'])) as (w3 & c3 & G' & E3 & Eo3 & Hc3 & El3 & Hl3 & Hok3 & Hr3);
      [by rewrite Ec2 | done | by destruct G | congruence | by eapply world_ok_same |].
    rewrite length_app in E3. cbn [length] in E3. rewrite Nat.add_1_r, <- plus_n_Sm in E3.
    exists w3, c3, G'. split; [exact E3 |]. split; [congruence |]. split; [done |]. split; [done |].
    split; [rewrite Hl3, El1, El, !length_app; simpl; lia |]. split; [done |].
    intros e' u v. rewrite Hr3, (refers_same _ _ e' u v Hs3), Hr1, fmap_cons, Hx, removed_cons. rewrite Hx in Ep. rewrite Ep. tauto.
  - rewrite decide_True by done. destruct G as [|g G]; [done |].
    set (c1 := set_items (<[length K := x]> (items_ c)) c). set (w1 := put_items (a, i) (<[length K := x]> (items_ c)) c w).
    assert (items_ c1 = (K ++ [x]) ++ (G ++ [x]) ++ R) as El1.
    { cbn. rewrite El, insert_app_r_alt, Nat.sub_diag by lia. cbn. by rewrite <- !app_assoc. }
    assert (put_items (a, i) ((K ++ [x]) ++ R) c1 w1 = put_items (a, i) (K ++ x :: R) c w) as Ew.
    { unfold w1, c1, put_items, set_containers. cbn. rewrite insert_insert_eq, <- app_assoc. done. }
    destruct (IH w1 c1 (K ++ [x]) (G ++ [x])) as (w3 & c3 & G' & E3 & Eo3 & Hc3 & El3 & Hl3 & Hok3 & Hr3);
      [apply lookup_insert_eq | done | by destruct G | done | by rewrite Ew |].
    rewrite Ew in Hr3. rewrite !length_app in E3. cbn [length] in E3. rewrite <- (app_assoc K) in El3, Hok3, Hr3.
    replace (length K + 1 + (length G + 1)) with (S (length K + S (length G))) in E3 by lia.
    rewrite Nat.add_1_r in E3. exists w3, c3, G'. split; [etrans; [exact E3 |]; do 2 f_equal; rewrite !length_app; simpl; lia |].
    split; [done |]. split; [done |]. split; [done |]. split; [rewrite Hl3, El1, El, !length_app; simpl; lia |].
    split; [done |]. intros e' u v. rewrite Hr3, fmap_cons, Hx, removed_cons. rewrite Hx in Ep. rewrite Ep.
    assert (forall P : Prop, false = true /\ P <-> False) as -> by naive_solver. tauto.
Qed.

Lemma remove_if_spec pred w c :
  world_ok w -> objects w !! a = Some (e_node ep) -> containers w !! (a, i) = Some c ->
  exists w' c', remove_if layout endpoints pred (a, i) w = Ok w' /\ objects w' = objects w /\ world_ok w'
    /\ containers w' !! (a, i) = Some c' /\ items_ c' = filter (fun x => pred (value_ x) = false) (items_ c)
    /\ (forall e' u v, refers w' e' u v <->
         refers w e' u v /\ ~ exists b, Some b ∈ value_ <$> items_ c /\ pred (Some b) = true /\ link e a b e' u v).
Proof using Hs He Hi Hmany.
  intros Hok Ha Hc. destruct (many_container w Ha (ok_shape w Hok)) as (c0 & Hc0 & _ & Hsto & Hown & _ & Hits & _ & _). simplify_eq.
  unfold remove_if, container_at, find_if. rewrite Hc. cbn [rbind]. destruct (list_find _ (items_ c)) as [[n x]|] eqn:Ef.
  - apply list_find_Some in Ef as (Hn & Hx & Hbefore). assert (n < length (items_ c)) as Hlt by by eapply lookup_lt_Some.
    rewrite decide_False by lia. set (K := take n (items_ c)). set (R := drop (S n) (items_ c)).
    assert (items_ c = K ++ [] ++ x :: R) as El by (symmetry; apply (take_drop_middle _ _ _ Hn)).
    assert (length K = n) as HlK by (unfold K; rewrite length_take; lia).
    assert (filter (fun x => pred (value_ x) = false) K = K) as HK.
    { apply filter_keep, Forall_lookup. intros j y Hj. pose proof (lookup_lt_Some _ _ _ Hj) as Hjn. unfold K in Hj.
      rewrite lookup_take_lt in Hj by lia. apply not_true_is_false. intros Hp. apply (Hbefore j y Hj); [lia | by rewrite Hp]. }
    assert (exists b, value_ x = Some b) as [b Hb].
    { rewrite Forall_lookup in Hits. destruct (Hits n x Hn) as (_ & b & Hb & _). eauto. }
    assert (put_items (a, i) (K ++ x :: R) c w = w) as Ew.
    { change (K ++ x :: R) with (K ++ [] ++ x :: R). rewrite <- El. by apply put_items_id. }
    unfold remove_it, container_at. rewrite Hc. cbn [rbind]. rewrite Hsto, Hown.
    destruct (detach_spec w c K [] x R b Hc El Hb Ha) as (w1 & c1 & x' & E1 & Eo1 & Hc1 & El1 & Hok1 & Hr1); [by rewrite Ew |].
    rewrite Ew in Hr1. cbn [length] in E1. rewrite Nat.add_0_r, HlK in E1. rewrite E1. cbn [rbind].
    destruct (marked_items w1 c1 (K ++ R)) as (w2 & -> & Hs3 & Er3 & Ec2 & Eo2). cbn [rbind].
    destruct (remove_loop_spec pred R w2 c1 K [x']) as (w3 & c3 & G' & E3 & Eo3 & Hc3 & El3 & Hl3 & Hok3 & Hr3);
      [by rewrite Ec2 | done | done | congruence | by eapply world_ok_same |].
    assert (length R = length (items_ c) - S n) as HlR by (unfold R; by rewrite length_drop).
    cbn [length] in E3. rewrite HlK, Nat.add_1_r, HlR in E3. rewrite E3. cbn [rbind]. unfold erase_items, container_at. rewrite Hc3. cbn [rbind].
    rewrite El3, take_app_length. rewrite drop_ge by (rewrite <- El3, Hl3, El1, !length_app; simpl; lia). rewrite app_nil_r.
    eexists _, _. split; [done |]. split; [cbn; congruence |]. split; [done |]. split; [cbn; apply lookup_insert_eq |].
    split; [cbn; rewrite El at 1; rewrite !list.filter_app, filter_nil, filter_cons, decide_False by (destruct (pred (value_ x)); done); by rewrite HK |].
    intros e' u v. rewrite Hr3, (refers_same _ _ e' u v Hs3), Hr1.
    assert (value_ <$> items_ c = (value_ <$> K) ++ Some b :: (value_ <$> R)) as -> by by rewrite El, fmap_app, <- Hb.
    rewrite removed_app.
    { rewrite removed_cons. rewrite Hb in Hx. destruct (pred (Some b)); [tauto | done]. }
    intros y Hy. apply list_elem_of_fmap in Hy as (z & Ez & Hz). rewrite <- HK in Hz. apply list_elem_of_filter in Hz as [Hz _]. by rewrite Ez.
  - apply list_find_None in Ef. rewrite decide_True by done. cbn [rbind]. unfold erase_items, container_at. rewrite Hc. cbn [rbind].
    rewrite take_drop, (put_items_id w c Hc). exists w, c. split; [done |]. split; [done |]. split; [done |]. split; [done |].
    assert (Forall (fun x => pred (value_ x) = false) (items_ c)) as Hall.
    { eapply list.Forall_impl; [exact Ef |]. intros x Hx. apply not_true_is_false. intros Hp. apply Hx. by rewrite Hp. }
    split; [by rewrite filter_keep |]. intros e' u v. split; [|tauto]. intros H. split; [done |]. intros (y & Hy & Hp & _).
    apply list_elem_of_fmap in Hy as (z & Ez & Hz). rewrite list.Forall_forall in Hall. rewrite Ez, (Hall z Hz) in Hp. done.
Qed.
End Many.
End Facts.

(** ** Sequences of changes *)

(** Changes of pointers and containers. A pointer is only made to lead to an
    object whose other end is free, and an item is only inserted while it
    belongs to no container. *)
Inductive rel_step (w : world) : world -> Prop :=
| rs_assign a i e ep f p c w' :
    endpoints !! e = Some ep -> slot ep = Some (i, f) -> type_of ep <> HAS_MANY -> objects w !! a = Some (e_node ep) ->
    typed w f p -> free_for w e a p -> reset layout endpoints (a, i) p c w = Ok w' -> rel_step w w'
| rs_insert a i e ep f pos b w' :
    endpoints !! e = Some ep -> slot ep = Some (i, f) -> e_kind ep = many_to_one -> objects w !! a = Some (e_node ep) ->
    objects w !! b = Some (e_value ep) -> ~ refers w e a b -> (forall fe a', foreign_of e = Some fe -> ~ refers w fe b a') ->
    insert layout endpoints (a, i) pos (Some b) w = Ok w' -> rel_step w w'
| rs_erase a i e ep f c n b w' :
    endpoints !! e = Some ep -> slot ep = Some (i, f) -> e_kind ep = many_to_one -> objects w !! a = Some (e_node ep) ->
    containers w !! (a, i) = Some c -> (value_ <$> items_ c) !! n = Some (Some b) ->
    erase layout endpoints (a, i) n w = Ok w' -> rel_step w w'
| rs_clear a i e ep f w' :
    endpoints !! e = Some ep -> slot ep = Some (i, f) -> e_kind ep = many_to_one -> objects w !! a = Some (e_node ep) ->
    clear layout endpoints (a, i) w = Ok w' -> rel_step w w'
| rs_remove_if a i e ep f pred w' :
    endpoints !! e = Some ep -> slot ep = Some (i, f) -> e_kind ep = many_to_one -> objects w !! a = Some (e_node ep) ->
    remove_if layout endpoints pred (a, i) w = Ok w' -> rel_step w w'.

Lemma rel_step_ok w w' : schema_ok -> world_ok w -> rel_step w w' -> world_ok w'.
Proof.
  intros Hs Hok [a i e ep f p c v He Hi Ht Ha Hty Hfree E | a i e ep f pos b v He Hi Hm Ha Hb Hno Hfree E
    | a i e ep f c n b v He Hi Hm Ha Hc Hn E | a i e ep f v He Hi Hm Ha E | a i e ep f pred v He Hi Hm Ha E].
  - destruct (reset_spec Hs w a i e ep f Hok He Hi Ht Ha p c Hty Hfree) as (v' & E' & _ & H & _). congruence.
  - destruct (many_container Hs a i e ep f He Hi Hm w Ha (ok_shape w Hok)) as (c & Hc & _).
    destruct (many_insert_spec Hs a i e ep f He Hi Hm w pos b c Hok Ha Hb Hc Hno Hfree) as (v' & c' & E' & _ & H & _). congruence.
  - destruct (erase_spec Hs a i e ep f He Hi Hm w n b c Hok Ha Hc Hn) as (v' & c' & E' & _ & H & _). congruence.
  - destruct (many_container Hs a i e ep f He Hi Hm w Ha (ok_shape w Hok)) as (c & Hc & _).
    destruct (clear_spec Hs a i e ep f He Hi Hm w c Hok Ha Hc) as (v' & c' & E' & _ & H & _). congruence.
  - destruct (many_container Hs a i e ep f He Hi Hm w Ha (ok_shape w Hok)) as (c & Hc & _).
    destruct (remove_if_spec Hs a i e ep f He Hi Hm pred w c Hok Ha Hc) as (v' & c' & E' & _ & H & _). congruence.
Qed.

Lemma rel_steps_ok w w' : schema_ok -> world_ok w -> rtc rel_step w w' -> world_ok w'.
Proof. intros Hs Hok H. induction H as [w | w v w' Hstep _ IH]; [done |]. apply IH. by eapply rel_step_ok. Qed.

(** C17: Assigning a pointer relinks both ends. When all relations are in
    step, the new object is of the declared class and, if its end is a
    pointer, too, refers to no other object ([free_for],
    [assign_leaves_old_partner]), the assignment succeeds, the object that was
    referred to forgets the owner of the pointer, the new one gets to know it,
    whether its end is a pointer or a container; no other relation changes,
    and the reference counters stay exact. A class has at most one relation to
    each other class ([schema_ok]). *)
Theorem pointer_assigned w a i e ep f p c :
  schema_ok -> world_ok w -> endpoints !! e = Some ep -> slot ep = Some (i, f) -> type_of ep <> HAS_MANY ->
  objects w !! a = Some (e_node ep) -> typed w f p -> free_for w e a p ->
  exists w', reset layout endpoints (a, i) p c w = Ok w' /\ exact w' /\ in_step w'
    /\ (forall x y, refers w' e x y <-> if decide (x = a) then p = Some y else refers w e x y)
    /\ (forall e' x y, e' <> e -> foreign_of e <> Some e' -> refers w' e' x y <-> refers w e' x y).
Proof.
  intros Hs Hok He Hi Ht Ha Hty Hfree.
  destruct (reset_spec Hs w a i e ep f Hok He Hi Ht Ha p c Hty Hfree) as (w' & E & _ & [_ H2 H3] & H). eauto 10.
Qed.

(** C22: Changing a container of objects that belong to its owner changes both
    ends, when all relations are in step: inserting an object of the declared
    class that is in no container of the relation ([insert_leaves_old_owner])
    puts it at its place and makes it refer to the owner; erasing an item,
    removing all items for which a predicate holds and clearing the container
    take exactly these items out, keep the order of the others and make the
    objects forget the owner; the reference counters stay exact. A class has
    at most one relation to each other class ([schema_ok]). *)
Theorem container_changed w a i e ep f c :
  schema_ok -> world_ok w -> endpoints !! e = Some ep -> slot ep = Some (i, f) -> e_kind ep = many_to_one ->
  objects w !! a = Some (e_node ep) -> containers w !! (a, i) = Some c ->
  (forall pos b, objects w !! b = Some (e_value ep) -> ~ refers w e a b -> (forall fe a', foreign_of e = Some fe -> ~ refers w fe b a') ->
     exists w' c', insert layout endpoints (a, i) pos (Some b) w = Ok w' /\ exact w' /\ in_step w'
       /\ containers w' !! (a, i) = Some c' /\ value_ <$> items_ c' = take pos (value_ <$> items_ c) ++ Some b :: drop pos (value_ <$> items_ c)
       /\ (forall e' u v, refers w' e' u v <-> refers w e' u v \/ link e a b e' u v))
  /\ (forall n b, (value_ <$> items_ c) !! n = Some (Some b) ->
     exists w' c', erase layout endpoints (a, i) n w = Ok w' /\ exact w' /\ in_step w'
       /\ containers w' !! (a, i) = Some c' /\ items_ c' = take n (items_ c) ++ drop (S n) (items_ c)
       /\ (forall e' u v, refers w' e' u v <-> refers w e' u v /\ ~ link e a b e' u v))
  /\ (forall pred, exists w' c', remove_if layout endpoints pred (a, i) w = Ok w' /\ exact w' /\ in_step w'
       /\ containers w' !! (a, i) = Some c' /\ items_ c' = filter (fun x => pred (value_ x) = false) (items_ c)
       /\ (forall e' u v, refers w' e' u v <->
            refers w e' u v /\ ~ exists b, Some b ∈ value_ <$> items_ c /\ pred (Some b) = true /\ link e a b e' u v))
  /\ (exists w' c', clear layout endpoints (a, i) w = Ok w' /\ exact w' /\ in_step w'
       /\ containers w' !! (a, i) = Some c' /\ items_ c' = []
       /\ (forall e' u v, refers w' e' u v <-> refers w e' u v /\ ~ exists b, refers w e a b /\ link e a b e' u v)).
Proof.
  intros Hs Hok He Hi Hm Ha Hc. split_and!.
  - intros pos b Hb Hno Hfree. destruct (many_insert_spec Hs a i e ep f He Hi Hm w pos b c Hok Ha Hb Hc Hno Hfree)
      as (w' & c' & E & _ & [_ H2 H3] & H). eauto 10.
  - intros n b Hn. destruct (erase_spec Hs a i e ep f He Hi Hm w n b c Hok Ha Hc Hn) as (w' & c' & E & _ & [_ H2 H3] & H). eauto 10.
  - intros pred. destruct (remove_if_spec Hs a i e ep f He Hi Hm pred w c Hok Ha Hc) as (w' & c' & E & _ & [_ H2 H3] & H). eauto 10.
  - destruct (clear_spec Hs a i e ep f He Hi Hm w c Hok Ha Hc) as (w' & c' & E & _ & [_ H2 H3] & H). eauto 10.
Qed.

(** C25: After any sequence of the changes in [rel_step], on relations that
    were in step (assigning a pointer to an object of its class whose own
    pointer is free, inserting an object into a container while it is in none,
    erasing, removing and clearing), both ends of every relation agree, every
    reference counter is the number of references, and every field refers to
    objects of its class only. A class has at most one relation to each other
    class ([schema_ok]). The changes that are left out break it:
    [assign_leaves_old_partner], [insert_leaves_old_owner],
    [duplicate_item_miscounted]. *)
Theorem relations_in_step w w' :
  schema_ok -> world_ok w -> rtc rel_step w w' ->
  (forall e ep f a b, endpoints !! e = Some ep -> e_foreign ep = Some f -> refers w' e a b <-> refers w' f b a)
  /\ (forall a, is_Some (objects w' !! a) -> refs w' !! a = Some (u64 (count w' a)))
  /\ (forall e ep a b, endpoints !! e = Some ep -> refers w' e a b ->
        objects w' !! a = Some (e_node ep) /\ objects w' !! b = Some (e_value ep)).
Proof.
  intros Hs Hok H. destruct (rel_steps_ok w w' Hs Hok H) as [Hsh Hex Hst]. split; [exact Hst |]. split.
  - intros a Ha. by rewrite (Hex a Ha), Z.add_0_r.
  - intros e ep a b He Hr. by eapply (refers_typed Hs).
Qed.
End Schema.

(** ** A small store *)

(** A department has many persons, a person has one passport. *)
Definition sample_layout (cls : str) : list field :=
  if decide (cls = lit "department") then [Field (lit "employees") HAS_MANY (lit "person") NONE]
  else if decide (cls = lit "person") then
    [Field (lit "dep") BELONGS_TO (lit "department") NONE; Field (lit "passport") HAS_ONE (lit "passport") NONE]
  else if decide (cls = lit "passport") then [Field (lit "holder") BELONGS_TO (lit "person") NONE]
  else [].
Definition sample_endpoints : list endpoint :=
  [Endpoint many_to_one (lit "employees") (lit "department") (lit "person") (Some 1);
   Endpoint belongs_to_many (lit "dep") (lit "person") (lit "department") (Some 0);
   Endpoint (from_one HAS_ONE) (lit "passport") (lit "person") (lit "passport") (Some 3);
   Endpoint (from_one BELONGS_TO) (lit "holder") (lit "passport") (lit "person") (Some 2)].

Lemma sample_schema : schema_ok sample_layout sample_endpoints.
Proof.
  constructor.
  - intros [|[|[|[|e]]]] ep He; simplify_eq/=; eexists _, _; (split; [vm_compute; reflexivity |]); done.
  - intros [|[|[|[|e]]]] ep i f j g He Hi Hg Hsel; simplify_eq/=; vm_compute in Hi; injection Hi as <- <-;
      vm_compute in Hg; destruct j as [|[|j]]; simplify_eq; vm_compute in Hsel; done.
  - intros [|[|[|[|e]]]] [|[|[|[|e']]]] ep ep' He He' Hn Hv; simplify_eq/=; done.
  - intros [|[|[|[|e]]]] ep f He Hf; simplify_eq/=; (split; [done |]); eexists; split_and!; done.
Qed.

Definition null_pointer (a : loc) (e : nat) : object_holder := Holder None (Some a) NONE true (Some e).
Definition no_items (a : loc) (e : nat) : container := Container [] true (Some a) (Some e).

(** The departments 0 and 3, the persons 1 and 2 and the passport 4. *)
Definition sample_world : world :=
  World {[ 0 := lit "department"; 1 := lit "person"; 2 := lit "person"; 3 := lit "department"; 4 := lit "passport" ]}
    {[ 0; 1; 2; 3; 4 ]} {[ 0 := 0%Z; 1 := 0%Z; 2 := 0%Z; 3 := 0%Z; 4 := 0%Z ]}
    {[ (1, 0) := null_pointer 1 1; (1, 1) := null_pointer 1 2; (2, 0) := null_pointer 2 1; (2, 1) := null_pointer 2 2;
       (4, 0) := null_pointer 4 3 ]}
    {[ (0, 0) := no_items 0 0; (3, 0) := no_items 3 0 ]} [].

Lemma sample_objects a cls :
  objects sample_world !! a = Some cls ->
  (a = 0 /\ cls = lit "department") \/ (a = 1 /\ cls = lit "person") \/ (a = 2 /\ cls = lit "person")
  \/ (a = 3 /\ cls = lit "department") \/ (a = 4 /\ cls = lit "passport").
Proof.
  cbn. intros [[<- <-] | [_ [[<- <-] | [_ [[<- <-] | [_ [[<- <-] | [_ [<- <-]%lookup_singleton_Some]]%lookup_insert_Some]]%lookup_insert_Some]]%lookup_insert_Some]]%lookup_insert_Some; tauto.
Qed.

Lemma sample_fields k cls f :
  field_at sample_layout sample_world k = Some (cls, f) -> k ∈ [(0, 0); (1, 0); (1, 1); (2, 0); (2, 1); (3, 0); (4, 0)].
Proof.
  destruct k as [a i]. unfold field_at. cbn [fst snd]. destruct (objects sample_world !! a) as [cls'|] eqn:E; [|done].
  apply sample_objects in E as [[-> ->] | [[-> ->] | [[-> ->] | [[-> ->] | [-> ->]]]]]; vm_compute (sample_layout _); destruct i as [|[|i]]; try done; set_solver.
Qed.

Lemma sample_nothing k b : ~ points sample_world k b.
Proof.
  assert (map_Forall (fun _ h => proxy_ h = None) (holders sample_world)) as Hh by (refine (bool_decide_eq_true_1 _ _); vm_compute; reflexivity).
  assert (map_Forall (fun _ c => value_ <$> items_ c = []) (containers sample_world)) as Hc by (refine (bool_decide_eq_true_1 _ _); vm_compute; reflexivity).
  intros [(h & Eh & Hb) | (c & Ec & Hb)]; [apply Hh in Eh; congruence |]. apply Hc in Ec. rewrite Ec in Hb. by apply elem_of_nil in Hb.
Qed.

Lemma sample_shape : shape sample_layout sample_endpoints sample_world.
Proof.
  constructor.
  - intros k cls f Hf Ht. pose proof (sample_fields k cls f Hf) as Hk.
    repeat (apply elem_of_cons in Hk as [-> | Hk]; [vm_compute in Hf; injection Hf as <- <-; first [by destruct Ht |
      split; [vm_compute; reflexivity |]; eexists; split; [vm_compute; reflexivity |]; split_and!;
        [reflexivity | reflexivity | vm_compute; reflexivity | intros b Hb; discriminate Hb]] |]).
    by apply elem_of_nil in Hk.
  - intros k cls f Hf Ht. pose proof (sample_fields k cls f Hf) as Hk.
    repeat (apply elem_of_cons in Hk as [-> | Hk]; [vm_compute in Hf; injection Hf as <- <-; first [discriminate Ht |
      split; [vm_compute; reflexivity |]; eexists; split; [vm_compute; reflexivity |]; split_and!;
        [reflexivity | reflexivity | vm_compute; reflexivity | vm_compute; eauto | constructor | constructor]] |]).
    by apply elem_of_nil in Hk.
  - intros a [cls Ha]. cbn [stored sample_world].
    apply sample_objects in Ha as [[-> ->] | [[-> ->] | [[-> ->] | [[-> ->] | [-> ->]]]]]; set_solver.
Qed.

Lemma sample_world_ok : world_ok sample_layout sample_endpoints sample_world.
Proof.
  constructor; [exact sample_shape | |].
  - intros a [cls Ha]. apply sample_objects in Ha as [[-> ->] | [[-> ->] | [[-> ->] | [[-> ->] | [-> ->]]]]]; vm_compute; reflexivity.
  - intros e ep f a b _ _. split; intros (k & _ & Hp); by apply sample_nothing in Hp.
Qed.

Abbreviation L := sample_layout.
Abbreviation E := sample_endpoints.

Lemma sample_free fe a b : ~ refers L E sample_world fe a b.
Proof. intros (k & _ & H). by apply sample_nothing in H. Qed.

(** The person 1 joins the department 0. *)
Lemma pointer_assigned_witness :
  exists w', reset L E (1, 0) (Some 0) NONE sample_world = Ok w' /\ refers L E w' 1 1 0 /\ refers L E w' 0 0 1.
Proof.
  destruct (pointer_assigned L E sample_world 1 0 1 (Endpoint belongs_to_many (lit "dep") (lit "person") (lit "department") (Some 0))
              (Field (lit "dep") BELONGS_TO (lit "department") NONE) (Some 0) NONE) as (w' & E1 & _ & Hst & Hself & _).
  - exact sample_schema.
  - exact sample_world_ok.
  - reflexivity.
  - vm_compute. reflexivity.
  - discriminate.
  - vm_compute. reflexivity.
  - intros b [= <-]. vm_compute. reflexivity.
  - intros b fe fp _ _ _ _ a' H. by apply sample_free in H.
  - exists w'. assert (refers L E w' 1 1 0) as H by (apply Hself; reflexivity).
    split; [exact E1 |]. split; [exact H |]. exact (proj1 (Hst 1 _ 0 1 0 eq_refl eq_refl) H).
Defined.

Lemma container_changed_witness :
  exists w' c', insert L E (0, 0) 0 (Some 2) sample_world = Ok w' /\ containers w' !! (0, 0) = Some c'
    /\ value_ <$> items_ c' = [Some 2] /\ refers L E w' 1 2 0.
Proof.
  destruct (container_changed L E sample_world 0 0 0 (Endpoint many_to_one (lit "employees") (lit "department") (lit "person") (Some 1))
              (Field (lit "employees") HAS_MANY (lit "person") NONE) (no_items 0 0)) as (Hins & _).
  - exact sample_schema.
  - exact sample_world_ok.
  - reflexivity.
  - vm_compute. reflexivity.
  - reflexivity.
  - vm_compute. reflexivity.
  - vm_compute. reflexivity.
  - destruct (Hins 0 2) as (w' & c' & E1 & _ & _ & Hc' & Hv & Hr).
    + vm_compute. reflexivity.
    + apply sample_free.
    + intros fe a' _. apply sample_free.
    + exists w', c'. split; [exact E1 |]. split; [exact Hc' |]. split; [exact Hv |]. apply Hr. right. right. done.
Defined.

Definition sample_hired : world := ok_or sample_world (reset L E (1, 0) (Some 0) NONE sample_world).
Definition sample_cleared : world := ok_or sample_hired (clear L E (0, 0) sample_hired).

Lemma sample_hire : rel_step L E sample_world sample_hired.
Proof.
  eapply (rs_assign L E sample_world 1 0 1 _ (Field (lit "dep") BELONGS_TO (lit "department") NONE) (Some 0) NONE);
    [reflexivity | vm_compute; reflexivity | done | vm_compute; reflexivity | | | apply is_ok_or; vm_compute; reflexivity].
  - intros b [= <-]. vm_compute. reflexivity.
  - intros b fe fp _ _ _ _ a' H. by apply sample_free in H.
Qed.

Lemma sample_clear : rel_step L E sample_hired sample_cleared.
Proof.
  eapply (rs_clear L E sample_hired 0 0 0);
    [reflexivity | vm_compute; reflexivity | done | vm_compute; reflexivity | apply is_ok_or; vm_compute; reflexivity].
Qed.

Lemma relations_in_step_witness : refs sample_hired !! 1 = Some (u64 (count sample_hired 1)) /\ refs sample_hired !! 1 = Some 1%Z
  /\ refs sample_cleared !! 1 = Some (u64 (count sample_cleared 1)) /\ refs sample_cleared !! 1 = Some 0%Z.
Proof.
  split; [|split; [vm_compute; reflexivity | split; [|vm_compute; reflexivity]]].
  - apply (relations_in_step L E sample_world sample_hired sample_schema sample_world_ok (rtc_once _ _ sample_hire)). vm_compute. eauto.
  - apply (relations_in_step L E sample_world sample_cleared sample_schema sample_world_ok
             (rtc_l _ _ _ _ sample_hire (rtc_once _ _ sample_clear))). vm_compute. eauto.
Defined.

(** ** Where the ends get out of step *)

Definition items_of (k : key) (w : world) : option (list (option loc)) := (fun c => value_ <$> items_ c) <$> containers w !! k.
Definition pointer_of (k : key) (w : world) : option (option loc) := proxy_ <$> holders w !! k.

Example remove_keeps_order :
  (let? w := push_back L E (0, 0) (Some 1) sample_world in
   let? w := push_back L E (0, 0) (Some 2) w in
   let? w := remove L E (0, 0) (Some 1) w in
   Ok (items_of (0, 0) w, pointer_of (1, 0) w, pointer_of (2, 0) w))
  = Ok (Some [Some 2], Some None, Some (Some 0)).
Proof. vm_compute. reflexivity. Qed.

(** A person who is in one department is put into another one: the first
    department keeps the person. *)
Example insert_leaves_old_owner :
  (let? w := push_back L E (0, 0) (Some 1) sample_world in
   let? w := push_back L E (3, 0) (Some 1) w in
   Ok (items_of (0, 0) w, items_of (3, 0) w, pointer_of (1, 0) w))
  = Ok (Some [Some 1], Some [Some 1], Some (Some 3)).
Proof. vm_compute. reflexivity. Qed.

(** Two persons get the same passport: both refer to it, it refers to one. *)
Example assign_leaves_old_partner :
  (let? w := reset L E (1, 1) (Some 4) NONE sample_world in
   let? w := reset L E (2, 1) (Some 4) NONE w in
   Ok (pointer_of (1, 1) w, pointer_of (2, 1) w, pointer_of (4, 0) w))
  = Ok (Some (Some 4), Some (Some 4), Some (Some 2)).
Proof. vm_compute. reflexivity. Qed.

(** A person who is twice in a department: leaving it takes both items out but
    counts one, so the person keeps a reference nobody has. *)
Example duplicate_item_miscounted :
  (let? w := push_back L E (0, 0) (Some 1) sample_world in
   let? w := push_back L E (0, 0) (Some 1) w in
   let? w := reset L E (1, 0) None NONE w in
   Ok (items_of (0, 0) w, refs w !! 1)) = Ok (Some [], Some 1%Z).
Proof. vm_compute. reflexivity. Qed.

End RelationSync.
