(* ===== verification/ObjectDeleter.v ===== *)
(** * Removing objects

    Model of [object_deleter] (include/matador/object/object_deleter.hpp,
    src/object/object_deleter.cpp) and of [object_store::remove] with it: the
    deleter walks over the fields of an object, collects the objects a cascade
    removes with it and the calls that make other objects forget it, and
    compares reference counters to decide whether the object may go. The
    objects live in the world of [Relations]; removing one outside of a
    transaction deletes its proxy, which destroys its fields. *)

From S2P Require Import Prelude PrototypeTree Relations RelationSync.
Local Open Scope cxx_scope.

Module ObjectDeleter.
Import Relations RelationSync.

(** A call collected for later: [remove_value_from_foreign] for a pointer, for
    an item of a container. *)
Inductive unlink := PointerGone (k : key) | ItemGone (k : key) (n : nat).

Record object_deleter := Deleter {
  objects_to_remove_ : list (Z * loc);
  relations_to_remove_ : list unlink;
  visited_objects_ : gmap loc Z }.

Definition empty_deleter : object_deleter := Deleter [] [] ∅.

(** [std::map::insert]. *)
Fixpoint map_insert (id : Z) (p : loc) (m : list (Z * loc)) : list (Z * loc) :=
  match m with
  | [] => [(id, p)]
  | (i, q) :: m' =>
    if (id <? i)%Z then (id, p) :: m
    else if (id =? i)%Z then m
    else (i, q) :: map_insert id p m'
  end.

Definition s64 : Z -> Z := swrap 64.

Definition add_object (id : Z) (p : loc) (d : object_deleter) : object_deleter :=
  Deleter (map_insert id p (objects_to_remove_ d)) (relations_to_remove_ d) (visited_objects_ d).
Definition add_unlink (u : unlink) (d : object_deleter) : object_deleter :=
  Deleter (objects_to_remove_ d) (relations_to_remove_ d ++ [u]) (visited_objects_ d).
(** [visited_objects_.insert]: an entry that is there stays. *)
Definition visit (p : loc) (n : Z) (d : object_deleter) : object_deleter :=
  Deleter (objects_to_remove_ d) (relations_to_remove_ d)
    (match visited_objects_ d !! p with Some _ => visited_objects_ d | None => <[p := n]> (visited_objects_ d) end).
(** [--curr_obj->second] when the object was visited. *)
Definition uncount (p : loc) (d : object_deleter) : object_deleter :=
  Deleter (objects_to_remove_ d) (relations_to_remove_ d) (alter (fun n => s64 (n - 1)) p (visited_objects_ d)).

Lemma s64_sub x y : s64 (s64 x - y) = s64 (x - y).
Proof.
  unfold s64, swrap. f_equal. replace ((x + 2 ^ (64 - 1)) mod 2 ^ 64 - 2 ^ (64 - 1) - y + 2 ^ (64 - 1))%Z
    with ((x + 2 ^ (64 - 1)) mod 2 ^ 64 - y)%Z by lia.
  rewrite Zminus_mod_idemp_l. f_equal. lia.
Qed.
Lemma s64_u64 x : s64 (u64 x) = s64 x.
Proof. unfold s64, swrap, u64, wrap. f_equal. apply Zplus_mod_idemp_l. Qed.

Lemma drop_cons_inv {A} (l : list A) i x l' : drop i l = x :: l' -> l !! i = Some x /\ drop (S i) l = l'.
Proof.
  intros E. assert (l !! i = Some x) as Hx by (rewrite <- (Nat.add_0_r i), <- lookup_drop, E; done).
  split; [done |]. rewrite (drop_S _ _ _ Hx) in E. by injection E.
Qed.

Section Deleter.
Context (layout : str -> list field) (endpoints : list endpoint) (oid : loc -> Z).

Definition refs_of (p : loc) (w : world) : result Z := match refs w !! p with Some n => Ok n | None => null_deref end.

(** [x.ptr()]. *)
Definition object_of (h : object_holder) (w : world) : option loc :=
  match proxy_ h with
  | Some p => match objects w !! p with Some _ => Some p | None => None end
  | None => None
  end.

Definition add_pointer (k : key) (h : object_holder) (d : object_deleter) : object_deleter :=
  match relation_info_ h with Some _ => add_unlink (PointerGone k) d | None => d end.

Fixpoint add_items (k : key) (top : loc) (rel : option nat) (n : nat) (its : list item_holder) (d : object_deleter) : object_deleter :=
  match its with
  | [] => d
  | _ :: its =>
    let d := match rel with Some _ => add_unlink (ItemGone k n) d | None => d end in
    add_items k top rel (S n) its (uncount top d)
  end.

Section Visit.
Context (collect : str -> loc -> object_deleter -> result object_deleter) (w : world).

(** The object is described as one of the class of the pointer. *)
Definition cascade_remove (cls : str) (c : Z) (p : loc) (d : object_deleter) : result object_deleter :=
  if (Z.land c REMOVE =? REMOVE)%Z then collect cls p (add_object (oid p) p d) else Ok d.

Definition on_belongs_to (top : loc) (k : key) (h : object_holder) (cls : str) (c : Z) (d : object_deleter) : result object_deleter :=
  match object_of h w with
  | None => Ok d
  | Some p =>
    match visited_objects_ d !! p with
    | Some _ => Ok d
    | None =>
      let d := add_pointer k h d in
      let? n := refs_of p w in
      let d := visit p (s64 (u64 (n - 1))) d in
      cascade_remove cls c p (uncount top d)
    end
  end.

Definition foreign_belongs_to (e : nat) : bool :=
  match foreign_endpoint endpoints e with Some fp => bool_decide (type_of fp = BELONGS_TO) | None => false end.

Definition on_has_one (top : loc) (k : key) (h : object_holder) (cls : str) (c : Z) (d : object_deleter) : result object_deleter :=
  match object_of h w with
  | None => Ok d
  | Some p =>
    match visited_objects_ d !! p with
    | Some _ => Ok d
    | None =>
      match relation_info_ h with
      | None => null_deref
      | Some e =>
        let d := add_unlink (PointerGone k) d in
        let d := if foreign_belongs_to e then uncount top d else d in
        let? n := refs_of p w in
        cascade_remove cls c p (visit p (s64 (u64 (n - 1))) d)
      end
    end
  end.

Definition on_has_many (top : loc) (k : key) (x : container) (d : object_deleter) : object_deleter :=
  add_items k top (c_relation_ x) 0 (items_ x) d.

Definition on_field (top : loc) (i : nat) (f : field) (d : object_deleter) : result object_deleter :=
  match f_type f with
  | BELONGS_TO => let? h := holder_at (top, i) w in on_belongs_to top (top, i) h (f_value f) (f_cascade f) d
  | HAS_ONE => let? h := holder_at (top, i) w in on_has_one top (top, i) h (f_value f) (f_cascade f) d
  | HAS_MANY => let? x := container_at (top, i) w in Ok (on_has_many top (top, i) x d)
  end.

Fixpoint on_fields (top : loc) (i : nat) (fs : list field) (d : object_deleter) : result object_deleter :=
  match fs with
  | [] => Ok d
  | f :: fs => let? d := on_field top i f d in on_fields top (S i) fs d
  end.
End Visit.

(** Every object is walked over at most once. *)
Fixpoint collect (fuel : nat) (w : world) (cls : str) (top : loc) (d : object_deleter) : result object_deleter :=
  match fuel with
  | O => Throw out_of_fuel
  | S fuel => on_fields (collect fuel w) w top 0 (layout cls) d
  end.

(** [proxy->delete_object()]. *)
Definition delete_object (w : world) (p : loc) (d : object_deleter) : result object_deleter :=
  match objects w !! p with
  | None => null_deref
  | Some cls => collect (S (size (objects w))) w cls p d
  end.

Fixpoint check_object_count_map (m : list (Z * loc)) (visited : gmap loc Z) : result bool :=
  match m with
  | [] => Ok true
  | (_, p) :: m =>
    match visited !! p with
    | Some n =>
      if (0 <? n)%Z then Ok false
      else if (n <? 0)%Z then Throw (object_exception "reference count is less zero")
      else check_object_count_map m visited
    | None => check_object_count_map m visited
    end
  end.

(** The answer and the deleter, which belongs to the store and stays as it is
    when an exception leaves. *)
Definition is_deletable (w : world) (p : loc) (d : object_deleter) : result bool * object_deleter :=
  match refs w !! p with
  | None => (null_deref, d)
  | Some n =>
    let d := visit p (s64 n) (Deleter [(oid p, p)] (relations_to_remove_ d) (visited_objects_ d)) in
    match delete_object w p d with
    | Throw e => (Throw e, d)
    | Ok d =>
      match check_object_count_map (objects_to_remove_ d) (visited_objects_ d) with
      | Throw e => (Throw e, d)
      | Ok b => (Ok b, Deleter (objects_to_remove_ d) (relations_to_remove_ d) ∅)
      end
    end
  end.

(** ** Deleting a proxy *)

Definition drop_reference (p : option loc) (w : world) : result world :=
  match p with Some _ => decrement_reference_count p w | None => Ok w end.

Fixpoint drop_items (its : list item_holder) (w : world) : result world :=
  match its with
  | [] => Ok w
  | x :: its => let? w := (if item_inserted_ x then drop_reference (value_ x) w else Ok w) in drop_items its w
  end.

(** [~object_holder] and the destructor of a container. *)
Definition destroy_pointer (k : key) (w : world) : result world :=
  let? h := holder_at k w in
  let? w := (if is_internal (proxy_ h) w && is_inserted_ h && bool_decide (relation_info_ h <> None)
             then decrement_reference_count (proxy_ h) w else Ok w) in
  Ok (set_holders (delete k (holders w)) w).
Definition destroy_container (k : key) (w : world) : result world :=
  let? c := container_at k w in
  let? w := drop_items (items_ c) w in
  Ok (set_containers (delete k (containers w)) w).
Definition destroy_field (p : loc) (i : nat) (f : field) (w : world) : result world :=
  match f_type f with HAS_MANY => destroy_container (p, i) w | _ => destroy_pointer (p, i) w end.

(** Every pointer that still leads to the proxy becomes null. *)
Definition forget_holder (p : loc) (h : object_holder) : object_holder :=
  if decide (proxy_ h = Some p) then Holder None (owner_ h) (cascade_ h) (is_inserted_ h) (relation_info_ h) else h.
Definition forget_item (p : loc) (x : item_holder) : item_holder :=
  if decide (value_ x = Some p) then Item None (item_inserted_ x) (item_proxy_ x) else x.
Definition forget (p : loc) (w : world) : world :=
  World (delete p (objects w)) (stored w ∖ {[p]}) (delete p (refs w)) (forget_holder p <$> holders w)
    ((fun c => set_items (forget_item p <$> items_ c) c) <$> containers w) (modified w).

Definition delete_proxy (p : loc) (w : world) : result world :=
  match objects w !! p with
  | None => null_deref
  | Some cls => let? w := process (destroy_field p) 0 (layout cls) w in Ok (forget p w)
  end.

(** [object_store::remove(proxy, false)] without a transaction. *)
Definition remove_single (p : loc) (w : world) : result world :=
  if decide (p ∈ stored w) then delete_proxy p w else Throw (object_exception "couldn't remove object").

(** ** Removing *)

Definition run_unlink (u : unlink) (w : world) : result world :=
  match u with
  | PointerGone k =>
    let? h := holder_at k w in
    match relation_info_ h with
    | Some e => remove_value_from_foreign layout endpoints e (item_of (owner_ h)) (proxy_ h) w
    | None => null_deref
    end
  | ItemGone k n =>
    let? c := container_at k w in
    match items_ c !! n, c_relation_ c with
    | Some x, Some e => remove_value_from_foreign layout endpoints e x (Some k.1) w
    | _, _ => null_deref
    end
  end.

Fixpoint run_all {A} (g : A -> world -> result world) (l : list A) (w : world) : result world :=
  match l with
  | [] => Ok w
  | x :: l => let? w := g x w in run_all g l w
  end.

Definition remove_all (d : object_deleter) (w : world) : result (world * object_deleter) :=
  let? w := run_all run_unlink (relations_to_remove_ d) w in
  let? w := run_all (fun o => remove_single o.2) (objects_to_remove_ d) w in
  Ok (w, Deleter [] [] (visited_objects_ d)).

(** [object_store::remove(proxy, true)]. *)
Definition store_remove (w : world) (p : loc) (d : object_deleter) : result (world * object_deleter) * object_deleter :=
  let '(r, d) := is_deletable w p d in
  (let? ok := r in if ok then remove_all d w else Throw (object_exception "object is not removable"), d).

(** ** Enough fuel *)

(** Cascades go to objects that have not been visited. *)
Definition unvisited (w : world) (d : object_deleter) : nat := size (dom (objects w) ∖ dom (visited_objects_ d)).
Definition ends (d : object_deleter) (r : result object_deleter) : Prop :=
  r <> Throw out_of_fuel /\ forall d', r = Ok d' -> dom (visited_objects_ d) ⊆ dom (visited_objects_ d').

Lemma unvisited_mono w d d' : dom (visited_objects_ d) ⊆ dom (visited_objects_ d') -> unvisited w d' <= unvisited w d.
Proof. intros H. apply subseteq_size. set_solver. Qed.

Lemma ends_after d d1 r : dom (visited_objects_ d) ⊆ dom (visited_objects_ d1) -> ends d1 r -> ends d r.
Proof. intros H [E1 E2]. split; [done |]. intros d' E. specialize (E2 d' E). set_solver. Qed.

Lemma uncount_dom p d : dom (visited_objects_ (uncount p d)) = dom (visited_objects_ d).
Proof. apply dom_alter_L. Qed.

Lemma visit_dom p n d : dom (visited_objects_ (visit p n d)) = {[p]} ∪ dom (visited_objects_ d).
Proof. cbn. destruct (visited_objects_ d !! p) eqn:E; [|by rewrite dom_insert_L]. assert (p ∈ dom (visited_objects_ d)) by by apply elem_of_dom. set_solver. Qed.

Lemma add_items_dom k top rel its : forall n d, dom (visited_objects_ (add_items k top rel n its d)) = dom (visited_objects_ d).
Proof. induction its as [|x its IH]; intros n d; [done |]. cbn [add_items]. rewrite IH, uncount_dom. by destruct rel. Qed.

Section Ends.
Context (w : world) (fuel : nat) (col : str -> loc -> object_deleter -> result object_deleter).
Context (Hcol : forall cls p d, unvisited w d < fuel -> ends d (col cls p d)).

(** A cascade that follows a first visit. *)
Lemma cascade_ends cls c p d d1 :
  unvisited w d < S fuel -> is_Some (objects w !! p) -> visited_objects_ d !! p = None ->
  dom (visited_objects_ d1) = {[p]} ∪ dom (visited_objects_ d) -> ends d (cascade_remove col cls c p d1).
Proof using Hcol layout endpoints.
  intros Hd Hp Hn E. apply (ends_after d d1); [set_solver |]. unfold cascade_remove. destruct (_ =? _)%Z; [|split; [done | by intros d' [= <-]]].
  apply (ends_after d1 (add_object (oid p) p d1)); [done |]. apply Hcol. unfold unvisited in Hd |- *. cbn. rewrite E. apply elem_of_dom in Hp. apply not_elem_of_dom in Hn.
  assert (size ({[p]} ∪ dom (objects w) ∖ ({[p]} ∪ dom (visited_objects_ d))) <= fuel) as Hle.
  { apply Nat.lt_succ_r. eapply Nat.le_lt_trans; [|exact Hd]. apply subseteq_size. set_solver. }
  rewrite size_union, size_singleton in Hle by set_solver. lia.
Qed.

Lemma object_of_Some h p : object_of h w = Some p -> is_Some (objects w !! p).
Proof. unfold object_of. destruct (proxy_ h); [|done]. destruct (objects w !! _) eqn:E; [|done]. intros [= <-]. eauto. Qed.

Lemma ends_self d : ends d (Ok d).
Proof. split; [done | by intros d' [= <-]]. Qed.
Lemma ends_null d : ends d null_deref.
Proof. split; [discriminate | discriminate]. Qed.

Lemma on_field_ends top i f d : unvisited w d < S fuel -> ends d (on_field col w top i f d).
Proof using Hcol layout endpoints.
  intros Hd. unfold on_field, holder_at, container_at. destruct (f_type f).
  - destruct (holders w !! _) as [h|]; [cbn [rbind] | apply ends_null]. unfold on_belongs_to.
    destruct (object_of h w) as [p|] eqn:Ep; [|apply ends_self]. apply object_of_Some in Ep.
    destruct (visited_objects_ d !! p) eqn:Ev; [apply ends_self |]. unfold refs_of. destruct (refs w !! p); [cbn [rbind] | apply ends_null].
    eapply cascade_ends; [done | done | done |]. rewrite uncount_dom, visit_dom. unfold add_pointer. by destruct (relation_info_ h).
  - destruct (holders w !! _) as [h|]; [cbn [rbind] | apply ends_null]. unfold on_has_one.
    destruct (object_of h w) as [p|] eqn:Ep; [|apply ends_self]. apply object_of_Some in Ep.
    destruct (visited_objects_ d !! p) eqn:Ev; [apply ends_self |]. destruct (relation_info_ h) as [e|]; [|apply ends_null].
    unfold refs_of. destruct (refs w !! p); [cbn [rbind] | apply ends_null].
    eapply cascade_ends; [done | done | done |]. rewrite visit_dom. destruct (foreign_belongs_to e); [by rewrite uncount_dom | done].
  - destruct (containers w !! _) as [x|]; [cbn [rbind] | apply ends_null]. eapply ends_after; [|apply ends_self].
    unfold on_has_many. by rewrite add_items_dom.
Qed.

Lemma on_fields_ends top fs : forall i d, unvisited w d < S fuel -> ends d (on_fields col w top i fs d).
Proof using Hcol layout endpoints.
  induction fs as [|f fs IH]; intros i d Hd; [apply ends_self |]. cbn [on_fields]. destruct (on_field_ends top i f d Hd) as [E1 E2].
  destruct (on_field col w top i f d) as [d1|e]; cbn [rbind]; [|split; [congruence | done]].
  specialize (E2 d1 eq_refl). apply (ends_after d d1); [done |]. apply IH. pose proof (unvisited_mono w d d1 E2). lia.
Qed.
End Ends.

Lemma collect_ends w fuel : forall cls p d, unvisited w d < fuel -> ends d (collect fuel w cls p d).
Proof.
  induction fuel as [|fuel IH]; intros cls p d Hd; [lia |]. cbn [collect]. by apply (on_fields_ends w fuel).
Qed.

(** The walk over an object and what is removed with it ends. *)
Lemma delete_object_ends w p d : delete_object w p d <> Throw out_of_fuel.
Proof.
  unfold delete_object. destruct (objects w !! p) as [cls|]; [|discriminate]. apply collect_ends. unfold unvisited.
  rewrite <- (size_dom (objects w)). apply Nat.lt_succ_r. apply subseteq_size. set_solver.
Qed.

(** ** The links of an object *)

(** What a field refers to: the call that unlinks it, the endpoint of the field
    and the object. *)
Definition field_links (w : world) (k : key) (f : field) : list (unlink * (nat * loc)) :=
  match f_type f with
  | HAS_MANY =>
    match containers w !! k with
    | Some c => imap (fun n x => (ItemGone k n, (default 0 (c_relation_ c), default 0 (value_ x)))) (items_ c)
    | None => []
    end
  | _ =>
    match holders w !! k with
    | Some h => match proxy_ h with
                | Some b => [(PointerGone k, (default 0 (relation_info_ h), b))]
                | None => []
                end
    | None => []
    end
  end.

Fixpoint links (w : world) (a : loc) (i : nat) (fs : list field) : list (unlink * (nat * loc)) :=
  match fs with
  | [] => []
  | f :: fs => field_links w (a, i) f ++ links w a (S i) fs
  end.

Lemma elem_of_links w a i fs x :
  x ∈ links w a i fs <-> exists j f, fs !! j = Some f /\ x ∈ field_links w (a, i + j) f.
Proof.
  revert i. induction fs as [|f fs IH]; intros i; cbn [links].
  - split; [by intros ?%elem_of_nil | by intros (j & f & H & _)].
  - rewrite elem_of_app, IH. split.
    + intros [H | (j & g & Hg & H)]; [exists 0, f; by rewrite Nat.add_0_r | exists (S j), g; by rewrite <- plus_n_Sm].
    + intros ([|j] & g & Hg & H); [left; simplify_eq/=; by rewrite Nat.add_0_r in H | right; exists j, g; by rewrite <- plus_n_Sm in H].
Qed.

(** ** Counting what is dropped *)

Lemma drop_items_spec f its : forall w d,
  owes w d -> Forall (item_ok w f) its ->
  exists w', drop_items its w = Ok w' /\ owes w' (fun y => d y - Z.of_nat (length (filter (counted y) its)))%Z /\ same_fields w w'.
Proof.
  induction its as [|x its IH]; intros w d Ho Hits.
  - exists w. split; [done |]. split; [|done]. eapply owes_ext; [|exact Ho]. intros y. cbn. lia.
  - apply Forall_cons_iff in Hits as [(Hx & b & Hb & Hob) Hits]. cbn [drop_items]. rewrite Hx, Hb. cbn [drop_reference].
    destruct (count_same w b (-1) d Ho) as (w1 & E1 & Ho1 & Hs1); [by rewrite Hob |]. unfold decrement_reference_count. rewrite E1. cbn [rbind].
    destruct (IH w1 _ Ho1) as (w2 & E2 & Ho2 & Hs2).
    { eapply list.Forall_impl; [exact Hits |]. intros y. apply item_ok_objects. by destruct Hs1. }
    exists w2. split; [done |]. split; [|destruct Hs1 as (? & ? & ? & ?), Hs2 as (? & ? & ? & ?); repeat split; congruence].
    eapply owes_ext; [|exact Ho2]. intros y. cbn beta. rewrite filter_cons. unfold at_.
    destruct (decide (counted y x)) as [[_ E] | E]; [rewrite decide_True by congruence | rewrite decide_False by (intros [= ->]; by apply E)]; cbn [length]; lia.
Qed.

Lemma delete_holder_owes w k h d :
  owes w d -> holders w !! k = Some h -> owes (set_holders (delete k (holders w)) w) (fun y => d y + weight y h)%Z.
Proof. intros Ho Hk y Hy. cbn in *. rewrite (Ho y Hy). do 2 f_equal. unfold count. cbn. rewrite (msum_delete _ _ _ _ Hk). lia. Qed.

Lemma delete_container_owes w k c d :
  owes w d -> containers w !! k = Some c -> owes (set_containers (delete k (containers w)) w) (fun y => d y + item_weight y c)%Z.
Proof. intros Ho Hk y Hy. cbn in *. rewrite (Ho y Hy). do 2 f_equal. unfold count. cbn. rewrite (msum_delete _ _ _ _ Hk). lia. Qed.

Section Remove.
Context (Hs : schema_ok layout endpoints).

(** Both ends of all relations of the class are fields, and removing an object
    of the class removes no other object. *)
Definition two_sided (cls : str) : Prop :=
  forall i f, layout cls !! i = Some f -> exists e, relation_at layout endpoints cls i = Some e /\ foreign_of endpoints e <> None.
Definition no_cascade (cls : str) : Prop := forall i f, layout cls !! i = Some f -> Z.land (f_cascade f) REMOVE <> REMOVE.

Context (w : world) (a : loc) (cls : str).
Context (Hok : world_ok layout endpoints w) (Ha : objects w !! a = Some cls) (Htwo : two_sided cls).

(** The endpoint of a field of the object. *)
Lemma own_field i f :
  layout cls !! i = Some f ->
  exists e ep, relation_at layout endpoints cls i = Some e /\ endpoints !! e = Some ep /\ e_node ep = cls /\ slot layout ep = Some (i, f)
    /\ field_of layout endpoints w e a = Some (a, i) /\ f_type f = type_of ep /\ f_value f = e_value ep /\ foreign_of endpoints e <> None.
Proof using Hs Ha Htwo.
  intros Hf. destruct (Htwo i f Hf) as (e & He & Hfo). destruct (relation_at_slot layout endpoints cls i e He) as (ep & f' & Hep & Hn & Hi).
  destruct (slot_field layout endpoints Hs e ep i f' Hep Hi) as (Hl & Ht & Hv & _). rewrite Hn, Hf in Hl. injection Hl as <-.
  exists e, ep. split_and!; try done. unfold field_of. by rewrite Hep, Hi, decide_True by by rewrite Ha, Hn.
Qed.

(** Fields of the object lead to objects of different classes, and never to
    the class itself. *)
Lemma own_values i j f g : layout cls !! i = Some f -> layout cls !! j = Some g -> f_value f = f_value g -> i = j.
Proof using Hs Ha Htwo.
  intros Hf Hg E. destruct (own_field i f Hf) as (e & ep & _ & He & Hn & Hi & _ & _ & Hv & _).
  destruct (own_field j g Hg) as (e' & ep' & _ & He' & Hn' & Hj & _ & _ & Hv' & _).
  assert (e = e') as -> by (eapply (sk_key _ _ Hs e e' ep ep'); [done | done | congruence | congruence]). simplify_eq. done.
Qed.

Lemma own_class i f : layout cls !! i = Some f -> f_value f <> cls.
Proof using Hs Ha Htwo.
  intros Hf E. destruct (own_field i f Hf) as (e & ep & _ & He & Hn & Hi & _ & _ & Hv & Hfo).
  destruct (foreign_of endpoints e) as [fe|] eqn:Hfe; [|done].
  destruct (foreign_of_Some layout endpoints Hs e ep fe He Hfe) as (Hne & fp & Hfp & _ & E1 & E2 & _).
  apply Hne. eapply (sk_key _ _ Hs fe e fp ep); [done | done | congruence | congruence].
Qed.

(** ** Collecting *)

Context (Hno : no_cascade cls).

(** Objects are visited field by field. *)
Definition seen (i : nat) (d : object_deleter) : Prop :=
  forall q, is_Some (visited_objects_ d !! q) ->
  q = a \/ exists j g, j < i /\ layout cls !! j = Some g /\ objects w !! q = Some (f_value g).

(** The deleter after [L] more links of the object. *)
Definition collected (d : object_deleter) (n : Z) (L : list unlink) (d' : object_deleter) : Prop :=
  objects_to_remove_ d' = objects_to_remove_ d /\ relations_to_remove_ d' = relations_to_remove_ d ++ L
  /\ visited_objects_ d' !! a = Some (s64 (n - Z.of_nat (length L))).

Lemma collected_none d n : visited_objects_ d !! a = Some (s64 n) -> collected d n [] d.
Proof. intros H. split_and!; [done | by rewrite app_nil_r | by rewrite Z.sub_0_r]. Qed.

Lemma collected_app d n L d' L' d'' :
  collected d n L d' -> collected d' (n - Z.of_nat (length L)) L' d'' -> collected d n (L ++ L') d''.
Proof.
  intros (E1 & E2 & E3) (E4 & E5 & E6). split_and!; [congruence | by rewrite E5, E2, app_assoc |].
  rewrite E6. do 2 f_equal. rewrite length_app. lia.
Qed.

Lemma add_items_spec k e its : forall m d n,
  visited_objects_ d !! a = Some (s64 n) ->
  collected d n (imap (fun j _ => ItemGone k (m + j)) its) (add_items k a (Some e) m its d)
  /\ dom (visited_objects_ (add_items k a (Some e) m its d)) = dom (visited_objects_ d).
Proof.
  induction its as [|x its IH]; intros m d n Hn; [split; [by apply collected_none | done] |]. cbn [add_items imap].
  set (d1 := uncount a (add_unlink (ItemGone k m) d)).
  assert (visited_objects_ d1 !! a = Some (s64 (n - 1))) as Hn1 by (cbn; rewrite lookup_alter_eq, Hn; cbn; by rewrite s64_sub).
  destruct (IH (S m) d1 (n - 1)%Z Hn1) as [(E1 & E2 & E3) Hd]. split.
  - split_and!; [by rewrite E1 | rewrite E2; cbn; rewrite Nat.add_0_r, <- app_assoc; do 2 f_equal |].
    + apply imap_ext. intros j y _. cbn. f_equal. lia.
    + rewrite E3. do 2 f_equal. cbn [length]. rewrite !length_imap. lia.
  - rewrite Hd. cbn. apply dom_alter_L.
Qed.

Lemma seen_more i d d' : seen i d -> dom (visited_objects_ d') = dom (visited_objects_ d) -> seen (S i) d'.
Proof.
  intros Hd E q Hq. apply elem_of_dom in Hq. rewrite E in Hq. apply elem_of_dom in Hq.
  destruct (Hd q Hq) as [H | (j & g & Hj & H)]; [by left | right]. exists j, g. split; [lia | done].
Qed.

(** A pointer to an object that was not visited. *)
Lemma pointer_step i f b d n :
  layout cls !! i = Some f -> objects w !! b = Some (f_value f) -> seen i d -> visited_objects_ d !! a = Some (s64 n) ->
  visited_objects_ d !! b = None /\ (exists z, refs_of b w = Ok z)
  /\ (forall z, collected d n [PointerGone (a, i)] (uncount a (visit b z (add_unlink (PointerGone (a, i)) d)))
       /\ collected d n [PointerGone (a, i)] (visit b z (uncount a (add_unlink (PointerGone (a, i)) d)))
       /\ seen (S i) (uncount a (visit b z (add_unlink (PointerGone (a, i)) d)))
       /\ seen (S i) (visit b z (uncount a (add_unlink (PointerGone (a, i)) d)))).
Proof using Hs Ha Htwo Hok.
  intros Hf Hb Hd Hn. assert (b <> a) as Hba by (intros ->; rewrite Ha in Hb; injection Hb as E; by apply (own_class i f Hf)).
  assert (visited_objects_ d !! b = None) as Hnone.
  { destruct (visited_objects_ d !! b) eqn:Eb; [|done]. destruct (Hd b) as [-> | (j & g & Hj & Hg & Hbg)]; [by rewrite Eb | done |].
    rewrite Hb in Hbg. injection Hbg as E. assert (i = j) by by eapply own_values. lia. }
  split; [done |]. split.
  { unfold refs_of. rewrite (ok_exact _ _ w Hok b) by by rewrite Hb. eauto. }
  intros z.
  assert (visited_objects_ (uncount a (visit b z (add_unlink (PointerGone (a, i)) d))) = alter (fun n => s64 (n - 1)) a (<[b := z]> (visited_objects_ d)))
    as E1 by (cbn; by rewrite Hnone).
  assert (visited_objects_ (visit b z (uncount a (add_unlink (PointerGone (a, i)) d))) = <[b := z]> (alter (fun n => s64 (n - 1)) a (visited_objects_ d)))
    as E2 by (cbn; by rewrite lookup_alter_ne, Hnone by done).
  assert (forall d', dom (visited_objects_ d') = {[b]} ∪ dom (visited_objects_ d) -> seen (S i) d') as Hseen.
  { intros d' Ed q Hq. apply elem_of_dom in Hq. rewrite Ed in Hq. apply elem_of_union in Hq as [->%elem_of_singleton | Hq].
    - right. exists i, f. split; [lia | done].
    - apply elem_of_dom in Hq. destruct (Hd q Hq) as [H | (j & g & Hj & H)]; [by left | right]. exists j, g. split; [lia | done]. }
  split_and!.
  - split_and!; [done | done |]. rewrite E1, lookup_alter_eq, lookup_insert_ne, Hn by done. cbn. by rewrite s64_sub.
  - split_and!; [done | done |]. rewrite E2, lookup_insert_ne, lookup_alter_eq, Hn by done. cbn. by rewrite s64_sub.
  - apply Hseen. rewrite E1, dom_alter_L, dom_insert_L. done.
  - apply Hseen. rewrite E2, dom_insert_L, dom_alter_L. done.
Qed.

Lemma no_cascade_step (col : str -> loc -> object_deleter -> result object_deleter) i f b d :
  layout cls !! i = Some f -> cascade_remove col (f_value f) (f_cascade f) b d = Ok d.
Proof using Hno. intros Hf. unfold cascade_remove. destruct (Z.eqb_spec (Z.land (f_cascade f) REMOVE) REMOVE); [by destruct (Hno i f Hf) | done]. Qed.

(** The pointer or the container of a field. *)
Lemma own_pointer v i f :
  related layout endpoints w v -> layout cls !! i = Some f -> f_type f <> HAS_MANY ->
  exists h e, holders v !! (a, i) = Some h /\ is_inserted_ h = true /\ owner_ h = Some a /\ relation_info_ h = Some e
    /\ relation_at layout endpoints cls i = Some e /\ containers v !! (a, i) = None
    /\ (forall b, proxy_ h = Some b -> objects w !! b = Some (f_value f)).
Proof using Hs Ha Htwo.
  intros [Eo Hv] Hf Ht. destruct (own_field i f Hf) as (e & ep & Hr & _). assert (field_at layout v (a, i) = Some (cls, f)) as Hfa.
  { unfold field_at. cbn. by rewrite Eo, Ha, Hf. }
  destruct (sh_holder _ _ v Hv (a, i) cls f Hfa Ht) as (Hc & h & Hh & Hi & Ho & Hrel & Hty). cbn [fst snd] in *. rewrite Eo in Hty.
  exists h, e. split_and!; try done. congruence.
Qed.

Lemma own_container v i f :
  related layout endpoints w v -> layout cls !! i = Some f -> f_type f = HAS_MANY ->
  exists c e, containers v !! (a, i) = Some c /\ c_owner_ c = Some a /\ c_relation_ c = Some e /\ relation_at layout endpoints cls i = Some e
    /\ holders v !! (a, i) = None /\ Forall (item_ok w f) (items_ c) /\ NoDup (value_ <$> items_ c).
Proof using Hs Ha Htwo.
  intros [Eo Hv] Hf Ht. destruct (own_field i f Hf) as (e & ep & Hr & _). assert (field_at layout v (a, i) = Some (cls, f)) as Hfa.
  { unfold field_at. cbn. by rewrite Eo, Ha, Hf. }
  destruct (sh_container _ _ v Hv (a, i) cls f Hfa Ht) as (Hh & c & Hc & Hst & Ho & Hrel & _ & Hits & Hnd). cbn [fst snd] in *.
  exists c, e. split_and!; try done; [congruence |]. eapply list.Forall_impl; [exact Hits |]. intros x. by apply item_ok_objects.
Qed.

Lemma related_self : related layout endpoints w w.
Proof using Hok. split; [done | apply (ok_shape _ _ w Hok)]. Qed.

Lemma own_foreign i f e : layout cls !! i = Some f -> relation_at layout endpoints cls i = Some e -> f_type f = HAS_ONE -> foreign_belongs_to e = true.
Proof using Hs Ha Htwo.
  intros Hf Hr Ht. destruct (own_field i f Hf) as (e' & ep & Hr' & He & _ & _ & _ & Hty & _ & Hfo). simplify_eq.
  destruct (foreign_of endpoints e) as [fe|] eqn:Hfe; [|done].
  destruct (foreign_of_Some layout endpoints Hs e ep fe He Hfe) as (_ & fp & _ & _ & _ & _ & Hp & Hfp). unfold foreign_belongs_to. rewrite Hfp.
  apply bool_decide_eq_true. unfold partners, type_of in *. destruct (e_kind ep) as [[]| |], (e_kind fp) as [[]| |]; try done; congruence.
Qed.

Lemma on_field_spec (col : str -> loc -> object_deleter -> result object_deleter) i f d n :
  layout cls !! i = Some f -> seen i d -> visited_objects_ d !! a = Some (s64 n) ->
  exists d', on_field col w a i f d = Ok d' /\ collected d n (field_links w (a, i) f).*1 d' /\ seen (S i) d'.
Proof using Hs Ha Htwo Hok Hno.
  intros Hf Hd Hn. unfold on_field, field_links. destruct (decide (f_type f = HAS_MANY)) as [Hm | Hm].
  - rewrite Hm. destruct (own_container w i f related_self Hf Hm) as (c & e & Hc & _ & Hrel & _). unfold container_at. rewrite Hc. cbn [rbind].
    eexists. split; [done |]. unfold on_has_many. rewrite Hrel. destruct (add_items_spec (a, i) e (items_ c) 0 d n Hn) as [Hcol Hdom].
    split; [|by eapply seen_more]. rewrite fmap_imap. exact Hcol.
  - destruct (own_pointer w i f related_self Hf Hm) as (h & e & Hh & _ & _ & Hrel & Hr & _ & Hty). unfold holder_at. rewrite Hh.
    destruct (proxy_ h) as [b|] eqn:Eb.
    + pose proof (Hty b eq_refl) as Hb. destruct (pointer_step i f b d n Hf Hb Hd Hn) as (Hnv & [z Hz] & Hstep).
      destruct (Hstep (s64 (u64 (z - 1)))) as (C1 & C2 & S1 & S2).
      destruct (f_type f) eqn:Et; [| | done]; cbn [rbind]; unfold on_belongs_to, on_has_one, object_of; rewrite Eb, Hb, Hnv;
        unfold add_pointer; rewrite Hrel, ?(own_foreign i f e Hf Hr Et), Hz; cbn [rbind]; rewrite (no_cascade_step col i f b _ Hf); eauto.
    + exists d. split; [|split; [destruct (f_type f); [by apply collected_none | by apply collected_none | done] | by eapply seen_more]].
      destruct (f_type f) eqn:Et; [| | done]; cbn [rbind]; unfold on_belongs_to, on_has_one, object_of; by rewrite Eb.
Qed.

Lemma on_fields_spec (col : str -> loc -> object_deleter -> result object_deleter) fs : forall i d n,
  drop i (layout cls) = fs -> seen i d -> visited_objects_ d !! a = Some (s64 n) ->
  exists d', on_fields col w a i fs d = Ok d' /\ collected d n (links w a i fs).*1 d'.
Proof using Hs Ha Htwo Hok Hno.
  induction fs as [|f fs IH]; intros i d n Efs Hd Hn; [exists d; split; [done | by apply collected_none] |].
  destruct (drop_cons_inv (layout cls) i f fs Efs) as [Hf Efs'].
  destruct (on_field_spec col i f d n Hf Hd Hn) as (d1 & E1 & C1 & S1). cbn [on_fields links]. rewrite E1. cbn [rbind].
  destruct (IH (S i) d1 (n - Z.of_nat (length (field_links w (a, i) f).*1))%Z Efs' S1) as (d2 & E2 & C2); [by destruct C1 as (_ & _ & ->) |].
  exists d2. split; [exact E2 |]. rewrite fmap_app. by eapply collected_app.
Qed.

(** ** Forgetting *)

(** The call collected for a link makes [b] forget the object, as long as the
    fields of the object are as they were. *)
Definition own_fields (v : world) : Prop := forall i, same_at w v (a, i).

Lemma link_call u e b :
  (u, (e, b)) ∈ links w a 0 (layout cls) ->
  exists ep fe fp, endpoints !! e = Some ep /\ foreign_of endpoints e = Some fe /\ endpoints !! fe = Some fp
    /\ refers layout endpoints w e a b /\ b <> a
    /\ forall v, own_fields v -> exists x owner, run_unlink u v = remove_value_from_foreign layout endpoints e x owner v /\ directed fp x owner b a.
Proof using Hs Ha Htwo Hok.
  intros (i & f & Hf & Hin)%elem_of_links. cbn [Nat.add] in Hin. destruct (own_field i f Hf) as (e' & ep & Hr & He & Hn & Hi & Hfo & Hty & Hv & Hfor).
  destruct (foreign_of endpoints e') as [fe|] eqn:Hfe; [|done].
  destruct (foreign_of_Some layout endpoints Hs e' ep fe He Hfe) as (_ & fp & Hfp & _ & _ & _ & Hpart & _).
  assert (forall b, objects w !! b = Some (f_value f) -> b <> a) as Hba.
  { intros b' Hb ->. rewrite Ha in Hb. injection Hb as E. by apply (own_class i f Hf). }
  unfold field_links in Hin. destruct (decide (f_type f = HAS_MANY)) as [Hm | Hm].
  - rewrite Hm in Hin. destruct (own_container w i f related_self Hf Hm) as (c & e1 & Hc & Hco & Hrel & Hr1 & Hh & Hits & _). rewrite Hc in Hin.
    apply list_elem_of_lookup in Hin as [n Hn']. rewrite list_lookup_imap in Hn'. apply fmap_Some_1 in Hn' as (x & Hx & [= -> -> ->]).
    assert (e1 = e') as -> by congruence. rewrite Hrel. cbn [default]. rewrite list.Forall_forall in Hits.
    destruct (Hits x) as (_ & b & Hb & Hob); [by eapply list_elem_of_lookup_2 |]. rewrite Hb. cbn [default].
    exists ep, fe, fp. split_and!; try done; [| by apply Hba |].
    + exists (a, i). split; [done |]. apply (points_container w (a, i) c b Hc Hh). rewrite <- Hb. apply list_elem_of_fmap_2. by eapply list_elem_of_lookup_2.
    + intros v Hv'. exists x, (Some a). cbn [run_unlink]. unfold container_at. rewrite (proj2 (Hv' i)), Hc. cbn [rbind]. rewrite Hx, Hrel. split; [done |].
      unfold directed, partners, type_of in *. destruct (e_kind ep) as [[]| |] eqn:Ek, (e_kind fp) as [[]| |]; try done; congruence.
  - destruct (own_pointer w i f related_self Hf Hm) as (h & e1 & Hh & _ & Hown & Hrel & Hr1 & Hc & Hto). rewrite Hh in Hin.
    assert (e1 = e') as -> by congruence.
    assert (exists b', proxy_ h = Some b' /\ (u, (e, b)) = (PointerGone (a, i), (e', b'))) as (b' & Hb & [= -> -> ->]).
    { rewrite Hrel in Hin. destruct (f_type f); [| | done]; destruct (proxy_ h) as [b'|]; try by apply not_elem_of_nil in Hin.
      all: apply list_elem_of_singleton in Hin; eauto. }
    exists ep, fe, fp. split_and!; try done; [| by apply Hba, Hto |].
    + exists (a, i). split; [done |]. by apply (points_holder w (a, i) h b' Hh Hc).
    + intros v Hv'. exists (item_of (Some a)), (Some b'). cbn [run_unlink]. unfold holder_at. rewrite (proj1 (Hv' i)), Hh. cbn [rbind].
      rewrite Hrel, Hown, Hb. split; [done |].
      unfold directed, partners, type_of in *. destruct (e_kind ep) as [[]| |] eqn:Ek, (e_kind fp) as [[]| |]; try done; congruence.
Qed.

(** No two links of the object have the same endpoint and the same object. *)
Lemma field_links_endpoint i f e b :
  layout cls !! i = Some f -> (e, b) ∈ (field_links w (a, i) f).*2 -> relation_at layout endpoints cls i = Some e.
Proof using Hs Ha Htwo Hok.
  intros Hf Hin. unfold field_links in Hin. destruct (decide (f_type f = HAS_MANY)) as [Hm | Hm].
  - rewrite Hm in Hin. destruct (own_container w i f related_self Hf Hm) as (c & e1 & Hc & _ & Hrel & Hr1 & _). rewrite Hc, Hrel in Hin.
    apply list_elem_of_fmap in Hin as ([u eb] & E & Hin). cbn in E. subst eb. apply list_elem_of_lookup in Hin as [n Hn]. rewrite list_lookup_imap in Hn.
    apply fmap_Some_1 in Hn as (x & _ & E). by injection E as _ -> _.
  - destruct (own_pointer w i f related_self Hf Hm) as (h & e1 & Hh & _ & _ & Hrel & Hr1 & _). rewrite Hh, Hrel in Hin.
    destruct (f_type f); [| | done]; destruct (proxy_ h); try by apply not_elem_of_nil in Hin.
    all: apply list_elem_of_singleton in Hin; by injection Hin as -> ->.
Qed.

Lemma field_links_nodup i f : layout cls !! i = Some f -> NoDup (field_links w (a, i) f).*2.
Proof using Hs Ha Htwo Hok.
  intros Hf. unfold field_links. destruct (decide (f_type f = HAS_MANY)) as [Hm | Hm].
  - rewrite Hm. destruct (own_container w i f related_self Hf Hm) as (c & e1 & Hc & _ & _ & _ & _ & Hits & Hnd). rewrite Hc, fmap_imap.
    apply list.NoDup_alt. intros m n eb Hl Hr. rewrite list_lookup_imap in Hl, Hr.
    apply fmap_Some_1 in Hl as (x & Hx & ->). apply fmap_Some_1 in Hr as (y & Hy & E). cbn in E. injection E as E.
    rewrite list.Forall_forall in Hits. destruct (Hits x) as (_ & b & Hb & _); [by eapply list_elem_of_lookup_2 |].
    destruct (Hits y) as (_ & b' & Hb' & _); [by eapply list_elem_of_lookup_2 |]. rewrite Hb, Hb' in E. cbn in E. subst b'.
    eapply list.NoDup_lookup; [exact Hnd | by rewrite list_lookup_fmap, Hx; cbn; rewrite Hb | by rewrite list_lookup_fmap, Hy; cbn; rewrite Hb'].
  - destruct (own_pointer w i f related_self Hf Hm) as (h & _ & -> & _). destruct (f_type f); [| | done]; destruct (proxy_ h); repeat constructor; apply not_elem_of_nil.
Qed.

Lemma links_nodup fs : forall i, drop i (layout cls) = fs -> NoDup (links w a i fs).*2.
Proof using Hs Ha Htwo Hok.
  induction fs as [|f fs IH]; intros i Efs; [constructor |]. destruct (drop_cons_inv (layout cls) i f fs Efs) as [Hf Efs'].
  cbn [links]. rewrite fmap_app. apply list.NoDup_app. split; [by apply field_links_nodup |]. split; [|by apply IH].
  intros [e b] H1 H2. apply (field_links_endpoint i f e b Hf) in H1. apply list_elem_of_fmap in H2 as ([u eb] & E & H2). cbn in E. subst eb.
  apply elem_of_links in H2 as (j & g & Hg & H2). assert (layout cls !! (S i + j) = Some g) as Hg' by by rewrite <- lookup_drop, Efs'.
  assert ((e, b) ∈ (field_links w (a, S i + j) g).*2) as H3 by (apply list_elem_of_fmap; by exists (u, (e, b))).
  apply (field_links_endpoint _ g e b Hg') in H3. destruct (relation_at_slot layout endpoints cls i e H1) as (ep & f1 & He & _ & Hs1).
  destruct (relation_at_slot layout endpoints cls (S i + j) e H3) as (ep' & f2 & He' & _ & Hs2). simplify_eq. lia.
Qed.

(** What is left when the calls of [P] have been made. *)
Record left_by (P : list (unlink * (nat * loc))) (v : world) : Prop := {
  lb_related : related layout endpoints w v;
  lb_exact : exact v;
  lb_refers : forall e x y, refers layout endpoints v e x y <->
    refers layout endpoints w e x y /\ ~ (y = a /\ exists e', (e', x) ∈ P.*2 /\ foreign_of endpoints e' = Some e);
  lb_own : own_fields v;
  lb_count : forall y, count v y = (count w y - at_ (Some a) (Z.of_nat (length P)) y)%Z }.

Lemma left_none : left_by [] w.
Proof using Hok.
  constructor; [apply related_self | apply (ok_exact _ _ w Hok) | | by intros i |].
  - intros e x y. split; [|by intros [H _]]. intros H. split; [done |]. intros (_ & e' & []%not_elem_of_nil & _).
  - intros y. clear oid. unfold at_. case_decide; cbn; lia.
Qed.

Lemma left_step P u e b L v :
  links w a 0 (layout cls) = P ++ (u, (e, b)) :: L -> left_by P v -> exists v', run_unlink u v = Ok v' /\ left_by (P ++ [(u, (e, b))]) v'.
Proof using Hs Ha Htwo Hok.
  intros El [[Eo Hsh] Hex Hre Hown Hcnt]. destruct (link_call u e b) as (ep & fe & fp & He & Hfe & Hfp & Hab & Hba & Hcall).
  { rewrite El. apply elem_of_app. right. left. }
  destruct (Hcall v Hown) as (x & owner & Ecall & Hdir).
  assert (forall e', foreign_of endpoints e' = Some fe -> e' = e) as Hinj.
  { intros e' He'. apply (foreign_sym layout endpoints Hs) in He', Hfe. congruence. }
  assert (refers layout endpoints v fe b a) as Hback.
  { apply Hre. assert (e_foreign ep = Some fe) as Hef by (unfold foreign_of in Hfe; by rewrite He in Hfe).
    split; [by apply (ok_step _ _ w Hok e ep fe a b He Hef) |].
    intros (_ & e' & Hin & Hf'). apply Hinj in Hf'. subst e'. pose proof (links_nodup (layout cls) 0 eq_refl) as Hnd.
    rewrite El, fmap_app in Hnd. apply list.NoDup_app in Hnd as (_ & Hnd & _). apply (Hnd _ Hin). left. }
  destruct (leave_spec layout endpoints Hs v e ep x owner a b (fun _ => 0%Z) Hsh Hex He) as (v' & Ev & Hex' & [Eo' Hsh'] & Hre' & Hraw & Hcnt').
  { intros fe' Hfe'. congruence. }
  { intros fe' fp' Hfe' Hfp'. congruence. }
  exists v'. rewrite Ecall. split; [exact Ev |]. constructor; [split; [congruence | done] | done | | |].
  - intros e' y z. rewrite Hre', Hre, fmap_app. cbn [fmap list_fmap snd]. setoid_rewrite elem_of_app. setoid_rewrite list_elem_of_singleton. split.
    + intros [[H1 H2] H3]. split; [done |]. intros (-> & e1 & [Hin | [= -> ->]] & Hf1); [apply H2; eauto | by apply H3].
    + intros [H1 H2]. split; [split; [done |] |]; [intros (-> & e1 & Hin & Hf1); apply H2; eauto |].
      intros (Hf1 & -> & ->). apply H2. split; [done |]. exists e. auto.
  - intros i. destruct (Hown i) as [E1 E2], (Hraw (a, i)) as [E3 E4]; [|split; congruence].
    intros fe' _ Hk. apply (field_of_Some layout endpoints Hs) in Hk as (_ & j & _ & _ & _ & [= E _] & _). by apply Hba.
  - intros y. rewrite Hcnt', Hcnt by congruence. clear oid. unfold at_. rewrite length_app. cbn [length]. case_decide; lia.
Qed.

Lemma left_all L : forall P v,
  links w a 0 (layout cls) = P ++ L -> left_by P v -> exists v', run_all run_unlink L.*1 v = Ok v' /\ left_by (P ++ L) v'.
Proof using Hs Ha Htwo Hok.
  induction L as [|[u [e b]] L IH]; intros P v El Hv; [exists v; by rewrite app_nil_r |].
  destruct (left_step P u e b L v El Hv) as (v1 & E1 & H1). cbn. rewrite E1. cbn [rbind].
  destruct (IH (P ++ [(u, (e, b))]) v1) as (v2 & E2 & H2); [by rewrite El, <- app_assoc | done |].
  exists v2. rewrite <- app_assoc in H2. done.
Qed.

(** ** Destroying *)

(** The fields before [i] of the object are gone. *)
Record destroyed (i : nat) (v v' : world) : Prop := {
  ds_objects : objects v' = objects v;
  ds_stored : stored v' = stored v;
  ds_exact : exact v';
  ds_same : forall k, k.1 <> a \/ i <= k.2 -> same_at v v' k;
  ds_gone : forall j, j < i -> holders v' !! (a, j) = None /\ containers v' !! (a, j) = None }.

Lemma destroyed_none v : exact v -> destroyed 0 v v.
Proof. intros Hv. constructor; try done. intros j Hj. by apply Nat.nlt_0_r in Hj. Qed.

Lemma destroyed_more i v v1 v2 :
  destroyed i v v1 -> objects v2 = objects v1 -> stored v2 = stored v1 -> exact v2 ->
  holders v2 = delete (a, i) (holders v1) -> containers v2 = delete (a, i) (containers v1) -> destroyed (S i) v v2.
Proof.
  intros [D1 D2 D3 D4 D5] E1 E2 Hex E3 E4. constructor; [congruence | congruence | done | |].
  - intros k Hk. assert (k <> (a, i)) as Hne by (intros ->; cbn in Hk; destruct Hk; [done | lia]).
    destruct (D4 k) as [F1 F2]; [destruct Hk; [by left | right; lia] |]. split; rewrite ?E3, ?E4, lookup_delete_ne by done; done.
  - intros j Hj. rewrite E3, E4. destruct (decide (j = i)) as [-> | Hne]; [by rewrite !lookup_delete_eq |].
    rewrite !lookup_delete_ne by congruence. apply D5. lia.
Qed.

Lemma destroy_step v v1 i f :
  related layout endpoints w v -> layout cls !! i = Some f -> destroyed i v v1 ->
  exists v2, destroy_field a i f v1 = Ok v2 /\ destroyed (S i) v v2.
Proof using Hs Ha Htwo.
  intros Hr Hf Hd. pose proof Hd as [D1 D2 D3 D4 D5]. destruct (D4 (a, i)) as [E1 E2]; [by right |]. pose proof Hr as [Eo Hsh].
  destruct (decide (f_type f = HAS_MANY)) as [Hm | Hm].
  - unfold destroy_field, destroy_container. rewrite Hm. destruct (own_container v i f Hr Hf Hm) as (c & e & Hc & _ & _ & _ & Hh & Hits & _). rewrite Hc in E2. unfold container_at. rewrite E2. cbn [rbind].
    destruct (drop_items_spec f (items_ c) v1 (fun _ => 0%Z) D3) as (v2 & -> & Ho & Hs2).
    { eapply list.Forall_impl; [exact Hits |]. intros x. apply item_ok_objects. congruence. }
    cbn [rbind]. eexists. split; [done |]. destruct Hs2 as (F1 & F2 & F3 & F4). apply (destroyed_more i v v1 _ Hd); cbn; [done | done | | |].
    + eapply owes_ext; [|apply (delete_container_owes v2 (a, i) c _ Ho); by rewrite F4]. intros y. cbn beta. unfold item_weight. lia.
    + rewrite F3, delete_id by by rewrite E1. done.
    + by rewrite F4.
  - destruct (own_pointer v i f Hr Hf Hm) as (h & e & Hh & Hi & _ & Hrel & _ & Hc & Hty). rewrite Hh in E1. rewrite Hc in E2.
    assert (exists v2, (if is_internal (proxy_ h) v1 && is_inserted_ h && bool_decide (relation_info_ h <> None)
               then decrement_reference_count (proxy_ h) v1 else Ok v1) = Ok v2 /\ owes v2 (fun y => - weight y h)%Z /\ same_fields v1 v2)
      as (v2 & Ev & Ho & F1 & F2 & F3 & F4).
    { rewrite Hi, bool_decide_true by by rewrite Hrel. rewrite !andb_true_r. unfold weight. rewrite Hi. destruct (proxy_ h) as [b|] eqn:Eb.
      - assert (is_Some (objects v !! b)) as Hb by by rewrite Eo, (Hty b eq_refl).
        cbn [is_internal]. rewrite D2, bool_decide_true by by apply (sh_stored _ _ v Hsh).
        destruct (count_same v1 b (-1) _ D3) as (v2 & E & Ho & Hs2); [by rewrite D1 |]. exists v2. split; [done |]. split; [|done].
        eapply owes_ext; [|exact Ho]. intros y. unfold at_. cbn. case_bool_decide; case_decide; done.
      - exists v1. split; [done |]. split; [|done]. by eapply owes_ext; [|exact D3]. }
    assert (destroy_field a i f v1 = Ok (set_holders (delete (a, i) (holders v2)) v2)) as Ed.
    { unfold destroy_field, destroy_pointer, holder_at. rewrite E1. cbn [rbind]. rewrite Ev. by destruct (f_type f). }
    eexists. split; [exact Ed |]. apply (destroyed_more i v v1 _ Hd); cbn; [done | done | | by rewrite F3 | by rewrite F4, delete_id].
    eapply owes_ext; [|apply (delete_holder_owes v2 (a, i) h _ Ho); by rewrite F3]. intros y. cbn beta. lia.
Qed.

Lemma destroy_all v fs : forall i v1,
  related layout endpoints w v -> drop i (layout cls) = fs -> destroyed i v v1 ->
  exists v2, process (destroy_field a) i fs v1 = Ok v2 /\ destroyed (i + length fs) v v2.
Proof using Hs Ha Htwo.
  induction fs as [|f fs IH]; intros i v1 Hr Efs Hd; [exists v1; by rewrite Nat.add_0_r |].
  destruct (drop_cons_inv (layout cls) i f fs Efs) as [Hf Efs']. destruct (destroy_step v v1 i f Hr Hf Hd) as (v2 & E & Hd2).
  cbn [process]. rewrite E. cbn [rbind length]. rewrite <- plus_n_Sm. by apply (IH (S i)).
Qed.

(** ** The proxy goes *)

Lemma msum_nonneg {K A} `{Countable K} (f : A -> Z) (m : gmap K A) : (forall x, 0 <= f x)%Z -> (0 <= msum f m)%Z.
Proof.
  intros Hf. unfold msum. apply (map_fold_weak_ind (fun z _ => (0 <= z)%Z)); [done |]. intros k x m' z _ Hz. specialize (Hf x). lia.
Qed.

Lemma msum_at {K A} `{Countable K} (f : A -> Z) (m : gmap K A) k x : (forall x, 0 <= f x)%Z -> m !! k = Some x -> (f x <= msum f m)%Z.
Proof. intros Hf Hk. rewrite (msum_delete f m k x Hk). pose proof (msum_nonneg f (delete k m) Hf). lia. Qed.

Lemma weight_nonneg y h : (0 <= weight y h)%Z.
Proof. unfold weight, b2z. case_match; lia. Qed.
Lemma item_weight_nonneg y c : (0 <= item_weight y c)%Z.
Proof. unfold item_weight. lia. Qed.

Lemma count_nonneg v y : (0 <= count v y)%Z.
Proof.
  unfold count. pose proof (msum_nonneg (weight y) (holders v) (weight_nonneg y)).
  pose proof (msum_nonneg (item_weight y) (containers v) (item_weight_nonneg y)). lia.
Qed.

(** Without a reference there is no field that refers to an object. *)
Lemma unreferenced v y k c f :
  shape layout endpoints v -> count v y = 0%Z -> field_at layout v k = Some (c, f) -> ~ points v k y.
Proof.
  intros Hsh H0 Hf Hp. pose proof (msum_nonneg (weight y) (holders v) (weight_nonneg y)) as N1.
  pose proof (msum_nonneg (item_weight y) (containers v) (item_weight_nonneg y)) as N2. unfold count in H0.
  destruct (decide (f_type f = HAS_MANY)) as [Hm | Hm].
  - destruct (sh_container _ _ v Hsh k c f Hf Hm) as (Hh & x & Hx & _ & _ & _ & _ & Hits & _). apply (points_container v k x y Hx Hh) in Hp.
    apply list_elem_of_fmap in Hp as (it & Hv & Hit). rewrite list.Forall_forall in Hits. destruct (Hits it Hit) as [Hi _].
    pose proof (msum_at (item_weight y) _ k x (item_weight_nonneg y) Hx) as Hle. unfold item_weight at 1 in Hle.
    assert (it ∈ filter (counted y) (items_ x)) as Hin by by apply list_elem_of_filter. destruct (filter (counted y) (items_ x)); [by apply not_elem_of_nil in Hin |].
    cbn [length] in Hle. lia.
  - destruct (sh_holder _ _ v Hsh k c f Hf Hm) as (Hc & h & Hh & Hi & _). apply (points_holder v k h y Hh Hc) in Hp.
    pose proof (msum_at (weight y) _ k h (weight_nonneg y) Hh) as Hle. unfold weight at 1 in Hle. rewrite Hi, Hp, bool_decide_true in Hle by done.
    cbn in Hle. lia.
Qed.

Lemma msum_fmap {K A} `{Countable K} (f g : A -> Z) (h : A -> A) (m : gmap K A) : (forall x, f (h x) = g x) -> msum f (h <$> m) = msum g m.
Proof.
  intros E. induction m as [|k x m Hk IH] using map_ind; [done |]. rewrite fmap_insert.
  rewrite (msum_delete f _ k (h x)), (msum_delete g _ k x) by apply lookup_insert_eq.
  rewrite !delete_insert_id by (rewrite ?lookup_fmap, Hk; done). rewrite E, IH. done.
Qed.

Lemma forget_count v y : y <> a -> count (forget a v) y = count v y.
Proof.
  intros Hy. unfold count. cbn. f_equal; apply msum_fmap.
  - intros h. unfold weight, forget_holder. case_decide as E; [|done]. cbn. rewrite E, !bool_decide_false by congruence. done.
  - intros c. unfold item_weight. cbn. f_equal. induction (items_ c) as [|x its IH]; [done |]. cbn [fmap list_fmap]. rewrite !filter_cons.
    destruct (decide (value_ x = Some a)) as [E | E].
    + rewrite !decide_False; [done | |]; unfold forget_item; rewrite ?decide_True by done; intros [_ H]; cbn in H; congruence.
    + replace (forget_item a x) with x by (unfold forget_item; by rewrite decide_False). case_decide; cbn; by rewrite IH.
Qed.

Lemma forget_points v k y : y <> a -> points (forget a v) k y <-> points v k y.
Proof.
  intros Hy. unfold points. cbn. setoid_rewrite lookup_fmap. split.
  - intros [(h & (h' & Hh & ->)%fmap_Some_1 & Hp) | (c & (c' & Hc & ->)%fmap_Some_1 & Hin)].
    + left. exists h'. split; [done |]. unfold forget_holder in Hp. by case_decide.
    + right. exists c'. split; [done |]. cbn in Hin. rewrite <- list_fmap_compose in Hin.
      apply list_elem_of_fmap in Hin as (x & Ex & Hx). apply list_elem_of_fmap. exists x. split; [|done].
      cbn in Ex. unfold forget_item in Ex. by case_decide.
  - intros [(h & -> & Hp) | (c & -> & Hin)].
    + left. eexists. split; [done |]. unfold forget_holder. rewrite decide_False by congruence. done.
    + right. eexists. split; [done |]. cbn. rewrite <- list_fmap_compose. apply list_elem_of_fmap in Hin as (x & Ex & Hx).
      apply list_elem_of_fmap. exists x. split; [|done]. cbn. unfold forget_item. by rewrite decide_False by congruence.
Qed.

Section Forget.
Context (v : world) (Hr : related layout endpoints w v) (Hv : exact v) (H0 : count v a = 0%Z).

Lemma forgotten n v1 k c f :
  destroyed n v v1 -> k.1 <> a -> field_at layout v k = Some (c, f) -> same_at v (forget a v1) k.
Proof using Hr H0.
  intros Hd Hk Hf. pose proof (unreferenced v a k c f (proj2 Hr) H0 Hf) as Hp. destruct (ds_same _ _ _ Hd k) as [E1 E2]; [by left |].
  split; cbn; rewrite lookup_fmap, ?E1, ?E2.
  - destruct (holders v !! k) as [h|] eqn:Hh; [|done]. cbn. f_equal. unfold forget_holder. rewrite decide_False; [done |].
    intros E. apply Hp. left. eauto.
  - destruct (containers v !! k) as [x|] eqn:Hx; [|done]. cbn. f_equal. destruct x as [its o c' r]. unfold set_items. cbn. f_equal.
    apply list_eq_same_length with (length its); [done | by rewrite length_fmap |]. intros j y z _ Hy Hz. rewrite list_lookup_fmap, Hz in Hy.
    injection Hy as <-. unfold forget_item. rewrite decide_False; [done |]. intros E. apply Hp. right. eexists. split; [done |].
    cbn. rewrite <- E. apply list_elem_of_fmap_2. by eapply list_elem_of_lookup_2.
Qed.

Lemma field_at_forget v1 k : objects v1 = objects v -> k.1 <> a -> field_at layout (forget a v1) k = field_at layout v k.
Proof. intros E Hk. unfold field_at. cbn. by rewrite lookup_delete_ne, E by done. Qed.

Lemma forget_shape n v1 : destroyed n v v1 -> shape layout endpoints (forget a v1).
Proof using Hr H0.
  intros Hd. pose proof Hr as [Eo Hsh].
  assert (forall k c f, field_at layout (forget a v1) k = Some (c, f) -> k.1 <> a /\ field_at layout v k = Some (c, f) /\ same_at v (forget a v1) k) as Hfield.
  { intros k c f Hf. assert (k.1 <> a) as Hk by (intros E; unfold field_at in Hf; cbn in Hf; by rewrite E, lookup_delete_eq in Hf).
    rewrite (field_at_forget v1 k (ds_objects _ _ _ Hd) Hk) in Hf. split; [done |]. split; [done |]. by eapply forgotten. }
  assert (forall k c f b, field_at layout v k = Some (c, f) -> points v k b -> objects v !! b = Some (f_value f) -> objects (forget a v1) !! b = Some (f_value f)) as Hty.
  { intros k c f b Hf Hp Hb. cbn. rewrite lookup_delete_ne, (ds_objects _ _ _ Hd); [done |]. intros <-. by eapply unreferenced. }
  constructor.
  - intros k c f Hf Ht. destruct (Hfield k c f Hf) as (Hk & Hf' & -> & ->). destruct (sh_holder _ _ v Hsh k c f Hf' Ht) as (Hc & h & Hh & Q1 & Q2 & Q3 & Q4).
    split; [done |]. exists h. split; [done |]. split_and!; try done. intros b Hb. eapply Hty; [exact Hf' | left; eauto | by apply Q4].
  - intros k c f Hf Ht. destruct (Hfield k c f Hf) as (Hk & Hf' & -> & ->). destruct (sh_container _ _ v Hsh k c f Hf' Ht) as (Hh & x & Hx & Q1 & Q2 & Q3 & Q4 & Q5 & Q6).
    split; [done |]. exists x. split; [done |]. split_and!; try done. rewrite list.Forall_forall in Q5 |- *. intros it Hit.
    destruct (Q5 it Hit) as (Hi & b & Hb & Hob). split; [done |]. exists b. split; [done |]. eapply Hty; [exact Hf' | right | done].
    exists x. split; [done |]. rewrite <- Hb. by apply list_elem_of_fmap_2.
  - intros y Hy. cbn in Hy |- *. destruct (decide (y = a)) as [-> | Hne]; [rewrite lookup_delete_eq in Hy; by destruct Hy |].
    rewrite lookup_delete_ne, (ds_objects _ _ _ Hd) in Hy by done. apply elem_of_difference. rewrite (ds_stored _ _ _ Hd), not_elem_of_singleton.
    split; [by apply (sh_stored _ _ v Hsh) | done].
Qed.

Lemma forget_refers n v1 e x y :
  destroyed n v v1 -> refers layout endpoints (forget a v1) e x y <-> refers layout endpoints v e x y /\ x <> a /\ y <> a.
Proof using Hs Hr H0.
  intros Hd. assert (x <> a -> field_of layout endpoints (forget a v1) e x = field_of layout endpoints v e x) as Hfo.
  { intros Hx. unfold field_of. cbn. by rewrite lookup_delete_ne, (ds_objects _ _ _ Hd) by done. }
  assert (forall k, field_of layout endpoints v e x = Some k -> x <> a -> same_at v (forget a v1) k /\ ~ points v k a) as Hsame.
  { intros k Hk Hx. destruct (field_of_Some layout endpoints Hs v e x k Hk) as (ep & i & f & _ & _ & -> & _ & Hf & _).
    split; [by eapply forgotten | by eapply unreferenced; [apply Hr | |]]. }
  split.
  - intros (k & Hk & Hp). assert (x <> a) as Hx.
    { intros ->. apply (field_of_Some layout endpoints Hs) in Hk as (ep & i & f & _ & _ & _ & Ho & _). cbn in Ho. by rewrite lookup_delete_eq in Ho. }
    rewrite (Hfo Hx) in Hk. destruct (Hsame k Hk Hx) as [Hat Hna]. apply (same_at_points _ _ _ _ Hat) in Hp.
    split; [by exists k |]. split; [done |]. intros ->. done.
  - intros ((k & Hk & Hp) & Hx & Hy). destruct (Hsame k Hk Hx) as [Hat _]. exists k. rewrite (Hfo Hx). split; [done |].
    by apply (same_at_points _ _ _ _ Hat).
Qed.

Lemma delete_proxy_spec :
  exists v', delete_proxy a v = Ok v' /\ objects v' = delete a (objects w) /\ shape layout endpoints v' /\ exact v'
    /\ forall e x y, refers layout endpoints v' e x y <-> refers layout endpoints v e x y /\ x <> a /\ y <> a.
Proof using Hs Hr Hv H0 Ha Htwo.
  destruct (destroy_all v (layout cls) 0 v Hr eq_refl (destroyed_none v Hv)) as (v1 & E & Hd). exists (forget a v1).
  unfold delete_proxy. rewrite (proj1 Hr), Ha, E. cbn [rbind]. split; [done |]. split; [cbn; by rewrite (ds_objects _ _ _ Hd), (proj1 Hr) |].
  split; [by eapply forget_shape |]. split; [|intros e x y; by eapply forget_refers]. intros y Hy. cbn in Hy.
  destruct (decide (y = a)) as [-> | Hne]; [rewrite lookup_delete_eq in Hy; by destruct Hy |]. rewrite lookup_delete_ne in Hy by done.
  rewrite forget_count by done. cbn. rewrite lookup_delete_ne by done. by apply (ds_exact _ _ _ Hd).
Qed.
End Forget.

(** ** The answer of the deleter *)

Lemma links_counted : (Z.of_nat (length (links w a 0 (layout cls))) <= count w a)%Z.
Proof using Hs Ha Htwo Hok.
  destruct (left_all (links w a 0 (layout cls)) [] w eq_refl left_none) as (v & _ & Hv). pose proof (count_nonneg v a) as Hn.
  rewrite (lb_count _ _ Hv) in Hn. unfold at_ in Hn. rewrite decide_True in Hn by done. cbn [app] in Hn. clear oid. lia.
Qed.

Lemma is_deletable_spec d :
  (count w a < 2 ^ 63)%Z -> relations_to_remove_ d = [] -> visited_objects_ d = ∅ ->
  is_deletable w a d = (Ok (bool_decide (count w a = Z.of_nat (length (links w a 0 (layout cls))))),
                        Deleter [(oid a, a)] (links w a 0 (layout cls)).*1 ∅).
Proof using Hs Ha Htwo Hok Hno.
  intros Hlt Er Ev. set (n := length (links w a 0 (layout cls))). pose proof links_counted as Hle. fold n in Hle. unfold is_deletable.
  rewrite (ok_exact _ _ w Hok a) by by rewrite Ha. rewrite Z.add_0_r, s64_u64. set (d0 := visit a _ _).
  assert (visited_objects_ d0 = {[a := s64 (count w a)]}) as Ev0 by (cbn; rewrite Ev; done).
  assert (visited_objects_ d0 !! a = Some (s64 (count w a))) as Hv0 by by rewrite Ev0, lookup_singleton_eq.
  unfold delete_object. rewrite Ha. cbn [collect]. destruct (on_fields_spec (collect (size (objects w)) w) (layout cls) 0 d0 (count w a) eq_refl) as (d1 & -> & E1 & E2 & E3); [| done |].
  { intros q Hq. left. rewrite Ev0 in Hq. destruct (decide (q = a)) as [-> | Hne]; [done |]. rewrite lookup_singleton_ne in Hq by done. by destruct Hq. }
  rewrite E1, E2. cbn. rewrite E3, Er, length_fmap. fold n.
  assert (s64 (count w a - Z.of_nat n) = count w a - Z.of_nat n)%Z as -> by (apply swrap_small; lia).
  destruct (Z.ltb_spec 0 (count w a - Z.of_nat n)); [by rewrite bool_decide_false by lia |].
  destruct (Z.ltb_spec (count w a - Z.of_nat n) 0); [lia |]. by rewrite bool_decide_true by lia.
Qed.

Lemma deleter_remove_spec v0 :
  count w a = Z.of_nat (length (links w a 0 (layout cls))) ->
  exists w', remove_all (Deleter [(oid a, a)] (links w a 0 (layout cls)).*1 v0) w = Ok (w', Deleter [] [] v0)
    /\ world_ok layout endpoints w' /\ objects w' = delete a (objects w)
    /\ forall e x y, refers layout endpoints w' e x y <-> refers layout endpoints w e x y /\ x <> a /\ y <> a.
Proof using Hs Ha Htwo Hok.
  intros Hc. destruct (left_all (links w a 0 (layout cls)) [] w eq_refl left_none) as (v & E & [L1 L2 L3 L4 L5]). cbn [app] in *.
  destruct (delete_proxy_spec v L1 L2) as (v' & E' & Eo & Hsh & Hex & Hre).
  { rewrite L5, Hc. unfold at_. rewrite decide_True by done. apply Z.sub_diag. }
  assert (forall e x y, refers layout endpoints v' e x y <-> refers layout endpoints w e x y /\ x <> a /\ y <> a) as Href.
  { intros e x y. rewrite Hre, L3. split; [intros ((H & _) & H'); done |]. intros (H & Hx & Hy). split; [|done]. split; [done |]. by intros [-> _]. }
  exists v'. unfold remove_all. cbn [relations_to_remove_ objects_to_remove_ visited_objects_]. rewrite E. cbn [rbind run_all snd]. unfold remove_single.
  rewrite decide_True, E' by (apply (sh_stored _ _ v (proj2 L1)); by rewrite (proj1 L1), Ha). cbn [rbind]. split; [done |]. split; [|done].
  constructor; [done | done |]. intros e ep fe x y He Hf. rewrite !Href. rewrite (ok_step _ _ w Hok e ep fe x y He Hf). clear oid. tauto.
Qed.
End Remove.

(** C24: Removing an object, all relations of which have two sides and which
    takes no other object along, from relations that are in step, with a
    deleter that holds nothing from an earlier removal ([stale_calls_run]):
    when every reference to it (there are fewer than 2^63) is the other side
    of a link of its own, every object it is linked to forgets it and its
    proxy is deleted, nothing else changes and the relations stay in step with
    exact counters; otherwise an exception is thrown. *)
Theorem object_removed w a cls d :
  schema_ok layout endpoints -> world_ok layout endpoints w -> objects w !! a = Some cls -> two_sided cls -> no_cascade cls ->
  (count w a < 2 ^ 63)%Z -> relations_to_remove_ d = [] -> visited_objects_ d = ∅ ->
  (if decide (count w a = Z.of_nat (length (links w a 0 (layout cls)))) then
     exists w', (store_remove w a d).1 = Ok (w', empty_deleter) /\ world_ok layout endpoints w' /\ objects w' = delete a (objects w)
       /\ forall e x y, refers layout endpoints w' e x y <-> refers layout endpoints w e x y /\ x <> a /\ y <> a
   else (store_remove w a d).1 = Throw (object_exception "object is not removable")).
Proof.
  intros Hs Hok Ha Htwo Hno Hlt Er Ev. unfold store_remove. rewrite (is_deletable_spec Hs w a cls Hok Ha Htwo Hno d Hlt Er Ev). cbn [fst rbind].
  case_decide as Hc; [|by rewrite bool_decide_false]. rewrite bool_decide_true by done. by apply deleter_remove_spec.
Qed.
End Deleter.

(** ** Examples *)

Abbreviation L := sample_layout.
Abbreviation E := sample_endpoints.
Abbreviation oid_of := Z.of_nat.

(** The person 1, who is in the department 0, is removed. *)
Lemma object_removed_witness :
  exists w', (store_remove L E oid_of sample_hired 1 empty_deleter).1 = Ok (w', empty_deleter) /\ ~ refers L E w' 0 0 1.
Proof.
  assert (two_sided L E (lit "person")) as Htwo.
  { intros [|[|i]] f Hf; vm_compute in Hf; try discriminate Hf; [exists 1 | exists 2]; (split; [vm_compute; reflexivity | discriminate]). }
  assert (no_cascade L (lit "person")) as Hno.
  { intros [|[|i]] f Hf; vm_compute in Hf; try discriminate Hf; injection Hf as <-; discriminate. }
  assert (world_ok L E sample_hired) as Hok by exact (rel_step_ok L E _ _ sample_schema sample_world_ok sample_hire).
  pose proof (object_removed L E oid_of sample_hired 1 (lit "person") empty_deleter sample_schema Hok
                ltac:(vm_compute; reflexivity) Htwo Hno ltac:(vm_compute; reflexivity) eq_refl eq_refl) as H.
  rewrite decide_True in H by (vm_compute; reflexivity). destruct H as (w' & E1 & _ & _ & Hr). exists w'. split; [exact E1 |].
  intros H. apply Hr in H as (_ & _ & H). by apply H.
Defined.

(** Notes refer to their author and their topic, and neither refers back. *)
Definition note_layout (cls : str) : list field :=
  if decide (cls = lit "department") then [Field (lit "employees") HAS_MANY (lit "person") NONE]
  else if decide (cls = lit "person") then [Field (lit "dep") BELONGS_TO (lit "department") NONE]
  else if decide (cls = lit "note") then
    [Field (lit "author") HAS_ONE (lit "person") NONE; Field (lit "topic") BELONGS_TO (lit "topic") NONE]
  else [].
Definition note_endpoints : list endpoint :=
  [Endpoint many_to_one (lit "employees") (lit "department") (lit "person") (Some 1);
   Endpoint belongs_to_many (lit "dep") (lit "person") (lit "department") (Some 0);
   Endpoint (from_one HAS_ONE) (lit "author") (lit "note") (lit "person") None;
   Endpoint (from_one BELONGS_TO) (lit "topic") (lit "note") (lit "topic") None].
(** The department 0, the persons 1 and 2, the note 3 and the topic 4. *)
Definition note_world : world :=
  World {[ 0 := lit "department"; 1 := lit "person"; 2 := lit "person"; 3 := lit "note"; 4 := lit "topic" ]}
    {[ 0; 1; 2; 3; 4 ]} {[ 0 := 0%Z; 1 := 0%Z; 2 := 0%Z; 3 := 0%Z; 4 := 0%Z ]}
    {[ (1, 0) := null_pointer 1 1; (2, 0) := null_pointer 2 1; (3, 0) := null_pointer 3 2; (3, 1) := null_pointer 3 3 ]}
    {[ (0, 0) := no_items 0 0 ]} [].

Abbreviation NL := note_layout.
Abbreviation NE := note_endpoints.

(** The author of a note cannot be removed; the calls that were collected on
    the way stay. When another person is removed next, the author leaves the
    department without knowing. *)
Example stale_calls_run :
  (let? w := push_back NL NE (0, 0) (Some 1) note_world in
   let? w := push_back NL NE (0, 0) (Some 2) w in
   let? w := reset NL NE (3, 0) (Some 1) NONE w in
   let '(r, d) := store_remove NL NE oid_of w 1 empty_deleter in
   let? (w', _) := (store_remove NL NE oid_of w 2 d).1 in
   Ok (is_ok r, items_of (0, 0) w, items_of (0, 0) w', pointer_of (1, 0) w'))
  = Ok (false, Some [Some 1; Some 2], Some [], Some (Some 0)).
Proof. vm_compute. reflexivity. Qed.

Definition error_of {A} (r : result A) : option exn := match r with Throw e => Some e | Ok _ => None end.

(** A note with a topic counts a reference that it does not have. The failed
    check leaves its visits behind, so the note cannot be removed without the
    topic either. *)
Example one_sided_never_removed :
  (let? w := reset NL NE (3, 1) (Some 4) NONE note_world in
   let '(r, d) := store_remove NL NE oid_of w 3 empty_deleter in
   let? w := reset NL NE (3, 1) None NONE w in
   let '(r', _) := store_remove NL NE oid_of w 3 d in
   Ok (refs w !! 3, error_of r, error_of r'))
  = (let less := object_exception "reference count is less zero" in Ok (Some 0%Z, Some less, Some less)).
Proof. vm_compute. reflexivity. Qed.
End ObjectDeleter.
