(* ===== verification/Session.v ===== *)
(** * Sessions

    Model of the ORM: [persistence] (src/orm/persistence.cpp) remembers which
    objects of its store were inserted, changed and removed, [session]
    (src/orm/session.cpp, include/matador/orm/session.hpp) writes these changes
    to the database, either all at once ([flush]) or when a transaction
    commits, and loads the rows of the tables into the store; [table]
    (include/matador/orm/table.hpp) has the prepared statements of a class.

    The store is the one of [ObjectStore]: its objects have no relations, so
    the relation resolvers have nothing to do and the map of proxies that wait
    for their row is empty. A database is anything that implements
    [Database]. An exception can leave a session half way; operations return
    the state they have reached together with their result. *)

From S2P Require Import Prelude Identifier ByteBuffer ObjectSerializer PrototypeTree Transaction ObjectStore.
Local Open Scope cxx_scope.

Module Session.
Import Identifier ByteBuffer ObjectSerializer Transaction ObjectStore.

(** The value of an integral primary key. *)
Definition key (i : identifier) : option Z := match i with IntegralPk _ _ z => Some z | _ => None end.

(** ** Databases *)

(** What the prepared statements of a table do: a row is what an object was
    bound to, rows of a table are told apart by their primary keys. A statement
    that fails changes nothing; [db_rollback] goes back to the rows at
    [db_begin]. *)
Class Database (D : Type) := {
  db_begin : D -> D;
  db_commit : D -> D;
  db_rollback : D -> D;
  db_insert : str -> object -> D -> result D;
  db_update : str -> object -> identifier -> D -> result D;
  db_delete : str -> identifier -> D -> result D;
  db_select : str -> D -> list object;
  db_row : D -> str -> Z -> option object;
  db_saved : D -> str -> Z -> option object;
  db_begin_spec : forall d t k, db_row (db_begin d) t k = db_row d t k /\ db_saved (db_begin d) t k = db_row d t k;
  db_commit_spec : forall d t k, db_row (db_commit d) t k = db_row d t k;
  db_rollback_spec : forall d t k, db_row (db_rollback d) t k = db_saved d t k;
  db_insert_spec : forall d t o k, key (resolve o) = Some k ->
    match db_row d t k with
    | Some _ => exists e, db_insert t o d = Throw e
    | None => exists d', db_insert t o d = Ok d'
        /\ forall t' k', db_row d' t' k' = if decide (t' = t /\ k' = k) then Some o else db_row d t' k'
    end;
  db_update_spec : forall d t o i k, key i = Some k -> key (resolve o) = Some k ->
    exists d', db_update t o i d = Ok d'
      /\ forall t' k', db_row d' t' k' = if decide (t' = t /\ k' = k) then (fun _ => o) <$> db_row d t k else db_row d t' k';
  db_delete_spec : forall d t i k, key i = Some k ->
    exists d', db_delete t i d = Ok d'
      /\ forall t' k', db_row d' t' k' = if decide (t' = t /\ k' = k) then None else db_row d t' k';
  db_saved_spec : forall d d' t k, (exists u o, db_insert u o d = Ok d') \/ (exists u o i, db_update u o i d = Ok d')
    \/ (exists u i, db_delete u i d = Ok d') -> db_saved d' t k = db_saved d t k;
  db_row_key : forall d t k o, db_row d t k = Some o -> key (resolve o) = Some k;
  db_select_spec : forall d t, NoDup (db_select t d)
    /\ forall o, o ∈ db_select t d <-> exists k, key (resolve o) = Some k /\ db_row d t k = Some o }.

Section Session.
Context {B : Type} `{!ByteQueue B} {R : Type} `{!NodeLists R} {D : Type} `{!Database D}.
Context (make_object : str -> object).

(** ** Persistence *)

Inductive proxy_change_action := INSERT | UPDATE | REMOVE.

(** [tables_] has for each table whether it was loaded; [nodes_] the nodes of
    the store in order, and whether they are abstract; [committing_] belongs to
    the transaction object of the program. *)
Record persistence := Persistence {
  connection_ : D;
  store_ : object_store (B := B) (R := R);
  nodes_ : list (str * bool);
  tables_ : gmap str bool;
  proxy_change_queue_ : list (loc * proxy_change_action);
  proxies_to_delete_ : gset loc;
  proxy_identifier_map_ : gmap loc identifier;
  committing_ : bool }.

Definition set_connection v (P : persistence) :=
  Persistence v (store_ P) (nodes_ P) (tables_ P) (proxy_change_queue_ P) (proxies_to_delete_ P) (proxy_identifier_map_ P) (committing_ P).
Definition set_store v (P : persistence) :=
  Persistence (connection_ P) v (nodes_ P) (tables_ P) (proxy_change_queue_ P) (proxies_to_delete_ P) (proxy_identifier_map_ P) (committing_ P).
Definition set_tables v (P : persistence) :=
  Persistence (connection_ P) (store_ P) (nodes_ P) v (proxy_change_queue_ P) (proxies_to_delete_ P) (proxy_identifier_map_ P) (committing_ P).
Definition set_queue v (P : persistence) :=
  Persistence (connection_ P) (store_ P) (nodes_ P) (tables_ P) v (proxies_to_delete_ P) (proxy_identifier_map_ P) (committing_ P).
Definition set_to_delete v (P : persistence) :=
  Persistence (connection_ P) (store_ P) (nodes_ P) (tables_ P) (proxy_change_queue_ P) v (proxy_identifier_map_ P) (committing_ P).
Definition set_identifiers v (P : persistence) :=
  Persistence (connection_ P) (store_ P) (nodes_ P) (tables_ P) (proxy_change_queue_ P) (proxies_to_delete_ P) v (committing_ P).
Definition set_committing v (P : persistence) :=
  Persistence (connection_ P) (store_ P) (nodes_ P) (tables_ P) (proxy_change_queue_ P) (proxies_to_delete_ P) (proxy_identifier_map_ P) v.

Definition has_transaction (P : persistence) : bool := bool_decide (transactions_ (store_ P) <> []).

(** [std::find_if] for the change of a proxy. *)
Definition find_change (p : loc) (q : list (loc * proxy_change_action)) : option (nat * proxy_change_action) :=
  (fun r => (r.1, r.2.2)) <$> list_find (fun c => c.1 = p) q.

Definition register_proxy_insert (p : loc) (P : persistence) : persistence :=
  if has_transaction P then P
  else match find_change p (proxy_change_queue_ P) with
       | Some (i, REMOVE) => set_queue (<[i := (p, INSERT)]> (proxy_change_queue_ P)) P
       | Some _ => P
       | None => set_queue (proxy_change_queue_ P ++ [(p, INSERT)]) P
       end.

Definition register_proxy_update (p : loc) (x : proxy) (P : persistence) : persistence :=
  let P := set_identifiers (map_insert_new p (pk x) (proxy_identifier_map_ P)) P in
  if has_transaction P then P
  else match find_change p (proxy_change_queue_ P) with
       | Some _ => P
       | None => set_queue (proxy_change_queue_ P ++ [(p, UPDATE)]) P
       end.

Definition delete_proxy (p : loc) (P : persistence) : persistence := set_store (ObjectStore.delete_proxy p (store_ P)) P.

Definition register_proxy_delete (p : loc) (P : persistence) : persistence :=
  if has_transaction P then P
  else match find_change p (proxy_change_queue_ P) with
       | Some (i, INSERT) =>
         delete_proxy p (set_to_delete (proxies_to_delete_ P ∖ {[p]}) (set_queue (delete i (proxy_change_queue_ P)) P))
       | Some (i, UPDATE) => set_queue (<[i := (p, REMOVE)]> (proxy_change_queue_ P)) P
       | Some (_, REMOVE) => P
       | None => set_queue (proxy_change_queue_ P ++ [(p, REMOVE)]) P
       end.

(** ** Operations that can stop half way *)

Definition M (A : Type) : Type := persistence -> persistence * result A.
Definition ret {A} (a : A) : M A := fun P => (P, Ok a).
Definition raise {A} (e : exn) : M A := fun P => (P, Throw e).
Definition mbind_ {A C} (m : M A) (f : A -> M C) : M C :=
  fun P => let '(P, r) := m P in match r with Ok a => f a P | Throw e => (P, Throw e) end.
Definition get {A} (f : persistence -> A) : M A := fun P => (P, Ok (f P)).
Definition reading {A} (f : persistence -> result A) : M A := fun P => (P, f P).
Definition changing (f : persistence -> persistence) : M unit := fun P => (f P, Ok tt).
(** A call of the store, a call of the database. *)
Definition on_store (f : object_store (B := B) (R := R) -> result (object_store (B := B) (R := R))) : M unit :=
  fun P => match f (store_ P) with Ok s => (set_store s P, Ok tt) | Throw e => (P, Throw e) end.
Definition on_connection (f : D -> result D) : M unit :=
  fun P => match f (connection_ P) with Ok d => (set_connection d P, Ok tt) | Throw e => (P, Throw e) end.

End Session.

Notation "'let!' x ':=' m 'in' k" := (mbind_ m (fun x => k))
  (at level 10, x pattern, m at level 200, k at level 200) : cxx_scope.

Section Operations.
Context {B : Type} `{!ByteQueue B} {R : Type} `{!NodeLists R} {D : Type} `{!Database D}.
Context (make_object : str -> object).
Abbreviation persistence := (persistence (B := B) (R := R) (D := D)).
Abbreviation M := (M (B := B) (R := R) (D := D)).

(** The object of a proxy, when the statement is bound to it. *)
Definition object_of (x : proxy) : result object :=
  match obj x with Some o => Ok o | None => Throw (undefined_behaviour "null object") end.
Definition proxy_at (p : loc) : M proxy := reading (fun P => deref (proxies (store_ P)) p).

(** ** Tables *)

Definition table_insert (t : str) (p : loc) : M unit :=
  let! x := proxy_at p in
  let! o := reading (fun _ => object_of x) in
  on_connection (db_insert t o).

Definition table_update (t : str) (p : loc) : M unit :=
  let! it := get (fun P => proxy_identifier_map_ P !! p) in
  match it with
  | None => raise (object_exception "couldn't find proxy")
  | Some i =>
    let! x := proxy_at p in
    let! o := reading (fun _ => object_of x) in
    on_connection (db_update t o i)
  end.

Definition table_remove (t : str) (p : loc) : M unit :=
  let! x := proxy_at p in
  let! o := reading (fun _ => object_of x) in
  on_connection (db_delete t (pk x)).

(** The table of the node of a proxy. *)
Definition table_of (p : loc) : M (option str) :=
  let! x := proxy_at p in
  let! t := reading (fun _ => node_type x) in
  get (fun P => match tables_ P !! t with Some _ => Some t | None => None end).

(** ** Changes outside of transactions *)

(** [session::insert] of an object: a new proxy at [p]. *)
Definition insert (p : loc) (cls : str) (o : object) : M unit :=
  let! _ := on_store (fun s =>
    ObjectStore.insert p true (set_proxies (<[p := Proxy (Some o) None cls 0 0 (resolve o)]> (proxies s)) s)) in
  changing (register_proxy_insert p).

(** [object_store::mark_modified], as [object_ptr::modify] calls it. *)
Definition mark_modified (p : loc) : M unit :=
  let! x := proxy_at p in
  let! _ := reading (fun _ => node_type x) in
  let! _ := changing (register_proxy_update p x) in
  on_store (ObjectStore.mark_modified p).

(** [modify] and a change of the object. *)
Definition modify (p : loc) (o : object) : M unit :=
  let! _ := mark_modified p in
  let! x := proxy_at p in
  changing (fun P => set_store (set_proxies (<[p := set_obj (Some o) x]> (proxies (store_ P))) (store_ P)) P).

(** [object_store::remove(proxy, true)] in a store that hands its proxies to
    the persistence instead of deleting them. *)
Definition remove (p : loc) : M unit :=
  let! x := proxy_at p in
  if bool_decide (node x = None) then raise (object_exception "prototype node is nullptr")
  else
    let! ok := reading (fun P => is_deletable p (store_ P)) in
    if negb ok then raise (object_exception "object is not removable")
    else
      let! _ := on_store (take_out p) in
      let! _ := changing (register_proxy_delete p) in
      let! open := get has_transaction in
      if open then on_store (notify (fun h => on_delete h p))
      else changing (fun P => set_to_delete ({[p]} ∪ proxies_to_delete_ P) P).

Definition process_change (p : loc) (a : proxy_change_action) : M unit :=
  let! t := table_of p in
  match t with
  | None => ret tt
  | Some t =>
    match a with
    | INSERT => table_insert t p
    | UPDATE => table_update t p
    | REMOVE =>
      let! _ := table_remove t p in
      changing (fun P => delete_proxy p (set_to_delete (proxies_to_delete_ P ∖ {[p]}) P))
    end
  end.

Fixpoint process_changes (q : list (loc * proxy_change_action)) : M unit :=
  match q with
  | [] => ret tt
  | (p, a) :: q => let! _ := process_change p a in process_changes q
  end.

Definition flush : M unit :=
  let! _ := changing (fun P => set_connection (db_begin (connection_ P)) P) in
  let! q := get proxy_change_queue_ in
  let! _ := process_changes q in
  changing (fun P => set_identifiers ∅ (set_queue [] (set_connection (db_commit (connection_ P)) P))).

(** [save] of an object and of a pointer. *)
Definition save (p : loc) (cls : str) (o : object) : M unit :=
  let! open := get has_transaction in
  if open then insert p cls o
  else let! _ := insert p cls o in flush.

Definition save_pointer (p : loc) : M unit :=
  let! open := get has_transaction in
  if open then on_store (notify (fun h => on_update h p))
  else let! _ := mark_modified p in flush.

(** ** Transactions *)

Definition begin_ (t : Z) : M unit := changing (fun P => set_store (ObjectStore.begin_ t (store_ P)) P).

Fixpoint insert_all (t : str) (l : list loc) : M unit :=
  match l with
  | [] => ret tt
  | p :: l => let! _ := table_insert t p in insert_all t l
  end.

(** [mark_deleted] of the action at [k], which the transaction keeps. *)
Definition mark_deleted (a : action) : action :=
  match a with DeleteAction cls i p _ => DeleteAction cls i p true | _ => a end.
Definition mark_at (k : nat) (td : transaction_data (B := B)) : transaction_data (B := B) :=
  TData (alter mark_deleted k (actions_ td)) (id_action_index_map_ td) (object_buffer_ td).
Definition mark_action (t : Z) (k : nat) : M unit :=
  changing (fun P => set_store (set_transactions (transactions_ (store_ P)) (alter (mark_at k) t (tdata (store_ P))) (store_ P)) P).

(** The visits of the observer; a delete action is marked once its row is
    removed, and stays so when a later visit throws. *)
Definition visit (t : Z) (k : nat) (a : action) : M unit :=
  match a with
  | InsertAction ty l =>
    let! found := get (fun P => tables_ P !! ty) in
    match found with
    | None => ret tt
    | Some _ => insert_all ty l
    end
  | UpdateAction p ty i =>
    let! tb := table_of p in
    match tb with
    | None => ret tt
    | Some tb => table_update tb p
    end
  | DeleteAction cls i p del =>
    let! tb := table_of p in
    match tb with
    | None => ret tt
    | Some tb => let! _ := table_remove tb p in mark_action t k
    end
  end.

Fixpoint visit_all (t : Z) (k : nat) (acts : list action) : M unit :=
  match acts with
  | [] => ret tt
  | a :: acts => let! _ := visit t k a in visit_all t (S k) acts
  end.

Definition on_commit (t : Z) (acts : list action) : M unit :=
  let! _ := changing (fun P => set_connection (db_begin (connection_ P)) P) in
  let! _ := visit_all t 0 acts in
  changing (fun P => set_connection (db_commit (connection_ P)) P).

(** The proxies of the actions that were marked. *)
Definition marked (acts : list action) : list loc :=
  omap (fun a => match a with DeleteAction _ _ p true => Some p | _ => None end) acts.

Definition data_of (t : Z) : M (transaction_data (B := B)) :=
  reading (fun P => match tdata (store_ P) !! t with
                    | Some td => Ok td
                    | None => Throw (undefined_behaviour "transaction without data")
                    end).

(** [cleanup] clears the actions, and a marked one deletes its proxy. *)
Definition commit (t : Z) : M unit :=
  let! _ := changing (set_committing true) in
  let! td := data_of t in
  let! _ := on_commit t (actions_ td) in
  let! _ := changing (set_committing false) in
  let! td := data_of t in
  on_store (fun s => cleanup t (foldl (fun s p => ObjectStore.delete_proxy p s) s (marked (actions_ td)))).

Definition rollback (t : Z) : M unit :=
  let! _ := on_store (ObjectStore.rollback make_object t) in
  changing (fun P => set_committing false
    (if committing_ P then set_connection (db_rollback (connection_ P)) P else P)).

(** ** Loading *)

Fixpoint load_rows (cls : str) (rows : list object) : M unit :=
  match rows with
  | [] => ret tt
  | o :: rows =>
    let! p := get (fun P => fresh (dom (proxies (store_ P)))) in
    let! _ := on_store (fun s =>
      ObjectStore.insert p false (set_proxies (<[p := Proxy (Some o) None cls 0 0 (resolve o)]> (proxies s)) s)) in
    let! _ := changing (register_proxy_insert p) in
    load_rows cls rows
  end.

Definition table_load (t : str) : M unit :=
  let! rows := get (fun P => db_select t (connection_ P)) in
  let! _ := load_rows t rows in
  changing (fun P => set_tables (<[t := true]> (tables_ P)) P).

Definition load_node (n : str * bool) : M unit :=
  if n.2 then ret tt
  else
    let! found := get (fun P => tables_ P !! n.1) in
    match found with
    | None => raise (object_exception "couldn't find table")
    | Some _ => table_load n.1
    end.

Definition load_type (t : str) : M unit :=
  let! n := reading (fun P => find_prototype_node t (store_ P)) in
  match n with
  | None => raise (object_exception "couldn't find prototype node")
  | Some n =>
    let! abs := get (fun P => default false (snd <$> head (filter (fun x => x.1 = n) (nodes_ P)))) in
    load_node (n, abs)
  end.

Fixpoint load_nodes (ns : list (str * bool)) : M unit :=
  match ns with
  | [] => ret tt
  | n :: ns => let! _ := load_node n in load_nodes ns
  end.

Definition load : M unit :=
  let! ns := get nodes_ in
  let! _ := load_nodes ns in
  changing (set_queue []).

End Operations.

End Session.
