(* ===== verification/SessionSync.v ===== *)
(** * The database mirrors the store

    What sessions promise: when the changes that were registered are flushed,
    or when a transaction commits, the tables of the database have a row for
    every object of the store and no other rows; when a transaction is rolled
    back, before or after a failed commit, store and database are as they were;
    loading fills an empty store with the objects of the rows. *)

From S2P Require Import Prelude Identifier ByteBuffer ObjectSerializer PrototypeTree Transaction ObjectStore Session.
Local Open Scope cxx_scope.

Create HintDb session.

Module SessionSync.
Import Identifier ByteBuffer ObjectSerializer Transaction ObjectStore Session.

Abbreviation objects := (gmap Z (str * object)).

Section Sync.
Context {B : Type} `{!ByteQueue B} {R : Type} `{!NodeLists R} {D : Type} `{!Database D}.
Context (make_object : str -> object).
Abbreviation persistence := (persistence (B := B) (R := R) (D := D)).
Abbreviation store := (object_store (B := B) (R := R)).

(** ** Rows and objects *)

Definition key_of (o : object) : option Z := key (resolve o).

Section Rows.
Context (tb : str -> option str) (tables : gmap str bool).

(** The tables have the objects [V] as their rows. *)
Definition holds (d : D) (V : objects) : Prop :=
  forall t k o, is_Some (tables !! t) ->
  db_row d t k = Some o <-> exists i cls, V !! i = Some (cls, o) /\ tb cls = Some t /\ key_of o = Some k.

(** No two objects of a table, of now or before, have the same key. *)
Definition apart (V0 V : objects) : Prop :=
  forall i j cls cls' o o', V0 !! i = Some (cls, o) \/ V !! i = Some (cls, o) -> V0 !! j = Some (cls', o') \/ V !! j = Some (cls', o') ->
  tb cls = tb cls' -> key_of o = key_of o' -> i = j.

Inductive op := OpInsert (t : str) (o : object) | OpUpdate (t : str) (o : object) (i : identifier) | OpDelete (t : str) (i : identifier).
Definition exec (p : op) : D -> result D :=
  match p with OpInsert t o => db_insert t o | OpUpdate t o i => db_update t o i | OpDelete t i => db_delete t i end.
Definition op_table (p : op) : str := match p with OpInsert t _ | OpUpdate t _ _ | OpDelete t _ => t end.

(** The statement does for the object [i] what led from [V0] to [V]. *)
Definition op_ok (V0 V : objects) (i : Z) (p : op) : Prop :=
  is_Some (tables !! op_table p) /\
  match p with
  | OpInsert t o => V0 !! i = None /\ is_Some (key_of o) /\ exists cls, V !! i = Some (cls, o) /\ tb cls = Some t
  | OpUpdate t o k => exists cls o0, V0 !! i = Some (cls, o0) /\ V !! i = Some (cls, o) /\ tb cls = Some t
      /\ key k = key_of o0 /\ key_of o = key_of o0 /\ is_Some (key_of o0)
  | OpDelete t k => exists cls o0, V0 !! i = Some (cls, o0) /\ V !! i = None /\ tb cls = Some t /\ key k = key_of o0 /\ is_Some (key_of o0)
  end.

(** [V0] with what [V] has for [i]. *)
Definition put (i : Z) (V V0 : objects) : objects := partial_alter (fun _ => V !! i) i V0.

Lemma lookup_put i V V0 j : put i V V0 !! j = if decide (j = i) then V !! i else V0 !! j.
Proof. unfold put. case_decide as E; [subst; apply lookup_partial_alter_eq | by rewrite lookup_partial_alter_ne]. Qed.

Lemma apart_put i V V0 : apart V0 V -> apart (put i V V0) V.
Proof.
  intros H a b cls cls' o o' Ha Hb. rewrite lookup_put in Ha, Hb. apply H.
  - destruct (decide (a = i)) as [-> |]; tauto.
  - destruct (decide (b = i)) as [-> |]; tauto.
Qed.

Lemma op_ok_put V0 V i j p : i <> j -> op_ok V0 V j p -> op_ok (put i V V0) V j p.
Proof. intros Hne [Ht H]. split; [done |]. destruct p; rewrite lookup_put, decide_False by done; exact H. Qed.

Lemma key_lookup d V t k o i cls :
  holds d V -> is_Some (tables !! t) -> V !! i = Some (cls, o) -> tb cls = Some t -> key_of o = Some k -> db_row d t k = Some o.
Proof. intros H Ht Hi Hc Hk. apply H; eauto. Qed.

Lemma exec_spec V0 V i p d :
  holds d V0 -> apart V0 V -> op_ok V0 V i p -> exists d', exec p d = Ok d' /\ holds d' (put i V V0).
Proof.
  intros Hd Ha [Ht Hp]. destruct p as [t o | t o pk | t pk]; cbn [op_table exec] in *.
  - destruct Hp as (H0 & [k Hk] & cls & Hi & Hc). assert (db_row d t k = None) as Hnone.
    { destruct (db_row d t k) as [o'|] eqn:E; [|done]. apply (Hd t k o' Ht) in E as (j & cls' & Hj & Hc' & Hk').
      assert (i = j) by (eapply (Ha i j); [right; exact Hi | left; exact Hj | congruence | congruence]). congruence. }
    pose proof (db_insert_spec d t o k Hk) as H. rewrite Hnone in H. destruct H as (d' & -> & Hrow). exists d'. split; [done |].
    intros t' k' o' Ht'. rewrite Hrow. setoid_rewrite lookup_put. case_decide as E.
    + destruct E as [-> ->]. split; [intros [= <-]; exists i, cls; by rewrite decide_True |].
      intros (j & cls' & Hj & Hc' & Hk'). assert (j = i) as ->; [|rewrite decide_True in Hj by done; congruence].
      eapply (Ha j i cls' cls o' o); [|right; exact Hi | congruence | unfold key_of in *; congruence].
      destruct (decide (j = i)) as [-> |]; tauto.
    + rewrite (Hd t' k' o' Ht'). split.
      * intros (j & cls' & Hj & Hc' & Hk'). exists j, cls'. rewrite decide_False by congruence. done.
      * intros (j & cls' & Hj & Hc' & Hk'). destruct (decide (j = i)) as [-> | Hne]; [|by exists j, cls'].
        rewrite Hi in Hj. injection Hj as <- <-. destruct E. unfold key_of in *. split; congruence.
  - destruct Hp as (cls & o0 & H0 & Hi & Hc & Hpk & Hsame & [k Hk]). pose proof (key_lookup d V0 t k o0 i cls Hd Ht H0 Hc Hk) as Hr.
    destruct (db_update_spec d t o pk k) as (d' & -> & Hrow); [congruence | unfold key_of in *; congruence |]. exists d'. split; [done |].
    intros t' k' o' Ht'. rewrite Hrow. setoid_rewrite lookup_put. case_decide as E.
    + destruct E as [-> ->]. rewrite Hr. cbn. split; [intros [= <-]; exists i, cls; rewrite decide_True by done; split; [done | split; congruence] |].
      intros (j & cls' & Hj & Hc' & Hk'). assert (j = i) as ->; [|rewrite decide_True in Hj by done; congruence].
      eapply (Ha j i cls' cls o' o); [|right; exact Hi | congruence | congruence]. destruct (decide (j = i)) as [-> |]; tauto.
    + rewrite (Hd t' k' o' Ht'). split.
      * intros (j & cls' & Hj & Hc' & Hk'). exists j, cls'. rewrite decide_False; [done |]. intros ->. apply E. split; congruence.
      * intros (j & cls' & Hj & Hc' & Hk'). destruct (decide (j = i)) as [-> | Hne]; [|by exists j, cls'].
        rewrite Hi in Hj. injection Hj as <- <-. destruct E. split; congruence.
  - destruct Hp as (cls & o0 & H0 & Hi & Hc & Hpk & [k Hk]).
    destruct (db_delete_spec d t pk k) as (d' & -> & Hrow); [congruence |]. exists d'. split; [done |].
    intros t' k' o' Ht'. rewrite Hrow. setoid_rewrite lookup_put. case_decide as E.
    + destruct E as [-> ->]. split; [done |]. intros (j & cls' & Hj & Hc' & Hk').
      destruct (decide (j = i)) as [-> | Hne]; [congruence |]. destruct Hne. eapply (Ha j i cls' cls o' o0); [by left | by left | congruence | congruence].
    + rewrite (Hd t' k' o' Ht'). split.
      * intros (j & cls' & Hj & Hc' & Hk'). exists j, cls'. rewrite decide_False; [done |]. intros ->. apply E. split; congruence.
      * intros (j & cls' & Hj & Hc' & Hk'). destruct (decide (j = i)) as [-> | Hne]; [congruence | by exists j, cls'].
Qed.

(** What is left to do from [V0] to [V]: one statement for each object of
    [l]. *)
Definition rest (V0 V : objects) (l : list (Z * op)) : Prop :=
  NoDup l.*1 /\ Forall (fun x => op_ok V0 V x.1 x.2) l /\ forall i, i ∉ l.*1 -> V0 !! i = V !! i.

Lemma rest_step V0 V i p l : rest V0 V ((i, p) :: l) -> op_ok V0 V i p /\ rest (put i V V0) V l.
Proof.
  intros (Hnd & Hops & Hu). cbn in Hnd. apply list.NoDup_cons in Hnd as [Hi Hnd]. apply Forall_cons_iff in Hops as [Hp Hops].
  split; [done |]. split; [done |]. split.
  - rewrite list.Forall_forall in Hops |- *. intros [j q] Hj. apply op_ok_put; [|by apply Hops].
    intros ->. apply Hi. apply (list_elem_of_fmap_2 fst) in Hj. done.
  - intros j Hj. rewrite lookup_put. case_decide as E; [by subst |]. apply Hu. cbn. rewrite elem_of_cons. tauto.
Qed.

Lemma rest_none V0 V : rest V0 V [] -> V0 = V.
Proof. intros (_ & _ & H). apply map_eq. intros i. apply H, not_elem_of_nil. Qed.
End Rows.

(** ** Changes that were registered *)

Definition tb (s : store) (cls : str) : option str := match find_prototype_node cls s with Ok n => n | Throw _ => None end.

(** The proxies of the store know the keys of their objects. *)
Definition keyed (s : store) : Prop :=
  forall i p x o, object_map_ s !! i = Some p -> proxies s !! p = Some x -> obj x = Some o -> is_Some (key_of o) /\ key (pk x) = key_of o.

(** The change [a] of the proxy [p], which has the id [i], is what happened to
    the object since [V0]. *)
Definition change_ok (V0 : objects) (P : persistence) (i : Z) (c : loc * proxy_change_action) : Prop :=
  exists x n o, proxies (store_ P) !! c.1 = Some x /\ id x = i /\ obj x = Some o /\ node x = Some n
    /\ tb (store_ P) (classname x) = Some n /\ is_Some (tables_ P !! n) /\
  match c.2 with
  | INSERT => V0 !! i = None /\ object_map_ (store_ P) !! i = Some c.1
  | UPDATE => exists o0 k, V0 !! i = Some (classname x, o0) /\ is_Some (key_of o0) /\ object_map_ (store_ P) !! i = Some c.1
      /\ proxy_identifier_map_ P !! c.1 = Some k /\ key k = key_of o0 /\ key (pk x) = key_of o0
  | REMOVE => exists o0, V0 !! i = Some (classname x, o0) /\ is_Some (key_of o0) /\ object_map_ (store_ P) !! i = None
      /\ key (pk x) = key_of o0
  end.

Definition after_change (c : loc * proxy_change_action) (d : D) (P : persistence) : persistence :=
  match c.2 with
  | REMOVE => delete_proxy c.1 (set_to_delete (proxies_to_delete_ P ∖ {[c.1]}) (set_connection d P))
  | _ => set_connection d P
  end.

Lemma stored_view (s : store) i p x o :
  object_map_ s !! i = Some p -> proxies s !! p = Some x -> obj x = Some o -> view s !! i = Some (classname x, o).
Proof. intros Hi Hx Ho. rewrite lookup_view, Hi. unfold object_at. by rewrite Hx, Ho. Qed.

Lemma table_of_found (P : persistence) p x n :
  proxies (store_ P) !! p = Some x -> node x = Some n -> is_Some (tables_ P !! n) -> table_of p P = (P, Ok (Some n)).
Proof. intros Hx Hn [b Hb]. unfold table_of, proxy_at, mbind_, reading, get, deref, node_type. by rewrite Hx, Hn, Hb. Qed.

Lemma table_insert_run (P : persistence) t p x o :
  proxies (store_ P) !! p = Some x -> obj x = Some o -> table_insert t p P = on_connection (exec (OpInsert t o)) P.
Proof. intros Hx Ho. unfold table_insert, proxy_at, mbind_, reading, deref, object_of. by rewrite Hx, Ho. Qed.

Lemma table_update_run (P : persistence) t p x o k :
  proxies (store_ P) !! p = Some x -> obj x = Some o -> proxy_identifier_map_ P !! p = Some k ->
  table_update t p P = on_connection (exec (OpUpdate t o k)) P.
Proof. intros Hx Ho Hk. unfold table_update, proxy_at, mbind_, reading, get, deref, object_of. by rewrite Hk, Hx, Ho. Qed.

Lemma table_remove_run (P : persistence) t p x o :
  proxies (store_ P) !! p = Some x -> obj x = Some o -> table_remove t p P = on_connection (exec (OpDelete t (pk x))) P.
Proof. intros Hx Ho. unfold table_remove, proxy_at, mbind_, reading, deref, object_of. by rewrite Hx, Ho. Qed.

Lemma on_connection_ok (f : D -> result D) (P : persistence) d : f (connection_ P) = Ok d -> on_connection f P = (set_connection d P, Ok tt).
Proof. intros E. unfold on_connection. by rewrite E. Qed.

Lemma process_change_spec V0 (P : persistence) i c :
  change_ok V0 P i c -> keyed (store_ P) ->
  exists o, op_ok (tb (store_ P)) (tables_ P) V0 (view (store_ P)) i o
    /\ forall d, exec o (connection_ P) = Ok d -> process_change c.1 c.2 P = (after_change c d P, Ok tt).
Proof.
  destruct c as [p a]. intros (x & n & o & Hx & Hid & Ho & Hn & Htb & Htab & H) Hk. cbn [fst snd] in *.
  unfold process_change, mbind_ at 1. rewrite (table_of_found P p x n Hx Hn Htab). destruct a; cbn [after_change snd fst].
  - destruct H as [H0 Hi]. exists (OpInsert n o). split.
    + split; [done |]. split; [done |]. split; [by eapply Hk |]. exists (classname x). split; [by eapply stored_view | done].
    + intros d E. rewrite (table_insert_run P n p x o Hx Ho). by apply on_connection_ok.
  - destruct H as (o0 & k & H0 & Hs & Hi & Hm & E1 & E2). exists (OpUpdate n o k). split.
    + split; [done |]. exists (classname x), o0. split_and!; try done; [by eapply stored_view |]. rewrite <- E2. symmetry. by eapply Hk.
    + intros d E. rewrite (table_update_run P n p x o k Hx Ho Hm). by apply on_connection_ok.
  - destruct H as (o0 & H0 & Hs & Hi & E1). exists (OpDelete n (pk x)). split.
    + split; [done |]. exists (classname x), o0. split_and!; try done. by rewrite lookup_view, Hi.
    + intros d E. unfold mbind_. rewrite (table_remove_run P n p x o Hx Ho), (on_connection_ok _ P d E). done.
Qed.

(** What stays as it is while changes are processed. *)
Record kept (P P' : persistence) : Prop := {
  kp_tables : tables_ P' = tables_ P;
  kp_map : object_map_ (store_ P') = object_map_ (store_ P);
  kp_tb : forall cls, tb (store_ P') cls = tb (store_ P) cls;
  kp_view : view (store_ P') = view (store_ P);
  kp_transactions : transactions_ (store_ P') = transactions_ (store_ P) /\ tdata (store_ P') = tdata (store_ P);
  kp_proxies : proxies (store_ P') ⊆ proxies (store_ P);
  kp_identifiers : proxy_identifier_map_ P' = proxy_identifier_map_ P;
  kp_nodes : nodes_ P' = nodes_ P /\ committing_ P' = committing_ P }.

Lemma kept_refl P : kept P P.
Proof. by constructor. Qed.
Lemma kept_trans P1 P2 P3 : kept P1 P2 -> kept P2 P3 -> kept P1 P3.
Proof.
  intros [A1 A2 A3 A4 [A5 A6] A7 A8 [A9 A10]] [B1 B2 B3 B4 [B5 B6] B7 B8 [B9 B10]]. constructor; try congruence; try (split; congruence). by etrans.
Qed.

Lemma change_kept V0 (P : persistence) i c d :
  change_ok V0 P i c -> store_ok (store_ P) -> kept P (after_change c d P) /\ store_ok (store_ (after_change c d P))
    /\ (forall p, p <> c.1 -> proxies (store_ (after_change c d P)) !! p = proxies (store_ P) !! p).
Proof.
  destruct c as [p a]. intros (x & n & o & Hx & Hid & Ho & Hn & Htb & Htab & H) Hs. cbn [fst snd] in *. unfold after_change. cbn [snd].
  destruct a; [split; [by constructor |]; split; [exact Hs | reflexivity].. |]. destruct H as (o0 & _ & _ & Hi & _).
  assert (forall j, object_map_ (store_ P) !! j <> Some p) as Hno.
  { intros j Hj. destruct (ok_object _ Hs j p Hj) as (x' & _ & _ & Hx' & Hid' & _). congruence. }
  split_and!; [| by apply delete_proxy_ok | intros q Hq; cbn; by rewrite lookup_delete_ne]. constructor; try done.
  - apply map_eq. intros j. rewrite !lookup_view. cbn. destruct (object_map_ (store_ P) !! j) as [q|] eqn:E; [|done].
    unfold object_at. rewrite lookup_delete_ne; [done |]. intros <-. by apply (Hno j).
  - apply delete_subseteq.
Qed.

Lemma keyed_kept P P' : kept P P' -> keyed (store_ P) -> keyed (store_ P').
Proof.
  intros [_ E _ _ _ Hsub _ _] H i p x o Hi Hx Ho. rewrite E in Hi. eapply H; [exact Hi | | exact Ho].
  by eapply lookup_weaken.
Qed.

Lemma change_ok_kept V0 V P P' i j (c q : loc * proxy_change_action) :
  kept P P' -> (forall p, p <> c.1 -> proxies (store_ P') !! p = proxies (store_ P) !! p) ->
  i <> j -> q.1 <> c.1 -> change_ok V0 P j q -> change_ok (put i V V0) P' j q.
Proof.
  intros [E1 E2 E3 _ _ _ E4 _] Hp Hne Hq (x & n & o & Hx & Hid & Ho & Hn & Htb & Htab & H). exists x, n, o.
  rewrite E1, E2, E3, E4, (Hp _ Hq), lookup_put, decide_False by done. split_and!; try done.
Qed.

Lemma changes_ok_kept V0 V P P' i (c : loc * proxy_change_action) is_ q :
  kept P P' -> (forall p, p <> c.1 -> proxies (store_ P') !! p = proxies (store_ P) !! p) -> i ∉ is_ -> change_ok V0 P i c ->
  Forall2 (change_ok V0 P) is_ q -> Forall2 (change_ok (put i V V0) P') is_ q.
Proof.
  intros K Hp Hi (y & _ & _ & Hy & Hidy & _) Hq. induction Hq as [|j q' is_ q Hj Hq IH]; constructor; [|apply IH; set_solver].
  apply (change_ok_kept V0 V P P' i j c q' K Hp); [set_solver | | done].
  destruct Hj as (x & _ & _ & Hx & Hid & _). intros E. rewrite E in Hx. set_solver.
Qed.

Lemma process_changes_spec V q : forall V0 P is_,
  Forall2 (change_ok V0 P) is_ q -> NoDup is_ -> (forall i, i ∉ is_ -> V0 !! i = V !! i) -> view (store_ P) = V ->
  store_ok (store_ P) -> keyed (store_ P) -> holds (tb (store_ P)) (tables_ P) (connection_ P) V0 -> apart (tb (store_ P)) V0 V ->
  exists P', process_changes q P = (P', Ok tt) /\ kept P P' /\ store_ok (store_ P') /\ holds (tb (store_ P)) (tables_ P) (connection_ P') V.
Proof.
  induction q as [|c q IH]; intros V0 P is_ Hq Hnd Hu HV Hs Hk Hd Ha.
  - apply Forall2_nil_inv_r in Hq as ->. exists P. split; [done |]. split; [apply kept_refl |]. split; [done |].
    assert (V0 = V) as <-; [|done]. apply map_eq. intros i. apply Hu, not_elem_of_nil.
  - apply Forall2_cons_inv_r in Hq as (i & is' & Hc & Hq & ->). apply list.NoDup_cons in Hnd as [Hi Hnd].
    destruct (process_change_spec V0 P i c Hc Hk) as (o & Hop & Hrun). rewrite HV in Hop.
    destruct (exec_spec _ _ V0 V i o (connection_ P) Hd Ha Hop) as (d & Ed & Hd'). destruct (change_kept V0 P i c d Hc Hs) as (Kp & Hs' & Hp).
    set (P1 := after_change c d P) in *. assert (connection_ P1 = d) as Ec by by (unfold P1, after_change; destruct c as [p []]).
    destruct (IH (put i V V0) P1 is') as (P' & E & K' & Hs2 & Hd2).
    + by apply (changes_ok_kept V0 V P P1 i c is' q Kp Hp).
    + done.
    + intros j Hj. rewrite lookup_put. case_decide as Ej; [by rewrite Ej |]. apply Hu. set_solver.
    + by rewrite (kp_view _ _ Kp).
    + done.
    + by eapply keyed_kept.
    + rewrite Ec, (kp_tables _ _ Kp). unfold holds in *. setoid_rewrite (kp_tb _ _ Kp). exact Hd'.
    + apply apart_put. unfold apart. setoid_rewrite (kp_tb _ _ Kp). exact Ha.
    + exists P'. cbn [process_changes]. destruct c as [p a]. unfold mbind_. cbn [fst snd] in Hrun. rewrite (Hrun d Ed). fold P1. split; [exact E |].
      split; [by eapply kept_trans |]. split; [done |]. rewrite (kp_tables _ _ Kp) in Hd2. unfold holds in *. setoid_rewrite (kp_tb _ _ Kp) in Hd2. exact Hd2.
Qed.

(** ** Inserting *)

Definition alloc (p : loc) (cls : str) (o : object) (s : store) : store :=
  set_proxies (<[p := Proxy (Some o) None cls 0 0 (resolve o)]> (proxies s)) s.

(** The store before the transaction hears of the new object. *)
Definition entered (p : loc) (x : proxy) (seq : Z) (r : R) (s : store) : store :=
  set_lists r (set_seq seq (set_proxies (<[p := x]> (proxies s)) s)).

(** The sequence moves to the next number or to the key of the object. *)
Definition seq_bound (s : store) (o : object) (seq1 : Z) : Prop := (seq1 <= Z.max (seq_ s + 1) (default 0 (key_of o)))%Z.

Lemma sync_bound o n : is_valid (resolve o) = true -> (sync (resolve o) n <= Z.max n (default 0 (key_of o)))%Z.
Proof.
  unfold key_of. destruct (resolve o) as [|sg w v|]; cbn; [done | | lia]. intros H. breflect. apply sync_le. lia.
Qed.

Lemma insert_run p cls o n b (s : store) :
  find_prototype_node cls s = Ok (Some n) -> object_ok o -> (0 <= seq_ s)%Z -> (seq_ s + 1 < 2 ^ 64)%Z ->
  exists o1 pk1 seq1, object_ok o1 /\ (seq_ s + 1 <= seq1 < 2 ^ 64)%Z /\ seq_bound s o seq1 /\ (is_valid (resolve o) = true -> o1 = o /\ pk1 = resolve o)
    /\ ObjectStore.insert p b (alloc p cls o s) =
       let? r := nl_insert n p pk1 (node_lists s) in
       let s1 := entered p (Proxy (Some o1) (Some n) cls (seq_ s + 1) 0 pk1) seq1 r s in
       let? s2 := (if b then notify (fun h => on_insert h p) s1 else Ok s1) in
       Ok (set_object_map (map_insert_new (seq_ s + 1)%Z p (object_map_ s2)) s2).
Proof.
  intros Hn Ho H0 Hmax. set (x0 := Proxy (Some o) None cls 0 0 (resolve o)). set (i := (seq_ s + 1)%Z).
  assert (seq_next (seq_ s) = (i, i)) as Hnext by (unfold seq_next, u64; rewrite wrap_small; unfold i; [done | lia]).
  assert (exists o1 pk1 seq1,
    (if is_null (pk (set_node (Some n) (set_id i x0))) then (set_node (Some n) (set_id i x0), i)
     else if negb (is_valid (pk (set_node (Some n) (set_id i x0))))
     then (set_pk (IntegralPk false 8 i) (set_obj (Some (assign_pk i o)) (set_node (Some n) (set_id i x0))), i)
     else (set_node (Some n) (set_id i x0), sync (pk (set_node (Some n) (set_id i x0))) i))
    = (Proxy (Some o1) (Some n) cls i 0 pk1, seq1) /\ object_ok o1 /\ (i <= seq1 < 2 ^ 64)%Z /\ seq_bound s o seq1
    /\ (is_valid (resolve o) = true -> o1 = o /\ pk1 = resolve o))
    as (o1 & pk1 & seq1 & Epk & Ho1 & Hseq1 & Hbound & Hval).
  { cbn. destruct (is_null _); [|destruct (is_valid (resolve o)) eqn:Ev; cbn [negb]].
    - exists o, (resolve o), i. split_and!; [done | done | unfold i; lia | unfold i; lia | unfold seq_bound, i; lia | done].
    - exists o, (resolve o), (sync (resolve o) i). split_and!; [done | done | | | by apply sync_bound | done]; apply sync_ge; unfold i; lia.
    - exists (assign_pk i o), (IntegralPk false 8 i), i. split_and!; [done | by apply assign_pk_ok | unfold i; lia | unfold i; lia | unfold seq_bound, i; lia | done]. }
  exists o1, pk1, seq1. split; [done |]. split; [done |]. split; [done |]. split; [done |].
  unfold ObjectStore.insert, deref, alloc. cbn [proxies set_proxies]. rewrite lookup_insert_eq. cbn [rbind obj classname].
  change (find_prototype_node cls (set_proxies _ s)) with (find_prototype_node cls s). rewrite Hn. cbn [rbind].
  rewrite andb_false_r, andb_false_r. change (seq_ (set_proxies _ s)) with (seq_ s). rewrite Hnext. fold x0. rewrite Epk.
  cbn [node_lists set_seq set_proxies pk]. rewrite insert_insert_eq. destruct (nl_insert n p pk1 (node_lists s)) as [r|e]; [|done].
  cbn [rbind]. rewrite plain_no_relations by apply Ho. done.
Qed.

Lemma insert_found p cls o b (s s' : store) : ObjectStore.insert p b (alloc p cls o s) = Ok s' -> exists n, find_prototype_node cls s = Ok (Some n).
Proof.
  unfold ObjectStore.insert, deref, alloc. cbn [proxies set_proxies]. rewrite lookup_insert_eq. cbn [rbind obj classname].
  change (find_prototype_node cls (set_proxies _ s)) with (find_prototype_node cls s). destruct (find_prototype_node cls s) as [[n|]|]; [eauto | done | done].
Qed.

(** The new object [i] at [p]. *)
Record inserted (s s' : store) (p : loc) (cls n : str) (o : object) (x : proxy) : Prop := {
  in_proxy : proxies s' = <[p := x]> (proxies s);
  in_map : object_map_ s' = <[id x := p]> (object_map_ s);
  in_new : object_map_ s !! id x = None /\ id x = (seq_ s + 1)%Z /\ (seq_ s < seq_ s')%Z /\ seq_bound s o (seq_ s');
  in_x : node x = Some n /\ classname x = cls /\ is_Some (obj x) /\ (is_valid (resolve o) = true -> obj x = Some o /\ pk x = resolve o);
  in_tb : tb s cls = Some n /\ forall c, tb s' c = tb s c }.

Lemma entered_ok p cls o n (s : store) o1 pk1 seq1 r :
  store_ok s -> proxies s !! p = None -> find_prototype_node cls s = Ok (Some n) -> object_ok o1 -> (seq_ s + 1 <= seq1 < 2 ^ 64)%Z ->
  nl_ok r -> (forall m q, nl_in r m q <-> nl_in (node_lists s) m q \/ (m = n /\ q = p)) -> (forall m, nl_node r m <-> nl_node (node_lists s) m) ->
  seq_bound s o seq1 -> (is_valid (resolve o) = true -> o1 = o /\ pk1 = resolve o) ->
  let x := Proxy (Some o1) (Some n) cls (seq_ s + 1) 0 pk1 in
  let s' := set_object_map (map_insert_new (seq_ s + 1)%Z p (object_map_ s)) (entered p x seq1 r s) in
  store_ok s' /\ inserted s s' p cls n o x.
Proof.
  intros Hs Hp Hn Ho1 Hseq Hrok Hrin Hrn Hbound Hval x s'. pose proof (ok_seq s Hs) as Hsq.
  assert (object_map_ s !! (seq_ s + 1)%Z = None) as Hi.
  { destruct (object_map_ s !! (seq_ s + 1)%Z) as [q|] eqn:E; [|done].
    destruct (ok_object s Hs _ q E) as (? & ? & ? & _ & _ & _ & _ & _ & _ & _ & H). lia. }
  assert (forall j, object_map_ s !! j <> Some p) as Hfresh.
  { intros j Hj. destruct (ok_object s Hs j p Hj) as (y & _ & _ & Hy & _). congruence. }
  assert (s' = set_object_map (<[(seq_ s + 1)%Z := p]> (object_map_ s)) (entered p x seq1 r s)) as -> by (unfold s', map_insert_new; by rewrite Hi).
  split.
  - apply (store_ok_put make_object (set_seq seq1 s) p x o1 n (seq_ s + 1)%Z r); try done; [apply (store_ok_seq make_object); [done | lia] | by right | cbn; lia].
  - constructor; try done; [split_and!; [done | done | cbn; lia | done] | cbn; split_and!; try done; intros [-> ->]%Hval; done |].
    split; [unfold tb; by rewrite Hn | done].
Qed.

Lemma insert_quiet p cls o n b (s : store) :
  store_ok s -> proxies s !! p = None -> find_prototype_node cls s = Ok (Some n) -> object_ok o -> (seq_ s + 1 < 2 ^ 64)%Z ->
  (b = true -> transactions_ s = []) ->
  exists s' x, ObjectStore.insert p b (alloc p cls o s) = Ok s' /\ store_ok s' /\ inserted s s' p cls n o x /\ same_transactions s s'.
Proof.
  intros Hs Hp Hn Ho Hmax Hb. pose proof (ok_seq s Hs) as Hsq.
  destruct (insert_run p cls o n b s Hn Ho) as (o1 & pk1 & seq1 & Ho1 & Hseq & Hbound & Hval & ->); [lia | done |].
  destruct (nl_insert_spec (node_lists s) n p pk1 (ok_lists s Hs)) as (r & Hr & Hrok & Hrin & Hrn).
  { by eapply ok_node. }
  { intros m Hm. destruct (ok_member s Hs m p Hm) as (j & x & Hj & _). destruct (ok_object s Hs j p Hj) as (y & _ & _ & Hy & _). congruence. }
  { intros l Hl Hin. pose proof (members_bounded s n [] l Hs Hl Hin NoDup_nil_2) as H'. simpl in H'.
    enough (Z.of_nat (length l) + 0 <= seq_ s)%Z by lia. apply H'. by intros j ?%elem_of_nil. }
  rewrite Hr. cbn [rbind]. set (x := Proxy (Some o1) (Some n) cls (seq_ s + 1) 0 pk1).
  destruct (entered_ok p cls o n s o1 pk1 seq1 r Hs Hp Hn Ho1 Hseq Hrok Hrin Hrn Hbound Hval) as [Hok Hin].
  assert ((if b then notify (fun h => on_insert h p) (entered p x seq1 r s) else Ok (entered p x seq1 r s)) = Ok (entered p x seq1 r s)) as ->.
  { destruct b; [|done]. unfold notify. cbn. by rewrite Hb. }
  cbn [rbind]. eexists _, x. split; [reflexivity |]. split; [exact Hok |]. split; [exact Hin | done].
Qed.

(** ** Between two flushes *)

(** The changes since [V0] are registered; [is_] are the ids of their
    objects. *)
Record pending (V0 : objects) (P : persistence) (is_ : list Z) : Prop := {
  pd_store : store_ok (store_ P);
  pd_closed : transactions_ (store_ P) = [];
  pd_queue : Forall2 (change_ok V0 P) is_ (proxy_change_queue_ P);
  pd_nodup : NoDup is_;
  pd_untouched : forall i, i ∉ is_ -> V0 !! i = view (store_ P) !! i;
  pd_rows : holds (tb (store_ P)) (tables_ P) (connection_ P) V0;
  pd_known : forall i p x cls o0, object_map_ (store_ P) !! i = Some p -> proxies (store_ P) !! p = Some x -> V0 !! i = Some (cls, o0) ->
    classname x = cls /\ is_Some (key_of o0) /\ key (pk x) = key_of o0;
  pd_tables : forall i p x n, object_map_ (store_ P) !! i = Some p -> proxies (store_ P) !! p = Some x -> node x = Some n -> is_Some (tables_ P !! n);
  pd_identifiers : forall p k x, proxy_identifier_map_ P !! p = Some k -> proxies (store_ P) !! p = Some x -> key k = key (pk x);
  pd_seq : forall i, is_Some (V0 !! i) -> (i <= seq_ (store_ P))%Z }.

Lemma change_ok_frame V0 (P P' : persistence) i (c : loc * proxy_change_action) :
  change_ok V0 P i c -> proxies (store_ P') !! c.1 = proxies (store_ P) !! c.1 -> object_map_ (store_ P') !! i = object_map_ (store_ P) !! i ->
  (forall cls, tb (store_ P') cls = tb (store_ P) cls) -> tables_ P' = tables_ P -> proxy_identifier_map_ P ⊆ proxy_identifier_map_ P' ->
  change_ok V0 P' i c.
Proof.
  intros (x & n & o & Hx & Hid & Ho & Hn & Htb & Htab & H) E1 E2 E3 E4 E5. exists x, n, o. rewrite E1, E2, E3, E4. split_and!; try done.
  destruct (c.2); [done | | done]. destruct H as (o0 & k & H1 & H2 & H3 & H4 & H5). exists o0, k. split_and!; try done; [by eapply lookup_weaken | apply H5..].
Qed.

(** A change whose object is still in the store is one of its own proxy. *)
Lemma change_stored V0 P is_ k i c :
  pending V0 P is_ -> is_ !! k = Some i -> proxy_change_queue_ P !! k = Some c ->
  forall p, object_map_ (store_ P) !! i = Some p -> c.1 = p /\ c.2 <> REMOVE.
Proof.
  intros HP Hi Hc p Hp. destruct (Forall2_lookup_lr _ _ _ _ _ _ (pd_queue _ _ _ HP) Hi Hc) as (x & n & o & _ & _ & _ & _ & _ & _ & H).
  destruct c as [q []]; cbn [fst snd] in *.
  - destruct H as [_ H]. split; [congruence | done].
  - destruct H as (o0 & k' & _ & _ & H & _). split; [congruence | done].
  - destruct H as (o0 & _ & _ & H & _). congruence.
Qed.

Lemma change_seq V0 P is_ i : pending V0 P is_ -> i ∈ is_ -> (i <= seq_ (store_ P))%Z.
Proof.
  intros HP Hi. apply list_elem_of_lookup in Hi as [k Hk]. destruct (Forall2_lookup_l _ _ _ _ _ (pd_queue _ _ _ HP) Hk) as (c & _ & (x & n & o & _ & _ & _ & _ & _ & _ & H)).
  destruct (c.2).
  - destruct H as [_ H]. destruct (ok_object _ (pd_store _ _ _ HP) _ _ H) as (? & ? & ? & _ & _ & _ & _ & _ & _ & _ & H'). lia.
  - destruct H as (o0 & k' & H & _). apply (pd_seq _ _ _ HP). by rewrite H.
  - destruct H as (o0 & H & _). apply (pd_seq _ _ _ HP). by rewrite H.
Qed.

Lemma find_change_Some p q k a : find_change p q = Some (k, a) -> q !! k = Some (p, a).
Proof.
  unfold find_change. intros ([j [p' a']] & H & [= -> ->])%fmap_Some_1. apply list_find_Some in H as (H & E & _). cbn in *. by subst.
Qed.
Lemma find_change_None p q a : find_change p q = None -> (p, a) ∉ q.
Proof.
  unfold find_change. intros H%fmap_None Hin. apply list_find_None in H. rewrite list.Forall_forall in H. by apply (H (p, a) Hin).
Qed.

(** A stored object without a registered change is as it was. *)
Lemma unchanged V0 P is_ i p :
  pending V0 P is_ -> object_map_ (store_ P) !! i = Some p -> find_change p (proxy_change_queue_ P) = None -> i ∉ is_.
Proof.
  intros HP Hp Hf Hi. apply list_elem_of_lookup in Hi as [k Hk]. destruct (Forall2_lookup_l _ _ _ _ _ (pd_queue _ _ _ HP) Hk) as ([q a] & Hc & _).
  destruct (change_stored V0 P is_ k i (q, a) HP Hk Hc p Hp) as [E _]. cbn in E. subst q. apply (find_change_None p _ a Hf). by eapply list_elem_of_lookup_2.
Qed.

Lemma queue_frame V0 P P' is_ :
  pending V0 P is_ -> (forall i c, i ∈ is_ -> change_ok V0 P i c -> change_ok V0 P' i c) -> Forall2 (change_ok V0 P') is_ (proxy_change_queue_ P).
Proof.
  intros HP H. apply Forall2_same_length_lookup_2; [by eapply Forall2_length, pd_queue |]. intros k i c Hi Hc.
  apply H; [by eapply list_elem_of_lookup_2 |]. by eapply (Forall2_lookup_lr _ _ _ _ _ _ (pd_queue _ _ _ HP)).
Qed.

Lemma insert_pending V0 P is_ p cls o P' :
  pending V0 P is_ -> proxies (store_ P) !! p = None -> proxy_identifier_map_ P !! p = None -> object_ok o -> (seq_ (store_ P) + 1 < 2 ^ 64)%Z ->
  (forall n, tb (store_ P) cls = Some n -> is_Some (tables_ P !! n)) -> insert p cls o P = (P', Ok tt) ->
  exists is', pending V0 P' is'.
Proof.
  intros HP Hp Hm Ho Hmax Htab. unfold insert, mbind_, on_store. destruct (ObjectStore.insert p true _) as [s'|] eqn:E; [|done].
  fold (alloc p cls o (store_ P)) in E. destruct (insert_found p cls o true _ s' E) as [n Hn]. pose proof (pd_store _ _ _ HP) as Hs.
  destruct (insert_quiet p cls o n true (store_ P) Hs Hp Hn Ho Hmax) as (s2 & x & E2 & Hs2 & [I1 I2 (I3 & I4 & I5 & _) (I6 & I7 & [o1 I8] & _) [I9 I10]] & [T1 T2]).
  { intros _. apply (pd_closed _ _ _ HP). }
  assert (s2 = s') as -> by congruence. unfold changing.
  assert (find_change p (proxy_change_queue_ P) = None) as Hf.
  { destruct (find_change p (proxy_change_queue_ P)) as [[k a]|] eqn:Ef; [|done]. apply find_change_Some in Ef.
    destruct (Forall2_lookup_r _ _ _ _ _ (pd_queue _ _ _ HP) Ef) as (i & _ & (y & _ & _ & Hy & _)). cbn in Hy. congruence. }
  assert (register_proxy_insert p (set_store s' P) = set_queue (proxy_change_queue_ P ++ [(p, INSERT)]) (set_store s' P)) as ->.
  { unfold register_proxy_insert, has_transaction. cbn -[find_change]. rewrite T1, (pd_closed _ _ _ HP), Hf. done. }
  intros [= <-].
  exists (is_ ++ [id x]). assert (V0 !! id x = None) as Hnone.
  { destruct (V0 !! id x) eqn:Ev; [|done]. pose proof (pd_seq _ _ _ HP (id x)) as H. rewrite Ev in H. specialize (H (mk_is_Some _ _ eq_refl)). lia. }
  assert (id x ∉ is_) as Hi by (intros Hi; apply (change_seq _ _ _ _ HP) in Hi; lia).
  assert (forall i q, object_map_ s' !! i = Some q -> i <> id x -> q <> p /\ object_map_ (store_ P) !! i = Some q) as Hold.
  { intros i q Hq Hne. rewrite I2, lookup_insert_ne in Hq by done. split; [|done]. intros ->.
    destruct (ok_object _ Hs i p Hq) as (y & _ & _ & Hy & _). congruence. }
  constructor; cbn.
  - done.
  - by rewrite T1, (pd_closed _ _ _ HP).
  - apply Forall2_app.
    + apply (queue_frame V0 P _ is_ HP). intros i [q a] Hin Hc. pose proof Hc as (y & _ & _ & Hy & Hid & _). cbn in Hy.
      apply (change_ok_frame V0 P); try done; cbn; [rewrite I1, lookup_insert_ne; [done | congruence] |].
      rewrite I2, lookup_insert_ne; [done | congruence].
    + constructor; [|constructor]. exists x, n, o1. cbn. rewrite I1, lookup_insert_eq, I2, lookup_insert_eq, I10, I7. split_and!; try done. by apply Htab.
  - apply list.NoDup_app. split; [apply (pd_nodup _ _ _ HP) |]. split; [set_solver | apply NoDup_singleton].
  - intros i Hni. rewrite (pd_untouched _ _ _ HP i) by set_solver. rewrite !lookup_view, I2, lookup_insert_ne by set_solver.
    destruct (object_map_ (store_ P) !! i) as [q|] eqn:Eq; [|done]. unfold object_at. rewrite I1, lookup_insert_ne; [done |].
    intros <-. destruct (ok_object _ Hs i p Eq) as (y & _ & _ & Hy & _). congruence.
  - unfold holds. setoid_rewrite I10. exact (pd_rows _ _ _ HP).
  - intros i q y c o0 Hi' Hy Hv. destruct (decide (i = id x)) as [-> | Hne]; [congruence |]. destruct (Hold i q Hi' Hne) as [Hqp Hq].
    rewrite I1, lookup_insert_ne in Hy by done. by eapply (pd_known _ _ _ HP).
  - intros i q y m Hi' Hy Hm'. destruct (decide (i = id x)) as [-> | Hne].
    + rewrite I2, lookup_insert_eq in Hi'. injection Hi' as <-. rewrite I1, lookup_insert_eq in Hy. injection Hy as <-.
      apply Htab. congruence.
    + destruct (Hold i q Hi' Hne) as [Hqp Hq]. rewrite I1, lookup_insert_ne in Hy by done. by eapply (pd_tables _ _ _ HP).
  - intros q k y Hq Hy. destruct (decide (q = p)) as [-> | Hne]; [congruence |]. rewrite I1, lookup_insert_ne in Hy by done. by eapply (pd_identifiers _ _ _ HP).
  - intros i Hi'. pose proof (pd_seq _ _ _ HP i Hi'). lia.
Qed.

(** ** Modifying *)

Lemma map_insert_new_spec {K A} `{Countable K} (k : K) (v : A) m :
  m ⊆ map_insert_new k v m /\ (map_insert_new k v m !! k = Some v \/ map_insert_new k v m !! k = m !! k /\ is_Some (m !! k))
  /\ forall j, j <> k -> map_insert_new k v m !! j = m !! j.
Proof.
  unfold map_insert_new. destruct (m !! k) as [v'|] eqn:E.
  - split; [done |]. split; [right; eauto | done].
  - split; [by apply insert_subseteq |]. split; [left; apply lookup_insert_eq |]. intros j Hj. by rewrite lookup_insert_ne.
Qed.

Definition set_object (p : loc) (x : proxy) (o : object) (s : store) : store := set_proxies (<[p := set_obj (Some o) x]> (proxies s)) s.

Lemma set_object_ok (s : store) i p x o :
  store_ok s -> object_map_ s !! i = Some p -> proxies s !! p = Some x -> object_ok o -> store_ok (set_object p x o s).
Proof.
  intros Hs Hi Hx Ho. destruct (ok_object s Hs i p Hi) as (x' & o' & n & Hx' & Hid & Ho' & Hok & Hn & Hfind & Hin & Hpos). simplify_eq.
  pose proof (store_ok_put make_object s p (set_obj (Some o) x) o n (id x) (node_lists s) Hs (ok_lists s Hs)) as H. rewrite insert_id in H by done.
  apply H; try done; [|by left]. intros m q. split; [tauto |]. intros [Hq | [-> ->]]; done.
Qed.

Lemma modify_run (P : persistence) p x n o :
  proxies (store_ P) !! p = Some x -> node x = Some n -> transactions_ (store_ P) = [] ->
  modify p o P = (set_store (set_object p x o (store_ P)) (register_proxy_update p x P), Ok tt).
Proof.
  intros Hx Hn Ht. unfold modify, mark_modified, proxy_at, mbind_, reading, changing, on_store, deref, node_type. rewrite Hx, Hn.
  assert (store_ (register_proxy_update p x P) = store_ P) as Es.
  { unfold register_proxy_update. destruct (has_transaction _); [done |]. by destruct (find_change _ _). }
  rewrite Es. unfold ObjectStore.mark_modified, deref, node_type, notify. rewrite Hx. cbn [rbind]. rewrite Hn. cbn [rbind]. rewrite Ht.
  cbn [store_ set_store]. rewrite Hx. done.
Qed.

(** The fields a registered update leaves alone. *)
Lemma update_registered (P : persistence) p x :
  transactions_ (store_ P) = [] ->
  let P' := register_proxy_update p x P in
  connection_ P' = connection_ P /\ store_ P' = store_ P /\ tables_ P' = tables_ P
  /\ proxy_identifier_map_ P' = map_insert_new p (pk x) (proxy_identifier_map_ P)
  /\ proxy_change_queue_ P' = match find_change p (proxy_change_queue_ P) with Some _ => proxy_change_queue_ P | None => proxy_change_queue_ P ++ [(p, UPDATE)] end.
Proof.
  intros Ht P'. unfold P', register_proxy_update, has_transaction. cbn -[find_change]. rewrite Ht, bool_decide_false by tauto.
  by destruct (find_change p (proxy_change_queue_ P)).
Qed.

Lemma change_ok_object V0 (P P' : persistence) i p x o (c : loc * proxy_change_action) :
  change_ok V0 P i c -> proxies (store_ P) !! p = Some x -> store_ P' = set_object p x o (store_ P) -> tables_ P' = tables_ P ->
  proxy_identifier_map_ P ⊆ proxy_identifier_map_ P' -> change_ok V0 P' i c.
Proof.
  intros Hc Hx Es Et Em. destruct (decide (c.1 = p)) as [<- | Hne].
  - destruct Hc as (y & n & o' & Hy & Hid & Ho & Hn & Htb & Htab & H). assert (y = x) as -> by congruence. exists (set_obj (Some o) x), n, o. rewrite Es, Et. cbn.
    rewrite lookup_insert_eq. split_and!; try done. destruct (c.2); [done | | done].
    destruct H as (o0 & k & H1 & H2 & H3 & H4 & H5). exists o0, k. split_and!; try done; [by eapply lookup_weaken | apply H5..].
  - apply (change_ok_frame V0 P); rewrite ?Es; try done. cbn. by rewrite lookup_insert_ne.
Qed.

Lemma modify_pending V0 P is_ i p x o o' P' :
  pending V0 P is_ -> object_map_ (store_ P) !! i = Some p -> proxies (store_ P) !! p = Some x -> obj x = Some o -> object_ok o' ->
  modify p o' P = (P', Ok tt) -> exists is', pending V0 P' is'.
Proof.
  intros HP Hi Hx Ho Ho'. pose proof (pd_store _ _ _ HP) as Hs. pose proof (pd_closed _ _ _ HP) as Ht.
  destruct (ok_object _ Hs i p Hi) as (x' & _ & n & Hx' & Hid & _ & _ & Hn & Hfind & _). assert (x' = x) as -> by congruence.
  rewrite (modify_run P p x n o' Hx Hn Ht). intros [= <-]. destruct (update_registered P p x Ht) as (E1 & E2 & E3 & E4 & E5).
  set (P1 := register_proxy_update p x P) in *. set (P' := set_store (set_object p x o' (store_ P)) P1).
  destruct (map_insert_new_spec p (pk x) (proxy_identifier_map_ P)) as (M1 & M2 & M3). rewrite <- E4 in M1, M2, M3.
  assert (exists k, proxy_identifier_map_ P1 !! p = Some k /\ key k = key (pk x)) as (k & Hk & Ek).
  { destruct M2 as [M2 | [M2 [k Hk]]]; [eauto |]. exists k. rewrite M2. split; [done |]. by eapply (pd_identifiers _ _ _ HP). }
  assert (exists is', Forall2 (change_ok V0 P') is' (proxy_change_queue_ P1) /\ NoDup is' /\ is_ ⊆ is' /\ i ∈ is') as (is' & Hq & Hnd & Hsub & Hin).
  { assert (Forall2 (change_ok V0 P') is_ (proxy_change_queue_ P)) as Hq.
    { apply (queue_frame V0 P _ is_ HP). intros j c _ Hc. by apply (change_ok_object V0 P P' j p x o' c Hc Hx). }
    rewrite E5. destruct (find_change p (proxy_change_queue_ P)) as [[m a]|] eqn:Ef.
    - exists is_. split; [done |]. split; [apply (pd_nodup _ _ _ HP) |]. split; [done |]. apply find_change_Some in Ef.
      destruct (Forall2_lookup_r _ _ _ _ _ (pd_queue _ _ _ HP) Ef) as (j & Hj & (y & _ & _ & Hy & Hidy & _)). cbn in Hy. simplify_eq.
      by eapply list_elem_of_lookup_2.
    - pose proof (unchanged V0 P is_ i p HP Hi Ef) as Hni. exists (is_ ++ [i]). split; [|split; [|split; [set_solver | set_solver]]].
      + apply Forall2_app; [done |]. constructor; [|constructor]. exists (set_obj (Some o') x), n, o'. cbn. rewrite lookup_insert_eq, E3.
        assert (tb (store_ P) (classname x) = Some n) as Htb by (unfold tb; by rewrite Hfind). split_and!; try done; [by eapply (pd_tables _ _ _ HP) |].
        pose proof (pd_untouched _ _ _ HP i Hni) as Hv. rewrite (stored_view _ i p x o Hi Hx Ho) in Hv.
        destruct (pd_known _ _ _ HP i p x (classname x) o Hi Hx Hv) as (_ & K1 & K2). exists o, k. split_and!; try done. congruence.
      + apply list.NoDup_app. split; [apply (pd_nodup _ _ _ HP) |]. split; [set_solver | apply NoDup_singleton]. }
  exists is'. constructor; cbn -[view]; rewrite ?E1, ?E3; try done.
  - by eapply set_object_ok.
  - intros j Hj. rewrite (pd_untouched _ _ _ HP j) by set_solver. rewrite !lookup_view. cbn.
    destruct (object_map_ (store_ P) !! j) as [q|] eqn:Eq; [|done]. unfold object_at. rewrite lookup_insert_ne; [done |]. intros <-.
    destruct (ok_object _ Hs j p Eq) as (y & _ & _ & Hy & Hidy & _). assert (j = i) as -> by congruence. by destruct Hj.
  - exact (pd_rows _ _ _ HP).
  - intros j q y c o0 Hj [[<- <-] | [Hne Hy]]%lookup_insert_Some Hv; [cbn; by eapply (pd_known _ _ _ HP) | by eapply (pd_known _ _ _ HP)].
  - intros j q y m Hj [[<- <-] | [Hne Hy]]%lookup_insert_Some Hm; [by eapply (pd_tables _ _ _ HP) | by eapply (pd_tables _ _ _ HP)].
  - intros q k' y Hq' [[<- <-] | [Hne Hy]]%lookup_insert_Some; [cbn; congruence |]. rewrite M3 in Hq' by done. by eapply (pd_identifiers _ _ _ HP).
  - exact (pd_seq _ _ _ HP).
Qed.

(** ** Removing *)

Lemma remove_inv (P P' : persistence) p :
  remove p P = (P', Ok tt) ->
  exists s1, take_out p (store_ P) = Ok s1 /\
    (let P1 := register_proxy_delete p (set_store s1 P) in
     if has_transaction P1 then on_store (notify (fun h => on_delete h p)) P1 = (P', Ok tt)
     else P' = set_to_delete ({[p]} ∪ proxies_to_delete_ P1) P1).
Proof.
  unfold remove, proxy_at, mbind_, reading, changing, get, raise. destruct (deref _ p) as [x|]; [|done]. case_bool_decide; [done |].
  destruct (is_deletable p (store_ P)) as [[]|]; cbn [negb]; [|done|done]. unfold on_store at 1. destruct (take_out p (store_ P)) as [s1|]; [|done].
  intros H1. exists s1. split; [done |]. cbn zeta. destruct (has_transaction _); [done |]. by injection H1.
Qed.

Lemma delete_registered (P : persistence) p :
  transactions_ (store_ P) = [] ->
  let P' := register_proxy_delete p P in
  connection_ P' = connection_ P /\ tables_ P' = tables_ P /\ proxy_identifier_map_ P' = proxy_identifier_map_ P
  /\ match find_change p (proxy_change_queue_ P) with
     | Some (k, INSERT) => store_ P' = ObjectStore.delete_proxy p (store_ P) /\ proxy_change_queue_ P' = delete k (proxy_change_queue_ P)
     | Some (k, UPDATE) => store_ P' = store_ P /\ proxy_change_queue_ P' = <[k := (p, REMOVE)]> (proxy_change_queue_ P)
     | Some (k, REMOVE) => store_ P' = store_ P /\ proxy_change_queue_ P' = proxy_change_queue_ P
     | None => store_ P' = store_ P /\ proxy_change_queue_ P' = proxy_change_queue_ P ++ [(p, REMOVE)]
     end.
Proof.
  intros Ht P'. unfold P', register_proxy_delete, has_transaction. rewrite Ht, bool_decide_false by tauto.
  by destruct (find_change p (proxy_change_queue_ P)) as [[k []]|].
Qed.

(** The store [s'] is [s] without the object [i] of [p]. *)
Record without (s s' : store) (i : Z) (p : loc) : Prop := {
  wo_ok : store_ok s';
  wo_map : object_map_ s' = delete i (object_map_ s);
  wo_proxies : forall q, q <> p -> proxies s' !! q = proxies s !! q;
  wo_sub : proxies s' ⊆ proxies s;
  wo_tb : forall cls, tb s' cls = tb s cls;
  wo_seq : (seq_ s <= seq_ s')%Z;
  wo_transactions : same_transactions s s' }.

Lemma take_out_without (s s1 : store) i p :
  store_ok s -> object_map_ s !! i = Some p -> take_out p s = Ok s1 -> proxies s1 = proxies s /\ without s s1 i p /\ without s (ObjectStore.delete_proxy p s1) i p.
Proof.
  intros Hs Hi E. destruct (take_out_spec make_object s i p Hs Hi) as (s1' & E' & Hs1 & [F1 F2 F3 F4 F5] & Hnone & Hno & Hpr & T).
  assert (s1' = s1) as -> by congruence. assert (object_map_ s1 = delete i (object_map_ s)) as Hmap.
  { apply map_eq. intros j. destruct (decide (j = i)) as [-> | Hne]; [by rewrite Hnone, lookup_delete_eq |].
    rewrite lookup_delete_ne by done. apply F4. set_solver. }
  assert (forall cls, tb s1 cls = tb s cls) as Etb by (intros cls; unfold tb, find_prototype_node; by rewrite F1, F2).
  split; [done |]. split; constructor; try done; cbn; rewrite ?Hpr; try done.
  - by apply delete_proxy_ok.
  - intros q Hq. by rewrite lookup_delete_ne.
  - apply delete_subseteq.
Qed.

(** A removed object: it is out of the store, and its change says so. *)
Section Removed.
Context (V0 : objects) (P P' : persistence) (is_ : list Z) (i : Z) (p : loc).
Context (HP : pending V0 P is_) (Hi : object_map_ (store_ P) !! i = Some p) (Hwo : without (store_ P) (store_ P') i p).
Context (Ec : connection_ P' = connection_ P) (Et : tables_ P' = tables_ P) (Em : proxy_identifier_map_ P' = proxy_identifier_map_ P).

Lemma removed_other j q : object_map_ (store_ P') !! j = Some q -> j <> i /\ q <> p /\ object_map_ (store_ P) !! j = Some q.
Proof using HP Hi Hwo.
  rewrite (wo_map _ _ _ _ Hwo). intros [Hne Hq]%lookup_delete_Some. split; [done |]. split; [|done]. intros ->.
  destruct (ok_object _ (pd_store _ _ _ HP) j p Hq) as (y & _ & _ & Hy & Hidy & _).
  destruct (ok_object _ (pd_store _ _ _ HP) i p Hi) as (z & _ & _ & Hz & Hidz & _). congruence.
Qed.

Lemma removed_change j c : change_ok V0 P j c -> j <> i -> change_ok V0 P' j c.
Proof using HP Hi Hwo Ec Et Em.
  intros Hc Hne. pose proof Hc as (y & _ & _ & Hy & Hidy & _). apply (change_ok_frame V0 P); rewrite ?Em; try done.
  - apply (wo_proxies _ _ _ _ Hwo). destruct (ok_object _ (pd_store _ _ _ HP) i p Hi) as (z & _ & _ & Hz & Hidz & _). congruence.
  - by rewrite (wo_map _ _ _ _ Hwo), lookup_delete_ne.
  - apply (wo_tb _ _ _ _ Hwo).
Qed.

Lemma removed_pending is' :
  Forall2 (change_ok V0 P') is' (proxy_change_queue_ P') -> NoDup is' -> (forall j, j ∉ is' -> j ∉ is_ \/ j = i) -> (i ∉ is' -> V0 !! i = None) ->
  pending V0 P' is'.
Proof using HP Hi Ec Et Em Hwo.
  intros Hq Hnd Huse Hnone. pose proof Hwo as [W1 W2 W3 W4 W5 W6 [W7 _]]. constructor; try done.
  - by rewrite W7, (pd_closed _ _ _ HP).
  - intros j Hj. destruct (decide (j = i)) as [-> | Hne].
    + rewrite (Hnone Hj), lookup_view, W2, lookup_delete_eq. done.
    + destruct (Huse j Hj) as [Hj' | ?]; [|done]. rewrite (pd_untouched _ _ _ HP j Hj'), !lookup_view, W2, lookup_delete_ne by done.
      destruct (object_map_ (store_ P) !! j) as [q|] eqn:Eq; [|done].
      destruct (removed_other j q) as (_ & Hqp & _); [by rewrite W2, lookup_delete_ne |]. unfold object_at. by rewrite W3.
  - rewrite Ec, Et. unfold holds. setoid_rewrite W5. exact (pd_rows _ _ _ HP).
  - intros j q y c o0 Hj Hy Hv. destruct (removed_other j q Hj) as (_ & Hqp & Hj'). rewrite W3 in Hy by done. by eapply (pd_known _ _ _ HP).
  - intros j q y m Hj Hy Hm. destruct (removed_other j q Hj) as (_ & Hqp & Hj'). rewrite W3 in Hy by done. rewrite Et. by eapply (pd_tables _ _ _ HP).
  - intros q k y Hq' Hy. rewrite Em in Hq'. eapply (pd_identifiers _ _ _ HP); [done |]. by eapply lookup_weaken.
  - intros j Hj. pose proof (pd_seq _ _ _ HP j Hj). lia.
Qed.

(** The changes before and behind the one of the object. *)
Lemma removed_changes l q : i ∉ l -> Forall2 (change_ok V0 P) l q -> Forall2 (change_ok V0 P') l q.
Proof using HP Hi Hwo Ec Et Em.
  intros Hl H. induction H as [|j c l q Hc H IH]; constructor; [apply removed_change; [done | set_solver] | apply IH; set_solver].
Qed.
End Removed.

Lemma queue_split V0 P is_ k c :
  pending V0 P is_ -> proxy_change_queue_ P !! k = Some c ->
  exists i l1 l2 q1 q2, is_ = l1 ++ i :: l2 /\ proxy_change_queue_ P = q1 ++ c :: q2 /\ length q1 = k
    /\ Forall2 (change_ok V0 P) l1 q1 /\ Forall2 (change_ok V0 P) l2 q2 /\ change_ok V0 P i c /\ (i ∉ l1) /\ (i ∉ l2) /\ NoDup (l1 ++ l2).
Proof.
  intros HP Hk. set (q1 := take k (proxy_change_queue_ P)). set (q2 := drop (S k) (proxy_change_queue_ P)).
  assert (proxy_change_queue_ P = q1 ++ c :: q2) as Eq by (symmetry; by apply take_drop_middle).
  assert (length q1 = k) as El by (apply length_take_le; apply lookup_lt_Some in Hk; lia). pose proof (pd_queue _ _ _ HP) as H. rewrite Eq in H.
  apply Forall2_app_inv_r in H as (l1 & l2' & H1 & H2 & Ei). apply Forall2_cons_inv_r in H2 as (i & l2 & Hc & H2 & ->).
  pose proof (pd_nodup _ _ _ HP) as Hnd. rewrite Ei in Hnd. apply list.NoDup_app in Hnd as (N1 & N2 & N3). apply list.NoDup_cons in N3 as [N3 N4].
  exists i, l1, l2, q1, q2. split_and!; try done; [intros Hi; apply (N2 i Hi); left |]. apply list.NoDup_app. split; [done |]. split; [|done].
  intros j Hj Hj'. apply (N2 j Hj). by right.
Qed.

Lemma remove_pending V0 P is_ i p P' :
  pending V0 P is_ -> object_map_ (store_ P) !! i = Some p -> remove p P = (P', Ok tt) -> exists is', pending V0 P' is'.
Proof.
  intros HP Hi (s1 & Et & H)%remove_inv. pose proof (pd_store _ _ _ HP) as Hs. pose proof (pd_closed _ _ _ HP) as Ht.
  destruct (ok_object _ Hs i p Hi) as (x & o & n & Hx & Hid & Ho & Hok & Hn & Hfind & Hin & Hpos).
  destruct (take_out_without _ s1 i p Hs Hi Et) as (Hpr & Hwo & Hwo').
  assert (transactions_ (store_ (set_store s1 P)) = []) as Ht1 by (destruct (wo_transactions _ _ _ _ Hwo) as [E _]; cbn; congruence).
  destruct (delete_registered (set_store s1 P) p Ht1) as (R1 & R2 & R3 & R4).
  cbn [connection_ tables_ proxy_identifier_map_ store_ proxy_change_queue_ set_store] in R1, R2, R3, R4, Ht1.
  set (P1 := register_proxy_delete p (set_store s1 P)) in *. set (P2 := set_to_delete ({[p]} ∪ proxies_to_delete_ P1) P1) in *.
  assert (without (store_ P) (store_ P1) i p) as Hwo1 by (destruct (find_change p (proxy_change_queue_ P)) as [[k []]|]; destruct R4 as [-> _]; done).
  cbn zeta in H. unfold has_transaction in H. destruct (wo_transactions _ _ _ _ Hwo1) as [Tx _]. rewrite Tx, Ht, bool_decide_false in H by tauto. subst P'.
  pose proof (removed_changes V0 P P2 is_ i p HP Hi Hwo1 R1 R2 R3) as Hch.
  pose proof (removed_pending V0 P P2 is_ i p HP Hi Hwo1 R1 R2 R3) as Hpd. cbn [proxy_change_queue_ P2 set_to_delete] in Hpd.
  assert (tb (store_ P2) (classname x) = Some n) as Htb by (cbn; rewrite (wo_tb _ _ _ _ Hwo1); unfold tb; by rewrite Hfind).
  assert (object_map_ (store_ P2) !! i = None) as Hgone by (cbn; rewrite (wo_map _ _ _ _ Hwo1); apply lookup_delete_eq).
  assert (is_Some (tables_ P2 !! n)) as Htab by (cbn; rewrite R2; by eapply (pd_tables _ _ _ HP)).
  destruct (find_change p (proxy_change_queue_ P)) as [[k a]|] eqn:Ef.
  - apply find_change_Some in Ef. destruct (queue_split V0 P is_ k (p, a) HP Ef) as (j & l1 & l2 & q1 & q2 & El & Eq & Ek & H1 & H2 & Hc & N1 & N2 & N3).
    pose proof Hc as (y & m & o' & Hy & Hidy & Hoy & Hny & Htby & Htaby & Hc'). cbn [fst snd] in *. simplify_eq.
    destruct a.
    + exists (l1 ++ l2). destruct R4 as [_ R4]. apply Hpd.
      * rewrite R4, Eq, delete_middle. apply Forall2_app; by apply Hch.
      * done.
      * intros j Hj. destruct (decide (j = id x)); [by right | left; set_solver].
      * intros _. by destruct Hc' as [? _].
    + exists (l1 ++ id x :: l2). destruct R4 as [E4 R4]. apply Hpd.
      * rewrite R4, Eq, insert_app_r_alt, Nat.sub_diag by done. cbn. apply Forall2_app; [by apply Hch |]. constructor; [|by apply Hch].
        exists x, n, o. cbn [fst snd]. split_and!; try done; [cbn; by rewrite E4, Hpr |].
        destruct Hc' as (o0 & k & K1 & K2 & K3 & K4 & K5 & K6). by exists o0.
      * exact (pd_nodup _ _ _ HP).
      * intros j Hj. by left.
      * intros Hni. destruct Hni. set_solver.
    + destruct Hc' as (o0 & _ & _ & Hc' & _). congruence.
  - pose proof (unchanged V0 P is_ i p HP Hi Ef) as Hni. destruct R4 as [E4 R4]. exists (is_ ++ [i]). apply Hpd.
    + rewrite R4. apply Forall2_app; [apply Hch; [done | apply (pd_queue _ _ _ HP)] |]. constructor; [|constructor].
      exists x, n, o. cbn [fst snd]. split_and!; try done; [cbn; by rewrite E4, Hpr |].
      pose proof (pd_untouched _ _ _ HP i Hni) as Hv. rewrite (stored_view _ i p x o Hi Hx Ho) in Hv.
      destruct (pd_known _ _ _ HP i p x (classname x) o Hi Hx Hv) as (_ & K1 & K2). by exists o.
    + apply list.NoDup_app. split; [apply (pd_nodup _ _ _ HP) |]. split; [set_solver | apply NoDup_singleton].
    + set_solver.
    + set_solver.
Qed.

(** ** Sessions *)

(** Store and database agree and there is nothing to do. *)
Record synced (P : persistence) : Prop := {
  sy_store : store_ok (store_ P);
  sy_closed : transactions_ (store_ P) = [];
  sy_queue : proxy_change_queue_ P = [];
  sy_rows : holds (tb (store_ P)) (tables_ P) (connection_ P) (view (store_ P));
  sy_keyed : keyed (store_ P);
  sy_tables : forall i p x n, object_map_ (store_ P) !! i = Some p -> proxies (store_ P) !! p = Some x -> node x = Some n -> is_Some (tables_ P !! n);
  sy_identifiers : forall p k x, proxy_identifier_map_ P !! p = Some k -> proxies (store_ P) !! p = Some x -> key k = key (pk x) }.

(** What a program does with a session: it inserts a new object of a class
    with a table, changes an object and removes one of the objects [rm]. A new
    proxy has an address no identifier was remembered for. *)
Inductive session_step (rm : Z -> Prop) (P : persistence) : persistence -> Prop :=
| ss_insert p cls o P' :
    proxies (store_ P) !! p = None -> proxy_identifier_map_ P !! p = None -> object_ok o -> (seq_ (store_ P) + 1 < 2 ^ 64)%Z ->
    (forall n, tb (store_ P) cls = Some n -> is_Some (tables_ P !! n)) -> insert p cls o P = (P', Ok tt) -> session_step rm P P'
| ss_modify i p x o o' P' :
    object_map_ (store_ P) !! i = Some p -> proxies (store_ P) !! p = Some x -> obj x = Some o -> Forall2 same_attribute o o' -> object_ok o' ->
    modify p o' P = (P', Ok tt) -> session_step rm P P'
| ss_remove i p P' :
    object_map_ (store_ P) !! i = Some p -> rm i -> remove p P = (P', Ok tt) -> session_step rm P P'.

Lemma holds_ext t tabs (d d' : D) V : (forall u k, db_row d' u k = db_row d u k) -> holds t tabs d V -> holds t tabs d' V.
Proof. intros E H u k o Hu. rewrite E. by apply H. Qed.

Lemma synced_pending P : synced P -> pending (view (store_ P)) P [].
Proof.
  intros [S1 S2 S3 S4 S5 S6 S7]. constructor; try done.
  - rewrite S3. constructor.
  - constructor.
  - intros i p x cls o0 Hi Hx Hv. destruct (ok_object _ S1 i p Hi) as (x' & o & n & Hx' & _ & Ho & _). assert (x' = x) as -> by congruence.
    rewrite (stored_view _ i p x o Hi Hx Ho) in Hv. injection Hv as <- <-. split; [done |]. by eapply S5.
  - intros i Hv. rewrite lookup_view in Hv. destruct (object_map_ (store_ P) !! i) as [p|] eqn:E; [|by destruct Hv].
    destruct (ok_object _ S1 i p E) as (? & ? & ? & _ & _ & _ & _ & _ & _ & _ & H). lia.
Qed.

Lemma pending_steps V0 rm P P' : rtc (session_step rm) P P' -> (exists is_, pending V0 P is_) -> exists is_, pending V0 P' is_.
Proof.
  intros H. induction H as [|P P1 P' H _ IH]; [done |]. intros [is_ HP]. apply IH.
  inversion H; subst; [by eapply insert_pending | by eapply modify_pending | by eapply remove_pending].
Qed.

(** C5: [flush]: when store and database agreed and objects were
    inserted, changed and removed since, in any order, then [flush] succeeds and
    they agree again: the tables have the objects of the store as rows and no
    others. The objects have integral keys which their proxies know, and no key
    of a removed or changed object is used for another one. *)
Theorem session_flush P0 P1 :
  synced P0 -> rtc (session_step (fun _ => True)) P0 P1 -> keyed (store_ P1) ->
  apart (tb (store_ P1)) (view (store_ P0)) (view (store_ P1)) ->
  exists P2, flush P1 = (P2, Ok tt) /\ synced P2 /\ view (store_ P2) = view (store_ P1).
Proof.
  intros HS Hsteps Hk Ha. destruct (pending_steps _ _ _ _ Hsteps (ex_intro _ [] (synced_pending P0 HS))) as [is_ HP].
  set (P1' := set_connection (db_begin (connection_ P1)) P1).
  destruct (process_changes_spec (view (store_ P1)) (proxy_change_queue_ P1) (view (store_ P0)) P1' is_) as (P2 & E & K & Hs & Hd); try done.
  - exact (pd_queue _ _ _ HP).
  - exact (pd_nodup _ _ _ HP).
  - exact (pd_untouched _ _ _ HP).
  - exact (pd_store _ _ _ HP).
  - eapply holds_ext; [|exact (pd_rows _ _ _ HP)]. intros u k. apply db_begin_spec.
  - exists (set_identifiers ∅ (set_queue [] (set_connection (db_commit (connection_ P2)) P2))). unfold flush, mbind_, changing, get. fold P1'.
    change (proxy_change_queue_ P1') with (proxy_change_queue_ P1). rewrite E. split; [done |]. split; [|exact (kp_view _ _ K)].
    destruct K as [K1 K2 K3 K4 [K5 _] K6 K7 _]. cbn -[view] in K1, K2, K3, K4, K5, K6. constructor; cbn -[view]; try done.
    + by rewrite K5, (pd_closed _ _ _ HP).
    + rewrite K1, K4. unfold holds in *. setoid_rewrite K3. intros u k o Hu. rewrite db_commit_spec. by apply Hd.
    + intros i p x o Hi Hx Ho. rewrite K2 in Hi. eapply Hk; [exact Hi | by eapply lookup_weaken | exact Ho].
    + intros i p x n Hi Hx Hn. rewrite K2 in Hi. rewrite K1. eapply (pd_tables _ _ _ HP); [exact Hi | by eapply lookup_weaken | exact Hn].
Qed.

(** ** The actions of a transaction *)

Definition inserts (p : loc) (ty : str) (acts : list action) : Prop := exists l, InsertAction ty l ∈ acts /\ p ∈ l.
Definition updates (p : loc) (acts : list action) : Prop := exists ty i, UpdateAction p ty i ∈ acts.
Definition deletes (p : loc) (acts : list action) : Prop := exists ty i b, DeleteAction ty i p b ∈ acts.

Lemma on_insert_actions h p x n (td td' : transaction_data (B := B)) :
  on_insert h p td = Ok td' -> h !! p = Some x -> node x = Some n ->
  (forall q ty, inserts q ty (actions_ td') -> inserts q ty (actions_ td) \/ (q = p /\ ty = n))
  /\ (forall q, updates q (actions_ td') -> updates q (actions_ td)) /\ (forall q, deletes q (actions_ td') -> deletes q (actions_ td)).
Proof.
  intros H Hx Hn. unfold on_insert, deref in H. rewrite Hx in H. cbn [rbind] in H. destruct (id_action_index_map_ td !! id x); [done |].
  unfold node_type in H. rewrite Hn in H. cbn [rbind] in H. unfold inserter_insert in H.
  destruct (insert_visit n p 0 (actions_ td)) as [[k acts]|] eqn:E.
  - destruct (k =? length acts); [done |]. injection H as <-. cbn. destruct (insert_visit_spec _ _ _ _ _ _ E) as (A & l & C & _ & -> & ->).
    unfold inserts, updates, deletes. split_and!.
    + intros q ty (l' & Hl & Hq). apply elem_of_app in Hl as [Hl | [E' | Hl]%elem_of_cons]; [left; exists l'; set_solver | | left; exists l'; set_solver].
      injection E' as -> ->. apply elem_of_app in Hq as [Hq | ->%list_elem_of_singleton]; [left; exists l; set_solver | by right].
    + intros q (ty & i & Hq). exists ty, i. set_solver.
    + intros q (ty & i & b & Hq). exists ty, i, b. set_solver.
  - destruct (_ =? _); [done |]. injection H as <-. cbn. unfold inserts, updates, deletes. split_and!.
    + intros q ty (l' & [Hl | E'%list_elem_of_singleton]%elem_of_app & Hq); [by left; exists l' | right]. injection E' as -> ->. set_solver.
    + intros q (ty & i & Hq). exists ty, i. set_solver.
    + intros q (ty & i & b & Hq). exists ty, i, b. set_solver.
Qed.

Lemma backup_actions h a p (td td' : transaction_data (B := B)) : backup_action h a p td = Ok td' -> actions_ td' = actions_ td ++ [a].
Proof.
  unfold backup_action. intros (x & _ & H)%rbind_Ok. apply rbind_Ok in H as (o & _ & H). apply rbind_Ok in H as (b & _ & H). by injection H as <-.
Qed.

Lemma on_update_actions h p (td td' : transaction_data (B := B)) :
  on_update h p td = Ok td' ->
  (forall q ty, inserts q ty (actions_ td') -> inserts q ty (actions_ td)) /\ (forall q, updates q (actions_ td') -> updates q (actions_ td) \/ q = p)
  /\ (forall q, deletes q (actions_ td') -> deletes q (actions_ td)).
Proof.
  unfold on_update. intros (x & _ & H)%rbind_Ok. destruct (id_action_index_map_ td !! id x); [injection H as <-; by split_and!; auto |].
  apply rbind_Ok in H as (ty & _ & H). apply backup_actions in H. rewrite H. unfold inserts, updates, deletes. split_and!.
  - intros q ty' (l & Hl & Hq). exists l. set_solver.
  - intros q (ty' & i & [Hq | E]%elem_of_app); [left; eauto | right]. apply list_elem_of_singleton in E. congruence.
  - intros q (ty' & i & b & Hq). exists ty', i, b. set_solver.
Qed.

Lemma erase_sub h i l l' : erase_by_id h i l = Ok l' -> l' ⊆ l.
Proof.
  revert l'. induction l as [|q l IH]; intros l' H; cbn in H; [by injection H as <- |]. apply rbind_Ok in H as (x & _ & H).
  destruct (_ && _); [injection H as <-; set_solver |]. apply rbind_Ok in H as (l'' & H & E). injection E as <-. apply IH in H. set_solver.
Qed.

Lemma remover_actions h k p acts acts' :
  remover_remove h k p acts = Ok acts' ->
  (forall q ty, inserts q ty acts' -> inserts q ty acts) /\ (forall q, updates q acts' -> updates q acts)
  /\ (forall q, deletes q acts' -> deletes q acts \/ updates q acts).
Proof.
  unfold remover_remove. intros (x & _ & H)%rbind_Ok. destruct (acts !! k) as [a|] eqn:Hk; [|done].
  assert (forall b a', b ∈ <[k := a']> acts -> b = a' \/ b ∈ acts) as Hin.
  { intros b a' (j & Hj)%list_elem_of_lookup. destruct (decide (j = k)) as [-> | Hne].
    - left. rewrite list_lookup_insert_eq in Hj by (by eapply lookup_lt_Some). congruence.
    - right. rewrite list_lookup_insert_ne in Hj by done. by eapply list_elem_of_lookup_2. }
  unfold inserts, updates, deletes. destruct a as [ty l | q ty i | ty i q b].
  - apply rbind_Ok in H as (l' & Hl & H). apply erase_sub in Hl. case_bool_decide; injection H as <-.
    + assert (delete k acts ⊆ acts) as Hsub.
      { intros b Hb. rewrite delete_take_drop in Hb. apply elem_of_app in Hb as [Hb | Hb].
        - rewrite <- (take_drop k acts). apply elem_of_app. by left.
        - rewrite <- (take_drop (S k) acts). apply elem_of_app. by right. }
      split_and!; [intros q ty' (l'' & H1 & H2); exists l''; set_solver | intros q (ty' & i & Hq); exists ty', i; set_solver | intros q (ty' & i & b & Hq); left; exists ty', i, b; set_solver].
    + split_and!.
      * intros q ty' (l'' & [E | H1]%Hin & H2); [|by exists l'']. injection E as -> ->. exists l. split; [by eapply list_elem_of_lookup_2 | set_solver].
      * intros q (ty' & i & [E | Hq]%Hin); [done | by exists ty', i].
      * intros q (ty' & i & b & [E | Hq]%Hin); [done | left; by exists ty', i, b].
  - apply rbind_Ok in H as (y & _ & H). destruct (id y =? id x)%Z; injection H as <-; [|split_and!; auto].
    split_and!.
    + intros q' ty' (l'' & [E | H1]%Hin & H2); [done | by exists l''].
    + intros q' (ty' & i' & [E | Hq]%Hin); [done | by exists ty', i'].
    + intros q' (ty' & i' & b & [E | Hq]%Hin); [right | left; by exists ty', i', b]. injection E as -> -> -> ->. exists ty, i. by eapply list_elem_of_lookup_2.
  - injection H as <-. split_and!; auto.
Qed.

Lemma on_delete_actions h p (td td' : transaction_data (B := B)) :
  on_delete h p td = Ok td' ->
  (forall q ty, inserts q ty (actions_ td') -> inserts q ty (actions_ td)) /\ (forall q, updates q (actions_ td') -> updates q (actions_ td))
  /\ (forall q, deletes q (actions_ td') -> deletes q (actions_ td) \/ updates q (actions_ td) \/ q = p).
Proof.
  unfold on_delete. intros (x & _ & H)%rbind_Ok. destruct (id_action_index_map_ td !! id x) as [k|].
  - apply rbind_Ok in H as (acts & H & E). injection E as <-. cbn. destruct (remover_actions _ _ _ _ _ H) as (A1 & A2 & A3). split_and!; [done | done |].
    intros q Hq. destruct (A3 q Hq); tauto.
  - apply rbind_Ok in H as (ty & _ & H). apply backup_actions in H. rewrite H. unfold inserts, updates, deletes. split_and!.
    + intros q ty' (l & Hl & Hq). exists l. set_solver.
    + intros q (ty' & i & Hq). exists ty', i. set_solver.
    + intros q (ty' & i & b & [Hq | E]%elem_of_app); [left; by exists ty', i, b | right; right]. apply list_elem_of_singleton in E. congruence.
Qed.

(** ** While a transaction is open *)

(** The proxy of an object that was there knows its key, and its class has a
    table. *)
Definition good (V0 : objects) (P : persistence) (p : loc) : Prop :=
  forall x, proxies (store_ P) !! p = Some x ->
  (forall cls o0, V0 !! id x = Some (cls, o0) -> is_Some (key_of o0) /\ key (pk x) = key_of o0) /\ (forall n, node x = Some n -> is_Some (tables_ P !! n)).
Definition in_store (s : store) (p : loc) : Prop := exists i, object_map_ s !! i = Some p.

Record opened (V0 : objects) (t : Z) (ts : list Z) (P : persistence) (td : transaction_data (B := B)) (us : list undo_step) : Prop := {
  od_inv : tx_inv V0 t ts (store_ P) td us;
  od_queue : proxy_change_queue_ P = [];
  od_rows : holds (tb (store_ P)) (tables_ P) (connection_ P) V0;
  od_inserts : forall p ty, inserts p ty (actions_ td) -> exists x, proxies (store_ P) !! p = Some x /\ node x = Some ty;
  od_updates : forall p, updates p (actions_ td) -> is_Some (proxy_identifier_map_ P !! p);
  od_good : forall p, in_store (store_ P) p \/ deletes p (actions_ td) -> good V0 P p;
  od_identifiers : forall p k x, proxy_identifier_map_ P !! p = Some k -> proxies (store_ P) !! p = Some x -> key k = key (pk x) }.

Lemma has_open (P : persistence) t ts : transactions_ (store_ P) = t :: ts -> has_transaction P = true.
Proof. intros E. apply bool_decide_eq_true. by rewrite E. Qed.

Lemma notify_open f (s s' : store) t ts td :
  transactions_ s = t :: ts -> tdata s !! t = Some td -> notify f s = Ok s' ->
  exists td', f (proxies s) td = Ok td' /\ s' = set_transactions (t :: ts) (<[t := td']> (tdata s)) s.
Proof. intros E1 E2. unfold notify. rewrite E1, E2. intros (td' & E & [= <-])%rbind_Ok. eauto. Qed.

(** Every object of the beginning has an id of the past. *)
Lemma begin_seq V0 t ts (s : store) td us i : tx_inv V0 t ts s td us -> is_Some (V0 !! i) -> (i <= seq_ s)%Z.
Proof.
  intros HT Hi. destruct (decide (i ∈ concat (undo_ids <$> us))) as [Hin | Hni]; [by apply (tx_seq _ _ _ _ _ _ HT) |].
  rewrite <- (tx_undo _ _ _ _ _ _ HT), undo_all_untouched, lookup_view in Hi by done. destruct (object_map_ s !! i) as [p|] eqn:E; [|by destruct Hi].
  destruct (ok_object _ (tx_store _ _ _ _ _ _ HT) i p E) as (? & ? & ? & _ & _ & _ & _ & _ & _ & _ & H). lia.
Qed.

(** The proxy of a delete action is not in the store any more. *)
Lemma deleted_proxy V0 t ts (s : store) td us p :
  tx_inv V0 t ts s td us -> deletes p (actions_ td) -> exists x n, proxies s !! p = Some x /\ node x = Some n.
Proof.
  intros HT (ty & i & b & Ha). apply list_elem_of_lookup in Ha as [k Hk].
  destruct (Forall2_lookup_l _ _ _ _ _ (tx_actions _ _ _ _ _ _ HT) Hk) as (u & _ & Hu). destruct u as [|j cls o]; [done |].
  destruct Hu as (_ & _ & _ & x & now & n & Hx & _ & _ & _ & _ & _ & _ & _ & Hn & _). eauto.
Qed.

Lemma insert_opened V0 t ts P td us p cls o P' :
  opened V0 t ts P td us -> proxies (store_ P) !! p = None -> proxy_identifier_map_ P !! p = None -> object_ok o -> (seq_ (store_ P) + 1 < 2 ^ 64)%Z ->
  (forall n, tb (store_ P) cls = Some n -> is_Some (tables_ P !! n)) -> insert p cls o P = (P', Ok tt) ->
  exists td' us', opened V0 t ts P' td' us'.
Proof.
  intros [O1 O2 O3 O4 O5 O6 O7] Hp Hm Ho Hmax Htab. pose proof (tx_store _ _ _ _ _ _ O1) as Hs. pose proof (ok_seq _ Hs) as Hsq.
  unfold insert, mbind_, on_store. destruct (ObjectStore.insert p true _) as [s'|] eqn:E; [|done].
  fold (alloc p cls o (store_ P)) in E. destruct (insert_found p cls o true _ s' E) as [n Hn]. unfold changing, register_proxy_insert.
  destruct (insert_step make_object V0 t ts (store_ P) td us p cls o s' O1 Hp Ho Hmax E) as (td' & us' & O1').
  rewrite (has_open (set_store s' P) t ts (tx_top _ _ _ _ _ _ O1')). intros [= <-]. exists td', us'.
  destruct (insert_run p cls o n true (store_ P) Hn Ho) as (o1 & pk1 & seq1 & _ & _ & _ & _ & Erun); [lia | done |]. rewrite Erun in E.
  set (x := Proxy (Some o1) (Some n) cls (seq_ (store_ P) + 1) 0 pk1) in *. apply rbind_Ok in E as (r & Er & E). cbn zeta in E. apply rbind_Ok in E as (s2 & E & E').
  apply (notify_open _ _ _ t ts td) in E as (td2 & E & ->); [|apply (tx_top _ _ _ _ _ _ O1) | apply (tx_data _ _ _ _ _ _ O1)].
  injection E' as <-. assert (td2 = td') as ->.
  { pose proof (tx_data _ _ _ _ _ _ O1') as H. cbn in H. rewrite lookup_insert_eq in H. congruence. }
  destruct (on_insert_actions _ p x n td td' E) as (A1 & A2 & A3); [apply lookup_insert_eq | done |].
  assert (forall q y, q <> p -> proxies (store_ P) !! q = Some y -> <[p := x]> (proxies (store_ P)) !! q = Some y) as Hother
    by (intros q y Hq Hy; by rewrite lookup_insert_ne).
  constructor; cbn -[view]; try done.
  - intros q ty [Hq | [-> ->]]%A1; [|exists x; by rewrite lookup_insert_eq]. destruct (O4 q ty Hq) as (y & Hy & Hty). exists y. split; [|done].
    apply Hother; [congruence | done].
  - intros q Hq. by apply O5, A2.
  - intros q Hq y Hy. cbn in Hy. apply lookup_insert_Some in Hy as [[<- <-] | [Hne Hy]].
    + split; [|intros m [= <-]; apply Htab; unfold tb; by rewrite Hn]. cbn. intros c o0 Hv.
      pose proof (begin_seq _ _ _ _ _ _ (seq_ (store_ P) + 1)%Z O1 (mk_is_Some _ _ Hv)). lia.
    + apply (O6 q); [|done]. destruct Hq as [[i Hi] | Hq]; [left | right; by apply A3]. cbn in Hi.
      unfold map_insert_new in Hi. destruct (object_map_ (store_ P) !! (seq_ (store_ P) + 1)%Z); [by exists i |].
      apply lookup_insert_Some in Hi as [[_ E1] | [_ Hi]]; [congruence | by exists i].
  - intros q k y Hq [[<- <-] | [Hne Hy]]%lookup_insert_Some; [congruence | by eapply O7].
Qed.

Lemma modify_open (P P' : persistence) t ts p x n o :
  transactions_ (store_ P) = t :: ts -> proxies (store_ P) !! p = Some x -> node x = Some n -> modify p o P = (P', Ok tt) ->
  exists s1, ObjectStore.mark_modified p (store_ P) = Ok s1 /\ proxies s1 = proxies (store_ P)
    /\ P' = set_store (set_object p x o s1) (set_identifiers (map_insert_new p (pk x) (proxy_identifier_map_ P)) P).
Proof.
  intros Ht Hx Hn. unfold modify, Session.mark_modified, proxy_at, mbind_, reading, changing, deref. rewrite Hx. unfold node_type at 1. rewrite Hn.
  assert (register_proxy_update p x P = set_identifiers (map_insert_new p (pk x) (proxy_identifier_map_ P)) P) as ->.
  { unfold register_proxy_update. cbv zeta. by rewrite (has_open (set_identifiers (map_insert_new p (pk x) (proxy_identifier_map_ P)) P) t ts Ht). }
  unfold on_store. cbn [store_ set_identifiers]. destruct (ObjectStore.mark_modified p (store_ P)) as [s1|] eqn:E; [|done].
  assert (proxies s1 = proxies (store_ P)) as Ep.
  { unfold ObjectStore.mark_modified in E. apply rbind_Ok in E as (y & _ & E). apply rbind_Ok in E as (ty & _ & E). unfold notify in E. rewrite Ht in E.
    destruct (tdata (store_ P) !! t); [|done]. apply rbind_Ok in E as (td & _ & [= <-]). done. }
  cbn [store_ set_store]. rewrite Ep, Hx. intros [= <-]. exists s1. split; [done |]. split; [done |]. unfold set_object. by rewrite Ep.
Qed.

Lemma modify_opened V0 t ts P td us i p x o o' P' :
  opened V0 t ts P td us -> object_map_ (store_ P) !! i = Some p -> proxies (store_ P) !! p = Some x -> obj x = Some o ->
  Forall2 same_attribute o o' -> object_ok o' -> modify p o' P = (P', Ok tt) -> exists td' us', opened V0 t ts P' td' us'.
Proof.
  intros [O1 O2 O3 O4 O5 O6 O7] Hi Hx Ho Hsame Ho' E. pose proof (tx_store _ _ _ _ _ _ O1) as Hs.
  destruct (ok_object _ Hs i p Hi) as (x' & _ & n & Hx' & Hid & _ & _ & Hn & _). assert (x' = x) as -> by congruence.
  destruct (modify_open P P' t ts p x n o' (tx_top _ _ _ _ _ _ O1) Hx Hn E) as (s1 & E1 & Ep & ->).
  destruct (update_step make_object V0 t ts (store_ P) td us i p x o o' s1 O1 Hi Hx Ho Hsame Ho' E1) as (td' & us' & O1').
  exists td', us'. unfold ObjectStore.mark_modified, deref, node_type in E1. rewrite Hx in E1. cbn [rbind] in E1. rewrite Hn in E1. cbn [rbind] in E1.
  apply (notify_open _ _ _ t ts td) in E1 as (td2 & E1 & ->); [|apply (tx_top _ _ _ _ _ _ O1) | apply (tx_data _ _ _ _ _ _ O1)].
  assert (td2 = td') as ->. { pose proof (tx_data _ _ _ _ _ _ O1') as H. cbn in H. rewrite lookup_insert_eq in H. congruence. }
  destruct (on_update_actions _ p td td' E1) as (A1 & A2 & A3). destruct (map_insert_new_spec p (pk x) (proxy_identifier_map_ P)) as (M1 & M2 & M3).
  constructor; cbn -[view map_insert_new]; try done.
  - intros q ty Hq%A1. destruct (O4 q ty Hq) as (y & Hy & Hty). destruct (decide (q = p)) as [-> | Hne].
    + exists (set_obj (Some o') x). rewrite lookup_insert_eq. split; [done | cbn; congruence].
    + exists y. by rewrite lookup_insert_ne.
  - intros q [Hq | ->]%A2; [|destruct M2 as [-> | [-> ?]]; eauto]. destruct (O5 q Hq) as [k Hk]. exists k. by eapply lookup_weaken.
  - intros q Hq y Hy. cbn in Hy. assert (good V0 P q) as Hg by (apply O6; destruct Hq as [Hq | Hq%A3]; [by left | by right]).
    apply lookup_insert_Some in Hy as [[<- <-] | [Hne Hy]]; [exact (Hg x Hx) | exact (Hg y Hy)].
  - intros q k y Hq [[<- <-] | [Hne Hy]]%lookup_insert_Some.
    + destruct M2 as [M2 | [M2 _]]; rewrite M2 in Hq; [by injection Hq as <- | exact (O7 p k x Hq Hx)].
    + rewrite M3 in Hq by done. by eapply O7.
Qed.

Lemma remove_open (P P' : persistence) t ts p :
  transactions_ (store_ P) = t :: ts -> store_ok (store_ P) -> in_store (store_ P) p -> remove p P = (P', Ok tt) ->
  exists s1, take_out p (store_ P) = Ok s1 /\ transactions_ s1 = t :: ts /\ tdata s1 = tdata (store_ P)
    /\ notify (fun h => on_delete h p) s1 = Ok (store_ P') /\ P' = set_store (store_ P') P /\ ObjectStore.remove p true (store_ P) = Ok (store_ P').
Proof.
  intros Ht Hs [i Hi] H. pose proof H as (s1 & E1 & H1)%remove_inv. destruct (take_out_without _ s1 i p Hs Hi E1) as (_ & [_ _ _ _ _ _ [T1 T2]] & _).
  assert (register_proxy_delete p (set_store s1 P) = set_store s1 P) as Er.
  { unfold register_proxy_delete. rewrite (has_open _ t ts); [done | cbn; congruence]. }
  cbn zeta in H1. rewrite Er, (has_open (set_store s1 P) t ts) in H1 by (cbn; congruence). unfold on_store in H1. cbn [store_ set_store] in H1.
  destruct (notify _ s1) as [s2|] eqn:En; [|done]. injection H1 as <-. exists s1. split_and!; try done; try congruence.
  unfold ObjectStore.remove. unfold remove, proxy_at, mbind_, reading in H. destruct (deref _ p) as [x|]; [|done]. cbn [rbind].
  case_bool_decide; [done |]. destruct (is_deletable p (store_ P)) as [[]|]; [|done|done]. cbn [rbind negb]. rewrite E1. cbn [rbind].
  by rewrite T1, Ht, En.
Qed.

Lemma remove_opened V0 t ts P td us i p P' :
  opened V0 t ts P td us -> object_map_ (store_ P) !! i = Some p -> is_Some (V0 !! i) -> remove p P = (P', Ok tt) ->
  exists td' us', opened V0 t ts P' td' us'.
Proof.
  intros [O1 O2 O3 O4 O5 O6 O7] Hi HV E. pose proof (tx_store _ _ _ _ _ _ O1) as Hs.
  destruct (remove_open P P' t ts p (tx_top _ _ _ _ _ _ O1) Hs (ex_intro _ i Hi) E) as (s1 & E1 & T1 & T2 & En & -> & Er).
  destruct (delete_step make_object V0 t ts (store_ P) td us i p true (store_ P') O1 Hi HV Er) as (td' & us' & O1'). exists td', us'.
  destruct (take_out_without _ s1 i p Hs Hi E1) as (Ep & [_ W2 _ _ W5 _ _] & _).
  apply (notify_open _ _ _ t ts td) in En as (td2 & En & Es); [|done | rewrite T2; apply (tx_data _ _ _ _ _ _ O1)].
  assert (td2 = td') as ->. { pose proof (tx_data _ _ _ _ _ _ O1') as H. rewrite Es in H. cbn in H. rewrite lookup_insert_eq in H. congruence. }
  destruct (on_delete_actions _ p td td' En) as (A1 & A2 & A3). rewrite Es in *. clear Es.
  constructor; cbn -[view]; rewrite ?Ep; try done.
  - unfold holds. setoid_rewrite (W5 : forall c, tb (set_transactions _ _ s1) c = _). exact O3.
  - intros q ty Hq%A1. by apply O4.
  - intros q Hq%A2. by apply O5.
  - intros q Hq y Hy. cbn in Hy. rewrite Ep in Hy. apply (O6 q); [|done]. destruct Hq as [[j Hj] | Hq].
    + left. exists j. cbn in Hj. rewrite W2 in Hj. by apply lookup_delete_Some in Hj as [_ ?].
    + apply A3 in Hq as [Hq | [(ty & j & Hq) | ->]]; [by right | | left; by exists i].
      left. exists j. apply list_elem_of_lookup in Hq as [k Hk]. destruct (Forall2_lookup_l _ _ _ _ _ (tx_actions _ _ _ _ _ _ O1) Hk) as (u & _ & Hu).
      destruct u as [|j' c o]; [done |]. destruct Hu as (-> & z & now & Hz & _). done.
Qed.

Lemma opened_steps V0 t ts P P' :
  rtc (session_step (fun i => is_Some (V0 !! i))) P P' -> (exists td us, opened V0 t ts P td us) -> exists td us, opened V0 t ts P' td us.
Proof.
  intros H. induction H as [|P P1 P' H _ IH]; [done |]. intros (td & us & HO). apply IH.
  inversion H; subst; [by eapply insert_opened | by eapply modify_opened | by eapply remove_opened].
Qed.

(** ** Writing the actions of a transaction *)

Definition puts (ids : list Z) (V W : objects) : objects := foldl (fun W i => put i V W) W ids.

Lemma lookup_puts ids V W j : puts ids V W !! j = if decide (j ∈ ids) then V !! j else W !! j.
Proof.
  unfold puts. revert W. induction ids as [|i ids IH]; intros W; cbn [foldl]; [done |]. rewrite IH, lookup_put.
  destruct (decide (j ∈ ids)); [by rewrite decide_True by set_solver |]. destruct (decide (j = i)) as [-> |]; [by rewrite decide_True by set_solver |].
  by rewrite decide_False by set_solver.
Qed.

Lemma apart_puts t ids V W : apart t W V -> apart t (puts ids V W) V.
Proof. unfold puts. revert W. induction ids as [|i ids IH]; intros W H; [done |]. cbn. by apply IH, apart_put. Qed.

Lemma puts_app ids ids' V W : puts (ids ++ ids') V W = puts ids' V (puts ids V W).
Proof. apply foldl_app. Qed.

Lemma undo_all_restored us V i cls o :
  NoDup (concat (undo_ids <$> us)) -> URestore i cls o ∈ us -> foldl undo V us !! i = Some (cls, o).
Proof.
  revert V. induction us as [|u us IH]; intros V Hnd Hu; [by apply elem_of_nil in Hu |].
  simpl in *. apply list.NoDup_app in Hnd as (_ & Hd & Hnd). apply elem_of_cons in Hu as [<- | Hu]; [|by apply IH].
  rewrite (undo_all_untouched make_object) by (apply Hd; cbn; set_solver). apply lookup_insert_eq.
Qed.

Section Visit.
Context (V0 : objects) (t : Z) (ts : list Z) (P : persistence) (td : transaction_data (B := B)) (us : list undo_step).
Context (HO : opened V0 t ts P td us) (Hk : keyed (store_ P)).
Abbreviation V := (view (store_ P)).
(** The store with the first [k] actions marked. *)
Definition marks (k : nat) : object_store (B := B) (R := R) :=
  set_transactions (transactions_ (store_ P))
    (alter (fun td => TData ((mark_deleted <$> take k (actions_ td)) ++ drop k (actions_ td)) (id_action_index_map_ td) (object_buffer_ td)) t
       (tdata (store_ P))) (store_ P).
Abbreviation at_conn k d := (set_store (marks k) (set_connection d P)).
Abbreviation rows := (holds (tb (store_ P)) (tables_ P)).

Lemma insert_all_spec ty l ids k : forall W d,
  Forall2 (fun p i => object_map_ (store_ P) !! i = Some p) l ids -> NoDup ids -> (forall i, i ∈ ids -> W !! i = None) ->
  (forall p, p ∈ l -> exists x, proxies (store_ P) !! p = Some x /\ node x = Some ty) -> is_Some (tables_ P !! ty) ->
  rows d W -> apart (tb (store_ P)) W V ->
  exists d', insert_all ty l (at_conn k d) = (at_conn k d', Ok tt) /\ rows d' (puts ids V W).
Proof using HO Hk make_object.
  revert ids. induction l as [|p l IH]; intros ids W d Hl Hnd HW Hty Htab Hd Ha.
  - apply Forall2_nil_inv_l in Hl as ->. by exists d.
  - apply Forall2_cons_inv_l in Hl as (i & ids' & Hi & Hl & ->). apply list.NoDup_cons in Hnd as [Hni Hnd].
    destruct (ok_object _ (tx_store _ _ _ _ _ _ (od_inv _ _ _ _ _ _ HO)) i p Hi) as (x & o & n & Hx & Hid & Ho & _ & Hn & Hfind & _).
    destruct (Hty p) as (x' & Hx' & Hn'); [left |]. assert (x' = x) as -> by congruence. assert (n = ty) as -> by congruence.
    destruct (exec_spec (tb (store_ P)) (tables_ P) W V i (OpInsert ty o) d Hd Ha) as (d1 & E1 & Hd1).
    { split; [done |]. split; [apply HW; left |]. split; [by eapply Hk |]. exists (classname x). split; [by eapply stored_view |]. unfold tb. by rewrite Hfind. }
    destruct (IH ids' (put i V W) d1 Hl Hnd) as (d2 & E2 & Hd2); try done.
    + intros j Hj. rewrite lookup_put, decide_False by (intros ->; done). apply HW. by right.
    + intros q Hq. apply Hty. by right.
    + by apply apart_put.
    + exists d2. split; [|done]. cbn [insert_all]. unfold mbind_. rewrite (table_insert_run (at_conn k d) ty p x o Hx Ho).
      rewrite (on_connection_ok _ (at_conn k d) d1 E1). exact E2.
Qed.

Lemma marks_next k a : actions_ td !! k = Some a ->
  marks (S k) = set_transactions (transactions_ (marks k)) (alter (mark_at k) t (tdata (marks k))) (marks k).
Proof using HO.
  intros Ha. unfold marks, set_transactions. cbn. f_equal. apply map_eq. intros j.
  destruct (decide (j = t)) as [-> | Hj]; [|by rewrite !lookup_alter_ne].
  rewrite !lookup_alter_eq, (tx_data _ _ _ _ _ _ (od_inv _ _ _ _ _ _ HO)). cbn. f_equal. unfold mark_at. cbn. f_equal.
  assert (k < length (actions_ td)) as Hk' by by eapply lookup_lt_Some.
  rewrite (take_S_r _ _ _ Ha), (drop_S _ _ _ Ha), fmap_app, <- app_assoc. cbn.
  rewrite alter_app_r_alt by (rewrite length_fmap, length_take; lia). rewrite length_fmap, length_take, Nat.min_l, Nat.sub_diag by lia. done.
Qed.

Lemma marks_same k a : actions_ td !! k = Some a -> mark_deleted a = a -> marks (S k) = marks k.
Proof using HO.
  intros Ha Hm. unfold marks. f_equal. apply map_eq. intros j.
  destruct (decide (j = t)) as [-> | Hj]; [|by rewrite !lookup_alter_ne].
  rewrite !lookup_alter_eq, (tx_data _ _ _ _ _ _ (od_inv _ _ _ _ _ _ HO)). cbn. do 2 f_equal.
  rewrite (take_S_r _ _ _ Ha), (drop_S _ _ _ Ha), fmap_app, <- app_assoc. cbn. by rewrite Hm.
Qed.

(** The visit of the action at [k]: where its objects are as they were when
    the transaction began, they are written as they are now. *)

Lemma visit_spec k a u W d :
  actions_ td !! k = Some a -> us !! k = Some u -> (forall i, i ∈ undo_ids u -> W !! i = V0 !! i) -> rows d W -> apart (tb (store_ P)) W V ->
  exists d', visit t k a (at_conn k d) = (at_conn (S k) d', Ok tt) /\ rows d' (puts (undo_ids u) V W).
Proof using HO Hk make_object.
  intros Ha Hu HW Hd Hap. pose proof (marks_next k a Ha) as Hnext. pose proof (marks_same k a Ha) as Hsame. pose proof HO as [O1 _ _ O4 O5 O6 O7]. pose proof (tx_store _ _ _ _ _ _ O1) as Hs.
  pose proof (tx_nodup _ _ _ _ _ _ O1) as Hnd. pose proof (tx_undo _ _ _ _ _ _ O1) as Hundo.
  pose proof (Forall2_lookup_lr _ _ _ _ _ _ (tx_actions _ _ _ _ _ _ O1) Ha Hu) as Hok. apply list_elem_of_lookup_2 in Ha, Hu.
  destruct a as [ty l | p ty i | ty i p b], u as [ids | j cls o]; try done; cbn [visit undo_ids]; try rewrite (Hsame eq_refl).
  - assert (NoDup ids) as Hnd1. { apply list_elem_of_split in Hu as (u1 & u2 & ->). rewrite fmap_app, concat_app in Hnd. cbn in Hnd.
      apply list.NoDup_app in Hnd as (_ & _ & Hnd). by apply list.NoDup_app in Hnd as (? & _ & _). }
    destruct (tables_ P !! ty) as [bb|] eqn:Et.
    + destruct (insert_all_spec ty l ids k W d Hok Hnd1) as (d' & E & Hd'); [| | by rewrite Et | done | done |].
      * intros i Hi. rewrite HW by done. rewrite <- Hundo. by eapply (undo_all_deleted make_object).
      * intros p Hp. apply O4. by exists l.
      * exists d'. unfold mbind_, get. cbn [tables_ set_connection set_store]. by rewrite Et, E.
    + exists d. unfold mbind_, get. cbn [tables_ set_connection set_store]. rewrite Et. split; [done |]. destruct l as [|p l].
      * apply Forall2_nil_inv_l in Hok as ->. done.
      * apply Forall2_cons_inv_l in Hok as (i & ids' & Hi & _). destruct (O4 p ty) as (x & Hx & Hn); [exists (p :: l); split; [done | left] |].
        destruct (O6 p) with x as [_ Ht]; [left; by exists i | done |]. destruct (Ht ty Hn). congruence.
  - destruct Hok as (-> & x & now & Hi & Hx & Hcls & Hnow & _ & _).
    destruct (ok_object _ Hs j p Hi) as (x' & _ & n & Hx' & Hid & _ & _ & Hn & Hfind & _). assert (x' = x) as -> by congruence.
    assert (V0 !! j = Some (cls, o)) as HV0 by (rewrite <- Hundo; by apply undo_all_restored).
    destruct (O6 p) with x as [Hg Htab]; [left; by exists j | done |]. rewrite Hid in Hg. destruct (Hg cls o HV0) as [Hs0 Hkey].
    destruct (O5 p) as [kk Hkk]; [by exists ty, j |].
    destruct (exec_spec (tb (store_ P)) (tables_ P) W V j (OpUpdate n now kk) d Hd Hap) as (d1 & E1 & Hd1).
    { split; [by apply Htab |]. exists cls, o. rewrite HW by (by left). split_and!; try done.
      - rewrite <- Hcls. by eapply stored_view.
      - unfold tb. by rewrite <- Hcls, Hfind.
      - by rewrite <- Hkey; eapply O7.
      - rewrite <- Hkey. symmetry. by eapply Hk. }
    exists d1. split; [|exact Hd1]. unfold mbind_. rewrite (table_of_found (at_conn k d) p x n Hx Hn) by by apply Htab.
    by rewrite (table_update_run (at_conn k d) n p x now kk Hx Hnow Hkk), (on_connection_ok _ (at_conn k d) d1 E1).
  - destruct Hok as (-> & _ & Hi & x & now & n & Hx & Hid & _ & Hcls & Hnow & _ & _ & _ & Hn & Hfind).
    assert (V0 !! j = Some (cls, o)) as HV0 by (rewrite <- Hundo; by apply undo_all_restored).
    destruct (O6 p) with x as [Hg Htab]; [right; by exists ty, j, b | done |]. rewrite Hid in Hg. destruct (Hg cls o HV0) as [Hs0 Hkey].
    destruct (exec_spec (tb (store_ P)) (tables_ P) W V j (OpDelete n (pk x)) d Hd Hap) as (d1 & E1 & Hd1).
    { split; [by apply Htab |]. exists cls, o. rewrite HW by (by left). split_and!; try done; [by rewrite lookup_view, Hi |].
      unfold tb. by rewrite Hfind. }
    exists d1. split; [|exact Hd1]. unfold mbind_. rewrite (table_of_found (at_conn k d) p x n Hx Hn) by by apply Htab.
    rewrite (table_remove_run (at_conn k d) n p x now Hx Hnow), (on_connection_ok _ (at_conn k d) d1 E1).
    unfold mark_action, changing. by rewrite Hnext.
Qed.

Lemma visit_all_spec acts : forall k W d,
  drop k (actions_ td) = acts -> (forall i, i ∈ concat (undo_ids <$> drop k us) -> W !! i = V0 !! i) -> rows d W -> apart (tb (store_ P)) W V ->
  exists d', visit_all t k acts (at_conn k d) = (at_conn (k + length acts) d', Ok tt) /\ rows d' (puts (concat (undo_ids <$> drop k us)) V W).
Proof using HO Hk make_object.
  pose proof (od_inv _ _ _ _ _ _ HO) as O1. pose proof (tx_actions _ _ _ _ _ _ O1) as Hact.
  induction acts as [|a acts IH]; intros k W d Ek HW Hd Ha.
  - assert (length us <= k) as Hlen.
    { rewrite <- (Forall2_length Hact). apply (f_equal length) in Ek. rewrite length_drop in Ek. cbn in Ek. lia. }
    rewrite drop_ge by done. exists d. by rewrite Nat.add_0_r.
  - assert (actions_ td !! k = Some a) as Hka by (rewrite <- (Nat.add_0_r k), <- lookup_drop, Ek; done).
    assert (drop (S k) (actions_ td) = acts) as Ek' by (rewrite (drop_S _ _ _ Hka) in Ek; by injection Ek).
    destruct (Forall2_lookup_l _ _ _ _ _ Hact Hka) as (u & Hu & _). rewrite (drop_S _ _ _ Hu) in HW |- *. cbn [fmap list_fmap concat] in HW |- *.
    destruct (visit_spec k a u W d Hka Hu) as (d1 & E1 & Hd1); [intros i Hi; apply HW, elem_of_app; by left | done | done |].
    destruct (IH (S k) (puts (undo_ids u) V W) d1 Ek') as (d2 & E2 & Hd2).
    + intros i Hi. rewrite lookup_puts, decide_False; [apply HW, elem_of_app; by right |]. intros Hi'.
      pose proof (tx_nodup _ _ _ _ _ _ O1) as Hnd. rewrite <- (take_drop k us), (drop_S _ _ _ Hu), fmap_app, concat_app in Hnd.
      apply list.NoDup_app in Hnd as (_ & _ & Hnd). cbn in Hnd. apply list.NoDup_app in Hnd as (_ & Hnd & _). by apply (Hnd i).
    + done.
    + by apply apart_puts.
    + exists d2. rewrite puts_app. split; [|done]. cbn [visit_all length]. unfold mbind_. rewrite E1, E2. by rewrite <- plus_n_Sm.
Qed.
End Visit.

(** ** Commit and rollback *)

Definition begun (t : Z) (P : persistence) : persistence := set_store (ObjectStore.begin_ t (store_ P)) P.

Lemma opened_begin t P :
  synced P -> tdata (store_ P) !! t = Some tdata0 -> opened (view (store_ P)) t [] (begun t P) tdata0 [].
Proof.
  intros [S1 S2 S3 S4 S5 S6 S7] Ht. constructor; try done.
  - rewrite <- S2. by apply tx_inv_begin.
  - intros p ty (l & H%elem_of_nil & _). done.
  - intros p (ty & i & H%elem_of_nil). done.
  - intros p [[i Hi] | (ty & i & b & H%elem_of_nil)]; [|done]. intros x Hx. cbn in Hi, Hx.
    destruct (ok_object _ S1 i p Hi) as (x' & o & n & Hx' & Hid & Ho & _). assert (x' = x) as -> by congruence. split.
    + intros cls o0 Hv. rewrite Hid, (stored_view _ i p x o Hi Hx Ho) in Hv. injection Hv as <- <-. by eapply S5.
    + intros m Hm. by eapply (S6 i p).
Qed.

Lemma opened_same V0 t ts P P' td us :
  opened V0 t ts P td us -> store_ P' = store_ P -> tables_ P' = tables_ P -> proxy_change_queue_ P' = proxy_change_queue_ P ->
  proxy_identifier_map_ P' = proxy_identifier_map_ P -> (forall u k, db_row (connection_ P') u k = db_row (connection_ P) u k) -> opened V0 t ts P' td us.
Proof.
  intros [O1 O2 O3 O4 O5 O6 O7] E1 E2 E3 E4 E5. constructor; rewrite ?E1, ?E2, ?E3, ?E4; try done.
  - by eapply holds_ext.
  - intros p Hp x Hx. rewrite E1 in Hx. rewrite E2. by apply (O6 p Hp x).
Qed.

Lemma marked_after acts : marked (mark_deleted <$> acts) = omap (fun a => match a with DeleteAction _ _ p _ => Some p | _ => None end) acts.
Proof. unfold marked. induction acts as [|a acts IH]; [done |]. cbn [fmap list_fmap omap list_omap]. rewrite IH. by destruct a. Qed.

(** Marking changes the data of the transaction only, which [cleanup] forgets. *)
Lemma delete_proxies_transactions l v d (s : object_store (B := B) (R := R)) :
  foldl (fun s p => ObjectStore.delete_proxy p s) (set_transactions v d s) l
  = set_transactions v d (foldl (fun s p => ObjectStore.delete_proxy p s) s l).
Proof. revert s. induction l as [|p l IH]; intros s; [done |]. cbn. rewrite <- IH. done. Qed.

Lemma cleanup_marks (P : persistence) t td k l s2 : tdata (store_ P) !! t = Some td ->
  cleanup t (foldl (fun s p => ObjectStore.delete_proxy p s) (store_ P) l) = Ok s2 ->
  cleanup t (foldl (fun s p => ObjectStore.delete_proxy p s) (marks t P k) l) = Ok s2.
Proof.
  intros Ht. unfold marks. rewrite delete_proxies_transactions. unfold cleanup. cbn.
  assert (transactions_ (foldl (fun s p => ObjectStore.delete_proxy p s) (store_ P) l) = transactions_ (store_ P)
    /\ tdata (foldl (fun s p => ObjectStore.delete_proxy p s) (store_ P) l) = tdata (store_ P)) as [E1 E2].
  { generalize (store_ P). induction l as [|p l IH]; intros s; [done |]. cbn. destruct (IH (ObjectStore.delete_proxy p s)) as [-> ->]. done. }
  rewrite E1. destruct (transactions_ (store_ P)) as [|t' ts]; [done |]. intros [= <-]. f_equal. unfold set_transactions. cbn. f_equal.
  rewrite E2. apply map_eq. intros j. destruct (decide (j = t)) as [-> | Hj]; [by rewrite !lookup_insert_eq |].
  by rewrite !lookup_insert_ne, lookup_alter_ne.
Qed.

Lemma marks_0 (P : persistence) t td : tdata (store_ P) !! t = Some td -> marks t P 0 = store_ P.
Proof.
  intros Ht. unfold marks, set_transactions. destruct (store_ P) as [f1 f2 f3 f4 f5 f6 f7 f8] eqn:E; cbn in *. f_equal.
  apply map_eq. intros j. destruct (decide (j = t)) as [-> | Hj]; [|by rewrite lookup_alter_ne].
  rewrite lookup_alter_eq, Ht. cbn. by destruct td.
Qed.

Lemma marks_all (P : persistence) t td : tdata (store_ P) !! t = Some td ->
  exists td', tdata (marks t P (length (actions_ td))) !! t = Some td' /\ actions_ td' = mark_deleted <$> actions_ td.
Proof.
  intros Ht. eexists. split; [unfold marks; cbn; by rewrite lookup_alter_eq, Ht |]. cbn. by rewrite take_ge, drop_ge, app_nil_r.
Qed.

Lemma commit_run t (P : persistence) td d s2 : tdata (store_ P) !! t = Some td ->
  let Pc := set_committing true P in
  visit_all t 0 (actions_ td) (set_store (marks t Pc 0) (set_connection (db_begin (connection_ P)) Pc))
    = (set_store (marks t Pc (length (actions_ td))) (set_connection d Pc), Ok tt) ->
  ObjectStore.commit t (store_ P) = Ok s2 ->
  commit t P = (set_store s2 (set_committing false (set_connection (db_commit d) Pc)), Ok tt).
Proof.
  intros Ht Pc Ev Ec. rewrite (marks_0 Pc t td Ht) in Ev. destruct (marks_all Pc t td Ht) as (td' & Ht' & Ea).
  unfold commit, mbind_ at 1, changing at 1. fold Pc. unfold mbind_ at 1, data_of at 1, reading at 1. change (tdata (store_ Pc)) with (tdata (store_ P)).
  rewrite Ht. unfold mbind_ at 1, on_commit, mbind_ at 1 2, changing at 1. change (connection_ Pc) with (connection_ P).
  change (set_connection (db_begin (connection_ P)) Pc) with (set_store (store_ Pc) (set_connection (db_begin (connection_ P)) Pc)). rewrite Ev.
  unfold changing, mbind_, data_of, reading. cbn [store_ set_committing set_connection set_store]. rewrite Ht', Ea, marked_after.
  unfold on_store. cbn [store_ set_committing set_connection set_store].
  unfold ObjectStore.commit in Ec. rewrite Ht in Ec. by rewrite (cleanup_marks Pc t td _ _ s2 Ht Ec).
Qed.

(** C6: [commit] of a transaction that began when store and database agreed,
    and in which objects were inserted and changed, and objects that were
    there before it removed: it succeeds and the tables have the objects of
    the store as rows afterwards; the transaction can be used again. The
    objects are of classes with tables, have no references and no [char]
    arrays, have different keys and keep them ([changed_key_not_removed]); a
    key of an object that was removed is not given to a new one ([apart],
    [replaced_after_insert]); a new proxy has an address no identifier was
    remembered for ([stale_identifier]); what is removed was there before the
    transaction ([ObjectStore.stale_action_index]). *)
Theorem session_commit t P0 P1 :
  synced P0 -> tdata (store_ P0) !! t = Some tdata0 -> rtc (session_step (fun i => is_Some (view (store_ P0) !! i))) (begun t P0) P1 ->
  keyed (store_ P1) -> apart (tb (store_ P1)) (view (store_ P0)) (view (store_ P1)) ->
  exists P2, commit t P1 = (P2, Ok tt) /\ synced P2 /\ view (store_ P2) = view (store_ P1) /\ tdata (store_ P2) !! t = Some tdata0.
Proof.
  intros HS Ht Hsteps Hk Ha.
  destruct (opened_steps _ t [] _ _ Hsteps (ex_intro _ tdata0 (ex_intro _ [] (opened_begin t P0 HS Ht)))) as (td & us & HO).
  pose proof (od_inv _ _ _ _ _ _ HO) as HT. set (Pc := set_committing true P1).
  assert (opened (view (store_ P0)) t [] Pc td us) as HOc by by apply (opened_same _ _ _ P1 Pc).
  destruct (visit_all_spec (view (store_ P0)) t [] Pc td us HOc Hk (actions_ td) 0 (view (store_ P0)) (db_begin (connection_ P1))) as (d & Ev & Hd); try done.
  { eapply holds_ext; [|exact (od_rows _ _ _ _ _ _ HO)]. intros u k. apply db_begin_spec. }
  destruct (commit_spec _ t [] (store_ P1) td us HT) as (s2 & Ec & Ev2 & Hs2 & T1 & T2 & Em & Esub & Efind).
  assert (puts (concat (undo_ids <$> us)) (view (store_ P1)) (view (store_ P0)) = view (store_ P1)) as Eputs.
  { apply map_eq. intros i. rewrite lookup_puts. case_decide as Hi; [done |]. rewrite <- (tx_undo _ _ _ _ _ _ HT). by apply (undo_all_untouched make_object). }
  rewrite drop_0 in Hd. change (view (store_ Pc)) with (view (store_ P1)) in Hd. rewrite Eputs in Hd.
  exists (set_store s2 (set_committing false (set_connection (db_commit d) Pc))). split.
  { by apply (commit_run t P1 td d s2 (tx_data _ _ _ _ _ _ HT)). }
  assert (forall cls, tb s2 cls = tb (store_ P1) cls) as Etb by (intros cls; unfold tb; by rewrite Efind).
  split; [|split; [exact Ev2 | exact T2]]. constructor; cbn -[view].
  - done.
  - done.
  - exact (od_queue _ _ _ _ _ _ HO).
  - rewrite Ev2. unfold holds in *. setoid_rewrite Etb. intros u k o Hu. rewrite db_commit_spec. by apply Hd.
  - intros i p x o Hi Hx Ho. rewrite Em in Hi. eapply Hk; [exact Hi | by eapply lookup_weaken | exact Ho].
  - intros i p x n Hi Hx Hn. rewrite Em in Hi. destruct (od_good _ _ _ _ _ _ HO p (or_introl (ex_intro _ i Hi)) x) as [_ Hg]; [by eapply lookup_weaken | by apply Hg].
  - intros p k x Hp Hx. eapply (od_identifiers _ _ _ _ _ _ HO); [exact Hp | by eapply lookup_weaken].
Qed.

(** What visits can change: the rows, not what they were at the beginning, and
    the marks of the actions of the transaction. *)
Definition may_mark (td td' : transaction_data (B := B)) : Prop :=
  Forall2 (fun a a' => a' = a \/ a' = mark_deleted a) (actions_ td) (actions_ td')
  /\ id_action_index_map_ td' = id_action_index_map_ td /\ object_buffer_ td' = object_buffer_ td.

Lemma may_mark_refl td : may_mark td td.
Proof. split; [|done]. induction (actions_ td); constructor; auto. Qed.
Lemma may_mark_trans td1 td2 td3 : may_mark td1 td2 -> may_mark td2 td3 -> may_mark td1 td3.
Proof.
  intros (H1 & E1 & F1) (H2 & E2 & F2). split; [|split; congruence]. revert H2. generalize (actions_ td3). induction H1 as [|a a' l l' Ha H1 IH]; intros l'' H2.
  - apply Forall2_nil_inv_l in H2 as ->. constructor.
  - apply Forall2_cons_inv_l in H2 as (a'' & l3 & Ha' & H2 & ->). constructor; [|by apply IH].
    assert (mark_deleted (mark_deleted a) = mark_deleted a) as Em by by destruct a.
    destruct Ha as [-> | ->], Ha' as [-> | ->]; auto.
Qed.
Lemma may_mark_none td td' : may_mark td td' -> marked (actions_ td') = [] -> td' = td.
Proof.
  intros (H & E1 & E2) Hm. destruct td as [l m b], td' as [l' m' b']. cbn in *. subst. f_equal. induction H as [|a a' l l' Ha H IH]; [done |].
  assert (a' = a) as ->. { destruct Ha as [-> | ->]; [done |]. by destruct a as [| | c i p []]. }
  f_equal. apply IH. by destruct a as [| | c i p []].
Qed.

Definition writes (t : Z) (P P' : persistence) : Prop :=
  (exists g, (forall td, may_mark td (g td))
    /\ store_ P' = set_transactions (transactions_ (store_ P)) (alter g t (tdata (store_ P))) (store_ P))
  /\ P' = set_store (store_ P') (set_connection (connection_ P') P) /\ forall u k, db_saved (connection_ P') u k = db_saved (connection_ P) u k.

Lemma alter_same g (s : object_store (B := B) (R := R)) t : (forall td, tdata s !! t = Some td -> g td = td) ->
  s = set_transactions (transactions_ s) (alter g t (tdata s)) s.
Proof.
  unfold set_transactions. destruct s as [f1 f2 f3 f4 f5 f6 f7 f8]. cbn. intros Hg. f_equal. apply map_eq. intros j.
  destruct (decide (j = t)) as [-> | Hj]; [rewrite lookup_alter_eq | by rewrite lookup_alter_ne].
  destruct (f8 !! t) as [td|]; [|done]. cbn. by rewrite Hg.
Qed.

Lemma writes_refl t P : writes t P P.
Proof.
  split; [|split; [by destruct P | done]]. exists (fun td => td). split; [intros td; apply may_mark_refl | by apply alter_same].
Qed.
Lemma writes_trans t P1 P2 P3 : writes t P1 P2 -> writes t P2 P3 -> writes t P1 P3.
Proof.
  intros ((g & G1 & S1) & E1 & H1) ((h & G2 & S2) & E2 & H2). split; [|split].
  - exists (h ∘ g). split; [intros td; eapply may_mark_trans; [apply G1 | apply G2] |]. rewrite S2, S1. unfold set_transactions. cbn. f_equal.
    apply map_eq. intros j. destruct (decide (j = t)) as [-> | Hj]; [|by rewrite !lookup_alter_ne].
    rewrite !lookup_alter_eq. by destruct (tdata (store_ P1) !! t).
  - rewrite E2, E1. by destruct P3.
  - intros u k. by rewrite H2, H1.
Qed.

Definition writing (t : Z) {A} (m : M A) : Prop := forall P P' r, m P = (P', r) -> writes t P P'.

Section Writing.
Context (tx : Z).
Abbreviation writing := (writing tx).

Lemma writing_connection o : writing (on_connection (exec o)).
Proof.
  intros P P' r. unfold on_connection. destruct (exec o (connection_ P)) as [d|] eqn:E; intros [= <- <-]; [|apply writes_refl]. split; [|split; [by destruct P |]].
  - exists (fun td => td). split; [intros td; apply may_mark_refl | by apply alter_same].
  - intros u k. cbn. apply db_saved_spec. destruct o; cbn in E; eauto 10.
Qed.
Lemma writing_bind {A C} (m : M A) (f : A -> M C) : writing m -> (forall a, writing (f a)) -> writing (mbind_ m f).
Proof.
  intros Hm Hf P P' r. unfold mbind_. destruct (m P) as [P1 [a|e]] eqn:E; [|intros [= <- <-]; by eapply Hm].
  intros E'. eapply writes_trans; [by eapply Hm | by eapply Hf].
Qed.
Lemma writing_reading {A} (f : persistence -> result A) : writing (reading f).
Proof. intros P P' r [= <- <-]. apply writes_refl. Qed.
Lemma writing_get {A} (f : persistence -> A) : writing (get f).
Proof. intros P P' r [= <- <-]. apply writes_refl. Qed.
Lemma writing_ret {A} (a : A) : writing (ret a).
Proof. intros P P' r [= <- <-]. apply writes_refl. Qed.
Lemma writing_raise {A} (e : exn) : writing (raise (A := A) e).
Proof. intros P P' r [= <- <-]. apply writes_refl. Qed.
Lemma writing_proxy_at p : writing (proxy_at p).
Proof. apply writing_reading. Qed.
#[local] Hint Resolve writing_proxy_at writing_connection writing_bind writing_reading writing_get writing_ret writing_raise : session.

Lemma writing_table_insert t p : writing (table_insert t p).
Proof. repeat (apply writing_bind; [auto with session | intros ?]). exact (writing_connection (OpInsert t _)). Qed.
Lemma writing_table_update t p : writing (table_update t p).
Proof.
  apply writing_bind; [auto with session |]. intros [i|]; [|auto with session].
  repeat (apply writing_bind; [auto with session | intros ?]). exact (writing_connection (OpUpdate t _ i)).
Qed.
Lemma writing_table_remove t p : writing (table_remove t p).
Proof. repeat (apply writing_bind; [auto with session | intros ?]). exact (writing_connection (OpDelete t _)). Qed.
Lemma writing_table_of p : writing (table_of p).
Proof. repeat (apply writing_bind; [auto with session | intros ?]). auto with session. Qed.
Lemma writing_insert_all t l : writing (insert_all t l).
Proof. induction l as [|p l IH]; [apply writing_ret |]. apply writing_bind; [apply writing_table_insert | done]. Qed.
#[local] Hint Resolve writing_table_update writing_table_remove writing_table_of writing_insert_all : session.

Lemma writing_mark k : writing (mark_action tx k).
Proof.
  intros P P' r [= <- <-]. split; [|split; [by destruct P | done]]. exists (mark_at k). split; [|done]. intros td. split; [|done]. cbn.
  revert k. induction (actions_ td) as [|a l IH]; intros k; [constructor |].
  destruct k as [|k]; (constructor; [by auto |]); [clear; induction l; constructor; auto | apply IH].
Qed.
#[local] Hint Resolve writing_mark : session.

Lemma writing_visit k a : writing (visit tx k a).
Proof.
  destruct a; cbn [visit]; (apply writing_bind; [auto with session |]); intros []; auto with session.
Qed.
Lemma writing_visit_all k acts : writing (visit_all tx k acts).
Proof.
  revert k. induction acts as [|a acts IH]; intros k; [apply writing_ret |]. apply writing_bind; [apply writing_visit |]. intros a'. apply IH.
Qed.
End Writing.

(** A commit that throws has left the store alone, up to the marks of the
    actions, and the database can go back to its beginning. *)
Lemma commit_throws t (P P' : persistence) e td :
  tdata (store_ P) !! t = Some td -> transactions_ (store_ P) <> [] -> commit t P = (P', Throw e) ->
  committing_ P' = true /\ tables_ P' = tables_ P /\ proxy_change_queue_ P' = proxy_change_queue_ P
  /\ (exists g, may_mark td (g td) /\ store_ P' = set_transactions (transactions_ (store_ P)) (alter g t (tdata (store_ P))) (store_ P))
  /\ forall u k, db_saved (connection_ P') u k = db_row (connection_ P) u k.
Proof.
  intros Ht Htx. unfold commit, mbind_ at 1, changing at 1. unfold mbind_ at 1, data_of at 1, reading at 1. cbn [store_ set_committing]. rewrite Ht.
  unfold on_commit, mbind_, changing. set (Pb := set_connection _ _).
  destruct (visit_all t 0 (actions_ td) Pb) as [P1 [[]|e1]] eqn:Ev; destruct (writing_visit_all t _ _ _ _ _ Ev) as ((g & G & E0) & E1 & E2).
  - intros E. exfalso. unfold data_of, reading in E. cbn [store_ set_committing set_connection] in E. rewrite E0 in E.
    cbn [tdata set_transactions Pb store_ set_connection set_committing] in E. rewrite lookup_alter_eq, Ht in E. cbn [fmap option_fmap option_map] in E.
    unfold on_store in E. cbn [store_ set_committing set_connection] in E. rewrite E0, delete_proxies_transactions in E. unfold cleanup in E. cbn in E.
    destruct (transactions_ (store_ P)); done.
  - intros [= <- <-]. rewrite E1. split_and!; try done. exists g. split; [apply G |]. cbn. by rewrite E0.
    intros u k. cbn. rewrite E2. apply db_begin_spec.
Qed.

Lemma step_committing rm (P P' : persistence) : session_step rm P P' -> committing_ P' = committing_ P.
Proof.
  intros H. inversion H; subst; clear H; match goal with H : _ = (P', Ok tt) |- _ => revert H end.
  - unfold insert, mbind_, on_store, changing. destruct (ObjectStore.insert _ _ _); [|done]. intros [= <-]. unfold register_proxy_insert. by repeat case_match.
  - unfold modify, Session.mark_modified, proxy_at, mbind_, reading, changing, on_store, register_proxy_update. repeat (case_match; simplify_eq); by intros [= <-].
  - intros (s1 & _ & Hr)%remove_inv. cbn zeta in Hr.
    assert (committing_ (register_proxy_delete p (set_store s1 P)) = committing_ P) as E by (unfold register_proxy_delete; by repeat case_match).
    destruct (has_transaction _); [|by rewrite Hr]. unfold on_store in Hr. case_match; [|done]. injection Hr as <-. exact E.
Qed.

Lemma steps_committing rm (P P' : persistence) : rtc (session_step rm) P P' -> committing_ P' = committing_ P.
Proof. intros H. induction H as [|P P1 P' H _ IH]; [done |]. rewrite IH. by eapply step_committing. Qed.

(** C8: [rollback] of a transaction that began when store and database agreed,
    before its commit, or after a commit that failed before it had removed a
    row: the store has the objects it had when the transaction began, and the
    tables have them as rows. (A row that was removed leaves its action
    marked, and undoing a marked action frees the proxy that was put back, see
    [rollback_after_removal].) In the transaction objects were inserted and
    changed, and objects that were there before it removed
    ([ObjectStore.stale_action_index]); they have no references and no [char]
    arrays, and new proxies have addresses no identifier was remembered for.
    *)
Theorem session_rollback t P0 P1 P2 :
  synced P0 -> committing_ P0 = false -> tdata (store_ P0) !! t = Some tdata0 ->
  rtc (session_step (fun i => is_Some (view (store_ P0) !! i))) (begun t P0) P1 ->
  P2 = P1 \/ (exists e td2, commit t P1 = (P2, Throw e) /\ tdata (store_ P2) !! t = Some td2 /\ marked (actions_ td2) = []) ->
  exists P3, rollback make_object t P2 = (P3, Ok tt) /\ view (store_ P3) = view (store_ P0) /\ store_ok (store_ P3)
    /\ transactions_ (store_ P3) = [] /\ proxy_change_queue_ P3 = [] /\ holds (tb (store_ P3)) (tables_ P3) (connection_ P3) (view (store_ P3)).
Proof.
  intros HS Hc Ht Hsteps HP2.
  destruct (opened_steps _ t [] _ _ Hsteps (ex_intro _ tdata0 (ex_intro _ [] (opened_begin t P0 HS Ht)))) as (td & us & HO).
  pose proof (od_inv _ _ _ _ _ _ HO) as HT.
  assert (committing_ P1 = false) as Hc1 by by rewrite (steps_committing _ _ _ Hsteps).
  assert (store_ P2 = store_ P1 /\ tables_ P2 = tables_ P1 /\ proxy_change_queue_ P2 = []
    /\ forall u k, db_row (if committing_ P2 then db_rollback (connection_ P2) else connection_ P2) u k = db_row (connection_ P1) u k) as (E1 & E2 & E3 & E4).
  { destruct HP2 as [-> | (e & td2 & E & Ht2 & Hm)]; [rewrite Hc1; split_and!; try done; exact (od_queue _ _ _ _ _ _ HO) |].
    destruct (commit_throws t P1 P2 e td (tx_data _ _ _ _ _ _ HT)) as (C1 & C3 & C4 & (g & G & C2) & C5); [by rewrite (tx_top _ _ _ _ _ _ HT) | done |].
    rewrite C1. split_and!; [|done | rewrite C4; exact (od_queue _ _ _ _ _ _ HO) | intros u k; by rewrite db_rollback_spec].
    rewrite C2 in Ht2. cbn in Ht2. rewrite lookup_alter_eq, (tx_data _ _ _ _ _ _ HT) in Ht2. injection Ht2 as <-.
    rewrite C2. symmetry. apply alter_same. intros td' Htd'. rewrite (tx_data _ _ _ _ _ _ HT) in Htd'. injection Htd' as <-.
    by apply may_mark_none. }
  destruct (rollback_spec make_object _ t [] (store_ P1) td us HT) as (s3 & Er & Ev & Hs3 & T1 & T2 & Efind).
  unfold rollback, mbind_, on_store. rewrite E1, Er. eexists. split; [reflexivity |].
  assert (forall cls, tb s3 cls = tb (store_ P1) cls) as Etb by (intros cls; unfold tb; by rewrite Efind).
  cbn [committing_ set_store]. destruct (committing_ P2); cbn -[view]; (split_and!; [done | done | done | done |]).
  all: rewrite Ev, E2; unfold holds; setoid_rewrite Etb; intros u k o Hu; rewrite E4; by apply (od_rows _ _ _ _ _ _ HO).
Qed.
End Sync.

End SessionSync.
