(* ===== verification/SessionLoad.v ===== *)
(** * Loading, and sessions at work

    [session::load] fills an empty store with the objects of the tables. A
    database in memory implements the interface of [Session]; with it the
    theorems on sessions are run on a small store, and so are the sequences of
    calls that make a session write something else than its store has. *)

From S2P Require Import Prelude Identifier ByteBuffer ObjectSerializer PrototypeTree Transaction ObjectStore Session SessionSync.
Local Open Scope cxx_scope.

Module SessionLoad.
Import Identifier ByteBuffer ObjectSerializer Transaction ObjectStore Session SessionSync.

Section Load.
Context {B : Type} `{!ByteQueue B} {R : Type} `{!NodeLists R} {D : Type} `{!Database D}.
Context (make_object : str -> object).
Abbreviation persistence := (persistence (B := B) (R := R) (D := D)).
Abbreviation store := (object_store (B := B) (R := R)).

(** [P] has loaded the objects [L] and nothing else; their keys are at most
    [K]. *)
Record loaded (P0 P : persistence) (K : Z) (L : list (str * object)) : Prop := {
  ld_store : store_ok (store_ P);
  ld_closed : transactions_ (store_ P) = [];
  ld_connection : connection_ P = connection_ P0;
  ld_identifiers : proxy_identifier_map_ P = ∅;
  ld_tb : forall cls, tb (store_ P) cls = tb (store_ P0) cls;
  ld_tables : forall t, is_Some (tables_ P !! t) <-> is_Some (tables_ P0 !! t);
  ld_view : forall c, c ∈ L <-> exists i, view (store_ P) !! i = Some c;
  ld_once : forall i j c, view (store_ P) !! i = Some c -> view (store_ P) !! j = Some c -> i = j;
  ld_keyed : keyed (store_ P);
  ld_nodes : forall i p x, object_map_ (store_ P) !! i = Some p -> proxies (store_ P) !! p = Some x ->
    node x = Some (classname x) /\ is_Some (tables_ P0 !! classname x);
  ld_seq : (seq_ (store_ P) <= K + Z.of_nat (length L))%Z }.

(** What a row must be to become an object. *)
Definition row_ok (K : Z) (o : object) : Prop :=
  object_ok o /\ is_valid (resolve o) = true /\ exists k, key_of o = Some k /\ (k <= K)%Z.

Lemma tb_Some (s : store) cls n : tb s cls = Some n <-> find_prototype_node cls s = Ok (Some n).
Proof. unfold tb. destruct (find_prototype_node cls s); split; congruence. Qed.

Lemma view_inserted (s s' : store) p cls n o x i :
  store_ok s -> inserted s s' p cls n o x -> is_valid (resolve o) = true -> proxies s !! p = None ->
  view s' !! i = if decide (i = id x) then Some (cls, o) else view s !! i.
Proof.
  intros Hs [I1 I2 (I3 & I4 & I5 & I6) (I7 & I8 & _ & I9) [I10 I11]] Hv Hp. destruct (I9 Hv) as [Ho Hpk].
  rewrite !lookup_view, I2. case_decide as E.
  - subst i. rewrite lookup_insert_eq. unfold object_at. rewrite I1, lookup_insert_eq, Ho, I8. done.
  - rewrite lookup_insert_ne by done. destruct (object_map_ s !! i) as [q|] eqn:Hi; [|done].
    destruct (ok_object s Hs i q Hi) as (y & _ & _ & Hy & _). unfold object_at.
    rewrite I1, lookup_insert_ne; [done |]. intros <-. congruence.
Qed.

Lemma load_row P0 P K L cls o :
  loaded P0 P K L -> tb (store_ P0) cls = Some cls -> is_Some (tables_ P0 !! cls) -> row_ok K o ->
  (K + Z.of_nat (length L) + 1 < 2 ^ 64)%Z -> (cls, o) ∉ L ->
  exists P', (forall rows, load_rows cls (o :: rows) P = load_rows cls rows P') /\ loaded P0 P' K ((cls, o) :: L).
Proof.
  intros [L1 L2 L3 L4 L5 L6 L7 L8 L9 L10 L11] Hn Ht (Ho & Hv & k & Hk & HkK) Hmax Hnew.
  set (p := fresh (dom (proxies (store_ P)))). assert (proxies (store_ P) !! p = None) as Hp by apply not_elem_of_dom, is_fresh.
  destruct (insert_quiet make_object p cls o cls false (store_ P)) as (s' & x & E & Hs' & HI & T1 & T2); try done; [by rewrite <- tb_Some, L5 | lia |].
  pose proof (fun i => view_inserted _ _ _ _ _ _ _ i L1 HI Hv Hp) as HV.
  destruct HI as [I1 I2 (I3 & I4 & I5 & I6) (I7 & I8 & _ & I9) [I10 I11]]. destruct (I9 Hv) as [Hox Hpk].
  exists (register_proxy_insert p (set_store s' P)). split.
  { intros rows. cbn [load_rows]. unfold mbind_ at 1, get. fold p. unfold mbind_ at 1, on_store. unfold alloc in E. rewrite E. done. }
  assert (forall A (f : persistence -> A), (forall q Q, f (set_queue q Q) = f Q) -> f (register_proxy_insert p (set_store s' P)) = f (set_store s' P)) as Hf
    by (intros A f Hq; unfold register_proxy_insert; by repeat case_match).
  constructor; rewrite ?(Hf _ store_), ?(Hf _ connection_), ?(Hf _ proxy_identifier_map_), ?(Hf _ tables_) by done; cbn -[view]; try done.
  - congruence.
  - intros c. by rewrite I11.
  - intros c. setoid_rewrite HV. rewrite elem_of_cons, L7. split.
    + intros [-> | [i Hi]]; [exists (id x); by rewrite decide_True |]. exists i. rewrite decide_False; [done |].
      intros ->. by rewrite lookup_view, I3 in Hi.
    + intros [i Hi]. case_decide; [left; congruence | right; by exists i].
  - intros i j c. rewrite !HV. assert (forall m, view (store_ P) !! m <> Some (cls, o)) as Hno by (intros m Hm; apply Hnew, L7; eauto).
    repeat case_decide; [congruence | | | apply L8]; intros H1 H2; exfalso; [apply (Hno j) | apply (Hno i)]; congruence.
  - intros i q y u Hi Hy Hu. rewrite I2 in Hi. rewrite I1 in Hy. apply lookup_insert_Some in Hi as [[<- <-] | [Hne Hi]].
    + rewrite lookup_insert_eq in Hy. injection Hy as <-. rewrite Hox in Hu. injection Hu as <-. rewrite Hpk. by rewrite Hk.
    + destruct (ok_object _ L1 i q Hi) as (z & _ & _ & Hz & _). rewrite lookup_insert_ne in Hy by congruence. by eapply L9.
  - intros i q y Hi Hy. rewrite I2 in Hi. rewrite I1 in Hy. apply lookup_insert_Some in Hi as [[<- <-] | [Hne Hi]].
    + rewrite lookup_insert_eq in Hy. injection Hy as <-. by rewrite I7, I8.
    + destruct (ok_object _ L1 i q Hi) as (z & _ & _ & Hz & _). rewrite lookup_insert_ne in Hy by congruence. by eapply L10.
  - unfold seq_bound in I6. rewrite Hk in I6. cbn in I6. lia.
Qed.

Lemma load_rows_spec P0 K cls rows : forall P L,
  loaded P0 P K L -> tb (store_ P0) cls = Some cls -> is_Some (tables_ P0 !! cls) -> Forall (row_ok K) rows -> NoDup rows ->
  (K + Z.of_nat (length L + length rows) < 2 ^ 64)%Z -> (forall o, o ∈ rows -> (cls, o) ∉ L) ->
  exists P' L', load_rows cls rows P = (P', Ok tt) /\ loaded P0 P' K L' /\ length L' = length L + length rows
    /\ forall c, c ∈ L' <-> c ∈ L \/ (c.1 = cls /\ c.2 ∈ rows).
Proof.
  induction rows as [|o rows IH]; intros P L HL Hn Ht Hrows Hnd Hmax Hnew.
  - exists P, L. split_and!; [done | done | cbn; lia |]. intros c. rewrite elem_of_nil. tauto.
  - apply Forall_cons_iff in Hrows as [Ho Hrows]. apply list.NoDup_cons in Hnd as [Hno Hnd]. cbn [length] in Hmax.
    destruct (load_row P0 P K L cls o) as (P1 & E1 & H1); try done; [lia | by apply Hnew, list_elem_of_here |].
    destruct (IH P1 ((cls, o) :: L)) as (P' & L' & E & H & Hlen & HL'); try done; [cbn [length]; lia | |].
    { intros o' Ho'. rewrite elem_of_cons. intros [[= ->] | Hin]; [done |]. by apply (Hnew o'); [apply list_elem_of_further |]. }
    exists P', L'. rewrite E1. split_and!; [done | done | cbn [length] in *; lia |]. intros [c u]. rewrite HL', !elem_of_cons. cbn.
    split; [intros [[[= -> ->] | ?] | [-> ?]]; tauto | intros [? | [-> [-> | ?]]]; tauto].
Qed.

(** ** The whole database *)

Definition concrete (ns : list (str * bool)) : list str := fst <$> filter (fun n => n.2 = false) ns.
Definition row_count (d : D) (ts : list str) : nat := sum_list ((fun t => length (db_select t d)) <$> ts).

Lemma load_nodes_spec P0 K ns : forall P L,
  loaded P0 P K L -> NoDup (concrete ns) -> (forall t, t ∈ concrete ns -> is_Some (tables_ P0 !! t) /\ tb (store_ P0) t = Some t
    /\ Forall (row_ok K) (db_select t (connection_ P0)) /\ forall o, (t, o) ∉ L) ->
  (K + Z.of_nat (length L + row_count (connection_ P0) (concrete ns)) < 2 ^ 64)%Z ->
  exists P' L', load_nodes ns P = (P', Ok tt) /\ loaded P0 P' K L'
    /\ forall c, c ∈ L' <-> c ∈ L \/ (c.1 ∈ concrete ns /\ c.2 ∈ db_select c.1 (connection_ P0)).
Proof.
  induction ns as [|[t abs] ns IH]; intros P L HL Hnd Hns Hmax.
  - exists P, L. split_and!; [done | done |]. intros c. cbn. rewrite elem_of_nil. tauto.
  - cbn [load_nodes]. unfold mbind_ at 1, load_node. cbn [fst snd]. destruct abs.
    + cbn. by apply IH.
    + unfold mbind_ at 1, get. change (concrete ((t, false) :: ns)) with (t :: concrete ns) in *.
      unfold row_count in *. cbn [fmap list_fmap sum_list sum_list_with] in Hmax. fold (row_count (connection_ P0) (concrete ns)) in *.
      apply list.NoDup_cons in Hnd as [Hnot Hnd]. destruct (Hns t) as (Ht & Htb & Hrows & Hfresh); [apply list_elem_of_here |].
      destruct (proj2 (ld_tables _ _ _ _ HL t) Ht) as [b Hb]. rewrite Hb. unfold table_load, mbind_, get.
      rewrite (ld_connection _ _ _ _ HL). destruct (db_select_spec (connection_ P0) t) as [Hsnd _].
      destruct (load_rows_spec P0 K t (db_select t (connection_ P0)) P L) as (P1 & L1 & E1 & H1 & Hlen & HL1); try done; [cbn in Hmax; lia |].
      rewrite E1. unfold changing.
      destruct (IH (set_tables (<[t := true]> (tables_ P1)) P1) L1) as (P' & L' & E & H & HL').
      { destruct H1 as [Q1 Q2 Q3 Q4 Q5 Q6 Q7 Q8 Q9 Q10 Q11]. constructor; cbn -[view]; try done. intros u. rewrite <- Q6.
        destruct (decide (u = t)) as [-> |]; [rewrite lookup_insert_eq, Q6; split; by eauto | by rewrite lookup_insert_ne]. }
      { done. }
      { intros u Hu. destruct (Hns u) as (A1 & A2 & A3 & A4); [by apply list_elem_of_further |]. split_and!; try done.
        intros o. rewrite HL1. cbn. intros [Hin | [-> _]]; [by apply (A4 o) | done]. }
      { rewrite Hlen. cbn in Hmax. lia. }
      exists P', L'. split_and!; [exact E | exact H |]. intros [c o]. rewrite HL', HL1, elem_of_cons. cbn. split; [|intros [? | [[-> | ?] ?]]; tauto].
      intros [[? | [-> ?]] | ?]; tauto.
Qed.

(** A session that has just been opened: nothing was inserted or loaded, and
    each concrete node of the store has a table. *)
Record fresh_session (P : persistence) : Prop := {
  fs_store : store_ok (store_ P);
  fs_empty : object_map_ (store_ P) = ∅;
  fs_closed : transactions_ (store_ P) = [];
  fs_identifiers : proxy_identifier_map_ P = ∅;
  fs_nodup : NoDup (concrete (nodes_ P));
  fs_tables : forall t, is_Some (tables_ P !! t) <-> t ∈ concrete (nodes_ P);
  fs_nodes : forall t, t ∈ concrete (nodes_ P) -> tb (store_ P) t = Some t }.

(** C12: [session::load] of a new session gives a store that mirrors the
    database: it has exactly one object for each row of each table and nothing
    else, and nothing is left to be written. The keys of the rows are positive,
    and the sequence must not run over while it counts the rows. *)
Theorem session_load K P :
  fresh_session P -> (forall t, t ∈ concrete (nodes_ P) -> Forall (row_ok K) (db_select t (connection_ P))) ->
  (seq_ (store_ P) <= K)%Z -> (K + Z.of_nat (row_count (connection_ P) (concrete (nodes_ P))) < 2 ^ 64)%Z ->
  exists P', load P = (P', Ok tt) /\ synced P' /\ connection_ P' = connection_ P
    /\ apart (tb (store_ P')) (view (store_ P')) (view (store_ P'))
    /\ forall t o, (t ∈ concrete (nodes_ P) /\ o ∈ db_select t (connection_ P)) <-> exists i, view (store_ P') !! i = Some (t, o).
Proof.
  intros [F1 F2 F3 F4 F5 F6 F7] Hrows Hseq Hmax.
  assert (loaded P P K []) as H0.
  { assert (view (store_ P) = ∅) as Hv by (apply map_eq; intros i; by rewrite lookup_view, F2, lookup_empty).
    constructor; rewrite ?Hv; try done; [intros c; rewrite elem_of_nil; split; [done | by intros [i Hi]] | | | cbn; lia].
    - intros i p x o Hi. by rewrite F2, lookup_empty in Hi.
    - intros i p x Hi. by rewrite F2, lookup_empty in Hi. }
  destruct (load_nodes_spec P K (nodes_ P) P [] H0 F5) as (P1 & L & E & [L1 L2 L3 L4 L5 L6 L7 L8 L9 L10 L11] & HL); [|done|].
  { intros t Ht. split_and!; [by apply F6 | by apply F7 | by apply Hrows | intros o; apply not_elem_of_nil]. }
  assert (forall t o, (t ∈ concrete (nodes_ P) /\ o ∈ db_select t (connection_ P)) <-> exists i, view (store_ P1) !! i = Some (t, o)) as Hall.
  { intros t o. rewrite <- L7, HL, elem_of_nil. cbn. tauto. }
  exists (set_queue [] P1). unfold load, mbind_, get, changing. rewrite E. split; [done |]. split_and!; [| done | | exact Hall].
  - constructor; cbn -[view]; try done.
    + intros t k o Ht. rewrite L6 in Ht. apply F6 in Ht. rewrite L3. split.
      * intros Hr. pose proof (db_row_key _ _ _ _ Hr) as Hk. destruct (proj1 (Hall t o)) as [i Hi].
        { split; [done |]. apply db_select_spec. by exists k. }
        exists i, t. rewrite L5, F7 by done. done.
      * intros (i & cls & Hi & Hcls & Hk). destruct (proj2 (Hall cls o)) as [Hc Ho]; [by exists i |].
        rewrite L5, F7 in Hcls by done. injection Hcls as ->. apply db_select_spec in Ho as (k' & Hk' & Hr). unfold key_of in Hk. congruence.
    + intros i p x n Hi Hx Hn. destruct (L10 i p x Hi Hx) as [Hn' Ht]. rewrite L6. congruence.
    + intros p k x Hp. by rewrite L4, lookup_empty in Hp.
  - cbn -[view]. intros i j c c' o o' Hi Hj Hc Hk. assert (view (store_ P1) !! i = Some (c, o)) as Hi' by tauto.
    assert (view (store_ P1) !! j = Some (c', o')) as Hj' by tauto. destruct (proj2 (Hall c o)) as [A1 A2]; [by exists i |].
    destruct (proj2 (Hall c' o')) as [B1 B2]; [by exists j |]. rewrite !L5, !F7 in Hc by done. injection Hc as <-.
    apply db_select_spec in A2 as (k & Ak & Ar). apply db_select_spec in B2 as (k' & Bk & Br). unfold key_of in Hk.
    assert (o = o') as <- by congruence. by eapply L8.
Qed.
End Load.

(** ** A database in memory *)

Record memory := Memory { rows : gmap (str * Z) object; saved : gmap (str * Z) object }.

Definition row_in (m : gmap (str * Z) object) (t : str) (k : Z) : option object :=
  match m !! (t, k) with Some o => if decide (key (resolve o) = Some k) then Some o else None | None => None end.

Definition memory_insert (t : str) (o : object) (d : memory) : result memory :=
  match key (resolve o) with
  | None => Throw (object_exception "not an integral key")
  | Some k => match row_in (rows d) t k with
              | Some _ => Throw (object_exception "duplicate key")
              | None => Ok (Memory (<[(t, k) := o]> (rows d)) (saved d))
              end
  end.

(** An update may change the key of its row. *)
Definition memory_update (t : str) (o : object) (i : identifier) (d : memory) : result memory :=
  match key i with
  | None => Throw (object_exception "not an integral key")
  | Some k => match row_in (rows d) t k with
              | None => Ok d
              | Some _ => memory_insert t o (Memory (delete (t, k) (rows d)) (saved d))
              end
  end.

Definition memory_delete (t : str) (i : identifier) (d : memory) : result memory :=
  match key i with
  | None => Throw (object_exception "not an integral key")
  | Some k => Ok (Memory (delete (t, k) (rows d)) (saved d))
  end.

Definition row_of (t : str) (r : str * Z * object) : option object :=
  if decide (r.1.1 = t /\ key (resolve r.2) = Some r.1.2) then Some r.2 else None.

Lemma NoDup_omap_inj {A C} (f : A -> option C) l : NoDup l -> (forall x y z, f x = Some z -> f y = Some z -> x = y) -> NoDup (omap f l).
Proof.
  intros Hnd Hf. induction Hnd as [|x l Hx Hnd IH]; [constructor |]. cbn [omap list_omap]. destruct (f x) as [z|] eqn:E; [|done].
  apply list.NoDup_cons. split; [|done]. rewrite list_elem_of_omap. intros (y & Hy & Ey). by rewrite (Hf x y z E Ey) in Hx.
Qed.

Lemma row_in_insert m t o k t' k' : key (resolve o) = Some k ->
  row_in (<[(t, k) := o]> m) t' k' = if decide (t' = t /\ k' = k) then Some o else row_in m t' k'.
Proof.
  intros Hk. unfold row_in. case_decide as E; [destruct E as [-> ->]; by rewrite lookup_insert_eq, decide_True |].
  rewrite lookup_insert_ne; [done |]. intros [= -> ->]. by apply E.
Qed.

Lemma row_in_delete m t k t' k' : row_in (delete (t, k) m) t' k' = if decide (t' = t /\ k' = k) then None else row_in m t' k'.
Proof.
  unfold row_in. case_decide as E; [destruct E as [-> ->]; by rewrite lookup_delete_eq |].
  rewrite lookup_delete_ne; [done |]. intros [= -> ->]. by apply E.
Qed.

#[export, refine] Instance memory_database : Database memory := {
  db_begin d := Memory (rows d) (rows d);
  db_commit d := d;
  db_rollback d := Memory (saved d) (saved d);
  db_insert := memory_insert;
  db_update := memory_update;
  db_delete := memory_delete;
  db_select t d := omap (row_of t) (map_to_list (rows d));
  db_row d := row_in (rows d);
  db_saved d := row_in (saved d) }.
Proof.
  - done.
  - done.
  - done.
  - intros d t o k Hk. unfold memory_insert. rewrite Hk. destruct (row_in (rows d) t k); [eauto |].
    eexists. split; [reflexivity |]. intros t' k'. by apply row_in_insert.
  - intros d t o i k Hi Hk. unfold memory_update. rewrite Hi. destruct (row_in (rows d) t k) as [o0|] eqn:E.
    + unfold memory_insert. rewrite Hk. cbn [rows saved]. rewrite row_in_delete, decide_True by done. eexists. split; [reflexivity |].
      intros t' k'. cbn [rows]. rewrite row_in_insert, row_in_delete by done. by case_decide.
    + exists d. split; [done |]. intros t' k'. case_decide as H; [destruct H as [-> ->]; by rewrite E | done].
  - intros d t i k Hi. unfold memory_delete. rewrite Hi. eexists. split; [reflexivity |]. intros t' k'. apply row_in_delete.
  - intros d d' t k [(u & o & H) | [(u & o & i & H) | (u & i & H)]]; revert H; unfold memory_insert, memory_update, memory_delete, memory_insert;
      repeat case_match; by intros [= <-].
  - intros d t k o. unfold row_in. repeat case_match; naive_solver.
  - intros d t. split.
    + apply NoDup_omap_inj; [apply NoDup_map_to_list |]. intros [[t1 k1] o1] [[t2 k2] o2] o. unfold row_of. cbn.
      intros H1 H2. repeat case_decide; destruct_and?; simplify_eq. congruence.
    + intros o. rewrite list_elem_of_omap. unfold row_of, row_in. split.
      * intros ([[t1 k1] o1] & Hin & H). apply elem_of_map_to_list in Hin. cbn in H. case_decide as E; [|done]. destruct E as [-> E].
        injection H as ->. exists k1. rewrite Hin, decide_True by done. done.
      * intros (k & Hk & H). destruct (rows d !! (t, k)) as [o1|] eqn:E; [|done]. case_decide; [|done]. injection H as ->.
        exists (t, k, o). split; [by apply elem_of_map_to_list |]. cbn. by rewrite decide_True.
Defined.

(** ** A small session *)

Abbreviation sample_session := (Session.persistence (B := byte_buffer) (R := gmap str (list loc)) (D := memory)).
Abbreviation sample_state := (object_store (B := byte_buffer) (R := gmap str (list loc))).

Definition keyed_by (s : sample_state) : Prop :=
  map_Forall (fun i p => match proxies s !! p with
    | Some x => match obj x with Some o => is_Some (key_of o) /\ key (pk x) = key_of o | None => True end
    | None => True end) (object_map_ s).
Lemma keyed_by_ok s : keyed_by s -> keyed s.
Proof. intros H i p x o Hi Hx Ho. specialize (H i p Hi). cbn in H. by rewrite Hx, Ho in H. Qed.
#[local] Instance keyed_by_dec s : Decision (keyed_by s).
Proof. unfold keyed_by. apply map_Forall_dec. intros i p. destruct (proxies s !! p) as [x|]; [destruct (obj x) |]; apply _. Defined.

Definition apart_by (s : sample_state) (V0 V : objects) : Prop :=
  let l := map_to_list V0 ++ map_to_list V in
  Forall (fun a => Forall (fun b => tb s a.2.1 = tb s b.2.1 /\ key_of a.2.2 = key_of b.2.2 -> a.1 = b.1) l) l.
Lemma apart_by_ok s V0 V : apart_by s V0 V -> apart (tb s) V0 V.
Proof.
  unfold apart_by, apart. intros H i j c c' o o' Hi Hj Hc Hk. rewrite list.Forall_forall in H.
  assert ((i, (c, o)) ∈ map_to_list V0 ++ map_to_list V) as Hi' by (rewrite elem_of_app, !elem_of_map_to_list; tauto).
  assert ((j, (c', o')) ∈ map_to_list V0 ++ map_to_list V) as Hj' by (rewrite elem_of_app, !elem_of_map_to_list; tauto).
  specialize (H _ Hi'). cbn in H. rewrite list.Forall_forall in H. by apply (H _ Hj').
Qed.

Definition human (k : Z) (name : string) : object := [PrimaryKey true 8 k; Str (lit name)].

(** Person 5 is in the store and in its table. *)
Definition one_store : sample_state :=
  Store {[ lit "person"; lit "planet" ]} ∅ {[ lit "person" := [0]; lit "planet" := [] ]}
    {[ 0 := Proxy (Some (human 5 "hans")) (Some (lit "person")) (lit "person") 1 0 (IntegralPk true 8 5) ]}
    {[ 1%Z := 0 ]} 5 [] {[ 7%Z := tdata0 ]}.
Definition one : sample_session :=
  Persistence (Memory {[ (lit "person", 5%Z) := human 5 "hans" ]} ∅) one_store
    [(lit "person", false); (lit "planet", false)] {[ lit "person" := true; lit "planet" := true ]} [] ∅ ∅ false.

Lemma human_ok k name : (- 2 ^ 63 <= k < 2 ^ 63)%Z -> (Z.of_nat (length (lit name)) < 2 ^ 64)%Z -> object_ok (human k name).
Proof. intros Hk H. split; repeat constructor; simpl; try lia. Qed.

Lemma one_store_ok : store_ok one_store.
Proof.
  constructor; cbn [node_lists object_map_ proxies seq_ one_store].
  - done.
  - intros i p Hi. apply lookup_singleton_Some in Hi as [<- <-]. do 3 eexists. split; [apply lookup_singleton_eq |].
    split; [reflexivity |]. split; [reflexivity |]. split; [by apply human_ok |]. split; [reflexivity |].
    split; [vm_compute; reflexivity |]. split; [|lia].
    exists [0]. split; [vm_compute; reflexivity | set_solver].
  - intros n p (l & Hl & Hp). apply lookup_insert_Some in Hl as [[<- <-] | [_ Hl]].
    + apply list_elem_of_singleton in Hp as ->. exists 1%Z. eexists. split_and!; vm_compute; reflexivity.
    + apply lookup_singleton_Some in Hl as [<- <-]. by apply elem_of_nil in Hp.
  - intros cls n H. unfold find_prototype_node in H. cbn in H. rewrite lookup_empty in H.
    case_bool_decide as Hc; simplify_eq. apply elem_of_union in Hc as [->%elem_of_singleton | ->%elem_of_singleton];
      vm_compute; eauto.
  - lia.
Qed.

Lemma one_view : view one_store = {[ 1%Z := (lit "person", human 5 "hans") ]}.
Proof. vm_compute. reflexivity. Qed.

Lemma one_synced : synced one.
Proof.
  constructor; try done.
  - exact one_store_ok.
  - intros t k o Ht. cbn [connection_ store_ one]. rewrite one_view. cbn [db_row memory_database rows]. unfold row_in. split.
    + case_match eqn:E; [|done]. apply lookup_singleton_Some in E as [[= <- <-] <-]. case_decide as Hk; [|done]. intros [= <-].
      exists 1%Z, (lit "person"). split_and!; [apply lookup_singleton_eq | vm_compute; reflexivity | done].
    + intros (i & cls & Hi & Hc & Hk). apply lookup_singleton_Some in Hi as [<- [= <- <-]]. vm_compute in Hk. injection Hk as <-.
      assert (t = lit "person") as -> by (vm_compute in Hc; vm_compute; congruence). vm_compute. reflexivity.
  - apply keyed_by_ok, (bool_decide_unpack _). vm_compute. exact I.
  - intros i p x n Hi Hx Hn. cbn [store_ object_map_ proxies one one_store] in Hi, Hx. apply lookup_singleton_Some in Hi as [<- <-]. apply lookup_singleton_Some in Hx as [_ <-]. injection Hn as <-. vm_compute. eauto.
Qed.

(** The person is renamed, a planet comes in and the person goes. *)
Definition state {A} (r : sample_session * result A) : sample_session := r.1.
Definition returns {A} (r : sample_session * result A) : bool := match r.2 with Ok _ => true | Throw _ => false end.
Lemma returns_state (r : sample_session * result unit) : returns r = true -> r = (state r, Ok tt).
Proof. by destruct r as [P [[]|]]. Qed.

Definition renamed (P : sample_session) : sample_session := state (modify 0 (human 5 "otto") P).
Definition with_planet (P : sample_session) : sample_session := state (insert 1 (lit "planet") (human 0 "mars") (renamed P)).
Definition without_person (P : sample_session) : sample_session := state (remove 0 (with_planet P)).

Lemma sample_changes P0 rm : (P0 = one \/ P0 = begun 7 one) -> rm 1%Z -> rtc (session_step rm) P0 (without_person P0).
Proof.
  intros HP Hrm. eapply rtc_l; [|eapply rtc_l; [|eapply rtc_once]].
  - apply (ss_modify _ P0 1 0 (Proxy (Some (human 5 "hans")) (Some (lit "person")) (lit "person") 1 0 (IntegralPk true 8 5))
             (human 5 "hans") (human 5 "otto") (renamed P0)); [destruct HP as [-> | ->]; vm_compute; reflexivity.. | repeat constructor | by apply human_ok |].
    apply returns_state. destruct HP as [-> | ->]; vm_compute; reflexivity.
  - apply (ss_insert _ (renamed P0) 1 (lit "planet") (human 0 "mars") (with_planet P0)).
    1, 2: destruct HP as [-> | ->]; vm_compute; reflexivity.
    + by apply human_ok.
    + destruct HP as [-> | ->]; vm_compute; reflexivity.
    + intros n Hn. destruct HP as [-> | ->]; vm_compute in Hn; injection Hn as <-; vm_compute; eauto.
    + apply returns_state. destruct HP as [-> | ->]; vm_compute; reflexivity.
  - apply (ss_remove _ (with_planet P0) 1 0); [destruct HP as [-> | ->]; vm_compute; reflexivity | done |].
    apply returns_state. destruct HP as [-> | ->]; vm_compute; reflexivity.
Qed.

Lemma session_flush_witness :
  exists P2, flush (without_person one) = (P2, Ok tt) /\ synced P2 /\ view (store_ P2) !! 6%Z = Some (lit "planet", human 6 "mars").
Proof.
  destruct (session_flush (fun _ => []) one (without_person one)) as (P2 & E & S & V).
  - exact one_synced.
  - apply sample_changes; [by left | done].
  - apply keyed_by_ok, (bool_decide_unpack _). vm_compute. exact I.
  - apply apart_by_ok, (bool_decide_unpack _). vm_compute. exact I.
  - exists P2. rewrite V. split; [exact E |]. split; [exact S | vm_compute; reflexivity].
Defined.

Lemma session_commit_witness :
  exists P2, commit 7 (without_person (begun 7 one)) = (P2, Ok tt) /\ synced P2 /\ view (store_ P2) !! 1%Z = None.
Proof.
  destruct (session_commit (fun _ => []) 7 one (without_person (begun 7 one))) as (P2 & E & S & V & _).
  - exact one_synced.
  - vm_compute. reflexivity.
  - apply sample_changes; [by right | vm_compute; eauto].
  - apply keyed_by_ok, (bool_decide_unpack _). vm_compute. exact I.
  - apply apart_by_ok, (bool_decide_unpack _). vm_compute. exact I.
  - exists P2. rewrite V. split; [exact E |]. split; [exact S | vm_compute; reflexivity].
Defined.

Lemma session_rollback_witness :
  exists P3, rollback (fun _ => []) 7 (without_person (begun 7 one)) = (P3, Ok tt)
    /\ view (store_ P3) !! 1%Z = Some (lit "person", human 5 "hans") /\ view (store_ P3) !! 6%Z = None.
Proof.
  destruct (session_rollback (fun _ => []) 7 one (without_person (begun 7 one)) (without_person (begun 7 one))) as (P3 & E & V & _).
  - exact one_synced.
  - reflexivity.
  - vm_compute. reflexivity.
  - apply sample_changes; [by right | vm_compute; eauto].
  - by left.
  - exists P3. rewrite V. split; [exact E |]. split; vm_compute; reflexivity.
Defined.

(** The same database, and a session that has nothing yet. *)
Definition nothing : sample_session :=
  Persistence (Memory {[ (lit "person", 5%Z) := human 5 "hans"; (lit "person", 9%Z) := human 9 "anna" ]} ∅)
    (Store {[ lit "person"; lit "planet" ]} ∅ {[ lit "person" := []; lit "planet" := [] ]} ∅ ∅ 0 [] {[ 7%Z := tdata0 ]})
    [(lit "person", false); (lit "planet", false)] {[ lit "person" := false; lit "planet" := false ]} [] ∅ ∅ false.

Lemma nothing_fresh : fresh_session nothing.
Proof.
  constructor; try done.
  - constructor; cbn [node_lists object_map_ proxies seq_ store_ nothing]; try done.
    + intros n p (l & Hl & Hp). apply lookup_insert_Some in Hl as [[<- <-] | [_ Hl]]; [by apply elem_of_nil in Hp |].
      apply lookup_singleton_Some in Hl as [<- <-]. by apply elem_of_nil in Hp.
    + intros cls n H. unfold find_prototype_node in H. cbn in H. rewrite lookup_empty in H.
      case_bool_decide as Hc; simplify_eq. apply elem_of_union in Hc as [->%elem_of_singleton | ->%elem_of_singleton]; vm_compute; eauto.
  - apply (bool_decide_unpack _). vm_compute. exact I.
  - intros t. change (concrete (nodes_ nothing)) with [lit "person"; lit "planet"]. rewrite !elem_of_cons, elem_of_nil.
    change (tables_ nothing) with (<[lit "person" := false]> {[lit "planet" := false]} : gmap str bool). split.
    + intros [b Hb]. apply lookup_insert_Some in Hb as [[<- _] | [_ Hb]]; [by left |]. apply lookup_singleton_Some in Hb as [<- _]. tauto.
    + intros [-> | [-> | []]]; vm_compute; eauto.
  - intros t. change (concrete (nodes_ nothing)) with [lit "person"; lit "planet"]. rewrite !elem_of_cons, elem_of_nil.
    intros [-> | [-> | []]]; vm_compute; reflexivity.
Qed.

Lemma nothing_rows : db_select (lit "person") (connection_ nothing) = [human 5 "hans"; human 9 "anna"] /\ db_select (lit "planet") (connection_ nothing) = [].
Proof. split; vm_compute; reflexivity. Qed.

Lemma nothing_rows_ok t : t ∈ concrete (nodes_ nothing) -> Forall (row_ok 9) (db_select t (connection_ nothing)).
Proof.
  change (concrete (nodes_ nothing)) with [lit "person"; lit "planet"]. rewrite !elem_of_cons, elem_of_nil. destruct nothing_rows as [E1 E2].
  intros [-> | [-> | []]]; [rewrite E1 | rewrite E2; constructor].
  assert (forall k name, (0 < k <= 9)%Z -> (Z.of_nat (length (lit name)) < 2 ^ 64)%Z -> row_ok 9 (human k name)) as H.
  { intros k name Hk Hn. split; [apply human_ok; lia |]. split; [cbn; lia |]. exists k. split; [done | lia]. }
  apply Forall_cons; [|apply Forall_cons; [|constructor]]; apply H; cbn; lia.
Qed.

Lemma session_load_witness : exists P', load nothing = (P', Ok tt) /\ synced P' /\ exists i, view (store_ P') !! i = Some (lit "person", human 9 "anna").
Proof.
  destruct (session_load (fun _ => []) 9 nothing) as (P' & E & S & _ & _ & H).
  - exact nothing_fresh.
  - exact nothing_rows_ok.
  - vm_compute. discriminate.
  - vm_compute. reflexivity.
  - exists P'. split; [exact E |]. split; [exact S |]. apply H.
    rewrite (proj1 nothing_rows). split; apply (bool_decide_unpack _); vm_compute; exact I.
Defined.

(** ** Where a session and its database part *)

(** The operations one after another, as far as they return. *)
Fixpoint run (l : list (sample_session -> sample_session * result unit)) (P : sample_session) : sample_session * result unit :=
  match l with
  | [] => (P, Ok tt)
  | f :: l => let '(P, r) := f P in match r with Ok _ => run l P | Throw e => (P, Throw e) end
  end.
Definition outcome (r : sample_session * result unit) (t : string) (k : Z) : option object * option exn :=
  (row_in (rows (connection_ r.1)) (lit t) k, match r.2 with Ok _ => None | Throw e => Some e end).

(** The key of person 5 becomes 8 and is written; the proxy still has the key
    5, so that removing the person later does not delete its row. *)
Example changed_key_not_removed :
  outcome (run [modify 0 (human 8 "hans"); flush; remove 0; flush] one) "person" 8 = (Some (human 8 "hans"), None).
Proof. vm_compute. reflexivity. Qed.

(** A commit keeps the identifiers of the proxies that were changed. A person
    at the address of one that was removed is then updated under the key of
    the other: the change is lost. *)
Example stale_identifier :
  outcome (run [begin_ 7; modify 0 (human 5 "otto"); remove 0; commit 7;
                begin_ 7; insert 0 (lit "person") (human 6 "anna"); commit 7;
                begin_ 7; modify 0 (human 6 "hanna"); commit 7] one) "person" 6 = (Some (human 6 "anna"), None).
Proof. vm_compute. reflexivity. Qed.

(** [save] of a pointer in a transaction does not remember its key, and the
    commit cannot find it. *)
Example save_in_transaction :
  outcome (run [begin_ 7; save_pointer 0; commit 7] one) "person" 5 = (Some (human 5 "hans"), Some (object_exception "couldn't find proxy")).
Proof. vm_compute. reflexivity. Qed.

(** Loading one table leaves its objects in the queue as if they were new. *)
Example loaded_table_inserted_again :
  outcome (run [load_type (lit "person"); flush] nothing) "person" 5 = (Some (human 5 "hans"), Some (object_exception "duplicate key")).
Proof. vm_compute. reflexivity. Qed.

(** The objects of a table that is loaded twice are in the store twice. *)
Example loaded_twice : omap (fun i => view (store_ (run [load; load] nothing).1) !! i) [1; 6; 10; 11]%Z =
  [(lit "person", human 5 "hans"); (lit "person", human 9 "anna"); (lit "person", human 5 "hans"); (lit "person", human 9 "anna")].
Proof. vm_compute. reflexivity. Qed.

(** The inserts of a class are written with the first of them: person 5 is
    replaced in a transaction that has inserted another person before, and the
    new one is written before the old one is deleted. *)
Example replaced_after_insert :
  outcome (run [begin_ 7; insert 1 (lit "person") (human 9 "anna"); remove 0; insert 2 (lit "person") (human 5 "otto"); commit 7] one) "person" 5
  = (Some (human 5 "hans"), Some (object_exception "duplicate key")).
Proof. vm_compute. reflexivity. Qed.

(** An object that waits to be inserted is removed in a transaction: its proxy
    is deleted with the transaction and stays in the queue. *)
Example removed_while_waiting :
  (run [insert 1 (lit "person") (human 9 "anna"); begin_ 7; remove 1; commit 7; flush] one).2 = Throw (undefined_behaviour "dangling proxy").
Proof. vm_compute. reflexivity. Qed.

(** Removing an object that waits to be inserted deletes its proxy, which then
    is remembered as one to be deleted. *)
Example dangling_to_delete :
  let P := (run [insert 1 (lit "person") (human 9 "anna"); remove 1] one).1 in
  proxies_to_delete_ P = {[1]} /\ proxies (store_ P) !! 1 = None.
Proof. vm_compute. split; reflexivity. Qed.

(** A commit deletes the row of person 5 and then fails at a duplicate key.
    Rollback puts the proxy of the person back into the store, and then the
    action, which is still marked, deletes the proxy. *)
Example rollback_after_removal :
  let P := run [begin_ 7; remove 0; insert 1 (lit "person") (human 9 "anna"); insert 2 (lit "person") (human 9 "otto"); commit 7] one in
  let P' := rollback (fun _ => []) 7 P.1 in
  P.2 = Throw (object_exception "duplicate key") /\ P'.2 = Ok tt
  /\ object_map_ (store_ P'.1) !! 1%Z = Some 0 /\ proxies (store_ P'.1) !! 0 = None
  /\ row_in (rows (connection_ P'.1)) (lit "person") 5 = Some (human 5 "hans").
Proof. vm_compute. split_and!; reflexivity. Qed.

(** A commit that fails at a duplicate key before it has removed a row is
    rolled back. *)
Example rollback_after_failure :
  let P := run [begin_ 7; insert 1 (lit "person") (human 9 "anna"); insert 2 (lit "person") (human 9 "otto"); remove 0; commit 7] one in
  let P' := rollback (fun _ => []) 7 P.1 in
  P.2 = Throw (object_exception "duplicate key") /\ P'.2 = Ok tt
  /\ view (store_ P'.1) = view (store_ one) /\ row_in (rows (connection_ P'.1)) (lit "person") 5 = Some (human 5 "hans").
Proof. vm_compute. split_and!; reflexivity. Qed.

End SessionLoad.
