(* ===== verification/Json.v ===== *)
(** * Json values

    Model of [json] (include/matador/json/json.hpp, src/json/json.cpp):
    values, access to members and elements, changing them, comparison and
    printing. A [double] is a value of a type [real] with the operations the
    language has on it; the members of an object are the entries of a
    [std::map] in order. References into a value are paths from its root. *)

From S2P Require Import Prelude.

Local Open Scope cxx_scope.

Module Json.

#[warnings="-register-all"]
Inductive json {real : Type} :=
| Null
| Integer (z : Z)
| Real (r : real)
| Boolean (b : bool)
| String (s : str)
| Object (m : list (str * json))
| Array (l : list json).
Arguments json : clear implicits.

Section Values.
Context {real : Type}.

Lemma json_ind' (P : json real -> Prop) :
  P Null -> (forall z, P (Integer z)) -> (forall r, P (Real r)) -> (forall b, P (Boolean b)) ->
  (forall s, P (String s)) -> (forall m, Forall (fun e => P e.2) m -> P (Object m)) ->
  (forall l, Forall P l -> P (Array l)) -> forall j, P j.
Proof.
  intros H1 H2 H3 H4 H5 H6 H7. fix IH 1. intros [| z | r | b | s | m | l];
    [exact H1 | apply H2 | apply H3 | apply H4 | apply H5 | |].
  - apply H6. induction m as [|e m IHm]; constructor; [apply IH | exact IHm].
  - apply H7. induction l as [|x l IHl]; constructor; [apply IH | exact IHl].
Qed.

Definition is_number (j : json real) : bool := match j with Integer _ | Real _ => true | _ => false end.
Definition is_string (j : json real) : bool := match j with String _ => true | _ => false end.
Definition is_object (j : json real) : bool := match j with Object _ => true | _ => false end.
Definition is_array (j : json real) : bool := match j with Array _ => true | _ => false end.

(** ** Access *)

Definition size (j : json real) : nat :=
  match j with Array l => length l | Object m => length m | Null => 0 | _ => 1 end.

Definition empty (j : json real) : bool :=
  match j with
  | Array l => bool_decide (l = [])
  | Object m => bool_decide (m = [])
  | Null => true
  | _ => false
  end.

Definition contains (key : str) (j : json real) : bool :=
  match j with Object m => bool_decide (is_Some (assoc key m)) | _ => false end.

Definition get (key : str) (j : json real) : result (json real) :=
  match j with
  | Object m => match assoc key m with
                | Some v => Ok v
                | None => Throw (logic_error "object doesn't contain key")
                end
  | _ => Throw (logic_error "type isn't object")
  end.

(** The [const] operators: a value itself where there is no such part. *)
Definition at_key (key : str) (j : json real) : json real :=
  match j with Object m => default j (assoc key m) | _ => j end.

Definition at_index (i : nat) (j : json real) : result (json real) :=
  match j with
  | Array l => match l !! i with
               | Some v => Ok v
               | None => Throw (logic_error "index out of bounce")
               end
  | _ => Ok j
  end.

Definition back (j : json real) : result (json real) :=
  match j with
  | Array l => match list.last l with
               | Some v => Ok v
               | None => Throw (undefined_behaviour "back() of an empty vector")
               end
  | _ => Throw (logic_error "type doesn't have back()")
  end.

Fixpoint func (parent : json real) (parts : list str) : result (json real) :=
  match parts with
  | [] => Ok parent
  | k :: parts => let? j := get k parent in func j parts
  end.

Definition at_path (path : str) (delimiter : ascii) (j : json real) : result (json real) :=
  match split path delimiter with
  | [] => Ok j
  | k :: parts => let? j := get k j in func j parts
  end.

(** ** Changes *)

(** [push_back]: a value that is no array becomes one. *)
Definition push_back (v j : json real) : json real :=
  match j with Array l => Array (l ++ [v]) | _ => Array [v] end.

(** The member that [operator[](key)] of a value refers to, which becomes an
    object and gets the member if need be. *)
Definition key_entry (key : str) (j : json real) : list (str * json real) * json real :=
  match j with
  | Object m => match assoc key m with Some v => (m, v) | None => (map_set key Null m, Null) end
  | _ => ([(key, Null)], Null)
  end.

(** [j[key] = v]. *)
Definition set_key (key : str) (v j : json real) : json real := Object (map_set key v (key_entry key j).1).

Definition erase_key (key : str) (j : json real) : json real :=
  match j with Object m => Object (map_erase key m) | _ => j end.

Definition erase_at (i : nat) (j : json real) : result (json real) :=
  match j with
  | Array l => if (length l <=? i)%nat then Throw (out_of_range "index is out of range")
               else Ok (Array (delete i l))
  | _ => Ok j
  end.

(** The initializer-list constructor: pairs that start with a string make an
    object. Of two pairs with one key the first is inserted. *)
Definition is_pair (j : json real) : bool :=
  match j with Array [String _; _] => true | _ => false end.

Definition of_list (l : list (json real)) : json real :=
  if forallb is_pair l
  then Object (foldl (fun m j => match j with
                                 | Array [String k; v] => match assoc k m with Some _ => m | None => map_set k v m end
                                 | _ => m
                                 end) [] l)
  else Array l.

(** The entries of an object are those of a map. *)
Fixpoint json_ok (j : json real) : Prop :=
  match j with
  | Object m => ordered m /\ foldr (fun e P => json_ok e.2 /\ P) True m
  | Array l => foldr (fun j P => json_ok j /\ P) True l
  | _ => True
  end.

Lemma json_ok_Object m : json_ok (Object m) <-> ordered m /\ Forall (fun e => json_ok e.2) m.
Proof.
  simpl. apply and_iff_compat_l. induction m as [|e m IH]; simpl; [by split; constructor |]. rewrite IH.
  symmetry. apply Forall_cons_iff.
Qed.

Lemma json_ok_Array l : json_ok (Array l) <-> Forall json_ok l.
Proof. simpl. induction l as [|e m IH]; simpl; [by split; constructor |]. rewrite IH. symmetry. apply Forall_cons_iff. Qed.

Lemma map_set_members k v m :
  json_ok v -> ordered m -> Forall (fun e => json_ok e.2) m -> json_ok (Object (map_set k v m)).
Proof.
  intros Hv Hm Hf. apply json_ok_Object. split; [by apply map_set_ordered |].
  apply list.Forall_forall. intros e He. apply elem_of_map_set in He as [-> | He]; [done |]. by eapply list.Forall_forall in Hf.
Qed.

Lemma set_key_ok k v j : json_ok v -> json_ok j -> json_ok (set_key k v j).
Proof.
  intros Hv Hj. unfold set_key. assert (json_ok (Object (key_entry k j).1)) as H.
  { destruct j as [| | | | | m |]; simpl; try (split; [by repeat constructor | done]).
    apply json_ok_Object in Hj as [H1 H2]. destruct (assoc k m); cbn [fst]; [by apply json_ok_Object |].
    by apply map_set_members. }
  apply json_ok_Object in H as [H1 H2]. by apply map_set_members.
Qed.

Lemma set_key_Object k v m : ordered m -> set_key k v (Object m) = Object (map_set k v m).
Proof.
  intros Hm. unfold set_key. simpl. destruct (assoc k m); simpl; [done |]. by rewrite map_set_set.
Qed.

Lemma assoc_map_erase k k' (m : list (str * json real)) :
  assoc k' (map_erase k m) = if decide (k' = k) then None else assoc k' m.
Proof.
  induction m as [|[k1 v] m IH]; simpl; [by case_decide |]. unfold map_erase in *. rewrite filter_cons. simpl.
  destruct (decide (k1 <> k)) as [H | H]; simpl.
  - rewrite IH. repeat case_decide; congruence.
  - apply dec_stable in H as ->. rewrite IH. repeat case_decide; congruence.
Qed.

(** An object is a map from keys to values: after [j[k] = v] the key [k] has
    the value [v] and every other key the value it had, after [erase(k)] the
    key is gone and the others are as before, [contains] tells whether [get]
    finds the key, and all changes keep the entries in the order of the keys. *)
Lemma object_is_a_map k k' v m :
  json_ok (Object m) -> json_ok v ->
  get k' (set_key k v (Object m)) = (if decide (k' = k) then Ok v else get k' (Object m))
  /\ (k' = k -> contains k' (erase_key k (Object m)) = false)
  /\ (k' <> k -> get k' (erase_key k (Object m)) = get k' (Object m))
  /\ (contains k (Object m) = true <-> exists w, get k (Object m) = Ok w)
  /\ json_ok (set_key k v (Object m)) /\ json_ok (erase_key k (Object m)).
Proof.
  intros Hm Hv. pose proof Hm as [H1 H2]%json_ok_Object. split_and!.
  - rewrite set_key_Object by done. cbn [get]. rewrite assoc_map_set by done. by case_decide.
  - intros ->. cbn [erase_key contains]. rewrite assoc_map_erase, decide_True by done. done.
  - intros Hk. cbn [erase_key get]. by rewrite assoc_map_erase, decide_False.
  - cbn [contains get]. rewrite bool_decide_eq_true. destruct (assoc k m) as [w|]; split; try naive_solver.
  - by apply set_key_ok.
  - apply json_ok_Object. split.
    + unfold map_erase. clear - H1. induction H1 as [|e m H1 IH He]; [constructor |].
      rewrite filter_cons. case_decide; [|done]. constructor; [done |]. apply list.Forall_forall. intros x Hx.
      apply list_elem_of_filter in Hx as [_ Hx]. by eapply list.Forall_forall in He.
    + apply list.Forall_forall. intros x Hx. apply list_elem_of_filter in Hx as [_ Hx]. by eapply list.Forall_forall in H2.
Qed.

(** The path to a member of nested objects finds it: [at_path] of the
    keys joined by the delimiter, which none of them contains, is the value
    that [get] of one key after the other finds. *)
Lemma at_path_finds delim j k ks :
  Forall (fun s => s <> [] /\ (delim ∉ s)) (k :: ks) ->
  at_path (k ++ concat ((fun y => delim :: y) <$> ks)) delim j
  = foldl (fun r k => let? j := r in get k j) (Ok j) (k :: ks).
Proof.
  intros H. assert (split (k ++ concat ((fun y => delim :: y) <$> ks)) delim = k :: ks) as E by by apply split_joined.
  unfold at_path. rewrite E. cbn [foldl rbind]. clear.
  generalize (get k j). induction ks as [|k' ks IH]; intros [j'|e]; simpl;
    first [done | apply (IH (get k' j')) | apply (IH (Throw e))].
Qed.

(** ** Printing *)

Section Print.
Context (real_to_string real_to_stream : real -> str).

(** [join(range, delim)]. *)
Definition join (delim : str) (l : list str) : str :=
  match l with
  | [] => []
  | x :: l => x ++ concat ((fun y => delim ++ y) <$> l)
  end.

Definition quoted (s : str) : str := DQUOTE :: s ++ [DQUOTE].
Definition member (k v : str) : str := quoted k ++ lit ": " ++ v.

Fixpoint dump_with (real_out : real -> str) (j : json real) : str :=
  match j with
  | Null => lit "null"
  | Integer z => to_string_z z
  | Real r => real_out r
  | Boolean b => if b then lit "true" else lit "false"
  | String s => quoted s
  | Object m => lit "{" ++ join (lit ", ") ((fun e => member e.1 (dump_with real_out e.2)) <$> m) ++ lit "}"
  | Array l => lit "[" ++ join (lit ", ") (dump_with real_out <$> l) ++ lit "]"
  end.

(** [str()] uses [std::to_string] and [dump()] the stream's [operator<<]. *)
Definition str_ : json real -> str := dump_with real_to_string.
Definition dump : json real -> str := dump_with real_to_stream.
End Print.

(** ** Comparison *)

(** Positions of the types, which are numbered as in [json_type]. *)
Definition order (j : json real) : nat :=
  match j with
  | Null => 0 | Integer _ => 2 | Real _ => 2 | Boolean _ => 1 | String _ => 5 | Object _ => 3 | Array _ => 4
  end.

Section Compare.
Context (real_eqb real_ltb : real -> real -> bool) (real_of : Z -> real).

Section lex.
Context {A B : Type} (lt2 : A -> B -> bool * bool).
(** [std::lexicographical_compare] both ways. *)
Fixpoint lex2 (x : list A) (y : list B) : bool * bool :=
  match x, y with
  | [], [] => (false, false)
  | [], _ :: _ => (true, false)
  | _ :: _, [] => (false, true)
  | a :: x, b :: y =>
    let '(l, g) := lt2 a b in
    (if l then true else if g then false else (lex2 x y).1,
     if g then true else if l then false else (lex2 x y).2)
  end.
End lex.

(** [operator<] of pairs. *)
Definition pair2 (k k' : str) (v : bool * bool) : bool * bool :=
  (str_ltb k k' || (negb (str_ltb k' k) && v.1), str_ltb k' k || (negb (str_ltb k k') && v.2)).

(** [a < b] and [b < a], which [std::lexicographical_compare] both asks for. *)
Fixpoint less2 (a b : json real) {struct a} : bool * bool :=
  match a, b with
  | Object m, Object m' => lex2 (fun e e' => pair2 e.1 e'.1 (less2 e.2 e'.2)) m m'
  | Array l, Array l' => lex2 less2 l l'
  | Null, Null => (false, false)
  | Boolean x, Boolean y => (negb x && y, negb y && x)
  | String x, String y => (str_ltb x y, str_ltb y x)
  | Real x, Real y => (real_ltb x y, real_ltb y x)
  | Integer x, Integer y => ((x <? y)%Z, (y <? x)%Z)
  | Integer x, Real y => (real_ltb (real_of x) y, real_ltb y (real_of x))
  | Real x, Integer y => (real_ltb x (real_of y), real_ltb (real_of y) x)
  | _, _ => ((order a <? order b)%nat, (order b <? order a)%nat)
  end.

Definition less (a b : json real) : bool := (less2 a b).1.
Definition less_equal (a b : json real) : bool := negb (less b a).
Definition greater (a b : json real) : bool := negb (less_equal a b).
Definition greater_equal (a b : json real) : bool := negb (less a b).

Section eqs.
Context {A : Type} (eq : A -> A -> bool).
Fixpoint eqs (x y : list A) : bool :=
  match x, y with
  | [], [] => true
  | a :: x, b :: y => eq a b && eqs x y
  | _, _ => false
  end.
End eqs.

Fixpoint equal (a b : json real) {struct a} : bool :=
  match a, b with
  | Object m, Object m' => eqs (fun e e' => bool_decide (e.1 = e'.1) && equal e.2 e'.2) m m'
  | Array l, Array l' => eqs equal l l'
  | Null, Null => true
  | Boolean x, Boolean y => bool_decide (x = y)
  | String x, String y => bool_decide (x = y)
  | Real x, Real y => real_eqb x y
  | Integer x, Integer y => (x =? y)%Z
  | _, _ => false
  end.

(** ** The order *)

Fixpoint real_free (j : json real) : Prop :=
  match j with
  | Real _ => False
  | Object m => foldr (fun e P => real_free e.2 /\ P) True m
  | Array l => foldr (fun j P => real_free j /\ P) True l
  | _ => True
  end.

Section lexicographic.
Context {A : Type} (lt2 : A -> A -> bool * bool) (free : A -> Prop).

(** Exactly one of less, equal and greater, seen from both sides. *)
Definition trichotomy (x : A) : Prop := forall y, free y ->
  (lt2 x y = (false, false) /\ x = y) \/ (lt2 x y = (true, false) /\ lt2 y x = (false, true))
  \/ (lt2 x y = (false, true) /\ lt2 y x = (true, false)).

Definition transitive (x : A) : Prop := forall y z, free y -> free z ->
  lt2 x y = (true, false) -> lt2 y z = (true, false) -> lt2 x z = (true, false).

Lemma lex2_trichotomy l l' :
  Forall trichotomy l -> Forall free l' ->
  (lex2 lt2 l l' = (false, false) /\ l = l') \/ (lex2 lt2 l l' = (true, false) /\ lex2 lt2 l' l = (false, true))
  \/ (lex2 lt2 l l' = (false, true) /\ lex2 lt2 l' l = (true, false)).
Proof.
  intros Hl. revert l'. induction Hl as [|x l Hx Hl IH]; intros [|y l'] Hf; simpl; [auto.. |].
  apply Forall_cons_1 in Hf as [Hy Hf].
  destruct (Hx y Hy) as [[E <-] | [[E1 E2] | [E1 E2]]].
  - rewrite E. destruct (IH l' Hf) as [[E' <-] | [[E1' E2'] | [E1' E2']]]; [left | right; left | right; right];
      rewrite ?E', ?E1', ?E2'; auto.
  - rewrite E1, E2. auto.
  - rewrite E1, E2. auto.
Qed.

Lemma lex2_transitive l l' l'' :
  (forall x, free x -> trichotomy x) -> Forall transitive l -> Forall free l -> Forall free l' -> Forall free l'' ->
  lex2 lt2 l l' = (true, false) -> lex2 lt2 l' l'' = (true, false) -> lex2 lt2 l l'' = (true, false).
Proof.
  intros Htri Hl. revert l' l''. induction Hl as [|x l Hx Hl IH]; intros [|y l'] [|z l''] Hf Hf' Hf''; simpl; try done.
  apply Forall_cons_1 in Hf as [Hfx Hf], Hf' as [Hfy Hf'], Hf'' as [Hfz Hf''].
  destruct (Htri x Hfx y Hfy) as [[Exy <-] | [[Exy Eyx] | [Exy _]]]; rewrite Exy; [| |done].
  - destruct (Htri x Hfx z Hfz) as [[Exz <-] | [[Exz _] | [Exz _]]]; rewrite Exz; [|done|done].
    destruct (lex2 lt2 l l') as [[] []] eqn:E1, (lex2 lt2 l' l'') as [[] []] eqn:E2; try done. intros _ _.
    by rewrite (IH l' l'' Hf Hf' Hf'' E1 E2).
  - intros _. destruct (Htri y Hfy z Hfz) as [[Eyz <-] | [[Eyz _] | [Eyz _]]]; rewrite Eyz; [| |done].
    + intros _. by rewrite Exy.
    + intros _. by rewrite (Hx y z Hfy Hfz Exy Eyz).
Qed.
End lexicographic.

Lemma real_free_members m : real_free (Object m) <-> Forall (fun e => real_free e.2) m.
Proof. simpl. induction m as [|e m IH]; simpl; [by split; constructor |]. rewrite IH. symmetry. apply Forall_cons_iff. Qed.

Lemma real_free_elements l : real_free (Array l) <-> Forall real_free l.
Proof. simpl. induction l as [|e m IH]; simpl; [by split; constructor |]. rewrite IH. symmetry. apply Forall_cons_iff. Qed.

Abbreviation member2 := (fun e e' : str * json real => pair2 e.1 e'.1 (less2 e.2 e'.2)).

Lemma pair2_trichotomy e :
  trichotomy less2 real_free e.2 -> trichotomy member2 (fun e => real_free e.2) e.
Proof.
  destruct e as [k v]. intros Hv [k' v'] Hf. simpl in *. unfold pair2.
  destruct (str_ltb_total k k') as [H | [<- | H]].
  - rewrite H, (str_ltb_asym _ _ H). simpl. auto.
  - rewrite str_ltb_irrefl. simpl. destruct (Hv v' Hf) as [[E <-] | [[E1 E2] | [E1 E2]]];
      rewrite ?E, ?E1, ?E2; auto.
  - rewrite H, (str_ltb_asym _ _ H). simpl. auto.
Qed.

Lemma pair2_transitive e :
  transitive less2 real_free e.2 -> transitive member2 (fun e => real_free e.2) e.
Proof.
  destruct e as [k v]. intros Hv [k' v'] [k'' v''] Hf Hf'. simpl in *. unfold pair2.
  destruct (str_ltb_total k k') as [H | [<- | H]]; [rewrite H, (str_ltb_asym _ _ H); simpl | | by rewrite H, (str_ltb_asym _ _ H)].
  - intros _. destruct (str_ltb_total k' k'') as [H' | [<- | H']]; [| |by rewrite H', (str_ltb_asym _ _ H')].
    + intros _. assert (str_ltb k k'' = true) as E by (by eapply str_ltb_trans). by rewrite E, (str_ltb_asym _ _ E).
    + intros _. by rewrite H, (str_ltb_asym _ _ H).
  - rewrite str_ltb_irrefl. simpl. intros H1.
    destruct (str_ltb_total k k'') as [H' | [<- | H']]; [by rewrite H', (str_ltb_asym _ _ H') | |by rewrite H', (str_ltb_asym _ _ H')].
    rewrite str_ltb_irrefl. simpl. intros H2.
    destruct (less2 v v') as [[] []] eqn:E1; simplify_eq. destruct (less2 v' v'') as [[] []] eqn:E2; simplify_eq.
    by rewrite (Hv v' v'' Hf Hf' E1 E2).
Qed.

Lemma less2_trichotomy a : real_free a -> trichotomy less2 real_free a.
Proof.
  induction a as [| z | r | x | s | m IH | l IH] using json_ind'; intros Ha [| z' | r' | y | s' | m' | l'] Hb; try done;
    try (simpl; by auto).
  - simpl. destruct (Z.lt_trichotomy z z') as [H | [<- | H]].
    + rewrite (proj2 (Z.ltb_lt _ _) H), (proj2 (Z.ltb_ge z' z)) by lia. auto.
    + rewrite Z.ltb_irrefl. auto.
    + rewrite (proj2 (Z.ltb_lt _ _) H), (proj2 (Z.ltb_ge z z')) by lia. auto.
  - destruct x, y; simpl; auto.
  - simpl. destruct (str_ltb_total s s') as [H | [<- | H]].
    + rewrite H, (str_ltb_asym _ _ H). auto.
    + rewrite str_ltb_irrefl. auto.
    + rewrite H, (str_ltb_asym _ _ H). auto.
  - apply real_free_members in Ha, Hb. cbn [less2].
    destruct (lex2_trichotomy member2 (fun e => real_free e.2) m m') as [[E <-] | H]; [| done | by auto | by auto].
    clear - IH Ha. induction IH as [|e m He IH IHm]; constructor; apply Forall_cons_1 in Ha as [He' Ha]; [|auto].
    apply pair2_trichotomy. auto.
  - apply real_free_elements in Ha, Hb. cbn [less2].
    destruct (lex2_trichotomy less2 real_free l l') as [[E <-] | H]; [| done | by auto | by auto].
    clear - IH Ha. induction IH as [|e m He IH IHm]; constructor; apply Forall_cons_1 in Ha as [He' Ha]; auto.
Qed.

Lemma less2_transitive a : real_free a -> transitive less2 real_free a.
Proof.
  induction a as [| z | r | x | s | m IH | l IH] using json_ind'; intros Ha [| z' | r' | y | s' | m' | l'] c Hb Hc; try done;
    destruct c as [| z'' | r'' | y' | s'' | m'' | l'']; try done; try (destruct x); try (destruct y); try (destruct y'); try done.
  - simpl. intros [= H1 H2] [= H3 H4]. breflect. rewrite (proj2 (Z.ltb_lt z z'')), (proj2 (Z.ltb_ge z'' z)) by lia. done.
  - simpl. intros [= H1 H2] [= H3 H4]. pose proof (str_ltb_trans _ _ _ H1 H3) as H. by rewrite H, (str_ltb_asym _ _ H).
  - apply real_free_members in Ha, Hb, Hc. cbn [less2].
    apply (lex2_transitive member2 (fun e => real_free e.2)); try done.
    + intros e He. by apply pair2_trichotomy, less2_trichotomy.
    + clear - IH Ha. induction IH as [|e m He IH IHm]; constructor; apply Forall_cons_1 in Ha as [He' Ha]; [|auto].
      apply pair2_transitive. auto.
  - apply real_free_elements in Ha, Hb, Hc. cbn [less2]. apply (lex2_transitive less2 real_free); try done.
    + exact less2_trichotomy.
    + clear - IH Ha. induction IH as [|e m He IH IHm]; constructor; apply Forall_cons_1 in Ha as [He' Ha]; auto.
Qed.

(** On values without floating-point numbers the comparison operators are a
    strict total order and its negations: [<] is irreflexive and transitive,
    of two different values exactly one is less, and [>], [<=] and [>=] agree
    with it. *)
Lemma less_total_order a b c :
  real_free a -> real_free b -> real_free c ->
  less a a = false /\ (less a b = true -> less b c = true -> less a c = true)
  /\ (less a b = true \/ a = b \/ less b a = true) /\ (less a b = true -> less b a = false)
  /\ greater a b = less b a /\ less_equal a b = negb (less b a) /\ greater_equal a b = negb (less a b).
Proof.
  intros Ha Hb Hc. unfold greater, greater_equal, less_equal, less.
  pose proof (less2_trichotomy a Ha) as Ta. pose proof (less2_transitive a Ha b c Hb Hc) as Tr.
  pose proof (less2_trichotomy b Hb c Hc) as Tb. pose proof (Ta a Ha) as Taa. specialize (Ta b Hb). split_and!.
  - by destruct Taa as [[-> _] | [[E1 E2] | [E1 E2]]]; [| rewrite E1 in E2 | rewrite E1 in E2].
  - intros H1 H2. destruct Ta as [[E _] | [[E _] | [E _]]]; [by rewrite E in H1 | | by rewrite E in H1].
    destruct Tb as [[E' _] | [[E' _] | [E' _]]]; [by rewrite E' in H2 | | by rewrite E' in H2]. by rewrite Tr.
  - destruct Ta as [[_ ->] | [[-> _] | [_ ->]]]; auto.
  - intros H. destruct Ta as [[E <-] | [[_ ->] | [E _]]]; [by rewrite E in * | done | by rewrite E in H].
  - apply negb_involutive.
  - done.
  - done.
Qed.
End Compare.

End Values.

Definition sample_json : json unit := Object [(lit "a", Object [(lit "b", Integer 1)]); (lit "c", Null)].

Lemma sample_json_ok : json_ok sample_json.
Proof. simpl. repeat constructor. Qed.

Lemma object_is_a_map_witness :
  get (lit "b") (set_key (lit "b") (Boolean true) sample_json) = Ok (Boolean true).
Proof.
  destruct (object_is_a_map (lit "b") (lit "b") (Boolean true)
              [(lit "a", Object [(lit "b", Integer 1)]); (lit "c", Null)] sample_json_ok) as [H _].
  - exact I.
  - rewrite decide_True in H by reflexivity. exact H.
Defined.

Lemma at_path_finds_witness : at_path (lit "a.b") "."%char sample_json = Ok (Integer 1).
Proof.
  apply (at_path_finds "."%char sample_json (lit "a") [lit "b"]).
  repeat constructor; vm_compute; try done; set_solver.
Defined.

Lemma less_total_order_witness :
  let lt := less (fun _ _ => false) (fun _ => ()) in
  lt (Array [Integer 1; Null]) (Array [Integer 1; Boolean true]) = true
  /\ lt (Array [Integer 1; Null]) (String []) = true.
Proof.
  intros lt. split; [reflexivity |].
  destruct (less_total_order (fun _ _ => false) (fun _ => ()) (Array [Integer 1; Null])
              (Array [Integer 1; Boolean true]) (String [])) as (_ & H & _).
  - repeat split.
  - repeat split.
  - repeat split.
  - apply H; reflexivity.
Defined.

End Json.
