(* ===== verification/JsonParser.v ===== *)
(** * The json parser

    Model of [generic_json_parser<T>]
    (include/matador/json/generic_json_parser.hpp, src/json/generic_json_parser.cpp)
    and of [json_parser] (src/json/json_parser.cpp). The concrete parser [T],
    whose callbacks the generic one calls, is an instance of the class
    [JsonHandler]; [json_parser] is the instance that builds a [json] value.

    The cursor is the unread rest of the C string; reading behind its
    terminator is undefined behaviour. [errno] is not reset by the parser, so
    whether it is [ERANGE] is part of the state. *)

From S2P Require Import Prelude Json.

Local Open Scope cxx_scope.

Module JsonParser.
Import Json.

(** Tests of known characters. *)
Ltac eval_test t :=
  let v := eval vm_compute in t in
  match v with
  | true => change t with true
  | false => change t with false
  end.

(** ** Events *)

(** The callbacks of the concrete parser. *)
Class JsonHandler (real S : Type) := {
  on_begin_object : S -> result S;
  on_object_key : str -> S -> result S;
  on_end_object : S -> result S;
  on_begin_array : S -> result S;
  on_end_array : S -> result S;
  on_string : str -> S -> result S;
  on_real : real -> S -> result S;
  on_integer : Z -> S -> result S;
  on_bool : bool -> S -> result S;
  on_null : S -> result S }.

Definition LLONG_MAX : Z := 2 ^ 63 - 1.
Definition LLONG_MIN : Z := - 2 ^ 63.

Section Generic.
Context {real : Type}.

(** [strtod]: the value, the rest and whether [errno] became [ERANGE]; and
    whether a value is zero or infinite. *)
Context (strtod : str -> real * str * bool) (real_limit : real -> bool).

Context {S : Type} `{!JsonHandler real S}.

(** ** The cursor *)

Definition current_char (cur : str) : ascii := match cur with [] => NUL | c :: _ => c end.
Arguments current_char !_ /.
Definition is_eos (c : ascii) : bool := bool_decide (c = NUL).

Definition next_char (cur : str) : result str :=
  match cur with
  | [] => Throw (undefined_behaviour "read behind the end of the string")
  | _ :: cur => Ok cur
  end.

(** [case] labels of a [switch]. *)
Definition one_of (set : str) (c : ascii) : bool := bool_decide (c ∈ set).

(** ** Strings *)

Definition escape (c : ascii) : option ascii :=
  if one_of (DQUOTE :: BACKSLASH :: lit "/") c then Some c
  else if bool_decide (c = "b"%char) then Some (chr 8)
  else if bool_decide (c = "f"%char) then Some (chr 12)
  else if bool_decide (c = "n"%char) then Some LF
  else if bool_decide (c = "r"%char) then Some CR
  else if bool_decide (c = "t"%char) then Some TAB
  else None.

(** The loop behind the opening quote. *)
Fixpoint string_loop (value cur : str) : result (str * str) :=
  match cur with
  | [] => Ok (value, cur)
  | c :: cur' =>
    if bool_decide (c = DQUOTE) then Ok (value, cur')
    else if bool_decide (c = BACKSLASH) then
      match cur' with
      | [] => Throw (json_exception "invalid json control string character")
      | e :: cur'' =>
        match escape e with
        | Some x => string_loop (value ++ [x]) cur''
        | None =>
          if bool_decide (e = "u"%char) then
            match cur'' with
            | h1 :: h2 :: h3 :: h4 :: cur''' =>
              if forallb isxdigit [h1; h2; h3; h4]
              then string_loop (value ++ [BACKSLASH; "u"%char; h1; h2; h3; h4]) cur'''
              else Throw (json_exception "invalid json string hex character")
            | _ => Throw (json_exception "invalid json string hex character")
            end
          else Throw (json_exception "invalid json control string character")
        end
      end
    else string_loop (value ++ [c]) cur'
  end.

Definition parse_json_string (cur : str) : result (str * str) :=
  let cur := skip_spaces cur in
  let c := current_char cur in
  if negb (is_eos c) && negb (bool_decide (c = DQUOTE)) then Throw (json_exception "expected string opening quotes")
  else let? cur := next_char cur in string_loop [] cur.

(** ** Numbers *)

(** [strtoll(s, &end, 10)]: value, end and whether it was out of range. *)
Definition strtoll (s : str) : Z * str * bool :=
  let s1 := skip_spaces s in
  let '(neg, s2) :=
    match s1 with
    | c :: s' => if bool_decide (c = "-"%char) then (true, s')
                 else if bool_decide (c = "+"%char) then (false, s') else (false, s1)
    | [] => (false, s1)
    end in
  let '(v, n, rest) := digits 10 0 0 s2 in
  if (n =? 0)%nat then (0%Z, s, false)
  else
    let v := (if neg then - v else v)%Z in
    if (LLONG_MAX <? v)%Z then (LLONG_MAX, rest, true)
    else if (v <? LLONG_MIN)%Z then (LLONG_MIN, rest, true)
    else (v, rest, false).

Inductive number_t := IntegerNumber (z : Z) | RealNumber (r : real).

Definition is_error_integer (start end_ : str) (erange : bool) (value : Z) : bool :=
  bool_decide (start = end_) || (erange && ((value =? 0) || (value =? LLONG_MAX) || (value =? LLONG_MIN))%Z).
Definition is_error_real (start end_ : str) (erange : bool) (value : real) : bool :=
  bool_decide (start = end_) || (erange && real_limit value).

Definition number_end (c : ascii) : bool :=
  is_eos c || one_of (LF :: lit " ,]}") c.

Definition parse_json_number (cur : str) (erange : bool) : result (number_t * str * bool) :=
  let '(integer, end_, range) := strtoll cur in
  let erange := erange || range in
  if is_error_integer cur end_ erange integer then Throw (json_exception "errno integer error")
  else
    let? (value, end_, erange) :=
      (if bool_decide (current_char end_ = "."%char)
       then
         let '(r, end_, range) := strtod cur in
         let erange := erange || range in
         if is_error_real cur end_ erange r then Throw (json_exception "errno double error")
         else Ok (RealNumber r, end_, erange)
       else Ok (IntegerNumber integer, end_, erange)) in
    if number_end (current_char end_) then Ok (value, end_, erange)
    else Throw (json_exception "invalid json character").

Definition on_parse_number (n : number_t) (st : S) : result S :=
  match n with
  | RealNumber r => on_real r st
  | IntegerNumber z => on_integer z st
  end.

(** ** Constants *)

(** [compare_string] of the characters behind the first one, and the loop of
    [parse_json_null], which has another message. *)
Fixpoint compare_string (mismatch : string) (to_compare cur : str) : result str :=
  match to_compare with
  | [] => Ok cur
  | x :: to_compare =>
    let? cur := next_char cur in
    let c := current_char cur in
    if is_eos c then Throw (json_exception "unexpected end of string")
    else if negb (bool_decide (x = c)) then Throw (json_exception mismatch)
    else compare_string mismatch to_compare cur
  end.

Definition parse_json_bool (cur : str) : result (bool * str) :=
  let c := current_char cur in
  if bool_decide (c = "t"%char) then
    let? cur := compare_string "invalid character for bool value string" (lit "rue") cur in
    let? cur := next_char cur in Ok (true, cur)
  else if bool_decide (c = "f"%char) then
    let? cur := compare_string "invalid character for bool value string" (lit "alse") cur in
    let? cur := next_char cur in Ok (false, cur)
  else Throw (json_exception "invalid bool character").

Definition parse_json_null (cur : str) : result str :=
  if bool_decide (current_char cur = "n"%char) then
    let? cur := compare_string "invalid null character" (lit "ull") cur in next_char cur
  else Throw (logic_error "invalid bool character").

(** ** Objects and arrays *)

(** State of the concrete parser, cursor, [errno]. *)
Abbreviation parser := (S * str * bool)%type.

(** The end of [on_parse_object] and [on_parse_array]. *)
Definition close (bracket : ascii) (on_end : S -> result S) (check_for_eos : bool) (p : parser) : result parser :=
  let '(st, cur, errno) := p in
  let cur := skip_spaces cur in
  let c := current_char cur in
  if negb (bool_decide (c = bracket)) then Throw (json_exception (if bool_decide (bracket = "}"%char) then "not a valid object closing bracket"
                               else "not a valid array closing bracket"))
  else
    let? st := on_end st in
    if negb check_for_eos && is_eos c then Throw (json_exception "unexpected end of string")
    else if is_eos c then Ok (st, cur, errno)
    else let? cur := next_char cur in Ok (st, cur, errno).

(** The beginning: [None] if there is something between the brackets. *)
Definition open (bracket : ascii) (on_begin on_end : S -> result S) (p : parser) : result (parser * bool) :=
  let '(st, cur, errno) := p in
  let? st := on_begin st in
  let? cur := next_char cur in
  let cur := skip_spaces cur in
  if bool_decide (current_char cur = bracket) then
    let? cur := next_char cur in
    let? st := on_end st in Ok ((st, cur, errno), true)
  else Ok ((st, cur, errno), false).

(** What follows a value in a list: a comma and another one, or not. *)
Definition comma (cur : str) : result (str * bool) :=
  let cur := skip_spaces cur in
  if bool_decide (current_char cur = ","%char) then let? cur := next_char cur in Ok (cur, true)
  else Ok (cur, false).

Fixpoint parse_json_value (fuel : nat) (p : parser) : result parser :=
  match fuel with
  | O => Throw out_of_fuel
  | Datatypes.S fuel =>
    let '(st, cur, errno) := p in
    let cur := skip_spaces cur in
    let c := current_char cur in
    if is_eos c then Throw (json_exception "invalid stream")
    else if bool_decide (c = "{"%char) then
      let? (p, done) := open "}"%char on_begin_object on_end_object (st, cur, errno) in
      if done then Ok p else let? p := members fuel p in close "}"%char on_end_object false p
    else if bool_decide (c = "["%char) then
      let? (p, done) := open "]"%char on_begin_array on_end_array (st, cur, errno) in
      if done then Ok p else let? p := elements fuel p in close "]"%char on_end_array true p
    else if bool_decide (c = DQUOTE) then
      let? (v, cur) := parse_json_string cur in
      let? st := on_string v st in Ok (st, cur, errno)
    else if one_of (lit "-0123456789.") c then
      let? (n, cur, errno) := parse_json_number cur errno in
      let? st := on_parse_number n st in Ok (st, cur, errno)
    else if one_of (lit "tf") c then
      let? (b, cur) := parse_json_bool cur in
      let? st := on_bool b st in Ok (st, cur, errno)
    else if bool_decide (c = "n"%char) then
      let? cur := parse_json_null cur in
      let? st := on_null st in Ok (st, cur, errno)
    else Throw (json_exception "unknown json type")
  end
(** The loop of [on_parse_object]. *)
with members (fuel : nat) (p : parser) : result parser :=
  match fuel with
  | O => Throw out_of_fuel
  | Datatypes.S fuel =>
    let '(st, cur, errno) := p in
    let? (k, cur) := parse_json_string cur in
    let? st := on_object_key k st in
    let cur := skip_spaces cur in
    let c := current_char cur in
    if is_eos c then Throw (json_exception "invalid stream")
    else if negb (bool_decide (c = ":"%char)) then Throw (json_exception "character isn't colon")
    else
      let? cur := next_char cur in
      let? (st, cur, errno) := parse_json_value fuel (st, cur, errno) in
      let? (cur, has_next) := comma cur in
      if has_next then members fuel (st, cur, errno) else Ok (st, cur, errno)
  end
(** The loop of [on_parse_array]. *)
with elements (fuel : nat) (p : parser) : result parser :=
  match fuel with
  | O => Throw out_of_fuel
  | Datatypes.S fuel =>
    let? (st, cur, errno) := parse_json_value fuel p in
    let? (cur, has_next) := comma cur in
    if has_next then elements fuel (st, cur, errno) else Ok (st, cur, errno)
  end.

Lemma members_S fuel st cur errno :
  members (Datatypes.S fuel) (st, cur, errno)
  = let? (k, cur) := parse_json_string cur in
    let? st := on_object_key k st in
    let cur := skip_spaces cur in
    let c := current_char cur in
    if is_eos c then Throw (json_exception "invalid stream")
    else if negb (bool_decide (c = ":"%char)) then Throw (json_exception "character isn't colon")
    else
      let? cur := next_char cur in
      let? (st, cur, errno) := parse_json_value fuel (st, cur, errno) in
      let? (cur, has_next) := comma cur in
      if has_next then members fuel (st, cur, errno) else Ok (st, cur, errno).
Proof. reflexivity. Qed.

Lemma elements_S fuel p :
  elements (Datatypes.S fuel) p
  = let? (st, cur, errno) := parse_json_value fuel p in
    let? (cur, has_next) := comma cur in
    if has_next then elements fuel (st, cur, errno) else Ok (st, cur, errno).
Proof. reflexivity. Qed.

Definition on_parse_object (fuel : nat) (check_for_eos : bool) (p : parser) : result parser :=
  let? (p, done) := open "}"%char on_begin_object on_end_object p in
  if done then Ok p else let? p := members fuel p in close "}"%char on_end_object check_for_eos p.

Definition on_parse_array (fuel : nat) (check_for_eos : bool) (p : parser) : result parser :=
  let? (p, done) := open "]"%char on_begin_array on_end_array p in
  if done then Ok p else let? p := elements fuel p in close "]"%char on_end_array check_for_eos p.

(** The C string of a [std::string]. *)
Fixpoint c_str (s : str) : str :=
  match s with
  | [] => []
  | c :: s => if bool_decide (c = NUL) then [] else c :: c_str s
  end.

(** Every turn of a loop and every nested value reads a character. *)
Definition fuel_for (s : str) : nat := 2 * length s + 2.

Definition parse_json (s : str) (check_for_eos : bool) (st : S) (errno : bool) : result parser :=
  let cur := skip_spaces s in
  let c := current_char cur in
  if is_eos c then Throw (json_exception "invalid stream")
  else
    let? (st, cur, errno) :=
      (if bool_decide (c = "{"%char) then on_parse_object (fuel_for cur) check_for_eos (st, cur, errno)
       else if bool_decide (c = "["%char) then on_parse_array (fuel_for cur) check_for_eos (st, cur, errno)
       else parse_json_value (fuel_for cur) (st, cur, errno)) in
    let cur := skip_spaces cur in
    if check_for_eos && negb (is_eos (current_char cur))
    then Throw (json_exception "no characters are allowed after closed root node")
    else Ok (st, cur, errno).

(** ** Texts

    What the parser is meant to read: a value with any white space between its
    tokens. The members of an object are those of the text, in its order. *)

Definition spaces (w : str) : Prop := Forall (fun c => isspace c = true) w.

(** The escapes of the json grammar. *)
Definition json_escapes : list (ascii * ascii) :=
  [(DQUOTE, DQUOTE); (BACKSLASH, BACKSLASH); ("/"%char, "/"%char); ("b"%char, chr 8); ("f"%char, chr 12);
   ("n"%char, chr 10); ("r"%char, chr 13); ("t"%char, chr 9)].

Inductive string_text : str -> str -> Prop :=
| st_nil : string_text [] []
| st_plain c v s : c <> DQUOTE -> c <> BACKSLASH -> c <> NUL -> string_text v s -> string_text (c :: v) (c :: s)
| st_escape e c v s : (e, c) ∈ json_escapes -> string_text v s -> string_text (c :: v) (BACKSLASH :: e :: s)
| st_unicode h1 h2 h3 h4 v s :
    forallb isxdigit [h1; h2; h3; h4] = true -> string_text v s ->
    string_text (BACKSLASH :: "u"%char :: h1 :: h2 :: h3 :: h4 :: v)
                (BACKSLASH :: "u"%char :: h1 :: h2 :: h3 :: h4 :: s).

(** White space behind a value; behind a number it starts with a blank or a
    line feed. *)
Definition gap (j : json real) (w : str) : Prop :=
  spaces w /\ (is_number j = true -> match w with [] => True | c :: _ => c = LF \/ c = " "%char end).

Inductive value_text : json real -> str -> Prop :=
| vt_null : value_text Null (lit "null")
| vt_true : value_text (Boolean true) (lit "true")
| vt_false : value_text (Boolean false) (lit "false")
| vt_integer z : (LLONG_MIN <= z <= LLONG_MAX)%Z -> value_text (Integer z) (to_string_z z)
| vt_string v s : string_text v s -> value_text (String v) (DQUOTE :: s ++ [DQUOTE])
| vt_empty_object w : spaces w -> value_text (Object []) ("{"%char :: w ++ ["}"%char])
| vt_object m s : members_text m s -> value_text (Object m) ("{"%char :: s ++ ["}"%char])
| vt_empty_array w : spaces w -> value_text (Array []) ("["%char :: w ++ ["]"%char])
| vt_array l s : elements_text l s -> value_text (Array l) ("["%char :: s ++ ["]"%char])
with members_text : list (str * json real) -> str -> Prop :=
| mt_last k j s : member_text k j s -> members_text [(k, j)] s
| mt_cons k j s m s' : member_text k j s -> members_text m s' -> members_text ((k, j) :: m) (s ++ ","%char :: s')
with member_text : str -> json real -> str -> Prop :=
| mt_member w1 k ks w2 w3 j t w4 :
    spaces w1 -> string_text k ks -> spaces w2 -> spaces w3 -> value_text j t -> gap j w4 ->
    member_text k j (w1 ++ DQUOTE :: ks ++ DQUOTE :: w2 ++ ":"%char :: w3 ++ t ++ w4)
with elements_text : list (json real) -> str -> Prop :=
| et_last w j t w' : spaces w -> value_text j t -> gap j w' -> elements_text [j] (w ++ t ++ w')
| et_cons w j t w' l s :
    spaces w -> value_text j t -> gap j w' -> elements_text l s ->
    elements_text (j :: l) ((w ++ t ++ w') ++ ","%char :: s).

Scheme value_text_mut := Induction for value_text Sort Prop
  with members_text_mut := Induction for members_text Sort Prop
  with member_text_mut := Induction for member_text Sort Prop
  with elements_text_mut := Induction for elements_text Sort Prop.

(** ** The callbacks for a value *)

Inductive event :=
| BeginObject | ObjectKey (k : str) | EndObject | BeginArray | EndArray
| StringEvent (s : str) | RealEvent (r : real) | IntegerEvent (z : Z) | BoolEvent (b : bool) | NullEvent.

Fixpoint events (j : json real) : list event :=
  match j with
  | Null => [NullEvent]
  | Integer z => [IntegerEvent z]
  | Real r => [RealEvent r]
  | Boolean b => [BoolEvent b]
  | String s => [StringEvent s]
  | Object m => BeginObject :: concat ((fun e => ObjectKey e.1 :: events e.2) <$> m) ++ [EndObject]
  | Array l => BeginArray :: concat (events <$> l) ++ [EndArray]
  end.

Definition fire (e : event) (st : S) : result S :=
  match e with
  | BeginObject => on_begin_object st
  | ObjectKey k => on_object_key k st
  | EndObject => on_end_object st
  | BeginArray => on_begin_array st
  | EndArray => on_end_array st
  | StringEvent s => on_string s st
  | RealEvent r => on_real r st
  | IntegerEvent z => on_integer z st
  | BoolEvent b => on_bool b st
  | NullEvent => on_null st
  end.

Fixpoint feed (es : list event) (st : S) : result S :=
  match es with
  | [] => Ok st
  | e :: es => let? st := fire e st in feed es st
  end.

Lemma feed_app es es' st : feed (es ++ es') st = (let? st := feed es st in feed es' st).
Proof. revert st. induction es as [|e es IH]; intros st; simpl; [done |]. destruct (fire e st); simpl; auto. Qed.

(** ** Reading the tokens *)

Lemma skip_spaces_app w s : spaces w -> isspace (current_char s) = false -> skip_spaces (w ++ s) = s.
Proof.
  intros Hw Hs. induction Hw as [|c w Hc Hw IH]; simpl; [|by rewrite Hc].
  destruct s as [|c s]; [done |]. change (isspace c = false) in Hs. simpl. by rewrite Hs.
Qed.

Lemma escape_json e c : (e, c) ∈ json_escapes -> escape e = Some c /\ e <> NUL.
Proof.
  assert (forallb (fun '(e, c) => bool_decide (escape e = Some c /\ e <> NUL)) json_escapes = true) as H by reflexivity.
  intros He. rewrite forallb_forall in H. apply list_elem_of_In in He. apply H in He. by apply bool_decide_eq_true in He.
Qed.

Lemma string_loop_text v s : string_text v s ->
  forall value rest, string_loop value (s ++ DQUOTE :: rest) = Ok (value ++ v, rest).
Proof.
  induction 1 as [| c v s H1 H2 H3 H IH | e c v s He H IH | h1 h2 h3 h4 v s Hh H IH]; intros value rest.
  - simpl. by rewrite app_nil_r.
  - cbn [app string_loop]. rewrite !bool_decide_false by done. rewrite IH. by rewrite <- app_assoc.
  - cbn [app string_loop]. rewrite bool_decide_false, bool_decide_true by done. apply escape_json in He as [-> _]. rewrite IH. by rewrite <- app_assoc.
  - cbn [app string_loop]. rewrite bool_decide_false, bool_decide_true by done.
    change (escape "u"%char) with (@None ascii). cbv iota.
    rewrite bool_decide_true by done. rewrite Hh, IH. by rewrite <- app_assoc.
Qed.

Lemma parse_json_string_text w v s rest :
  spaces w -> string_text v s -> parse_json_string (w ++ DQUOTE :: s ++ DQUOTE :: rest) = Ok (v, rest).
Proof.
  intros Hw Hs. unfold parse_json_string. rewrite skip_spaces_app by done. cbn [current_char next_char rbind].
  by rewrite (string_loop_text v s Hs).
Qed.

Lemma number_end_stops c : number_end c = true -> digit_of c = None /\ c <> "."%char.
Proof. by_chars c. Qed.

Lemma digits_stop a n rest : number_end (current_char rest) = true -> digits 10 a n rest = (a, n, rest).
Proof. intros H%number_end_stops. destruct rest as [|c rest]; [done |]. simpl in *. by destruct H as [-> _]. Qed.

Lemma strtoll_to_string z rest :
  (LLONG_MIN <= z <= LLONG_MAX)%Z -> number_end (current_char rest) = true ->
  strtoll (to_string_z z ++ rest) = (z, rest, false).
Proof.
  intros Hz Hr. unfold strtoll, to_string_z.
  assert (forall z', (0 <= z')%Z -> exists k c s, 0 < k /\ to_string_u z' = c :: s /\ isdigit c = true
            /\ digits 10 0 0 (to_string_u z' ++ rest) = (z', k, rest)) as Hd.
  { intros z' Hz'. destruct (to_string_u_nonempty z' Hz') as (c & s & E & Hc).
    destruct (digits_to_string_u z' rest 0 0 Hz') as (k & Hk & H). exists k, c, s. split_and!; try done.
    rewrite H, digits_stop by done. done. }
  destruct (z <? 0)%Z eqn:E; breflect.
  - destruct (Hd (- z)%Z) as (k & c & s & Hk & _ & _ & H); [lia |].
    cbn [app skip_spaces isspace]. change (isspace "-"%char) with false. cbv iota.
    rewrite bool_decide_true by done. rewrite H. rewrite (proj2 (Nat.eqb_neq _ _)) by lia.
    rewrite Z.opp_involutive. by rewrite !(proj2 (Z.ltb_ge _ _)) by lia.
  - destruct (Hd z) as (k & c & s & Hk & Ec & Hc & H); [lia |]. rewrite Ec in *.
    destruct (isdigit_not_space c Hc) as (H1 & H2 & H3). cbn [app skip_spaces] in *. rewrite H1.
    rewrite !bool_decide_false by done. rewrite H. rewrite (proj2 (Nat.eqb_neq _ _)) by lia.
    by rewrite !(proj2 (Z.ltb_ge _ _)) by lia.
Qed.

Lemma to_string_z_head z : exists c s, to_string_z z = c :: s /\ one_of (lit "-0123456789") c = true.
Proof.
  unfold to_string_z. destruct (z <? 0)%Z eqn:E; [by eauto |]. breflect.
  destruct (to_string_u_nonempty z) as (c & s & -> & Hc); [lia |]. exists c, s. split; [done |].
  revert Hc. by_chars c.
Qed.

Lemma parse_json_number_text z rest :
  (LLONG_MIN <= z <= LLONG_MAX)%Z -> number_end (current_char rest) = true ->
  parse_json_number (to_string_z z ++ rest) false = Ok (IntegerNumber z, rest, false).
Proof.
  intros Hz Hr. unfold parse_json_number. rewrite strtoll_to_string by done. cbn [orb].
  unfold is_error_integer. rewrite bool_decide_false.
  2: { intros E. apply (f_equal length) in E. destruct (to_string_z_head z) as (c & s & Ez & _).
       rewrite Ez, length_app in E. simpl in E. lia. }
  cbn [orb andb]. rewrite bool_decide_false by (by apply number_end_stops). cbn [rbind]. by rewrite Hr.
Qed.

Lemma compare_string_text msg c t rest :
  Forall (fun x => x <> NUL) t -> compare_string msg t (c :: t ++ rest) = Ok (default c (list.last t) :: rest).
Proof.
  revert c. induction t as [|x t IH]; intros c H; [done |]. apply Forall_cons_1 in H as [Hx H].
  cbn [compare_string app next_char rbind]. cbn [current_char]. unfold is_eos.
  rewrite bool_decide_false by done. rewrite bool_decide_true by done. cbn [negb]. rewrite IH by done.
  rewrite last_cons. by destruct (list.last t).
Qed.

(** What can follow a value. *)
Definition follows (j : json real) (rest : str) : Prop := is_number j = true -> number_end (current_char rest) = true.

Lemma gap_follows j w c rest : gap j w -> number_end c = true -> follows j (w ++ c :: rest).
Proof.
  intros [_ Hg] Hc Hj. destruct w as [|x w]; [done |]. destruct (Hg Hj) as [-> | ->]; reflexivity.
Qed.

Lemma value_text_head j t : value_text j t ->
  exists c t', t = c :: t' /\ isspace c = false /\ is_eos c = false /\ c <> "]"%char /\ c <> "}"%char.
Proof.
  destruct 1; try (by do 2 eexists).
  destruct (to_string_z_head z) as (c & s & E & Hc). exists c, s. split; [done |]. clear - Hc. revert Hc. by_chars c.
Qed.

Ltac eval_tests :=
  repeat match goal with
  | |- context [bool_decide (?a = ?b)] => eval_test (bool_decide (a = b))
  | |- context [one_of ?s ?c] => eval_test (one_of s c)
  | |- context [is_eos ?c] => eval_test (is_eos c)
  end; cbn [negb andb orb].

Lemma comma_yes w s : spaces w -> comma (w ++ ","%char :: s) = Ok (s, true).
Proof. intros Hw. unfold comma. rewrite skip_spaces_app by done. reflexivity. Qed.

Lemma comma_no w c rest :
  spaces w -> isspace c = false -> c <> ","%char -> comma (w ++ c :: rest) = Ok (c :: rest, false).
Proof. intros Hw Hc Hn. unfold comma. rewrite skip_spaces_app by done. simpl. by rewrite bool_decide_false. Qed.

Lemma close_text b on_end check st st' rest :
  isspace b = false -> is_eos b = false -> on_end st = Ok st' ->
  close b on_end check (st, b :: rest, false) = Ok (st', rest, false).
Proof.
  intros Hb He Hst. unfold close. cbn [skip_spaces]. rewrite Hb.
  cbn [current_char]. rewrite bool_decide_true by done. cbn [negb]. rewrite Hst. cbn [rbind].
  rewrite He, andb_false_r. done.
Qed.

(** The opening bracket, followed by white space and the closing one, or by
    something else. *)
Lemma open_empty a b on_begin on_end st st1 st2 w rest :
  spaces w -> isspace b = false -> on_begin st = Ok st1 -> on_end st1 = Ok st2 ->
  open b on_begin on_end (st, a :: w ++ b :: rest, false) = Ok ((st2, rest, false), true).
Proof.
  intros Hw Hb H1 H2. unfold open. rewrite H1. cbn [rbind next_char]. rewrite skip_spaces_app by done.
  cbn [current_char]. rewrite bool_decide_true by done. cbn [rbind next_char]. by rewrite H2.
Qed.

Lemma open_more a b on_begin on_end st st1 w c rest :
  spaces w -> isspace c = false -> c <> b -> on_begin st = Ok st1 ->
  open b on_begin on_end (st, a :: w ++ c :: rest, false) = Ok ((st1, c :: rest, false), false).
Proof.
  intros Hw Hc Hb H1. unfold open. rewrite H1. cbn [rbind next_char]. rewrite skip_spaces_app by done.
  cbn [current_char]. by rewrite bool_decide_false.
Qed.

Ltac constant_text c s rest :=
  match goal with |- context [compare_string ?m ?a ?b] => change (compare_string m a b) with (compare_string m s (c :: s ++ rest)) end;
  rewrite compare_string_text by (by repeat constructor); cbn [rbind next_char].

(** Scalars. *)
Lemma scalar_text fuel st st' w j t rest :
  match j with Object _ | Array _ => False | _ => True end ->
  value_text j t -> spaces w -> follows j rest -> feed (events j) st = Ok st' ->
  parse_json_value (Datatypes.S fuel) (st, w ++ t ++ rest, false) = Ok (st', rest, false).
Proof.
  intros Hj Ht Hw Hf He. cbn [parse_json_value].
  rewrite skip_spaces_app by (done || destruct (value_text_head j t Ht) as (c & t' & -> & Hc & _); done).
  destruct Ht; try done; cbn [events feed fire] in He; rewrite rbind_ret in He.
  - cbn [lit app String.list_ascii_of_string current_char]. eval_tests.
    unfold parse_json_null. cbn [current_char]. eval_tests.
    constant_text "n"%char (lit "ull") rest.
    by rewrite He.
  - cbn [lit app String.list_ascii_of_string current_char]. eval_tests.
    unfold parse_json_bool. cbn [current_char]. eval_tests.
    constant_text "t"%char (lit "rue") rest.
    by rewrite He.
  - cbn [lit app String.list_ascii_of_string current_char]. eval_tests.
    unfold parse_json_bool. cbn [current_char]. eval_tests.
    constant_text "f"%char (lit "alse") rest.
    by rewrite He.
  - destruct (to_string_z_head z) as (c & s & E & Hc).
    rewrite parse_json_number_text by (done || by apply Hf). rewrite E. cbn [app current_char].
    assert (is_eos c = false /\ c <> "{"%char /\ c <> "["%char /\ c <> DQUOTE /\ one_of (lit "-0123456789.") c = true)
      as (-> & H1 & H2 & H3 & ->) by (clear - Hc; revert Hc; by_chars c).
    rewrite !bool_decide_false by done. cbn [rbind on_parse_number]. by rewrite He.
  - cbn [app current_char]. eval_tests. rewrite <- app_assoc. cbn [app].
    pose proof (parse_json_string_text [] v s rest (Forall_nil_2 _)) as E. cbn [app] in E. rewrite E by done.
    cbn [rbind]. by rewrite He.
Qed.

(** Texts of the parts of containers. *)
Definition reads_value (j : json real) (t : str) : Prop := forall fuel st st' w rest,
  2 * length t + 1 <= fuel -> spaces w -> follows j rest -> feed (events j) st = Ok st' ->
  parse_json_value fuel (st, w ++ t ++ rest, false) = Ok (st', rest, false).

Definition member_events (m : list (str * json real)) : list event :=
  concat ((fun e => ObjectKey e.1 :: events e.2) <$> m).

Definition reads_members (m : list (str * json real)) (s : str) : Prop := forall fuel st st' rest,
  2 * length s + 2 <= fuel -> feed (member_events m) st = Ok st' ->
  members fuel (st, s ++ "}"%char :: rest, false) = Ok (st', "}"%char :: rest, false).

Definition reads_member (k : str) (j : json real) (s : str) : Prop := forall fuel st st' c rest,
  2 * length s + 1 <= fuel -> number_end c = true -> feed (ObjectKey k :: events j) st = Ok st' ->
  exists w, spaces w /\ members (Datatypes.S fuel) (st, s ++ c :: rest, false)
    = let? (cur, has_next) := comma (w ++ c :: rest) in
      if has_next then members fuel (st', cur, false) else Ok (st', cur, false).

Definition reads_elements (l : list (json real)) (s : str) : Prop := forall fuel st st' rest,
  2 * length s + 2 <= fuel -> feed (concat (events <$> l)) st = Ok st' ->
  elements fuel (st, s ++ "]"%char :: rest, false) = Ok (st', "]"%char :: rest, false).

Lemma feed_cons e es st st' : feed (e :: es) st = Ok st' -> exists st1, fire e st = Ok st1 /\ feed es st1 = Ok st'.
Proof. intros H. by apply rbind_Ok in H. Qed.

Lemma feed_split es es' st st' : feed (es ++ es') st = Ok st' -> exists st1, feed es st = Ok st1 /\ feed es' st1 = Ok st'.
Proof. rewrite feed_app. intros H. by apply rbind_Ok in H. Qed.

Lemma reads_member_intro w1 k ks w2 w3 j t w4 :
  spaces w1 -> string_text k ks -> spaces w2 -> spaces w3 -> reads_value j t -> gap j w4 ->
  reads_member k j (w1 ++ DQUOTE :: ks ++ DQUOTE :: w2 ++ ":"%char :: w3 ++ t ++ w4).
Proof.
  intros Hw1 Hk Hw2 Hw3 Hj Hw4 fuel st st' c rest Hfuel Hc He. exists w4. split; [apply Hw4 |].
  apply feed_cons in He as (st1 & Hst1 & He). cbn [fire] in Hst1.
  rewrite <- !app_assoc. cbn [app]. rewrite <- !app_assoc. cbn [app]. rewrite <- !app_assoc. cbn [app].
  rewrite <- !app_assoc. cbn [members]. rewrite (parse_json_string_text w1 k ks) by done. cbn [rbind].
  rewrite Hst1. cbn [rbind]. rewrite skip_spaces_app by done. cbn [current_char]. eval_tests. cbn [next_char rbind].
  rewrite (Hj fuel st1 st' w3 (w4 ++ c :: rest)); [done | | done | by apply gap_follows | done].
  repeat (rewrite ?length_app in Hfuel; cbn [length] in Hfuel). lia.
Qed.

Lemma reads_elements_intro fuel st st1 w j t w' c rest :
  2 * length (w ++ t ++ w') + 1 <= fuel -> number_end c = true ->
  spaces w -> reads_value j t -> gap j w' -> feed (events j) st = Ok st1 ->
  elements (Datatypes.S fuel) (st, (w ++ t ++ w') ++ c :: rest, false)
  = let? (cur, has_next) := comma (w' ++ c :: rest) in
    if has_next then elements fuel (st1, cur, false) else Ok (st1, cur, false).
Proof.
  intros Hfuel Hc Hw Hj Hw' He. cbn [elements]. rewrite <- !app_assoc.
  rewrite (Hj fuel st st1 w (w' ++ c :: rest)); [done | | done | by apply gap_follows | done].
  rewrite !length_app in Hfuel. lia.
Qed.

(** Behind the opening bracket of a list that is not empty. *)
Lemma members_text_head m s : members_text m s ->
  exists w c s', s = w ++ c :: s' /\ spaces w /\ isspace c = false /\ c <> "}"%char.
Proof.
  assert (forall k j s, member_text k j s -> exists w c s', s = w ++ c :: s' /\ spaces w /\ isspace c = false /\ c <> "}"%char) as Hm.
  { destruct 1 as [w1 k ks w2 w3 j t w4 Hw1]. exists w1. by do 2 eexists. }
  destruct 1 as [k j s H | k j s m s' H _]; destruct (Hm _ _ _ H) as (w & c & s1 & -> & Hw & Hc).
  - by exists w, c, s1.
  - exists w, c, (s1 ++ ","%char :: s'). by rewrite <- app_assoc.
Qed.

Lemma elements_text_head l s : elements_text l s ->
  exists w c s', s = w ++ c :: s' /\ spaces w /\ isspace c = false /\ c <> "]"%char.
Proof.
  destruct 1 as [w j t w' Hw Ht _ | w j t w' l s Hw Ht _ _]; destruct (value_text_head j t Ht) as (c & t' & -> & Hc & _ & Hb & _);
    exists w, c; eexists; (split; [|done]); [done |]. by rewrite <- !app_assoc.
Qed.

Lemma members_skip fuel st w c r errno :
  spaces w -> isspace c = false -> members fuel (st, w ++ c :: r, errno) = members fuel (st, c :: r, errno).
Proof.
  intros Hw Hc. destruct fuel as [|fuel]; [done |]. cbn [members]. unfold parse_json_string.
  rewrite skip_spaces_app by done. cbn [skip_spaces]. by rewrite Hc.
Qed.

Lemma elements_skip fuel st w c r errno :
  spaces w -> isspace c = false -> elements fuel (st, w ++ c :: r, errno) = elements fuel (st, c :: r, errno).
Proof.
  intros Hw Hc. destruct fuel as [|[|fuel]]; [done | done |]. cbn [elements parse_json_value].
  rewrite skip_spaces_app by done. cbn [skip_spaces]. by rewrite Hc.
Qed.

Lemma on_parse_object_text fuel check m s st st' rest :
  members_text m s -> reads_members m s -> 2 * length s + 2 <= fuel -> feed (events (Object m)) st = Ok st' ->
  on_parse_object fuel check (st, ("{"%char :: s ++ ["}"%char]) ++ rest, false) = Ok (st', rest, false).
Proof.
  intros Hs Hm Hfuel He. cbn [events] in He. apply feed_cons in He as (st1 & H1 & He).
  apply feed_split in He as (st2 & H2 & He). apply feed_cons in He as (st3 & H3 & [= <-]). cbn [fire] in H1, H3.
  destruct (members_text_head m s Hs) as (w & c & s' & E & Hw & Hc & Hb). unfold on_parse_object.
  specialize (Hm fuel st1 st2 rest Hfuel H2). rewrite E in Hm |- *. rewrite <- !app_assoc in Hm.
  cbn [app] in *. rewrite <- !app_assoc. cbn [app].
  rewrite (open_more "{"%char "}"%char on_begin_object on_end_object st st1 w c) by done. cbn [rbind].
  rewrite (members_skip _ _ w) in Hm by done. cbn [app] in Hm |- *. rewrite Hm. cbn [rbind]. by apply close_text.
Qed.

Lemma on_parse_array_text fuel check l s st st' rest :
  elements_text l s -> reads_elements l s -> 2 * length s + 2 <= fuel -> feed (events (Array l)) st = Ok st' ->
  on_parse_array fuel check (st, ("["%char :: s ++ ["]"%char]) ++ rest, false) = Ok (st', rest, false).
Proof.
  intros Hs Hm Hfuel He. cbn [events] in He. apply feed_cons in He as (st1 & H1 & He).
  apply feed_split in He as (st2 & H2 & He). apply feed_cons in He as (st3 & H3 & [= <-]). cbn [fire] in H1, H3.
  destruct (elements_text_head l s Hs) as (w & c & s' & E & Hw & Hc & Hb). unfold on_parse_array.
  specialize (Hm fuel st1 st2 rest Hfuel H2). rewrite E in Hm |- *. rewrite <- !app_assoc in Hm.
  cbn [app] in *. rewrite <- !app_assoc. cbn [app].
  rewrite (open_more "["%char "]"%char on_begin_array on_end_array st st1 w c) by done. cbn [rbind].
  rewrite (elements_skip _ _ w) in Hm by done. cbn [app] in Hm |- *. rewrite Hm. cbn [rbind]. by apply close_text.
Qed.

Lemma empty_container_text a b on_begin on_end st st1 st' w rest check (loop : parser -> result parser) :
  spaces w -> isspace b = false -> on_begin st = Ok st1 -> on_end st1 = Ok st' ->
  (let? (p, done) := open b on_begin on_end (st, (a :: w ++ [b]) ++ rest, false) in
   if done then Ok p else let? p := loop p in close b on_end check p) = Ok (st', rest, false).
Proof.
  intros Hw Hb H1 H2. cbn [app]. rewrite <- app_assoc. cbn [app].
  by rewrite (open_empty a b on_begin on_end st st1 st' w rest).
Qed.

(** A nested object or array is read like one at the root. *)
Lemma parse_json_value_object fuel st w t rest :
  spaces w -> parse_json_value (Datatypes.S fuel) (st, w ++ "{"%char :: t ++ rest, false)
  = on_parse_object fuel false (st, "{"%char :: t ++ rest, false).
Proof. intros Hw. cbn [parse_json_value]. rewrite skip_spaces_app by done. reflexivity. Qed.

Lemma parse_json_value_array fuel st w t rest :
  spaces w -> parse_json_value (Datatypes.S fuel) (st, w ++ "["%char :: t ++ rest, false)
  = on_parse_array fuel true (st, "["%char :: t ++ rest, false).
Proof. intros Hw. cbn [parse_json_value]. rewrite skip_spaces_app by done. reflexivity. Qed.

Lemma value_text_reads j t : value_text j t -> reads_value j t.
Proof.
  revert j t. apply (value_text_mut (fun j t _ => reads_value j t) (fun m s _ => reads_members m s)
    (fun k j s _ => reads_member k j s) (fun l s _ => reads_elements l s)).
  1-5: intros; intros [|fuel] st st' w0 rest Hfuel Hw Hf He; [lia |];
    refine (scalar_text fuel st st' w0 _ _ rest _ _ Hw Hf He); [done | by constructor].
  - intros w Hs [|fuel] st st' w0 rest Hfuel Hw Hf He; [lia |]. cbn [app]. rewrite parse_json_value_object by done.
    apply feed_cons in He as (st1 & H1 & He). apply feed_cons in He as (st2 & H2 & [= <-]).
    by eapply empty_container_text.
  - intros m s Hs Hm [|fuel] st st' w0 rest Hfuel Hw Hf He; [lia |]. cbn [app]. rewrite parse_json_value_object by done.
    apply (on_parse_object_text fuel false m s); [done | done | | done].
    cbn [length] in Hfuel. rewrite length_app in Hfuel. lia.
  - intros w Hs [|fuel] st st' w0 rest Hfuel Hw Hf He; [lia |]. cbn [app]. rewrite parse_json_value_array by done.
    apply feed_cons in He as (st1 & H1 & He). apply feed_cons in He as (st2 & H2 & [= <-]).
    by eapply empty_container_text.
  - intros l s Hs Hm [|fuel] st st' w0 rest Hfuel Hw Hf He; [lia |]. cbn [app]. rewrite parse_json_value_array by done.
    apply (on_parse_array_text fuel true l s); [done | done | | done].
    cbn [length] in Hfuel. rewrite length_app in Hfuel. lia.
  - intros k j s _ Hm [|fuel] st st' rest Hfuel He; [lia |]. unfold member_events in He. cbn [fmap list_fmap concat] in He.
    rewrite app_nil_r in He. destruct (Hm fuel st st' "}"%char rest) as (w & Hw & ->); [lia | done | done |].
    by rewrite comma_no.
  - intros k j s m s' _ Hm _ Hs' [|fuel] st st' rest Hfuel He; [lia |]. rewrite length_app in Hfuel. cbn [length] in Hfuel.
    change (member_events ((k, j) :: m)) with ((ObjectKey k :: events j) ++ member_events m) in He.
    apply feed_split in He as (st1 & H1 & H2). rewrite <- app_assoc. cbn [app].
    destruct (Hm fuel st st1 ","%char (s' ++ "}"%char :: rest)) as (w & Hw & ->); [lia | done | done |].
    rewrite comma_yes by done. cbn [rbind]. apply Hs'; [lia | done].
  - intros. by apply reads_member_intro.
  - intros w j t w' Hw Ht Hj Hg [|fuel] st st' rest Hfuel He; [lia |]. cbn [fmap list_fmap concat] in He.
    rewrite app_nil_r in He. rewrite (reads_elements_intro fuel st st' w j t w') by (done || lia).
    rewrite comma_no by (done || apply Hg). done.
  - intros w j t w' l s Hw Ht Hj Hg _ Hl [|fuel] st st' rest Hfuel He; [lia |]. rewrite length_app in Hfuel. cbn [length] in Hfuel.
    cbn [fmap list_fmap concat] in He. apply feed_split in He as (st1 & H1 & H2).
    rewrite <- app_assoc. cbn [app]. rewrite (reads_elements_intro fuel st st1 w j t w') by (done || lia).
    rewrite comma_yes by apply Hg. cbn [rbind]. apply Hl; [lia | done].
Qed.

(** The flag makes no difference. *)
Lemma close_check b on_end check p : is_eos b = false -> close b on_end check p = close b on_end false p.
Proof.
  intros Hb. destruct p as [[st cur] errno]. unfold close. case_bool_decide as E; [|done]. cbn [negb].
  destruct (on_end st); [|done]. cbn [rbind]. rewrite E, Hb, !andb_false_r. done.
Qed.

(** The generic parser reads every text of a value, whatever white space
    surrounds its tokens, to the end, and calls the callbacks of the concrete
    parser for the value in the order of the text. *)
Lemma parse_json_text j t w w' st st' :
  value_text j t -> spaces w -> gap j w' -> feed (events j) st = Ok st' ->
  parse_json (w ++ t ++ w') true st false = Ok (st', [], false).
Proof.
  intros Ht Hw Hg He. destruct (value_text_head j t Ht) as (c & t' & E & Hc & Heos & _).
  assert (forall fuel, 2 * length t + 1 <= fuel -> parse_json_value fuel (st, t ++ w', false) = Ok (st', w', false)) as Hv.
  { intros fuel Hfuel. apply (value_text_reads j t Ht fuel st st' []); [done | constructor | | done].
    intros Hj. destruct Hg as [_ Hg], w' as [|x w']; [done |]. destruct (Hg Hj) as [-> | ->]; reflexivity. }
  unfold parse_json. rewrite skip_spaces_app by (done || by rewrite E).
  assert (2 * length t + 1 <= fuel_for (t ++ w')) as Hfuel by (unfold fuel_for; rewrite length_app; lia).
  assert ((if bool_decide (current_char (t ++ w') = "{"%char)
           then on_parse_object (fuel_for (t ++ w')) true (st, t ++ w', false)
           else if bool_decide (current_char (t ++ w') = "["%char)
           then on_parse_array (fuel_for (t ++ w')) true (st, t ++ w', false)
           else parse_json_value (fuel_for (t ++ w')) (st, t ++ w', false)) = Ok (st', w', false)) as ->.
  { generalize (fuel_for (t ++ w')) Hfuel. intros fuel Hfuel'. rewrite E in *. cbn [app current_char] in *.
    case_bool_decide as E1; [|case_bool_decide as E2; [|by apply Hv]].
    - subst c. rewrite <- (Hv (Datatypes.S fuel)) by lia.
      change ("{"%char :: t' ++ w') with ([] ++ "{"%char :: t' ++ w') at 2.
      rewrite (parse_json_value_object fuel st []) by constructor.
      unfold on_parse_object. destruct (open _ _ _ _) as [[p []]|]; [done | | done]. cbn [rbind].
      destruct (members fuel p); [by apply close_check | done].
    - subst c. rewrite <- (Hv (Datatypes.S fuel)) by lia.
      change ("["%char :: t' ++ w') with ([] ++ "["%char :: t' ++ w') at 2.
      by rewrite (parse_json_value_array fuel st []) by constructor. }
  rewrite E at 1. cbn [app current_char]. rewrite Heos. cbn [rbind].
  destruct Hg as [Hg _]. rewrite <- (app_nil_r w'). rewrite skip_spaces_app by done. done.
Qed.
End Generic.

(** ** json_parser *)

Section Builder.
Context {real : Type}.

(** A pointer into [value_]: the way from its root. *)
Inductive step := Key (k : str) | Index (i : nat).
Abbreviation pointer := (list step).

Fixpoint deref (p : pointer) (j : json real) : option (json real) :=
  match p with
  | [] => Some j
  | Key k :: p => match j with Object m => match assoc k m with Some v => deref p v | None => None end | _ => None end
  | Index i :: p => match j with Array l => match l !! i with Some v => deref p v | None => None end | _ => None end
  end.

(** Changing the value behind a pointer. *)
Fixpoint alter_key (k : str) (f : json real -> json real) (m : list (str * json real)) : list (str * json real) :=
  match m with
  | [] => []
  | (k', v) :: m => if decide (k = k') then (k', f v) :: m else (k', v) :: alter_key k f m
  end.

Fixpoint modify (p : pointer) (f : json real -> json real) (j : json real) : json real :=
  match p with
  | [] => f j
  | Key k :: p => match j with Object m => Object (alter_key k (modify p f) m) | _ => j end
  | Index i :: p => match j with Array l => Array (alter (modify p f) i l) | _ => j end
  end.

Record json_parser := JsonParser { value_ : json real; key_ : str; state_stack_ : list pointer }.

Definition dangling {A} : result A := Throw (undefined_behaviour "dangling pointer").

(** [on_begin_object] and [on_begin_array] with the empty value [v]. *)
Definition begin_container (v : json real) (st : json_parser) : result json_parser :=
  match state_stack_ st with
  | [] => Ok (JsonParser v (key_ st) [[]])
  | p :: ps =>
    match deref p (value_ st) with
    | None => dangling
    | Some (Object _) =>
      Ok (JsonParser (modify p (set_key (key_ st) v) (value_ st)) (key_ st) ((p ++ [Key (key_ st)]) :: p :: ps))
    | Some j =>
      Ok (JsonParser (modify p (push_back v) (value_ st)) (key_ st)
            ((p ++ [Index (size (push_back v j) - 1)]) :: p :: ps))
    end
  end.

Definition end_container (st : json_parser) : result json_parser :=
  match state_stack_ st with
  | [] => Throw (undefined_behaviour "pop() of an empty stack")
  | _ :: ps => Ok (JsonParser (value_ st) (key_ st) ps)
  end.

Definition on_value (v : json real) (st : json_parser) : result json_parser :=
  match state_stack_ st with
  | [] => Ok (JsonParser v (key_ st) [])
  | p :: ps =>
    match deref p (value_ st) with
    | None => dangling
    | Some (Object _) => Ok (JsonParser (modify p (set_key (key_ st) v) (value_ st)) (key_ st) (p :: ps))
    | Some (Array _) => Ok (JsonParser (modify p (push_back v) (value_ st)) (key_ st) (p :: ps))
    | Some _ => Throw (logic_error "invalid json error")
    end
  end.

#[export] Instance json_parser_handler : JsonHandler real json_parser := {
  on_begin_object := begin_container (Object []);
  on_object_key k st := Ok (JsonParser (value_ st) k (state_stack_ st));
  on_end_object := end_container;
  on_begin_array := begin_container (Array []);
  on_end_array := end_container;
  on_string s := on_value (String s);
  on_real r := on_value (Real r);
  on_integer z := on_value (Integer z);
  on_bool b := on_value (Boolean b);
  on_null := on_value Null }.

(** ** What is built *)

(** The value of a text: of members with one key the last one counts. *)
Fixpoint value_of (j : json real) : json real :=
  match j with
  | Object m => Object (foldl (fun m' e => map_set e.1 e.2 m') [] ((fun e => (e.1, value_of e.2)) <$> m))
  | Array l => Array (value_of <$> l)
  | _ => j
  end.

Lemma deref_app p q j : deref (p ++ q) j = match deref p j with Some v => deref q v | None => None end.
Proof.
  revert j. induction p as [|[k | i] p IH]; intros j; simpl; [done | |]; destruct j; try done.
  - destruct (assoc k m); auto.
  - destruct (l !! i); auto.
Qed.

Lemma assoc_alter_key k f m : assoc k (alter_key k f m) = f <$> assoc k m.
Proof.
  induction m as [|[k' v] m IH]; simpl; [done |].
  destruct (decide (k = k')) as [E | E]; simpl; [by rewrite decide_True | by rewrite decide_False].
Qed.

Lemma alter_key_compose k f g m : alter_key k g (alter_key k f m) = alter_key k (fun v => g (f v)) m.
Proof.
  induction m as [|[k' v] m IH]; simpl; [done |].
  destruct (decide (k = k')) as [E | E]; simpl; [by rewrite decide_True | by rewrite decide_False, IH].
Qed.

Lemma alter_key_ext k f g m v : assoc k m = Some v -> f v = g v -> alter_key k f m = alter_key k g m.
Proof.
  intros Hm Hv. induction m as [|[k' v'] m IH]; simpl in *; [done |]. destruct (decide (k = k')); [|by rewrite IH].
  simplify_eq. by rewrite Hv.
Qed.

Lemma alter_key_all k f g m : (forall v, f v = g v) -> alter_key k f m = alter_key k g m.
Proof. intros Hv. induction m as [|[k' v] m IH]; simpl; [done |]. by rewrite Hv, IH. Qed.

Lemma modify_compose p f g j : modify p g (modify p f j) = modify p (fun v => g (f v)) j.
Proof.
  revert j. induction p as [|[k | i] p IH]; intros j; simpl; [done | |]; destruct j; try done.
  - rewrite alter_key_compose. f_equal. by apply alter_key_all.
  - rewrite list_alter_alter_eq. f_equal. apply list_alter_ext; [|done]. intros v _. apply IH.
Qed.

Lemma modify_app p q f j : modify (p ++ q) f j = modify p (modify q f) j.
Proof.
  revert j. induction p as [|[k | i] p IH]; intros j; simpl; [done | |]; destruct j; try done.
  - f_equal. by apply alter_key_all.
  - f_equal. apply list_alter_ext; [|done]. intros v _. apply IH.
Qed.

Lemma modify_ext p f g j v : deref p j = Some v -> f v = g v -> modify p f j = modify p g j.
Proof.
  revert j. induction p as [|[k | i] p IH]; intros j Hj Hv; simpl in *; [by simplify_eq | |]; destruct j; try done.
  - destruct (assoc k m) as [x|] eqn:E; [|done]. f_equal. eapply alter_key_ext; [done |]. by apply IH.
  - destruct (l !! i) as [x|] eqn:E; [|done]. f_equal. apply list_alter_ext; [|done]. intros y Hy. simplify_eq. by apply IH.
Qed.

Lemma deref_modify p f j v : deref p j = Some v -> deref p (modify p f j) = Some (f v).
Proof.
  revert j. induction p as [|[k | i] p IH]; intros j Hj; simpl in *; [by simplify_eq | |]; destruct j; try done; simpl.
  - destruct (assoc k m) as [x|] eqn:E; [|done]. rewrite assoc_alter_key, E. simpl. auto.
  - destruct (l !! i) as [x|] eqn:E; [|done]. rewrite list_lookup_alter_eq, E. simpl. auto.
Qed.

(** The parser is about to add a value: there is none yet, or the top of the
    stack points to an array or to an object whose entries are in order. *)
Definition ready (st : json_parser) : Prop :=
  match state_stack_ st with
  | [] => True
  | p :: _ => exists j, deref p (value_ st) = Some j
              /\ match j with Object m => ordered m | Array _ => True | _ => False end
  end.

(** [value_] with a value added there, and the pointer to it. *)
Definition attach (st : json_parser) (v : json real) : json real :=
  match state_stack_ st with
  | [] => v
  | p :: _ => modify p (fun j => match j with Object _ => set_key (key_ st) v j | _ => push_back v j end) (value_ st)
  end.

Definition new_pointer (st : json_parser) : pointer :=
  match state_stack_ st with
  | [] => []
  | p :: _ => p ++ match deref p (value_ st) with
                   | Some (Array l) => [Index (length l)]
                   | _ => [Key (key_ st)]
                   end
  end.

Lemma alter_map_set k f v m : ordered m -> alter_key k f (map_set k v m) = map_set k (f v) m.
Proof.
  intros Hm. induction Hm as [|[k' v'] m Hm IH Hk]; simpl; [by rewrite decide_True |].
  destruct (str_ltb k k') eqn:E1; simpl; [by rewrite decide_True |].
  destruct (str_ltb k' k) eqn:E2; simpl; [|by rewrite decide_True].
  rewrite decide_False; [by rewrite IH |]. intros ->. by rewrite str_ltb_irrefl in E2.
Qed.

Lemma deref_attach st v : ready st -> deref (new_pointer st) (attach st v) = Some v.
Proof.
  unfold ready, new_pointer, attach. destruct (state_stack_ st) as [|p ps]; [done |]. intros (j & Hj & Hok).
  rewrite deref_app. rewrite (deref_modify _ _ _ j Hj), Hj. destruct j as [| | | | |m|l]; try done.
  - rewrite set_key_Object by done. simpl. by rewrite assoc_map_set, decide_True.
  - simpl. by rewrite list_lookup_middle.
Qed.

Lemma modify_attach st f v : ready st -> modify (new_pointer st) f (attach st v) = attach st (f v).
Proof.
  unfold ready, new_pointer, attach. destruct (state_stack_ st) as [|p ps]; [done |]. intros (j & Hj & Hok).
  rewrite modify_app, modify_compose, Hj. eapply modify_ext; [exact Hj |].
  destruct j as [| | | | |m|l]; try done.
  - rewrite !set_key_Object by done. simpl. by rewrite alter_map_set.
  - simpl. f_equal. clear. induction l as [|x l IH]; [done |]. simpl. by f_equal.
Qed.

Lemma on_value_attach st v :
  ready st -> on_value v st = Ok (JsonParser (attach st v) (key_ st) (state_stack_ st)).
Proof.
  unfold ready, on_value, attach. destruct st as [V k [|p ps]]; cbn; [done |]. intros (j & Hj & Hok).
  rewrite Hj. destruct j as [| | | | |m|l]; try done; f_equal; f_equal; by eapply modify_ext.
Qed.

Lemma begin_container_attach st v :
  ready st -> begin_container v st = Ok (JsonParser (attach st v) (key_ st) (new_pointer st :: state_stack_ st)).
Proof.
  unfold ready, begin_container, attach, new_pointer. destruct st as [V k [|p ps]]; cbn; [done |]. intros (j & Hj & Hok).
  rewrite Hj. destruct j as [| | | | |m|l]; try done; f_equal; f_equal; try (by eapply modify_ext).
  simpl. rewrite length_app. simpl. do 4 f_equal. lia.
Qed.

(** While the members of an object are added: the object has the entries [m]. *)
Definition filling (st : json_parser) (c : json real) (st' : json_parser) : Prop :=
  value_ st' = attach st c /\ state_stack_ st' = new_pointer st :: state_stack_ st.

Lemma filling_ready st c st' :
  ready st -> filling st c st' -> match c with Object m => ordered m | Array _ => True | _ => False end -> ready st'.
Proof.
  intros Hr [Hv Hs] Hc. unfold ready. rewrite Hs, Hv. exists c. by rewrite deref_attach.
Qed.

Lemma filling_attach st c st' v :
  ready st -> filling st c st' ->
  attach st' v = attach st (match c with Object _ => set_key (key_ st') v c | _ => push_back v c end).
Proof. intros Hr [Hv Hs]. unfold attach at 1. rewrite Hs, Hv. by rewrite modify_attach. Qed.

Definition adds_value (j : json real) : Prop := forall st, ready st ->
  exists k, feed (events j) st = Ok (JsonParser (attach st (value_of j)) k (state_stack_ st)).

Lemma fill_object st m m0 st' :
  ready st -> filling st (Object m0) st' -> ordered m0 -> Forall (fun e => adds_value e.2) m ->
  exists st2, feed (member_events m) st' = Ok st2
    /\ filling st (Object (foldl (fun m' e => map_set e.1 e.2 m') m0 ((fun e => (e.1, value_of e.2)) <$> m))) st2.
Proof.
  intros Hr. revert m0 st'. induction m as [|[k j] m IH]; intros m0 st' Hf Ho Hm; [by exists st' |].
  apply Forall_cons_1 in Hm as [Hj Hm]. set (st1 := JsonParser (value_ st') k (state_stack_ st')).
  assert (filling st (Object m0) st1) as Hf1 by exact Hf.
  destruct (Hj st1) as (k1 & E); [by eapply filling_ready |]. rewrite (filling_attach _ _ _ _ Hr Hf1) in E.
  rewrite set_key_Object in E by done.
  destruct (IH (map_set k (value_of j) m0) (JsonParser (attach st (Object (map_set k (value_of j) m0))) k1 (state_stack_ st1)))
    as (st2 & E2 & Hf2); [by split; [|apply Hf1] | by apply map_set_ordered | done |].
  exists st2. split; [|exact Hf2]. unfold member_events in *. cbn [fmap list_fmap concat feed fire on_object_key json_parser_handler rbind app].
  rewrite feed_app. cbn [fst snd] in *. fold st1. rewrite E. exact E2.
Qed.

Lemma fill_array st l l0 st' :
  ready st -> filling st (Array l0) st' -> Forall adds_value l ->
  exists st2, feed (concat (events <$> l)) st' = Ok st2 /\ filling st (Array (l0 ++ (value_of <$> l))) st2.
Proof.
  intros Hr. revert l0 st'. induction l as [|j l IH]; intros l0 st' Hf Hl.
  { exists st'. by rewrite app_nil_r. }
  apply Forall_cons_1 in Hl as [Hj Hl]. destruct (Hj st') as (k1 & E); [by eapply filling_ready |].
  rewrite (filling_attach _ _ _ _ Hr Hf) in E. cbn [push_back] in E.
  destruct (IH (l0 ++ [value_of j]) (JsonParser (attach st (Array (l0 ++ [value_of j]))) k1 (state_stack_ st')))
    as (st2 & E2 & Hf2); [by split; [|apply Hf] | done |].
  exists st2. rewrite <- app_assoc in Hf2. split; [|exact Hf2]. cbn [fmap list_fmap concat]. rewrite feed_app, E. exact E2.
Qed.

Lemma adds_all j : adds_value j.
Proof.
  induction j as [| z | r | b | s | m IH | l IH] using json_ind'; intros st Hr.
  1-5: exists (key_ st); cbn [events feed fire]; rewrite rbind_ret; by apply on_value_attach.
  - cbn [events feed fire on_begin_object json_parser_handler]. rewrite begin_container_attach by done. cbn [rbind].
    destruct (fill_object st m [] (JsonParser (attach st (Object [])) (key_ st) (new_pointer st :: state_stack_ st)))
      as (st2 & E & Hv & Hs); [done | done | constructor | done |].
    rewrite feed_app. unfold member_events in E. rewrite E. cbn [rbind feed fire on_end_object json_parser_handler].
    unfold end_container. rewrite Hs, Hv. cbn [rbind]. by eexists.
  - cbn [events feed fire on_begin_array json_parser_handler]. rewrite begin_container_attach by done. cbn [rbind].
    destruct (fill_array st l [] (JsonParser (attach st (Array [])) (key_ st) (new_pointer st :: state_stack_ st)))
      as (st2 & E & Hv & Hs); [done | done | done |].
    rewrite feed_app, E. cbn [rbind feed fire on_end_array json_parser_handler].
    unfold end_container. rewrite Hs, Hv. cbn [rbind]. by eexists.
Qed.

Definition parse (strtod : str -> real * str * bool) (real_limit : real -> bool) (s : str) (errno : bool)
    (st : json_parser) : result (json real) :=
  let? (st, _, _) := parse_json strtod real_limit (c_str s) true (JsonParser (value_ st) (key_ st) []) errno in
  Ok (value_ st).

(** ** Texts of values *)

Abbreviation no_nul := (Forall (fun c : ascii => c <> NUL)).

Lemma c_str_no_nul s : no_nul s -> c_str s = s.
Proof. intros H. induction H as [|c s Hc H IH]; simpl; [done |]. by rewrite bool_decide_false, IH. Qed.

Lemma spaces_no_nul w : spaces w -> no_nul w.
Proof. intros H. eapply Forall_impl; [|exact H]. intros c. by_chars c. Qed.

Lemma string_text_no_nul v s : string_text v s -> no_nul s.
Proof.
  induction 1 as [| | e c v s He | h1 h2 h3 h4 v s Hh]; [constructor | by constructor | |].
  - apply escape_json in He as [_ He]. by repeat constructor.
  - assert (forall h, isxdigit h = true -> h <> NUL) as Hx by (intros h; by_chars h).
    simpl in Hh. apply andb_true_iff in Hh as [H1 Hh], Hh as [H2 Hh], Hh as [H3 Hh], Hh as [H4 _].
    repeat constructor; auto.
Qed.

Lemma to_string_z_no_nul z : no_nul (to_string_z z).
Proof.
  assert (forall z, (0 <= z)%Z -> no_nul (to_string_u z)) as H.
  { intros z' Hz. eapply Forall_impl; [|by apply to_string_u_digits]. intros c. by_chars c. }
  unfold to_string_z. destruct (z <? 0)%Z eqn:E; breflect; [constructor; [done |]|]; apply H; lia.
Qed.

Lemma value_text_no_nul (j : json real) t : value_text j t -> no_nul t.
Proof.
  revert j t. apply (value_text_mut (fun _ t _ => no_nul t) (fun _ s _ => no_nul s) (fun _ _ s _ => no_nul s) (fun _ s _ => no_nul s));
    intros; repeat (apply Forall_app_2 || apply Forall_cons_2 || apply Forall_nil_2);
    eauto using spaces_no_nul, string_text_no_nul, to_string_z_no_nul; try done;
    match goal with H : gap _ _ |- _ => by apply spaces_no_nul, H end.
Qed.

Lemma parse_text strtod real_limit j t w w' st :
  value_text j t -> spaces w -> gap j w' ->
  parse strtod real_limit (w ++ t ++ w') false st = Ok (value_of j).
Proof.
  intros Ht Hw Hg. unfold parse. rewrite c_str_no_nul.
  2: { repeat apply Forall_app_2; [by apply spaces_no_nul | by eapply value_text_no_nul | by apply spaces_no_nul, Hg]. }
  destruct (adds_all j (JsonParser (value_ st) (key_ st) [])) as (k & E); [done |].
  by rewrite (parse_json_text strtod real_limit j t w w' _ _ Ht Hw Hg E).
Qed.

(** C9: [json_parser::parse] reads every text of a value without
    floating-point numbers, with any white space between its tokens, except
    that behind a number a blank or a line feed comes first
    ([tab_behind_number]), integers in the range of [long long] written as
    they are printed and any escapes in its strings: the result is the value,
    in which of several members with one key the last one counts, whatever was
    parsed before, provided that [errno] is not [ERANGE] ([stale_errno]). *)
Theorem parse_complete strtod real_limit (j : json real) t w w' st :
  value_text j t -> spaces w -> gap j w' ->
  parse strtod real_limit (w ++ t ++ w') false st = Ok (value_of j).
Proof. apply parse_text. Qed.

(** ** Printed values are texts *)

Definition printable_str (s : str) : Prop := Forall (fun c => c <> DQUOTE /\ c <> BACKSLASH /\ c <> NUL) s.

(** Values that are printed as a text: no floating-point numbers, and nothing
    in a string that would have to be escaped. *)
Fixpoint printable (j : json real) : Prop :=
  match j with
  | Integer z => (LLONG_MIN <= z <= LLONG_MAX)%Z
  | Real _ => False
  | String s => printable_str s
  | Object m => foldr (fun e P => (printable_str e.1 /\ printable e.2) /\ P) True m
  | Array l => foldr (fun j P => printable j /\ P) True l
  | _ => True
  end.

Lemma printable_string_text s : printable_str s -> string_text s s.
Proof. intros H. induction H as [|c s (H1 & H2 & H3) H IH]; by constructor. Qed.

Lemma join_cons delim x y l : join delim (x :: y :: l) = x ++ delim ++ join delim (y :: l).
Proof. simpl. by rewrite <- !app_assoc. Qed.

Lemma gap_nil (j : json real) : gap j [].
Proof. split; [constructor | done]. Qed.

Lemma spaces_nil : spaces [].
Proof. constructor. Qed.
Lemma spaces_one : spaces (lit " ").
Proof. by repeat constructor. Qed.

Lemma elements_text_join (f : json real -> str) w x l :
  spaces w -> Forall (fun j => value_text j (f j)) (x :: l) ->
  elements_text (x :: l) (w ++ join (lit ", ") (f <$> x :: l)).
Proof.
  revert w x. induction l as [|y l IH]; intros w x Hw Hl; apply Forall_cons_1 in Hl as [Hx Hl].
  - cbn [fmap list_fmap join concat]. apply et_last; [done | done | apply gap_nil].
  - rewrite !fmap_cons, join_cons. pose proof (IH (lit " ") y spaces_one Hl) as H.
    pose proof (et_cons w x (f x) [] (y :: l) _ Hw Hx (gap_nil x) H) as H'.
    rewrite app_nil_r, <- app_assoc in H'. exact H'.
Qed.

Lemma member_text_join w k (j : json real) t :
  spaces w -> printable_str k -> value_text j t -> member_text k j (w ++ member k t).
Proof.
  intros Hw Hk Hj. pose proof (mt_member w k k [] (lit " ") j t [] Hw (printable_string_text k Hk) spaces_nil spaces_one Hj (gap_nil j)) as H.
  rewrite app_nil_r in H. unfold member, quoted. cbn [app]. rewrite <- app_assoc. exact H.
Qed.

Lemma members_text_join (f : json real -> str) w x m :
  spaces w -> Forall (fun e => printable_str e.1 /\ value_text e.2 (f e.2)) (x :: m) ->
  members_text (x :: m) (w ++ join (lit ", ") ((fun e => member e.1 (f e.2)) <$> x :: m)).
Proof.
  revert w x. induction m as [|y m IH]; intros w [k j] Hw Hm; apply Forall_cons_1 in Hm as [[Hk Hj] Hm]; simpl in Hk, Hj.
  - cbn [fmap list_fmap join concat]. rewrite app_nil_r. apply mt_last. by apply member_text_join.
  - rewrite !fmap_cons, join_cons. pose proof (IH (lit " ") y spaces_one Hm) as H.
    pose proof (mt_cons k j _ (y :: m) _ (member_text_join w k j (f j) Hw Hk Hj) H) as H'.
    rewrite <- app_assoc in H'. exact H'.
Qed.

Lemma printable_text real_out j : printable j -> value_text j (dump_with real_out j).
Proof.
  induction j as [| z | r | b | s | m IH | l IH] using json_ind'; intros Hj; cbn [dump_with].
  - constructor.
  - by constructor.
  - done.
  - destruct b; constructor.
  - apply vt_string. by apply printable_string_text.
  - destruct m as [|x m]; [apply (vt_empty_object []); constructor |]. apply vt_object.
    apply (members_text_join (dump_with real_out) []); [constructor |].
    revert Hj IH. cbn [printable]. generalize (x :: m). clear. intros m Hj IH. revert Hj.
    induction IH as [|e m He IH IHm]; intros Hj; constructor.
    + destruct Hj as [[Hk Hj] _]. auto.
    + apply IHm, Hj.
  - destruct l as [|x l]; [apply (vt_empty_array []); constructor |]. apply vt_array.
    apply (elements_text_join (dump_with real_out) []); [constructor |].
    revert Hj IH. cbn [printable]. generalize (x :: l). clear. intros m Hj IH. revert Hj.
    induction IH as [|e m He IH IHm]; intros Hj; constructor.
    + apply He, Hj.
    + apply IHm, Hj.
Qed.

Lemma value_of_ok j : json_ok j -> value_of j = j.
Proof.
  induction j as [| z | r | b | s | m IH | l IH] using json_ind'; intros Hj; cbn [value_of]; try done.
  - apply json_ok_Object in Hj as [Ho Hj]. f_equal.
    assert (((fun e => (e.1, value_of e.2)) <$> m) = m) as ->.
    { clear Ho. induction IH as [|[k v] m He IH IHm]; [done |]. apply Forall_cons_1 in Hj as [Hv Hj]. simpl in *.
      f_equal; [by rewrite He | by apply IHm]. }
    assert (forall m0, ordered (m0 ++ m) -> foldl (fun m' e => map_set e.1 e.2 m') m0 m = m0 ++ m) as H; [|by apply (H [])].
    clear. induction m as [|[k v] m IH]; intros m0 Ho; simpl; [by rewrite app_nil_r |].
    rewrite map_set_last.
    + rewrite IH; rewrite <- app_assoc; done.
    + clear - Ho. induction m0 as [|x m0 IH]; constructor; inversion Ho as [|? ? H1 H2]; subst; [|by apply IH].
      rewrite list.Forall_forall in H2. apply (H2 (k, v)). set_solver.
  - apply json_ok_Array in Hj. f_equal. induction IH as [|x l Hx IH IHl]; [done |]. apply Forall_cons_1 in Hj as [Hj1 Hj].
    simpl. f_equal; auto.
Qed.

(** ** Termination *)

Section Termination.
Context (strtod : str -> real * str * bool) (real_limit : real -> bool) {St : Type} `{!JsonHandler real St}.

(** [strtod] sets the end pointer to a place in the string, and the callbacks
    return. *)
Context (strtod_end : forall s, length (strtod s).1.2 <= length s).
Context (fires : forall e (st : St), fire e st <> Throw out_of_fuel).

(** A result that is not for want of fuel, with a cursor not before [n]. *)
Definition halts (n : nat) (r : result (St * str * bool)) : Prop :=
  match r with
  | Ok (_, cur, _) => length cur <= n
  | Throw e => e <> out_of_fuel
  end.

Lemma halts_le n m r : halts n r -> n <= m -> halts m r.
Proof. destruct r as [[[st cur] e]|]; simpl; [lia | done]. Qed.

Lemma skip_spaces_length s : length (skip_spaces s) <= length s.
Proof. induction s as [|c s IH]; simpl; [done |]. destruct (isspace c); simpl; lia. Qed.

Lemma string_loop_halts cur v :
  match string_loop v cur with Ok (_, cur') => length cur' <= length cur | Throw e => e <> out_of_fuel end.
Proof.
  remember (length cur) as n eqn:E. revert cur v E. induction (lt_wf n) as [n _ IH]. intros cur v ->.
  assert (forall v' cur', length cur' < length cur ->
    match string_loop v' cur' with Ok (_, cur'') => length cur'' <= length cur | Throw e => e <> out_of_fuel end) as Hrec.
  { intros v' cur' Hc. pose proof (IH (length cur') Hc cur' v' eq_refl) as H. destruct (string_loop v' cur') as [[]|]; [lia | done]. }
  destruct cur as [|c cur]; [simpl; lia |]. cbn [string_loop]. case_bool_decide; [simpl; lia |].
  case_bool_decide; [|apply Hrec; simpl; lia]. destruct cur as [|e cur]; [done |].
  destruct (escape e); [apply Hrec; simpl; lia |]. case_bool_decide; [|done].
  destruct cur as [|h1 [|h2 [|h3 [|h4 cur]]]]; try done. destruct (forallb _ _); [apply Hrec; simpl; lia | done].
Qed.

Lemma next_char_halts cur :
  match next_char cur with Ok cur' => S (length cur') <= length cur | Throw e => e <> out_of_fuel end.
Proof. destruct cur; simpl; [done | lia]. Qed.

Lemma parse_json_string_halts cur :
  match parse_json_string cur with Ok (_, cur') => S (length cur') <= length cur | Throw e => e <> out_of_fuel end.
Proof.
  unfold parse_json_string. destruct (_ && _); [done |]. pose proof (next_char_halts (skip_spaces cur)) as H.
  pose proof (skip_spaces_length cur). destruct (next_char _) as [cur'|e]; [|done]. cbn [rbind].
  pose proof (string_loop_halts cur' []). destruct (string_loop [] cur') as [[]|]; [lia | done].
Qed.

Lemma digits_length a n s : length (digits 10 a n s).2 <= length s.
Proof.
  revert a n. induction s as [|c s IH]; intros a n; simpl; [lia |]. destruct (digit_of c); [|simpl; lia].
  destruct (_ <? _)%Z; [|simpl; lia]. etrans; [apply IH | lia].
Qed.

Lemma strtoll_length s : length (strtoll s).1.2 <= length s.
Proof.
  unfold strtoll. pose proof (skip_spaces_length s) as Hs.
  destruct (match skip_spaces s with [] => _ | _ => _ end) as [neg s2] eqn:E.
  assert (length s2 <= length s) as Hs2.
  { destruct (skip_spaces s); simplify_eq; [simpl; lia |]. repeat case_bool_decide; simplify_eq; simpl in *; lia. }
  pose proof (digits_length 0 0 s2) as Hd. destruct (digits 10 0 0 s2) as [[v n] rest]. simpl in Hd.
  destruct (n =? 0); [simpl; lia |]. destruct (_ <? _)%Z; [simpl; lia |]. destruct (_ <? _)%Z; simpl; lia.
Qed.

Lemma parse_json_number_halts cur errno :
  match parse_json_number strtod real_limit cur errno with
  | Ok (_, cur', _) => length cur' <= length cur
  | Throw e => e <> out_of_fuel
  end.
Proof.
  unfold parse_json_number. pose proof (strtoll_length cur) as H1. pose proof (strtod_end cur) as H2.
  destruct (strtoll cur) as [[z e1] r1], (strtod cur) as [[r e2] r2]. simpl in H1, H2.
  destruct (is_error_integer _ _ _ _); [done |]. case_bool_decide.
  - destruct (is_error_real _ _ _ _ _); [done |]. cbn [rbind]. by destruct (number_end _).
  - cbn [rbind]. by destruct (number_end _).
Qed.

Lemma compare_string_halts msg t cur :
  match compare_string msg t cur with Ok cur' => length cur' <= length cur | Throw e => e <> out_of_fuel end.
Proof.
  revert cur. induction t as [|x t IH]; intros cur; simpl; [lia |]. pose proof (next_char_halts cur) as H.
  destruct (next_char cur) as [cur'|]; [|done]. cbn [rbind]. destruct (is_eos _); [done |]. destruct (negb _); [done |].
  specialize (IH cur'). destruct (compare_string msg t cur'); [lia | done].
Qed.

Lemma parse_json_bool_halts cur :
  match parse_json_bool cur with Ok (_, cur') => length cur' <= length cur | Throw e => e <> out_of_fuel end.
Proof.
  assert (forall (b : bool) msg t, match (let? cur := compare_string msg t cur in let? cur := next_char cur in Ok (b, cur)) with
    Ok (_, cur') => length cur' <= length cur | Throw e => e <> out_of_fuel end) as H.
  { intros b msg t. pose proof (compare_string_halts msg t cur) as H. destruct (compare_string msg t cur) as [cur1|]; [|done].
    cbn [rbind]. pose proof (next_char_halts cur1). destruct (next_char cur1); [simpl; lia | done]. }
  unfold parse_json_bool. case_bool_decide; [apply H |]. case_bool_decide; [apply H | done].
Qed.

Lemma parse_json_null_halts cur :
  match parse_json_null cur with Ok cur' => length cur' <= length cur | Throw e => e <> out_of_fuel end.
Proof.
  unfold parse_json_null. case_bool_decide; [|done]. pose proof (compare_string_halts "invalid null character" (lit "ull") cur) as H1.
  destruct (compare_string _ _ cur) as [cur1|]; [|done]. cbn [rbind]. pose proof (next_char_halts cur1).
  destruct (next_char cur1); [lia | done].
Qed.

Lemma open_halts b on_begin on_end (st : St) cur errno :
  (forall st, on_begin st <> Throw out_of_fuel) -> (forall st, on_end st <> Throw out_of_fuel) ->
  match open b on_begin on_end (st, cur, errno) with
  | Ok ((_, cur', _), _) => S (length cur') <= length cur
  | Throw e => e <> out_of_fuel
  end.
Proof.
  intros H1 H2. unfold open. specialize (H1 st). destruct (on_begin st) as [st1|]; [|simpl; congruence]. cbn [rbind].
  pose proof (next_char_halts cur) as H. destruct (next_char cur) as [cur1|]; [|done]. cbn [rbind].
  pose proof (skip_spaces_length cur1). case_bool_decide; [|simpl; lia].
  pose proof (next_char_halts (skip_spaces cur1)). destruct (next_char (skip_spaces cur1)); [|done]. cbn [rbind].
  specialize (H2 st1). destruct (on_end st1); [simpl; lia | simpl; congruence].
Qed.

Lemma close_halts b on_end check (st : St) cur errno :
  (forall st, on_end st <> Throw out_of_fuel) -> halts (length cur) (close b on_end check (st, cur, errno)).
Proof.
  intros H2. unfold close. pose proof (skip_spaces_length cur). destruct (negb _); [done |]. specialize (H2 st).
  destruct (on_end st); [|simpl; congruence]. cbn [rbind]. destruct (_ && _); [done |]. destruct (is_eos _); [done |].
  pose proof (next_char_halts (skip_spaces cur)). destruct (next_char (skip_spaces cur)); [simpl; lia | done].
Qed.

Lemma comma_halts cur :
  match comma cur with
  | Ok (cur', b) => length cur' + (if b : bool then 1 else 0) <= length cur
  | Throw e => e <> out_of_fuel
  end.
Proof.
  unfold comma. pose proof (skip_spaces_length cur). case_bool_decide; [|simpl; lia].
  pose proof (next_char_halts (skip_spaces cur)). destruct (next_char (skip_spaces cur)); [simpl; lia | done].
Qed.

(** The brackets around a loop that halts. *)
Lemma container_halts b on_begin on_end (loop : St * str * bool -> result (St * str * bool)) check (st : St) cur errno :
  (forall st, on_begin st <> Throw out_of_fuel) -> (forall st, on_end st <> Throw out_of_fuel) ->
  (forall st cur' errno, S (length cur') <= length cur -> halts (length cur') (loop (st, cur', errno))) ->
  halts (length cur) (let? (p, done) := open b on_begin on_end (st, cur, errno) in
                      if done then Ok p else let? p := loop p in close b on_end check p).
Proof.
  intros H1 H2 Hl. pose proof (open_halts b on_begin on_end st cur errno H1 H2) as H.
  destruct (open _ _ _ _) as [[[[st1 cur1] e1] []]|]; [simpl; lia | | done]. cbn [rbind].
  specialize (Hl st1 cur1 e1 H). destruct (loop _) as [[[st2 cur2] e2]|]; [|done]. cbn [rbind halts] in *.
  eapply halts_le; [by apply close_halts | lia].
Qed.

Abbreviation value := (parse_json_value strtod real_limit (S := St)).

(** A callback at the end. *)
Lemma callback_halts (r : result St) cur errno n :
  r <> Throw out_of_fuel -> length cur <= n -> halts n (let? st := r in Ok (st, cur, errno)).
Proof. intros Hr Hn. destruct r; [done | simpl; congruence]. Qed.

Lemma value_halts fuel st cur errno :
  (forall st cur' errno, S (length cur') <= length cur -> halts (length cur') (members strtod real_limit fuel (st, cur', errno))) ->
  (forall st cur' errno, S (length cur') <= length cur -> halts (length cur') (elements strtod real_limit fuel (st, cur', errno))) ->
  halts (length cur) (value (S fuel) (st, cur, errno)).
Proof.
  intros IHm IHe. cbn [parse_json_value]. pose proof (skip_spaces_length cur) as Hs. set (c := current_char _).
  destruct (is_eos c); [done |]. case_bool_decide; [|case_bool_decide; [|case_bool_decide; [|destruct (one_of _ c); [|destruct (one_of _ c); [|case_bool_decide; [|done]]]]]].
  - eapply halts_le; [|exact Hs]. apply (container_halts "}"%char on_begin_object on_end_object (members strtod real_limit fuel)).
    + apply (fires BeginObject). + apply (fires EndObject). + intros. apply IHm. lia.
  - eapply halts_le; [|exact Hs]. apply (container_halts "]"%char on_begin_array on_end_array (elements strtod real_limit fuel)).
    + apply (fires BeginArray). + apply (fires EndArray). + intros. apply IHe. lia.
  - pose proof (parse_json_string_halts (skip_spaces cur)) as H'. destruct (parse_json_string _) as [[v cur1]|]; [|done].
    cbn [rbind]. apply callback_halts; [apply (fires (StringEvent v)) | lia].
  - pose proof (parse_json_number_halts (skip_spaces cur) errno) as H'.
    destruct (parse_json_number _ _ _ _) as [[[[z | r] cur1] e1]|]; [| |done]; cbn [rbind on_parse_number];
      apply callback_halts; [apply (fires (IntegerEvent z)) | lia | apply (fires (RealEvent r)) | lia].
  - pose proof (parse_json_bool_halts (skip_spaces cur)) as H'. destruct (parse_json_bool _) as [[v cur1]|]; [|done].
    cbn [rbind]. apply callback_halts; [apply (fires (BoolEvent v)) | lia].
  - pose proof (parse_json_null_halts (skip_spaces cur)) as H'. destruct (parse_json_null _) as [cur1|]; [|done].
    cbn [rbind]. apply callback_halts; [apply (fires NullEvent) | lia].
Qed.

Lemma parse_halts fuel :
  (forall st cur errno, 2 * length cur + 1 <= fuel -> halts (length cur) (value fuel (st, cur, errno)))
  /\ (forall st cur errno, 2 * length cur + 2 <= fuel -> halts (length cur) (members strtod real_limit fuel (st, cur, errno)))
  /\ (forall st cur errno, 2 * length cur + 2 <= fuel -> halts (length cur) (elements strtod real_limit fuel (st, cur, errno))).
Proof.
  induction fuel as [|fuel (IHv & IHm & IHe)]; [split_and!; intros; lia |]. split_and!; intros st cur errno Hfuel.
  - apply value_halts; intros st' cur' errno' Hc; [apply IHm | apply IHe]; lia.
  - rewrite members_S. pose proof (parse_json_string_halts cur) as H. destruct (parse_json_string cur) as [[k cur1]|]; [|done].
    cbn [rbind]. pose proof (fires (ObjectKey k) st) as Hk. cbn [fire] in Hk.
    destruct (on_object_key k st) as [st1|]; [|simpl; congruence]. cbn [rbind]. pose proof (skip_spaces_length cur1).
    destruct (is_eos _); [done |]. destruct (negb _); [done |]. pose proof (next_char_halts (skip_spaces cur1)) as Hn.
    destruct (next_char (skip_spaces cur1)) as [cur2|]; [|done]. cbn [rbind].
    pose proof (IHv st1 cur2 errno ltac:(lia)) as Hv. destruct (value fuel _) as [[[st2 cur3] e3]|]; [|exact Hv]. cbn [rbind halts] in *.
    pose proof (comma_halts cur3) as Hc. destruct (comma cur3) as [[cur4 []]|]; cbn [rbind halts] in *; [|lia | done].
    eapply halts_le; [apply IHm; lia | lia].
  - rewrite elements_S. pose proof (IHv st cur errno ltac:(lia)) as Hv. destruct (value fuel _) as [[[st2 cur3] e3]|]; [|exact Hv].
    cbn [rbind halts] in *. pose proof (comma_halts cur3) as Hc. destruct (comma cur3) as [[cur4 []]|]; cbn [rbind halts] in *; [|lia | done].
    eapply halts_le; [apply IHe; lia | lia].
Qed.

Lemma parse_json_halts s check st errno : parse_json strtod real_limit s check st errno <> Throw out_of_fuel.
Proof.
  unfold parse_json. set (cur := skip_spaces s). destruct (is_eos _); [done |].
  assert (forall r : result (St * str * bool), halts (length cur) r ->
    (let? (st, cur, errno) := r in
     if check && negb (is_eos (current_char (skip_spaces cur)))
     then Throw (json_exception "no characters are allowed after closed root node")
     else Ok (st, skip_spaces cur, errno)) <> Throw out_of_fuel) as Hend.
  { intros [[[st' cur'] e]|e] Hr; cbn [rbind]; [by destruct (_ && _) |]. simpl in Hr. congruence. }
  destruct (parse_halts (fuel_for cur)) as (IHv & IHm & IHe). unfold fuel_for in *. apply Hend.
  case_bool_decide; [|case_bool_decide; [|apply IHv; lia]].
  - apply (container_halts "}"%char on_begin_object on_end_object (members strtod real_limit _));
      [apply (fires BeginObject) | apply (fires EndObject) | intros; apply IHm; lia].
  - apply (container_halts "]"%char on_begin_array on_end_array (elements strtod real_limit _));
      [apply (fires BeginArray) | apply (fires EndArray) | intros; apply IHe; lia].
Qed.
End Termination.

Lemma json_parser_fires e (st : json_parser) : fire e st <> Throw out_of_fuel.
Proof.
  destruct e; simpl; unfold begin_container, end_container, on_value, dangling; repeat case_match; done.
Qed.

Lemma parse_ends strtod real_limit s errno st :
  (forall s, length (strtod s).1.2 <= length s) ->
  parse strtod real_limit s errno st <> Throw out_of_fuel.
Proof.
  intros Hs. unfold parse.
  pose proof (parse_json_halts strtod real_limit Hs json_parser_fires (c_str s) true (JsonParser (value_ st) (key_ st) []) errno) as H.
  destruct (parse_json _ _ _ _ _ _) as [[[st' cur] e]|]; cbn [rbind]; [done | congruence].
Qed.

(** ** What parsing may end with

    The parser throws its own exceptions only, with one exception to the rule:
    where it expects the key of a member it steps over the character at the
    cursor without looking whether it is the terminator. *)

Definition ends_open (s : str) : Prop :=
  exists pre c w, s = pre ++ c :: w /\ spaces w /\ (c = "{"%char \/ c = ","%char).

Lemma ends_open_suffix s t : s `suffix_of` t -> ends_open s -> ends_open t.
Proof. intros [u ->] (pre & c & w & -> & H). exists (u ++ pre), c, w. by rewrite <- app_assoc. Qed.

Section Safety.
Context (strtod : str -> real * str * bool) (real_limit : real -> bool).
Context (strtod_end : forall s, (strtod s).1.2 `suffix_of` s).

Definition refused (e : exn) : Prop := (exists m, e = json_exception m) \/ e = out_of_fuel.
Definition ub (e : exn) : Prop := exists m, e = undefined_behaviour m.

(** Started at [cur0], the parser ends in a state with [Q] and a cursor behind
    it, or refuses the text; [P] tells whether it may read behind the end. *)
Definition ends (cur0 : str) (P : Prop) (Q : json_parser -> Prop) (r : result (json_parser * str * bool)) : Prop :=
  match r with
  | Ok (st, cur, _) => cur `suffix_of` cur0 /\ Q st
  | Throw e => refused e \/ (ub e /\ P)
  end.
(** The same for a function that yields a cursor. *)
Definition moves {A} (cur0 : str) (cursor : A -> str) (r : result A) : Prop :=
  match r with Ok a => cursor a `suffix_of` cur0 | Throw e => refused e end.

Lemma ends_weaken cur cur' (P P' : Prop) (Q Q' : json_parser -> Prop) r :
  ends cur P Q r -> cur `suffix_of` cur' -> (P -> P') -> (forall st, Q st -> Q' st) -> ends cur' P' Q' r.
Proof.
  destruct r as [[[st c] e]|e]; cbn; [| naive_solver]. intros [H1 H2] H3 _ HQ. split; [by etrans | auto].
Qed.

Lemma refuses m : refused (json_exception m).
Proof. left. by exists m. Qed.
#[local] Hint Resolve refuses : core.

Lemma skip_spaces_split s : exists w, s = w ++ skip_spaces s /\ spaces w.
Proof.
  induction s as [|c s (w & E & Hw)]; [by exists []; split; [| constructor] |].
  cbn. destruct (isspace c) eqn:Ec; [| by exists []; split; [| constructor]].
  exists (c :: w). split; [cbn; by rewrite <- E | by constructor].
Qed.
Lemma skip_spaces_suffix s : skip_spaces s `suffix_of` s.
Proof. destruct (skip_spaces_split s) as (w & E & _). by exists w. Qed.

Lemma not_eos cur : is_eos (current_char cur) = false -> exists c cur', cur = c :: cur'.
Proof. destruct cur; [done | eauto]. Qed.

Lemma current_is cur c : current_char cur = c -> is_eos c = false -> exists cur', cur = c :: cur'.
Proof. destruct cur as [|x cur]; cbn; [by intros <- | intros -> _; eauto]. Qed.

Lemma string_loop_moves v cur : moves cur snd (string_loop v cur).
Proof.
  remember (length cur) as n eqn:E. revert cur v E. induction (lt_wf n) as [n _ IH]. intros cur v ->.
  assert (forall v' cur' k, cur = k ++ cur' -> k <> [] -> moves cur snd (string_loop v' cur')) as Hrec.
  { intros v' cur' k Ek Hk. assert (length cur' < length cur) as Hl by (destruct k; [done |]; rewrite Ek, length_app; cbn; lia).
    pose proof (IH _ Hl cur' v' eq_refl) as H. destruct (string_loop v' cur') as [[]|]; [| exact H]. cbn in *. etrans; [exact H | by exists k]. }
  destruct cur as [|c cur]; [by exists [] |]. cbn [string_loop]. case_bool_decide; [by exists [c] |].
  case_bool_decide; [| by apply (Hrec _ _ [c])]. destruct cur as [|e cur]; [cbn; auto |].
  destruct (escape e); [by apply (Hrec _ _ [c; e]) |]. case_bool_decide; [| cbn; auto].
  destruct cur as [|h1 [|h2 [|h3 [|h4 cur]]]]; cbn -[forallb]; auto.
  destruct (forallb _ _); [by apply (Hrec _ _ [c; e; h1; h2; h3; h4]) | cbn; auto].
Qed.

(** At the end of the text the opening quote is not missed. *)
Lemma parse_json_string_moves cur :
  match parse_json_string cur with
  | Ok (_, cur') => cur' `suffix_of` cur
  | Throw e => refused e \/ (ub e /\ spaces cur)
  end.
Proof.
  unfold parse_json_string. destruct (skip_spaces_split cur) as (w & E & Hw). destruct (skip_spaces cur) as [|c s] eqn:Es.
  - right. split; [by eexists |]. by rewrite E, app_nil_r.
  - destruct (_ && _); [left; auto |]. cbn [next_char rbind]. pose proof (string_loop_moves [] s) as H.
    destruct (string_loop [] s) as [[]|]; [| by left]. cbn in *. rewrite E. etrans; [exact H |]. exists (w ++ [c]). by rewrite <- app_assoc.
Qed.

Lemma digits_suffix a n s : (digits 10 a n s).2 `suffix_of` s.
Proof.
  revert a n. induction s as [|c s IH]; intros a n; cbn; [done |]. destruct (digit_of c); [|done].
  destruct (_ <? _)%Z; [|done]. etrans; [apply IH | by exists [c]].
Qed.

Lemma strtoll_suffix s : (strtoll s).1.2 `suffix_of` s.
Proof.
  unfold strtoll. pose proof (skip_spaces_suffix s) as Hs.
  destruct (match skip_spaces s with [] => _ | _ => _ end) as [neg s2] eqn:E.
  assert (s2 `suffix_of` s) as Hs2.
  { etrans; [| exact Hs]. destruct (skip_spaces s) as [|c s']; simplify_eq; [done |]. repeat case_bool_decide; simplify_eq; first [done | by eexists [_]]. }
  pose proof (digits_suffix 0 0 s2) as Hd. destruct (digits 10 0 0 s2) as [[v n] rest]. cbn in Hd.
  destruct (n =? 0); [done |]. destruct (_ <? _)%Z; [by etrans |]. destruct (_ <? _)%Z; by etrans.
Qed.

Lemma parse_json_number_moves cur errno : moves cur (fun a => a.1.2) (parse_json_number strtod real_limit cur errno).
Proof.
  unfold parse_json_number. pose proof (strtoll_suffix cur) as H1. pose proof (strtod_end cur) as H2.
  destruct (strtoll cur) as [[z e1] r1], (strtod cur) as [[r e2] r2]. cbn in H1, H2.
  destruct (is_error_integer _ _ _ _); [cbn; auto |]. case_bool_decide.
  - destruct (is_error_real _ _ _ _ _); [cbn; auto |]. cbn [rbind]. destruct (number_end _); cbn; auto.
  - cbn [rbind]. destruct (number_end _); cbn; auto.
Qed.

(** A constant ends at its last character. *)
Lemma compare_string_moves msg t cur : is_eos (current_char cur) = false ->
  match compare_string msg t cur with
  | Ok cur' => cur' `suffix_of` cur /\ is_eos (current_char cur') = false
  | Throw e => refused e
  end.
Proof.
  revert cur. induction t as [|x t IH]; intros cur Hc; [done |]. destruct (not_eos cur Hc) as (c & cur' & ->). cbn.
  destruct (is_eos (current_char cur')) eqn:He; [auto |]. destruct (negb _); [auto |]. specialize (IH cur' He).
  destruct (compare_string msg t cur'); [| done]. destruct IH as [IH ?]. split; [| done]. etrans; [exact IH | by exists [c]].
Qed.

Lemma constant_moves {A} (a : A) msg t cur : is_eos (current_char cur) = false ->
  moves cur snd (let? cur := compare_string msg t cur in let? cur := next_char cur in Ok (a, cur)).
Proof.
  intros Hc. pose proof (compare_string_moves msg t cur Hc) as H. destruct (compare_string msg t cur) as [cur1|]; [| done].
  destruct H as [H He]. destruct (not_eos cur1 He) as (c & cur2 & ->). cbn. etrans; [| exact H]. by exists [c].
Qed.

(** ** The values that are built *)

Definition added (st st' : json_parser) : Prop :=
  (exists v, value_ st' = attach st v) /\ state_stack_ st' = state_stack_ st.
Definition open_object (st st' : json_parser) : Prop := exists m, ordered m /\ filling st (Object m) st'.
Definition open_array (st st' : json_parser) : Prop := exists l, filling st (Array l) st'.

Lemma value_added st v : ready st -> exists st', on_value v st = Ok st' /\ added st st'.
Proof. intros Hr. eexists. split; [by apply on_value_attach |]. split; [by eexists | done]. Qed.

Lemma object_extended st st' k st'' : ready st -> open_object st st' ->
  added (JsonParser (value_ st') k (state_stack_ st')) st'' -> open_object st st''.
Proof.
  intros Hr (m & Hm & Hf) [[v Hv] Hs]. exists (map_set k v m). split; [by apply map_set_ordered |].
  rewrite (filling_attach st (Object m) _ v Hr) in Hv by exact Hf. rewrite set_key_Object in Hv by done.
  split; [exact Hv |]. rewrite Hs. apply Hf.
Qed.

Lemma array_extended st st' st'' : ready st -> open_array st st' -> added st' st'' -> open_array st st''.
Proof.
  intros Hr (l & Hf) [[v Hv] Hs]. exists (l ++ [v]). rewrite (filling_attach st (Array l) _ v Hr) in Hv by exact Hf.
  split; [exact Hv |]. rewrite Hs. apply Hf.
Qed.

Lemma object_ready st st' k : ready st -> open_object st st' -> ready (JsonParser (value_ st') k (state_stack_ st')).
Proof. intros Hr (m & Hm & Hf). by apply (filling_ready st (Object m)). Qed.
Lemma array_ready st st' : ready st -> open_array st st' -> ready st'.
Proof. intros Hr (l & Hf). by apply (filling_ready st (Array l)). Qed.

Lemma container_ended st c st' : filling st c st' -> exists st'', end_container st' = Ok st'' /\ added st st''.
Proof. intros [Hv Hs]. unfold end_container. rewrite Hs. eexists. split; [done |]. split; [by exists c | done]. Qed.

Lemma close_ends b check st c st' cur errno : is_eos b = false -> filling st c st' ->
  ends cur False (added st) (close b end_container check (st', cur, errno)).
Proof.
  intros Hb Hf. unfold close. pose proof (skip_spaces_suffix cur) as Hs. case_bool_decide as Hc; cbn [negb]; [| cbn; auto].
  destruct (container_ended st c st' Hf) as (st2 & -> & Ha). cbn [rbind]. rewrite Hc, Hb. rewrite andb_false_r.
  destruct (current_is _ _ Hc Hb) as (cur' & E). rewrite E in *. cbn. split; [| done]. etrans; [| exact Hs]. by exists [b].
Qed.

(** A pair of brackets with a loop between them. *)
Lemma container_ends o b v check (loop : json_parser * str * bool -> result (json_parser * str * bool)) (opened : json_parser -> json_parser -> Prop)
    st cur errno P : is_eos b = false -> ready st ->
  (forall st1, filling st v st1 -> opened st st1) -> (forall st1, opened st st1 -> exists c, filling st c st1) ->
  (forall st1 cur1 errno1, opened st st1 -> cur1 `suffix_of` cur -> ends cur1 (P cur1) (opened st) (loop (st1, cur1, errno1))) ->
  ends (o :: cur) (P (skip_spaces cur)) (added st)
    (let? (p, finished) := open b (begin_container v) end_container (st, o :: cur, errno) in
     if finished then Ok p else let? p := loop p in close b end_container check p).
Proof.
  intros Hb Hr Hv Hc Hl. unfold open. rewrite (begin_container_attach st v Hr). cbn [rbind next_char].
  set (st1 := JsonParser _ _ _). assert (filling st v st1) as Hf by done.
  pose proof (skip_spaces_suffix cur) as Hs. assert (cur `suffix_of` o :: cur) as Ho by (by exists [o]).
  case_bool_decide as E.
  - destruct (current_is _ _ E Hb) as (cur' & Ec). rewrite Ec in *. cbn [next_char rbind].
    destruct (container_ended st v st1 Hf) as (st2 & -> & Ha). cbn. split; [| done]. etrans; [| exact Ho]. etrans; [| exact Hs]. by exists [b].
  - cbn [rbind]. pose proof (Hl st1 (skip_spaces cur) errno (Hv _ Hf) Hs) as H.
    destruct (loop _) as [[[st2 cur2] e2]|]; [| exact H]. destruct H as [H1 H2]. cbn [rbind].
    destruct (Hc st2 H2) as (c & Hfc). eapply ends_weaken; [by eapply close_ends | | done | done].
    etrans; [exact H1 |]. by etrans.
Qed.

Abbreviation value := (parse_json_value strtod real_limit (S := json_parser)).
Definition value_ends (fuel : nat) : Prop := forall st cur errno,
  ready st -> ends cur (ends_open cur) (added st) (value fuel (st, cur, errno)).
Definition members_end (fuel : nat) : Prop := forall st st' cur errno,
  ready st -> open_object st st' ->
  ends cur (spaces cur \/ ends_open cur) (open_object st) (members strtod real_limit fuel (st', cur, errno)).
Definition elements_end (fuel : nat) : Prop := forall st st' cur errno,
  ready st -> open_array st st' ->
  ends cur (ends_open cur) (open_array st) (elements strtod real_limit fuel (st', cur, errno)).

Lemma open_brace cur : spaces (skip_spaces cur) \/ ends_open (skip_spaces cur) -> ends_open ("{"%char :: cur).
Proof.
  destruct (skip_spaces_split cur) as (w & E & Hw). intros [H | H].
  - exists [], "{"%char, cur. split; [done |]. split; [| by left]. rewrite E. by apply Forall_app_2.
  - eapply ends_open_suffix; [| exact H]. etrans; [apply skip_spaces_suffix | by exists ["{"%char]].
Qed.

Lemma object_ends fuel check st cur errno : members_end fuel -> ready st ->
  ends ("{"%char :: cur) (ends_open ("{"%char :: cur)) (added st)
    (on_parse_object strtod real_limit fuel check (st, "{"%char :: cur, errno)).
Proof.
  intros Hm Hr. eapply ends_weaken; [| done | apply open_brace | done].
  apply (container_ends "{"%char "}"%char (Object []) check (members strtod real_limit fuel) open_object st cur errno
           (fun c => spaces c \/ ends_open c)); [done | done | | | by intros; apply Hm].
  - intros st1 Hf. exists []. split; [constructor | done].
  - intros st1 (m & _ & Hf). by eexists.
Qed.

Lemma array_ends fuel check st cur errno : elements_end fuel -> ready st ->
  ends ("["%char :: cur) (ends_open ("["%char :: cur)) (added st)
    (on_parse_array strtod real_limit fuel check (st, "["%char :: cur, errno)).
Proof.
  intros He Hr. eapply ends_weaken; [| done | | done].
  - apply (container_ends "["%char "]"%char (Array []) check (elements strtod real_limit fuel) open_array st cur errno
             ends_open); [done | done | by intros st1 Hf; exists [] | by intros st1 (l & Hf); eexists | by intros; apply He].
  - apply ends_open_suffix. etrans; [apply skip_spaces_suffix | by exists ["["%char]].
Qed.

(** A scalar. *)
Lemma scalar_ends st v cur cur' errno P : ready st -> cur' `suffix_of` cur ->
  ends cur P (added st) (let? st := on_value v st in Ok (st, cur', errno)).
Proof. intros Hr Hc. destruct (value_added st v Hr) as (st' & -> & Ha). done. Qed.

Lemma value_step fuel : members_end fuel -> elements_end fuel -> value_ends (S fuel).
Proof.
  intros Hm He st cur errno Hr. cbn [parse_json_value]. pose proof (skip_spaces_suffix cur) as Hs.
  assert (forall r, ends (skip_spaces cur) (ends_open (skip_spaces cur)) (added st) r -> ends cur (ends_open cur) (added st) r) as Hw.
  { intros r H. eapply ends_weaken; [exact H | done | by apply ends_open_suffix | done]. }
  apply Hw. clear Hw Hs. generalize (skip_spaces cur). clear cur. intros cur.
  destruct (is_eos (current_char cur)) eqn:Heos; [left; auto |].
  case_bool_decide as H1; [| case_bool_decide as H2; [| case_bool_decide as H3; [| destruct (one_of (lit "-0123456789.") _) eqn:H4; [| destruct (one_of (lit "tf") _) eqn:H5; [| case_bool_decide as H6]]]]].
  - destruct (current_is _ _ H1 eq_refl) as (cur' & ->). by apply (object_ends fuel false).
  - destruct (current_is _ _ H2 eq_refl) as (cur' & ->). by apply (array_ends fuel true).
  - pose proof (parse_json_string_moves cur) as H. destruct (current_is _ _ H3 eq_refl) as (cur' & ->).
    destruct (parse_json_string _) as [[v cur1]|e]; cbn [rbind]; [by apply (scalar_ends st (String v)) |].
    destruct H as [H | [_ H]]; [by left |]. apply Forall_cons_1 in H as [H _]. done.
  - pose proof (parse_json_number_moves cur errno) as H.
    destruct (parse_json_number _ _ _ _) as [[[[z | r] cur1] e1]|]; cbn [rbind on_parse_number]; [| | by left].
    + by apply (scalar_ends st (Integer z)).
    + by apply (scalar_ends st (Real r)).
  - assert (moves cur snd (parse_json_bool cur)) as H.
    { unfold parse_json_bool. case_bool_decide; [by apply constant_moves |]. case_bool_decide; [by apply constant_moves | cbn; auto]. }
    destruct (parse_json_bool cur) as [[b cur1]|]; cbn [rbind]; [by apply (scalar_ends st (Boolean b)) | by left].
  - pose proof (constant_moves tt "invalid null character" (lit "ull") cur Heos) as H.
    unfold parse_json_null. rewrite H6, bool_decide_eq_true_2 by done.
    destruct (compare_string _ _ cur) as [cur1|]; cbn [rbind] in *; [| by left].
    destruct (next_char cur1) as [cur2|]; cbn [rbind] in *; [by apply (scalar_ends st Null) | by left].
  - left. auto.
Qed.

(** Behind a value in a list. *)
Lemma comma_moves cur :
  match comma cur with
  | Ok (cur', true) => cur' `suffix_of` cur /\ (spaces cur' \/ ends_open cur' -> ends_open cur)
  | Ok (cur', false) => cur' `suffix_of` cur
  | Throw _ => False
  end.
Proof.
  unfold comma. pose proof (skip_spaces_suffix cur) as Hs. case_bool_decide as E; [| done].
  destruct (current_is _ _ E eq_refl) as (cur' & Ec). rewrite Ec in *. cbn [next_char rbind].
  assert (cur' `suffix_of` ","%char :: cur') as Hc by (by exists [","%char]). split; [by etrans |].
  intros H. eapply ends_open_suffix; [exact Hs |]. destruct H as [H | H]; [by exists [], ","%char, cur'; auto |].
  by eapply ends_open_suffix.
Qed.

Lemma list_end fuel : value_ends fuel -> members_end fuel -> elements_end fuel -> members_end (S fuel) /\ elements_end (S fuel).
Proof.
  intros Hv Hm He. split; intros st st' cur errno Hr Ho.
  - rewrite members_S. pose proof (parse_json_string_moves cur) as H. destruct (parse_json_string cur) as [[k cur1]|]; cbn [rbind];
      [| destruct H as [H | [? ?]]; [by left | right; auto]].
    cbn [on_object_key json_parser_handler rbind]. set (st1 := JsonParser _ k _). pose proof (skip_spaces_suffix cur1) as Hs.
    destruct (is_eos (current_char (skip_spaces cur1))) eqn:Heos; [left; auto |]. destruct (not_eos _ Heos) as (c & cur2 & E).
    destruct (negb _); [left; auto |]. rewrite E in *. cbn [next_char rbind].
    assert (cur2 `suffix_of` cur) as Hc2 by (etrans; [| exact H]; etrans; [| exact Hs]; by exists [c]).
    pose proof (Hv st1 cur2 errno (object_ready st st' k Hr Ho)) as H2.
    destruct (value fuel _) as [[[st2 cur3] e3]|]; cbn [rbind]; [| by destruct H2 as [H2 | [? H2]]; [left | right; eauto using ends_open_suffix]].
    destruct H2 as [H2 Ha]. pose proof (object_extended st st' k st2 Hr Ho Ha) as Ho2.
    assert (cur3 `suffix_of` cur) as Hc3 by (by etrans). pose proof (comma_moves cur3) as Hc.
    destruct (comma cur3) as [[cur4 []]|]; cbn [rbind]; [| split; [by etrans | done] | done]. destruct Hc as [Hc Hopen].
    eapply ends_weaken; [by apply (Hm st) | by etrans | | done]. intros H4. right. by eapply ends_open_suffix, Hopen.
  - rewrite elements_S. pose proof (Hv st' cur errno (array_ready st st' Hr Ho)) as H2.
    destruct (value fuel _) as [[[st2 cur3] e3]|]; cbn [rbind]; [| exact H2].
    destruct H2 as [H2 Ha]. pose proof (array_extended st st' st2 Hr Ho Ha) as Ho2. pose proof (comma_moves cur3) as Hc.
    destruct (comma cur3) as [[cur4 []]|]; cbn [rbind]; [| split; [by etrans | done] | done]. destruct Hc as [Hc Hopen].
    eapply ends_weaken; [by apply (He st) | by etrans | | done]. intros H4. eapply ends_open_suffix; [| apply Hopen; by right]. done.
Qed.

Lemma parser_ends fuel : value_ends fuel /\ members_end fuel /\ elements_end fuel.
Proof.
  induction fuel as [|fuel (Hv & Hm & He)].
  - split_and!; intros st; intros; left; by right.
  - destruct (list_end fuel Hv Hm He). split; [by apply value_step | done].
Qed.

Lemma parse_json_ends s check st errno : ready st ->
  match parse_json strtod real_limit s check st errno with
  | Ok _ => True
  | Throw e => refused e \/ (ub e /\ ends_open s)
  end.
Proof.
  intros Hr. unfold parse_json. destruct (is_eos _) eqn:Heos; [left; auto |].
  set (r := if bool_decide _ then _ else _). assert (ends s (ends_open s) (added st) r) as H.
  { pose proof (skip_spaces_suffix s) as Hs. eapply ends_weaken; [| exact Hs | by apply ends_open_suffix | done]. unfold r. clear r Hs.
    generalize dependent (skip_spaces s). intros cur Hc. destruct (parser_ends (fuel_for cur)) as (Hv & Hm & He).
    case_bool_decide as H1; [| case_bool_decide as H2; [| by apply Hv]].
    - destruct (current_is _ _ H1 eq_refl) as (cur' & E). rewrite E in *. by apply object_ends.
    - destruct (current_is _ _ H2 eq_refl) as (cur' & E). rewrite E in *. by apply array_ends. }
  destruct r as [[[st' cur'] e']|]; cbn [rbind]; [| exact H]. destruct (_ && _); [left; auto | done].
Qed.
End Safety.

(** C29: parsing always comes to an end, within the number of steps that the
    length of the text allows: on every text, valid or not, whatever was
    parsed before, the parser returns a value or throws a [json_exception].
    Only when the text ends behind an opening brace or a comma, white space
    aside, it may instead read behind the terminator of the string
    ([brace_reads_behind_end]). [strtod] returns an end within the text. *)
Theorem parse_terminates strtod real_limit s errno st :
  (forall s, (strtod s).1.2 `suffix_of` s) ->
  match parse strtod real_limit s errno st with
  | Ok _ => True
  | Throw e => (exists m, e = json_exception m) \/ ((exists m, e = undefined_behaviour m) /\ ends_open (c_str s))
  end.
Proof.
  intros Hs. pose proof (parse_ends strtod real_limit s errno st (fun t => suffix_length _ _ (Hs t))) as Hf. unfold parse in *.
  pose proof (parse_json_ends strtod real_limit Hs (c_str s) true (JsonParser (value_ st) (key_ st) []) errno I) as H.
  destruct (parse_json _ _ _ _ _ _) as [[[st' cur] e]|]; cbn [rbind] in *; [done |].
  destruct H as [[H | ->] | H]; [by left | done | by right].
Qed.

(** C7: what [str()] and [dump()] print is parsed as the value that was printed,
    for every value without floating-point numbers whose strings need no
    escapes. *)
Theorem json_roundtrip strtod real_limit real_out j st :
  json_ok j -> printable j -> parse strtod real_limit (dump_with real_out j) false st = Ok j.
Proof.
  intros Hok Hp. rewrite <- (value_of_ok j Hok) at 2. rewrite <- (app_nil_r (dump_with real_out j)).
  apply (parse_text strtod real_limit j (dump_with real_out j) [] []);
    [by apply printable_text | constructor | apply gap_nil].
Qed.

End Builder.

(** ** Examples *)

(** For texts without floating-point numbers any [strtod] will do. *)
Definition no_reals (s : str) : unit * str * bool := (tt, s, false).
Definition fresh_parser : json_parser (real := unit) := JsonParser Null [] [].
Abbreviation read := (fun s errno => parse no_reals (fun _ => false) s errno fresh_parser).

Lemma parse_complete_witness : read (lit "[ true,[]" ++ [TAB] ++ lit "] ") false = Ok (Array [Boolean true; Array []]).
Proof.
  apply (parse_complete no_reals (fun _ => false) (Array [Boolean true; Array []])
           (lit "[ true,[]" ++ [TAB] ++ lit "]") [] (lit " ")).
  - apply (vt_array [Boolean true; Array []] (lit " true,[]" ++ [TAB])).
    apply (et_cons (lit " ") (Boolean true) (lit "true") [] [Array []] (lit "[]" ++ [TAB])).
    + by repeat constructor.
    + constructor.
    + apply gap_nil.
    + apply (et_last [] (Array []) (lit "[]") [TAB]); [constructor | apply (vt_empty_array []); constructor |].
      split; [by repeat constructor | done].
  - constructor.
  - split; [by repeat constructor | done].
Defined.

Lemma parse_terminates_witness :
  match read (lit "[1, {]") false with
  | Ok _ => True
  | Throw e => (exists m, e = json_exception m) \/ ((exists m, e = undefined_behaviour m) /\ ends_open (lit "[1, {]"))
  end.
Proof. apply (parse_terminates no_reals (fun _ => false) (lit "[1, {]")). intros s. reflexivity. Defined.

Lemma json_roundtrip_witness : read (dump_with (fun _ => []) sample_json) false = Ok sample_json.
Proof.
  apply (json_roundtrip no_reals (fun _ => false) (fun _ => []) sample_json).
  - exact sample_json_ok.
  - simpl. repeat split; vm_compute; repeat constructor; discriminate.
Defined.

(** An opening brace alone makes the parser read behind the string. *)
Example brace_reads_behind_end :
  read (lit "{") false = Throw (undefined_behaviour "read behind the end of the string").
Proof. reflexivity. Qed.

(** A quote that is never closed is accepted. *)
Example open_string_accepted : read (DQUOTE :: lit "abc") false = Ok (String (lit "abc")).
Proof. reflexivity. Qed.

(** A tab behind a number and a number with an exponent are refused. *)
Example tab_behind_number : read (lit "[1" ++ [TAB] ++ lit "]") false = Throw (json_exception "invalid json character").
Proof. reflexivity. Qed.
Example exponent_refused : read (lit "1e5") false = Throw (json_exception "invalid json character").
Proof. reflexivity. Qed.

(** Once a number was out of range, which leaves [errno] at [ERANGE], zero is
    an error. *)
Example stale_errno :
  read (lit "9223372036854775808") false = Throw (json_exception "errno integer error")
  /\ read (lit "0") false = Ok (Integer 0)
  /\ read (lit "0") true = Throw (json_exception "errno integer error").
Proof. done. Qed.

(** A quote in a string is printed as it is, and the text is refused. *)
Example quote_not_escaped :
  read (dump_with (fun _ : unit => []) (String [DQUOTE])) false
  = Throw (json_exception "no characters are allowed after closed root node").
Proof. reflexivity. Qed.

End JsonParser.
