(* ===== verification/JsonMapper.v ===== *)
(** * Objects as json

    Model of [json_serializer] (include/matador/json/json_serializer.hpp,
    src/json/json_serializer.cpp), which prints the object of a class, and of
    [basic_json_mapper] with [json_mapper_serializer]
    (include/matador/json/basic_json_mapper.hpp, json_mapper_serializer.hpp,
    src/json/json_mapper_serializer.cpp), which reads it; [json_mapper] offers
    both.

    A class is described by the attributes its [process] function names:
    numbers, booleans, strings ([Text], or [TextKey] for a primary key),
    objects of other classes, and sequences. A sequence of objects is a
    [std::vector]; one of strings is a [std::list], since a vector of strings
    selects the overload for vectors of classes, which does not compile for
    them; one of numbers or booleans can be either. A new object [T{}] has
    zeros and empty strings. Floating point numbers, dates, times and sets are
    not modelled. *)

From S2P Require Import Prelude Json JsonParser.

Local Open Scope cxx_scope.

Module JsonMapper.
Import Json JsonParser.

(** ** Classes and objects *)

#[warnings="-register-all"]
Inductive type :=
| Integral (signed : bool) (w : nat)
| Bool
| Text
| TextKey
| Class (fields : list (str * type))
| Sequence (elem : type).

#[warnings="-register-all"]
Inductive value :=
| VInt (z : Z)
| VBool (b : bool)
| VText (s : str)
| VObject (vs : list value)
| VList (vs : list value).

Abbreviation fields := (list (str * type)).

(** [T{}] *)
Fixpoint create (t : type) : value :=
  match t with
  | Integral _ _ => VInt 0
  | Bool => VBool false
  | Text | TextKey => VText []
  | Class fs => VObject ((fun f => create f.2) <$> fs)
  | Sequence _ => VList []
  end.
Definition create_object (fs : fields) : list value := (fun f => create f.2) <$> fs.

(** ** json_serializer *)

Record json_format := Format { show_line_break : bool; indentation : nat }.
Definition compact : json_format := Format false 0.
Definition pretty : json_format := Format true 2.

Record json_serializer := Serializer { json_ : str; depth_ : nat; is_array : bool }.

Section Print.
Context (fmt : json_format).

Definition put (s : str) (st : json_serializer) : json_serializer := Serializer (json_ st ++ s) (depth_ st) (is_array st).

Definition newline (st : json_serializer) : json_serializer := if show_line_break fmt then put [LF] st else st.
Definition indent (st : json_serializer) : json_serializer := put (replicate (depth_ st * indentation fmt) " "%char) st.

Definition write_id (id : str) (st : json_serializer) : json_serializer :=
  put (DQUOTE :: id ++ [DQUOTE] ++ lit ": ") (indent st).

Definition begin_object (st : json_serializer) : json_serializer :=
  let st := newline (put (lit "{") st) in Serializer (json_ st) (S (depth_ st)) (is_array st).
Definition end_object (st : json_serializer) : json_serializer :=
  let st := Serializer (json_ st) (pred (depth_ st)) (is_array st) in
  let st := put (lit "}") (indent st) in
  if (0 <? depth_ st) && negb (is_array st) then put (lit ",") st else st.

Definition begin_array (st : json_serializer) : json_serializer :=
  let st := put (lit "[") st in Serializer (json_ st) (depth_ st) true.
Definition end_array (st : json_serializer) : json_serializer :=
  let st := put (lit "]") st in
  let st := if 0 <? depth_ st then put (lit ",") st else st in
  Serializer (json_ st) (depth_ st) false.

(** [json_.erase(json_.find_last_of(','), 1)]: what is before the last comma
    and what is behind it. *)
Fixpoint last_comma (s : str) : option (str * str) :=
  match s with
  | [] => None
  | c :: s =>
    match last_comma s with
    | Some (a, b) => Some (c :: a, b)
    | None => if bool_decide (c = ","%char) then Some ([], s) else None
    end
  end.
Definition erase_comma (st : json_serializer) : result json_serializer :=
  match last_comma (json_ st) with
  | Some (a, b) => Ok (Serializer (a ++ b) (depth_ st) (is_array st))
  | None => Throw (out_of_range "basic_string::erase")
  end.

Section Attributes.
Context (append : type -> value -> json_serializer -> result json_serializer).

Fixpoint join_with (e : type) (l : list value) (st : json_serializer) {struct l} : result json_serializer :=
  match l with
  | [] => Ok st
  | [v] => append e v st
  | v :: l => let? st := append e v st in join_with e l (put (lit ",") st)
  end.

(** [on_primary_key], [on_revision] and [on_attribute]: empty strings are left
    out unless they are primary keys, objects and lists have written their
    comma themselves. *)
Definition attribute_with (id : str) (t : type) (v : value) (st : json_serializer) : result json_serializer :=
  match t, v with
  | Text, VText [] => Ok st
  | Class _, _ => let? st := append t v (write_id id st) in Ok (newline st)
  | Sequence e, VList l => let? st := join_with e l (begin_array (write_id id st)) in Ok (newline (end_array st))
  | _, _ => let? st := append t v (write_id id st) in Ok (newline (put (lit ",") st))
  end.

Fixpoint process_with (fs : fields) (vs : list value) (st : json_serializer) {struct fs} : result json_serializer :=
  match fs, vs with
  | (id, t) :: fs, v :: vs => let? st := attribute_with id t v st in process_with fs vs st
  | _, _ => Ok st
  end.
End Attributes.

Fixpoint append (t : type) (v : value) (st : json_serializer) {struct t} : result json_serializer :=
  match t, v with
  | Integral _ _, VInt z => Ok (put (to_string_z z) st)
  | Bool, VBool b => Ok (put (if b then lit "true" else lit "false") st)
  | Text, VText s | TextKey, VText s => Ok (put (DQUOTE :: s ++ [DQUOTE]) st)
  | Class fs, VObject vs =>
    let? st := process_with append fs vs (begin_object st) in
    let? st := erase_comma st in Ok (end_object st)
  | _, _ => Throw (undefined_behaviour "not an object of the class")
  end.

Abbreviation join := (join_with append).
Abbreviation on_attribute := (attribute_with append).
Abbreviation process := (process_with append).

(** The calls start at depth 0 and end there. *)
Definition to_json (fs : fields) (vs : list value) : result str :=
  let? st := append (Class fs) (VObject vs) (Serializer [] 0 false) in Ok (json_ (newline st)).

(** [to_json_array] *)
Definition to_json_array (fs : fields) (l : list (list value)) : result str :=
  let? st := join (Class fs) (VObject <$> l) (begin_array (Serializer [] 0 false)) in
  Ok (json_ (newline (end_array st))).
End Print.

(** ** basic_json_mapper *)

Section Map.
Context {real : Type}.
Context (strtod : str -> real * str * bool) (real_limit : real -> bool).

(** The mapper and its runtime data. [object_key] is set only around the call
    of [serialize] for a nested object and is an argument of it. *)
Record mapper := Mapper {
  value_ : json real;
  key : str;
  array_key : str;
  json_array_cursor : str;
  object_ : list value;
  array_ : list (list value);
  is_array_ : bool;
  is_object_ : bool }.

Definition set_value v (m : mapper) := Mapper v (key m) (array_key m) (json_array_cursor m) (object_ m) (array_ m) (is_array_ m) (is_object_ m).
Definition set_key v (m : mapper) := Mapper (value_ m) v (array_key m) (json_array_cursor m) (object_ m) (array_ m) (is_array_ m) (is_object_ m).
Definition set_object v (m : mapper) := Mapper (value_ m) (key m) (array_key m) (json_array_cursor m) v (array_ m) (is_array_ m) (is_object_ m).

(** Mapper, cursor, [errno]. *)
Abbreviation state := (mapper * str * bool)%type.

(** [static_cast] of the integer of a json value. *)
Definition cast (signed : bool) (w : nat) (z : Z) : Z :=
  if signed then swrap (8 * Z.of_nat w) z else wrap (8 * Z.of_nat w) z.

(** [fits_to_type] and [as]. *)
Definition as_value (t : type) (j : json real) : option value :=
  match t, j with
  | Integral signed w, Integer z => Some (VInt (cast signed w z))
  | Bool, Boolean b => Some (VBool b)
  | Text, String s | TextKey, String s => Some (VText s)
  | _, _ => None
  end.

(** [for (auto &val : value)] *)
Definition iterate (j : json real) : list (json real) :=
  match j with Object m => m.*2 | Array l => l | _ => [j] end.

Section Serialize.
(** The mappers for the object at the cursor and for the array at its start:
    the objects, where they end and [errno]. *)
Context (nested : fields -> str -> bool -> result (list value * str * bool)).
Context (nested_array : fields -> str -> bool -> result (list (list value) * str * bool)).

(** The handlers of [json_mapper_serializer] for an attribute: those of
    objects and vectors of objects look at [object_key], all others at
    [key]. *)
Definition map_attribute (object_key : str) (m : mapper) (id : str) (t : type) (v : value) (cur : str) (errno : bool)
  : result (value * str * bool) :=
  match t with
  | Class fs =>
    if bool_decide (object_key <> id) then Ok (v, cur, errno)
    else let? (vs, cur, errno) := nested fs cur errno in Ok (VObject vs, cur, errno)
  | Sequence (Class fs) =>
    if bool_decide (object_key <> id) then Ok (v, cur, errno)
    else let? (l, cur, errno) := nested_array fs (json_array_cursor m) errno in Ok (VList (VObject <$> l), cur, errno)
  | Sequence e =>
    if bool_decide (key m <> id) then Ok (v, cur, errno)
    else Ok (match v with VList l => VList (l ++ omap (as_value e) (iterate (value_ m))) | _ => v end, cur, errno)
  | _ =>
    if bool_decide (key m <> id) then Ok (v, cur, errno)
    else Ok (default v (as_value t (value_ m)), cur, errno)
  end.

Fixpoint map_fields (object_key : str) (m : mapper) (fs : fields) (vs : list value) (cur : str) (errno : bool)
  : result (list value * str * bool) :=
  match fs, vs with
  | (id, t) :: fs, v :: vs =>
    let? (v, cur, errno) := map_attribute object_key m id t v cur errno in
    let? (vs, cur, errno) := map_fields object_key m fs vs cur errno in Ok (v :: vs, cur, errno)
  | _, _ => Ok (vs, cur, errno)
  end.

Definition serialize (fs : fields) (object_key : str) (p : state) : result state :=
  let '(m, cur, errno) := p in
  let? (vs, cur, errno) := map_fields object_key m fs (object_ m) cur errno in Ok (set_object vs m, cur, errno).

Definition on_begin_object (fs : fields) (m : mapper) : mapper :=
  if is_array_ m
  then Mapper (value_ m) [] (array_key m) (json_array_cursor m) (create_object fs) (array_ m) true true
  else set_key [] m.
Definition on_end_object (m : mapper) : mapper :=
  let m := set_key [] m in
  if is_array_ m
  then Mapper (value_ m) (key m) (array_key m) (json_array_cursor m) (object_ m) (array_ m ++ [object_ m]) true false
  else m.

Definition on_begin_array (cur : str) (m : mapper) : mapper :=
  Mapper (Array []) (key m) (key m) cur (object_ m) (array_ m) true (is_object_ m).
Definition on_end_array (fs : fields) (p : state) : result state :=
  let '(m, cur, errno) := p in
  let m := Mapper (value_ m) (key m) [] cur (object_ m) (array_ m) false (is_object_ m) in
  if bool_decide (key m = []) then Ok (m, cur, errno) else serialize fs [] (m, cur, errno).

(** [on_string], [on_integer], [on_real], [on_bool], [on_null]: in an array
    that belongs to no object of an array, values are collected; a null is
    not. *)
Definition on_scalar (fs : fields) (v : json real) (p : state) : result state :=
  let '(m, cur, errno) := p in
  if is_array_ m && negb (is_object_ m)
  then Ok (match v with Null => m | _ => set_value (push_back v (value_ m)) m end, cur, errno)
  else serialize fs [] (set_value v m, cur, errno).
End Serialize.

Definition new_mapper (vs : list value) : mapper := Mapper Null [] [] [] vs [] false false.

Definition expect_end (check_for_eos : bool) (p : state) : result state :=
  let '(m, cur, errno) := p in
  let cur := skip_spaces cur in
  if check_for_eos && negb (is_eos (current_char cur))
  then Throw (json_exception "no characters are allowed after closed root node")
  else Ok (m, cur, errno).

Fixpoint map_value (fuel : nat) (fs : fields) (p : state) {struct fuel} : result state :=
  match fuel with
  | O => Throw out_of_fuel
  | S fuel =>
    let nested fs cur errno := let? (m, cur, errno) := object_from_string fuel fs cur false errno in Ok (object_ m, cur, errno) in
    let nested_array fs cur errno :=
      let? (m, cur, errno) := array_from_string fuel fs cur false errno in Ok (array_ m, json_array_cursor m, errno) in
    let '(m, cur, errno) := p in
    let cur := skip_spaces cur in
    let c := current_char cur in
    if is_eos c then Throw (json_exception "invalid stream")
    else if bool_decide (c = "{"%char) then
      if bool_decide (key m = []) then map_object fuel fs false (m, cur, errno)
      else serialize nested nested_array fs (key m) (m, cur, errno)
    else if bool_decide (c = "["%char) then map_array fuel fs true (m, cur, errno)
    else if bool_decide (c = DQUOTE) then
      let? (v, cur) := parse_json_string cur in on_scalar nested nested_array fs (String v) (m, cur, errno)
    else if one_of (lit "-0123456789.") c then
      let? (n, cur, errno) := parse_json_number strtod real_limit cur errno in
      on_scalar nested nested_array fs (match n with IntegerNumber z => Integer z | RealNumber r => Real r end) (m, cur, errno)
    else if one_of (lit "tf") c then
      let? (b, cur) := parse_json_bool cur in on_scalar nested nested_array fs (Boolean b) (m, cur, errno)
    else if bool_decide (c = "n"%char) then
      let? cur := parse_json_null cur in on_scalar nested nested_array fs Null (m, cur, errno)
    else Throw (json_exception "unknown json type")
  end
(** [generic_json_parser::on_parse_object] *)
with map_object (fuel : nat) (fs : fields) (check_for_eos : bool) (p : state) {struct fuel} : result state :=
  match fuel with
  | O => Throw out_of_fuel
  | S fuel =>
    let begin_ m := Ok (on_begin_object fs m) in
    let end_ m := Ok (on_end_object m) in
    let? (p, done) := open "}"%char begin_ end_ p in
    if done then Ok p else let? p := map_members fuel fs p in close "}"%char end_ check_for_eos p
  end
(** Its loop. *)
with map_members (fuel : nat) (fs : fields) (p : state) {struct fuel} : result state :=
  match fuel with
  | O => Throw out_of_fuel
  | S fuel =>
    let '(m, cur, errno) := p in
    let? (k, cur) := parse_json_string cur in
    let m := set_key k m in
    let cur := skip_spaces cur in
    let c := current_char cur in
    if is_eos c then Throw (json_exception "invalid stream")
    else if negb (bool_decide (c = ":"%char)) then Throw (json_exception "character isn't colon")
    else
      let? cur := next_char cur in
      let? (m, cur, errno) := map_value fuel fs (m, cur, errno) in
      let? (cur, has_next) := comma cur in
      if has_next then map_members fuel fs (m, cur, errno) else Ok (m, cur, errno)
  end
(** [generic_json_parser::on_parse_array] *)
with map_array (fuel : nat) (fs : fields) (check_for_eos : bool) (p : state) {struct fuel} : result state :=
  match fuel with
  | O => Throw out_of_fuel
  | S fuel =>
    let nested fs cur errno := let? (m, cur, errno) := object_from_string fuel fs cur false errno in Ok (object_ m, cur, errno) in
    let nested_array fs cur errno :=
      let? (m, cur, errno) := array_from_string fuel fs cur false errno in Ok (array_ m, json_array_cursor m, errno) in
    let '(m, cur, errno) := p in
    let m := on_begin_array cur m in
    let? cur := next_char cur in
    let cur := skip_spaces cur in
    if bool_decide (current_char cur = "]"%char) then
      let? cur := next_char cur in on_end_array nested nested_array fs (m, cur, errno)
    else
      let? (m, cur, errno) := map_elements fuel fs (m, cur, errno) in
      let cur := skip_spaces cur in
      if negb (bool_decide (current_char cur = "]"%char)) then Throw (json_exception "not a valid array closing bracket")
      else
        let? (m, cur, errno) := on_end_array nested nested_array fs (m, cur, errno) in
        let? cur := next_char cur in Ok (m, cur, errno)
  end
with map_elements (fuel : nat) (fs : fields) (p : state) {struct fuel} : result state :=
  match fuel with
  | O => Throw out_of_fuel
  | S fuel =>
    let? (m, cur, errno) := map_value fuel fs p in
    let? (cur, has_next) := comma cur in
    if has_next then map_elements fuel fs (m, cur, errno) else Ok (m, cur, errno)
  end
(** [basic_json_mapper::object_from_string] of a new mapper, and
    [parse_json_object]. *)
with object_from_string (fuel : nat) (fs : fields) (s : str) (check_for_eos : bool) (errno : bool) {struct fuel} : result state :=
  match fuel with
  | O => Throw out_of_fuel
  | S fuel =>
    let cur := skip_spaces s in
    let c := current_char cur in
    if is_eos c then Throw (json_exception "invalid stream")
    else if negb (bool_decide (c = "{"%char)) then Throw (json_exception "root must be object '{}'")
    else
      let? p := map_object fuel fs check_for_eos (new_mapper (create_object fs), cur, errno) in
      expect_end check_for_eos p
  end
with array_from_string (fuel : nat) (fs : fields) (s : str) (check_for_eos : bool) (errno : bool) {struct fuel} : result state :=
  match fuel with
  | O => Throw out_of_fuel
  | S fuel =>
    let cur := skip_spaces s in
    let c := current_char cur in
    if is_eos c then Throw (json_exception "invalid stream")
    else if negb (bool_decide (c = "["%char)) then Throw (json_exception "root must be array '[]'")
    else
      let? p := map_array fuel fs check_for_eos (new_mapper (create_object fs), cur, errno) in
      expect_end check_for_eos p
  end.

(** Every character is read by at most three nested calls. *)
Definition mapper_fuel (s : str) : nat := 4 * length s + 4.

(** [json_mapper::to_object] and [to_objects]. *)
Definition to_object (fs : fields) (s : str) (errno : bool) : result (list value) :=
  let? (m, cur, errno) := object_from_string (mapper_fuel (c_str s)) fs (c_str s) true errno in Ok (object_ m).
Definition to_objects (fs : fields) (s : str) (errno : bool) : result (list (list value)) :=
  let? (m, cur, errno) := array_from_string (mapper_fuel (c_str s)) fs (c_str s) true errno in Ok (array_ m).
End Map.

(** ** What a text means for a class *)

Section Meaning.
Context {real : Type}.

Definition scalar (j : json real) : Prop := match j with Object _ | Array _ | Real _ => False | _ => True end.

(** The attribute [k] gets what [f] makes of its type and value. *)
Fixpoint assign (k : str) (f : type -> value -> value) (fs : fields) (vs : list value) : list value :=
  match fs, vs with
  | (id, t) :: fs, v :: vs => if bool_decide (id = k) then f t v :: vs else v :: assign k f fs vs
  | _, _ => vs
  end.

(** A json value for an attribute: one that fits replaces its value, elements
    that fit are added to a list, and anything else is ignored. *)
Definition accept (j : json real) (t : type) (v : value) : value :=
  match t with
  | Class _ | Sequence (Class _) => v
  | Sequence e => match v with VList l => VList (l ++ omap (as_value e) (iterate j)) | _ => v end
  | _ => default v (as_value t j)
  end.

(** The attributes of a class have different names. *)
Definition class_names (fs : fields) : Prop := NoDup fs.*1 /\ ([] ∉ fs.*1).

(** The members of a json object, read one after another, lead from the
    values [vs] to [vs']. Objects stand for attributes that are objects; in an
    object that is an element of an array, there are no arrays. *)
Inductive member_read : fields -> bool -> str -> json real -> list value -> list value -> Prop :=
| mr_scalar fs arr k j vs : scalar j -> member_read fs arr k j vs (assign k (accept j) fs vs)
| mr_list fs k l vs : Forall scalar l -> member_read fs false k (Array l) vs (assign k (accept (Array l)) fs vs)
| mr_object fs arr k fs' m vs vs' :
    (k, Class fs') ∈ fs -> class_names fs' -> members_read fs' false m (create_object fs') vs' ->
    member_read fs arr k (Object m) vs (assign k (fun _ _ => VObject vs') fs vs)
| mr_objects fs k fs' l ls vs :
    (k, Sequence (Class fs')) ∈ fs -> class_names fs' -> l <> [] -> elements_read fs' l ls ->
    member_read fs false k (Array l) vs (assign k (fun _ _ => VList (VObject <$> ls)) fs vs)
with members_read : fields -> bool -> list (str * json real) -> list value -> list value -> Prop :=
| mr_nil fs arr vs : members_read fs arr [] vs vs
| mr_cons fs arr k j m vs vs1 vs2 :
    k <> [] -> member_read fs arr k j vs vs1 -> members_read fs arr m vs1 vs2 -> members_read fs arr ((k, j) :: m) vs vs2
with elements_read : fields -> list (json real) -> list (list value) -> Prop :=
| er_nil fs : elements_read fs [] []
| er_cons fs m l vs ls :
    members_read fs true m (create_object fs) vs -> elements_read fs l ls -> elements_read fs (Object m :: l) (vs :: ls).
End Meaning.

(** A class with attributes of all kinds. *)
Definition item_fields : fields := [(lit "name", Text); (lit "price", Integral true 4)].
Definition order_fields : fields :=
  [(lit "code", TextKey); (lit "id", Integral false 8); (lit "paid", Bool); (lit "note", Text); (lit "first", Class item_fields);
   (lit "numbers", Sequence (Integral true 4)); (lit "tags", Sequence Text); (lit "items", Sequence (Class item_fields))].
Definition sample_item (n : string) (p : Z) : list value := [VText (lit n); VInt p].
Definition sample_order : list value :=
  [VText []; VInt 7; VBool true; VText []; VObject (sample_item "ball" 3); VList [VInt 1; VInt (-2)]; VList [VText (lit "a"); VText (lit "b")];
   VList [VObject (sample_item "rope" 5); VObject (sample_item "" 6)]].

End JsonMapper.
