(* ===== verification/JsonMapping.v ===== *)
(** * Objects survive json

    The mapper of [JsonMapper] reads every text of a json object as the object
    it means for the class, and what the serializer prints is such a text: an
    object that is printed and read is the same object. *)

From S2P Require Import Prelude Json JsonParser JsonMapper.

Local Open Scope cxx_scope.

Module JsonMapping.
Import Json JsonParser JsonMapper.

Section Read.
Context {real : Type}.
Context (strtod : str -> real * str * bool) (real_limit : real -> bool).
Abbreviation json := (json real).
Abbreviation mapper := (mapper (real := real)).
Abbreviation map_value := (map_value strtod real_limit).
Abbreviation map_object := (map_object strtod real_limit).
Abbreviation map_members := (map_members strtod real_limit).
Abbreviation map_array := (map_array strtod real_limit).
Abbreviation map_elements := (map_elements strtod real_limit).
Abbreviation object_from_string := (object_from_string strtod real_limit).
Abbreviation array_from_string := (array_from_string strtod real_limit).

(** ** Attributes *)

Section Fields.
Context (nested : fields -> str -> bool -> result (list value * str * bool)).
Context (nested_array : fields -> str -> bool -> result (list (list value) * str * bool)).
Abbreviation map_fields := (map_fields nested nested_array).
Abbreviation map_attribute := (map_attribute nested nested_array).

Lemma map_attribute_other ok (m : mapper) id t v cur errno :
  id <> key m -> id <> [] -> ok = [] \/ ok = key m -> map_attribute ok m id t v cur errno = Ok (v, cur, errno).
Proof.
  intros H1 H2 Hok. unfold map_attribute. assert (ok <> id) by (destruct Hok as [-> | ->]; congruence).
  destruct t as [| | | | |[]]; rewrite bool_decide_true by congruence; done.
Qed.

Lemma map_fields_other ok (m : mapper) fs vs cur errno :
  key m ∉ fs.*1 -> ([] ∉ fs.*1) -> ok = [] \/ ok = key m -> map_fields ok m fs vs cur errno = Ok (vs, cur, errno).
Proof.
  intros H1 H2 Hok. revert vs. induction fs as [|[id t] fs IH]; intros [|v vs]; try done. cbn [JsonMapper.map_fields].
  cbn in H1, H2. apply not_elem_of_cons in H1 as [H1 H1'], H2 as [H2 H2'].
  rewrite map_attribute_other by congruence. cbn [rbind]. rewrite IH by done. done.
Qed.

Lemma assign_other k f fs vs : k ∉ fs.*1 -> assign k f fs vs = vs.
Proof.
  revert vs. induction fs as [|[id t] fs IH]; intros [|v vs] H; try done. cbn in H. apply not_elem_of_cons in H as [H H'].
  cbn [assign]. rewrite bool_decide_false by congruence. by rewrite IH.
Qed.

Lemma map_fields_at ok (m : mapper) fs vs t f cur errno cur' errno' :
  class_names fs -> (key m, t) ∈ fs -> ok = [] \/ ok = key m -> length vs = length fs ->
  (forall v, map_attribute ok m (key m) t v cur errno = Ok (f t v, cur', errno')) ->
  map_fields ok m fs vs cur errno = Ok (assign (key m) f fs vs, cur', errno').
Proof.
  intros [Hnd Hne] Hin Hok. revert vs. induction fs as [|[id t'] fs IH]; intros [|v vs] Hlen Hf; try done; [by apply elem_of_nil in Hin |].
  cbn in Hnd, Hne. apply list.NoDup_cons in Hnd as [Hid Hnd]. apply not_elem_of_cons in Hne as [Hne Hne'].
  cbn [JsonMapper.map_fields assign]. apply elem_of_cons in Hin as [[= <- <-] | Hin].
  - rewrite Hf. cbn [rbind]. rewrite bool_decide_true by done. by rewrite map_fields_other.
  - assert (id <> key m) by (intros ->; apply Hid; by apply (list_elem_of_fmap_2 fst) in Hin).
    rewrite map_attribute_other by congruence. cbn [rbind]. rewrite bool_decide_false by done. rewrite IH by (done || (cbn in Hlen; lia)). done.
Qed.

Lemma field_dec k (fs : fields) : (exists t, (k, t) ∈ fs) \/ k ∉ fs.*1.
Proof.
  destruct (decide (k ∈ fs.*1)) as [H|H]; [left | by right]. apply list_elem_of_fmap in H as ([k' t] & -> & H). by exists t.
Qed.

(** [serialize] for the value of the current key. *)
Lemma serialize_value fs (m : mapper) cur errno :
  class_names fs -> length (object_ m) = length fs -> key m <> [] ->
  serialize nested nested_array fs [] (m, cur, errno) = Ok (set_object (assign (key m) (accept (value_ m)) fs (object_ m)) m, cur, errno).
Proof.
  intros Hc Hlen Hk. unfold serialize. destruct (field_dec (key m) fs) as [[t Ht] | Hno].
  - rewrite (map_fields_at [] m fs (object_ m) t (accept (value_ m)) cur errno cur errno Hc Ht (or_introl eq_refl) Hlen); [done |].
    intros v. unfold map_attribute, accept. destruct t as [| | | | |[]]; rewrite ?(bool_decide_false (key m <> key m)), ?(bool_decide_true ([] <> key m)) by congruence; done.
  - destruct Hc as [_ Hne]. rewrite map_fields_other by (done || by left). cbn [rbind]. by rewrite assign_other.
Qed.
End Fields.

(** ** Scalars *)

Ltac eval_tests :=
  repeat match goal with
  | |- context [bool_decide (@eq ascii ?a ?b)] => eval_test (bool_decide (a = b))
  | |- context [one_of ?s ?c] => eval_test (one_of s c)
  | |- context [is_eos ?c] => eval_test (is_eos c)
  end; cbn [negb andb orb].

(** The mappers of nested objects, with the fuel that is left. *)
Definition nested_with (fuel : nat) (fs : fields) (cur : str) (errno : bool) : result (list value * str * bool) :=
  let? (m, cur, errno) := object_from_string fuel fs cur false errno in Ok (object_ m, cur, errno).
Definition nested_array_with (fuel : nat) (fs : fields) (cur : str) (errno : bool) : result (list (list value) * str * bool) :=
  let? (m, cur, errno) := array_from_string fuel fs cur false errno in Ok (array_ m, json_array_cursor m, errno).
Abbreviation serialize_with fuel := (serialize (nested_with fuel) (nested_array_with fuel)).
Abbreviation scalar_with fuel := (on_scalar (nested_with fuel) (nested_array_with fuel)).

(** One step of each function. *)
Lemma map_value_S fuel fs (m : mapper) cur errno :
  map_value (S fuel) fs (m, cur, errno) =
    let cur := skip_spaces cur in
    let c := current_char cur in
    if is_eos c then Throw (json_exception "invalid stream")
    else if bool_decide (c = "{"%char) then
      if bool_decide (key m = []) then map_object fuel fs false (m, cur, errno)
      else serialize_with fuel fs (key m) (m, cur, errno)
    else if bool_decide (c = "["%char) then map_array fuel fs true (m, cur, errno)
    else if bool_decide (c = DQUOTE) then
      let? (v, cur) := parse_json_string cur in scalar_with fuel fs (String v) (m, cur, errno)
    else if one_of (lit "-0123456789.") c then
      let? (n, cur, errno) := parse_json_number strtod real_limit cur errno in
      scalar_with fuel fs (match n with IntegerNumber z => Integer z | RealNumber r => Real r end) (m, cur, errno)
    else if one_of (lit "tf") c then
      let? (b, cur) := parse_json_bool cur in scalar_with fuel fs (Boolean b) (m, cur, errno)
    else if bool_decide (c = "n"%char) then
      let? cur := parse_json_null cur in scalar_with fuel fs Null (m, cur, errno)
    else Throw (json_exception "unknown json type").
Proof. reflexivity. Qed.

Lemma map_object_S fuel fs check p :
  map_object (S fuel) fs check p =
    let? (p, done) := open "}"%char (fun m => Ok (on_begin_object fs m)) (fun m => Ok (on_end_object m)) p in
    if done then Ok p else let? p := map_members fuel fs p in close "}"%char (fun m => Ok (on_end_object m)) check p.
Proof. reflexivity. Qed.

Lemma map_members_S fuel fs (m : mapper) cur errno :
  map_members (S fuel) fs (m, cur, errno) =
    let? (k, cur) := parse_json_string cur in
    let cur := skip_spaces cur in
    let c := current_char cur in
    if is_eos c then Throw (json_exception "invalid stream")
    else if negb (bool_decide (c = ":"%char)) then Throw (json_exception "character isn't colon")
    else
      let? cur := next_char cur in
      let? (m, cur, errno) := map_value fuel fs (set_key k m, cur, errno) in
      let? (cur, has_next) := comma cur in
      if has_next then map_members fuel fs (m, cur, errno) else Ok (m, cur, errno).
Proof. reflexivity. Qed.

Lemma map_array_S fuel fs check (m : mapper) cur errno :
  map_array (S fuel) fs check (m, cur, errno) =
    let m := on_begin_array cur m in
    let? cur := next_char cur in
    let cur := skip_spaces cur in
    if bool_decide (current_char cur = "]"%char) then
      let? cur := next_char cur in on_end_array (nested_with fuel) (nested_array_with fuel) fs (m, cur, errno)
    else
      let? (m, cur, errno) := map_elements fuel fs (m, cur, errno) in
      let cur := skip_spaces cur in
      if negb (bool_decide (current_char cur = "]"%char)) then Throw (json_exception "not a valid array closing bracket")
      else
        let? (m, cur, errno) := on_end_array (nested_with fuel) (nested_array_with fuel) fs (m, cur, errno) in
        let? cur := next_char cur in Ok (m, cur, errno).
Proof. reflexivity. Qed.

Lemma map_elements_S fuel fs p :
  map_elements (S fuel) fs p =
    let? (m, cur, errno) := map_value fuel fs p in
    let? (cur, has_next) := comma cur in
    if has_next then map_elements fuel fs (m, cur, errno) else Ok (m, cur, errno).
Proof. reflexivity. Qed.

Lemma object_from_string_S fuel fs s check errno :
  object_from_string (S fuel) fs s check errno =
    let cur := skip_spaces s in
    let c := current_char cur in
    if is_eos c then Throw (json_exception "invalid stream")
    else if negb (bool_decide (c = "{"%char)) then Throw (json_exception "root must be object '{}'")
    else
      let? p := map_object fuel fs check (new_mapper (create_object fs), cur, errno) in expect_end check p.
Proof. reflexivity. Qed.

Lemma array_from_string_S fuel fs s check errno :
  array_from_string (S fuel) fs s check errno =
    let cur := skip_spaces s in
    let c := current_char cur in
    if is_eos c then Throw (json_exception "invalid stream")
    else if negb (bool_decide (c = "["%char)) then Throw (json_exception "root must be array '[]'")
    else
      let? p := map_array fuel fs check (new_mapper (create_object fs), cur, errno) in expect_end check p.
Proof. reflexivity. Qed.

Lemma scalar_read fuel fs (m : mapper) w (j : json) t rest :
  scalar j -> value_text j t -> spaces w -> follows j rest ->
  map_value (S fuel) fs (m, w ++ t ++ rest, false) = scalar_with fuel fs j (m, rest, false).
Proof.
  intros Hj Ht Hw Hf. rewrite map_value_S. cbv zeta.
  rewrite skip_spaces_app by (done || destruct (value_text_head j t Ht) as (c & t' & -> & Hc & _); done).
  destruct Ht as [| | |z Hz|v s Hs| | | |]; try done.
  - destruct (to_string_z_head z) as (c & s & E & Hc).
    rewrite (parse_json_number_text strtod real_limit) by (done || by apply Hf). rewrite E. cbn [app current_char].
    assert (is_eos c = false /\ c <> "{"%char /\ c <> "["%char /\ c <> DQUOTE /\ one_of (lit "-0123456789.") c = true)
      as (-> & H1 & H2 & H3 & ->) by (clear - Hc; revert Hc; by_chars c).
    by rewrite !bool_decide_false by done.
  - cbn [app current_char]. eval_tests. rewrite <- app_assoc. cbn [app].
    pose proof (parse_json_string_text [] v s rest (Forall_nil_2 _)) as E. cbn [app] in E. by rewrite E.
Qed.

(** ** Objects and arrays *)

Definition same_rest (a b : str) : Prop := skip_spaces a = skip_spaces b.

Lemma comma_same a b : same_rest a b -> comma a = comma b.
Proof. unfold same_rest, comma. by intros ->. Qed.

Lemma skip_spaces_twice s : skip_spaces (skip_spaces s) = skip_spaces s.
Proof. induction s as [|c s IH]; [done |]. cbn [skip_spaces]. destruct (isspace c) eqn:E; [done |]. cbn [skip_spaces]. by rewrite E. Qed.

Lemma length_assign k f fs vs : length (assign k f fs vs) = length vs.
Proof. revert vs. induction fs as [|[id t] fs IH]; intros [|v vs]; try done. cbn [assign]. case_bool_decide; cbn; [done | by rewrite IH]. Qed.

Lemma member_read_length fs arr k (j : json) vs vs' : member_read fs arr k j vs vs' -> length vs' = length vs.
Proof. destruct 1; apply length_assign. Qed.

(** The mapper is filling its object, which has the values [vs]; [arr]: it is
    an element of an array. *)
Record in_object (m : mapper) (vs : list value) (arr : bool) : Prop := {
  io_object : object_ m = vs;
  io_array : is_array_ m = arr;
  io_is_object : is_object_ m = arr }.

(** The mapper is in an array that is not part of an object. *)
Definition in_array (m : mapper) : Prop := is_array_ m = true /\ is_object_ m = false.

Definition reads_member_value (j : json) (t : str) : Prop := forall fuel fs m w rest vs arr vs',
  4 * length t <= fuel -> class_names fs -> length vs = length fs -> key m <> [] -> in_object m vs arr ->
  member_read fs arr (key m) j vs vs' -> spaces w -> follows j rest ->
  exists m' cur, map_value fuel fs (m, w ++ t ++ rest, false) = Ok (m', cur, false)
    /\ same_rest cur rest /\ in_object m' vs' arr /\ array_ m' = array_ m.

Definition reads_object (mm : list (str * json)) (t : str) : Prop := forall fuel fs m rest vs vs' arr check,
  4 * length t <= fuel + 4 -> class_names fs -> length vs = length fs -> in_object (on_begin_object fs m) vs arr ->
  members_read fs arr mm vs vs' ->
  exists m', map_object fuel fs check (m, t ++ rest, false) = Ok (on_end_object m', rest, false)
    /\ in_object m' vs' arr /\ array_ m' = array_ m.

Definition reads_members (mm : list (str * json)) (s : str) : Prop := forall fuel fs m rest vs vs' arr,
  4 * length s + 1 <= fuel -> class_names fs -> length vs = length fs -> in_object m vs arr -> members_read fs arr mm vs vs' ->
  exists m', map_members fuel fs (m, s ++ "}"%char :: rest, false) = Ok (m', "}"%char :: rest, false)
    /\ in_object m' vs' arr /\ array_ m' = array_ m.

Definition reads_member (k : str) (j : json) (s : str) : Prop := forall fuel fs m c rest vs vs' arr,
  4 * length s <= fuel + 2 -> class_names fs -> length vs = length fs -> in_object m vs arr -> k <> [] -> member_read fs arr k j vs vs' ->
  number_end c = true ->
  exists m' w, map_members (S fuel) fs (m, s ++ c :: rest, false)
      = (let? (cur, has_next) := comma (w ++ c :: rest) in
         if has_next then map_members fuel fs (m', cur, false) else Ok (m', cur, false))
    /\ spaces w /\ in_object m' vs' arr /\ array_ m' = array_ m.

(** Values that are collected. *)
Definition collect (v : json) (j : json) : json := match j with Null => v | _ => push_back j v end.

Definition reads_elements (l : list json) (s : str) : Prop := forall fuel fs m rest,
  4 * length s + 1 <= fuel -> in_array m ->
  (Forall scalar l -> map_elements fuel fs (m, s ++ "]"%char :: rest, false)
     = Ok (set_value (foldl collect (value_ m) l) m, "]"%char :: rest, false))
  /\ (forall ls, elements_read fs l ls -> class_names fs -> key m = [] ->
     exists m', map_elements fuel fs (m, s ++ "]"%char :: rest, false) = Ok (m', "]"%char :: rest, false)
       /\ array_ m' = array_ m ++ ls /\ in_array m' /\ key m' = []).

Ltac lengths := repeat (rewrite ?length_app in *; cbn [length] in *); lia.

Lemma in_object_set_key k m vs arr : in_object m vs arr -> in_object (set_key k m) vs arr.
Proof. by intros [? ? ?]. Qed.

(** A nested value at an object or an array. *)
Lemma map_value_brace fuel fs (m : mapper) w t rest :
  spaces w -> map_value (S fuel) fs (m, w ++ ("{"%char :: t) ++ rest, false)
  = if bool_decide (key m = []) then map_object fuel fs false (m, ("{"%char :: t) ++ rest, false)
    else serialize_with fuel fs (key m) (m, ("{"%char :: t) ++ rest, false).
Proof. intros Hw. rewrite map_value_S. cbv zeta. rewrite skip_spaces_app by done. reflexivity. Qed.

Lemma map_value_bracket fuel fs (m : mapper) w t rest :
  spaces w -> map_value (S fuel) fs (m, w ++ ("["%char :: t) ++ rest, false) = map_array fuel fs true (m, ("["%char :: t) ++ rest, false).
Proof. intros Hw. rewrite map_value_S. cbv zeta. rewrite skip_spaces_app by done. reflexivity. Qed.

Lemma scalar_member j t : scalar j -> value_text j t -> reads_member_value j t.
Proof.
  intros Hj Ht fuel fs m w rest vs arr vs' Hfuel Hc Hlen Hk [Hv Ha Ho] Hm Hw Hf.
  destruct fuel as [|fuel]; [destruct (value_text_head j t Ht) as (c & t' & -> & _); cbn in Hfuel; lia |].
  rewrite (scalar_read fuel fs m w j t rest) by done. unfold on_scalar. rewrite Ha, Ho. replace (arr && negb arr) with false by by destruct arr.
  rewrite serialize_value; [| done | cbn; by rewrite Hv | done]. do 2 eexists. split; [reflexivity |]. split; [done |].
  by inversion Hm; subst.
Qed.

(** A nested object is read by a mapper of its own. *)
Lemma object_member mm t : (exists t', t = "{"%char :: t') -> reads_object mm t -> reads_member_value (Object mm) t.
Proof.
  intros [t' ->] Hr fuel fs m w rest vs arr vs' Hfuel Hc Hlen Hk [Hv Ha Ho] Hm Hw Hf.
  destruct fuel as [|[|fuel]]; [cbn in Hfuel; lia.. |]. rewrite map_value_brace, bool_decide_false by done.
  inversion Hm as [? ? ? ? ? Hs | | ? ? ? fs' ? ? vs1 Hin Hc' Hm' | ]; subst; [done |].
  assert (nested_with (S fuel) fs' (("{"%char :: t') ++ rest) false = Ok (vs1, skip_spaces rest, false)) as Hn.
  { unfold nested_with. rewrite object_from_string_S. cbv zeta. cbn [app skip_spaces]. change (isspace "{"%char) with false. cbn [current_char].
    eval_tests. destruct (Hr fuel fs' (new_mapper (create_object fs')) rest (create_object fs') vs1 false false) as (m' & E & [E1 E2 E3] & _); try done.
    - cbn [length] in *. lia.
    - unfold create_object. by rewrite length_fmap.
    - cbn [app] in E. rewrite E. cbn [rbind expect_end]. unfold on_end_object. cbn [is_array_ set_key]. rewrite E2. by rewrite <- E1. }
  unfold serialize. rewrite (map_fields_at _ _ (key m) m fs (object_ m) (Class fs') (fun _ _ => VObject vs1) _ false (skip_spaces rest) false);
    [| done | done | by right | done |].
  - cbn [rbind]. do 2 eexists. split; [reflexivity |]. split; [apply skip_spaces_twice |]. split; [by constructor | done].
  - intros v. cbn [map_attribute]. rewrite bool_decide_false by (intros H; by apply H). by rewrite Hn.
Qed.

Lemma object_empty w : spaces w -> reads_object [] ("{"%char :: w ++ ["}"%char]).
Proof.
  intros Hw fuel fs m rest vs vs' arr check Hfuel Hc Hlen Hb Hm. destruct fuel as [|fuel]; [lengths |]. inversion Hm; subst.
  exists (on_begin_object fs m). split; [|split; [done | unfold on_begin_object; by destruct (is_array_ m)]].
  rewrite map_object_S. cbn [app]. rewrite <- app_assoc. cbn [app]. by erewrite open_empty.
Qed.

Lemma object_more mm s : members_text mm s -> reads_members mm s -> reads_object mm ("{"%char :: s ++ ["}"%char]).
Proof.
  intros Hs Hr fuel fs m rest vs vs' arr check Hfuel Hc Hlen Hb Hm. destruct fuel as [|fuel]; [lengths |].
  destruct (members_text_head mm s Hs) as (w & c & s' & E & Hw & Hcs & Hcb).
  destruct (Hr fuel fs (on_begin_object fs m) rest vs vs' arr) as (m' & Em & H1 & H2); try done.
  { lengths. }
  exists m'. split; [|split; [done | rewrite H2; unfold on_begin_object; by destruct (is_array_ m)]].
  rewrite map_object_S. rewrite E in Em |- *. rewrite <- !app_assoc in Em. cbn [app] in *. rewrite <- !app_assoc. cbn [app].
  erewrite open_more by done. cbn [rbind].
  assert (map_members fuel fs (on_begin_object fs m, w ++ c :: s' ++ "}"%char :: rest, false)
          = map_members fuel fs (on_begin_object fs m, c :: s' ++ "}"%char :: rest, false)) as <-.
  { destruct fuel as [|fuel]; [done |]. rewrite !map_members_S. unfold parse_json_string. rewrite skip_spaces_app by done. cbn [skip_spaces]. by rewrite Hcs. }
  rewrite Em. cbn [rbind]. by apply close_text.
Qed.

Lemma member_more w1 k ks w2 w3 j t w4 :
  spaces w1 -> string_text k ks -> spaces w2 -> spaces w3 -> reads_member_value j t -> gap j w4 ->
  reads_member k j (w1 ++ DQUOTE :: ks ++ DQUOTE :: w2 ++ ":"%char :: w3 ++ t ++ w4).
Proof.
  intros Hw1 Hks Hw2 Hw3 Hj Hw4 fuel fs m c rest vs vs' arr Hfuel Hc Hlen Hm Hk Hr Hend.
  rewrite <- !app_assoc. cbn [app]. rewrite <- !app_assoc. cbn [app]. rewrite <- !app_assoc. cbn [app]. rewrite <- !app_assoc.
  rewrite map_members_S. rewrite (parse_json_string_text w1 k ks) by done. cbn [rbind]. cbv zeta. rewrite skip_spaces_app by done.
  cbn [current_char]. eval_tests. cbn [next_char rbind].
  destruct (Hj fuel fs (set_key k m) w3 (w4 ++ c :: rest) vs arr vs') as (m' & cur & E & Hsame & Hin & Harr); try done.
  { lengths. }
  { by apply in_object_set_key. }
  { by apply gap_follows. }
  exists m', w4. rewrite E. cbn [rbind]. rewrite (comma_same _ _ Hsame). split; [done |]. split; [apply Hw4 | done].
Qed.

Lemma members_last k j s : reads_member k j s -> reads_members [(k, j)] s.
Proof.
  intros Hr fuel fs m rest vs vs' arr Hfuel Hc Hlen Hm Hms. inversion Hms as [|? ? ? ? ? ? vs1 ? Hk Hr1 Hr2]; subst. inversion Hr2; subst.
  destruct fuel as [|fuel]; [lia |].
  destruct (Hr fuel fs m "}"%char rest vs vs' arr) as (m' & w & E & Hw & Hin & Ha); try done; [lia |].
  exists m'. rewrite E, comma_no by done. done.
Qed.

Lemma members_cons k j s mm s' : reads_member k j s -> reads_members mm s' -> reads_members ((k, j) :: mm) (s ++ ","%char :: s').
Proof.
  intros Hr Hrs fuel fs m rest vs vs' arr Hfuel Hc Hlen Hm Hms. inversion Hms as [|? ? ? ? ? ? vs1 ? Hk Hr1 Hr2]; subst.
  destruct fuel as [|fuel]; [lengths |]. rewrite <- app_assoc. cbn [app].
  destruct (Hr fuel fs m ","%char (s' ++ "}"%char :: rest) vs vs1 arr) as (m1 & w & E & Hw & Hin & Ha); try done; [lengths |].
  rewrite E, comma_yes by done. cbn [rbind]. pose proof (member_read_length _ _ _ _ _ _ Hr1) as Hl.
  destruct (Hrs fuel fs m1 rest vs1 vs' arr) as (m' & E' & Hin' & Ha'); try done; [lengths | congruence |].
  exists m'. split; [done |]. split; [done | congruence].
Qed.

(** One element. *)
Lemma element_scalar fuel fs (m : mapper) w j t rest :
  in_array m -> scalar j -> value_text j t -> spaces w -> follows j rest ->
  map_value (S fuel) fs (m, w ++ t ++ rest, false) = Ok (set_value (collect (value_ m) j) m, rest, false).
Proof.
  intros [H1 H2] Hj Ht Hw Hf. rewrite (scalar_read fuel fs m w j t rest) by done. unfold on_scalar. rewrite H1, H2. cbn [andb negb].
  by destruct m, j.
Qed.

Lemma element_object fuel fs (m : mapper) w mm t rest vs :
  4 * length t <= fuel + 3 -> in_array m -> key m = [] -> class_names fs -> members_read fs true mm (create_object fs) vs ->
  (exists t', t = "{"%char :: t') -> reads_object mm t -> spaces w ->
  exists m', map_value (S fuel) fs (m, w ++ t ++ rest, false) = Ok (m', rest, false) /\ array_ m' = array_ m ++ [vs] /\ in_array m' /\ key m' = [].
Proof.
  intros Hfuel [H1 H2] Hk Hc Hm [t' ->] Hr Hw. rewrite map_value_brace, bool_decide_true by done.
  destruct (Hr fuel fs m rest (create_object fs) vs true false) as (m' & E & [E1 E2 E3] & Ha); try done.
  - lia.
  - unfold create_object. by rewrite length_fmap.
  - unfold on_begin_object. by rewrite H1.
  - exists (on_end_object m'). split; [done |]. unfold on_end_object, in_array. cbn [is_array_ set_key]. rewrite E2. cbn. by rewrite Ha, E1.
Qed.

(** What is known of the text of a value. *)
Definition reads_value (j : json) (t : str) : Prop :=
  reads_member_value j t /\ forall mm, j = Object mm -> (exists t', t = "{"%char :: t') /\ reads_object mm t.

Lemma elements_step fuel fs (m : mapper) w j t w' c rest :
  value_text j t -> reads_value j t -> spaces w -> gap j w' -> number_end c = true -> in_array m -> 4 * length t <= fuel ->
  (scalar j -> map_elements (S fuel) fs (m, (w ++ t ++ w') ++ c :: rest, false)
     = let? (cur, has_next) := comma (w' ++ c :: rest) in
       let m := set_value (collect (value_ m) j) m in
       if has_next then map_elements fuel fs (m, cur, false) else Ok (m, cur, false))
  /\ (forall mm vs, j = Object mm -> members_read fs true mm (create_object fs) vs -> class_names fs -> key m = [] ->
     exists m', map_elements (S fuel) fs (m, (w ++ t ++ w') ++ c :: rest, false)
       = (let? (cur, has_next) := comma (w' ++ c :: rest) in
         if has_next then map_elements fuel fs (m', cur, false) else Ok (m', cur, false))
       /\ array_ m' = array_ m ++ [vs] /\ in_array m' /\ key m' = []).
Proof.
  intros Ht [_ Hr] Hw Hg Hc Hm Hfuel. rewrite map_elements_S, <- !app_assoc.
  assert (follows j (w' ++ c :: rest)) as Hf by by apply gap_follows.
  destruct fuel as [|fuel]; [destruct (value_text_head j t Ht) as (x & t' & -> & _); lengths |]. split.
  - intros Hj. rewrite (element_scalar fuel fs m w j t) by done. done.
  - intros mm vs -> Hms Hcn Hk. destruct (Hr mm eq_refl) as [Hb Ho].
    destruct (element_object fuel fs m w mm t (w' ++ c :: rest) vs) as (m' & E & H1 & H2 & H3); try done; [lia |].
    exists m'. rewrite E. done.
Qed.

Lemma elements_last w j t w' : spaces w -> value_text j t -> reads_value j t -> gap j w' -> reads_elements [j] (w ++ t ++ w').
Proof.
  intros Hw Ht Hr Hg fuel fs m rest Hfuel Hm. destruct fuel as [|fuel]; [lia |].
  destruct (elements_step fuel fs m w j t w' "]"%char rest) as [H1 H2]; try done; [lengths |].
  rewrite comma_no in H1, H2 by (done || apply Hg). split.
  - intros Hs. apply Forall_cons_iff in Hs as [Hs _]. by rewrite H1.
  - intros ls He Hc Hk. inversion He as [|? mm ? vs ls' Hms He']; subst. inversion He'; subst.
    destruct (H2 mm vs eq_refl Hms Hc Hk) as (m' & -> & H). by exists m'.
Qed.

Lemma elements_cons w j t w' l s :
  spaces w -> value_text j t -> reads_value j t -> gap j w' -> reads_elements l s -> reads_elements (j :: l) ((w ++ t ++ w') ++ ","%char :: s).
Proof.
  intros Hw Ht Hr Hg Hl fuel fs m rest Hfuel Hm. destruct fuel as [|fuel]; [lia |]. rewrite <- (app_assoc _ (","%char :: s)). cbn [app].
  destruct (elements_step fuel fs m w j t w' ","%char (s ++ "]"%char :: rest)) as [H1 H2]; try done; [lengths |].
  rewrite comma_yes in H1, H2 by apply Hg. cbn [rbind] in H1, H2. split.
  - intros Hs. apply Forall_cons_iff in Hs as [Hs1 Hs2]. rewrite H1 by done. cbv zeta.
    destruct (Hl fuel fs (set_value (collect (value_ m) j) m) rest) as [H _]; [lengths | done |]. rewrite H by done. done.
  - intros ls He Hc Hk. inversion He as [|? mm ? vs ls' Hms He']; subst.
    destruct (H2 mm vs eq_refl Hms Hc Hk) as (m1 & -> & Ha1 & Hm1 & Hk1).
    destruct (Hl fuel fs m1 rest) as [_ H]; [lengths | done |]. destruct (H ls' He' Hc Hk1) as (m' & E & Ha & Hm' & Hk').
    exists m'. split; [done |]. rewrite Ha, Ha1, <- app_assoc. done.
Qed.

Lemma collect_all (l : list json) l0 : Forall scalar l -> exists l1, foldl collect (Array l0) l = Array (l0 ++ l1) /\ forall e, omap (as_value e) l1 = omap (as_value e) l.
Proof.
  intros Hs. revert l0. induction Hs as [|j l Hj _ IH]; intros l0; [exists []; by rewrite app_nil_r |]. cbn [foldl].
  assert (j = Null \/ collect (Array l0) j = Array (l0 ++ [j])) as [-> | ->] by (destruct j; cbn; tauto).
  - cbn [collect]. destruct (IH l0) as (l1 & E & H). exists l1. split; [done |]. intros e. rewrite H. by destruct e.
  - destruct (IH (l0 ++ [j])) as (l1 & E & H). exists (j :: l1). rewrite E, <- app_assoc. split; [done |].
    intros e. cbn [omap list_omap]. by rewrite H.
Qed.

Lemma assign_ext k f g fs vs : (forall t v, f t v = g t v) -> assign k f fs vs = assign k g fs vs.
Proof. intros H. revert vs. induction fs as [|[id t] fs IH]; intros [|v vs]; try done. cbn [assign]. by rewrite H, IH. Qed.

(** ** Arrays as members *)

Lemma on_end_array_member fuel fs (m : mapper) cur :
  class_names fs -> length (object_ m) = length fs -> key m <> [] ->
  exists m', on_end_array (nested_with fuel) (nested_array_with fuel) fs (m, cur, false) = Ok (m', cur, false)
    /\ object_ m' = assign (key m) (accept (value_ m)) fs (object_ m) /\ is_array_ m' = false /\ is_object_ m' = is_object_ m /\ array_ m' = array_ m.
Proof.
  intros Hc Hlen Hk. unfold on_end_array. cbn [key]. rewrite bool_decide_false by done. rewrite serialize_value by done. by eexists.
Qed.

Lemma accept_array (l l1 : list json) t v : (forall e, omap (as_value e) l1 = omap (as_value e) l) -> accept (Array l1) t v = accept (Array l) t v.
Proof. intros H. unfold accept. destruct t as [| | | | |e]; try done. destruct e, v; try done; cbn [iterate]; by rewrite H. Qed.

Lemma array_empty w : spaces w -> reads_member_value (Array []) ("["%char :: w ++ ["]"%char]).
Proof.
  intros Hw fuel fs m w0 rest vs arr vs' Hfuel Hc Hlen Hk [Hv Ha Ho] Hm Hw0 Hf. destruct fuel as [|[|fuel]]; [lengths.. |].
  inversion Hm as [ | ? ? ? ? Hs | | ? ? ? ? ? ? ? ? Hne]; subst; try done.
  rewrite map_value_bracket by done. rewrite map_array_S. cbv zeta. cbn [app next_char rbind]. rewrite <- app_assoc. cbn [app].
  rewrite skip_spaces_app by done. cbn [current_char]. rewrite bool_decide_true by done. cbn [next_char rbind].
  destruct (on_end_array_member fuel fs (on_begin_array ("["%char :: w ++ "]"%char :: rest) m) rest) as (m' & E & H1 & H2 & H3 & H4); try done.
  exists m', rest. rewrite E. split_and!; try done. constructor; [exact H1 | congruence | rewrite H3; cbn; congruence].
Qed.

(** An array that is not empty. *)
Lemma map_array_more fuel fs check (m m' m2 : mapper) (l : list json) s rest :
  elements_text l s -> let mb := on_begin_array ("["%char :: s ++ "]"%char :: rest) m in
  map_elements fuel fs (mb, s ++ "]"%char :: rest, false) = Ok (m', "]"%char :: rest, false) ->
  on_end_array (nested_with fuel) (nested_array_with fuel) fs (m', "]"%char :: rest, false) = Ok (m2, "]"%char :: rest, false) ->
  map_array (S fuel) fs check (m, ("["%char :: s ++ ["]"%char]) ++ rest, false) = Ok (m2, rest, false).
Proof.
  intros Hs mb H E'. destruct (elements_text_head l s Hs) as (w & c & s' & E & Hw & Hcs & Hcb).
  rewrite map_array_S. cbv zeta. cbn [app next_char rbind]. rewrite <- app_assoc. cbn [app]. fold mb.
  rewrite E in H |- *. rewrite <- !app_assoc in H |- *. cbn [app] in H |- *. rewrite skip_spaces_app by done. cbn [current_char].
  rewrite bool_decide_false by done.
  assert (map_elements fuel fs (mb, w ++ c :: s' ++ "]"%char :: rest, false) = map_elements fuel fs (mb, c :: s' ++ "]"%char :: rest, false)) as <-.
  { destruct fuel as [|[|fuel']]; [done | done |]. rewrite !map_elements_S, !map_value_S. cbv zeta. rewrite skip_spaces_app by done.
    cbn [skip_spaces]. by rewrite Hcs. }
  rewrite H. cbn [rbind skip_spaces]. change (isspace "]"%char) with false. cbn [current_char]. rewrite bool_decide_true by done. cbn [negb].
  by rewrite E'.
Qed.

(** The elements are values: they are collected, and assigned at the end. *)
Lemma array_scalars (l : list json) s fuel fs (m : mapper) rest vs :
  elements_text l s -> reads_elements l s -> Forall scalar l ->
  4 * length s + 2 <= fuel -> class_names fs -> length vs = length fs -> key m <> [] -> in_object m vs false ->
  exists m', map_array fuel fs true (m, ("["%char :: s ++ ["]"%char]) ++ rest, false) = Ok (m', rest, false)
    /\ in_object m' (assign (key m) (accept (Array l)) fs vs) false /\ array_ m' = array_ m.
Proof.
  intros Hs Hr Hl Hfuel Hc Hlen Hk [Hv Ha Ho]. destruct fuel as [|fuel]; [lia |].
  set (mb := on_begin_array ("["%char :: s ++ "]"%char :: rest) m).
  destruct (Hr fuel fs mb rest) as [H _]; [lia | by split |]. specialize (H Hl).
  destruct (collect_all l [] Hl) as (l1 & El & Homap). cbn [app] in El. change (value_ mb) with (Array (real := real) []) in H. rewrite El in H.
  destruct (on_end_array_member fuel fs (set_value (Array l1) mb) ("]"%char :: rest)) as (m' & E' & H1 & H2 & H3 & H4); [done | by rewrite <- Hv in Hlen | done |].
  exists m'. split; [by eapply map_array_more |]. split; [|done]. constructor; [|exact H2 | rewrite H3; exact Ho].
  rewrite H1. cbn [object_ set_value mb on_begin_array key value_]. rewrite Hv. apply assign_ext. intros t v. by apply accept_array.
Qed.

(** The elements are objects: a mapper of their class reads the array. *)
Lemma array_of_objects (l : list json) s ls fuel fs (m : mapper) check rest :
  elements_text l s -> reads_elements l s -> elements_read fs l ls -> class_names fs -> key m = [] -> is_object_ m = false ->
  4 * length s + 2 <= fuel ->
  exists m', map_array fuel fs check (m, ("["%char :: s ++ ["]"%char]) ++ rest, false) = Ok (m', rest, false)
    /\ array_ m' = array_ m ++ ls /\ json_array_cursor m' = "]"%char :: rest.
Proof.
  intros Hs Hr Hl Hc Hk Ho Hfuel. destruct fuel as [|fuel]; [lia |]. set (mb := on_begin_array ("["%char :: s ++ "]"%char :: rest) m).
  destruct (Hr fuel fs mb rest) as [_ H]; [lia | by split |]. destruct (H ls Hl Hc Hk) as (m' & E & Ha & Hm & Hk').
  eexists. split; [eapply map_array_more; [done | exact E |]; unfold on_end_array; cbn [key]; by rewrite bool_decide_true |]. done.
Qed.

Lemma assign_id k f t fs vs : NoDup fs.*1 -> (k, t) ∈ fs -> (forall v, f t v = v) -> assign k f fs vs = vs.
Proof.
  intros Hnd Hin Hf. revert vs. induction fs as [|[id t'] fs IH]; intros [|v vs]; try done. cbn in Hnd. apply list.NoDup_cons in Hnd as [Hid Hnd].
  cbn [assign]. apply elem_of_cons in Hin as [[= <- <-] | Hin]; [rewrite bool_decide_true by done; by rewrite Hf |].
  rewrite bool_decide_false; [by rewrite IH |]. intros ->. apply Hid. by apply (list_elem_of_fmap_2 fst) in Hin.
Qed.

Lemma array_objects (l : list json) s ls fuel fs fs' (m : mapper) rest vs :
  elements_text l s -> reads_elements l s -> (key m, Sequence (Class fs')) ∈ fs -> class_names fs' -> elements_read fs' l ls -> l <> [] ->
  4 * length s + 7 <= fuel -> class_names fs -> length vs = length fs -> key m <> [] -> in_object m vs false ->
  exists m', map_array fuel fs true (m, ("["%char :: s ++ ["]"%char]) ++ rest, false) = Ok (m', rest, false)
    /\ in_object m' (assign (key m) (fun _ _ => VList (VObject <$> ls)) fs vs) false /\ array_ m' = array_ m.
Proof.
  intros Hs Hr Hin Hc' Hl Hne Hfuel Hc Hlen Hk [Hv Ha Ho]. destruct fuel as [|[|[|[|fuel]]]]; [lia.. |].
  set (mb := on_begin_array ("["%char :: s ++ "]"%char :: rest) m). set (vs1 := assign (key m) (fun _ _ => VList (VObject <$> ls)) fs vs).
  assert (nested_array_with (S fuel) fs' ("["%char :: s ++ "]"%char :: rest) false = Ok (ls, "]"%char :: rest, false)) as Hn.
  { unfold nested_array_with. rewrite array_from_string_S. cbv zeta. cbn [skip_spaces]. change (isspace "["%char) with false. cbn [current_char]. eval_tests.
    destruct (array_of_objects l s ls fuel fs' (new_mapper (create_object fs')) false rest) as (m' & E & E1 & E2); try done; [lia |].
    cbn [app] in E. rewrite <- app_assoc in E. cbn [app] in E. rewrite E. unfold expect_end. cbn [rbind andb]. by rewrite E1, E2. }
  assert (map_elements (S (S (S fuel))) fs (mb, s ++ "]"%char :: rest, false) = Ok (set_object vs1 mb, "]"%char :: rest, false)) as He.
  { destruct l as [|j l']; [done |]. assert (exists mm, j = Object mm) as [mm ->] by (inversion Hl; eauto).
    assert (exists w t, s = w ++ "{"%char :: t /\ spaces w) as (w & t & -> & Hw).
    { inversion Hs as [w j t w' Hw Ht _ | w j t w' ? s' Hw Ht _ _]; subst; exists w; inversion Ht; subst; eexists; rewrite <- ?app_assoc; done. }
    rewrite map_elements_S, <- app_assoc. cbn [app]. change ("{"%char :: t ++ "]"%char :: rest) with (("{"%char :: t) ++ "]"%char :: rest).
    rewrite map_value_brace, bool_decide_false by done. unfold serialize.
    rewrite (map_fields_at _ _ (key mb) mb fs (object_ mb) (Sequence (Class fs')) (fun _ _ => VList (VObject <$> ls)) _ false ("]"%char :: rest) false);
      [| done | done | by right | cbn; by rewrite Hv |].
    - cbn [rbind]. change (object_ mb) with (object_ m). change (key mb) with (key m). rewrite Hv. fold vs1. reflexivity.
    - intros v. cbn [map_attribute]. rewrite bool_decide_false by (intros H; by apply H). cbn [json_array_cursor mb on_begin_array]. by rewrite Hn. }
  destruct (on_end_array_member (S (S (S fuel))) fs (set_object vs1 mb) ("]"%char :: rest)) as (m' & E' & H1 & H2 & H3 & H4);
    [done | cbn; unfold vs1; by rewrite length_assign | done |].
  exists m'. split; [by eapply map_array_more |]. split; [|done]. constructor; [|exact H2 | rewrite H3; exact Ho].
  rewrite H1. cbn [object_ set_object key mb on_begin_array value_]. destruct Hc as [Hnd _]. by eapply assign_id.
Qed.

Lemma array_member l s : elements_text l s -> reads_elements l s -> reads_member_value (Array l) ("["%char :: s ++ ["]"%char]).
Proof.
  intros Hs Hr fuel fs m w rest vs arr vs' Hfuel Hc Hlen Hk Hin Hm Hw Hf. destruct fuel as [|fuel]; [lengths |].
  rewrite map_value_bracket by done.
  inversion Hm as [ | ? ? ? ? Hsc | | ? ? fs' ? ls ? Hf' Hc' Hne Hl]; subst; [done | |].
  - destruct (array_scalars l s fuel fs m rest vs) as (m' & E & H1 & H2); try done; [lengths |]. by exists m', rest.
  - destruct (array_objects l s ls fuel fs fs' m rest vs) as (m' & E & H1 & H2); try done; [lengths |]. by exists m', rest.
Qed.

Lemma mapper_reads j t : value_text j t -> reads_value j t.
Proof.
  revert j t. apply (value_text_mut (fun j t _ => reads_value j t) (fun m s _ => reads_members m s)
    (fun k j s _ => reads_member k j s) (fun l s _ => reads_elements l s)).
  1-5: intros; (split; [apply scalar_member; [done | by constructor] | done]).
  - intros w Hw. assert (reads_object [] ("{"%char :: w ++ ["}"%char])) by by apply object_empty.
    split; [apply object_member; eauto | intros mm [= <-]; eauto].
  - intros m s Hs Hr. assert (reads_object m ("{"%char :: s ++ ["}"%char])) by by apply object_more.
    split; [apply object_member; eauto | intros mm [= <-]; eauto].
  - intros w Hw. split; [by apply array_empty | done].
  - intros l s Hs Hr. split; [by apply array_member | done].
  - intros k j s _ Hr. by apply members_last.
  - intros k j s m s' _ Hr _ Hrs. by apply members_cons.
  - intros w1 k ks w2 w3 j t w4 ? ? ? ? ? [Hr _] ?. by apply member_more.
  - intros. by apply elements_last.
  - intros. by apply elements_cons.
Qed.

Lemma object_from_text fs (mm : list (str * json)) t w w' vs :
  value_text (Object mm) t -> spaces w -> spaces w' -> class_names fs -> members_read fs false mm (create_object fs) vs ->
  exists m', object_from_string (mapper_fuel (w ++ t ++ w')) fs (w ++ t ++ w') true false = Ok (m', [], false) /\ object_ m' = vs.
Proof.
  intros Ht Hw Hw' Hc Hm. destruct (mapper_reads _ _ Ht) as [_ H]. destruct (H mm eq_refl) as [[t' ->] Hr].
  unfold mapper_fuel. rewrite Nat.add_comm. cbn [Nat.add]. rewrite object_from_string_S. cbv zeta.
  rewrite skip_spaces_app by done. cbn [app current_char]. eval_tests.
  destruct (Hr (S (S (S (4 * length (w ++ ("{"%char :: t') ++ w'))))) fs (new_mapper (create_object fs)) w' (create_object fs) vs false true)
    as (m' & E & [E1 E2 E3] & _); try done.
  - lengths.
  - unfold create_object. by rewrite length_fmap.
  - exists (on_end_object m'). cbn [app] in E. rewrite E. unfold expect_end. cbn [rbind]. rewrite <- (app_nil_r w'), skip_spaces_app by done.
    split; [done |]. unfold on_end_object. cbn [is_array_ set_key]. by rewrite E2.
Qed.

Lemma text_no_nul (j : json) t w w' : value_text j t -> spaces w -> spaces w' -> c_str (w ++ t ++ w') = w ++ t ++ w'.
Proof. intros. apply c_str_no_nul. rewrite !Forall_app. split_and!; [by apply spaces_no_nul | by eapply value_text_no_nul | by apply spaces_no_nul]. Qed.

(** C16: [json_mapper::to_object] reads a text of a json object without
    floating-point numbers, with any white space between its tokens (behind a
    number a blank or a line feed first), as the object of the class that the
    members mean one after another: values that fit their attribute replace
    it, elements that fit are added to a list, members that name an object are
    read by the class of the attribute, and values and lists that fit nothing
    are ignored. The members are those of [members_read]: an object under a
    name that is no object of the class is left out ([unknown_member]), and so
    are lists in the objects of a list ([list_in_array_lost]). Attributes have
    different names, which like those of the members are not empty, and
    [errno] is not [ERANGE]. *)
Theorem object_mapped fs (mm : list (str * json)) t w w' vs :
  value_text (Object mm) t -> spaces w -> spaces w' -> class_names fs -> members_read fs false mm (create_object fs) vs ->
  to_object strtod real_limit fs (w ++ t ++ w') false = Ok vs.
Proof.
  intros Ht Hw Hw' Hc Hm. unfold to_object. rewrite (text_no_nul (Object mm)) by done.
  destruct (object_from_text fs mm t w w' vs) as (m' & -> & <-); done.
Qed.
End Read.

(** ** Objects that can be printed *)

Lemma type_ind' (P : type -> Prop) :
  (forall s w, P (Integral s w)) -> P Bool -> P Text -> P TextKey -> (forall fs, Forall (fun f => P f.2) fs -> P (Class fs)) ->
  (forall e, P e -> P (Sequence e)) -> forall t, P t.
Proof.
  intros H1 H2 H3 H3' H4 H5. fix IH 1. intros [s w | | | | fs | e]; [apply H1 | exact H2 | exact H3 | exact H3' | | apply H5, IH].
  apply H4. induction fs as [|f fs IHfs]; constructor; [apply IH | exact IHfs].
Qed.

Definition scalar_type (t : type) : Prop := match t with Class _ | Sequence _ => False | _ => True end.

(** What can be an element of a list: a value, or an object with values. *)
Definition flat (t : type) : Prop :=
  match t with Class fs => Forall (fun f => scalar_type f.2) fs | Sequence _ => False | _ => True end.

Section Entries.
Context {A : Type} (f : str -> type -> value -> A).
(** The attributes that are printed. *)
Fixpoint entries (fs : fields) (vs : list value) : list A :=
  match fs, vs with
  | (id, t) :: fs, v :: vs =>
    match t, v with
    | Text, VText [] => entries fs vs
    | _, _ => f id t v :: entries fs vs
    end
  | _, _ => []
  end.
End Entries.

Section Printable.
Context (P : type -> value -> Prop).
Fixpoint fields_ok (fs : fields) (vs : list value) : Prop :=
  match fs, vs with
  | [], [] => True
  | (id, t) :: fs, v :: vs => P t v /\ fields_ok fs vs
  | _, _ => False
  end.
End Printable.

(** Numbers are in the range of their type and of [long long], texts have no
    quotes and backslashes, and each object has something to print. *)
Fixpoint printable (t : type) (v : value) : Prop :=
  match t, v with
  | Integral signed w, VInt z => cast signed w z = z /\ (LLONG_MIN <= z <= LLONG_MAX)%Z
  | Bool, VBool _ => True
  | Text, VText s | TextKey, VText s => printable_str s
  | Class fs, VObject vs =>
    class_names fs /\ Forall printable_str fs.*1 /\ fields_ok printable fs vs /\ entries (fun _ _ _ => tt) fs vs <> []
  | Sequence e, VList l => flat e /\ Forall (printable e) l
  | _, _ => False
  end.

Section Values.
Context {real : Type}.

Fixpoint json_of (t : type) (v : value) : json real :=
  match t, v with
  | Integral _ _, VInt z => Integer z
  | Bool, VBool b => Boolean b
  | Text, VText s | TextKey, VText s => String s
  | Class fs, VObject vs => Object (entries (fun id t v => (id, json_of t v)) fs vs)
  | Sequence e, VList l => Array (json_of e <$> l)
  | _, _ => Null
  end.

Lemma as_json_of t v : scalar_type t -> printable t v -> scalar (json_of t v) /\ as_value t (json_of t v) = Some v.
Proof. intros Ht Hv. destruct t, v; try done. cbn in *. destruct Hv as [-> _]. done. Qed.

(** ** What is printed means the object *)

Lemma assign_middle k f fs1 t fs2 vs1 c cs :
  length vs1 = length fs1 -> k ∉ fs1.*1 -> assign k f (fs1 ++ (k, t) :: fs2) (vs1 ++ c :: cs) = vs1 ++ f t c :: cs.
Proof.
  revert vs1. induction fs1 as [|[id t'] fs1 IH]; intros [|v vs1] Hlen Hk; try done; cbn [app assign].
  - by rewrite bool_decide_true.
  - cbn in Hk. apply not_elem_of_cons in Hk as [Hk Hk']. rewrite bool_decide_false by congruence. rewrite IH; [done | by injection Hlen | done].
Qed.

(** The values of an object, as its members are read. *)
Definition means (arr : bool) (fs : fields) (vs : list value) : Prop :=
  members_read fs arr (entries (fun id t v => (id, json_of t v)) fs vs) (create_object fs) vs.

Definition type_means (t : type) : Prop := forall v, printable t v ->
  match t, v with
  | Class fs, VObject vs => means false fs vs /\ (flat t -> means true fs vs)
  | _, _ => True
  end.

Lemma omap_json_of e l : scalar_type e -> Forall (printable e) l -> Forall scalar (json_of e <$> l) /\ omap (as_value e) (json_of e <$> l) = l.
Proof.
  intros He Hl. induction Hl as [|v l Hv _ [IH1 IH2]]; [done |]. destruct (as_json_of e v He Hv) as [H1 H2]. cbn [fmap list_fmap omap list_omap].
  split; [by constructor |]. rewrite H2. by f_equal.
Qed.

Lemma elements_read_objects fs l :
  type_means (Class fs) -> flat (Class fs) -> Forall (printable (Class fs)) l ->
  exists ls, l = VObject <$> ls /\ elements_read fs (json_of (Class fs) <$> l) ls.
Proof.
  intros Ht Hf Hl. induction Hl as [|v l Hv _ (ls & -> & IH)]; [exists []; split; [done | constructor] |].
  destruct v as [| | |vs|]; try done. exists (vs :: ls). split; [done |]. cbn [fmap list_fmap json_of]. constructor; [|done].
  by apply (Ht (VObject vs) Hv).
Qed.

(** One attribute, which was as new. *)
Lemma member_means arr fs k t v vs0 :
  k <> [] -> (k, t) ∈ fs -> type_means t -> (forall e, t = Sequence e -> type_means e) -> printable t v -> (arr = true -> scalar_type t) ->
  exists f, member_read fs arr k (json_of t v) vs0 (assign k f fs vs0) /\ f t (create t) = v.
Proof.
  intros Hk Hin Ht Hte Hv Harr.
  assert (scalar_type t \/ (exists fs', t = Class fs') \/ exists e, t = Sequence e) as [Hs | [[fs' ->] | [e ->]]] by (destruct t; cbn; eauto).
  - destruct (as_json_of t v Hs Hv) as [H1 H2]. exists (accept (json_of t v)). split; [by constructor |].
    unfold accept. destruct t; try done; by rewrite H2.
  - destruct v as [| | |vs|]; try done. exists (fun _ _ => VObject vs). split; [|done]. cbn [json_of]. eapply mr_object; [done | apply Hv |].
    by apply (Ht (VObject vs) Hv).
  - destruct v as [| | | |l]; try done. destruct arr; [exfalso; by apply Harr |]. destruct Hv as [Hf Hl].
    assert (scalar_type e \/ exists fs', e = Class fs') as [Hs | [fs' ->]] by (destruct e; cbn in *; eauto; done).
    { destruct (omap_json_of e l Hs Hl) as [H1 H2]. exists (accept (Array (json_of e <$> l))). split; [by constructor |].
      destruct e; try done; cbn [accept create iterate]; by rewrite H2. }
    destruct l as [|v l].
    + exists (accept (real := real) (Array [])). split; [by constructor | done].
    + destruct (elements_read_objects fs' (v :: l)) as (ls & E & He); [by apply Hte | done | done |].
      exists (fun _ _ => VList (VObject <$> ls)). split; [|by rewrite E]. cbn [json_of].
      eapply mr_objects; [done | | done | done]. apply Forall_cons_iff in Hl as [Hv _]. destruct v; try done. apply Hv.
Qed.

Lemma members_mean arr fs fs1 fs2 : forall vs1 vs2,
  class_names fs -> fs = fs1 ++ fs2 -> length vs1 = length fs1 -> fields_ok printable fs2 vs2 ->
  Forall (fun f => type_means f.2 /\ (forall e, f.2 = Sequence e -> type_means e) /\ (arr = true -> scalar_type f.2)) fs2 ->
  members_read fs arr (entries (fun id t v => (id, json_of t v)) fs2 vs2) (vs1 ++ create_object fs2) (vs1 ++ vs2).
Proof.
  revert fs1. induction fs2 as [|[id t] fs2 IH]; intros fs1 vs1 vs2 Hc -> Hlen Hok Hall; destruct vs2 as [|v vs2]; try done; [constructor |].
  destruct Hok as [Hv Hok]. apply Forall_cons_iff in Hall as [(Ht & Hte & Harr) Hall]. cbn [fst snd] in *.
  pose proof Hc as [Hnd Hne]. rewrite fmap_app in Hnd, Hne. cbn in Hnd, Hne.
  assert (id ∉ fs1.*1) as Hid by (apply list.NoDup_app in Hnd as (_ & Hd & _); intros Hin; apply (Hd id Hin), list_elem_of_here).
  assert (id <> []) as Hidn by (intros ->; apply Hne, elem_of_app; right; apply list_elem_of_here).
  assert (members_read (fs1 ++ (id, t) :: fs2) arr (entries (fun id t v => (id, json_of t v)) fs2 vs2) (vs1 ++ v :: create_object fs2) (vs1 ++ v :: vs2)) as Hrest.
  { change (v :: create_object fs2) with ([v] ++ create_object fs2). change (v :: vs2) with ([v] ++ vs2). rewrite !app_assoc.
    apply (IH (fs1 ++ [(id, t)])); [done | by rewrite <- app_assoc | rewrite !length_app; cbn; lia | done | done]. }
  destruct (member_means arr (fs1 ++ (id, t) :: fs2) id t v (vs1 ++ create t :: create_object fs2)) as (f & Hm & Hf); try done.
  { apply elem_of_app. right. apply list_elem_of_here. }
  rewrite assign_middle, Hf in Hm by done.
  assert (t = Text /\ v = VText [] \/ entries (fun id t v => (id, json_of t v)) ((id, t) :: fs2) (v :: vs2)
    = (id, json_of t v) :: entries (fun id t v => (id, json_of t v)) fs2 vs2) as [[-> ->] | ->].
  { cbn [entries]. destruct t, v as [| |[|]| |]; tauto. }
  - exact Hrest.
  - cbn [create_object fmap list_fmap snd]. by econstructor.
Qed.

Lemma all_mean t : type_means t.
Proof.
  enough (type_means t /\ forall e, t = Sequence e -> type_means e) by tauto.
  induction t as [s w| | | |fs IH|e [IH _]] using type_ind'; (split; [|try done; by intros ? [= <-]]); intros v Hv; try done.
  destruct v as [| | |vs|]; try done. destruct Hv as (Hc & _ & Hok & _).
  split; [apply (members_mean false fs [] fs [] vs) | intros Hf; apply (members_mean true fs [] fs [] vs)]; try done.
  - eapply list.Forall_impl; [exact IH |]. intros f [H1 H2]. done.
  - cbn [flat] in Hf. rewrite list.Forall_forall in IH, Hf |- *. intros f Hin. destruct (IH f Hin) as [H1 H2]. split; [done |]. split; [done | intros _; by apply Hf].
Qed.

End Values.

(** ** What is printed *)

Lemma entries_fmap {A C} (g : A -> C) (f : str -> type -> value -> A) fs vs : entries (fun id t v => g (f id t v)) fs vs = g <$> entries f fs vs.
Proof.
  revert vs. induction fs as [|[id t] fs IH]; intros [|v vs]; try done. cbn [entries].
  destruct t, v as [| |[|]| |]; cbn [fmap list_fmap]; by rewrite IH.
Qed.

Lemma entries_Forall {A} (G : A -> Prop) (P : type -> value -> Prop) f fs vs :
  (forall id t v, (id, t) ∈ fs -> P t v -> G (f id t v)) -> fields_ok P fs vs -> Forall G (entries f fs vs).
Proof.
  revert vs. induction fs as [|[id t] fs IH]; intros [|v vs] HG Hok; try done; [constructor.. |]. destruct Hok as [Hv Hok].
  assert (Forall G (entries f fs vs)) by (apply IH; [intros; apply HG; [by apply list_elem_of_further | done] | done]).
  assert (G (f id t v)) by (apply HG; [apply list_elem_of_here | done]). cbn [entries]. by destruct t, v as [| |[|]| |]; try constructor.
Qed.

Section Text.
Context (fmt : json_format).

Definition nl : str := if show_line_break fmt then [LF] else [].
Definition ind (d : nat) : str := replicate (d * indentation fmt) " "%char.
Definition attr (d : nat) (id s : str) : str := ind d ++ DQUOTE :: id ++ [DQUOTE] ++ lit ": " ++ s.

(** The attributes of an object that is printed at depth [d]. *)
Fixpoint body (d : nat) (es : list str) : str :=
  match es with
  | [] => []
  | [e] => nl ++ e ++ nl ++ ind d
  | e :: es => nl ++ e ++ ","%char :: body d es
  end.

Fixpoint text (d : nat) (t : type) (v : value) : str :=
  match t, v with
  | Integral _ _, VInt z => to_string_z z
  | Bool, VBool b => if b then lit "true" else lit "false"
  | Text, VText s | TextKey, VText s => DQUOTE :: s ++ [DQUOTE]
  | Class fs, VObject vs => "{"%char :: body d (entries (fun id t v => attr (S d) id (text (S d) t v)) fs vs) ++ ["}"%char]
  | Sequence e, VList l => "["%char :: Json.join (lit ",") (text d e <$> l) ++ ["]"%char]
  | _, _ => []
  end.

Lemma put_put a b st : put a (put b st) = put (b ++ a) st.
Proof. unfold put. cbn. by rewrite app_assoc. Qed.

Lemma newline_put st : newline fmt st = put nl st.
Proof. unfold newline, nl. destruct (show_line_break fmt); [done |]. unfold put. rewrite app_nil_r. by destruct st. Qed.

Lemma write_id_put id st : write_id fmt id st = put (attr (depth_ st) id []) st.
Proof. unfold write_id, indent. rewrite put_put. unfold attr. by rewrite app_nil_r. Qed.

Lemma last_comma_none y : ","%char ∉ y -> last_comma y = None.
Proof. induction y as [|c y IH]; intros H; [done |]. apply not_elem_of_cons in H as [H1 H2]. cbn. rewrite IH by done. by rewrite bool_decide_false. Qed.

Lemma last_comma_app x y : ","%char ∉ y -> last_comma (x ++ ","%char :: y) = Some (x, y).
Proof.
  intros H. induction x as [|c x IH]; cbn; [by rewrite last_comma_none | by rewrite IH].
Qed.

Lemma no_comma_nl : ","%char ∉ nl.
Proof. unfold nl. destruct (show_line_break fmt); [|apply not_elem_of_nil]. intros H%list_elem_of_singleton. done. Qed.

Lemma body_comma d es : es <> [] ->
  exists x, nl ++ concat ((fun e => e ++ ","%char :: nl) <$> es) = x ++ ","%char :: nl /\ body d es = x ++ nl ++ ind d.
Proof.
  induction es as [|e es IH]; [done |]. intros _. destruct es as [|e' es].
  - exists (nl ++ e). cbn. rewrite app_nil_r, <- !app_assoc. done.
  - destruct IH as (x & E1 & E2); [done |]. exists (nl ++ e ++ ","%char :: x). cbn [fmap list_fmap concat] in *.
    rewrite <- (app_assoc e). cbn [app]. rewrite E1. cbn [body] in *. rewrite E2. split; rewrite <- !app_assoc; cbn [app]; by rewrite <- ?app_assoc.
Qed.

(** ** The serializer prints the text *)

(** The comma an object writes behind itself. *)
Definition tail (t : type) (st : json_serializer) : str :=
  match t with Class _ => if (0 <? depth_ st) && negb (is_array st) then lit "," else [] | _ => [] end.

Definition appends (t : type) : Prop := forall v st, printable t v -> (is_array st = true -> flat t) ->
  match t with Sequence _ => True | _ => append fmt t v st = Ok (put (text (depth_ st) t v ++ tail t st) st) end.

Lemma join_text e l st :
  appends e -> flat e -> is_array st = true -> Forall (printable e) l ->
  join_with (append fmt) e l st = Ok (put (Json.join (lit ",") (text (depth_ st) e <$> l)) st).
Proof.
  intros He Hf Ha Hl. revert st Ha. induction Hl as [|v l Hv Hl IH]; intros st Ha.
  - cbn. f_equal. unfold put. rewrite app_nil_r. by destruct st.
  - assert (append fmt e v st = Ok (put (text (depth_ st) e v) st)) as E.
    { specialize (He v st Hv (fun _ => Hf)). destruct e; try done; rewrite He; unfold tail; rewrite ?Ha, ?andb_false_r, app_nil_r; done. }
    cbn [join_with]. destruct l as [|v' l]; [rewrite E; cbn; by rewrite ?app_nil_r |]. rewrite E. cbn [rbind]. rewrite IH by done. rewrite !put_put.
    cbn [fmap list_fmap]. by rewrite join_cons, ?app_assoc.
Qed.

Lemma append_scalar t v st : scalar_type t -> printable t v -> append fmt t v st = Ok (put (text (depth_ st) t v) st).
Proof. by destruct t, v. Qed.

Lemma attribute_text id t v st :
  appends t -> (forall e, t = Sequence e -> appends e) -> printable t v -> 0 < depth_ st -> (is_array st = true -> scalar_type t) ->
  ~ (t = Text /\ v = VText []) ->
  attribute_with fmt (append fmt) id t v st = Ok (put (attr (depth_ st) id (text (depth_ st) t v) ++ ","%char :: nl) st).
Proof.
  intros Ht Hte Hv Hd Ha Hne.
  assert (forall s, attr (depth_ st) id [] ++ s = attr (depth_ st) id s) as Hattr
    by (intros s; unfold attr; rewrite <- !app_assoc; cbn [app]; rewrite <- !app_assoc; done).
  assert (scalar_type t \/ (exists fs, t = Class fs) \/ exists e, t = Sequence e) as [Hs | [[fs ->] | [e ->]]] by (destruct t; cbn; eauto).
  - assert (attribute_with fmt (append fmt) id t v st = let? st := append fmt t v (write_id fmt id st) in Ok (newline fmt (put (lit ",") st))) as ->.
    { destruct t, v as [| |[|]| |]; try done. exfalso. by apply Hne. }
    rewrite write_id_put, append_scalar by done. cbn [rbind]. rewrite newline_put, !put_put. cbn [depth_ put]. rewrite <- (Hattr (text _ _ _)), <- !app_assoc. done.
  - cbn [attribute_with]. rewrite write_id_put.
    pose proof (Ht v (put (attr (depth_ st) id []) st) Hv) as E. cbn [depth_ is_array put] in E. rewrite E by (intros H; by specialize (Ha H)).
    cbn [rbind]. assert (is_array st = false) as Ha' by (destruct (is_array st); [by specialize (Ha eq_refl) | done]).
    unfold tail. cbn [depth_ is_array put]. rewrite Ha', (proj2 (Nat.ltb_lt _ _) Hd). cbn [andb negb].
    rewrite newline_put, !put_put. rewrite <- (Hattr (text _ _ _)), <- !app_assoc. done.
  - destruct v as [| | | |l]; try done. destruct Hv as [Hf Hl]. cbn [attribute_with]. rewrite write_id_put.
    assert (is_array st = false) as Ha' by (destruct (is_array st); [by specialize (Ha eq_refl) | done]).
    rewrite (join_text e l) by (done || by apply Hte). cbn [rbind]. f_equal. rewrite newline_put. unfold end_array, begin_array, put.
    cbn [depth_ json_ is_array]. rewrite (proj2 (Nat.ltb_lt _ _) Hd). cbn [depth_ json_ is_array]. rewrite Ha'. f_equal.
    rewrite <- (Hattr (text _ _ _)). cbn [text]. change (lit "[") with ["["%char]. change (lit "]") with ["]"%char]. change (lit ",") with [","%char] at 2.
    rewrite <- !app_assoc. cbn [app]. rewrite <- !app_assoc. done.
Qed.

Lemma process_text fs : forall vs st,
  Forall (fun f => appends f.2 /\ (forall e, f.2 = Sequence e -> appends e) /\ (is_array st = true -> scalar_type f.2)) fs ->
  fields_ok printable fs vs -> 0 < depth_ st ->
  process_with fmt (append fmt) fs vs st
  = Ok (put (concat ((fun e => e ++ ","%char :: nl) <$> entries (fun id t v => attr (depth_ st) id (text (depth_ st) t v)) fs vs)) st).
Proof.
  induction fs as [|[id t] fs IH]; intros [|v vs] st Hall Hok Hd; try done.
  - cbn. f_equal. unfold put. rewrite app_nil_r. by destruct st.
  - apply Forall_cons_iff in Hall as [(Ht & Hte & Ha) Hall]. destruct Hok as [Hv Hok]. cbn [fst snd] in *. cbn [process_with].
    assert (t = Text /\ v = VText [] \/ ~ (t = Text /\ v = VText [])) as [[-> ->] | Hne] by (destruct t, v as [| |[|]| |]; naive_solver).
    + cbn [attribute_with rbind entries]. by apply IH.
    + rewrite attribute_text by done. cbn [rbind]. rewrite (IH vs (put _ st)) by done. rewrite put_put. cbn [depth_ put]. do 2 f_equal.
      assert (forall A (f : str -> type -> value -> A), entries f ((id, t) :: fs) (v :: vs) = f id t v :: entries f fs vs) as ->; [|done].
      intros A f. cbn [entries]. destruct t, v as [| |[|]| |]; try done. exfalso. by apply Hne.
Qed.

Lemma entries_some {A} (f : str -> type -> value -> A) fs vs : entries (fun _ _ _ => tt) fs vs <> [] -> entries f fs vs <> [].
Proof. pose proof (entries_fmap (fun _ : A => tt) f fs vs) as E. rewrite E. by destruct (entries f fs vs). Qed.

Lemma all_append t : appends t /\ forall e, t = Sequence e -> appends e.
Proof.
  induction t as [sg w| | | |fs IH|e [IH _]] using type_ind'; (split; [|try done; by intros ? [= <-]]); intros v st Hv Ha; try done.
  1-4: rewrite append_scalar by done; cbn [tail]; by rewrite app_nil_r.
  destruct v as [| | |vs|]; try done. destruct Hv as (Hc & _ & Hok & Hsome).
  assert (begin_object fmt st = Serializer (json_ st ++ "{"%char :: nl) (S (depth_ st)) (is_array st)) as Hbegin.
  { unfold begin_object. rewrite newline_put, put_put. done. }
  cbn [append]. rewrite Hbegin, process_text; [| |done |cbn; lia].
  2: { cbn [is_array]. rewrite list.Forall_forall in IH |- *. intros f Hin. destruct (IH f Hin) as [H1 H2]. split; [done |]. split; [done |].
       intros H. specialize (Ha H). cbn [flat] in Ha. rewrite list.Forall_forall in Ha. by apply Ha. }
  cbn [rbind depth_ put json_ is_array]. set (es := entries (fun id t v => attr (S (depth_ st)) id (text (S (depth_ st)) t v)) fs vs).
  destruct (body_comma (depth_ st) es) as (x & E1 & E2); [by apply entries_some |]. unfold erase_comma. cbn [json_ depth_ is_array put].
  rewrite <- app_assoc. cbn [app]. rewrite E1.
  replace (json_ st ++ "{"%char :: x ++ ","%char :: nl) with ((json_ st ++ "{"%char :: x) ++ ","%char :: nl) by (by rewrite <- app_assoc).
  rewrite last_comma_app by apply no_comma_nl. cbn [rbind]. f_equal. unfold end_object, indent, tail, put. cbn [json_ depth_ is_array pred text].
  fold es. rewrite E2. destruct ((0 <? depth_ st) && negb (is_array st)); cbn [json_ depth_ is_array]; f_equal; fold (ind (depth_ st));
    rewrite <- ?app_assoc; cbn [app]; rewrite <- ?app_assoc; done.
Qed.

(** ** The text is a text of the object *)

Lemma spaces_ind d : spaces (ind d).
Proof. unfold spaces, ind. apply Forall_replicate. done. Qed.
Lemma spaces_nl : spaces nl.
Proof. unfold spaces, nl. destruct (show_line_break fmt); by repeat constructor. Qed.
Lemma gap_layout {real} (j : json real) d : gap j (nl ++ ind d).
Proof.
  split; [apply Forall_app; split; [apply spaces_nl | apply spaces_ind] |]. intros _. unfold nl, ind.
  destruct (show_line_break fmt); [by left |]. cbn [app]. destruct (d * indentation fmt); [done | by right].
Qed.

Lemma body_members {real} d (es : list (str * json real * str)) :
  Forall (fun e => string_text e.1.1 e.1.1 /\ value_text e.1.2 e.2) es -> es <> [] ->
  members_text (fst <$> es) (body d ((fun e => attr (S d) e.1.1 e.2) <$> es)).
Proof.
  intros Hes Hne. induction Hes as [|[[k j] s] es [Hk Hj] _ IH]; [done |]. cbn [fst snd fmap list_fmap] in *.
  assert (forall w4, gap j w4 -> member_text k j (nl ++ attr (S d) k s ++ w4)) as Hm.
  { intros w4 Hg. unfold attr. change (lit ": ") with [":"%char; " "%char]. rewrite <- !app_assoc. cbn [app]. rewrite app_assoc. rewrite <- !app_assoc. cbn [app].
    rewrite app_assoc. apply (mt_member (nl ++ ind (S d)) k k [] [" "%char] j s w4); [|done | apply spaces_nil | apply spaces_one | done | done].
    apply Forall_app; split; [apply spaces_nl | apply spaces_ind]. }
  destruct es as [|e es].
  - cbn [body fmap list_fmap]. constructor. apply Hm, gap_layout.
  - change (members_text ((k, j) :: (fst <$> e :: es)) (nl ++ attr (S d) k s ++ ","%char :: body d ((fun e => attr (S d) e.1.1 e.2) <$> (e :: es)))).
    replace (nl ++ attr (S d) k s ++ ","%char :: body d _) with ((nl ++ attr (S d) k s ++ []) ++ ","%char :: body d ((fun e => attr (S d) e.1.1 e.2) <$> (e :: es)))
      by (rewrite app_nil_r, <- app_assoc; done).
    apply mt_cons; [apply Hm, gap_nil | by apply IH].
Qed.

Lemma elements_texts {real} (es : list (json real * str)) :
  Forall (fun e => value_text e.1 e.2) es -> es <> [] -> elements_text (fst <$> es) (Json.join (lit ",") (snd <$> es)).
Proof.
  intros Hes Hne. induction Hes as [|[j s] es Hj _ IH]; [done |]. destruct es as [|e es].
  - cbn. rewrite app_nil_r. rewrite <- (app_nil_r s). apply (et_last [] j s []); [apply spaces_nil | done | apply gap_nil].
  - cbn [fmap list_fmap fst snd] in *. rewrite join_cons.
    replace (s ++ lit "," ++ Json.join (lit ",") (e.2 :: (snd <$> es))) with (([] ++ s ++ []) ++ ","%char :: Json.join (lit ",") (e.2 :: (snd <$> es)))
      by (by rewrite app_nil_r).
    apply et_cons; [apply spaces_nil | done | apply gap_nil | by apply IH].
Qed.

Lemma text_of_value {real} t : forall v d, printable t v -> value_text (json_of (real := real) t v) (text d t v).
Proof.
  induction t as [sg w| | | |fs IH|e IH] using type_ind'; intros v d Hv; destruct v as [z|b|s|vs|l]; try done; cbn [json_of text].
  - constructor. apply Hv.
  - destruct b; constructor.
  - constructor. by apply printable_string_text.
  - constructor. by apply printable_string_text.
  - destruct Hv as (_ & Hids & Hok & Hsome). apply vt_object.
    set (es := entries (fun id t v => (id, json_of (real := real) t v, text (S d) t v)) fs vs).
    pose proof (entries_fmap fst (fun id t v => (id, json_of (real := real) t v, text (S d) t v)) fs vs) as E1.
    pose proof (entries_fmap (fun e => attr (S d) e.1.1 e.2) (fun id t v => (id, json_of (real := real) t v, text (S d) t v)) fs vs) as E2.
    cbn [fst snd] in E1, E2. rewrite E1, E2. fold es. apply body_members; [|by apply entries_some].
    apply (entries_Forall _ printable); [|done]. intros id t v Hin Hv. cbn [fst snd]. split.
    + apply printable_string_text. rewrite list.Forall_forall in Hids. apply Hids. by apply (list_elem_of_fmap_2 fst) in Hin.
    + rewrite list.Forall_forall in IH. by apply (IH (id, t)).
  - destruct Hv as [_ Hl]. destruct l as [|v l]; [apply (vt_empty_array []); apply spaces_nil |]. apply vt_array.
    set (es := (fun v => (json_of (real := real) e v, text d e v)) <$> (v :: l)).
    assert (json_of e <$> v :: l = fst <$> es) as -> by (unfold es; by rewrite <- list_fmap_compose).
    assert (text d e <$> v :: l = snd <$> es) as -> by (unfold es; by rewrite <- list_fmap_compose).
    apply elements_texts; [|done]. unfold es. apply Forall_fmap. eapply list.Forall_impl; [exact Hl |]. intros x Hx. by apply IH.
Qed.

End Text.


(** ** A class with attributes of all kinds *)

Abbreviation read fs s := (to_object no_reals (fun _ => false) fs s false).
Abbreviation write fs vs := (to_json compact fs vs).

Lemma printable_lit s : forallb (fun c => bool_decide (c <> DQUOTE /\ c <> BACKSLASH /\ c <> NUL)) (lit s) = true -> printable_str (lit s).
Proof. intros H. apply list.Forall_forall. intros c Hc. rewrite forallb_forall in H. apply list_elem_of_In in Hc. specialize (H c Hc). by case_bool_decide. Qed.

Ltac by_deciding := apply (bool_decide_unpack _); vm_compute; exact I.
Ltac printable_names := repeat (apply Forall_cons; [apply printable_lit; vm_compute; reflexivity |]); constructor.

Lemma item_printable n p : printable_str (lit n) -> (- 2 ^ 31 <= p < 2 ^ 31)%Z -> printable (Class item_fields) (VObject (sample_item n p)).
Proof.
  intros Hn Hp. cbn [printable item_fields sample_item]. split_and!; [split; by_deciding | printable_names | | cbn; by destruct (lit n)].
  split; [done |]. split; [|done]. cbn [printable]. unfold cast. rewrite swrap_small by (cbn; lia). unfold LLONG_MIN, LLONG_MAX. split; [done | lia].
Qed.

Lemma sample_printable : printable (Class order_fields) (VObject sample_order).
Proof.
  cbn [printable order_fields sample_order]. split_and!; [split; by_deciding | printable_names | | vm_compute; discriminate].
  unfold order_fields, sample_order. repeat match goal with |- fields_ok _ (_ :: _) (_ :: _) => split end; try done; cbn [printable]; [constructor | constructor | | split; [done |] | split; [done |] | split].
  - apply (item_printable "ball" 3); [by apply printable_lit | lia].
  - repeat (apply Forall_cons; [by vm_compute |]). constructor.
  - printable_names.
  - repeat constructor.
  - apply Forall_cons; [|apply Forall_cons; [|constructor]].
    + apply (item_printable "rope" 5); [by apply printable_lit | lia].
    + apply (item_printable EmptyString 6); [constructor | lia].
Qed.


Lemma object_mapped_witness : read order_fields (lit " " ++ text compact 0 (Class order_fields) (VObject sample_order) ++ [LF]) = Ok sample_order.
Proof.
  apply (object_mapped no_reals (fun _ => false) order_fields (entries (fun id t v => (id, json_of t v)) order_fields sample_order)).
  - exact (text_of_value compact (Class order_fields) (VObject sample_order) 0 sample_printable).
  - repeat constructor.
  - repeat constructor.
  - apply sample_printable.
  - apply (all_mean (Class order_fields) (VObject sample_order)), sample_printable.
Defined.

(** ** Objects that json changes *)

(** Texts are printed as they are: one with a quote and a comma becomes
    another attribute. *)
Definition item_with (note : str) : list value := [VInt 7; VBool false; VText note].
Definition note_fields : fields := [(lit "id", Integral true 4); (lit "paid", Bool); (lit "note", Text)].
Definition quoted_note : str := lit "x" ++ [DQUOTE] ++ lit ", " ++ [DQUOTE] ++ lit "paid" ++ [DQUOTE] ++ lit ": true, " ++ [DQUOTE] ++ lit "id" ++ [DQUOTE]
  ++ lit ": 8, " ++ [DQUOTE] ++ lit "note" ++ [DQUOTE] ++ lit ": " ++ [DQUOTE] ++ lit "y".
Example text_becomes_attributes :
  (let? s := write note_fields (item_with quoted_note) in read note_fields s) = Ok [VInt 8; VBool true; VText (lit "y")].
Proof. vm_compute. reflexivity. Qed.

(** The last comma is erased even if the object has printed none. *)
Definition text_fields : fields := [(lit "name", Text)].
Example nothing_to_print : write text_fields [VText []] = Throw (out_of_range "basic_string::erase").
Proof. vm_compute. reflexivity. Qed.
Definition nested_fields : fields := [(lit "id", Integral true 4); (lit "sub", Class text_fields); (lit "last", Integral true 4)].
Example comma_of_another :
  (let? s := write nested_fields [VInt 1; VObject [VText []]; VInt 2] in read nested_fields s) = Throw (json_exception "invalid json character").
Proof. vm_compute. reflexivity. Qed.

(** An object in an array whose class has a list: the comma behind the list
    and the one behind the object are both printed. Read from a proper text, the
    object is lost, because the end of its list counts as the end of the
    array. *)
Definition list_fields : fields := [(lit "n", Sequence (Integral true 4)); (lit "id", Integral true 4)].
Definition holder_fields : fields := [(lit "all", Sequence (Class list_fields)); (lit "id", Integral true 4)].
Definition with_list : list value := [VList [VInt 1]; VInt 2].
Example list_in_array_printed :
  (let? s := write holder_fields [VList [VObject with_list; VObject with_list]; VInt 3] in read holder_fields s)
  = Throw (json_exception "unknown json type").
Proof. vm_compute. reflexivity. Qed.
Example list_in_array_lost :
  to_objects no_reals (fun _ => false) list_fields
    (lit "[{" ++ [DQUOTE] ++ lit "n" ++ [DQUOTE] ++ lit ": [1], " ++ [DQUOTE] ++ lit "id" ++ [DQUOTE] ++ lit ": 2}]") false = Ok [].
Proof. vm_compute. reflexivity. Qed.

(** An object in an object in an array is printed without its comma. *)
Definition pair_fields : fields := [(lit "item", Class item_fields); (lit "id", Integral true 4)].
Definition pairs_fields : fields := [(lit "all", Sequence (Class pair_fields)); (lit "id", Integral true 4)].
Example object_in_array_printed :
  (let? s := write pairs_fields [VList [VObject [VObject (sample_item "a" 1); VInt 2]]; VInt 3] in read pairs_fields s)
  = Throw (json_exception "not a valid object closing bracket").
Proof. vm_compute. reflexivity. Qed.

(** Unsigned numbers that [long long] cannot hold are printed, not read. *)
Example large_number :
  (let? s := write [(lit "id", Integral false 8)] [VInt (2 ^ 63)] in read [(lit "id", Integral false 8)] s) = Throw (json_exception "errno integer error").
Proof. vm_compute. reflexivity. Qed.

(** A member that is unknown is ignored, unless it is an object. *)
Example unknown_member :
  let member k v := lit "{" ++ [DQUOTE] ++ lit k ++ [DQUOTE] ++ lit ": " ++ lit v ++ lit "}" in
  read text_fields (member "other" "[1, 2]") = Ok [VText []]
  /\ read text_fields (member "other" "{}") = Throw (json_exception "not a valid object closing bracket").
Proof. vm_compute. split; reflexivity. Qed.

End JsonMapping.
