(* ===== verification/Date.v ===== *)
(** * Dates

    Model of the calendar functions (src/utils/calendar.cpp) and of [date]
    (src/utils/date.cpp, include/matador/utils/date.hpp) as far as it depends
    neither on the clock nor on the time zone: whether daylight saving is in
    use ([daylight]) is a parameter. [int] and [unsigned int] have 32 bits. *)

From S2P Require Import Prelude.

Local Open Scope cxx_scope.

Module Date.
Local Open Scope Z_scope.

(** ** The calendar *)

Definition gc2jd (d m y : Z) : Z :=
  let y := if y <=? 99 then s32 (y + 1900) else y in
  let '(m, y) := if 2 <? m then (m - 3, y) else (m + 9, s32 (y - 1)) in
  let c := u32 y / 100 in
  let ya := u32 (u32 y - 100 * c) in
  s32 (u32 (1721119 + d + u32 (146097 * c) / 4 + u32 (1461 * ya) / 4 + Z.quot (153 * m + 2) 5)).

Definition jd2gc (jd : Z) : Z * Z * Z :=
  let j := u32 (jd - 1721119) in
  let y := s32 (u32 (u32 (j * 4) - 1) / 146097) in
  let j := u32 (j * 4 - 146097 * y - 1) in
  let x := j / 4 in
  let j := u32 (x * 4 + 3) / 1461 in
  let y := s32 (100 * y + j) in
  let x := u32 (x * 4 + 3 - 1461 * j) in
  let x := u32 (x + 4) / 4 in
  let m := s32 (u32 (5 * x - 3) / 153) in
  let x := u32 (5 * x - 3 - 153 * m) in
  let d := s32 (u32 (x + 5) / 5) in
  if m <? 10 then (d, m + 3, y) else (d, m - 9, s32 (y + 1)).

Definition time2seconds (hour minute second : Z) : Z := s32 (u32 (u32 (hour * 3600) + u32 (60 * minute) + second)).

Definition seconds2time (seconds : Z) : Z * Z * Z :=
  let hour := seconds / 3600 in
  let minute := u32 (seconds - u32 (3600 * hour)) / 60 in
  let second := u32 (seconds - u32 (3600 * hour) - u32 (60 * minute)) in
  (hour, minute, second).

(** ** date *)

Record date := MakeDate {
  day_ : Z;
  month_ : Z;
  year_ : Z;
  is_daylight_saving_ : bool;
  is_leap_year_ : bool;
  julian_date_ : Z }.

Definition month_days : list Z := [31; 28; 31; 30; 31; 30; 31; 31; 30; 31; 30; 31].

Definition is_leapyear (year : Z) : bool :=
  ((Z.rem year 4 =? 0) && negb (Z.rem year 100 =? 0)) || (Z.rem year 400 =? 0).

Definition is_valid_date (year month day : Z) : bool :=
  let is_leap := is_leapyear year in
  if (month <? 1) || (12 <? month) then false
  else
    let days := nth (Z.to_nat (month - 1)) month_days 0 in
    if (month =? 2) && ((days + (if is_leap then 1 else 0) <? day) || (day <? 1)) then false
    else if (days <? day) || (day <? 1) then false
    else true.

Section Daylight.
(** [daylight != 0]: the time zone has daylight saving. *)
Context (daylight : bool).

Definition is_daylight_saving (year month day : Z) : bool :=
  if negb daylight then false
  else
    let adjustment := Z.quot (14 - month) 12 in
    let mm := month + 12 * adjustment - 2 in
    let yy := year - adjustment in
    let day_of_week :=
      Z.rem (day + Z.quot (13 * mm - 1) 5 + yy + Z.quot yy 4 - Z.quot yy 100 + Z.quot yy 400) 7 in
    if (month <? 3) || (11 <? month) then false
    else if (3 <? month) && (month <? 11) then true
    else
      let previous_sunday := day - day_of_week in
      if month =? 3 then 25 <=? previous_sunday else previous_sunday <=? 0.

Definition sync_date (d m y : Z) : result date :=
  if negb (is_valid_date y m d) then Throw (logic_error "date isn't valid")
  else Ok (MakeDate d m y (is_daylight_saving y m d) (is_leapyear y) (gc2jd d m y)).

Definition sync_julian_date (juliandate : Z) : date :=
  let '(d, m, y) := jd2gc juliandate in
  MakeDate d m y (is_daylight_saving y m d) (is_leapyear y) juliandate.

Definition sync_day (d : Z) (x : date) : result date := sync_date d (month_ x) (year_ x).
Definition sync_month (m : Z) (x : date) : result date := sync_date (day_ x) m (year_ x).
Definition sync_year (y : Z) (x : date) : result date := sync_date (day_ x) (month_ x) y.

(** [operator+=], [operator-=], [operator++] and [operator--]. *)
Definition add_days (days : Z) (x : date) : date := sync_julian_date (s32 (julian_date_ x + days)).
Definition sub_days (days : Z) (x : date) : date := sync_julian_date (s32 (julian_date_ x - days)).
Definition increment (x : date) : date := sync_julian_date (s32 (julian_date_ x + 1)).
Definition decrement (x : date) : date := sync_julian_date (s32 (julian_date_ x - 1)).
End Daylight.

Definition equal (a b : date) : bool := julian_date_ a =? julian_date_ b.
Definition less (a b : date) : bool := julian_date_ a <? julian_date_ b.
Definition greater (a b : date) : bool := negb (less a b || equal a b).
Definition less_equal (a b : date) : bool := less a b || equal a b.
Definition greater_equal (a b : date) : bool := negb (less a b).
Definition difference (a b : date) : Z := s32 (julian_date_ b - julian_date_ a).

(** ** The Gregorian calendar *)

Definition leap (y : Z) : bool := ((y mod 4 =? 0) && negb (y mod 100 =? 0)) || (y mod 400 =? 0).

Definition days_in_month (y m : Z) : Z :=
  if m =? 2 then (if leap y then 29 else 28)
  else if (m =? 4) || (m =? 6) || (m =? 9) || (m =? 11) then 30 else 31.

Definition gregorian (d m y : Z) : bool := (1 <=? m) && (m <=? 12) && (1 <=? d) && (d <=? days_in_month y m).

(** The day after. *)
Definition next_day (x : Z * Z * Z) : Z * Z * Z :=
  let '(d, m, y) := x in
  if d <? days_in_month y m then (d + 1, m, y)
  else if m <? 12 then (1, m + 1, y)
  else (1, 1, y + 1).

(** ** Without overflow *)

Definition jd_of (d m y : Z) : Z :=
  let '(m, y) := if 2 <? m then (m - 3, y) else (m + 9, y - 1) in
  let c := y / 100 in
  let ya := y mod 100 in
  1721119 + d + (146097 * c) / 4 + (1461 * ya) / 4 + (153 * m + 2) / 5.

Definition gc_of (jd : Z) : Z * Z * Z :=
  let j := jd - 1721119 in
  let y := (j * 4 - 1) / 146097 in
  let j := (j * 4 - 1) mod 146097 in
  let x := j / 4 in
  let y' := (x * 4 + 3) / 1461 in
  let x := (x * 4 + 3) mod 1461 in
  let x := (x + 4) / 4 in
  let m := (5 * x - 3) / 153 in
  let d := ((5 * x - 3) mod 153 + 5) / 5 in
  if m <? 10 then (d, m + 3, 100 * y + y') else (d, m - 9, 100 * y + y' + 1).

(** Years for which nothing overflows. *)
Definition year_ok (y : Z) : Prop := 100 <= y <= 1000000.

Lemma s32_small z : - 2 ^ 31 <= z < 2 ^ 31 -> s32 z = z.
Proof. intros H. apply swrap_small; lia. Qed.

Lemma u32_small z : 0 <= z < 2 ^ 32 -> u32 z = z.
Proof. intros H. by apply wrap_small. Qed.

Lemma gc2jd_jd_of d m y : year_ok y -> 1 <= m <= 12 -> 1 <= d <= 31 -> gc2jd d m y = jd_of d m y.
Proof.
  intros Hy Hm Hd. unfold year_ok in Hy. unfold gc2jd, jd_of. rewrite (proj2 (Z.leb_gt y 99)) by lia.
  assert (exists m' y', (if 2 <? m then (m - 3, y) else (m + 9, s32 (y - 1))) = (m', y')
            /\ (if 2 <? m then (m - 3, y) else (m + 9, y - 1)) = (m', y') /\ 0 <= m' <= 11 /\ 99 <= y' <= 1000000)
    as (m' & y' & -> & -> & Hm' & Hy').
  { destruct (2 <? m) eqn:E; breflect; do 2 eexists; (split; [reflexivity |]).
    - split; [reflexivity | lia].
    - rewrite s32_small by lia. split; [reflexivity | lia]. }
  rewrite (u32_small y') by lia. assert (u32 (y' - 100 * (y' / 100)) = y' mod 100) as ->.
  { rewrite Z.mod_eq by lia. apply u32_small. pose proof (Z.mod_pos_bound y' 100). rewrite Z.mod_eq in *; lia. }
  pose proof (Z.mod_pos_bound y' 100 ltac:(lia)). assert (0 <= y' / 100 <= 10000) by (split; [apply Z.div_pos | apply Z.div_le_upper_bound]; lia).
  rewrite (u32_small (146097 * _)), (u32_small (1461 * _)) by lia. rewrite Z.quot_div_nonneg by lia.
  assert (0 <= 146097 * (y' / 100) / 4 <= 365242500) by (split; [apply Z.div_pos | apply Z.div_le_upper_bound]; lia).
  assert (0 <= 1461 * (y' mod 100) / 4 <= 36525) by (split; [apply Z.div_pos | apply Z.div_le_upper_bound]; lia).
  assert (0 <= (153 * m' + 2) / 5 <= 337) by (split; [apply Z.div_pos | apply Z.div_le_upper_bound]; lia).
  rewrite u32_small, s32_small by lia. reflexivity.
Qed.

Lemma jd2gc_gc_of jd : 0 < jd - 1721119 <= 366000000 -> jd2gc jd = gc_of jd.
Proof.
  intros Hjd. unfold jd2gc, gc_of. set (j := jd - 1721119) in *.
  rewrite (u32_small j), (u32_small (j * 4)), (u32_small (j * 4 - 1)) by lia.
  pose proof (Z.mod_pos_bound (j * 4 - 1) 146097 ltac:(lia)) as Hm. pose proof (Z.div_mod (j * 4 - 1) 146097 ltac:(lia)) as Hdm.
  set (y := (j * 4 - 1) / 146097) in *. set (r := (j * 4 - 1) mod 146097) in *.
  rewrite (s32_small y) by lia. replace (j * 4 - 146097 * y - 1) with r by lia. rewrite (u32_small r) by lia.
  assert (0 <= r / 4 <= 36524) as Hx by (split; [apply Z.div_pos | apply Z.div_le_upper_bound]; lia).
  set (x := r / 4) in *. rewrite (u32_small (x * 4 + 3)) by lia.
  pose proof (Z.mod_pos_bound (x * 4 + 3) 1461 ltac:(lia)) as Hm1. pose proof (Z.div_mod (x * 4 + 3) 1461 ltac:(lia)) as Hdm1.
  set (y1 := (x * 4 + 3) / 1461) in *. set (r1 := (x * 4 + 3) mod 1461) in *.
  replace (x * 4 + 3 - 1461 * y1) with r1 by lia. rewrite (s32_small (100 * y + y1)), (u32_small r1), (u32_small (r1 + 4)) by lia.
  assert (1 <= (r1 + 4) / 4 <= 366) as Hx2 by (split; [apply Z.div_le_lower_bound | apply Z.div_le_upper_bound]; lia).
  set (x2 := (r1 + 4) / 4) in *. rewrite (u32_small (5 * x2 - 3)) by lia.
  pose proof (Z.mod_pos_bound (5 * x2 - 3) 153 ltac:(lia)) as Hm2. pose proof (Z.div_mod (5 * x2 - 3) 153 ltac:(lia)) as Hdm2.
  set (m := (5 * x2 - 3) / 153) in *. set (r2 := (5 * x2 - 3) mod 153) in *.
  rewrite (s32_small m) by lia. replace (5 * x2 - 3 - 153 * m) with r2 by lia. rewrite (u32_small r2), (u32_small (r2 + 5)) by lia.
  assert (1 <= (r2 + 5) / 5 < 32) as Hd by (split; [apply Z.div_le_lower_bound | apply Z.div_lt_upper_bound]; lia).
  rewrite (s32_small ((r2 + 5) / 5)), (s32_small (100 * y + y1 + 1)) by lia. reflexivity.
Qed.

(** ** From the day to the date *)

Lemma gc_year c ya n :
  0 <= ya < 100 -> 1 <= n <= 366 -> (n = 366 -> ya mod 4 = 3 /\ (ya = 99 -> c mod 4 = 3)) ->
  let j := 146097 * c / 4 + 1461 * ya / 4 + n in
  (j * 4 - 1) / 146097 = c /\ ((j * 4 - 1) mod 146097 / 4 * 4 + 3) / 1461 = ya
  /\ (((j * 4 - 1) mod 146097 / 4 * 4 + 3) mod 1461 + 4) / 4 = n.
Proof.
  intros Hya Hn Hl j.
  assert (4 * (146097 * c / 4) = 146097 * c - c mod 4) as E1 by (Z.to_euclidean_division_equations; lia).
  assert (4 * (1461 * ya / 4) = 1461 * ya - ya mod 4) as E2 by (Z.to_euclidean_division_equations; lia).
  pose proof (Z.mod_pos_bound c 4 ltac:(lia)). pose proof (Z.mod_pos_bound ya 4 ltac:(lia)).
  assert (j * 4 - 1 = 4 * (1461 * ya / 4) + 4 * n - 1 - c mod 4 + c * 146097) as E3 by (unfold j; lia).
  set (R := 4 * (1461 * ya / 4) + 4 * n - 1 - c mod 4) in *.
  assert (0 <= R < 146097) as HR by (unfold R; lia).
  rewrite E3. rewrite Z.div_add, Z.mod_add, Z.div_small, Z.mod_small by lia.
  assert (R / 4 = 1461 * ya / 4 + n - 1) as -> by (unfold R in *; Z.to_euclidean_division_equations; lia).
  assert ((1461 * ya / 4 + n - 1) * 4 + 3 = 4 * n - 1 - ya mod 4 + ya * 1461) as -> by lia.
  rewrite Z.div_add, Z.mod_add by lia. rewrite Z.div_small, Z.mod_small by lia.
  split; [lia |]. split; [lia |]. Z.to_euclidean_division_equations; lia.
Qed.

(** The months of a year that starts in March; the last one has 29 days. *)
Definition month_length (m : Z) : Z := days_in_month 0 (if m <? 10 then m + 3 else m - 9).
Definition range (a : Z) (n : nat) : list Z := (fun i => a + Z.of_nat i) <$> seq 0 n.
Lemma elem_of_range z a n : a <= z < a + Z.of_nat n -> In z (range a n).
Proof. intros H. apply list_elem_of_In. apply list_elem_of_fmap. exists (Z.to_nat (z - a)). split; [lia |]. apply elem_of_seq. lia. Qed.

Definition month_ok (m d : Z) : bool :=
  let n := d + (153 * m + 2) / 5 in
  ((5 * n - 3) / 153 =? m) && (((5 * n - 3) mod 153 + 5) / 5 =? d) && (1 <=? n) && (n <=? 366)
  && (negb (n =? 366) || ((m =? 11) && (d =? 29))).
Lemma months_checked :
  forallb (fun m => forallb (month_ok m) (range 1 (Z.to_nat (month_length m)))) (range 0 12) = true.
Proof. vm_compute. reflexivity. Qed.

Lemma gc_month m d :
  0 <= m <= 11 -> 1 <= d <= month_length m ->
  let n := d + (153 * m + 2) / 5 in
  (5 * n - 3) / 153 = m /\ ((5 * n - 3) mod 153 + 5) / 5 = d /\ 1 <= n <= 366 /\ (n = 366 -> m = 11 /\ d = 29).
Proof.
  intros Hm Hd. pose proof months_checked as H. rewrite forallb_forall in H.
  specialize (H m (elem_of_range m 0 12 ltac:(lia))). rewrite forallb_forall in H.
  specialize (H d (elem_of_range d 1 (Z.to_nat (month_length m)) ltac:(lia))). unfold month_ok in H. cbn zeta.
  apply andb_true_iff in H as [H H5]. breflect. split_and!; try done. intros E. apply orb_true_iff in H5 as [H5 | H5]; breflect; lia.
Qed.

Lemma gc_of_jd_of d m y : gregorian d m y = true -> gc_of (jd_of d m y) = (d, m, y).
Proof.
  intros Hg. unfold gregorian in Hg. breflect. unfold jd_of.
  set (m' := if 2 <? m then m - 3 else m + 9). set (y' := if 2 <? m then y else y - 1).
  assert ((if 2 <? m then (m - 3, y) else (m + 9, y - 1)) = (m', y')) as -> by (unfold m', y'; by destruct (2 <? m)).
  assert (0 <= m' <= 11) as Hm' by (unfold m'; destruct (2 <? m) eqn:?; breflect; lia).
  assert ((if m' <? 10 then m' + 3 else m' - 9) = m) as Hmm
    by (unfold m'; destruct (2 <? m) eqn:?, (_ <? 10) eqn:?; breflect; lia).
  destruct (gc_month m' d) as (E1 & E2 & Hn & Hl); [done | |].
  { unfold month_length. rewrite Hmm. assert (days_in_month y m <= days_in_month 0 m); [|lia].
    unfold days_in_month. change (leap 0) with true. repeat case_match; lia. }
  set (n := d + (153 * m' + 2) / 5) in *.
  destruct (gc_year (y' / 100) (y' mod 100) n) as (E3 & E4 & E5); [by apply Z.mod_pos_bound | done | |].
  { intros Hn'. destruct (Hl Hn') as [Hm11 Hd29]. assert (m = 2) as -> by (rewrite Hm11 in Hmm; by rewrite <- Hmm).
    unfold y'. change (2 <? 2) with false. cbv iota. unfold days_in_month in *. change (2 =? 2) with true in *. cbv iota in *.
    destruct (leap y) eqn:El; [|lia]. unfold leap in El. apply orb_true_iff in El as [El | El]; breflect;
      Z.to_euclidean_division_equations; lia. }
  unfold gc_of. replace (1721119 + d + 146097 * (y' / 100) / 4 + 1461 * (y' mod 100) / 4 + (153 * m' + 2) / 5 - 1721119)
    with (146097 * (y' / 100) / 4 + 1461 * (y' mod 100) / 4 + n) by (unfold n; lia).
  rewrite E5, E3, E4, E1, E2. assert (100 * (y' / 100) + y' mod 100 = y') as -> by (symmetry; by apply Z.div_mod).
  unfold m', y' in *. destruct (2 <? m) eqn:?, (_ <? 10) eqn:?; breflect; f_equal; f_equal; lia.
Qed.

(** Days before a month and before a year that start in March. *)
Definition month_start (m : Z) : Z := (153 * m + 2) / 5.
Definition year_start (y : Z) : Z := 146097 * (y / 100) / 4 + 1461 * (y mod 100) / 4.

Lemma jd_of_late d m y : 2 < m -> jd_of d m y = 1721119 + d + year_start y + month_start (m - 3).
Proof. intros H. unfold jd_of. rewrite (proj2 (Z.ltb_lt _ _) H). unfold year_start, month_start. lia. Qed.

Lemma jd_of_early d m y : m <= 2 -> jd_of d m y = 1721119 + d + year_start (y - 1) + month_start (m + 9).
Proof. intros H. unfold jd_of. rewrite (proj2 (Z.ltb_ge _ _) H). unfold year_start, month_start. lia. Qed.

Lemma year_start_next y : year_start y = year_start (y - 1) + (if leap y then 366 else 365).
Proof.
  unfold year_start, leap.
  destruct (_ || _) eqn:E; [apply orb_true_iff in E as [E | E] | apply orb_false_iff in E as [E E']; apply andb_false_iff in E as [E | E]];
    breflect; Z.to_euclidean_division_equations; lia.
Qed.

Lemma month_start_next m : 3 <= m <= 11 -> forall y, month_start (m + 1 - 3) = month_start (m - 3) + days_in_month y m.
Proof.
  intros Hm y. assert (forallb (fun m => month_start (m + 1 - 3) =? month_start (m - 3) + days_in_month 0 m) (range 3 9) = true) as H by reflexivity.
  rewrite forallb_forall in H. specialize (H m (elem_of_range m 3 9 ltac:(lia))). breflect.
  unfold days_in_month in *. by rewrite (proj2 (Z.eqb_neq m 2)) in * by lia.
Qed.

Lemma jd_of_next d m y d' m' y' :
  gregorian d m y = true -> next_day (d, m, y) = (d', m', y') -> jd_of d' m' y' = jd_of d m y + 1.
Proof.
  intros Hg Hn. unfold gregorian in Hg. breflect. unfold next_day in Hn. destruct (d <? days_in_month y m) eqn:E; simplify_eq.
  { destruct (Z_lt_le_dec 2 m'); [rewrite !jd_of_late by done | rewrite !jd_of_early by done]; lia. }
  breflect. assert (d = days_in_month y m) as -> by lia. clear E. destruct (m <? 12) eqn:E; simplify_eq; breflect.
  - destruct (Z_lt_le_dec 2 m) as [Hm | Hm].
    + rewrite !jd_of_late by lia. rewrite (month_start_next m ltac:(lia) y'). lia.
    + assert (m = 1 \/ m = 2) as [-> | ->] by lia.
      * rewrite !jd_of_early by lia. change (days_in_month y' 1) with 31. change (month_start (1 + 9)) with 306.
        change (month_start (1 + 1 + 9)) with 337. lia.
      * rewrite jd_of_late, jd_of_early by lia. rewrite (year_start_next y'). change (month_start (2 + 1 - 3)) with 0.
        change (month_start (2 + 9)) with 337. change (days_in_month y' 2) with (if leap y' then 29 else 28). destruct (leap y'); lia.
  - assert (m = 12) as -> by lia. rewrite jd_of_early, jd_of_late by lia. replace (y + 1 - 1) with y by lia.
    change (month_start (1 + 9)) with 306. change (month_start (12 - 3)) with 275. change (days_in_month y 12) with 31. lia.
Qed.

Lemma next_day_gregorian d m y d' m' y' :
  gregorian d m y = true -> next_day (d, m, y) = (d', m', y') -> gregorian d' m' y' = true /\ y <= y' <= y + 1.
Proof.
  unfold gregorian, next_day. intros Hg Hn. breflect.
  assert (forall y m, 28 <= days_in_month y m) as Hd.
  { intros y0 m0. unfold days_in_month. repeat case_match; lia. }
  destruct (d <? days_in_month y m) eqn:E; [|destruct (m <? 12) eqn:E']; simplify_eq; breflect.
  - split; [|lia]. rewrite !andb_true_iff, !Z.leb_le. lia.
  - split; [|lia]. pose proof (Hd y' (m + 1)). rewrite !andb_true_iff, !Z.leb_le. lia.
  - split; [|lia]. pose proof (Hd (y + 1) 1). rewrite !andb_true_iff, !Z.leb_le. lia.
Qed.

(** ** Properties *)

(** What the constructors establish: a date of the calendar with its day
    number. *)
Definition date_ok (x : date) : Prop :=
  gregorian (day_ x) (month_ x) (year_ x) = true /\ year_ok (year_ x)
  /\ julian_date_ x = gc2jd (day_ x) (month_ x) (year_ x) /\ is_leap_year_ x = leap (year_ x).

Lemma is_leapyear_leap y : 0 <= y -> is_leapyear y = leap y.
Proof. intros Hy. unfold is_leapyear, leap. by rewrite !Z.rem_mod_nonneg by lia. Qed.

Lemma gregorian_bounds d m y : gregorian d m y = true -> 1 <= m <= 12 /\ 1 <= d <= 31.
Proof.
  unfold gregorian, days_in_month. intros H. breflect. repeat case_match; lia.
Qed.

Lemma jd_of_bounds d m y : gregorian d m y = true -> year_ok y -> 0 < jd_of d m y - 1721119 <= 365300000.
Proof.
  intros Hg Hy. destruct (gregorian_bounds _ _ _ Hg) as [Hm Hd]. unfold year_ok in Hy.
  assert (forall y, 99 <= y <= 1000000 -> 0 <= year_start y <= 365280000) as Hs.
  { intros y' Hy'. unfold year_start. pose proof (Z.mod_pos_bound y' 100 ltac:(lia)).
    assert (0 <= y' / 100 <= 10000) by (split; [apply Z.div_pos | apply Z.div_le_upper_bound]; lia).
    assert (0 <= 146097 * (y' / 100) / 4 <= 365242500) by (split; [apply Z.div_pos | apply Z.div_le_upper_bound]; lia).
    assert (0 <= 1461 * (y' mod 100) / 4 <= 36525) by (split; [apply Z.div_pos | apply Z.div_le_upper_bound]; lia). lia. }
  assert (forall m, 0 <= m <= 11 -> 0 <= month_start m <= 337) as Hms.
  { intros m' Hm'. unfold month_start. split; [apply Z.div_pos | apply Z.div_le_upper_bound]; lia. }
  destruct (Z_lt_le_dec 2 m).
  - rewrite jd_of_late by done. pose proof (Hs y ltac:(lia)). pose proof (Hms (m - 3) ltac:(lia)). lia.
  - rewrite jd_of_early by done. pose proof (Hs (y - 1) ltac:(lia)). pose proof (Hms (m + 9) ltac:(lia)). lia.
Qed.

Lemma jd2gc_gc2jd d m y : gregorian d m y = true -> year_ok y -> jd2gc (gc2jd d m y) = (d, m, y).
Proof.
  intros Hg Hy. destruct (gregorian_bounds _ _ _ Hg) as [Hm Hd]. rewrite gc2jd_jd_of by done.
  pose proof (jd_of_bounds d m y Hg Hy). rewrite jd2gc_gc_of by lia. by apply gc_of_jd_of.
Qed.

(** A date of the Gregorian calendar in the years 100 to 1000000, leap days
    included, is the date of its Julian day number: [jd2gc] inverts [gc2jd]
    without overflow. *)
Lemma julian_roundtrip d m y :
  gregorian d m y = true -> year_ok y -> jd2gc (gc2jd d m y) = (d, m, y).
Proof. apply jd2gc_gc2jd. Qed.

Section Arithmetic.
Context (daylight : bool).

(** The date of the day number of a calendar date. *)
Lemma sync_julian_date_ok d m y :
  gregorian d m y = true -> year_ok y ->
  let x := sync_julian_date daylight (jd_of d m y) in date_ok x /\ (day_ x, month_ x, year_ x) = (d, m, y).
Proof.
  intros Hg Hy. destruct (gregorian_bounds _ _ _ Hg) as [Hm Hd]. unfold sync_julian_date.
  rewrite <- gc2jd_jd_of by done. rewrite jd2gc_gc2jd by done. cbn. split; [|done]. split_and!; try done.
  apply (is_leapyear_leap y). unfold year_ok in Hy. lia.
Qed.

Definition add (n : nat) (x : Z * Z * Z) : Z * Z * Z := Nat.iter n next_day x.

Lemma add_days_iterates n d m y d' m' y' :
  gregorian d m y = true -> add n (d, m, y) = (d', m', y') ->
  gregorian d' m' y' = true /\ jd_of d' m' y' = jd_of d m y + Z.of_nat n /\ y <= y'.
Proof.
  revert d' m' y'. induction n as [|n IH]; intros d' m' y' Hg Hn.
  { cbn in Hn. simplify_eq. split_and!; [done | lia | lia]. }
  unfold add in Hn. rewrite Nat.iter_succ in Hn. fold (add n (d, m, y)) in Hn.
  destruct (add n (d, m, y)) as [[d1 m1] y1] eqn:E. destruct (IH d1 m1 y1 Hg eq_refl) as (Hg1 & Hj & Hy1).
  pose proof (jd_of_next _ _ _ _ _ _ Hg1 Hn) as Hj'. destruct (next_day_gregorian _ _ _ _ _ _ Hg1 Hn) as [Hg' Hy'].
  split_and!; [done | lia | lia].
Qed.

(** Adding [n] days to a date counts [n] days forward in the Gregorian
    calendar, over ends of months and years and leap days; the result is a
    proper date, [difference] is [n], and the comparison operators order the
    two dates accordingly. *)
Lemma add_days_counts x n d' m' y' :
  date_ok x -> add n (day_ x, month_ x, year_ x) = (d', m', y') -> y' <= 1000000 ->
  let x' := add_days daylight (Z.of_nat n) x in
  date_ok x' /\ (day_ x', month_ x', year_ x') = (d', m', y') /\ difference x x' = Z.of_nat n
  /\ less x x' = (0 <? Z.of_nat n) /\ equal x x' = (Z.of_nat n =? 0)
  /\ (n = 1%nat -> increment daylight x = x').
Proof.
  intros (Hg & Hy & Hj & Hl) Hn Hy'. destruct (add_days_iterates n _ _ _ _ _ _ Hg Hn) as (Hg' & Hjd & Hle).
  unfold year_ok in Hy. assert (year_ok y') as Hyk by (unfold year_ok; lia).
  destruct (gregorian_bounds _ _ _ Hg) as [Hm Hd]. rewrite gc2jd_jd_of in Hj by done.
  pose proof (jd_of_bounds _ _ _ Hg Hy). pose proof (jd_of_bounds _ _ _ Hg' Hyk).
  assert (julian_date_ x + Z.of_nat n = jd_of d' m' y') as E by lia.
  unfold add_days. rewrite s32_small by lia. rewrite E.
  destruct (sync_julian_date_ok d' m' y' Hg' Hyk) as [Hok Hd'].
  set (x' := sync_julian_date daylight (jd_of d' m' y')) in *.
  assert (julian_date_ x' = jd_of d' m' y') as Hx'.
  { unfold x', sync_julian_date. by destruct (jd2gc _) as [[? ?] ?]. }
  cbn zeta. split_and!; try done; unfold difference, less, equal; rewrite ?Hx', <- ?E.
  - rewrite s32_small by lia. lia.
  - apply eq_true_iff_eq. rewrite !Z.ltb_lt. lia.
  - apply eq_true_iff_eq. rewrite !Z.eqb_eq. lia.
  - intros ->. unfold increment. rewrite s32_small by lia. change (Z.of_nat 1) with 1 in E. by rewrite E.
Qed.

(** [is_valid_date] accepts exactly the dates of the Gregorian calendar
    other than the 29th of February, and only those are accepted by the
    constructor and the setters of [date], which then yield a proper date. *)
Lemma valid_date_exact d m y :
  0 <= y ->
  is_valid_date y m d = gregorian d m y && negb ((m =? 2) && (d =? 29))
  /\ match sync_date daylight d m y with
     | Ok x => year_ok y -> date_ok x
     | Throw e => e = logic_error "date isn't valid" /\ is_valid_date y m d = false
     end.
Proof.
  intros Hy.
  assert (is_valid_date y m d = gregorian d m y && negb ((m =? 2) && (d =? 29))) as E.
  { unfold is_valid_date, gregorian. destruct ((m <? 1) || (12 <? m)) eqn:Em.
    { apply orb_true_iff in Em as [Em | Em]; breflect.
      - by rewrite (proj2 (Z.leb_gt 1 m)) by lia.
      - rewrite (proj2 (Z.leb_gt m 12)) by lia. by rewrite andb_false_r. }
    breflect. assert (nth (Z.to_nat (m - 1)) month_days 0 = if m =? 2 then 28 else days_in_month 0 m) as ->.
    { assert (forallb (fun m => nth (Z.to_nat (m - 1)) month_days 0 =? if m =? 2 then 28 else days_in_month 0 m) (range 1 12) = true) as Hn by reflexivity.
      rewrite forallb_forall in Hn. specialize (Hn m (elem_of_range m 1 12 ltac:(lia))). by breflect. }
    rewrite is_leapyear_leap by done. unfold days_in_month. destruct (m =? 2) eqn:E2; cbn [andb].
    - destruct (leap y); by zbool.
    - by zbool. }
  split; [exact E |]. unfold sync_date. destruct (is_valid_date y m d) eqn:Ev; cbn [negb]; [|done].
  intros Hyk. symmetry in E. breflect. split_and!; try done; try apply Hyk. by apply is_leapyear_leap.
Qed.
End Arithmetic.

(** Splitting a number of seconds into hours, minutes and seconds is undone
    by [time2seconds], and minutes and seconds are less than 60. *)
Lemma seconds_roundtrip s h mi se :
  0 <= s < 2 ^ 31 -> seconds2time s = (h, mi, se) ->
  time2seconds h mi se = s /\ 0 <= mi < 60 /\ 0 <= se < 60.
Proof.
  intros Hs E. unfold seconds2time in E.
  pose proof (Z.div_mod s 3600 ltac:(lia)). pose proof (Z.mod_pos_bound s 3600 ltac:(lia)).
  rewrite (u32_small (3600 * _)) in E by lia. rewrite (u32_small (s - _)) in E by lia.
  pose proof (Z.div_mod (s - 3600 * (s / 3600)) 60 ltac:(lia)). pose proof (Z.mod_pos_bound (s - 3600 * (s / 3600)) 60 ltac:(lia)).
  rewrite (u32_small (60 * _)) in E by lia. rewrite (u32_small (_ - _ - _)) in E by lia. simplify_eq.
  unfold time2seconds. rewrite (u32_small (_ * 3600)), (u32_small (60 * _)) by lia. rewrite u32_small, s32_small by lia. lia.
Qed.

(** ** Examples *)

Definition new_year : date := sync_julian_date false 2459580.

Lemma new_year_ok : date_ok new_year /\ (day_ new_year, month_ new_year, year_ new_year) = (31, 12, 2021).
Proof. split; [|reflexivity]. vm_compute. split_and!; reflexivity || discriminate. Qed.

Lemma julian_roundtrip_witness : jd2gc (gc2jd 29 2 2000) = (29, 2, 2000).
Proof. apply julian_roundtrip; [reflexivity | unfold year_ok; lia]. Defined.

Lemma add_days_counts_witness :
  let x := add_days false 60 new_year in (day_ x, month_ x, year_ x) = (1, 3, 2022) /\ difference new_year x = 60.
Proof.
  destruct (add_days_counts false new_year 60 1 3 2022 (proj1 new_year_ok)) as (_ & H1 & H2 & _).
  - vm_compute. reflexivity.
  - lia.
  - split; [exact H1 | exact H2].
Defined.

Lemma valid_date_exact_witness : is_valid_date 2000 2 29 = false /\ gregorian 29 2 2000 = true.
Proof.
  split; [|reflexivity]. destruct (valid_date_exact false 29 2 2000) as [H _]; [lia |]. rewrite H. reflexivity.
Defined.

End Date.
