(* ===== verification/Base64.v ===== *)
(** * Base64

    Model of [base64] (src/utils/base64.cpp): encoding with the standard and
    the URL alphabet and decoding, pack by pack. *)

From S2P Require Import Prelude.

Local Open Scope cxx_scope.

Module Base64.
Local Open Scope Z_scope.

Inductive base64_type := BASE64 | BASE64URL.

#[export] Instance base64_type_eq_dec : EqDecision base64_type.
Proof. solve_decision. Defined.

Definition code_base (t : base64_type) : str :=
  lit "ABCDEFGHIJKLMNOPQRSTUVWXYZabcdefghijklmnopqrstuvwxyz0123456789"
  ++ match t with BASE64 => lit "+/" | BASE64URL => lit "-_" end.

Definition char_map2 : list Z :=
  [62;  0;  62; 0; 64;
   52; 53; 54; 55; 56; 57; 58; 59; 60; 61;
   0;  0;  0;  0;  0;  0;  0;
   0;  1;  2;  3;  4;  5;  6;  7;  8;  9; 10;
   11; 12; 13; 14; 15; 16; 17; 18; 19; 20; 21;
   22; 23; 24; 25;
   0;  0;  0;  0; 63;  0;
   26; 27; 28; 29; 30; 31; 32; 33; 34; 35; 36;
   37; 38; 39; 40; 41; 42; 43; 44; 45; 46; 47;
   48; 49; 50; 51].

Definition char_offset : Z := 43.

(** [encode_pack(in, range_max, codebase, result)]: what is appended. *)
Definition encode_pack (in0 in1 in2 : Z) (range_max : nat) (codebase : str) : str :=
  let out :=
    [Z.shiftr (Z.land in0 252) 2;
     Z.shiftl (Z.land in0 3) 4 + Z.shiftr (Z.land in1 240) 4;
     Z.shiftl (Z.land in1 15) 2 + Z.shiftr (Z.land in2 192) 6;
     Z.land in2 63] in
  (fun o => nth (Z.to_nat o) codebase NUL) <$> take range_max out.

(** The bytes go to packs of three; the last pack is filled with zeros. *)
Fixpoint encode (s : str) (t : base64_type) : str :=
  let fill_char := match t with BASE64 => "="%char | BASE64URL => "."%char end in
  match s with
  | [] => []
  | [a] => encode_pack (code a) 0 0 2 (code_base t) ++ [fill_char; fill_char]
  | [a; b] => encode_pack (code a) (code b) 0 3 (code_base t) ++ [fill_char]
  | a :: b :: c :: s => encode_pack (code a) (code b) (code c) 4 (code_base t) ++ encode s t
  end.

(** [char_map2[c - char_offset]]. *)
Definition char_value (c : ascii) : result Z :=
  let i := code c - char_offset in
  if (i <? 0) || (Z.of_nat (length char_map2) <=? i) then Throw (undefined_behaviour "index out of bounds")
  else Ok (nth (Z.to_nat i) char_map2 0).

(** [decode_pack(in, result)]: zero bytes are left out. *)
Definition decode_pack (in0 in1 in2 in3 : ascii) : result str :=
  let? m0 := char_value in0 in
  let? m1 := char_value in1 in
  let? m2 := char_value in2 in
  let? m3 := char_value in3 in
  let out :=
    [u8 (Z.shiftl m0 2 + Z.shiftr (Z.land m1 48) 4);
     u8 (Z.shiftl (Z.land m1 15) 4 + Z.shiftr (Z.land m2 60) 2);
     u8 (Z.shiftl (Z.land m2 3) 6 + m3)] in
  Ok (chr <$> filter (fun o => o <> 0) out).

(** A pack that is not complete is ignored. *)
Fixpoint decode (s : str) : result str :=
  match s with
  | a :: b :: c :: d :: s => let? x := decode_pack a b c d in let? r := decode s in Ok (x ++ r)
  | _ => Ok []
  end.

(** ** Packs *)

Definition byte_facts (x : Z) : bool :=
  (Z.shiftr (Z.land x 252) 2 =? x / 4) && (Z.shiftl (Z.land x 3) 4 =? x mod 4 * 16)
  && (Z.shiftr (Z.land x 240) 4 =? x / 16) && (Z.shiftl (Z.land x 15) 2 =? x mod 16 * 4)
  && (Z.shiftr (Z.land x 192) 6 =? x / 64) && (Z.land x 63 =? x mod 64).

Definition sextet_facts (t : base64_type) (x : Z) : bool :=
  (Z.shiftr (Z.land x 48) 4 =? x / 16) && (Z.shiftl (Z.land x 15) 4 =? x mod 16 * 16)
  && (Z.shiftr (Z.land x 60) 2 =? x / 4) && (Z.shiftl (Z.land x 3) 6 =? x mod 4 * 64) && (Z.shiftl x 2 =? x * 4)
  && (bool_decide (char_value (nth (Z.to_nat x) (code_base t) NUL) = Ok x)
      || (bool_decide (t = BASE64) && (x =? 63))).

Lemma below (n : nat) (f : Z -> bool) x : forallb (fun i => f (Z.of_nat i)) (seq 0 n) = true -> 0 <= x < Z.of_nat n -> f x = true.
Proof.
  intros H Hx. rewrite forallb_forall in H. rewrite <- (Z2Nat.id x) by lia. apply H, in_seq. lia.
Qed.

Lemma byte_facts_all x : 0 <= x < 256 -> byte_facts x = true.
Proof. apply (below 256). vm_compute. reflexivity. Qed.

Lemma sextet_facts_all t x : 0 <= x < 64 -> sextet_facts t x = true.
Proof. destruct t; apply (below 64); vm_compute; reflexivity. Qed.

(** The four values of three bytes. *)
Definition sextets (a b c : Z) : list Z := [a / 4; a mod 4 * 16 + b / 16; b mod 16 * 4 + c / 64; c mod 64].

Lemma sextets_range a b c : 0 <= a < 256 -> 0 <= b < 256 -> 0 <= c < 256 -> Forall (fun x => 0 <= x < 64) (sextets a b c).
Proof. intros Ha Hb Hc. repeat constructor; Z.to_euclidean_division_equations; lia. Qed.

Lemma encode_pack_sextets a b c n cb :
  0 <= a < 256 -> 0 <= b < 256 -> 0 <= c < 256 ->
  encode_pack a b c n cb = (fun o => nth (Z.to_nat o) cb NUL) <$> take n (sextets a b c).
Proof.
  intros Ha Hb Hc. unfold encode_pack, sextets.
  pose proof (byte_facts_all a Ha) as Fa. pose proof (byte_facts_all b Hb) as Fb. pose proof (byte_facts_all c Hc) as Fc.
  unfold byte_facts in *. breflect. do 2 f_equal. repeat f_equal; lia.
Qed.

(** A character that is decoded as the value it encodes. *)
Definition decodes (t : base64_type) (x : Z) : Prop := t = BASE64URL \/ x <> 63.

Lemma char_value_sextet t x : 0 <= x < 64 -> decodes t x -> char_value (nth (Z.to_nat x) (code_base t) NUL) = Ok x.
Proof.
  intros Hx Hd. pose proof (sextet_facts_all t x Hx) as F. unfold sextet_facts in F. apply andb_true_iff in F as [_ F].
  apply orb_true_iff in F as [F | F]; breflect; [done |]. subst. destruct Hd; [congruence | lia].
Qed.

Lemma decode_pack_sextets c0 c1 c2 c3 a b c s0 s1 s2 s3 :
  0 <= a < 256 -> 0 <= b < 256 -> 0 <= c < 256 -> sextets a b c = [s0; s1; s2; s3] ->
  char_value c0 = Ok s0 -> char_value c1 = Ok s1 -> char_value c2 = Ok s2 -> char_value c3 = Ok s3 ->
  decode_pack c0 c1 c2 c3 = Ok (chr <$> filter (fun o => o <> 0) [a; b; c]).
Proof.
  intros Ha Hb Hc E H0 H1 H2 H3. unfold decode_pack. rewrite H0, H1, H2, H3. cbn [rbind].
  pose proof (sextets_range a b c Ha Hb Hc) as Hr. rewrite E in Hr.
  apply Forall_cons_1 in Hr as [R0 Hr]. apply Forall_cons_1 in Hr as [R1 Hr]. apply Forall_cons_1 in Hr as [R2 Hr].
  pose proof (sextet_facts_all BASE64URL s0 R0) as F0. pose proof (sextet_facts_all BASE64URL s1 R1) as F1.
  pose proof (sextet_facts_all BASE64URL s2 R2) as F2. unfold sextet_facts in *.
  apply andb_true_iff in F0 as [F0 _], F1 as [F1 _], F2 as [F2 _]. breflect. unfold sextets in E. simplify_eq.
  assert (forall x, 0 <= x < 256 -> u8 x = x) as Hu by (intros; by apply wrap_small).
  do 4 f_equal; [| f_equal; [|f_equal]].
  - rewrite Hu; Z.to_euclidean_division_equations; lia.
  - rewrite Hu; Z.to_euclidean_division_equations; lia.
  - rewrite Hu; Z.to_euclidean_division_equations; lia.
Qed.

Lemma filter_bytes (l : str) : chr <$> filter (fun o => o <> 0) (code <$> l) = filter (fun c => c <> NUL) l.
Proof.
  induction l as [|c l IH]; [done |]. rewrite fmap_cons, !filter_cons.
  assert (code c <> 0 <-> c <> NUL) as E by (by_chars c).
  destruct (decide (c <> NUL)) as [H | H].
  - rewrite decide_True by (by apply E). rewrite fmap_cons, IH. by rewrite chr_code.
  - rewrite decide_False by (by rewrite E). exact IH.
Qed.

(** ** Round trip *)

Definition fill (t : base64_type) : ascii := match t with BASE64 => "="%char | BASE64URL => "."%char end.

Lemma char_value_fill t : char_value (fill t) = Ok 0.
Proof. by destruct t. Qed.

(** A pack of which the first [n] characters are written and the others, which
    stand for zeros, are filled. *)
Lemma decode_encode_pack t a b c n rest :
  0 <= a < 256 -> 0 <= b < 256 -> 0 <= c < 256 -> (2 <= n <= 4)%nat ->
  ((n <= 2)%nat -> b = 0) -> ((n <= 3)%nat -> c = 0) -> Forall (decodes t) (take n (sextets a b c)) ->
  decode (encode_pack a b c n (code_base t) ++ replicate (4 - n) (fill t) ++ rest)
  = let? r := decode rest in Ok ((chr <$> filter (fun o => o <> 0) [a; b; c]) ++ r).
Proof.
  intros Ha Hb Hc Hn Hb0 Hc0 Hd. rewrite encode_pack_sextets by done.
  pose proof (sextets_range a b c Ha Hb Hc) as Hr. destruct (sextets a b c) as [|s0 [|s1 [|s2 [|s3 [|]]]]] eqn:E; try done.
  apply Forall_cons_1 in Hr as [R0 Hr]. apply Forall_cons_1 in Hr as [R1 Hr]. apply Forall_cons_1 in Hr as [R2 Hr].
  apply Forall_cons_1 in Hr as [R3 _].
  assert (n = 2 \/ n = 3 \/ n = 4)%nat as [-> | [-> | ->]] by lia.
  - assert (b = 0) as -> by (apply Hb0; lia). assert (c = 0) as -> by (apply Hc0; lia).
    assert (s2 = 0) as -> by (unfold sextets in E; by simplify_eq). assert (s3 = 0) as -> by (unfold sextets in E; by simplify_eq).
    cbn [take fmap list_fmap app replicate Nat.sub decode] in Hd |- *. apply Forall_cons_1 in Hd as [D0 Hd]. apply Forall_cons_1 in Hd as [D1 _].
    by rewrite (decode_pack_sextets _ _ _ _ a 0 0 s0 s1 0 0) by auto using char_value_sextet, char_value_fill.
  - assert (c = 0) as -> by (apply Hc0; lia). assert (s3 = 0) as -> by (unfold sextets in E; by simplify_eq).
    cbn [take fmap list_fmap app replicate Nat.sub decode] in Hd |- *. apply Forall_cons_1 in Hd as [D0 Hd]. apply Forall_cons_1 in Hd as [D1 Hd]. apply Forall_cons_1 in Hd as [D2 _].
    by rewrite (decode_pack_sextets _ _ _ _ a b 0 s0 s1 s2 0) by auto using char_value_sextet, char_value_fill.
  - cbn [take fmap list_fmap app replicate Nat.sub decode] in Hd |- *. apply Forall_cons_1 in Hd as [D0 Hd]. apply Forall_cons_1 in Hd as [D1 Hd]. apply Forall_cons_1 in Hd as [D2 Hd].
    apply Forall_cons_1 in Hd as [D3 _].
    by rewrite (decode_pack_sextets _ _ _ _ a b c s0 s1 s2 s3) by auto using char_value_sextet.
Qed.

(** No slash in what is written. *)
Lemma pack_decodes t a b c n (s : str) :
  0 <= a < 256 -> 0 <= b < 256 -> 0 <= c < 256 ->
  encode_pack a b c n (code_base t) ⊆ s -> t = BASE64URL \/ ("/"%char ∉ s) -> Forall (decodes t) (take n (sextets a b c)).
Proof.
  intros Ha Hb Hc Hsub Hs. apply list.Forall_forall. intros x Hx. destruct Hs as [-> | Hs]; [by left |].
  destruct t; [|by left]. right. intros ->. apply Hs, Hsub. rewrite encode_pack_sextets by done.
  apply list_elem_of_fmap. by exists 63.
Qed.

Lemma decode_encode t s :
  t = BASE64URL \/ ("/"%char ∉ encode s t) -> decode (encode s t) = Ok (filter (fun c => c <> NUL) s).
Proof.
  remember (length s) as n eqn:En. revert s En. induction (lt_wf n) as [n _ IH]. intros s -> Hs.
  pose proof code_range as R. destruct s as [|a [|b [|c s]]]; [done | | |].
  - assert (Forall (decodes t) (take 2 (sextets (code a) 0 0))) as Hd.
    { eapply (pack_decodes t (code a) 0 0 2); [auto | lia | lia | | exact Hs]. cbn [encode]. set_solver. }
    etrans; [exact (decode_encode_pack t (code a) 0 0 2 [] (R a) ltac:(lia) ltac:(lia) ltac:(lia) ltac:(done) ltac:(done) Hd) |].
    cbn [rbind decode]. rewrite app_nil_r, <- filter_bytes. cbn [fmap list_fmap]. by rewrite !filter_cons; repeat case_decide.
  - assert (Forall (decodes t) (take 3 (sextets (code a) (code b) 0))) as Hd.
    { eapply (pack_decodes t (code a) (code b) 0 3); [auto | auto | lia | | exact Hs]. cbn [encode]. set_solver. }
    etrans; [exact (decode_encode_pack t (code a) (code b) 0 3 [] (R a) (R b) ltac:(lia) ltac:(lia) ltac:(lia) ltac:(done) Hd) |].
    cbn [rbind decode]. rewrite app_nil_r, <- filter_bytes. cbn [fmap list_fmap]. by rewrite !filter_cons; repeat case_decide.
  - change (encode (a :: b :: c :: s) t) with (encode_pack (code a) (code b) (code c) 4 (code_base t) ++ encode s t) in *.
    assert (Forall (decodes t) (take 4 (sextets (code a) (code b) (code c)))) as Hd.
    { eapply (pack_decodes t (code a) (code b) (code c) 4); [auto.. | | exact Hs]. set_solver. }
    etrans; [exact (decode_encode_pack t (code a) (code b) (code c) 4 (encode s t) (R a) (R b) (R c) ltac:(lia) ltac:(lia) ltac:(lia) Hd) |].
    rewrite (IH (length s)); [|simpl; lia | done | destruct Hs; [by left | right; set_solver]].
    cbn [rbind]. f_equal. change (a :: b :: c :: s) with ([a; b; c] ++ s). rewrite list.filter_app. f_equal. apply (filter_bytes [a; b; c]).
Qed.

(** Decoding what was encoded with the URL alphabet gives the bytes back,
    but without the zero bytes. *)
Lemma base64url_roundtrip s : decode (encode s BASE64URL) = Ok (filter (fun c => c <> NUL) s).
Proof. apply decode_encode. by left. Qed.

(** Decoding what was encoded with the standard alphabet gives the bytes
    back without the zero bytes, provided no slash was written. *)
Lemma base64_roundtrip s :
  "/"%char ∉ encode s BASE64 -> decode (encode s BASE64) = Ok (filter (fun c => c <> NUL) s).
Proof. intros Hs. apply decode_encode. by right. Qed.

Lemma base64_roundtrip_witness : decode (encode (lit "matador") BASE64) = Ok (lit "matador").
Proof.
  apply (base64_roundtrip (lit "matador")).
  refine (bool_decide_eq_true_1 (~ _) _). vm_compute. reflexivity.
Defined.

(** The slash is decoded as 64. *)
Example slash_decoded_wrongly :
  encode (lit "???") BASE64 = lit "Pz8/" /\ decode (lit "Pz8/") = Ok (lit "??@").
Proof. split; vm_compute; reflexivity. Qed.

Example zero_byte_lost : decode (encode [NUL; "a"%char; NUL] BASE64) = Ok (lit "a").
Proof. vm_compute. reflexivity. Qed.

(** A character outside of the alphabets is looked up outside of the table. *)
Example blank_out_of_bounds : decode (lit "YWJj YQ=") = Throw (undefined_behaviour "index out of bounds").
Proof. vm_compute. reflexivity. Qed.

End Base64.
