(* ===== verification/Sha256.v ===== *)
(** * SHA-256 and HMAC

    The hash function of utils/sha256 as it is written: a context with a block
    buffer that is fed in pieces, macros on 32-bit words, an array for the
    message schedule; and utils/hmac on top of it. The reference is the
    definition of FIPS 180-4 on whole messages ([fips_digest]) and that of
    RFC 2104 for the keyed digest. A context that was fed any pieces yields
    the digest of their concatenation, as long as the message has less than
    2^29 bytes: the length in bits is kept in 32 bits. *)
From S2P Require Import Prelude.
Local Open Scope cxx_scope.

Module Sha256.
Local Open Scope Z_scope.

(** ** Memory

    Bytes are numbers below 256. Reading and writing outside of an array is
    undefined. *)
Definition mem_read (src : list Z) (from n : Z) : result (list Z) :=
  if (0 <=? from) && (0 <=? n) && (from + n <=? Z.of_nat (length src))
  then Ok (take (Z.to_nat n) (drop (Z.to_nat from) src))
  else Throw (undefined_behaviour "read outside of an array").

Definition mem_write (dst : list Z) (pos : Z) (bs : list Z) : result (list Z) :=
  if (0 <=? pos) && (pos + Z.of_nat (length bs) <=? Z.of_nat (length dst))
  then Ok (take (Z.to_nat pos) dst ++ bs ++ drop (Z.to_nat pos + length bs) dst)
  else Throw (undefined_behaviour "write outside of an array").

Definition memcpy (dst : list Z) (pos : Z) (src : list Z) (from n : Z) : result (list Z) :=
  let? bs := mem_read src from n in mem_write dst pos bs.

Definition memset (dst : list Z) (pos value n : Z) : result (list Z) :=
  mem_write dst pos (replicate (Z.to_nat n) value).

(** A loop over the values of its counter. *)
Fixpoint for_loop {A B} (body : A -> B -> result A) (js : list B) (a : A) : result A :=
  match js with
  | [] => Ok a
  | j :: js => let? a := body a j in for_loop body js a
  end.

(** ** The macros *)
Definition add32 (x y : Z) : Z := u32 (x + y).
Definition SHA2_SHFR (x n : Z) : Z := Z.shiftr x n.
Definition SHA2_ROTR (x n : Z) : Z := Z.lor (Z.shiftr x n) (u32 (Z.shiftl x (32 - n))).
Definition SHA2_CH (x y z : Z) : Z := Z.lxor (Z.land x y) (Z.land (u32 (Z.lnot x)) z).
Definition SHA2_MAJ (x y z : Z) : Z := Z.lxor (Z.lxor (Z.land x y) (Z.land x z)) (Z.land y z).
Definition SHA256_F1 (x : Z) : Z := Z.lxor (Z.lxor (SHA2_ROTR x 2) (SHA2_ROTR x 13)) (SHA2_ROTR x 22).
Definition SHA256_F2 (x : Z) : Z := Z.lxor (Z.lxor (SHA2_ROTR x 6) (SHA2_ROTR x 11)) (SHA2_ROTR x 25).
Definition SHA256_F3 (x : Z) : Z := Z.lxor (Z.lxor (SHA2_ROTR x 7) (SHA2_ROTR x 18)) (SHA2_SHFR x 3).
Definition SHA256_F4 (x : Z) : Z := Z.lxor (Z.lxor (SHA2_ROTR x 17) (SHA2_ROTR x 19)) (SHA2_SHFR x 10).

(** The four bytes of a word, the highest first. *)
Definition SHA2_UNPACK32 (x : Z) : list Z :=
  [u8 (Z.shiftr x 24); u8 (Z.shiftr x 16); u8 (Z.shiftr x 8); u8 x].

Definition SHA2_PACK32 (s : list Z) : result Z :=
  match s with
  | [b0; b1; b2; b3] =>
    Ok (Z.lor (Z.lor (Z.lor b3 (Z.shiftl b2 8)) (Z.shiftl b1 16)) (Z.shiftl b0 24))
  | _ => Throw (undefined_behaviour "read outside of an array")
  end.

Definition sha256_k : list Z :=
  [0x428a2f98; 0x71374491; 0xb5c0fbcf; 0xe9b5dba5]
  ++ [0x3956c25b; 0x59f111f1; 0x923f82a4; 0xab1c5ed5]
  ++ [0xd807aa98; 0x12835b01; 0x243185be; 0x550c7dc3]
  ++ [0x72be5d74; 0x80deb1fe; 0x9bdc06a7; 0xc19bf174]
  ++ [0xe49b69c1; 0xefbe4786; 0x0fc19dc6; 0x240ca1cc]
  ++ [0x2de92c6f; 0x4a7484aa; 0x5cb0a9dc; 0x76f988da]
  ++ [0x983e5152; 0xa831c66d; 0xb00327c8; 0xbf597fc7]
  ++ [0xc6e00bf3; 0xd5a79147; 0x06ca6351; 0x14292967]
  ++ [0x27b70a85; 0x2e1b2138; 0x4d2c6dfc; 0x53380d13]
  ++ [0x650a7354; 0x766a0abb; 0x81c2c92e; 0x92722c85]
  ++ [0xa2bfe8a1; 0xa81a664b; 0xc24b8b70; 0xc76c51a3]
  ++ [0xd192e819; 0xd6990624; 0xf40e3585; 0x106aa070]
  ++ [0x19a4c116; 0x1e376c08; 0x2748774c; 0x34b0bcb5]
  ++ [0x391c0cb3; 0x4ed8aa4a; 0x5b9cca4f; 0x682e6ff3]
  ++ [0x748f82ee; 0x78a5636f; 0x84c87814; 0x8cc70208]
  ++ [0x90befffa; 0xa4506ceb; 0xbef9a3f7; 0xc67178f2].

(** ** The context *)
Record SHA256 := mkSHA256 {
  m_tot_len : Z;
  m_len : Z;
  m_block : list Z;
  m_h : list Z }.

Definition SHA224_256_BLOCK_SIZE : Z := 64.
Definition DIGEST_SIZE : Z := 32.

(** [SHA256()]: every member is zero. *)
Definition value_init : SHA256 := mkSHA256 0 0 (replicate 128 0) (replicate 8 0).

Definition init_h : list Z :=
  [0x6a09e667; 0xbb67ae85; 0x3c6ef372; 0xa54ff53a; 0x510e527f; 0x9b05688c; 0x1f83d9ab; 0x5be0cd19].

Definition init (c : SHA256) : SHA256 := mkSHA256 0 0 (m_block c) init_h.

(** Reading a local array: an element that was not written is indeterminate. *)
Definition word_at (w : list (option Z)) (j : nat) : result Z :=
  match w !! j with
  | Some (Some x) => Ok x
  | _ => Throw (undefined_behaviour "indeterminate value")
  end.

Definition elem_at (l : list Z) (j : nat) : result Z :=
  match l !! j with
  | Some x => Ok x
  | None => Throw (undefined_behaviour "read outside of an array")
  end.

(** The loops over [w]. *)
Definition load_word (message : list Z) (i : nat) (w : list (option Z)) (j : nat) : result (list (option Z)) :=
  let? s := mem_read message (Z.of_nat (i * 64 + j * 4)) 4 in
  let? x := SHA2_PACK32 s in
  Ok (<[j := Some x]> w).

Definition extend_word (w : list (option Z)) (j : nat) : result (list (option Z)) :=
  let? w2 := word_at w (j - 2) in
  let? w7 := word_at w (j - 7) in
  let? w15 := word_at w (j - 15) in
  let? w16 := word_at w (j - 16) in
  Ok (<[j := Some (add32 (add32 (add32 (SHA256_F4 w2) w7) (SHA256_F3 w15)) w16)]> w).

(** One pass of the loop over [wv]. *)
Definition round (w : list (option Z)) (wv : list Z) (j : nat) : result (list Z) :=
  let? wv0 := elem_at wv 0 in
  let? wv1 := elem_at wv 1 in
  let? wv2 := elem_at wv 2 in
  let? wv4 := elem_at wv 4 in
  let? wv5 := elem_at wv 5 in
  let? wv6 := elem_at wv 6 in
  let? wv7 := elem_at wv 7 in
  let? kj := elem_at sha256_k j in
  let? wj := word_at w j in
  let t1 := add32 (add32 (add32 (add32 wv7 (SHA256_F2 wv4)) (SHA2_CH wv4 wv5 wv6)) kj) wj in
  let t2 := add32 (SHA256_F1 wv0) (SHA2_MAJ wv0 wv1 wv2) in
  let? x := elem_at wv 6 in let wv := <[7%nat := x]> wv in
  let? x := elem_at wv 5 in let wv := <[6%nat := x]> wv in
  let? x := elem_at wv 4 in let wv := <[5%nat := x]> wv in
  let? x := elem_at wv 3 in let wv := <[4%nat := add32 x t1]> wv in
  let? x := elem_at wv 2 in let wv := <[3%nat := x]> wv in
  let? x := elem_at wv 1 in let wv := <[2%nat := x]> wv in
  let? x := elem_at wv 0 in let wv := <[1%nat := x]> wv in
  Ok (<[0%nat := add32 t1 t2]> wv).

(** [transform(message, block_nb)]; [w] keeps its contents from one block to
    the next. *)
Definition transform_block (message : list Z) (s : list (option Z) * list Z) (i : nat)
  : result (list (option Z) * list Z) :=
  let '(w, h) := s in
  let? w := for_loop (load_word message i) (seq 0 16) w in
  let? w := for_loop extend_word (seq 16 48) w in
  let? wv := for_loop (round w) (seq 0 64) h in
  Ok (w, zip_with add32 h wv).

Definition transform (h message : list Z) (block_nb : Z) : result (list Z) :=
  let? s := for_loop (transform_block message) (seq 0 (Z.to_nat block_nb)) (replicate 64 None, h) in
  Ok s.2.

Definition update (c : SHA256) (message : list Z) (len : Z) : result SHA256 :=
  let tmp_len := u32 (SHA224_256_BLOCK_SIZE - m_len c) in
  let rem_len := if len <? tmp_len then len else tmp_len in
  let? block := memcpy (m_block c) (m_len c) message 0 rem_len in
  if u32 (m_len c + len) <? SHA224_256_BLOCK_SIZE
  then Ok (mkSHA256 (m_tot_len c) (u32 (m_len c + len)) block (m_h c))
  else
    let new_len := u32 (len - rem_len) in
    let block_nb := new_len / SHA224_256_BLOCK_SIZE in
    let? shifted_message := mem_read message rem_len (Z.of_nat (length message) - rem_len) in
    let? h := transform (m_h c) block 1 in
    let? h := transform h shifted_message block_nb in
    let rem_len := new_len mod SHA224_256_BLOCK_SIZE in
    let? block := memcpy block 0 shifted_message (u32 (Z.shiftl block_nb 6)) rem_len in
    Ok (mkSHA256 (u32 (m_tot_len c + u32 (Z.shiftl (u32 (block_nb + 1)) 6))) rem_len block h).

(** [final] yields the bytes it writes to [digest]. *)
Definition final (c : SHA256) : result (SHA256 * list Z) :=
  let block_nb := 1 + (if SHA224_256_BLOCK_SIZE - 9 <? m_len c mod SHA224_256_BLOCK_SIZE then 1 else 0) in
  let len_b := u32 (Z.shiftl (u32 (m_tot_len c + m_len c)) 3) in
  let pm_len := u32 (Z.shiftl block_nb 6) in
  let? block := memset (m_block c) (m_len c) 0 (u32 (pm_len - m_len c)) in
  let? block := mem_write block (m_len c) [0x80] in
  let? block := mem_write block (pm_len - 4) (SHA2_UNPACK32 len_b) in
  let? h := transform (m_h c) block block_nb in
  Ok (mkSHA256 (m_tot_len c) (m_len c) block h, concat (SHA2_UNPACK32 <$> h)).

(** ** The functions *)
Definition bytes_of (s : str) : list Z := code <$> s.

(** [sha256(input, length, digest, hash_size)]. *)
Definition sha256_digest (input : list Z) (length : Z) : result (list Z) :=
  let ctx := init value_init in
  let? ctx := update ctx input (u32 length) in
  let? p := final ctx in
  Ok p.2.

(** [sprintf("%02x", b)]. *)
Definition hex_digit (d : Z) : ascii := if d <? 10 then chr (48 + d) else chr (87 + d).
Definition hex_byte (b : Z) : str := [hex_digit (b / 16); hex_digit (b mod 16)].

(** [sha256(input, length)]. *)
Definition sha256_n (input : list Z) (length : Z) : result str :=
  let? digest := sha256_digest input length in
  Ok (concat (hex_byte <$> digest)).

(** [sha256(std::string)]; the data of a string are followed by a zero. *)
Definition sha256 (input : str) : result str := sha256_n (bytes_of input ++ [0]) (Z.of_nat (length input)).

(** [strlen]. *)
Fixpoint strlen (s : list Z) : result Z :=
  match s with
  | [] => Throw (undefined_behaviour "read outside of an array")
  | b :: s => if b =? 0 then Ok 0 else let? n := strlen s in Ok (n + 1)
  end.

(** [sha256(const char* )]. *)
Definition sha256_c (input : list Z) : result str :=
  let? n := strlen input in sha256_n input n.

(** [strcpy]. *)
Definition strcpy (dst src : list Z) : result (list Z) :=
  let? n := strlen src in memcpy dst 0 src 0 (n + 1).

(** [hmac(key, keylen, message, msglen)]. *)
Definition hmac_n (key : list Z) (keylen : Z) (message : list Z) (msglen : Z) : result str :=
  let BLOCK_SIZE := 64 in
  let HASH_SIZE := 32 in
  let keystr := replicate 64 0 in
  let? keystr :=
    if BLOCK_SIZE <? keylen then
      let? enc := sha256_c key in memcpy keystr 0 (bytes_of enc) 0 BLOCK_SIZE
    else if keylen <? BLOCK_SIZE then
      let? keystr := strcpy keystr key in memset keystr keylen 0 (BLOCK_SIZE - keylen)
    else memcpy keystr 0 key 0 keylen in
  let o_key_pad := zip_with Z.lxor (replicate 64 0x5c) keystr in
  let i_key_pad := zip_with Z.lxor (replicate 64 0x36) keystr in
  let tmplen := BLOCK_SIZE + msglen in
  let tmp1 := replicate (Z.to_nat (BLOCK_SIZE + tmplen)) 0 in
  let? tmp1 := memcpy tmp1 0 i_key_pad 0 BLOCK_SIZE in
  let? tmp1 := memcpy tmp1 BLOCK_SIZE message 0 msglen in
  let? h1 := sha256_digest tmp1 tmplen in
  let tmp2 := replicate (Z.to_nat (BLOCK_SIZE * HASH_SIZE)) 0 in
  let? tmp2 := memcpy tmp2 0 o_key_pad 0 BLOCK_SIZE in
  let? tmp2 := memcpy tmp2 BLOCK_SIZE h1 0 HASH_SIZE in
  sha256_n tmp2 (BLOCK_SIZE + HASH_SIZE).

(** [hmac(key, message)]. *)
Definition hmac (key message : str) : result str :=
  hmac_n (bytes_of key ++ [0]) (Z.of_nat (length key)) (bytes_of message ++ [0]) (Z.of_nat (length message)).

(** ** The reference: FIPS 180-4

    A message is padded to whole blocks; each block is expanded to a schedule
    of 64 words and compressed into the hash value. *)
Definition shr (n x : Z) : Z := x / 2 ^ n.
Definition rotr (n x : Z) : Z := x / 2 ^ n + (x mod 2 ^ n) * 2 ^ (32 - n).
Definition Ch (x y z : Z) : Z := Z.lxor (Z.land x y) (Z.land (2 ^ 32 - 1 - x) z).
Definition Maj (x y z : Z) : Z := Z.lxor (Z.lxor (Z.land x y) (Z.land x z)) (Z.land y z).
Definition Sigma0 (x : Z) : Z := Z.lxor (Z.lxor (rotr 2 x) (rotr 13 x)) (rotr 22 x).
Definition Sigma1 (x : Z) : Z := Z.lxor (Z.lxor (rotr 6 x) (rotr 11 x)) (rotr 25 x).
Definition sigma0 (x : Z) : Z := Z.lxor (Z.lxor (rotr 7 x) (rotr 18 x)) (shr 3 x).
Definition sigma1 (x : Z) : Z := Z.lxor (Z.lxor (rotr 17 x) (rotr 19 x)) (shr 10 x).

(** Numbers as bytes, the highest first. *)
Fixpoint be_bytes (n : nat) (x : Z) : list Z :=
  match n with
  | O => []
  | S n => (x / 256 ^ Z.of_nat n) mod 256 :: be_bytes n x
  end.
Definition be_value (bs : list Z) : Z := foldl (fun v b => v * 256 + b) 0 bs.

Definition fips_pad (m : list Z) : list Z :=
  m ++ 128 :: replicate (Z.to_nat ((55 - Z.of_nat (length m)) mod 64)) 0
    ++ be_bytes 8 (8 * Z.of_nat (length m)).

Definition block_words (block : list Z) : list Z :=
  (fun j => be_value (take 4 (drop (4 * j) block))) <$> seq 0 16.
Definition next_word (w : list Z) (t : nat) : Z :=
  (sigma1 (w !!! (t - 2)%nat) + w !!! (t - 7)%nat + sigma0 (w !!! (t - 15)%nat) + w !!! (t - 16)%nat) mod 2 ^ 32.
Definition schedule (block : list Z) : list Z :=
  foldl (fun w t => w ++ [next_word w t]) (block_words block) (seq 16 48).

Definition fips_round (W : list Z) (s : list Z) (t : nat) : list Z :=
  match s with
  | [a; b; c; d; e; f; g; h] =>
    let T1 := h + Sigma1 e + Ch e f g + sha256_k !!! t + W !!! t in
    let T2 := Sigma0 a + Maj a b c in
    [(T1 + T2) mod 2 ^ 32; a; b; c; (d + T1) mod 2 ^ 32; e; f; g]
  | _ => s
  end.
Definition compress (H block : list Z) : list Z :=
  zip_with (fun x y => (x + y) mod 2 ^ 32) H (foldl (fips_round (schedule block)) H (seq 0 64)).

Definition block_at (m : list Z) (i : nat) : list Z := take 64 (drop (64 * i) m).
Definition fips_hash (H m : list Z) (n : nat) : list Z := foldl (fun H i => compress H (block_at m i)) H (seq 0 n).
Definition fips_digest (m : list Z) : list Z :=
  concat (be_bytes 4 <$> fips_hash init_h (fips_pad m) (length (fips_pad m) / 64)).

(** RFC 2104: a key longer than a block is replaced by its digest. *)
Definition rfc_hmac (key m : list Z) : list Z :=
  let key := if (64 <? length key)%nat then fips_digest key else key in
  let k := key ++ replicate (64 - length key) 0 in
  fips_digest ((Z.lxor 0x5c <$> k) ++ fips_digest ((Z.lxor 0x36 <$> k) ++ m)).

(** ** Words *)
Abbreviation word x := (0 <= x < 2 ^ 32).
Abbreviation byte x := (0 <= x < 256).

Lemma u32_word x : word (u32 x).
Proof. apply wrap_range. lia. Qed.

Lemma lor_shiftl a b n : 0 <= n -> 0 <= a < 2 ^ n -> Z.lor a (Z.shiftl b n) = a + b * 2 ^ n.
Proof.
  intros Hn Ha. rewrite <- Z.shiftl_mul_pow2 by done. pose proof (Z.add_lor_land a (Z.shiftl b n)) as E.
  assert (Z.land a (Z.shiftl b n) = 0) as H0; [|lia].
  apply Z.bits_inj'. intros i Hi. rewrite Z.land_spec, Z.bits_0, Z.shiftl_spec by done.
  destruct (Z.lt_ge_cases i n).
  - rewrite (Z.testbit_neg_r b) by lia. apply andb_false_r.
  - rewrite <- (Z.mod_small a (2 ^ n)) by done. by rewrite Z.mod_pow2_bits_high by lia.
Qed.

Lemma SHA2_ROTR_rotr x n : word x -> 0 < n < 32 -> SHA2_ROTR x n = rotr n x.
Proof.
  intros Hx Hn. unfold SHA2_ROTR, rotr, u32, wrap. rewrite Z.shiftr_div_pow2, (Z.shiftl_mul_pow2 x) by lia.
  assert (2 ^ 32 = 2 ^ n * 2 ^ (32 - n)) as E by (rewrite <- Z.pow_add_r by lia; f_equal; lia).
  rewrite E, Z.mul_mod_distr_r by (apply Z.pow_nonzero; lia).
  rewrite <- (Z.shiftl_mul_pow2 (x mod _)) by lia. rewrite lor_shiftl; [|lia|].
  - by rewrite Z.shiftl_mul_pow2 by lia.
  - split; [apply Z.div_pos; lia |]. apply Z.div_lt_upper_bound; lia.
Qed.

Lemma SHA2_CH_Ch x y z : word x -> SHA2_CH x y z = Ch x y z.
Proof.
  intros Hx. unfold SHA2_CH, Ch. do 2 f_equal. unfold u32, wrap, Z.lnot.
  symmetry. apply Z.mod_unique_pos with (-1); lia.
Qed.

Lemma SHA256_Sigma0 x : word x -> SHA256_F1 x = Sigma0 x.
Proof. intros Hx. unfold SHA256_F1, Sigma0. by rewrite !SHA2_ROTR_rotr by (done || lia). Qed.
Lemma SHA256_Sigma1 x : word x -> SHA256_F2 x = Sigma1 x.
Proof. intros Hx. unfold SHA256_F2, Sigma1. by rewrite !SHA2_ROTR_rotr by (done || lia). Qed.
Lemma SHA256_sigma0 x : word x -> SHA256_F3 x = sigma0 x.
Proof.
  intros Hx. unfold SHA256_F3, sigma0, SHA2_SHFR, shr. by rewrite !SHA2_ROTR_rotr, Z.shiftr_div_pow2 by (done || lia).
Qed.
Lemma SHA256_sigma1 x : word x -> SHA256_F4 x = sigma1 x.
Proof.
  intros Hx. unfold SHA256_F4, sigma1, SHA2_SHFR, shr. by rewrite !SHA2_ROTR_rotr, Z.shiftr_div_pow2 by (done || lia).
Qed.

(** A chain of additions wraps once. *)
Lemma add32_l a b c : add32 (add32 a b) c = add32 a (b + c).
Proof. unfold add32, u32, wrap. rewrite Zplus_mod_idemp_l. f_equal. lia. Qed.
Lemma add32_r a b c : add32 a (add32 b c) = add32 a (b + c).
Proof. unfold add32, u32, wrap. by rewrite Zplus_mod_idemp_r. Qed.
Ltac add32_chain :=
  solve [ rewrite ?add32_l, ?add32_r; unfold add32, u32, wrap; f_equal; ring
        | rewrite ?add32_r, ?add32_l; unfold add32, u32, wrap; f_equal; ring ].

Lemma SHA2_PACK32_value s : length s = 4%nat -> Forall (fun b => byte b) s ->
  SHA2_PACK32 s = Ok (be_value s) /\ word (be_value s).
Proof.
  destruct s as [|b0 [|b1 [|b2 [|b3 [|]]]]]; try done. intros _ H. rewrite !Forall_cons_iff in H. destruct H as (H0 & H1 & H2 & H3 & _).
  unfold be_value. cbn [foldl SHA2_PACK32]. split; [|lia]. rewrite (lor_shiftl b3), (lor_shiftl _ b1), lor_shiftl by lia. f_equal. lia.
Qed.

Lemma SHA2_UNPACK32_bytes x : SHA2_UNPACK32 x = be_bytes 4 x.
Proof.
  unfold SHA2_UNPACK32, u8, wrap. cbn [be_bytes]. rewrite !Z.shiftr_div_pow2 by lia.
  change (256 ^ Z.of_nat 0) with 1. by rewrite Z.div_1_r.
Qed.

(** ** The schedule *)
Lemma mem_read_ok src from n : 0 <= from -> 0 <= n -> from + n <= Z.of_nat (length src) ->
  mem_read src from n = Ok (take (Z.to_nat n) (drop (Z.to_nat from) src)).
Proof. intros H1 H2 H3. unfold mem_read. by rewrite !(proj2 (Z.leb_le _ _)) by done. Qed.

Lemma mem_write_ok dst pos bs : 0 <= pos -> pos + Z.of_nat (length bs) <= Z.of_nat (length dst) ->
  mem_write dst pos bs = Ok (take (Z.to_nat pos) dst ++ bs ++ drop (Z.to_nat pos + length bs) dst).
Proof. intros H1 H2. unfold mem_write. by rewrite !(proj2 (Z.leb_le _ _)) by done. Qed.

Lemma for_loop_app {A B} (body : A -> B -> result A) l k a :
  for_loop body (l ++ k) a = rbind (for_loop body l a) (for_loop body k).
Proof. revert a. induction l as [|j l IH]; intros a; [done |]. cbn. destruct (body a j); cbn; [apply IH | done]. Qed.

(** Where a loop writes the elements of an array in order. *)
Lemma insert_next {A} (l : list (option A)) x y r : <[length l := x]> (l ++ y :: r) = (l ++ [x]) ++ r.
Proof. rewrite insert_app_r_alt by done. by rewrite Nat.sub_diag, <- app_assoc. Qed.

Definition word_of_block (block : list Z) (j : nat) : Z := be_value (take 4 (drop (4 * j) block)).

Lemma block_read message i j : (j < 16)%nat -> (i * 64 + 64 <= length message)%nat ->
  take 4 (drop (i * 64 + j * 4) message) = take 4 (drop (4 * j) (block_at message i)).
Proof.
  intros Hj Hi. unfold block_at. rewrite skipn_firstn_comm, take_take, drop_drop. f_equal; [lia | f_equal; lia].
Qed.

Lemma block_at_length m i : (i * 64 + 64 <= length m)%nat -> length (block_at m i) = 64%nat.
Proof. intros H. unfold block_at. rewrite length_take, length_drop. lia. Qed.

Lemma word_of_block_word block j : Forall (fun b => byte b) block -> length block = 64%nat -> (j < 16)%nat ->
  SHA2_PACK32 (take 4 (drop (4 * j) block)) = Ok (word_of_block block j) /\ word (word_of_block block j).
Proof.
  intros Hb Hl Hj. apply SHA2_PACK32_value; [|by apply Forall_take, Forall_drop].
  rewrite length_take, length_drop. lia.
Qed.

Lemma load_words message i n r : (n <= 16)%nat -> (i * 64 + 64 <= length message)%nat -> length r = 64%nat ->
  Forall (fun b => byte b) message ->
  for_loop (load_word message i) (seq 0 n) r
    = Ok ((Some <$> (word_of_block (block_at message i) <$> seq 0 n)) ++ drop n r).
Proof.
  intros Hn Hi Hr Hb. induction n as [|n IH]; [done |].
  rewrite seq_S, for_loop_app, IH by lia. cbn [rbind for_loop Nat.add].
  unfold load_word at 1. rewrite mem_read_ok by lia. cbn [rbind].
  change (Z.to_nat 4) with 4%nat. rewrite Nat2Z.id, block_read by lia.
  destruct (word_of_block_word (block_at message i) n) as [-> _]; [by apply Forall_take, Forall_drop | by apply block_at_length | lia |].
  cbn [rbind]. f_equal. destruct (drop n r) as [|y r'] eqn:E.
  { apply (f_equal length) in E. rewrite length_drop in E. cbn in E. lia. }
  assert (drop (S n) r = r') as ->.
  { replace (S n) with (n + 1)%nat by lia. by rewrite <- drop_drop, E. }
  rewrite !fmap_app. cbn [fmap list_fmap].
  rewrite <- insert_next with (y := y). f_equal. by rewrite !length_fmap, length_seq.
Qed.

Lemma word_at_app W r j : (j < length W)%nat -> word_at ((Some <$> W) ++ r) j = Ok (W !!! j).
Proof.
  intros Hj. unfold word_at. rewrite lookup_app_l by (by rewrite length_fmap). rewrite list_lookup_fmap.
  destruct (W !! j) as [x|] eqn:E; [|apply lookup_ge_None in E; lia]. cbn. by rewrite (list_lookup_total_correct _ _ _ E).
Qed.

Lemma lookup_total_word W j : Forall (fun x => word x) W -> (j < length W)%nat -> word (W !!! j).
Proof. intros HW Hj. eapply (Forall_lookup_1 _ _ _ _ HW). by apply list_lookup_lookup_total_lt. Qed.

Lemma extend_words n W r : (16 <= length W)%nat -> length r = n -> Forall (fun x => word x) W ->
  let W' := foldl (fun w t => w ++ [next_word w t]) W (seq (length W) n) in
  for_loop extend_word (seq (length W) n) ((Some <$> W) ++ r) = Ok (Some <$> W')
  /\ Forall (fun x => word x) W' /\ length W' = (length W + n)%nat.
Proof.
  revert W r. induction n as [|n IH]; intros W r HW Hr Hw; cbn [seq foldl for_loop].
  { apply nil_length_inv in Hr as ->. rewrite app_nil_r. split_and!; [done | done | lia]. }
  destruct r as [|y r]; [done |]. injection Hr as Hr.
  assert (extend_word ((Some <$> W) ++ y :: r) (length W) = Ok ((Some <$> (W ++ [next_word W (length W)])) ++ r)) as ->.
  { unfold extend_word. rewrite !word_at_app by lia. cbn [rbind].
    rewrite SHA256_sigma0, SHA256_sigma1 by (apply lookup_total_word; [done | lia]). f_equal.
    rewrite fmap_app. cbn [fmap list_fmap]. rewrite <- insert_next with (y := y). rewrite length_fmap. do 2 f_equal. unfold next_word. add32_chain. }
  cbn [rbind]. assert (S (length W) = length (W ++ [next_word W (length W)])) as E by (rewrite length_app; cbn; lia).
  rewrite E. destruct (IH (W ++ [next_word W (length W)]) r) as (H1 & H2 & H3); [lia | done | |].
  - apply Forall_app. split; [done |]. apply Forall_singleton, Z.mod_pos_bound. lia.
  - split_and!; [done | done | rewrite H3, <- E; lia].
Qed.

Lemma schedule_loaded message i r : (i * 64 + 64 <= length message)%nat -> length r = 64%nat ->
  Forall (fun b => byte b) message ->
  rbind (for_loop (load_word message i) (seq 0 16) r) (for_loop extend_word (seq 16 48))
    = Ok (Some <$> schedule (block_at message i))
  /\ Forall (fun x => word x) (schedule (block_at message i)) /\ length (schedule (block_at message i)) = 64%nat.
Proof.
  intros Hi Hr Hb. rewrite load_words by done. cbn [rbind].
  destruct (extend_words 48 (block_words (block_at message i)) (drop 16 r)) as (H1 & H2 & H3); try done.
  - rewrite length_drop. lia.
  - apply Forall_fmap, Forall_seq. intros j Hj. apply word_of_block_word; [by apply Forall_take, Forall_drop | by apply block_at_length | lia].
Qed.

(** ** The compression *)
Lemma round_fips W wv j : length W = 64%nat -> Forall (fun x => word x) W -> (j < 64)%nat ->
  length wv = 8%nat -> Forall (fun x => word x) wv ->
  round (Some <$> W) wv j = Ok (fips_round W wv j)
  /\ length (fips_round W wv j) = 8%nat /\ Forall (fun x => word x) (fips_round W wv j).
Proof.
  intros HW Hw Hj Hl Hv. destruct wv as [|a [|b [|c [|d [|e [|f [|g [|h [|]]]]]]]]]; try done.
  rewrite !Forall_cons_iff in Hv. destruct Hv as (Ha & Hb & Hc & Hd & He & Hf & Hg & Hh & _).
  split_and!; [|done|].
  - unfold round. cbn [elem_at lookup list_lookup rbind]. unfold elem_at.
    rewrite (list_lookup_lookup_total_lt sha256_k) by exact Hj. cbn [rbind].
    rewrite <- (app_nil_r (Some <$> W)), word_at_app by lia.
    cbn [rbind insert list_insert lookup list_lookup fips_round].
    rewrite SHA256_Sigma0, SHA256_Sigma1, SHA2_CH_Ch by done. f_equal. unfold SHA2_MAJ, Maj.
    f_equal; [add32_chain |]. do 3 f_equal. f_equal. add32_chain.
  - unfold fips_round. pose proof (Z.mod_pos_bound) as M. repeat constructor; try (done || apply M; lia); lia || (apply M; lia).
Qed.

Lemma rounds_fips W wv js : length W = 64%nat -> Forall (fun x => word x) W -> Forall (fun j => j < 64)%nat js ->
  length wv = 8%nat -> Forall (fun x => word x) wv ->
  for_loop (round (Some <$> W)) js wv = Ok (foldl (fips_round W) wv js)
  /\ length (foldl (fips_round W) wv js) = 8%nat.
Proof.
  intros HW Hw Hj. revert wv. induction Hj as [|j js Hj Hjs IH]; intros wv Hl Hv; cbn [for_loop foldl]; [done |].
  destruct (round_fips W wv j) as (-> & H2 & H3); [done.. |]. cbn [rbind]. by apply IH.
Qed.

Lemma zip_with_words x y : Forall (fun x => word x) (zip_with add32 x y).
Proof. revert y. induction x as [|a x IH]; intros [|b y]; cbn; constructor; [apply u32_word | done]. Qed.

Lemma compress_add32 H b : compress H b = zip_with add32 H (foldl (fips_round (schedule b)) H (seq 0 64)).
Proof. unfold compress. by generalize (foldl (fips_round (schedule b)) H (seq 0 64)). Qed.

Lemma rbind_Ok_l {A B} (a : A) (k : A -> result B) : rbind (Ok a) k = k a.
Proof. done. Qed.

Lemma transform_block_unfold message w h i :
  transform_block message (w, h) i =
  rbind (rbind (for_loop (load_word message i) (seq 0 16) w) (for_loop extend_word (seq 16 48)))
    (fun w => rbind (for_loop (round w) (seq 0 64) h) (fun wv => Ok (w, zip_with add32 h wv))).
Proof.
  unfold transform_block. generalize (seq 0 16) (seq 16 48) (seq 0 64). intros l1 l2 l3.
  by destruct (for_loop (load_word message i) l1 w).
Qed.

Lemma transform_block_compress message w h i : (i * 64 + 64 <= length message)%nat -> length w = 64%nat ->
  Forall (fun b => byte b) message -> length h = 8%nat -> Forall (fun x => word x) h ->
  exists w', length w' = 64%nat /\ transform_block message (w, h) i = Ok (w', compress h (block_at message i))
    /\ length (compress h (block_at message i)) = 8%nat /\ Forall (fun x => word x) (compress h (block_at message i)).
Proof.
  intros Hi Hw Hb Hl Hh. destruct (schedule_loaded message i w Hi Hw Hb) as (H1 & H2 & H3).
  exists (Some <$> schedule (block_at message i)). split; [by rewrite length_fmap |].
  destruct (rounds_fips (schedule (block_at message i)) h (seq 0 64)) as (H4 & H5); [done.. | | done | done |].
  { apply Forall_seq. lia. }
  rewrite compress_add32. split_and!; [|rewrite length_zip_with, H5; lia | apply zip_with_words].
  rewrite transform_block_unfold, H1, rbind_Ok_l. cbv beta. by rewrite H4, rbind_Ok_l.
Qed.

Lemma transform_hash h message n : (n * 64 <= length message)%nat -> Forall (fun b => byte b) message ->
  length h = 8%nat -> Forall (fun x => word x) h ->
  transform h message (Z.of_nat n) = Ok (fips_hash h message n)
  /\ length (fips_hash h message n) = 8%nat /\ Forall (fun x => word x) (fips_hash h message n).
Proof.
  intros Hn Hb Hl Hh. unfold transform. rewrite Nat2Z.id.
  assert (exists w', length w' = 64%nat
    /\ for_loop (transform_block message) (seq 0 n) (replicate 64 None, h) = Ok (w', fips_hash h message n)
    /\ length (fips_hash h message n) = 8%nat /\ Forall (fun x => word x) (fips_hash h message n)) as (w' & _ & -> & ?); [|done].
  induction n as [|n IH]; [by exists (replicate 64 None) |].
  destruct IH as (w & Hw & E & H1 & H2); [lia |]. unfold fips_hash. rewrite seq_S, for_loop_app, E, foldl_app. cbn [rbind for_loop foldl Nat.add].
  destruct (transform_block_compress message w (fips_hash h message n) n) as (w' & Hw' & E' & H3 & H4); [lia | done.. |].
  exists w'. rewrite E'. done.
Qed.

(** ** Whole blocks of a message *)
#[local] Opaque compress.

Lemma fips_hash_S h m n : fips_hash h m (S n) = compress (fips_hash h m n) (block_at m n).
Proof. unfold fips_hash. by rewrite seq_S, foldl_app. Qed.

Lemma block_at_ext m m' n : take (64 * S n) m = take (64 * S n) m' -> block_at m n = block_at m' n.
Proof.
  intros E. unfold block_at. apply (f_equal (drop (64 * n))) in E. rewrite !skipn_firstn_comm in E.
  by replace (64 * S n - 64 * n)%nat with 64%nat in E by lia.
Qed.

Lemma take_eq_le {A} (l l' : list A) i j : (i <= j)%nat -> take j l = take j l' -> take i l = take i l'.
Proof. intros Hi E. apply (f_equal (take i)) in E. by rewrite !take_take, Nat.min_l in E by done. Qed.

Lemma fips_hash_ext h m m' n : take (64 * n) m = take (64 * n) m' -> fips_hash h m n = fips_hash h m' n.
Proof.
  induction n as [|n IH]; intros E; [reflexivity |]. rewrite !fips_hash_S, (block_at_ext _ _ _ E), IH; [reflexivity |].
  eapply take_eq_le; [|exact E]. lia.
Qed.

Lemma fips_hash_split h a b n k : length a = (64 * k)%nat ->
  fips_hash h (a ++ b) (k + n) = fips_hash (fips_hash h a k) b n.
Proof.
  intros Ha. rewrite <- (fips_hash_ext h (a ++ b) a k).
  2: { by rewrite take_app_le by lia. }
  induction n as [|n IH]; [by rewrite Nat.add_0_r |].
  rewrite Nat.add_succ_r, !fips_hash_S, IH.
  assert (block_at (a ++ b) (k + n) = block_at b n) as ->; [|reflexivity].
  unfold block_at. rewrite drop_app_ge by lia. do 2 f_equal. lia.
Qed.

(** ** The context stands for a message *)
Record stands_for (c : SHA256) (m done part rest : list Z) : Prop := {
  sf_message : m = done ++ part;
  sf_part : m_len c = Z.of_nat (length part);
  sf_short : (length part < 64)%nat;
  sf_done : exists k, length done = (64 * k)%nat /\ m_h c = fips_hash init_h done k;
  sf_total : m_tot_len c = Z.of_nat (length done);
  sf_block : m_block c = part ++ rest;
  sf_size : length (m_block c) = 128%nat;
  sf_bytes : Forall (fun b => byte b) m /\ Forall (fun b => byte b) rest;
  sf_hash : length (m_h c) = 8%nat /\ Forall (fun x => word x) (m_h c) }.

Definition represents (c : SHA256) (m : list Z) : Prop := exists done part rest, stands_for c m done part rest.

Lemma init_represents c : length (m_block c) = 128%nat -> Forall (fun b => byte b) (m_block c) -> represents (init c) [].
Proof.
  intros Hl Hb. exists [], [], (m_block c). split; try done; [cbn; lia | by exists 0%nat |].
  split; [done |]. apply (bool_decide_unpack _). vm_compute. exact I.
Qed.

Lemma mem_write_mid a b c bs pos : pos = Z.of_nat (length a) -> length b = length bs ->
  mem_write (a ++ b ++ c) pos bs = Ok (a ++ bs ++ c).
Proof.
  intros -> Hb. rewrite mem_write_ok, Nat2Z.id by (rewrite ?length_app; lia). f_equal.
  rewrite take_app_length. do 2 f_equal. rewrite <- drop_drop, drop_app_length, <- Hb. apply drop_app_length.
Qed.

Lemma memcpy_mid a b c x bs y pos from n : pos = Z.of_nat (length a) -> length b = length bs ->
  from = Z.of_nat (length x) -> n = Z.of_nat (length bs) ->
  memcpy (a ++ b ++ c) pos (x ++ bs ++ y) from n = Ok (a ++ bs ++ c).
Proof.
  intros Hp Hb -> ->. unfold memcpy. rewrite mem_read_ok, !Nat2Z.id by (rewrite ?length_app; lia).
  rewrite drop_app_length, take_app_length. cbn [rbind]. by apply mem_write_mid.
Qed.

Lemma memcpy_front a b c bs y pos n : pos = Z.of_nat (length a) -> length b = length bs -> n = Z.of_nat (length bs) ->
  memcpy (a ++ b ++ c) pos (bs ++ y) 0 n = Ok (a ++ bs ++ c).
Proof. intros Hp Hb Hn. by apply (memcpy_mid a b c [] bs y). Qed.

Lemma memcpy_all a b c bs pos n : pos = Z.of_nat (length a) -> length b = length bs -> n = Z.of_nat (length bs) ->
  memcpy (a ++ b ++ c) pos bs 0 n = Ok (a ++ bs ++ c).
Proof. intros Hp Hb Hn. pose proof (memcpy_front a b c bs [] pos n Hp Hb Hn) as E. by rewrite app_nil_r in E. Qed.

Lemma memcpy_start dst x bs y from n : (length bs <= length dst)%nat -> from = Z.of_nat (length x) -> n = Z.of_nat (length bs) ->
  memcpy dst 0 (x ++ bs ++ y) from n = Ok (bs ++ drop (length bs) dst).
Proof.
  intros Hd Hf Hn. rewrite <- (take_drop (length bs) dst) at 1. apply (memcpy_mid []); try done. rewrite length_take. lia.
Qed.

Lemma memcpy_start0 dst bs y n : (length bs <= length dst)%nat -> n = Z.of_nat (length bs) ->
  memcpy dst 0 (bs ++ y) 0 n = Ok (bs ++ drop (length bs) dst).
Proof. intros Hd Hn. by apply (memcpy_start dst [] bs y). Qed.

(** [update] when the block is not filled. *)
Lemma update_short c m msg extra : represents c m -> Forall (fun b => byte b) msg ->
  m_len c + Z.of_nat (length msg) < 64 ->
  exists c', update c (msg ++ extra) (Z.of_nat (length msg)) = Ok c' /\ represents c' (m ++ msg).
Proof.
  intros (d & part & rest & [Hm Hp Hs (k & Hk & Hh) Ht Hb Hz [By Br] HH]) Hmsg Hlt. unfold update.
  assert (SHA224_256_BLOCK_SIZE = 64) as -> by done.
  unfold u32. rewrite (wrap_small 32 (64 - m_len c)) by lia. rewrite (proj2 (Z.ltb_lt _ _)) by lia.
  rewrite Hb, length_app in Hz. assert (length rest = 128 - length part)%nat as Hr by lia.
  rewrite Hb. rewrite <- (take_drop (length msg) rest).
  rewrite memcpy_front; [|by rewrite Hp | rewrite length_take; lia | done].
  cbn [rbind]. rewrite (wrap_small 32 (m_len c + _)) by lia. rewrite (proj2 (Z.ltb_lt _ _)) by lia.
  eexists. split; [done |]. exists d, (part ++ msg), (drop (length msg) rest).
  split; cbn; [by rewrite Hm, app_assoc | rewrite length_app; lia | rewrite length_app; lia | by exists k | done | by rewrite app_assoc
    | rewrite !length_app, length_drop; lia | | done].
  split; [by apply Forall_app | by apply Forall_drop].
Qed.

Lemma mem_read_tail x y : mem_read (x ++ y) (Z.of_nat (length x)) (Z.of_nat (length (x ++ y)) - Z.of_nat (length x)) = Ok y.
Proof.
  rewrite mem_read_ok by (rewrite ?length_app; lia). rewrite Nat2Z.id, drop_app_length. f_equal.
  apply take_ge. rewrite length_app. lia.
Qed.

Lemma represents_hash h m k : length h = 8%nat -> Forall (fun x => word x) h -> Forall (fun b => byte b) m ->
  (64 * k <= length m)%nat -> length (fips_hash h m k) = 8%nat /\ Forall (fun x => word x) (fips_hash h m k).
Proof. intros H1 H2 H3 H4. apply transform_hash; [lia | done..]. Qed.

(** [update] when the block is filled: the bytes are [fill], which completes
    the block, [nb] blocks [mid] and the [tail] that goes to the buffer. *)
Lemma update_long c m fill mid tail extra nb : represents c m ->
  Forall (fun b => byte b) (fill ++ mid ++ tail) -> Forall (fun b => byte b) extra ->
  m_len c + Z.of_nat (length fill) = 64 -> length mid = (64 * nb)%nat -> (length tail < 64)%nat ->
  Z.of_nat (length (m ++ fill ++ mid ++ tail)) < 2 ^ 29 ->
  exists c', update c (fill ++ mid ++ tail ++ extra) (Z.of_nat (length (fill ++ mid ++ tail))) = Ok c'
    /\ represents c' (m ++ fill ++ mid ++ tail).
Proof.
  intros (d & part & rest & [Hm Hp Hs (k & Hk & Hh) Ht Hb Hz [By Br] [HH1 HH2]]) Hmsg Hex Hfill Hmid Htail Hlen.
  rewrite Hm, !length_app in Hlen. unfold update, u32, SHA224_256_BLOCK_SIZE.
  rewrite (wrap_small 32 (64 - m_len c)) by lia. rewrite !length_app.
  replace (64 - m_len c) with (Z.of_nat (length fill)) by lia.
  destruct (Z.ltb_spec (Z.of_nat (length fill + (length mid + length tail))) (Z.of_nat (length fill))); [lia |].
  rewrite Hb, length_app in Hz. assert (length rest = 128 - length part)%nat as Hr by lia.
  rewrite Hb, <- (take_drop (length fill) rest).
  rewrite memcpy_front; [|by rewrite Hp | rewrite length_take; lia | done]. cbn [rbind].
  rewrite (wrap_small 32 (m_len c + _)) by lia. rewrite (proj2 (Z.ltb_ge _ 64)) by lia.
  rewrite (wrap_small 32 (_ - _)) by lia.
  replace (Z.of_nat (length fill + (length mid + length tail)) - Z.of_nat (length fill))
    with (Z.of_nat (length tail) + Z.of_nat nb * 64) by lia.
  rewrite Z.div_add, Z.mod_add, Z.div_small, Z.mod_small, Z.add_0_l by lia.
  rewrite <- !length_app, mem_read_tail. cbn [rbind].
  apply Forall_app in Hmsg as [F1 F2]. apply Forall_app in F2 as [F2 F3]. pose proof By as By'. rewrite Hm in By'. apply Forall_app in By' as [_ Bp].
  set (blk := part ++ fill ++ drop (length fill) rest).
  assert (length blk = 128%nat) as Hblk by (unfold blk; rewrite !length_app, length_drop; lia).
  assert (Forall (fun b => byte b) blk) as Bblk.
  { unfold blk. rewrite !Forall_app. split_and!; [done | done | by apply Forall_drop]. }
  destruct (transform_hash (m_h c) blk 1) as (E1 & L1 & W1); [lia | done.. |]. change (Z.of_nat 1) with 1 in E1. rewrite E1. cbn [rbind].
  destruct (transform_hash (fips_hash (m_h c) blk 1) (mid ++ tail ++ extra) nb) as (E2 & L2 & W2); [rewrite length_app; lia | | done | done |].
  { rewrite !Forall_app. done. }
  rewrite E2. cbn [rbind]. rewrite Z.shiftl_mul_pow2, (wrap_small 32 (_ * 2 ^ 6)) by lia.
  rewrite memcpy_start by (done || lia).
  cbn [rbind]. rewrite Z.shiftl_mul_pow2, (wrap_small 32 (Z.of_nat nb + 1)), (wrap_small 32 (_ * 2 ^ 6)), (wrap_small 32 (m_tot_len c + _)) by lia.
  eexists. split; [done |]. exists (d ++ (part ++ fill) ++ mid), tail, (drop (length tail) blk).
  assert (length (part ++ fill) = 64%nat) as Hpf by (rewrite length_app; lia).
  assert (fips_hash (fips_hash (m_h c) blk 1) (mid ++ tail ++ extra) nb = fips_hash init_h (d ++ (part ++ fill) ++ mid) (k + (1 + nb))) as EH.
  { rewrite fips_hash_split by done. rewrite <- Hh, fips_hash_split by done.
    rewrite (fips_hash_ext (m_h c) blk (part ++ fill)).
    2: { unfold blk. rewrite app_assoc, !take_app_le by lia. done. }
    apply fips_hash_ext. rewrite take_app_le, !take_ge by lia. done. }
  split; cbn [m_len m_tot_len m_block m_h]; [by rewrite Hm, <- !app_assoc | done | done | | rewrite !length_app in *; lia | done
    | rewrite length_app, length_drop; lia | | exact (conj L2 W2)].
  - exists (k + (1 + nb))%nat. split; [rewrite !length_app in *; lia | done].
  - split; [by rewrite !Forall_app | by apply Forall_drop].
Qed.

Lemma update_represents c m msg extra : represents c m -> Forall (fun b => byte b) (msg ++ extra) ->
  Z.of_nat (length (m ++ msg)) < 2 ^ 29 ->
  exists c', update c (msg ++ extra) (Z.of_nat (length msg)) = Ok c' /\ represents c' (m ++ msg).
Proof.
  intros Hc Hb Hl. pose proof Hb as [Hb1 Hb2]%Forall_app.
  destruct (Z.lt_ge_cases (m_len c + Z.of_nat (length msg)) 64) as [Hlt | Hge]; [by apply update_short |].
  pose proof Hc as (d & part & rest & [Hm Hp Hs _ _ _ _ _ _]).
  set (f := Z.to_nat (64 - m_len c)). set (nb := ((length msg - f) / 64)%nat).
  assert (64 * nb <= length msg - f /\ length msg - f - 64 * nb < 64)%nat as [Hn1 Hn2].
  { unfold nb. pose proof (Nat.div_mod_eq (length msg - f) 64). pose proof (Nat.mod_upper_bound (length msg - f) 64). lia. }
  assert (f <= length msg)%nat as Hf by lia.
  assert (msg = take f msg ++ take (64 * nb) (drop f msg) ++ drop (64 * nb) (drop f msg)) as E by by rewrite !take_drop.
  destruct (update_long c m (take f msg) (take (64 * nb) (drop f msg)) (drop (64 * nb) (drop f msg)) extra nb) as (c' & H1 & H2);
    rewrite <- ?E; try done.
  - rewrite length_take. lia.
  - rewrite length_take, length_drop. lia.
  - rewrite !length_drop. lia.
  - exists c'. rewrite !app_assoc, <- (app_assoc (take f msg)), <- E in H1. rewrite <- E in H2. done.
Qed.

(** ** The last block *)
Lemma be_bytes_8 x : 0 <= x < 2 ^ 32 -> be_bytes 8 x = replicate 4 0 ++ be_bytes 4 x.
Proof.
  intros Hx. cbn [be_bytes replicate app].
  assert (forall e, 4 <= e <= 7 -> (x / 256 ^ e) mod 256 = 0) as E.
  { intros e He. rewrite Z.div_small; [done |]. split; [lia |].
    apply Z.lt_le_trans with (256 ^ 4); [lia |]. apply Z.pow_le_mono_r; lia. }
  by rewrite !E by lia.
Qed.

Lemma be_bytes_byte n x : Forall (fun b => byte b) (be_bytes n x).
Proof. induction n as [|n IH]; cbn [be_bytes]; constructor; [apply Z.mod_pos_bound; lia | done]. Qed.

Lemma length_be_bytes n x : length (be_bytes n x) = n.
Proof. induction n as [|n IH]; cbn [be_bytes length]; lia. Qed.

(** The padding behind the bytes of the last block fills one or two blocks. *)
Lemma fips_pad_split d part : Forall (fun b => byte b) part -> (exists k, length d = 64 * k)%nat -> (length part < 64)%nat ->
  Z.of_nat (length (d ++ part)) < 2 ^ 29 ->
  let nb := if 55 <? Z.of_nat (length part) then 2%nat else 1%nat in
  exists z, fips_pad (d ++ part) = d ++ part ++ [128] ++ replicate z 0 ++ be_bytes 4 (8 * Z.of_nat (length (d ++ part)))
    /\ (length part + z + 5 = 64 * nb)%nat.
Proof.
  intros _ [k Hk] Hp Hl nb. set (z := Z.to_nat ((55 - Z.of_nat (length (d ++ part))) mod 64)). exists (z + 4)%nat. split.
  - unfold fips_pad. rewrite be_bytes_8 by lia. fold z. rewrite replicate_add, <- !app_assoc. done.
  - subst z nb. rewrite length_app, Hk.
    replace (55 - Z.of_nat (64 * k + length part)) with (55 - Z.of_nat (length part) + (- Z.of_nat k) * 64) by lia.
    rewrite Z.mod_add by lia. destruct (Z.ltb_spec 55 (Z.of_nat (length part))).
    + rewrite <- (Z.mod_unique_pos (55 - Z.of_nat (length part)) 64 (-1) (119 - Z.of_nat (length part))) by lia. lia.
    + rewrite Z.mod_small by lia. lia.
Qed.

Lemma final_represents c m : represents c m -> Z.of_nat (length m) < 2 ^ 29 ->
  exists c', final c = Ok (c', fips_digest m).
Proof.
  intros (d & part & rest & [Hm Hp Hs (k & Hk & Hh) Ht Hb Hz [By Br] [HH1 HH2]]) Hl. subst m.
  apply Forall_app in By as [Bd Bp]. rewrite length_app in Hl.
  destruct (fips_pad_split d part) as (z & Hpad & Hz'); [done | eauto | done | by rewrite length_app |].
  set (nb := if 55 <? Z.of_nat (length part) then 2%nat else 1%nat) in *.
  assert (nb = 1 \/ nb = 2)%nat as Hnb by (unfold nb; destruct (55 <? _); auto).
  unfold final, SHA224_256_BLOCK_SIZE, u32. rewrite Hp, Z.mod_small by lia.
  replace (1 + (if 64 - 9 <? Z.of_nat (length part) then 1 else 0)) with (Z.of_nat nb) by (unfold nb; change (64 - 9) with 55; by destruct (55 <? _)).
  rewrite !Z.shiftl_mul_pow2, (wrap_small 32 (Z.of_nat nb * _)), (wrap_small 32 (_ - _)) by lia.
  rewrite Ht, (wrap_small 32 (Z.of_nat (length d) + _)), (wrap_small 32 (_ * 2 ^ 3)) by lia.
  rewrite Hb, length_app in Hz. unfold memset.
  set (n := (64 * nb - length part)%nat). replace (Z.to_nat (Z.of_nat nb * 2 ^ 6 - Z.of_nat (length part))) with n by lia.
  rewrite Hb, <- (take_drop n rest), mem_write_mid; [|done | rewrite length_take, length_replicate; lia]. cbn [rbind].
  assert (replicate n 0 = [0] ++ replicate z 0 ++ replicate 4 0) as -> by (change [0] with (replicate 1 0); rewrite <- !replicate_add; f_equal; lia).
  rewrite <- !app_assoc.
  rewrite mem_write_mid by done. cbn [rbind].
  rewrite (app_assoc [128]), (app_assoc part), mem_write_mid; cycle 1.
  { rewrite !length_app, length_replicate. cbn [length]. lia. }
  { done. }
  cbn [rbind]. set (blk := _ ++ _ ++ drop n rest).
  assert (blk = (part ++ [128] ++ replicate z 0 ++ be_bytes 4 (8 * Z.of_nat (length (d ++ part)))) ++ drop n rest) as Eblk.
  { unfold blk. rewrite SHA2_UNPACK32_bytes, <- !app_assoc, length_app. do 5 f_equal. lia. }
  set (last := part ++ [128] ++ replicate z 0 ++ be_bytes 4 (8 * Z.of_nat (length (d ++ part)))) in *.
  assert (length last = 64 * nb)%nat as Hlast.
  { unfold last. rewrite !length_app, length_replicate, length_be_bytes. cbn [length]. lia. }
  assert (Forall (fun b => byte b) last) as Blast.
  { unfold last. rewrite !Forall_app. split_and!; [done | by repeat constructor | apply Forall_replicate; lia | apply be_bytes_byte]. }
  destruct (transform_hash (m_h c) blk nb) as (E & _); [rewrite Eblk, length_app; lia | | done | done |].
  { rewrite Eblk. apply Forall_app. split; [done | by apply Forall_drop]. }
  rewrite E. cbn [rbind]. eexists. f_equal. f_equal. unfold fips_digest. rewrite Hpad. fold last.
  replace (length (d ++ last) / 64)%nat with (k + nb)%nat.
  2: { rewrite length_app, Hk, Hlast, <- Nat.mul_add_distr_l, Nat.mul_comm. by rewrite Nat.div_mul. }
  rewrite fips_hash_split, <- Hh by done. rewrite (fips_hash_ext _ blk last).
  2: { by rewrite Eblk, take_app_le by lia. }
  f_equal. apply list_fmap_ext. intros j x _. apply SHA2_UNPACK32_bytes.
Qed.

(** ** The digests *)

(** A context that is fed one piece after the other. *)
Definition feed (c : SHA256) (pieces : list (list Z)) : result SHA256 :=
  for_loop (fun c p => update c p (Z.of_nat (length p))) pieces c.

Lemma feed_represents pieces c m : represents c m -> Forall (fun b => byte b) (concat pieces) ->
  Z.of_nat (length (m ++ concat pieces)) < 2 ^ 29 ->
  exists c', feed c pieces = Ok c' /\ represents c' (m ++ concat pieces).
Proof.
  unfold feed. revert c m. induction pieces as [|p ps IH]; intros c m Hc Hb Hl; cbn [concat for_loop] in *.
  { exists c. by rewrite app_nil_r. }
  apply Forall_app in Hb as [Hp Hps]. rewrite !length_app in Hl.
  destruct (update_represents c m p []) as (c1 & E1 & H1); [done | by rewrite app_nil_r | rewrite length_app; lia |].
  rewrite app_nil_r in E1. rewrite E1. cbn [rbind].
  destruct (IH c1 (m ++ p)) as (c2 & E2 & H2); [done | done | rewrite !length_app; lia |].
  exists c2. by rewrite app_assoc.
Qed.

(** C33: However a message of less than 2^29 bytes is cut into pieces, a
    context that is initialised and updated with the pieces in order yields
    the digest that FIPS 180-4 defines for the whole message, without reading
    or writing outside of its buffers. *)
Theorem sha256_pieces (c : SHA256) (pieces : list (list Z)) :
  length (m_block c) = 128%nat -> Forall (fun b => byte b) (m_block c) ->
  Forall (fun b => byte b) (concat pieces) -> Z.of_nat (length (concat pieces)) < 2 ^ 29 ->
  exists c1 c2, feed (init c) pieces = Ok c1 /\ final c1 = Ok (c2, fips_digest (concat pieces)).
Proof.
  intros Hl Hb Hp Hn. destruct (feed_represents pieces (init c) []) as (c1 & E & H); [by apply init_represents | done | done |].
  destruct (final_represents c1 _ H Hn) as (c2 & E2). eauto.
Qed.

Lemma sha256_pieces_witness :
  exists c1 c2, feed (init value_init) [bytes_of (lit "ab"); []; bytes_of (lit "c")] = Ok c1
    /\ final c1 = Ok (c2, fips_digest (bytes_of (lit "abc"))).
Proof.
  apply (sha256_pieces value_init [bytes_of (lit "ab"); []; bytes_of (lit "c")]).
  - reflexivity.
  - apply (bool_decide_unpack _). vm_compute. exact I.
  - apply (bool_decide_unpack _). vm_compute. exact I.
  - reflexivity.
Defined.

(** The digest of the first example of the standard. *)
Example fips_abc : concat (hex_byte <$> fips_digest (bytes_of (lit "abc")))
  = lit "ba7816bf8f01cfea414140de5dae2223b00361a396177a9cb410ff61f20015ad".
Proof. vm_compute. reflexivity. Qed.

Lemma sha256_digest_fips msg extra : Forall (fun b => byte b) (msg ++ extra) -> Z.of_nat (length msg) < 2 ^ 29 ->
  sha256_digest (msg ++ extra) (Z.of_nat (length msg)) = Ok (fips_digest msg).
Proof.
  intros Hb Hl. unfold sha256_digest. unfold u32. rewrite wrap_small by lia.
  destruct (update_represents (init value_init) [] msg extra) as (c1 & -> & H); [|done | done |].
  { apply init_represents; [done |]. apply (bool_decide_unpack _). vm_compute. exact I. }
  destruct (final_represents c1 _ H Hl) as (c2 & E). cbn [rbind]. by rewrite E.
Qed.

Lemma fips_digest_bytes m : Forall (fun b => byte b) (fips_digest m).
Proof.
  unfold fips_digest. generalize (fips_hash init_h (fips_pad m) (length (fips_pad m) / 64)). intros l.
  induction l as [|x l IH]; cbn [fmap list_fmap concat]; [constructor |]. apply Forall_app. split; [apply be_bytes_byte | done].
Qed.

Lemma length_bytes_of s : length (bytes_of s) = length s.
Proof. apply length_fmap. Qed.

Lemma bytes_of_bytes s : Forall (fun b => byte b) (bytes_of s).
Proof. apply Forall_fmap, Forall_true. intros c. apply code_range. Qed.
#[local] Hint Resolve bytes_of_bytes fips_digest_bytes : matador.

Lemma fips_digest_length m : Forall (fun b => byte b) m -> length (fips_digest m) = 32%nat.
Proof.
  intros Hb. unfold fips_digest.
  assert (length (fips_hash init_h (fips_pad m) (length (fips_pad m) / 64)) = 8%nat) as E.
  { apply represents_hash; [done | apply (bool_decide_unpack _); vm_compute; exact I | | pose proof (Nat.Div0.mul_div_le (length (fips_pad m)) 64); lia].
    unfold fips_pad. apply Forall_app. split; [done |]. constructor; [lia |].
    apply Forall_app. split; [apply Forall_replicate; lia | apply be_bytes_byte]. }
  destruct (fips_hash _ _ _) as [|a [|b [|c [|d [|e [|f [|g [|h [|]]]]]]]]]; done.
Qed.

(** [sha256] prints the digest of the string. *)
Lemma sha256_string s : Z.of_nat (length s) < 2 ^ 29 -> sha256 s = Ok (concat (hex_byte <$> fips_digest (bytes_of s))).
Proof.
  intros Hl. unfold sha256, sha256_n. rewrite <- length_bytes_of, (sha256_digest_fips (bytes_of s) [0]).
  - done.
  - apply Forall_app. split; [auto with matador | by repeat constructor].
  - by rewrite length_bytes_of.
Qed.

(** ** The keyed digest *)
Lemma strlen_bytes s : NUL ∉ s -> strlen (bytes_of s ++ [0]) = Ok (Z.of_nat (length s)).
Proof.
  induction s as [|c s IH]; intros H; [done |]. apply not_elem_of_cons in H as [H1 H2]. cbn [bytes_of fmap list_fmap app strlen].
  destruct (Z.eqb_spec (code c) 0) as [E | _].
  - exfalso. apply H1. symmetry. apply code_inj. rewrite E. reflexivity.
  - change (code <$> s) with (bytes_of s). rewrite (IH H2). cbn [rbind length]. f_equal. lia.
Qed.

(** The block that is made of a key of at most 64 bytes. *)
Lemma key_block key : (length key <= 64)%nat -> ((length key < 64)%nat -> NUL ∉ key) ->
  (if 64 <? Z.of_nat (length key) then
     let? enc := sha256_c (bytes_of key ++ [0]) in memcpy (replicate 64 0) 0 (bytes_of enc) 0 64
   else if Z.of_nat (length key) <? 64 then
     let? keystr := strcpy (replicate 64 0) (bytes_of key ++ [0]) in
     memset keystr (Z.of_nat (length key)) 0 (64 - Z.of_nat (length key))
   else memcpy (replicate 64 0) 0 (bytes_of key ++ [0]) 0 (Z.of_nat (length key)))
  = Ok (bytes_of key ++ replicate (64 - length key) 0).
Proof.
  intros Hl Hn. rewrite (proj2 (Z.ltb_ge _ _)) by lia. destruct (Z.ltb_spec (Z.of_nat (length key)) 64) as [Hlt | Hge].
  - unfold strcpy. rewrite strlen_bytes by (apply Hn; lia). cbn [rbind].
    rewrite <- (app_nil_r (bytes_of key ++ [0])).
    rewrite memcpy_start0 by (rewrite ?length_app, ?length_bytes_of, ?length_replicate; cbn [length]; lia).
    cbn [rbind]. unfold memset. rewrite <- app_assoc.
    rewrite length_app, length_bytes_of. cbn [length]. rewrite drop_replicate.
    rewrite <- (app_nil_r ([0] ++ _)). rewrite mem_write_mid; [|by rewrite length_bytes_of | rewrite length_app, !length_replicate; cbn; lia].
    rewrite app_nil_r. do 2 f_equal. f_equal. lia.
  - rewrite memcpy_start0 by (rewrite ?length_bytes_of, ?length_replicate; lia).
    rewrite length_bytes_of, drop_replicate. done.
Qed.

Lemma pad_fmap v k n : length k = n -> zip_with Z.lxor (replicate n v) k = Z.lxor v <$> k.
Proof. intros <-. induction k as [|b k IH]; cbn; [done |]. by rewrite IH. Qed.

Lemma lxor_byte v k : byte v -> Forall (fun b => byte b) k -> Forall (fun b => byte b) (Z.lxor v <$> k).
Proof.
  intros Hv Hk. apply Forall_fmap. eapply (list.Forall_impl _ _ _ Hk). intros b Hb. cbn. split; [apply Z.lxor_nonneg; lia |].
  assert (Z.lxor v b = (Z.lxor v b) mod 2 ^ 8) as ->; [|apply Z.mod_pos_bound; lia].
  rewrite <- Z.land_ones by lia. apply Z.bits_inj'. intros i Hi. rewrite Z.land_spec, Z.lxor_spec.
  destruct (Z.lt_ge_cases i 8); [by rewrite Z.ones_spec_low, andb_true_r by lia |].
  rewrite Z.ones_spec_high, andb_false_r by lia.
  rewrite <- (Z.mod_small v (2 ^ 8)), <- (Z.mod_small b (2 ^ 8)) by lia. by rewrite !Z.mod_pow2_bits_high by lia.
Qed.

Lemma hmac_blocks k msg : length k = 64%nat -> Forall (fun b => byte b) k -> Forall (fun b => byte b) msg ->
  Z.of_nat (64 + length msg) < 2 ^ 29 ->
  let h := fips_digest ((Z.lxor 0x36 <$> k) ++ msg) in
  let t1 := (Z.lxor 0x36 <$> k) ++ msg ++ replicate 64 0 in
  let t2 := (Z.lxor 0x5c <$> k) ++ h ++ replicate (2048 - 96) 0 in
  sha256_digest t1 (Z.of_nat (64 + length msg)) = Ok h
  /\ sha256_n t2 96 = Ok (concat (hex_byte <$> fips_digest ((Z.lxor 0x5c <$> k) ++ h))).
Proof.
  intros Hk Bk Bm Hl h t1 t2.
  assert (forall v, byte v -> Forall (fun b => byte b) (Z.lxor v <$> k)) as Bx by (intros; by apply lxor_byte).
  pose proof (Bx 0x36 ltac:(lia)) as B36. pose proof (Bx 0x5c ltac:(lia)) as B5c. pose proof (fips_digest_bytes ((Z.lxor 0x36 <$> k) ++ msg)) as Bh. fold h in Bh.
  assert (length h = 32%nat) as Hh by (apply fips_digest_length, Forall_app; by split).
  assert (forall n, Forall (fun b => byte b) (replicate n 0)) as B0 by (intros n; apply Forall_replicate; lia). split.
  - unfold t1. rewrite app_assoc. replace (64 + length msg)%nat with (length ((Z.lxor 0x36 <$> k) ++ msg)) by (rewrite length_app, length_fmap; lia).
    apply sha256_digest_fips; [rewrite !Forall_app; split_and!; [exact B36 | exact Bm | apply B0] | rewrite length_app, length_fmap; lia].
  - unfold sha256_n, t2. rewrite app_assoc. replace 96 with (Z.of_nat (length ((Z.lxor 0x5c <$> k) ++ h))) by (rewrite length_app, length_fmap; lia).
    rewrite sha256_digest_fips; [reflexivity | rewrite !Forall_app; split_and!; [exact B5c | exact Bh | apply B0] | rewrite length_app, length_fmap; lia].
Qed.

(** C38: The keyed digest is that of RFC 2104 for keys of at most one block
    that contain no zero (a key of exactly one block may) and messages that
    fit the hash function; no array is overrun. *)
Theorem hmac_rfc (key message : str) :
  (length key <= 64)%nat -> ((length key < 64)%nat -> NUL ∉ key) -> Z.of_nat (64 + length message) < 2 ^ 29 ->
  hmac key message = Ok (concat (hex_byte <$> rfc_hmac (bytes_of key) (bytes_of message))).
Proof.
  intros Hk Hn Hm. unfold hmac, hmac_n. cbv zeta. rewrite key_block by done. cbn [rbind].
  set (k := bytes_of key ++ replicate (64 - length key) 0).
  assert (length k = 64%nat) as Lk by (unfold k; rewrite length_app, length_replicate, length_bytes_of; lia).
  assert (Forall (fun b => byte b) k) as Bk by (apply Forall_app; split; [auto with matador | apply Forall_replicate; lia]).
  rewrite !pad_fmap by done.
  replace (Z.to_nat (64 + (64 + Z.of_nat (length message)))) with (64 + (length message + 64))%nat by lia.
  rewrite <- (app_nil_r (Z.lxor 0x36 <$> k)), memcpy_start0 by (rewrite ?length_fmap, ?length_replicate; lia). cbn [rbind].
  rewrite drop_replicate, length_fmap, Lk. replace (64 + (length message + 64) - 64)%nat with (length message + 64)%nat by lia.
  rewrite replicate_add, <- length_bytes_of, memcpy_front by (rewrite ?length_fmap, ?length_replicate, ?Lk; done). cbn [rbind].
  destruct (hmac_blocks k (bytes_of message) Lk Bk (bytes_of_bytes _)) as [H1 H2]; [by rewrite length_bytes_of |].
  replace (64 + Z.of_nat (length (bytes_of message))) with (Z.of_nat (64 + length (bytes_of message))) by lia.
  rewrite H1. cbn [rbind]. clear H1. set (h := fips_digest ((Z.lxor 0x36 <$> k) ++ bytes_of message)) in *.
  assert (length h = 32%nat) as Hh by (apply fips_digest_length, Forall_app; split; [by apply lxor_byte | auto with matador]).
  rewrite <- (app_nil_r (Z.lxor 0x5c <$> k)), memcpy_start0 by (rewrite ?length_fmap, ?length_replicate; lia). cbn [rbind].
  rewrite drop_replicate, length_fmap, Lk. replace (Z.to_nat (64 * 32) - 64)%nat with (length h + (2048 - 96))%nat by lia.
  rewrite replicate_add, memcpy_all by (rewrite ?length_fmap, ?length_replicate, ?Lk; lia). cbn [rbind].
  change (64 + 32) with 96. rewrite H2. unfold rfc_hmac. rewrite length_bytes_of.
  destruct (Nat.ltb_spec 64 (length key)); [lia |]. by rewrite length_bytes_of.
Qed.

Lemma hmac_rfc_witness :
  hmac (lit "mykey") (lit "helloworld")
  = Ok (concat (hex_byte <$> rfc_hmac (bytes_of (lit "mykey")) (bytes_of (lit "helloworld")))).
Proof.
  apply (hmac_rfc (lit "mykey") (lit "helloworld")).
  - cbn. lia.
  - intros _. apply (bool_decide_unpack _). vm_compute. exact I.
  - reflexivity.
Defined.

(** What the tests of the repository expect. *)
Example sha256_test : sha256 (lit "hello world") = Ok (lit "b94d27b9934d3e08a52e52d7da7dabfac484efe37a5380ee9088f7ace2efcde9").
Proof. vm_compute. reflexivity. Qed.
Example hmac_test : hmac (lit "mykey") (lit "helloworld") = Ok (lit "7fdfaa9c9c0931f52d9ebf2538bc99700f2e771f3af1c1d93945c2256c11aedd").
Proof. vm_compute. reflexivity. Qed.

(** ** Where the code differs from the standards *)

(** The length of the message is kept in 32 bits of bits: after 2^29 bytes the
    digest ends as that of a message without them. *)
Example length_wraps h :
  rbind (final (mkSHA256 (2 ^ 29) 0 (replicate 128 0) h)) (fun p => Ok p.2)
  = rbind (final (mkSHA256 0 0 (replicate 128 0) h)) (fun p => Ok p.2).
Proof.
  unfold final. cbn [m_tot_len m_len m_block m_h].
  replace (u32 (Z.shiftl (u32 (2 ^ 29 + 0)) 3)) with (u32 (Z.shiftl (u32 (0 + 0)) 3)) by reflexivity.
  destruct (memset _ _ _ _) as [b|]; cbn [rbind]; [|done]. destruct (mem_write b _ _) as [b1|]; cbn [rbind]; [|done].
  destruct (mem_write b1 _ _) as [b2|]; cbn [rbind]; [|done]. by destruct (transform _ _ _).
Qed.

(** A key ends at its first zero: different keys have the same digests. *)
Example hmac_zero_in_key : hmac (lit "a" ++ NUL :: lit "b") (lit "message") = hmac (lit "a") (lit "message").
Proof. vm_compute. reflexivity. Qed.

(** For a long key the text of its digest is used, not the digest. *)
Example hmac_long_key :
  let key := replicate 65 "k"%char in
  bool_decide (hmac key (lit "message") = Ok (concat (hex_byte <$> rfc_hmac (bytes_of key) (bytes_of (lit "message"))))) = false.
Proof. vm_compute. reflexivity. Qed.
End Sha256.
