(* ===== verification/FileSystem.v ===== *)
(** * Files

    The functions of utils/os and the class of utils/file, on a file system: a
    working directory, a set of directories and links from absolute paths to
    files. A stream is bound to its file, not to the name it was opened with.
    What the system calls do is the documented behaviour of a POSIX system
    without symbolic links and without errors of the disk. *)
From S2P Require Import Prelude.
Local Open Scope cxx_scope.

Module FileSystem.

Abbreviation path := (list str).

Record inode := Inode {
  data : str;
  can_read : bool;
  can_write : bool }.

Record disk := Disk {
  cwd : path;
  dirs : gset path;
  links : gmap path nat;
  inodes : gmap nat inode }.

Definition set_cwd (p : path) (d : disk) : disk := Disk p (dirs d) (links d) (inodes d).
Definition set_dirs (D : gset path) (d : disk) : disk := Disk (cwd d) D (links d) (inodes d).
Definition set_links (L : gmap path nat) (d : disk) : disk := Disk (cwd d) (dirs d) L (inodes d).
Definition set_inodes (I : gmap nat inode) (d : disk) : disk := Disk (cwd d) (dirs d) (links d) I.

Definition DIR_SEPARATOR : ascii := "/".

(** ** Paths *)

(** The components of a path; every one but the last leads to a directory. *)
Fixpoint walk (d : disk) (cur : path) (segments : list str) : option path :=
  match segments with
  | [] => Some cur
  | s :: rest =>
    if decide (cur ∈ dirs d)
    then if bool_decide (s = []) || bool_decide (s = lit ".") then walk d cur rest
         else if bool_decide (s = lit "..") then walk d (take (length cur - 1) cur) rest
         else walk d (cur ++ [s]) rest
    else None
  end.

Definition resolve (d : disk) (name : str) : option path :=
  match name with
  | [] => None
  | c :: rest => if bool_decide (c = DIR_SEPARATOR) then walk d [] (split rest DIR_SEPARATOR)
                 else walk d (cwd d) (split name DIR_SEPARATOR)
  end.

Definition lookup_file (d : disk) (name : str) : option nat :=
  match resolve d name with
  | Some p => links d !! p
  | None => None
  end.

(** ** utils/os *)

(** [access] with the modes [F_OK] 0, [W_OK] 2 and [R_OK] 4. *)
Definition access (d : disk) (name : str) (mode : nat) : bool :=
  match resolve d name with
  | Some p =>
    if decide (p ∈ dirs d) then true
    else match links d !! p ≫= (fun i => inodes d !! i) with
         | Some n => match mode with
                     | 0 => true
                     | 2 => can_write n
                     | 4 => can_read n
                     | _ => false
                     end
         | None => false
         end
  | None => false
  end.

Definition exists_ (d : disk) (name : str) : bool := access d name 0.
Definition is_readable (d : disk) (name : str) : bool := access d name 2.
Definition is_writable (d : disk) (name : str) : bool := access d name 4.

(** The directory has an entry. *)
Definition occupied (d : disk) (p : path) : bool :=
  existsb (fun q => bool_decide (take (length p) q = p) && negb (bool_decide (q = p)))
    (elements (dirs d) ++ (map_to_list (links d)).*1).

Definition rmdir (d : disk) (name : str) : bool * disk :=
  match resolve d name with
  | Some p => if decide (p ∈ dirs d)
              then if occupied d p then (false, d) else (true, set_dirs (dirs d ∖ {[p]}) d)
              else (false, d)
  | None => (false, d)
  end.

Definition remove (d : disk) (name : str) : bool * disk :=
  match resolve d name with
  | Some p => if decide (p ∈ dirs d) then rmdir d name
              else match links d !! p with
                   | Some _ => (true, set_links (delete p (links d)) d)
                   | None => (false, d)
                   end
  | None => (false, d)
  end.

Definition rename (d : disk) (old_name new_name : str) : result (bool * disk) :=
  match resolve d old_name, resolve d new_name with
  | Some p, Some q =>
    if decide (p ∈ dirs d) then Throw (not_modelled "renaming a directory")
    else match links d !! p with
         | Some i => Ok (if decide (q ∈ dirs d) then (false, d)
                         else (true, set_links (<[q := i]> (delete p (links d))) d))
         | None => Ok (false, d)
         end
  | Some p, None =>
    if decide (p ∈ dirs d) then Throw (not_modelled "renaming a directory") else Ok (false, d)
  | None, _ => Ok (false, d)
  end.

Definition mkdir (d : disk) (dirname : str) : bool * disk :=
  match dirname with
  | [] => (true, d)
  | _ => match resolve d dirname with
         | Some p => if exists_ d dirname then (false, d) else (true, set_dirs ({[p]} ∪ dirs d) d)
         | None => (false, d)
         end
  end.

Definition chdir (d : disk) (dirname : str) : bool * disk :=
  match dirname with
  | [] => (true, d)
  | _ => match resolve d dirname with
         | Some p => if decide (p ∈ dirs d) then (true, set_cwd p d) else (false, d)
         | None => (false, d)
         end
  end.

(** [getcwd] into a buffer of 1024 characters. *)
Definition print_path (p : path) : str :=
  match p with
  | [] => [DIR_SEPARATOR]
  | _ => concat (cons DIR_SEPARATOR <$> p)
  end.

Definition get_current_dir (d : disk) : result str :=
  let s := print_path (cwd d) in
  if length s <? 1024 then Ok s else Throw (logic_error "Numerical result out of range").

(** [mkpath]: the loop over [tmp], of which [done_] is behind [p]. *)
Fixpoint mkpath_loop (done_ rest : str) (d : disk) : bool * disk :=
  match rest with
  | [] => mkdir d done_
  | c :: rest' =>
    if bool_decide (c = DIR_SEPARATOR)
    then let '(b, d') := mkdir d done_ in
         if b then mkpath_loop (done_ ++ [c]) rest' d' else (false, d')
    else mkpath_loop (done_ ++ [c]) rest' d
  end.

Definition mkpath (d : disk) (p : str) : bool * disk :=
  let tmp := take 255 p in
  match unsnoc tmp with
  | None => (true, d)
  | Some (front, c) =>
    let tmp := if bool_decide (c = DIR_SEPARATOR) then front else tmp in
    match tmp with
    | [] => (true, d)
    | c :: rest => mkpath_loop [c] rest d
    end
  end.

Definition build_path (a b : str) : str := a ++ [DIR_SEPARATOR] ++ b.

(** [fopen] with mode "a": the file is created when it does not exist. *)
Definition fopen_append (d : disk) (name : str) : option nat * disk :=
  match resolve d name with
  | Some p =>
    if decide (p ∈ dirs d) then (None, d)
    else match links d !! p with
         | Some i => match inodes d !! i with
                     | Some n => (if can_write n then Some i else None, d)
                     | None => (None, d)
                     end
         | None => let i := fresh (dom (inodes d)) in
                   (Some i, set_links (<[p := i]> (links d)) (set_inodes (<[i := Inode [] true true]> (inodes d)) d))
         end
  | None => (None, d)
  end.

(** Writing to and measuring a stream; a null stream is not allowed. *)
Definition fwrite (d : disk) (stream : option nat) (text : str) : result disk :=
  match stream with
  | Some i => Ok (set_inodes (alter (fun n => Inode (data n ++ text) (can_read n) (can_write n)) i (inodes d)) d)
  | None => Throw (undefined_behaviour "fwrite to a null stream")
  end.

Definition file_size (d : disk) (stream : option nat) : result Z :=
  match stream with
  | Some i => Ok (match inodes d !! i with Some n => Z.of_nat (length (data n)) | None => 0%Z end)
  | None => Throw (undefined_behaviour "fileno of a null stream")
  end.

(** ** utils/file *)
Record file := File {
  path_ : str;
  stream_ : option nat }.

Definition no_file : file := File [] None.

Definition close (f : file) : file := File (path_ f) None.

(** [open(path, "a")]. *)
Definition open_append (f : file) (p : str) (d : disk) : file * disk :=
  let '(stream, d) := fopen_append d p in (File p stream, d).

Definition size (d : disk) (f : file) : result Z := file_size d (stream_ f).
Definition is_open (f : file) : bool := bool_decide (stream_ f <> None).


(** ** Names in the working directory *)
Definition plain (s : str) : Prop := s <> [] /\ (DIR_SEPARATOR ∉ s) /\ s <> lit "." /\ s <> lit "..".

#[export] Instance plain_dec s : Decision (plain s).
Proof. unfold plain. apply _. Defined.

(** The absolute path of a name. *)
Definition here (d : disk) (s : str) : path := cwd d ++ [s].

Lemma here_inj d s t : here d s = here d t -> s = t.
Proof. intros H. apply app_inj_tail in H. tauto. Qed.

Lemma walk_plain d cur s rest : plain s -> cur ∈ dirs d -> walk d cur (s :: rest) = walk d (cur ++ [s]) rest.
Proof.
  intros (H1 & _ & H3 & H4) Hc. cbn [walk]. rewrite decide_True by done.
  by rewrite !bool_decide_eq_false_2 by done.
Qed.

Lemma resolve_plain d s : plain s -> cwd d ∈ dirs d -> resolve d s = Some (here d s).
Proof.
  intros Hs Hc. pose proof Hs as (H1 & H2 & _). destruct s as [|c s]; [done |]. unfold resolve.
  rewrite bool_decide_eq_false_2 by set_solver.
  pose proof (split_joined DIR_SEPARATOR (c :: s) []) as E. cbn [fmap list_fmap concat] in E. rewrite app_nil_r in E.
  rewrite E by (by repeat constructor). by rewrite walk_plain.
Qed.

(** A directory that can be reached by its printed path. *)
Definition reachable (d : disk) (p : path) : Prop :=
  Forall plain p /\ forall i, take i p ∈ dirs d.

Lemma walk_path d p done_ : Forall plain p -> (forall i, done_ ++ take i p ∈ dirs d) ->
  walk d done_ p = Some (done_ ++ p).
Proof.
  revert done_. induction p as [|s p IH]; intros done_ Hp Hd; [by rewrite app_nil_r |].
  apply Forall_cons_1 in Hp as [Hs Hp]. rewrite walk_plain; [|done | specialize (Hd 0); by rewrite app_nil_r in Hd].
  rewrite IH; [by rewrite <- app_assoc | done |]. intros i. specialize (Hd (S i)). by rewrite <- app_assoc.
Qed.

Lemma resolve_printed d p : reachable d p -> resolve d (print_path p) = Some p.
Proof.
  intros [Hp Hd]. destruct p as [|s p]; [done |].
  unfold print_path. cbn [fmap list_fmap concat app]. unfold resolve. rewrite bool_decide_eq_true_2 by done.
  rewrite split_joined; [by rewrite walk_path |]. eapply (list.Forall_impl _ _ _ Hp). unfold plain. tauto.
Qed.

(** What the calls do with a name that is no directory. *)
Section names.
Context (d : disk) (s : str) (Hs : plain s) (Hc : cwd d ∈ dirs d) (Hd : here d s ∉ dirs d).

Lemma exists_plain : (forall i, links d !! here d s = Some i -> is_Some (inodes d !! i)) ->
  exists_ d s = bool_decide (is_Some (links d !! here d s)).
Proof using All.
  intros Hi. unfold exists_, access. rewrite resolve_plain, decide_False by done.
  destruct (links d !! here d s) as [i|] eqn:E; cbn; [|done]. destruct (Hi i eq_refl) as [n ->]. done.
Qed.

Lemma remove_plain : (remove d s).2 = set_links (delete (here d s) (links d)) d.
Proof using All.
  unfold remove. rewrite resolve_plain, decide_False by done. destruct (links d !! here d s) eqn:E; [done |].
  cbn. rewrite delete_id by done. by destruct d.
Qed.

Lemma rename_plain t i : plain t -> here d t ∉ dirs d -> links d !! here d s = Some i ->
  rename d s t = Ok (true, set_links (<[here d t := i]> (delete (here d s) (links d))) d).
Proof using All.
  intros Ht Hdt E. unfold rename. rewrite (resolve_plain d s), (resolve_plain d t) by done.
  by rewrite decide_False, E, decide_False by done.
Qed.

Lemma fopen_new : links d !! here d s = None ->
  exists i, inodes d !! i = None /\
  fopen_append d s = (Some i, set_links (<[here d s := i]> (links d)) (set_inodes (<[i := Inode [] true true]> (inodes d)) d)).
Proof using All.
  intros E. unfold fopen_append. rewrite resolve_plain, decide_False, E by done. eexists. split; [|done].
  apply not_elem_of_dom, is_fresh.
Qed.

Lemma fopen_old i n : links d !! here d s = Some i -> inodes d !! i = Some n -> can_write n = true ->
  fopen_append d s = (Some i, d).
Proof using All. intros E1 E2 E3. unfold fopen_append. by rewrite resolve_plain, decide_False, E1, E2, E3. Qed.
End names.

Lemma fopen_append_dirs d s : cwd (fopen_append d s).2 = cwd d /\ dirs (fopen_append d s).2 = dirs d.
Proof. unfold fopen_append. by repeat case_match. Qed.

(** What a path holds. *)
Definition text_at (d : disk) (p : path) : option str := data <$> (links d !! p ≫= fun i => inodes d !! i).

(** Going to a directory and back. *)
Lemma chdir_back d dir pwd : reachable d (cwd d) -> get_current_dir d = Ok pwd ->
  cwd (chdir (chdir d dir).2 pwd).2 = cwd d /\ dirs (chdir (chdir d dir).2 pwd).2 = dirs d.
Proof.
  intros Hr E. unfold get_current_dir in E. destruct (_ <? 1024); [|done]. injection E as <-.
  set (d1 := (chdir d dir).2).
  assert (dirs d1 = dirs d) as E1.
  { unfold d1, chdir. destruct dir as [|c dir]; [done |]. destruct (resolve d (c :: dir)); [|done]. by case_decide. }
  assert (reachable d1 (cwd d)) as Hr1 by (unfold reachable; by rewrite E1).
  assert (exists c s, print_path (cwd d) = c :: s) as (c & s & E2).
  { unfold print_path. destruct (cwd d); cbn; eauto. }
  pose proof (resolve_printed d1 _ Hr1) as R. unfold chdir. rewrite E2 in R |- *. rewrite R.
  destruct Hr1 as [_ H]. specialize (H (length (cwd d))). rewrite take_ge in H by done. by rewrite decide_True.
Qed.

End FileSystem.
