(* ===== verification/Logger.v ===== *)
(** * The logger

    Sinks that write to files, among them the one that rotates its files,
    log domains that filter by level and hand a line to their sinks, and the
    manager with its named domains (logger/). Files are those of
    [FileSystem]; domains and sinks are shared and live in finite maps. The
    time stamp of a line and the number of its thread are inputs. *)
From S2P Require Import Prelude FileSystem.
Local Open Scope cxx_scope.

Module Logger.
Import FileSystem.

(** ** Levels *)
Inductive log_level := LVL_FATAL | LVL_ERROR | LVL_WARN | LVL_INFO | LVL_DEBUG | LVL_TRACE | LVL_ALL.

#[export] Instance log_level_eq_dec : EqDecision log_level.
Proof. solve_decision. Defined.

Definition level_index (l : log_level) : nat :=
  match l with
  | LVL_FATAL => 0 | LVL_ERROR => 1 | LVL_WARN => 2 | LVL_INFO => 3 | LVL_DEBUG => 4 | LVL_TRACE => 5 | LVL_ALL => 6
  end.

(** [operator<<]. *)
Definition level_text (l : log_level) : str :=
  match l with
  | LVL_ERROR => lit "ERROR" | LVL_FATAL => lit "FATAL" | LVL_DEBUG => lit "DEBUG" | LVL_INFO => lit "INFO"
  | LVL_TRACE => lit "TRACE" | LVL_WARN => lit "WARN" | LVL_ALL => lit "ALL"
  end.

Record log_level_range := LevelRange {
  min_level : log_level;
  max_level : log_level }.

Definition default_range : log_level_range := LevelRange LVL_INFO LVL_FATAL.

(** ** The rotating sink *)
Record rotating_file_sink := Rotating {
  logfile_ : file;
  sink_path_ : str;
  base_path_ : str;
  extension_ : str;
  max_size_ : Z;
  current_size_ : Z;
  file_count_ : nat }.

Definition set_logfile (f : file) (s : rotating_file_sink) : rotating_file_sink :=
  Rotating f (sink_path_ s) (base_path_ s) (extension_ s) (max_size_ s) (current_size_ s) (file_count_ s).
Definition set_current_size (n : Z) (s : rotating_file_sink) : rotating_file_sink :=
  Rotating (logfile_ s) (sink_path_ s) (base_path_ s) (extension_ s) (max_size_ s) n (file_count_ s).

(** The part of a string that [%s] prints. *)
Fixpoint c_str (s : str) : str :=
  match s with
  | [] => []
  | c :: s => if bool_decide (c = NUL) then [] else c :: c_str s
  end.

(** [sprintf] into a buffer of the given size. *)
Definition into_buffer (n : nat) (text : str) : result str :=
  if length text <? n then Ok text else Throw (undefined_behaviour "write outside of an array").

Definition calculate_filename (s : rotating_file_sink) (fileno : nat) : result str :=
  into_buffer 1024 (c_str (base_path_ s) ++ lit "." ++ to_string_u (Z.of_nat fileno) ++ lit "." ++ c_str (extension_ s)).

(** The loop of [rotate] from [i] down to one. *)
Fixpoint rotate_loop (s : rotating_file_sink) (i : nat) (filename : str) (d : disk) : result (str * disk) :=
  match i with
  | O => Ok (filename, d)
  | S i' =>
    let? filename := calculate_filename s i in
    if negb (exists_ d filename) then rotate_loop s i' filename d
    else if i =? file_count_ s then rotate_loop s i' filename (remove d filename).2
    else
      let? next := calculate_filename s (i + 1) in
      let? r := rename d filename next in
      rotate_loop s i' filename r.2
  end.

Definition rotate (s : rotating_file_sink) (d : disk) : result (rotating_file_sink * disk) :=
  let? p := rotate_loop s (file_count_ s) [] d in
  let '(filename, d) := p in
  let path := path_ (logfile_ s) in
  let f := close (logfile_ s) in
  let? r := rename d path filename in
  let '(f, d) := open_append f path r.2 in
  Ok (set_logfile f s, d).

Definition rotating_write (s : rotating_file_sink) (message : str) (d : disk) : result (rotating_file_sink * disk) :=
  let size := Z.of_nat (length message) in
  let s := set_current_size (u64 (current_size_ s + size)) s in
  let? p := if (max_size_ s <? current_size_ s)%Z then rotate (set_current_size size s) d else Ok (s, d) in
  let '(s, d) := p in
  let? d := fwrite d (stream_ (logfile_ s)) message in
  Ok (s, d).

(** [strrchr(path, DIR_SEPARATOR)]: what is before and behind the last
    separator. *)
Fixpoint strrchr_split (s : str) : option (str * str) :=
  match s with
  | [] => None
  | c :: s' =>
    match strrchr_split s' with
    | Some (a, b) => Some (c :: a, b)
    | None => if bool_decide (c = DIR_SEPARATOR) then Some ([], s') else None
    end
  end.

(** Opening the file in its directory, and back. *)
Definition open_in (dir filename : str) (d : disk) : result (option nat * disk) :=
  let? pwd := get_current_dir d in
  let d := (mkpath d dir).2 in
  let d := (chdir d dir).2 in
  let '(stream, d) := fopen_append d filename in
  Ok (stream, (chdir d pwd).2).

(** [prepare] and the constructor. *)
Definition create_rotating (path : str) (max_size : Z) (file_count : nat) (d : disk)
  : result (rotating_file_sink * disk) :=
  match strrchr_split path with
  | None => Throw (undefined_behaviour "string of an invalid pointer")
  | Some (dir, filename) =>
    match split filename "." with
    | [base; ext] =>
      let? p := open_in dir filename d in
      let '(stream, d) := p in
      let? n := file_size d stream in
      Ok (Rotating (File filename stream) dir base ext max_size n file_count, d)
    | _ => Throw (logic_error "split path must consists of two elements")
    end
  end.

(** ** The sinks *)
Inductive log_sink :=
| stream_sink (stream : option nat)
| file_sink (path : str) (stream : option nat)
| rotating_sink (s : rotating_file_sink).

(** [file_sink::file_sink]. *)
Definition create_file_sink (path : str) (d : disk) : result (log_sink * disk) :=
  let '(dir, filename) := default ([], path) (strrchr_split path) in
  match split filename "." with
  | [_; _] =>
    let? p := open_in dir filename d in
    match p.1 with
    | Some i => Ok (file_sink dir (Some i), p.2)
    | None => Throw (logic_error "error opening file")
    end
  | _ => Throw (logic_error "splitted path must consists of two elements")
  end.

Definition sink_write (s : log_sink) (message : str) (d : disk) : result (log_sink * disk) :=
  match s with
  | stream_sink i => let? d := fwrite d i message in Ok (s, d)
  | file_sink _ i => let? d := fwrite d i message in Ok (s, d)
  | rotating_sink r => let? p := rotating_write r message d in Ok (rotating_sink p.1, p.2)
  end.

Definition sink_close (s : log_sink) : log_sink :=
  match s with
  | stream_sink _ => stream_sink None
  | file_sink p _ => file_sink p None
  | rotating_sink r => rotating_sink (set_logfile (close (logfile_ r)) r)
  end.

(** ** Domains and the manager *)
Record log_domain := Domain {
  name_ : str;
  sinks : list nat;
  log_level_range_ : log_level_range }.

Record world := World {
  disk_ : disk;
  sink_store : gmap nat log_sink;
  domain_store : gmap nat log_domain;
  default_log_domain_ : nat;
  log_domain_map : gmap str nat;
  default_log_level_range_ : log_level_range }.

Definition set_disk (d : disk) (w : world) : world :=
  World d (sink_store w) (domain_store w) (default_log_domain_ w) (log_domain_map w) (default_log_level_range_ w).
Definition set_sinks (S : gmap nat log_sink) (w : world) : world :=
  World (disk_ w) S (domain_store w) (default_log_domain_ w) (log_domain_map w) (default_log_level_range_ w).
Definition set_domains (D : gmap nat log_domain) (w : world) : world :=
  World (disk_ w) (sink_store w) D (default_log_domain_ w) (log_domain_map w) (default_log_level_range_ w).
Definition set_domain_map (m : gmap str nat) (w : world) : world :=
  World (disk_ w) (sink_store w) (domain_store w) (default_log_domain_ w) m (default_log_level_range_ w).
Definition set_default_range (r : log_level_range) (w : world) : world :=
  World (disk_ w) (sink_store w) (domain_store w) (default_log_domain_ w) (log_domain_map w) r.

(** [log_manager()]. *)
Definition new_manager (d : disk) : world :=
  World d ∅ {[0 := Domain (lit "default") [] default_range]} 0 {[lit "default" := 0]} default_range.

Definition alter_domain (f : log_domain -> log_domain) (k : nat) (w : world) : world :=
  set_domains (alter f k (domain_store w)) w.

Definition domain_add_sink (sink : nat) : log_domain -> log_domain :=
  fun m => Domain (name_ m) (sinks m ++ [sink]) (log_level_range_ m).
Definition domain_clear : log_domain -> log_domain := fun m => Domain (name_ m) [] (log_level_range_ m).
Definition domain_set_min (l : log_level) : log_domain -> log_domain :=
  fun m => Domain (name_ m) (sinks m) (LevelRange l (max_level (log_level_range_ m))).
Definition domain_set_max (l : log_level) : log_domain -> log_domain :=
  fun m => Domain (name_ m) (sinks m) (LevelRange (min_level (log_level_range_ m)) l).

(** [level_strings[lvl]]; a level without a text gets an empty one. *)
Definition level_strings : list (log_level * str) :=
  [(LVL_DEBUG, lit "DEBUG"); (LVL_INFO, lit "INFO"); (LVL_WARN, lit "WARN"); (LVL_ERROR, lit "ERROR"); (LVL_TRACE, lit "TRACE")].
Definition level_string (l : log_level) : str := default [] (assoc l level_strings).

(** ["%-7s"]. *)
Definition pad7 (s : str) : str := s ++ replicate (7 - length s) " "%char.

Definition format_line (timestamp : str) (thread : Z) (lvl : log_level) (source message : str) : str :=
  timestamp ++ lit " [Thread " ++ to_string_u thread ++ lit "] [" ++ pad7 (level_string lvl)
  ++ lit "] [" ++ c_str source ++ lit "]: " ++ c_str message ++ [LF].

(** The loop over the sinks. *)
Fixpoint write_all (ks : list nat) (line : str) (w : world) : result world :=
  match ks with
  | [] => Ok w
  | k :: ks =>
    match sink_store w !! k with
    | Some s =>
      let? p := sink_write s line (disk_ w) in
      write_all ks line (set_disk p.2 (set_sinks (<[k := p.1]> (sink_store w)) w))
    | None => Throw (undefined_behaviour "sink pointer")
    end
  end.

Definition enabled (r : log_level_range) (lvl : log_level) : bool :=
  negb ((level_index lvl <? level_index (max_level r)) || (level_index (min_level r) <? level_index lvl)).

(** [log_domain::log]. *)
Definition domain_log (timestamp : str) (thread : Z) (k : nat) (lvl : log_level) (source message : str) (w : world)
  : result world :=
  match domain_store w !! k with
  | Some m =>
    if enabled (log_level_range_ m) lvl
    then let? line := into_buffer 1024 (format_line timestamp thread lvl source message) in
         write_all (sinks m) line w
    else Ok w
  | None => Throw (undefined_behaviour "domain pointer")
  end.

(** [acquire_domain] and [find_domain]. *)
Definition acquire_domain (name : str) (w : world) : nat * world :=
  if bool_decide (name = lit "default") then (default_log_domain_ w, w)
  else match log_domain_map w !! name with
       | Some k => (k, w)
       | None => let k := fresh (dom (domain_store w)) in
                 (k, set_domain_map (<[name := k]> (log_domain_map w))
                       (set_domains (<[k := Domain name [] (default_log_level_range_ w)]> (domain_store w)) w))
       end.

Definition find_domain (name : str) (w : world) : option nat :=
  if bool_decide (name = lit "default") then Some (default_log_domain_ w) else log_domain_map w !! name.

(** A logger is its source and the domain it shares. *)
Record logger := Logger_ {
  source_ : str;
  logger_domain_ : nat }.

Definition create_logger (source : str) (w : world) : logger := Logger_ source (default_log_domain_ w).
Definition create_logger_in (source domain_name : str) (w : world) : logger * world :=
  let '(k, w) := acquire_domain domain_name w in (Logger_ source k, w).

Definition logger_log (timestamp : str) (thread : Z) (l : logger) (lvl : log_level) (what : str) (w : world) : result world :=
  domain_log timestamp thread (logger_domain_ l) lvl (source_ l) what w.

Definition log_default (timestamp : str) (thread : Z) (lvl : log_level) (source message : str) (w : world) : result world :=
  domain_log timestamp thread (default_log_domain_ w) lvl source message w.

Definition add_sink (sink : nat) (w : world) : world := alter_domain (domain_add_sink sink) (default_log_domain_ w) w.
Definition add_sink_in (sink : nat) (domain_name : str) (w : world) : world :=
  let '(k, w) := acquire_domain domain_name w in alter_domain (domain_add_sink sink) k w.
Definition clear_all_sinks (w : world) : world := alter_domain domain_clear (default_log_domain_ w) w.
Definition clear_all_sinks_in (domain_name : str) (w : world) : world :=
  match log_domain_map w !! domain_name with
  | Some k => alter_domain domain_clear k w
  | None => w
  end.
Definition clear (w : world) : world := alter_domain domain_clear (default_log_domain_ w) (set_domain_map ∅ w).

Definition default_min_log_level (l : log_level) (w : world) : world :=
  set_default_range (LevelRange l (max_level (default_log_level_range_ w))) w.
Definition default_max_log_level (l : log_level) (w : world) : world :=
  set_default_range (LevelRange (min_level (default_log_level_range_ w)) l) w.
Definition domain_min_log_level (name : str) (l : log_level) (w : world) : world :=
  match find_domain name w with
  | Some k => alter_domain (domain_set_min l) k w
  | None => w
  end.
Definition domain_max_log_level (name : str) (l : log_level) (w : world) : world :=
  match find_domain name w with
  | Some k => alter_domain (domain_set_min l) k w
  | None => w
  end.


(** ** What a rotating sink keeps

    The abstract log: the text of the current file and of the numbered files,
    of which some may not exist. *)
Record log := Log {
  current : str;
  rotated : list (option str) }.

Definition log_write (max : Z) (message : str) (l : log) : log :=
  if (max <? Z.of_nat (length (current l) + length message))%Z
  then Log message (take (length (rotated l)) (Some (current l) :: rotated l))
  else Log (current l ++ message) (rotated l).

(** All that is kept, the oldest first. *)
Definition log_text (l : log) : str := concat (omap id (reverse (rotated l))) ++ current l.

Definition file_name (s : rotating_file_sink) (i : nat) : str :=
  base_path_ s ++ lit "." ++ to_string_u (Z.of_nat i) ++ lit "." ++ extension_ s.

Abbreviation current_name s := (path_ (logfile_ s)).

Definition view (s : rotating_file_sink) (d : disk) : log :=
  Log (default [] (text_at d (here d (current_name s))))
      ((fun i => text_at d (here d (file_name s i))) <$> seq 1 (file_count_ s)).

(** The names a sink uses. *)
Record names_ok (s : rotating_file_sink) : Prop := {
  base_ok : (DIR_SEPARATOR ∉ base_path_ s) /\ (NUL ∉ base_path_ s);
  extension_ok : (DIR_SEPARATOR ∉ extension_ s) /\ (NUL ∉ extension_ s);
  length_ok : forall i, 1 <= i <= file_count_ s -> length (file_name s i) < 1024;
  current_ok : plain (current_name s) /\ forall i, current_name s <> file_name s i;
  count_ok : 0 < file_count_ s }.

(** A path that is none of the sink's. *)
Definition foreign (s : rotating_file_sink) (d : disk) (p : path) : Prop :=
  p <> here d (current_name s) /\ forall i, 1 <= i <= file_count_ s -> p <> here d (file_name s i).

Record sink_files (s : rotating_file_sink) (d : disk) : Prop := {
  ok_names : names_ok s;
  ok_cwd : cwd d ∈ dirs d;
  ok_files : (here d (current_name s) ∉ dirs d) /\ forall i, 1 <= i <= file_count_ s -> here d (file_name s i) ∉ dirs d;
  ok_linked : forall p i, links d !! p = Some i -> is_Some (inodes d !! i);
  ok_stream : exists i, stream_ (logfile_ s) = Some i /\ forall p, links d !! p = Some i <-> p = here d (current_name s) }.

Definition sink_ok (s : rotating_file_sink) (d : disk) : Prop :=
  sink_files s d /\ current_size_ s = Z.of_nat (length (current (view s d))).

Lemma to_string_u_inj x y : (0 <= x)%Z -> (0 <= y)%Z -> to_string_u x = to_string_u y -> x = y.
Proof.
  intros Hx Hy E. destruct (digits_to_string_u x [] 0 0 Hx) as (k & _ & E1). destruct (digits_to_string_u y [] 0 0 Hy) as (k' & _ & E2).
  rewrite E, E2 in E1. cbn in E1. injection E1. lia.
Qed.

Lemma file_name_inj s i j : file_name s i = file_name s j -> i = j.
Proof.
  unfold file_name. intros E. do 2 apply app_inv_head in E. apply app_inv_tail in E. apply to_string_u_inj in E; lia.
Qed.

Lemma decimal_no_char c z : (0 <= z)%Z -> isdigit c = false -> c ∉ to_string_u z.
Proof.
  intros Hz Hc Hin. pose proof (to_string_u_digits z Hz) as H. rewrite list.Forall_forall in H. specialize (H _ Hin). congruence.
Qed.

Lemma file_name_plain s i : names_ok s -> plain (file_name s i).
Proof.
  intros [[Hb _] [He _] _ _ _]. unfold file_name, plain.
  destruct (to_string_u_nonempty (Z.of_nat i)) as (c & t & E & Hc); [lia |].
  pose proof (decimal_no_char DIR_SEPARATOR (Z.of_nat i) ltac:(lia) eq_refl) as Hn.
  assert (Hl : 3 <= length (base_path_ s ++ lit "." ++ to_string_u (Z.of_nat i) ++ lit "." ++ extension_ s)).
  { rewrite !length_app, E. cbn. lia. }
  split_and!.
  - intros E'. rewrite E' in Hl. cbn in Hl. lia.
  - rewrite !elem_of_app. intros [H | [H | [H | [H | H]]]]; try done; apply list_elem_of_singleton in H; done.
  - intros E'. rewrite E' in Hl. cbn in Hl. lia.
  - intros E'. rewrite E' in Hl. cbn in Hl. lia.
Qed.

Lemma c_str_id s : (NUL ∉ s) -> c_str s = s.
Proof.
  induction s as [|c s IH]; [done |]. intros [Hc Hs]%not_elem_of_cons. cbn. rewrite bool_decide_eq_false_2 by congruence. by rewrite IH.
Qed.

Lemma calculate_filename_ok s i : names_ok s -> 1 <= i <= file_count_ s -> calculate_filename s i = Ok (file_name s i).
Proof.
  intros [[_ Hb] [_ He] Hl _ _] Hi. unfold calculate_filename, into_buffer. rewrite !c_str_id by done. fold (file_name s i).
  by rewrite (proj2 (Nat.ltb_lt _ _)) by auto.
Qed.

(** ** Rotating

    After the passes down to [i], the file behind [i] is free and those above
    have moved up by one. *)
Record shifted (s : rotating_file_sink) (d0 : disk) (i : nat) (d : disk) : Prop := {
  sh_rest : cwd d = cwd d0 /\ dirs d = dirs d0 /\ inodes d = inodes d0;
  sh_below : forall j, 1 <= j <= i -> links d !! here d0 (file_name s j) = links d0 !! here d0 (file_name s j);
  sh_free : i < file_count_ s -> links d !! here d0 (file_name s (i + 1)) = None;
  sh_above : forall j, i + 1 <= j < file_count_ s ->
    links d !! here d0 (file_name s (j + 1)) = links d0 !! here d0 (file_name s j);
  sh_other : forall p, (forall j, 1 <= j <= file_count_ s -> p <> here d0 (file_name s j)) -> links d !! p = links d0 !! p }.

Lemma here_name_ne s d i j : i <> j -> here d (file_name s i) <> here d (file_name s j).
Proof. intros Hne E. by apply here_inj, file_name_inj in E. Qed.

(** A pass changes the links by [f]. *)
Lemma shifted_step s d0 i d L : shifted s d0 (S i) d ->
  (forall j, 1 <= j <= i -> L !! here d0 (file_name s j) = links d !! here d0 (file_name s j)) ->
  L !! here d0 (file_name s (S i)) = None ->
  (S i < file_count_ s -> L !! here d0 (file_name s (S i + 1)) = links d0 !! here d0 (file_name s (S i))) ->
  (forall j, S i + 1 <= j < file_count_ s -> L !! here d0 (file_name s (j + 1)) = links d !! here d0 (file_name s (j + 1))) ->
  (forall p, (forall j, 1 <= j <= file_count_ s -> p <> here d0 (file_name s j)) -> L !! p = links d !! p) ->
  shifted s d0 i (set_links L d).
Proof.
  intros [Hr Hb Hf Ha Ho] H1 H2 H3 H4 H5. split; cbn [set_links links cwd dirs inodes].
  - done.
  - intros j Hj. rewrite H1 by done. apply Hb. lia.
  - intros _. by rewrite Nat.add_1_r.
  - intros j Hj. destruct (Nat.eq_dec j (S i)) as [-> | Hne]; [apply H3; lia |]. rewrite H4 by lia. apply Ha. lia.
  - intros p Hp. rewrite H5 by done. by apply Ho.
Qed.

Lemma rotate_loop_shifted s d0 : names_ok s -> cwd d0 ∈ dirs d0 ->
  (forall i, 1 <= i <= file_count_ s -> here d0 (file_name s i) ∉ dirs d0) ->
  (forall p i, links d0 !! p = Some i -> is_Some (inodes d0 !! i)) ->
  forall i d name, i <= file_count_ s -> shifted s d0 i d ->
  exists d', rotate_loop s i name d = Ok (if i =? 0 then name else file_name s 1, d') /\ shifted s d0 0 d'.
Proof.
  intros Hn Hcwd Hdir Hlink. induction i as [|i IH]; intros d name Hi Hsh; [by exists d |].
  cbn [rotate_loop]. rewrite calculate_filename_ok by (done || lia). cbn [rbind].
  pose proof Hsh as [(Ec & Ed & Ei) Hb Hf Ha Ho].
  pose proof (file_name_plain s (S i) Hn) as Hp.
  assert (forall t, here d t = here d0 t) as Hh by (intros t; unfold here; by rewrite Ec).
  assert (cwd d ∈ dirs d) as Hcwd' by (by rewrite Ec, Ed).
  assert (forall j, 1 <= j <= file_count_ s -> here d (file_name s j) ∉ dirs d) as Hdir' by (intros j Hj; rewrite Hh, Ed; auto).
  assert (forall d', shifted s d0 i d' -> exists d'', rotate_loop s i (file_name s (S i)) d' = Ok (file_name s 1, d'') /\ shifted s d0 0 d'') as Hgo.
  { intros d' H'. destruct (IH d' (file_name s (S i))) as (d'' & E & H''); [lia | done |]. exists d''. split; [|done].
    rewrite E. destruct i; done. }
  rewrite exists_plain; [|done | done | apply Hdir'; lia |].
  2: { intros k Hk. rewrite Hh, Hb in Hk by lia. rewrite Ei. eauto. }
  rewrite Hh, Hb by lia. destruct (links d0 !! here d0 (file_name s (S i))) as [k|] eqn:E.
  - rewrite bool_decide_eq_true_2 by eauto. cbn [negb].
    destruct (Nat.eqb_spec (S i) (file_count_ s)) as [Heq | Hne].
    + apply Hgo. rewrite remove_plain, Hh by (done || apply Hdir'; lia).
      apply shifted_step; [done | | by rewrite lookup_delete_eq | intros; lia | intros; lia |].
      * intros j Hj. apply lookup_delete_ne, here_name_ne. lia.
      * intros p Hp'. apply lookup_delete_ne. apply not_eq_sym, Hp'. lia.
    + rewrite calculate_filename_ok by (done || lia). cbn [rbind].
      rewrite (rename_plain d (file_name s (S i)) Hp Hcwd' (Hdir' (S i) ltac:(lia)) (file_name s (S i + 1)) k);
        [|by apply file_name_plain | apply Hdir'; lia | rewrite Hh, Hb by lia; done].
      cbn [rbind snd]. apply Hgo. rewrite !Hh. apply shifted_step; [done | | | | |].
      * intros j Hj. rewrite lookup_insert_ne, lookup_delete_ne; [done | apply here_name_ne; lia | apply here_name_ne; lia].
      * rewrite lookup_insert_ne by (apply here_name_ne; lia). apply lookup_delete_eq.
      * intros _. by rewrite lookup_insert_eq.
      * intros j Hj. rewrite lookup_insert_ne, lookup_delete_ne; [done | apply here_name_ne; lia | apply here_name_ne; lia].
      * intros p Hp'. rewrite lookup_insert_ne, lookup_delete_ne; [done | apply not_eq_sym, Hp'; lia | apply not_eq_sym, Hp'; lia].
  - rewrite bool_decide_eq_false_2 by (intros []; done). cbn [negb]. apply Hgo.
    replace d with (set_links (links d) d) by (by destruct d).
    apply shifted_step; [done | done | rewrite Hb by lia; done | | done | done].
    intros Hlt. rewrite Hf by done. done.
Qed.

(** Only the files of the sink change. *)
Definition only_files (s : rotating_file_sink) (d d' : disk) : Prop :=
  cwd d' = cwd d /\ dirs d' = dirs d /\ forall p, foreign s d p -> text_at d' p = text_at d p.

Lemma text_at_link d d' p q : inodes d' = inodes d -> links d' !! p = links d !! q -> text_at d' p = text_at d q.
Proof. intros Ei El. unfold text_at. by rewrite Ei, El. Qed.

(** A file that is created is empty, and no other path leads to it. *)
Lemma text_at_new d L i p q : (forall p k, links d !! p = Some k -> is_Some (inodes d !! k)) -> inodes d !! i = None ->
  L !! p = links d !! q -> text_at (set_links L (set_inodes (<[i := Inode [] true true]> (inodes d)) d)) p = text_at d q.
Proof.
  intros Hl Hi E. unfold text_at. cbn. rewrite E. destruct (links d !! q) as [k|] eqn:Ek; [|done]. cbn.
  rewrite lookup_insert_ne; [done |]. intros ->. destruct (Hl _ _ Ek) as [n Hn]. congruence.
Qed.

Lemma name_cases s d n p : (exists j, 1 <= j <= n /\ p = here d (file_name s j)) \/ (forall j, 1 <= j <= n -> p <> here d (file_name s j)).
Proof.
  destruct (decide (p ∈ (fun j => here d (file_name s j)) <$> seq 1 n)) as [H | H].
  - left. apply list_elem_of_fmap in H as (j & -> & Hj). apply elem_of_seq in Hj. exists j. split; [lia | done].
  - right. intros j Hj ->. apply H, list_elem_of_fmap. exists j. split; [done |]. apply elem_of_seq. lia.
Qed.

(** The links after rotating: every file is one place further, the last one is
    gone, and the current one is new. *)
Lemma rotate_links s d : sink_files s d ->
  exists i L, rotate s d = Ok (set_logfile (File (current_name s) (Some i)) s,
      set_links L (set_inodes (<[i := Inode [] true true]> (inodes d)) d))
    /\ inodes d !! i = None /\ L !! here d (current_name s) = Some i
    /\ L !! here d (file_name s 1) = links d !! here d (current_name s)
    /\ (forall j, 1 <= j < file_count_ s -> L !! here d (file_name s (j + 1)) = links d !! here d (file_name s j))
    /\ forall p, foreign s d p -> L !! p = links d !! p.
Proof.
  intros [Hn Hc [Hd Hds] Hl (i0 & Hs & Hi0)]. unfold rotate.
  destruct (rotate_loop_shifted s d Hn Hc Hds Hl (file_count_ s) d []) as (d1 & E1 & [(Ec & Ed & Ei) _ Hf Ha Ho]); [lia | |].
  { split; [done | done | lia | lia | done]. }
  pose proof Hn as [_ _ _ [Hp Hpn] Hcount]. rewrite E1. rewrite (proj2 (Nat.eqb_neq _ _)) by lia. cbn [rbind].
  assert (forall j, here d (current_name s) <> here d (file_name s j)) as Hcn by (intros j E; by apply here_inj, Hpn in E).
  assert (d1 = set_links (links d1) d) as -> by (destruct d, d1; cbn in *; by subst). cbn [set_links links cwd dirs inodes] in *.
  set (L1 := links d1) in *. clearbody L1. clear d1 E1 Ec Ed Ei.
  assert (forall L t, here (set_links L d) t = here d t) as Hh by done.
  assert (L1 !! here d (current_name s) = Some i0) as E0 by (rewrite Ho by auto; by apply Hi0).
  rewrite (rename_plain (set_links L1 d) (current_name s) Hp Hc Hd (file_name s 1) i0);
    [|by apply file_name_plain | apply Hds; lia | done].
  cbn [rbind snd links set_links]. rewrite !Hh. set (L := <[here d (file_name s 1) := i0]> (delete (here d (current_name s)) L1)).
  change (set_links L (set_links L1 d)) with (set_links L d). unfold open_append.
  destruct (fopen_new (set_links L d) (current_name s) Hp Hc Hd) as (i & Hi & ->).
  { change (L !! here d (current_name s) = None). unfold L. rewrite lookup_insert_ne by (apply not_eq_sym, Hcn). apply lookup_delete_eq. }
  exists i, (<[here d (current_name s) := i]> L). split; [done |]. split; [exact Hi |]. unfold L. split_and!.
  - by rewrite lookup_insert_eq.
  - rewrite lookup_insert_ne by apply Hcn. rewrite lookup_insert_eq. symmetry. by apply Hi0.
  - intros j Hj. rewrite lookup_insert_ne, lookup_insert_ne, lookup_delete_ne by (apply Hcn || apply here_name_ne; lia). apply Ha. lia.
  - intros p [Hp1 Hp2]. rewrite lookup_insert_ne, lookup_insert_ne, lookup_delete_ne by (apply not_eq_sym; (apply Hp1 || apply Hp2; lia)).
    by apply Ho.
Qed.

Lemma here_set d L I t : here (set_links L (set_inodes I d)) t = here d t.
Proof. done. Qed.

Lemma view_rotated s d i L n : file_count_ s = S n ->
  (forall p k, links d !! p = Some k -> is_Some (inodes d !! k)) -> is_Some (links d !! here d (current_name s)) ->
  inodes d !! i = None -> L !! here d (current_name s) = Some i ->
  L !! here d (file_name s 1) = links d !! here d (current_name s) ->
  (forall j, 1 <= j < file_count_ s -> L !! here d (file_name s (j + 1)) = links d !! here d (file_name s j)) ->
  view (set_logfile (File (current_name s) (Some i)) s) (set_links L (set_inodes (<[i := Inode [] true true]> (inodes d)) d))
  = Log [] (take (length (rotated (view s d))) (Some (current (view s d)) :: rotated (view s d))).
Proof.
  intros Ecount Hl [k Hk] Hi H0 H1 Hj. unfold view. cbn [current rotated file_count_ set_logfile logfile_ path_]. f_equal.
  - rewrite here_set. unfold text_at. cbn [links inodes set_links set_inodes]. rewrite H0. cbn. by rewrite lookup_insert_eq.
  - rewrite length_fmap, length_seq, Ecount. cbn [seq fmap list_fmap take]. f_equal.
    + etrans; [apply (text_at_new d L i _ (here d (current_name s))); done |].
      unfold text_at. rewrite Hk. cbn. destruct (Hl _ _ Hk) as [m ->]. done.
    + transitivity ((fun i => text_at d (here d (file_name s i))) <$> seq 1 n).
      * rewrite <- seq_shift, <- list_fmap_compose. apply list_fmap_ext. intros a x Hx. apply lookup_seq in Hx as [-> Hx]. cbn.
        apply (text_at_new d L i _ (here d (file_name s (S a)))); [done | done |]. rewrite <- Hj by lia. by rewrite Nat.add_1_r.
      * clear. change (text_at d (here d (file_name s 1)) :: ((fun i => text_at d (here d (file_name s i))) <$> seq 2 n))
          with ((fun i => text_at d (here d (file_name s i))) <$> seq 1 (S n)).
        rewrite seq_S, fmap_app, take_app_le by (by rewrite length_fmap, length_seq). symmetry. apply take_ge. by rewrite length_fmap, length_seq.
Qed.

Lemma rotate_files s d : sink_files s d ->
  exists i d', rotate s d = Ok (set_logfile (File (current_name s) (Some i)) s, d')
    /\ sink_files (set_logfile (File (current_name s) (Some i)) s) d' /\ only_files s d d'
    /\ view (set_logfile (File (current_name s) (Some i)) s) d'
       = Log [] (take (length (rotated (view s d))) (Some (current (view s d)) :: rotated (view s d))).
Proof.
  intros H. destruct (rotate_links s d H) as (i & L & E & Hi & H0 & H1 & Hj & Hp). exists i. eexists. split; [exact E |].
  destruct H as [Hn Hc Hd Hl (i0 & Hs & Hi0)].
  assert (forall p, p <> here d (current_name s) -> L !! p = None \/ exists q, L !! p = links d !! q) as Hsrc.
  { intros p Hne. destruct (name_cases s d (file_count_ s) p) as [(j & Hj' & ->) | Hno]; [|right; exists p; by apply Hp].
    right. destruct (Nat.eq_dec j 1) as [-> | Hne1]; [by eexists |]. exists (here d (file_name s (j - 1))). rewrite <- Hj by lia. do 4 f_equal. lia. }
  assert (forall p k, L !! p = Some k -> p <> here d (current_name s) -> is_Some (inodes d !! k)) as HL.
  { intros p k Hk Hne. destruct (Hsrc p Hne) as [E0 | [q E0]]; [congruence |]. apply (Hl q). congruence. }
  split_and!.
  - split; [destruct Hn; by split | done | exact Hd | | ].
    + intros p k Hk. cbn in *. destruct (decide (p = here d (current_name s))) as [-> | Hne].
      * rewrite H0 in Hk. injection Hk as <-. rewrite lookup_insert_eq. eauto.
      * destruct (HL p k Hk Hne) as [m Hm]. rewrite lookup_insert_ne; [eauto | congruence].
    + exists i. split; [done |]. intros p. cbn. split; [|intros ->; exact H0]. intros Hk.
      destruct (decide (p = here d (current_name s))) as [-> | Hne]; [done |]. destruct (HL p i Hk Hne). congruence.
  - split_and!; [done | done |]. intros p Hf. apply text_at_new; auto.
  - destruct Hn as [_ _ _ _ Hcount]. apply (view_rotated s d i L (file_count_ s - 1)); [lia | done | | done..].
    exists i0. by apply Hi0.
Qed.

(** ** Writing *)

(** What a write leaves as it is. *)
Definition same_sink (s s' : rotating_file_sink) : Prop :=
  current_name s' = current_name s /\ base_path_ s' = base_path_ s /\ extension_ s' = extension_ s
  /\ max_size_ s' = max_size_ s /\ file_count_ s' = file_count_ s.

Lemma same_sink_view s s' d : same_sink s s' -> view s' d = view s d.
Proof. intros (E1 & E2 & E3 & _ & E5). unfold view, file_name. by rewrite E1, E2, E3, E5. Qed.

Lemma same_sink_foreign s s' d d' p : same_sink s s' -> cwd d' = cwd d -> foreign s d p -> foreign s' d' p.
Proof. intros (E1 & E2 & E3 & _ & E5) Ec. unfold foreign, file_name, here. by rewrite E1, E2, E3, E5, Ec. Qed.

Lemma same_sink_trans s1 s2 s3 : same_sink s1 s2 -> same_sink s2 s3 -> same_sink s1 s3.
Proof. unfold same_sink. intros (? & ? & ? & ? & ?) (? & ? & ? & ? & ?). split_and!; congruence. Qed.

Lemma only_files_trans s s' d1 d2 d3 : same_sink s s' -> only_files s d1 d2 -> only_files s' d2 d3 -> only_files s d1 d3.
Proof.
  intros Hs (C1 & D1 & T1) (C2 & D2 & T2). split_and!; [congruence | congruence |]. intros p Hp.
  rewrite T2; [by apply T1 |]. eapply same_sink_foreign; [exact Hs | exact C1 | exact Hp].
Qed.

Definition append_to (i : nat) (m : str) (d : disk) : disk :=
  set_inodes (alter (fun n => Inode (data n ++ m) (can_read n) (can_write n)) i (inodes d)) d.

Lemma text_at_append i m d p : text_at (append_to i m d) p
  = if decide (links d !! p = Some i) then (fun t => t ++ m) <$> text_at d p else text_at d p.
Proof.
  unfold text_at, append_to. cbn. destruct (links d !! p) as [k|]; cbn; [|by rewrite decide_False].
  destruct (decide (Some k = Some i)) as [[= ->] | Hne].
  - rewrite lookup_alter_eq. by destruct (inodes d !! i).
  - rewrite lookup_alter_ne by congruence. done.
Qed.

Lemma fwrite_files s d m : sink_files s d ->
  exists d', fwrite d (stream_ (logfile_ s)) m = Ok d' /\ sink_files s d' /\ only_files s d d'
    /\ view s d' = Log (current (view s d) ++ m) (rotated (view s d)).
Proof.
  intros [Hn Hc Hd Hl (i & Hs & Hi)]. rewrite Hs. exists (append_to i m d). split; [done |].
  assert (forall p, p <> here d (current_name s) -> text_at (append_to i m d) p = text_at d p) as Hother.
  { intros p Hp. rewrite text_at_append, decide_False by (by rewrite Hi). done. }
  split_and!.
  - split; [done | done | exact Hd | | exists i; split; [done | exact Hi]].
    intros p k Hk. cbn. destruct (Hl p k Hk) as [n E]. destruct (decide (k = i)) as [-> | Hne].
    + rewrite lookup_alter_eq, E. by eexists.
    + rewrite lookup_alter_ne, E by done. by eexists.
  - split_and!; [done | done |]. intros p [Hp _]. auto.
  - unfold view. change (here (append_to i m d)) with (here d). cbn [current rotated]. f_equal.
    + rewrite text_at_append, decide_True by (by apply Hi). unfold text_at.
      assert (links d !! here d (current_name s) = Some i) as E by (by apply Hi). rewrite E. cbn. destruct (Hl _ _ E) as [n ->]. done.
    + apply list_fmap_ext. intros j x _. apply Hother. destruct Hn as [_ _ _ [_ Hpn] _]. intros E. apply here_inj in E. by apply (Hpn x).
Qed.

Lemma sink_files_size s d n : sink_files s d -> sink_files (set_current_size n s) d.
Proof. intros [[H1 H2 H3 H4 H5] Hc Hd Hl Hs]. split; [by split | done | exact Hd | exact Hl | exact Hs]. Qed.

Lemma set_size_twice a b s : set_current_size a (set_current_size b s) = set_current_size a s.
Proof. done. Qed.

(** One message is written as the abstract log writes it. *)
Lemma write_refines s d m : sink_ok s d -> (Z.of_nat (length (current (view s d)) + length m) < 2 ^ 64)%Z ->
  exists s' d', rotating_write s m d = Ok (s', d') /\ sink_ok s' d' /\ same_sink s s' /\ only_files s d d'
    /\ view s' d' = log_write (max_size_ s) m (view s d).
Proof.
  intros [Hf Hsize] Hlen. unfold rotating_write. cbn [current_size_ set_current_size max_size_].
  unfold u64. rewrite wrap_small by lia. unfold log_write. rewrite Hsize, <- Nat2Z.inj_add.
  destruct (_ <? _)%Z.
  - destruct (rotate_files (set_current_size (Z.of_nat (length m)) s) d) as (i & d1 & E1 & F1 & O1 & V1); [by apply sink_files_size |].
    rewrite set_size_twice, E1. cbn [rbind].
    destruct (fwrite_files _ d1 m F1) as (d2 & E2 & F2 & O2 & V2). cbn [logfile_ set_logfile stream_] in E2 |- *. rewrite E2. cbn [rbind].
    rewrite V1 in V2. do 2 eexists. split; [done |]. split_and!.
    + split; [exact F2 |]. rewrite V2. done.
    + done.
    + eapply (only_files_trans s); [|exact O1 | exact O2]. done.
    + exact V2.
  - cbn [rbind]. destruct (fwrite_files _ d m (sink_files_size s d (Z.of_nat (length (current (view s d)) + length m)) Hf)) as (d2 & E2 & F2 & O2 & V2).
    unfold set_current_size in *. cbn [logfile_] in E2 |- *. rewrite E2. cbn [rbind]. do 2 eexists. split; [done |]. split_and!; [|done | exact O2 | exact V2].
    split; [exact F2 |]. rewrite V2. cbn. by rewrite length_app.
Qed.

Fixpoint write_messages (s : rotating_file_sink) (ms : list str) (d : disk) : result (rotating_file_sink * disk) :=
  match ms with
  | [] => Ok (s, d)
  | m :: ms => let? p := rotating_write s m d in write_messages p.1 ms p.2
  end.

Lemma current_log_write max m l : length (current (log_write max m l)) <= length (current l) + length m.
Proof. unfold log_write. destruct (_ <? _)%Z; cbn; rewrite ?length_app; lia. Qed.

Lemma writes_refine ms s d : sink_ok s d -> (Z.of_nat (length (current (view s d)) + length (concat ms)) < 2 ^ 64)%Z ->
  exists s' d', write_messages s ms d = Ok (s', d') /\ sink_ok s' d' /\ same_sink s s' /\ only_files s d d'
    /\ view s' d' = foldl (fun l m => log_write (max_size_ s) m l) (view s d) ms.
Proof.
  revert s d. induction ms as [|m ms IH]; intros s d Hs Hl; cbn [write_messages foldl].
  { exists s, d. split_and!; try done. }
  cbn [concat] in Hl. rewrite length_app in Hl.
  destruct (write_refines s d m Hs) as (s1 & d1 & E1 & O1 & S1 & F1 & V1); [lia |]. rewrite E1. cbn [rbind fst snd].
  destruct (IH s1 d1 O1) as (s2 & d2 & E2 & O2 & S2 & F2 & V2).
  { rewrite V1. pose proof (current_log_write (max_size_ s) m (view s d)). lia. }
  exists s2, d2. split_and!; [done | done | by eapply same_sink_trans | by eapply only_files_trans |].
  rewrite V2, V1. pose proof S1 as (_ & _ & _ & -> & _). done.
Qed.

(** ** What the abstract log keeps *)
Lemma log_write_text max m l : log_text (log_write max m l) `suffix_of` log_text l ++ m.
Proof.
  unfold log_write, log_text. destruct (_ <? _)%Z; cbn [current rotated]; [|by rewrite app_assoc].
  rewrite <- app_assoc. generalize (current l). intros c. destruct (rotated l) as [|x r _] using rev_ind; cbn [length take].
  { cbn. by apply suffix_app_r. }
  rewrite length_app, Nat.add_1_r. cbn [take]. rewrite take_app_length, reverse_cons, omap_app, reverse_app. cbn [reverse omap list_omap id].
  rewrite concat_app. cbn [concat]. rewrite app_nil_r, <- !app_assoc. cbn. destruct x as [t|]; cbn; [|done].
  rewrite <- app_assoc. by apply suffix_app_r.
Qed.

Lemma log_writes_text max ms l : log_text (foldl (fun l m => log_write max m l) l ms) `suffix_of` log_text l ++ concat ms.
Proof.
  revert l. induction ms as [|m ms IH]; intros l; cbn [foldl concat]; [by rewrite app_nil_r |].
  etrans; [apply IH |]. rewrite app_assoc.
  destruct (log_write_text max m l) as [k E]. exists k. by rewrite E, <- !app_assoc.
Qed.

Definition bounded (max : Z) (l : log) : Prop :=
  (Z.of_nat (length (current l)) <= max)%Z /\ Forall (fun t => forall s, t = Some s -> (Z.of_nat (length s) <= max)%Z) (rotated l).

Lemma log_write_bounded max m l : (Z.of_nat (length m) <= max)%Z -> bounded max l -> bounded max (log_write max m l).
Proof.
  intros Hm [Hc Hr]. unfold log_write. destruct (Z.ltb_spec max (Z.of_nat (length (current l) + length m))); split; cbn.
  - done.
  - apply Forall_take. constructor; [by intros ? [= <-] | done].
  - rewrite length_app. lia.
  - done.
Qed.

Lemma log_writes_bounded max ms l : Forall (fun m => (Z.of_nat (length m) <= max)%Z) ms -> bounded max l ->
  bounded max (foldl (fun l m => log_write max m l) l ms).
Proof. intros H. revert l. induction H as [|m ms Hm _ IH]; intros l Hl; cbn; [done |]. apply IH. by apply log_write_bounded. Qed.

(** ** Creating a sink in the working directory *)

(** A sink for the file [base.ext] before it is opened. *)
Definition unopened (dir base ext : str) (max : Z) (n : nat) : rotating_file_sink :=
  Rotating (File (base ++ lit "." ++ ext) None) dir base ext max 0 n.

Record place_ok (d : disk) (dir base ext : str) (n : nat) : Prop := {
  place_dir : dir <> [] /\ resolve d dir = Some (cwd d) /\ (mkpath d dir).2 = d;
  place_cwd : reachable d (cwd d) /\ length (print_path (cwd d)) < 1024;
  place_parts : Forall (fun t => t <> [] /\ ("."%char ∉ t) /\ (DIR_SEPARATOR ∉ t) /\ (NUL ∉ t)) [base; ext];
  place_names : forall i, 1 <= i <= n -> length (file_name (unopened dir base ext 0 n) i) < 1024;
  place_count : 0 < n;
  place_files : (here d (base ++ lit "." ++ ext) ∉ dirs d)
    /\ forall i, 1 <= i <= n -> here d (file_name (unopened dir base ext 0 n) i) ∉ dirs d;
  place_linked : forall p i, links d !! p = Some i -> is_Some (inodes d !! i);
  place_current : forall i, links d !! here d (base ++ lit "." ++ ext) = Some i ->
    can_write <$> inodes d !! i = Some true /\ forall p, links d !! p = Some i -> p = here d (base ++ lit "." ++ ext) }.

Lemma strrchr_split_last dir f : (DIR_SEPARATOR ∉ f) -> strrchr_split (dir ++ DIR_SEPARATOR :: f) = Some (dir, f).
Proof.
  intros Hf. assert (strrchr_split f = None) as E.
  { induction f as [|c f IH]; [done |]. apply not_elem_of_cons in Hf as [Hc Hf]. cbn. rewrite IH by done. by rewrite bool_decide_eq_false_2 by congruence. }
  induction dir as [|c dir IH]; cbn [app strrchr_split]; [by rewrite E, bool_decide_eq_true_2 | by rewrite IH].
Qed.

Lemma unopened_names d dir base ext max n : place_ok d dir base ext n -> names_ok (unopened dir base ext max n).
Proof.
  intros [_ _ Hp Hl Hc _ _ _]. rewrite !Forall_cons_iff in Hp. destruct Hp as ((B1 & B2 & B3 & B4) & (E1 & E2 & E3 & E4) & _).
  split; cbn [unopened base_path_ extension_ file_count_ logfile_ path_]; [done | done | exact Hl | | done].
  assert (Hlen : 2 < length (base ++ lit "." ++ ext)).
  { rewrite !length_app. destruct base, ext; try done. cbn. lia. }
  split.
  - split_and!; try (intros E; rewrite E in Hlen; cbn in Hlen; lia).
    rewrite !elem_of_app. intros [H | [H | H]]; try done. by apply list_elem_of_singleton in H.
  - intros i E. unfold file_name in E. cbn [unopened base_path_ extension_] in E. do 2 apply app_inv_head in E.
    assert ("."%char ∈ ext) as H by (rewrite E; set_solver). done.
Qed.

Lemma chdir_here d dir : dir <> [] -> resolve d dir = Some (cwd d) -> cwd d ∈ dirs d -> chdir d dir = (true, d).
Proof. intros Hne Hr Hc. unfold chdir. destruct dir; [done |]. rewrite Hr, decide_True by done. by destruct d. Qed.

Lemma open_in_here d dir base ext n : place_ok d dir base ext n ->
  open_in dir (base ++ lit "." ++ ext) d = Ok (fopen_append d (base ++ lit "." ++ ext)).
Proof.
  intros Hpl. pose proof Hpl as [(D1 & D2 & D3) [R1 R2] _ _ _ _ _ _].
  assert (cwd d ∈ dirs d) as Hc by (destruct R1 as [_ H]; specialize (H (length (cwd d))); by rewrite take_ge in H).
  unfold open_in, get_current_dir. rewrite (proj2 (Nat.ltb_lt _ _)) by done. cbn [rbind]. rewrite D3, chdir_here by done. cbn [snd].
  destruct (fopen_append d (base ++ lit "." ++ ext)) as [st d'] eqn:E.
  assert (cwd d' = cwd d /\ dirs d' = dirs d) as [C' D'].
  { pose proof (fopen_append_dirs d (base ++ lit "." ++ ext)) as H. by rewrite E in H. }
  do 2 f_equal. rewrite <- C'. rewrite chdir_here; [done | | | by rewrite C', D'].
  - unfold print_path. destruct (cwd d'); done.
  - apply resolve_printed. unfold reachable. by rewrite C', D'.
Qed.

Lemma create_rotating_ok d dir base ext max n : place_ok d dir base ext n ->
  exists s d', create_rotating (dir ++ DIR_SEPARATOR :: base ++ lit "." ++ ext) max n d = Ok (s, d')
    /\ sink_ok s d' /\ same_sink (unopened dir base ext max n) s /\ only_files s d d'
    /\ view s d' = view (unopened dir base ext max n) d.
Proof.
  intros Hpl. pose proof (unopened_names d dir base ext max n Hpl) as Hn. pose proof Hpl as [_ [R1 _] Hp _ _ Hd Hl Hcur].
  set (f := base ++ lit "." ++ ext) in *. set (u := unopened dir base ext max n) in *.
  pose proof Hn as [_ _ _ [Hpf Hpn] _]. change (current_name u) with f in *.
  assert (cwd d ∈ dirs d) as Hc by (destruct R1 as [_ H]; specialize (H (length (cwd d))); by rewrite take_ge in H).
  unfold create_rotating. rewrite strrchr_split_last by apply Hpf.
  assert (split f "." = [base; ext]) as ->.
  { pose proof (split_joined "."%char base [ext]) as E. cbn [fmap list_fmap concat] in E. rewrite app_nil_r in E. apply E.
    eapply (list.Forall_impl _ _ _ Hp). tauto. }
  unfold f. rewrite open_in_here with (n := n) by done. fold f. cbn [rbind].
  destruct (links d !! here d f) as [i|] eqn:E.
  - destruct (Hcur i eq_refl) as [Hw Hu]. destruct (inodes d !! i) as [m|] eqn:Ei; [|done]. cbn in Hw. injection Hw as Hw.
    rewrite (fopen_old d f Hpf Hc (proj1 Hd) i m) by done. cbn [file_size rbind]. do 2 eexists. split; [done |].
    split_and!; [|done.. | done]. split.
    + split; [by destruct Hn; split | done | exact Hd | exact Hl |]. exists i. split; [done |]. intros p. split; [apply Hu | intros ->; exact E].
    + cbn. unfold text_at. change (here d (base ++ "."%char :: ext)) with (here d f). rewrite E, Ei. cbn. by rewrite Ei.
  - destruct (fopen_new d f Hpf Hc (proj1 Hd) E) as (i & Hi & ->). cbn [file_size rbind]. do 2 eexists. split; [done |].
    set (D := set_links _ _).
    assert (forall p, p <> here d f -> text_at D p = text_at d p) as Hother.
    { intros p Hne. apply text_at_new; [done | done |]. by rewrite lookup_insert_ne. }
    assert (text_at D (here d f) = Some []) as Hnew.
    { unfold text_at, D. cbn [links inodes set_links set_inodes]. rewrite lookup_insert_eq. cbn. by rewrite lookup_insert_eq. }
    assert (forall k, view (Rotating (File f (Some i)) dir base ext max k n) D = view u d) as Hview.
    { intros k. unfold view. cbn [logfile_ path_ file_count_ u unopened]. change (here D) with (here d). fold f. rewrite Hnew. f_equal.
      - unfold text_at. by rewrite E.
      - apply list_fmap_ext. intros j x _. apply Hother. intros E'. apply here_inj in E'. by apply (Hpn x). }
    split_and!; [|done | | apply Hview].
    + split.
      * split; [by destruct Hn; split | done | exact Hd | |].
        -- intros p k. cbn. destruct (decide (p = here d f)) as [-> | Hne].
           ++ rewrite lookup_insert_eq. intros [= <-]. rewrite lookup_insert_eq. by eexists.
           ++ rewrite lookup_insert_ne by done. intros Hk. destruct (Hl p k Hk) as [m Hm]. rewrite lookup_insert_ne; [by eexists | congruence].
        -- exists i. split; [done |]. intros p. cbn. change (here D f) with (here d f). split; [|intros ->; apply lookup_insert_eq].
           destruct (decide (p = here d f)) as [-> | Hne]; [done |]. rewrite lookup_insert_ne by done. intros Hk.
           destruct (Hl p i Hk). congruence.
      * rewrite Hview. unfold view. cbn [current current_size_]. change (current_name u) with f.
        unfold text_at, D. rewrite E. cbn [inodes set_links set_inodes]. by rewrite lookup_insert_eq.
    + split_and!; [done | done |]. intros p [Hp1 _]. by apply Hother.
Qed.

(** C30: A rotating sink with at least one numbered file ([no_numbered_files])
    that is created for a file of the working directory ([place_ok]: name and
    extension have no dots, the current file is writable, no directory has the
    name of one of its files) and given messages, all together of less than
    2^64 bytes, keeps its files as the abstract log does: a message is
    appended to the current file, or, when the file would exceed the limit,
    starts a new one while the numbered files move up by one and the last is
    dropped. So what is kept is always a suffix of what was there and was
    written, in order; if no file exceeded the limit before and no message
    does, no file ever does; and other files are not touched. *)
Theorem rotating_sink_log d dir base ext max n ms :
  place_ok d dir base ext n ->
  let l0 := view (unopened dir base ext max n) d in
  (Z.of_nat (length (current l0) + length (concat ms)) < 2 ^ 64)%Z ->
  exists s1 d1 s2 d2,
    create_rotating (dir ++ DIR_SEPARATOR :: base ++ lit "." ++ ext) max n d = Ok (s1, d1)
    /\ write_messages s1 ms d1 = Ok (s2, d2)
    /\ view s2 d2 = foldl (fun l m => log_write max m l) l0 ms
    /\ log_text (view s2 d2) `suffix_of` log_text l0 ++ concat ms
    /\ (bounded max l0 -> Forall (fun m => (Z.of_nat (length m) <= max)%Z) ms -> bounded max (view s2 d2))
    /\ only_files s1 d d2.
Proof.
  intros Hpl l0 Hlen. destruct (create_rotating_ok d dir base ext max n Hpl) as (s1 & d1 & E1 & O1 & S1 & F1 & V1).
  destruct (writes_refine ms s1 d1 O1) as (s2 & d2 & E2 & O2 & S2 & F2 & V2); [by rewrite V1 |].
  assert (max_size_ s1 = max) as Em by (by destruct S1 as (_ & _ & _ & -> & _)). rewrite Em, V1 in V2. fold l0 in V2.
  exists s1, d1, s2, d2. rewrite V2. split_and!; [done | done | done | apply log_writes_text | | ].
  - intros H1 H2. by apply log_writes_bounded.
  - eapply (only_files_trans s1 s1); [done | exact F1 | exact F2].
Qed.

(** An empty disk with a working directory. *)
Definition home : path := [lit "home"].
Definition empty_disk : disk := Disk home {[ []; home ]} ∅ ∅.

Lemma empty_place : place_ok empty_disk (lit ".") (lit "app") (lit "log") 2.
Proof.
  split.
  - split_and!; vm_compute; done.
  - split; [|vm_compute; lia]. split; [apply (bool_decide_unpack _); vm_compute; exact I |].
    intros [|[|i]]; apply (bool_decide_unpack _); vm_compute; exact I.
  - apply (bool_decide_unpack _). vm_compute. exact I.
  - intros i Hi. assert (i = 1 \/ i = 2) as [-> | ->] by lia; vm_compute; lia.
  - lia.
  - split; [apply (bool_decide_unpack _); vm_compute; exact I |].
    intros i Hi. assert (i = 1 \/ i = 2) as [-> | ->] by lia; apply (bool_decide_unpack _); vm_compute; exact I.
  - intros p i H. done.
  - intros i H. done.
Qed.

Lemma rotating_sink_log_witness :
  exists s1 d1 s2 d2,
    create_rotating (lit "./app.log") 4 2 empty_disk = Ok (s1, d1)
    /\ write_messages s1 [lit "one"; lit "two"; lit "6"; lit "six"; lit "ten"] d1 = Ok (s2, d2)
    /\ view s2 d2 = Log (lit "ten") [Some (lit "six"); Some (lit "two6")].
Proof.
  destruct (rotating_sink_log empty_disk (lit ".") (lit "app") (lit "log") 4 2 [lit "one"; lit "two"; lit "6"; lit "six"; lit "ten"] empty_place)
    as (s1 & d1 & s2 & d2 & E1 & E2 & V & _); [vm_compute; reflexivity |].
  exists s1, d1, s2, d2. split; [exact E1 |]. split; [exact E2 |]. rewrite V. vm_compute. reflexivity.
Defined.

(** ** A line reaches the sinks of its domain *)

(** The stream of a sink that does not rotate. *)
Definition plain_stream (s : log_sink) : option nat :=
  match s with
  | stream_sink i => i
  | file_sink _ i => i
  | rotating_sink _ => None
  end.

(** A line at an enabled level is written once to every sink of the domain, and
    nothing else changes; at another level nothing happens. *)
Lemma write_all_plain ks line w : Forall (fun k => is_Some (sink_store w !! k ≫= plain_stream)) ks ->
  write_all ks line w
  = Ok (set_disk (foldl (fun d k => default d ((fun i => append_to i line d) <$> (sink_store w !! k ≫= plain_stream))) (disk_ w) ks) w).
Proof.
  revert w. induction ks as [|k ks IH]; intros w H; [by destruct w |]. apply Forall_cons_1 in H as [[i Hi] H]. cbn [write_all foldl].
  destruct (sink_store w !! k) as [s|] eqn:E; [|done].
  change (Some s ≫= plain_stream) with (plain_stream s) in Hi |- *. rewrite Hi. cbn [fmap option_fmap option_map default from_option id].
  assert (sink_write s line (disk_ w) = Ok (s, append_to i line (disk_ w))) as -> by (destruct s; cbn in *; by subst).
  cbn [rbind fst snd]. rewrite (insert_id (sink_store w) k s) by done.
  rewrite IH; by destruct w.
Qed.

Lemma domain_log_plain ts th k m lvl source message w : domain_store w !! k = Some m ->
  length (format_line ts th lvl source message) < 1024 ->
  Forall (fun k => is_Some (sink_store w !! k ≫= plain_stream)) (sinks m) ->
  domain_log ts th k lvl source message w
  = Ok (if enabled (log_level_range_ m) lvl
        then set_disk (foldl (fun d k => default d ((fun i => append_to i (format_line ts th lvl source message) d)
                                                     <$> (sink_store w !! k ≫= plain_stream))) (disk_ w) (sinks m)) w
        else w).
Proof.
  intros Hk Hl Hs. unfold domain_log. rewrite Hk. destruct (enabled _ _); [|done].
  unfold into_buffer. rewrite (proj2 (Nat.ltb_lt _ _)) by done. cbn [rbind]. by apply write_all_plain.
Qed.

(** A logger, its domain and a file sink together. *)
Definition with_sink (path : str) (d : disk) : result world :=
  let? p := create_file_sink path d in
  let w := set_sinks {[7 := p.1]} (new_manager p.2) in
  Ok (add_sink 7 w).

Definition after (r : result world) (names : list path) : result (list (option str)) :=
  let? w := r in Ok (text_at (disk_ w) <$> names).

Example line_is_written :
  after (let? w := with_sink (lit "app.log") empty_disk in
         logger_log (lit "12:00") 3 (create_logger (lit "main") w) LVL_WARN (lit "low") w) [home ++ [lit "app.log"]]
  = Ok [Some (lit "12:00 [Thread 3] [WARN   ] [main]: low" ++ [LF])].
Proof. vm_compute. reflexivity. Qed.

Example debug_is_dropped :
  after (let? w := with_sink (lit "app.log") empty_disk in
         logger_log (lit "12:00") 3 (create_logger (lit "main") w) LVL_DEBUG (lit "low") w) [home ++ [lit "app.log"]]
  = Ok [Some []].
Proof. vm_compute. reflexivity. Qed.

(** ** Where the code does not do what it means to *)

(** The files of a sink after its messages. *)
Definition rotating_run (name : str) (max : Z) (n : nat) (ms : list str) (d : disk) (names : list path) : result (list (option str)) :=
  let? p := create_rotating name max n d in
  let? q := write_messages p.1 ms p.2 in
  Ok (text_at q.2 <$> names).

(** In another directory the file is opened there, but renamed and opened again
    in the working directory: nothing is rotated and the log goes on elsewhere. *)
Example rotates_elsewhere :
  rotating_run (lit "logs/app.log") 4 2 [lit "one"; lit "two"] empty_disk
    [home ++ [lit "logs"; lit "app.log"]; home ++ [lit "logs"; lit "app.1.log"]; home ++ [lit "app.log"]; home ++ [lit "app.1.log"]]
  = Ok [Some (lit "one"); None; Some (lit "two"); None].
Proof. vm_compute. reflexivity. Qed.

(** A name without a directory is read behind a null pointer. *)
Example name_without_directory : create_rotating (lit "app.log") 4 2 empty_disk
  = Throw (undefined_behaviour "string of an invalid pointer").
Proof. reflexivity. Qed.

(** Without numbered files the current one is not emptied, and grows. *)
Example no_numbered_files :
  rotating_run (lit "./app.log") 4 0 [lit "one"; lit "two"; lit "three"] empty_disk [home ++ [lit "app.log"]]
  = Ok [Some (lit "onetwothree")].
Proof. vm_compute. reflexivity. Qed.

(** The path of a file in the root directory has an empty directory part, and
    the file is created in the working directory. *)
Example root_is_ignored :
  rotating_run (lit "/app.log") 4 2 [lit "one"] empty_disk [[lit "app.log"]; home ++ [lit "app.log"]] = Ok [None; Some (lit "one")].
Proof. vm_compute. reflexivity. Qed.

(** [mkpath] stops at the first directory that exists already, and the file is
    created in the working directory. *)
Example path_exists_partly :
  let d := (mkdir empty_disk (lit "logs")).2 in
  (mkpath d (lit "logs/today")).1 = false
  /\ rotating_run (lit "logs/today/app.log") 4 2 [lit "one"] d
       [home ++ [lit "logs"; lit "today"; lit "app.log"]; home ++ [lit "app.log"]] = Ok [None; Some (lit "one")].
Proof. vm_compute. done. Qed.

(** The questions whether a file can be read and written are exchanged. *)
Example read_only_file :
  let d := Disk home {[ []; home ]} {[home ++ [lit "a.txt"] := 1]} {[1 := Inode [] true false]} in
  is_readable d (lit "a.txt") = false /\ is_writable d (lit "a.txt") = true.
Proof. vm_compute. done. Qed.

(** A fatal message has no level. *)
Example fatal_has_no_text :
  level_text LVL_FATAL = lit "FATAL"
  /\ format_line (lit "12:00") 3 LVL_FATAL (lit "main") (lit "x") = lit "12:00 [Thread 3] [       ] [main]: x" ++ [LF].
Proof. vm_compute. done. Qed.

(** Setting the maximum level of a domain sets its minimum. *)
Example maximum_sets_minimum :
  let w := domain_max_log_level (lit "default") LVL_ERROR (new_manager empty_disk) in
  log_level_range_ <$> domain_store w !! 0 = Some (LevelRange LVL_ERROR LVL_FATAL).
Proof. vm_compute. reflexivity. Qed.

(** After [clear] the default domain is not found by its name when its sinks
    are to be removed. *)
Example default_domain_not_cleared :
  let w := add_sink 7 (clear (new_manager empty_disk)) in
  sinks <$> domain_store (clear_all_sinks_in (lit "default") w) !! 0 = Some [7].
Proof. vm_compute. reflexivity. Qed.

(** A message that fits the buffer of the logger overruns that of the domain. *)
Example line_overruns_buffer :
  after (let? w := with_sink (lit "app.log") empty_disk in
         logger_log (lit "12:00") 3 (create_logger (lit "main") w) LVL_WARN (replicate 1000 "x"%char) w) []
  = Throw (undefined_behaviour "write outside of an array").
Proof. vm_compute. reflexivity. Qed.
End Logger.
