(* ===== verification/Url.v ===== *)
(** * URL encoding

    Model of [url::encode] and [url::decode] (src/utils/url.cpp). *)

From S2P Require Import Prelude.

Local Open Scope cxx_scope.

Module Url.

Definition char_to_enc_map_ : list (ascii * str) :=
  [(" "%char, lit "%20"); ("!"%char, lit "%21"); (DQUOTE, lit "%22"); ("#"%char, lit "%23"); ("$"%char, lit "%24");
   ("%"%char, lit "%25"); ("&"%char, lit "%26"); ("'"%char, lit "%27"); ("("%char, lit "%28"); (")"%char, lit "%29");
   ("*"%char, lit "%2A"); ("+"%char, lit "%2B"); (","%char, lit "%2C"); ("-"%char, lit "%2D"); ("."%char, lit "%2E");
   ("/"%char, lit "%2F"); (":"%char, lit "%3A"); (";"%char, lit "%3B"); ("<"%char, lit "%3C"); ("="%char, lit "%3D");
   (">"%char, lit "%3E"); ("?"%char, lit "%3F"); ("@"%char, lit "%40"); ("["%char, lit "%5B"); (BACKSLASH, lit "%5C");
   ("]"%char, lit "%5D"); ("{"%char, lit "%7B"); ("|"%char, lit "%7C"); ("}"%char, lit "%7D")].

Definition encode_char (c : ascii) : str := default [c] (assoc c char_to_enc_map_).

Definition encode (s : str) : str := concat (encode_char <$> s).

(** [strtol(hex, &err, 16)] of the two characters behind a percent sign: white
    space, a sign, an optional [0x] and digits; 0 without digits. *)
Definition hex_value (h1 h2 : ascii) : Z :=
  let s := skip_spaces (if bool_decide (h1 = NUL) then [] else if bool_decide (h2 = NUL) then [h1] else [h1; h2]) in
  match s with
  | c :: s' =>
    if bool_decide (c = "-"%char) then (- (digits 16 0 0 s').1.1)%Z
    else if bool_decide (c = "+"%char) then (digits 16 0 0 s').1.1
    else (digits 16 0 0 s).1.1
  | [] => 0%Z
  end.

(** [decode]: [None] is the result [false]; [decoded] is then not specified. *)
Fixpoint decode (s : str) : option str :=
  match s with
  | [] => Some []
  | c :: s' =>
    if negb (bool_decide (c = "%"%char)) then (fun r => c :: r) <$> decode s'
    else
      match s' with
      | h1 :: h2 :: s'' => (fun r => chr (hex_value h1 h2) :: r) <$> decode s''
      | _ => None
      end
  end.

(** ** Properties *)

(** Characters that are not encoded pass, and the others are decoded. *)
Lemma decode_encode_char c rest : decode (encode_char c ++ rest) = (fun r => c :: r) <$> decode rest.
Proof.
  pose proof (forall_chars (fun c => match assoc c char_to_enc_map_ with
    | None => negb (bool_decide (c = "%"%char))
    | Some [p; h1; h2] => bool_decide (p = "%"%char) && bool_decide (chr (hex_value h1 h2) = c)
    | Some _ => false
    end) eq_refl c) as H. cbv beta in H.
  unfold encode_char. destruct (assoc c char_to_enc_map_) as [[|p [|h1 [|h2 [|]]]]|]; try done; breflect; subst; simpl.
  - congruence.
  - by rewrite bool_decide_false.
Qed.

(** Every string is decoded from its encoding, and the encoding contains no
    character with a meaning in URLs: whatever is not a letter or a digit is
    an underscore, a caret, a backquote, a tilde, the percent sign of an
    encoded character or not printable. *)
Lemma url_roundtrip s :
  decode (encode s) = Some s
  /\ Forall (fun c => isalnum c = true \/ c ∈ lit "%_^`~" \/ isgraph c = false) (encode s).
Proof.
  unfold encode. induction s as [|c s [IH1 IH2]]; [done |]. cbn [fmap list_fmap concat]. split.
  - by rewrite decode_encode_char, IH1.
  - apply Forall_app_2; [|done]. clear. unfold encode_char.
    assert (forall c, Forall (fun c => isalnum c = true \/ c ∈ lit "%_^`~" \/ isgraph c = false)
                       (default [c] (assoc c char_to_enc_map_))) as H by (intros c'; by_chars c'). apply H.
Qed.

(** Decoding fails exactly when a percent sign is followed by less than two
    characters. *)
Lemma decode_fails s :
  decode s = None -> exists a b, s = a ++ "%"%char :: b /\ length b < 2.
Proof.
  remember (length s) as n eqn:E. revert s E. induction (lt_wf n) as [n _ IH]. intros [|c s] -> H; [done |].
  cbn [decode] in H. case_bool_decide as Hc; cbn [negb] in H.
  - subst c. destruct s as [|h1 [|h2 s]]; [exists [], []; split; [done | simpl; lia] | exists [], [h1]; split; [done | simpl; lia] |].
    destruct (decode s) eqn:Hs; [done |]. destruct (IH (length s) ltac:(simpl; lia) s eq_refl Hs) as (a & b & -> & Hb).
    by exists ("%"%char :: h1 :: h2 :: a), b.
  - destruct (decode s) eqn:Hs; [done |]. destruct (IH (length s) ltac:(simpl; lia) s eq_refl Hs) as (a & b & -> & Hb).
    by exists (c :: a), b.
Qed.

(** A plus sign stays as it is. *)
Example plus_not_decoded : decode (lit "a+b") = Some (lit "a+b").
Proof. reflexivity. Qed.

End Url.
