(* ===== verification/Version.v ===== *)
(** * Versions

    Model of [version] (src/utils/version.cpp): comparison, printing with
    [sprintf] into a buffer of 32 characters and reading with [sscanf]. *)

From S2P Require Import Prelude.

Local Open Scope cxx_scope.

Module Version.
Local Open Scope Z_scope.

Record version := MakeVersion { major_ : Z; minor_ : Z; patch_ : Z }.

Definition equal (a b : version) : bool :=
  (major_ a =? major_ b) && (minor_ a =? minor_ b) && (patch_ a =? patch_ b).

Definition less (a b : version) : bool :=
  (major_ a <? major_ b)
  || ((major_ a =? major_ b) && (minor_ a <? minor_ b))
  || ((major_ a =? major_ b) && (minor_ a =? minor_ b) && (patch_ a <? patch_ b)).

Definition less_equal (a b : version) : bool := less a b || equal a b.
Definition greater (a b : version) : bool := negb (less_equal a b).
Definition greater_equal (a b : version) : bool := negb (less a b).

(** [sprintf(buf, "%d.%d.%d", ...)] with [char buf[32]]: the numbers are
    printed as [int]. *)
Definition str_ (v : version) : result str :=
  let s := to_string_z (s32 (major_ v)) ++ lit "." ++ to_string_z (s32 (minor_ v)) ++ lit "."
           ++ to_string_z (s32 (patch_ v)) in
  if (32 <? length s + 1)%nat then Throw (undefined_behaviour "sprintf behind the end of the buffer") else Ok s.

(** [%u] of [sscanf]: white space, an optional sign, digits; the value and the
    rest, or no conversion. *)
Definition scan_u (s : str) : option (Z * str) :=
  let s1 := skip_spaces s in
  let '(neg, s2) :=
    match s1 with
    | c :: s' => if bool_decide (c = "-"%char) then (true, s')
                 else if bool_decide (c = "+"%char) then (false, s') else (false, s1)
    | [] => (false, s1)
    end in
  let '(v, n, rest) := digits 10 0 0 s2 in
  if (n =? 0)%nat then None else Some (u32 (if neg then - v else v), rest).

(** The literal dot of the format. *)
Definition scan_dot (s : str) : option str :=
  match s with c :: s => if bool_decide (c = "."%char) then Some s else None | [] => None end.

(** [from_string]: three conversions or an exception. *)
Definition from_string (s : str) : result version :=
  let r :=
    match scan_u s with
    | Some (a, s) =>
      match scan_dot s with
      | Some s =>
        match scan_u s with
        | Some (b, s) =>
          match scan_dot s with
          | Some s => match scan_u s with Some (c, _) => Some (MakeVersion a b c) | None => None end
          | None => None
          end
        | None => None
        end
      | None => None
      end
    | None => None
    end in
  match r with
  | Some v => Ok v
  | None => Throw (logic_error "invalid version string")
  end.

(** ** Properties *)

Definition version_ok (v : version) : Prop :=
  0 <= major_ v < 2 ^ 32 /\ 0 <= minor_ v < 2 ^ 32 /\ 0 <= patch_ v < 2 ^ 32.

Definition no_digit (s : str) : Prop := match s with c :: _ => digit_of c = None | [] => True end.

Lemma digits_no_digit a n s : no_digit s -> digits 10 a n s = (a, n, s).
Proof. destruct s as [|c s]; simpl; [done |]. by intros ->. Qed.

(** A number printed as [int] is read back as [unsigned int]. *)
Lemma scan_u_printed z rest : 0 <= z < 2 ^ 32 -> no_digit rest -> scan_u (to_string_z (s32 z) ++ rest) = Some (z, rest).
Proof.
  intros Hz Hr. unfold scan_u, to_string_z.
  assert (forall z', 0 <= z' -> exists k c s, (0 < k)%nat /\ to_string_u z' = c :: s /\ isdigit c = true
            /\ digits 10 0 0 (to_string_u z' ++ rest) = (z', k, rest)) as Hd.
  { intros z' Hz'. destruct (to_string_u_nonempty z' Hz') as (c & s & E & Hc).
    destruct (digits_to_string_u z' rest 0 0 Hz') as (k & Hk & H). exists k, c, s. split_and!; try done.
    rewrite H, digits_no_digit by done. done. }
  assert (u32 (s32 z) = z) as Hs.
  { unfold u32, wrap, s32, swrap. rewrite <- Zminus_mod_idemp_l. rewrite Zmod_mod. rewrite Zminus_mod_idemp_l.
    replace (z + 2 ^ (32 - 1) - 2 ^ (32 - 1)) with z by lia. apply Z.mod_small. lia. }
  destruct (s32 z <? 0) eqn:E; breflect.
  - destruct (Hd (- s32 z)) as (k & c & s & Hk & _ & _ & H); [lia |].
    cbn [app skip_spaces]. change (isspace "-"%char) with false. cbv iota. rewrite bool_decide_true by done. rewrite H.
    rewrite (proj2 (Nat.eqb_neq _ _)) by lia. rewrite Z.opp_involutive. by rewrite Hs.
  - destruct (Hd (s32 z)) as (k & c & s & Hk & Ec & Hc & H); [lia |]. rewrite Ec in *.
    destruct (isdigit_not_space c Hc) as (H1 & H2 & H3). cbn [app skip_spaces] in *. rewrite H1.
    rewrite !bool_decide_false by done. rewrite H. rewrite (proj2 (Nat.eqb_neq _ _)) by lia. by rewrite Hs.
Qed.

(** A version whose text fits the buffer is read back from its text,
    numbers that do not fit an [int] included. *)
Lemma version_roundtrip v s : version_ok v -> str_ v = Ok s -> from_string s = Ok v.
Proof.
  intros (H1 & H2 & H3) Hs. unfold str_ in Hs. destruct (_ <? _)%nat; simplify_eq. unfold from_string.
  rewrite scan_u_printed by done. cbn [lit String.list_ascii_of_string app scan_dot]. rewrite bool_decide_true by done.
  rewrite scan_u_printed by done. cbn [scan_dot]. rewrite bool_decide_true by done.
  rewrite <- (app_nil_r (to_string_z (s32 (patch_ v)))). rewrite scan_u_printed by done. by destruct v.
Qed.

(** Versions are ordered by major, minor and patch number, first to last:
    the operators are a total order that agrees with equality. *)
Lemma version_order a b :
  (less a b = true <-> major_ a < major_ b \/ (major_ a = major_ b /\ (minor_ a < minor_ b
                        \/ (minor_ a = minor_ b /\ patch_ a < patch_ b))))
  /\ (equal a b = true <-> a = b)
  /\ greater a b = less b a /\ less_equal a b = negb (less b a) /\ greater_equal a b = less_equal b a.
Proof.
  destruct a as [a1 a2 a3], b as [b1 b2 b3]. unfold greater_equal, greater, less_equal, less, equal. cbn. split_and!.
  - rewrite !orb_true_iff, !andb_true_iff, !Z.ltb_lt, !Z.eqb_eq. intuition lia.
  - rewrite !andb_true_iff, !Z.eqb_eq. split; [intros [[-> ->] ->]; done | intros [= -> -> ->]; done].
  - by zbool.
  - by zbool.
  - by zbool.
Qed.

Lemma version_roundtrip_witness : from_string (lit "4.0.17") = Ok (MakeVersion 4 0 17).
Proof. apply version_roundtrip; [cbv; split_and!; discriminate || reflexivity | reflexivity]. Defined.

(** Three numbers of ten digits do not fit. *)
Example version_overflows_buffer :
  str_ (MakeVersion 2147483647 2147483647 2147483647)
  = Throw (undefined_behaviour "sprintf behind the end of the buffer").
Proof. vm_compute. reflexivity. Qed.

End Version.
