(* ===== verification/Stream.v ===== *)
(** * Streams

    The lazy streams of matador/utils (stream.hpp, stream_processor.hpp and
    stream_processor.tpp): a stream is a chain of processors, each pulling
    elements from its successor one at a time. A processor is modelled by its
    state and the function [process], which does what [process()] and
    [value()] of the class do: [None] when the stream is finished, the next
    element otherwise. The chain as a whole is compared with ordinary
    functions on lists. *)

From S2P Require Import Prelude.
Local Open Scope cxx_scope.

Definition INT_MAX : Z := 2 ^ 31 - 1.
Definition INT_MIN : Z := - 2 ^ 31.

(** The sum of two [int]s; overflow is undefined. *)
Definition int_add (a b : Z) : result Z :=
  if ((INT_MIN <=? a + b) && (a + b <=? INT_MAX))%Z then Ok (a + b)%Z
  else Throw (undefined_behaviour "signed overflow").

Record processor (A : Type) := mk_processor {
  pstate : Type;
  pinit : pstate;
  process : pstate -> result (option A * pstate);
}.
Arguments mk_processor {A} _ _ _.
Arguments pstate {A} _.
Arguments pinit {A} _.
Arguments process {A} _ _.

(** The loops pull from a successor that may never end: the fuel bounds their
    iterations. *)
Section processors.
Variable fuel : nat.

(** *** Sources *)

(** [container_element_processor] and [iterator_element_processor]: the flag
    [first_] and the elements from [value_] to [end_]. *)
Definition list_process {A} (s : bool * list A) : result (option A * (bool * list A)) :=
  let '(first_, l) := s in
  let look l := Ok (hd_error l, (false, l)) in
  if first_ then look l
  else match l with
       | [] => Throw (undefined_behaviour "increment past the end")
       | _ :: l' => look l'
       end.
Definition make_from {A} (l : list A) : processor A := mk_processor _ (true, l) list_process.

(** [range_element_processor<int, int>]. *)
Definition range_process (to_ incr_ : Z) (s : bool * Z) : result (option Z * (bool * Z)) :=
  let '(first_, current_) := s in
  if first_ && (current_ <? to_)%Z then Ok (Some current_, (false, current_))
  else if negb first_ then
    let? c := int_add current_ incr_ in
    Ok (if (c <=? to_)%Z then Some c else None, (false, c))
  else Ok (None, s).
Definition make_range (from to increment : Z) : processor Z :=
  mk_processor _ (true, from) (range_process to increment).

(** [counter_element_processor<int, int>]. *)
Definition counter_process (incr_ : Z) (s : bool * Z) : result (option Z * (bool * Z)) :=
  let '(first_, current_) := s in
  if first_ then Ok (Some current_, (false, current_))
  else let? c := int_add current_ incr_ in Ok (Some c, (false, c)).
Definition make_counter (from increment : Z) : processor Z :=
  mk_processor _ (true, from) (counter_process increment).

(** [concat_element_processor]: the list of the processors that are left. *)
Inductive concat_state (S T : Type) :=
| both (s : S) (t : T)
| second (t : T)
| neither.
Arguments both {S T} _ _.
Arguments second {S T} _.
Arguments neither {S T}.

Section concat.
Context {A : Type} (P Q : processor A).

Definition concat_second (t : pstate Q) : result (option A * concat_state (pstate P) (pstate Q)) :=
  let? (o, t') := process Q t in
  match o with
  | Some v => Ok (Some v, second t')
  | None => Ok (None, neither)
  end.
Definition concat_process (c : concat_state (pstate P) (pstate Q)) :
  result (option A * concat_state (pstate P) (pstate Q)) :=
  match c with
  | both s t =>
    let? (o, s') := process P s in
    match o with
    | Some v => Ok (Some v, both s' t)
    | None => concat_second t
    end
  | second t => concat_second t
  | neither => Ok (None, neither)
  end.
Definition make_concat : processor A := mk_processor _ (both (pinit P) (pinit Q)) concat_process.
End concat.

(** *** Stages *)
Section stages.
Context {A : Type} (P : processor A).

Fixpoint filter_loop (pred_ : A -> bool) (n : nat) (s : pstate P) : result (option A * pstate P) :=
  match n with
  | O => Throw out_of_fuel
  | S n' =>
    let? (o, s') := process P s in
    match o with
    | None => Ok (None, s')
    | Some v => if pred_ v then Ok (Some v, s') else filter_loop pred_ n' s'
    end
  end.
Definition make_filter (pred_ : A -> bool) : processor A :=
  mk_processor _ (pinit P) (filter_loop pred_ fuel).

(** [peek_element_processor]: the state records the elements the function was
    called with. *)
Definition peek_process (s : pstate P * list A) : result (option A * (pstate P * list A)) :=
  let '(s, seen) := s in
  let? (o, s') := process P s in
  match o with
  | None => Ok (None, (s', seen))
  | Some v => Ok (Some v, (s', seen ++ [v]))
  end.
Definition make_peek : processor A := mk_processor _ (pinit P, []) peek_process.

(** [every_element_processor]; a remainder by zero is undefined. *)
Fixpoint every_loop (every_ : nat) (n : nat) (s : pstate P * nat) : result (option A * (pstate P * nat)) :=
  match n with
  | O => Throw out_of_fuel
  | S n' =>
    let '(s, current_count_) := s in
    let? (o, s') := process P s in
    match o with
    | None => Ok (None, (s', current_count_))
    | Some v =>
      let c := S current_count_ in
      if every_ =? 0 then Throw (undefined_behaviour "division by zero")
      else if c mod every_ =? 0 then Ok (Some v, (s', c)) else every_loop every_ n' (s', c)
    end
  end.
Definition make_every (every_ : nat) : processor A :=
  mk_processor _ (pinit P, 0) (every_loop every_ fuel).

Definition take_process (count_ : nat) (s : pstate P * nat) : result (option A * (pstate P * nat)) :=
  let '(s, current_count_) := s in
  let? (o, s') := process P s in
  match o with
  | None => Ok (None, (s', current_count_))
  | Some v => Ok (if current_count_ <? count_ then Some v else None, (s', S current_count_))
  end.
Definition make_take (count_ : nat) : processor A :=
  mk_processor _ (pinit P, 0) (take_process count_).

Definition take_while_process (pred_ : A -> bool) (s : pstate P) : result (option A * pstate P) :=
  let? (o, s') := process P s in
  match o with
  | None => Ok (None, s')
  | Some v => Ok (if pred_ v then Some v else None, s')
  end.
Definition make_take_while (pred_ : A -> bool) : processor A :=
  mk_processor _ (pinit P) (take_while_process pred_).

Fixpoint skip_loop (count_ : nat) (n : nat) (s : pstate P * nat) : result (option A * (pstate P * nat)) :=
  match n with
  | O => Throw out_of_fuel
  | S n' =>
    let '(s, current_count_) := s in
    let? (o, s') := process P s in
    match o with
    | None => Ok (None, (s', current_count_))
    | Some v =>
      if current_count_ <? count_ then skip_loop count_ n' (s', S current_count_)
      else Ok (Some v, (s', S current_count_))
    end
  end.
Definition make_skip (count_ : nat) : processor A :=
  mk_processor _ (pinit P, 0) (skip_loop count_ fuel).

Fixpoint skip_while_loop (pred_ : A -> bool) (n : nat) (s : pstate P * bool) :
  result (option A * (pstate P * bool)) :=
  match n with
  | O => Throw out_of_fuel
  | S n' =>
    let '(s, should_skip_) := s in
    let? (o, s') := process P s in
    match o with
    | None => Ok (None, (s', should_skip_))
    | Some v =>
      if should_skip_ && pred_ v then skip_while_loop pred_ n' (s', should_skip_)
      else Ok (Some v, (s', false))
    end
  end.
Definition make_skip_while (pred_ : A -> bool) : processor A :=
  mk_processor _ (pinit P, true) (skip_while_loop pred_ fuel).

Definition map_process {B} (pred_ : A -> B) (s : pstate P) : result (option B * pstate P) :=
  let? (o, s') := process P s in Ok (pred_ <$> o, s').
Definition make_mapper {B} (pred_ : A -> B) : processor B :=
  mk_processor _ (pinit P) (map_process pred_).

(** [flatmap_element_processor]: [None] while [first_] is set, the current
    stream afterwards. *)
Fixpoint flatmap_loop {B} (pred_ : A -> list B) (n : nat) (cur : option (bool * list B)) (s : pstate P) :
  result (option B * (pstate P * option (bool * list B))) :=
  match n with
  | O => Throw out_of_fuel
  | S n' =>
    let? (o, s') := process P s in
    match o with
    | None => Ok (None, (s', cur))
    | Some v =>
      let? (b, c) := list_process (pinit (make_from (pred_ v))) in
      match b with
      | Some b => Ok (Some b, (s', Some c))
      | None => flatmap_loop pred_ n' (Some c) s'
      end
    end
  end.
Definition flatmap_process {B} (pred_ : A -> list B) (st : pstate P * option (bool * list B)) :
  result (option B * (pstate P * option (bool * list B))) :=
  let '(s, cur) := st in
  match cur with
  | None => flatmap_loop pred_ fuel (Some (false, [])) s
  | Some c =>
    let? (b, c') := list_process c in
    match b with
    | Some b => Ok (Some b, (s, Some c'))
    | None => flatmap_loop pred_ fuel (Some c') s
    end
  end.
Definition make_flatmap {B} (pred_ : A -> list B) : processor B :=
  mk_processor _ (pinit P, None) (flatmap_process pred_).

(** [pack_every_element_processor]: the successor, [current_packsize_] and
    the vector that is being filled. [todo] is what the loop still needs. *)
Fixpoint pack_loop (packsize_ : nat) (todo : nat) (s : pstate P) (v : list A) :
  result (option (list A) * (pstate P * (nat * list A))) :=
  match todo with
  | O => Ok (Some v, (s, (S packsize_, v)))
  | S todo' =>
    let? (o, s') := process P s in
    match o with
    | None => Ok (None, (s', (S (packsize_ - todo), v)))
    | Some a => pack_loop packsize_ todo' s' (v ++ [a])
    end
  end.
Definition pack_process (packsize_ : nat) (st : pstate P * (nat * list A)) :
  result (option (list A) * (pstate P * (nat * list A))) :=
  let '(s, (current_packsize_, v)) := st in
  let '(c, v) := if packsize_ <=? current_packsize_ then (0, []) else (current_packsize_, v) in
  pack_loop packsize_ (packsize_ - c) s v.
Definition make_pack_every (packsize_ : nat) : processor (list A) :=
  mk_processor _ (pinit P, (packsize_, [])) (pack_process packsize_).
End stages.

(** *** Terminal operations

    A loop over the iterators calls [process] until it says [None]. *)
Section terminals.
Context {A : Type} (P : processor A).

(** [std::for_each(begin(), end(), f)] with the state of [f]. *)
Fixpoint for_each_loop {B} (f : B -> A -> B) (n : nat) (s : pstate P) (b : B) : result B :=
  match n with
  | O => Throw out_of_fuel
  | S n' =>
    let? (o, s') := process P s in
    match o with
    | None => Ok b
    | Some a => for_each_loop f n' s' (f b a)
    end
  end.
Definition for_each {B} (f : B -> A -> B) (b : B) : result B := for_each_loop f fuel (pinit P) b.

Definition collect : result (list A) := for_each (fun l a => l ++ [a]) [].
Definition count : result nat := for_each (fun n _ => S n) 0.
Definition reduce_from {B} (identity : B) (accu : B -> A -> B) : result B := for_each accu identity.

Definition first : result (option A) :=
  let? (o, _) := process P (pinit P) in Ok o.

Definition reduce (accu : A -> A -> A) : result (option A) :=
  let? (o, s) := process P (pinit P) in
  match o with
  | None => Ok None
  | Some a => let? r := for_each_loop accu fuel s a in Ok (Some r)
  end.
Definition last : result (option A) := reduce (fun _ next => next).
Definition min (less : A -> A -> bool) : result (option A) :=
  reduce (fun x next => if less x next then x else next).
Definition max (greater : A -> A -> bool) : result (option A) :=
  reduce (fun x next => if greater x next then x else next).

(** The loop of [any], [all] and [none]: it stops at the first element with
    [pred v = stop]. *)
Fixpoint search_loop (pred : A -> bool) (stop : bool) (n : nat) (s : pstate P) : result bool :=
  match n with
  | O => Throw out_of_fuel
  | S n' =>
    let? (o, s') := process P s in
    match o with
    | None => Ok false
    | Some a => if eqb (pred a) stop then Ok true else search_loop pred stop n' s'
    end
  end.
Definition any (pred : A -> bool) : result bool := search_loop pred true fuel (pinit P).
Definition all (pred : A -> bool) : result bool :=
  let? found := search_loop pred false fuel (pinit P) in Ok (negb found).
Definition none (pred : A -> bool) : result bool :=
  let? found := search_loop pred true fuel (pinit P) in Ok (negb found).
End terminals.

Definition at_ {A} (P : processor A) (index : nat) : result (option A) := first (make_skip P index).
Definition count_if {A} (P : processor A) (pred : A -> bool) : result nat := count (make_filter P pred).

(** [join]: on an empty stream the null pointer of the first element is
    dereferenced. *)
Definition join (P : processor str) (delimiter prefix suffix : str) : result str :=
  let? (o, s) := process P (pinit P) in
  match o with
  | None => Throw (undefined_behaviour "null pointer")
  | Some a =>
    let? r := for_each_loop P (fun r v => r ++ delimiter ++ v) fuel s (prefix ++ a) in
    Ok (r ++ suffix)
  end.
End processors.

(** ** The reference: functions on lists *)

Fixpoint every_from {A} (n k : nat) (l : list A) : list A :=
  match l with
  | [] => []
  | a :: l' => (if S k mod n =? 0 then [a] else []) ++ every_from n (S k) l'
  end.
Fixpoint take_while {A} (f : A -> bool) (l : list A) : list A :=
  match l with
  | [] => []
  | a :: l' => if f a then a :: take_while f l' else []
  end.
Fixpoint skip_while {A} (f : A -> bool) (l : list A) : list A :=
  match l with
  | [] => []
  | a :: l' => if f a then skip_while f l' else l
  end.
(** Full groups of [n]; [k] elements are missing to the one being filled. *)
Fixpoint groups {A} (n k : nat) (v : list A) (l : list A) : list (list A) :=
  match l with
  | [] => []
  | a :: l' =>
    match k with
    | O | S O => (v ++ [a]) :: groups n n [] l'
    | S k' => groups n k' (v ++ [a]) l'
    end
  end.
(** The numbers from, from + incr, ... up to [to]. *)
Definition range_list (from to incr : Z) : list Z :=
  if (from <? to)%Z
  then (fun i => from + Z.of_nat i * incr)%Z <$> seq 0 (S (Z.to_nat ((to - from) / incr)))
  else [].

(** The state [s] of [P] yields the elements [l] and then the end. *)
Inductive yields {A} (P : processor A) : pstate P -> list A -> Prop :=
| yields_nil s s' : process P s = Ok (None, s') -> yields P s []
| yields_cons s a s' l : process P s = Ok (Some a, s') -> yields P s' l -> yields P s (a :: l).
#[local] Hint Constructors yields : core.

Lemma make_from_yields {A} (l : list A) : yields (make_from l) (pinit (make_from l)) l.
Proof.
  assert (forall a k, yields (make_from l) (false, a :: k) k) as Hnext.
  { intros a k. revert a. induction k as [|b k IH]; intros a; [by eapply yields_nil |].
    by eapply yields_cons. }
  destruct l as [|a l]; [by eapply yields_nil |]. by eapply yields_cons.
Qed.

(** Two states with the same next step. *)
Lemma yields_same {A} (P : processor A) s s' l :
  process P s = process P s' -> yields P s' l -> yields P s l.
Proof. intros E H. destruct H; [eapply yields_nil | eapply yields_cons]; eauto; by rewrite E. Qed.

Section stage_lemmas.
Variable fuel : nat.
Context {A : Type} (P : processor A).

(** For every loop: the result does not depend on the fuel once there is
    enough, and the stage yields what the list function says. *)
Lemma filter_loop_enough pred s l n m :
  yields P s l -> length l < n -> length l < m -> filter_loop P pred n s = filter_loop P pred m s.
Proof.
  intros H. revert n m. induction H as [s s' E | s a s' l E H IH]; intros [|n] [|m] Hn Hm; simpl in *; try lia;
    rewrite E; simpl; [done |]. destruct (pred a); [done |]. apply IH; lia.
Qed.

Lemma filter_yields pred s l :
  yields P s l -> length l < fuel -> yields (make_filter fuel P pred) s (List.filter pred l).
Proof.
  destruct fuel as [|f] eqn:Hf; [lia |]. intros H Hl.
  induction H as [s s' E | s a s' l E H IH]; simpl in *.
  - eapply yields_nil. simpl. by rewrite E.
  - destruct (pred a) eqn:Ep.
    + eapply yields_cons; [simpl; by rewrite E; simpl; rewrite Ep |]. apply IH. lia.
    + eapply yields_same; [|apply IH; lia]. simpl process at 1. cbn [filter_loop]. rewrite E. simpl rbind.
      rewrite Ep. apply (filter_loop_enough _ _ l); [done | lia | lia].
Qed.

Lemma every_loop_enough k s c l n m :
  yields P s l -> 0 < k -> length l < n -> length l < m -> every_loop P k n (s, c) = every_loop P k m (s, c).
Proof.
  intros H Hk. revert c n m.
  induction H as [s s' E | s a s' l E H IH]; intros c [|n] [|m] Hn Hm; simpl in *; try lia; rewrite E; simpl; [done |].
  destruct (k =? 0); [done |]. destruct (S c mod k =? 0); [done |]. apply IH; lia.
Qed.

Lemma every_yields k s c l :
  yields P s l -> 0 < k -> length l < fuel -> yields (make_every fuel P k) (s, c) (every_from k c l).
Proof.
  destruct fuel as [|f] eqn:Hf; [lia |]. intros H Hk Hl. revert c.
  induction H as [s s' E | s a s' l E H IH]; intros c; cbn [every_from length] in *.
  - eapply yields_nil. simpl. by rewrite E.
  - destruct (S c mod k =? 0) eqn:Ep; cbn [app].
    + eapply yields_cons; [|apply IH; lia]. cbn [process make_every every_loop]. rewrite E. cbn [rbind].
      rewrite (proj2 (Nat.eqb_neq k 0)) by lia. by rewrite Ep.
    + eapply yields_same; [|apply (IH ltac:(lia) (S c))].
      transitivity (every_loop P k f (s', S c)).
      { cbn [process make_every every_loop]. rewrite E. cbn [rbind].
        rewrite (proj2 (Nat.eqb_neq k 0)) by lia. by rewrite Ep. }
      apply (every_loop_enough k s' (S c) l f (S f)); [done | lia | lia | lia].
Qed.

Lemma skip_loop_enough k s c l n m :
  yields P s l -> length l < n -> length l < m -> skip_loop P k n (s, c) = skip_loop P k m (s, c).
Proof.
  intros H. revert c n m.
  induction H as [s s' E | s a s' l E H IH]; intros c [|n] [|m] Hn Hm; simpl in *; try lia; rewrite E; simpl; [done |].
  destruct (c <? k); [|done]. apply IH; lia.
Qed.

Lemma skip_yields k s c l :
  yields P s l -> length l < fuel -> yields (make_skip fuel P k) (s, c) (list.drop (k - c) l).
Proof.
  destruct fuel as [|f] eqn:Hf; [lia |]. intros H Hl. revert c.
  induction H as [s s' E | s a s' l E H IH]; intros c; cbn [length] in *.
  - rewrite drop_nil. eapply yields_nil. simpl. by rewrite E.
  - destruct (c <? k) eqn:Ec; breflect.
    + replace (k - c) with (S (k - S c)) by lia. cbn [list.drop].
      eapply yields_same; [|apply (IH ltac:(lia) (S c))].
      transitivity (skip_loop P k f (s', S c)).
      { cbn [process make_skip skip_loop]. rewrite E. cbn [rbind].
        by rewrite (proj2 (Nat.ltb_lt _ _)) by lia. }
      apply (skip_loop_enough k s' (S c) l f (S f)); [done | lia | lia].
    + replace (k - c) with 0 by lia. cbn [list.drop]. eapply yields_cons.
      * cbn [process make_skip skip_loop]. rewrite E. cbn [rbind].
        by rewrite (proj2 (Nat.ltb_ge _ _)) by lia.
      * specialize (IH ltac:(lia) (S c)). replace (k - S c) with 0 in IH by lia. by rewrite drop_0 in IH.
Qed.

Lemma skip_while_loop_enough pred s b l n m :
  yields P s l -> length l < n -> length l < m ->
  skip_while_loop P pred n (s, b) = skip_while_loop P pred m (s, b).
Proof.
  intros H. revert n m.
  induction H as [s s' E | s a s' l E H IH]; intros [|n] [|m] Hn Hm; simpl in *; try lia; rewrite E; simpl; [done |].
  destruct (b && pred a); [|done]. apply IH; lia.
Qed.

Lemma skip_while_yields pred s l (b : bool) :
  yields P s l -> length l < fuel ->
  yields (make_skip_while fuel P pred) (s, b) (if b then skip_while pred l else l).
Proof.
  destruct fuel as [|f] eqn:Hf; [lia |]. intros H Hl. revert b.
  induction H as [s s' E | s a s' l E H IH]; intros b; cbn [length skip_while] in *.
  - replace (if b then [] else []) with (@nil A) by (by destruct b). eapply yields_nil. simpl. by rewrite E.
  - destruct (b && pred a) eqn:Eb.
    + breflect. subst b. rewrite H1. eapply yields_same; [|apply (IH ltac:(lia) true)].
      transitivity (skip_while_loop P pred f (s', true)).
      { cbn [process make_skip_while skip_while_loop]. rewrite E. cbn [rbind andb]. by rewrite H1. }
      apply (skip_while_loop_enough pred s' true l f (S f)); [done | lia | lia].
    + replace (if b then if pred a then skip_while pred l else a :: l else a :: l) with (a :: l)
        by (destruct b; simpl in Eb; by rewrite ?Eb).
      eapply yields_cons; [|apply (IH ltac:(lia) false)].
      cbn [process make_skip_while skip_while_loop]. rewrite E. cbn [rbind]. by rewrite Eb.
Qed.

Lemma peek_yields s seen l : yields P s l -> yields (make_peek P) (s, seen) l.
Proof.
  intros H. revert seen. induction H as [s s' E | s a s' l E H IH]; intros seen.
  - eapply yields_nil. simpl. by rewrite E.
  - eapply yields_cons; [simpl; by rewrite E |]. apply IH.
Qed.

Lemma take_yields k s c l : yields P s l -> yields (make_take P k) (s, c) (take (k - c) l).
Proof.
  intros H. revert c. induction H as [s s' E | s a s' l E H IH]; intros c.
  - rewrite take_nil. eapply yields_nil. simpl. by rewrite E.
  - destruct (c <? k) eqn:Ec; breflect.
    + replace (k - c) with (S (k - S c)) by lia. cbn [take]. eapply yields_cons; [|apply (IH (S c))].
      cbn [process make_take take_process]. rewrite E. cbn [rbind]. by rewrite (proj2 (Nat.ltb_lt _ _)) by lia.
    + replace (k - c) with 0 by lia. eapply yields_nil.
      cbn [process make_take take_process]. rewrite E. cbn [rbind]. by rewrite (proj2 (Nat.ltb_ge _ _)) by lia.
Qed.

Lemma take_while_yields pred s l :
  yields P s l -> yields (make_take_while P pred) s (take_while pred l).
Proof.
  induction 1 as [s s' E | s a s' l E H IH]; cbn [take_while].
  - eapply yields_nil. simpl. unfold take_while_process. by rewrite E.
  - destruct (pred a) eqn:Ep.
    + eapply yields_cons; [|exact IH]. simpl. unfold take_while_process. rewrite E. simpl. by rewrite Ep.
    + eapply yields_nil. simpl. unfold take_while_process. rewrite E. simpl. by rewrite Ep.
Qed.

Lemma map_yields {B} (f : A -> B) s l : yields P s l -> yields (make_mapper P f) s (f <$> l).
Proof.
  induction 1 as [s s' E | s a s' l E H IH]; csimpl.
  - eapply yields_nil. simpl. unfold map_process. by rewrite E.
  - eapply yields_cons; [|exact IH]. simpl. unfold map_process. by rewrite E.
Qed.

Lemma flatmap_loop_enough {B} (f : A -> list B) s c l n m :
  yields P s l -> length l < n -> length l < m -> flatmap_loop P f n c s = flatmap_loop P f m c s.
Proof.
  intros H. revert c n m.
  induction H as [s s' E | s a s' l E H IH]; intros c [|n] [|m] Hn Hm; simpl in *; try lia; rewrite E; simpl; [done |].
  destruct (f a); simpl; [|done]. apply IH; lia.
Qed.

(** A state whose current stream is used up. *)
Lemma flatmap_yields {B} (f : A -> list B) s l st :
  yields P s l -> length l < fuel ->
  flatmap_process fuel P f st = flatmap_loop P f fuel (Some (false, [])) s ->
  yields (make_flatmap fuel P f) st (l ≫= f).
Proof.
  destruct fuel as [|n] eqn:Hf; [lia |]. intros H Hl. revert st.
  induction H as [s s' E | s a s' l E H IH]; intros st Hst; cbn [length] in *.
  - eapply yields_nil. simpl. rewrite Hst. simpl. by rewrite E.
  - cbn [flatmap_loop] in Hst. rewrite E in Hst. cbn [rbind] in Hst. csimpl.
    destruct (f a) as [|b k] eqn:Ef; simpl in Hst.
    + apply IH; [lia |]. rewrite Hst. apply (flatmap_loop_enough f s' _ l); [done | lia | lia].
    + eapply yields_cons; [exact Hst |]. clear Hst Ef. revert b.
      induction k as [|b' k IHk]; intros b.
      * by apply IH; [lia |].
      * by eapply yields_cons.
Qed.

(** Filling one group. *)
Lemma pack_loop_spec n k s v l :
  yields P s l ->
  if k <=? length l
  then exists s', pack_loop P n k s v = Ok (Some (v ++ take k l), (s', (S n, v ++ take k l)))
                  /\ yields P s' (list.drop k l)
  else exists st, pack_loop P n k s v = Ok (None, st).
Proof.
  intros H. revert k v. induction H as [s s' E | s a s' l E H IH]; intros [|k] v; simpl.
  - exists s. rewrite app_nil_r. eauto.
  - rewrite E. simpl. eauto.
  - exists s. rewrite app_nil_r. eauto.
  - rewrite E. simpl. specialize (IH k (v ++ [a])). destruct (k <=? length l) eqn:Ek.
    + destruct IH as (s1 & E1 & Hy). exists s1. rewrite E1. by rewrite <- !app_assoc.
    + exact IH.
Qed.

Lemma groups_step n k (v : list A) l :
  0 < k -> groups n k v l = if k <=? length l then (v ++ take k l) :: groups n n [] (list.drop k l) else [].
Proof.
  revert k v. induction l as [|a l IH]; intros [|k] v Hk; [lia | done | lia |].
  cbn [groups length take list.drop]. destruct k as [|k]; [done |].
  rewrite IH by lia. change (S (S k) <=? S (length l)) with (S k <=? length l).
  by rewrite <- app_assoc.
Qed.

Lemma pack_yields n s c v l :
  0 < n -> n <= c -> yields P s l -> yields (make_pack_every P n) (s, (c, v)) (groups n n [] l).
Proof.
  intros Hn. revert s c v. induction l as [l IH] using (well_founded_induction (well_founded_ltof _ length)).
  intros s c v Hc H. unfold ltof in IH. pose proof (pack_loop_spec n n s [] l H) as Hp.
  rewrite groups_step by lia.
  assert (process (make_pack_every P n) (s, (c, v)) = pack_loop P n n s []) as E.
  { simpl. rewrite (proj2 (Nat.leb_le _ _)) by lia. by rewrite Nat.sub_0_r. }
  destruct (n <=? length l) eqn:El; breflect.
  - destruct Hp as (s' & Hp & Hy). eapply yields_cons; [by rewrite E |].
    apply IH; [rewrite length_drop; lia | lia | done].
  - destruct Hp as (st & Hp). eapply yields_nil. by rewrite E.
Qed.

Lemma concat_yields (Q : processor A) s t l k :
  yields P s l -> yields Q t k -> yields (make_concat P Q) (both _ _ s t) (l ++ k).
Proof.
  intros H Hk.
  assert (forall t k, yields Q t k -> yields (make_concat P Q) (second _ _ t) k) as Hsecond.
  { clear. induction 1 as [t t' E | t a t' k E H IH].
    - eapply yields_nil. simpl. unfold concat_second. by rewrite E.
    - eapply yields_cons; [|exact IH]. simpl. unfold concat_second. by rewrite E. }
  induction H as [s s' E | s a s' l E H IH]; simpl.
  - eapply yields_same; [|by apply Hsecond]. simpl. by rewrite E.
  - eapply yields_cons; [|exact IH]. simpl. by rewrite E.
Qed.
End stage_lemmas.

(** *** Ranges *)

Section ranges.
Local Open Scope Z_scope.
Variables (from to incr : Z).
Hypothesis Hincr : 0 < incr.

Lemma int_add_ok a b : INT_MIN <= a + b <= INT_MAX -> int_add a b = Ok (a + b).
Proof.
  intros H. unfold int_add. by rewrite (proj2 (Z.leb_le _ _) (proj1 H)), (proj2 (Z.leb_le _ _) (proj2 H)).
Qed.

(** Behind the element [c], which [m] more follow. *)
Lemma range_rest m c :
  INT_MIN <= c <= to -> Z.of_nat m = (to - c) / incr -> c + (Z.of_nat m + 1) * incr <= INT_MAX ->
  yields (make_range from to incr) (false, c) ((fun i => c + Z.of_nat (S i) * incr) <$> seq 0 m).
Proof.
  revert c. induction m as [|m IH]; intros c Hc Hm Hmax.
  - eapply yields_nil. simpl. rewrite int_add_ok by lia. simpl.
    rewrite (proj2 (Z.leb_gt _ _)); [done |].
    symmetry in Hm. apply Z.div_small_iff in Hm; lia.
  - assert (c + incr <= to) as Hle.
    { pose proof (Z.mul_div_le (to - c) incr Hincr). nia. }
    change (seq 0 (S m)) with (0%nat :: seq 1 m). rewrite fmap_cons.
    replace (c + Z.of_nat 1 * incr) with (c + incr) by lia.
    eapply yields_cons.
    { simpl. rewrite int_add_ok by nia. simpl. by rewrite (proj2 (Z.leb_le _ _)) by lia. }
    rewrite <- seq_shift. rewrite <- list_fmap_compose.
    erewrite list_fmap_ext; [apply (IH (c + incr)); [lia | | lia] |].
    + replace (to - (c + incr)) with (to - c + (-1) * incr) by lia. rewrite Z.div_add by lia. lia.
    + intros i x Hx. simpl. lia.
Qed.

Lemma range_yields :
  INT_MIN <= from -> to + incr <= INT_MAX ->
  yields (make_range from to incr) (pinit (make_range from to incr)) (range_list from to incr).
Proof.
  intros Hmin Hmax. unfold range_list. destruct (from <? to) eqn:E.
  - change (seq 0 (S ?n)) with (0%nat :: seq 1 n). rewrite fmap_cons.
    breflect. assert (0 <= (to - from) / incr) by (apply Z.div_pos; lia).
    replace (from + Z.of_nat 0 * incr) with from by lia. eapply yields_cons.
    + simpl. by rewrite (proj2 (Z.ltb_lt _ _)) by lia.
    + rewrite <- seq_shift, <- list_fmap_compose.
      apply range_rest; [lia | lia |]. rewrite Z2Nat.id by lia.
      pose proof (Z.mul_div_le (to - from) incr Hincr). nia.
  - eapply yields_nil. simpl. by rewrite E.
Qed.
End ranges.

(** ** Pipelines

    A chain of stages on a source, and its elements computed with the list
    functions. *)
Inductive pipeline : Type -> Type :=
| src_list {A} (l : list A) : pipeline A
| src_range (from to incr : Z) : pipeline Z
| pl_filter {A} (f : A -> bool) (p : pipeline A) : pipeline A
| pl_peek {A} (p : pipeline A) : pipeline A
| pl_every {A} (n : nat) (p : pipeline A) : pipeline A
| pl_take {A} (n : nat) (p : pipeline A) : pipeline A
| pl_take_while {A} (f : A -> bool) (p : pipeline A) : pipeline A
| pl_skip {A} (n : nat) (p : pipeline A) : pipeline A
| pl_skip_while {A} (f : A -> bool) (p : pipeline A) : pipeline A
| pl_map {A B} (f : A -> B) (p : pipeline A) : pipeline B
| pl_flatmap {A B} (f : A -> list B) (p : pipeline A) : pipeline B
| pl_pack {A} (n : nat) (p : pipeline A) : pipeline (list A)
| pl_concat {A} (p q : pipeline A) : pipeline A.

Fixpoint make_pipeline (fuel : nat) {A} (p : pipeline A) : processor A :=
  match p with
  | src_list l => make_from l
  | src_range from to incr => make_range from to incr
  | pl_filter f p => make_filter fuel (make_pipeline fuel p) f
  | pl_peek p => make_peek (make_pipeline fuel p)
  | pl_every n p => make_every fuel (make_pipeline fuel p) n
  | pl_take n p => make_take (make_pipeline fuel p) n
  | pl_take_while f p => make_take_while (make_pipeline fuel p) f
  | pl_skip n p => make_skip fuel (make_pipeline fuel p) n
  | pl_skip_while f p => make_skip_while fuel (make_pipeline fuel p) f
  | pl_map f p => make_mapper (make_pipeline fuel p) f
  | pl_flatmap f p => make_flatmap fuel (make_pipeline fuel p) f
  | pl_pack n p => make_pack_every (make_pipeline fuel p) n
  | pl_concat p q => make_concat (make_pipeline fuel p) (make_pipeline fuel q)
  end.

Fixpoint elements {A} (p : pipeline A) : list A :=
  match p with
  | src_list l => l
  | src_range from to incr => range_list from to incr
  | pl_filter f p => List.filter f (elements p)
  | pl_peek p => elements p
  | pl_every n p => every_from n 0 (elements p)
  | pl_take n p => take n (elements p)
  | pl_take_while f p => take_while f (elements p)
  | pl_skip n p => list.drop n (elements p)
  | pl_skip_while f p => skip_while f (elements p)
  | pl_map f p => f <$> elements p
  | pl_flatmap f p => elements p ≫= f
  | pl_pack n p => groups n n [] (elements p)
  | pl_concat p q => elements p ++ elements q
  end.

(** The fuel exceeds the number of elements at every stage, the sizes of
    [every] and [pack_every] are positive and the ranges do not overflow. *)
Fixpoint fits (fuel : nat) {A} (p : pipeline A) : Prop :=
  length (elements p) < fuel /\
  match p with
  | src_list _ => True
  | src_range from to incr => (0 < incr /\ INT_MIN <= from /\ to + incr <= INT_MAX)%Z
  | pl_every n p => 0 < n /\ fits fuel p
  | pl_pack n p => 0 < n /\ fits fuel p
  | pl_filter _ p | pl_take_while _ p | pl_skip_while _ p => fits fuel p
  | pl_peek p => fits fuel p
  | pl_take _ p | pl_skip _ p => fits fuel p
  | pl_map _ p => fits fuel p
  | pl_flatmap _ p => fits fuel p
  | pl_concat p q => fits fuel p /\ fits fuel q
  end.

Lemma fits_length fuel {A} (p : pipeline A) : fits fuel p -> length (elements p) < fuel.
Proof. destruct p; simpl; tauto. Qed.

Lemma pipeline_yields fuel {A} (p : pipeline A) :
  fits fuel p -> yields (make_pipeline fuel p) (pinit (make_pipeline fuel p)) (elements p).
Proof.
  induction p; intros Hfit; destruct Hfit as [Hlen Hfit]; cbn [make_pipeline elements] in *;
    try (pose proof (fits_length _ _ Hfit)).
  - apply make_from_yields.
  - destruct Hfit as (? & ? & ?). by apply range_yields.
  - by apply filter_yields; [apply IHp |].
  - by apply peek_yields, IHp.
  - destruct Hfit as [Hn Hfit]. apply every_yields; [by apply IHp | done | by apply fits_length].
  - pose proof (take_yields (make_pipeline fuel p) n _ 0 _ (IHp Hfit)) as H'. by rewrite Nat.sub_0_r in H'.
  - by apply take_while_yields, IHp.
  - pose proof (skip_yields fuel (make_pipeline fuel p) n _ 0 _ (IHp Hfit) ltac:(done)) as H'.
    by rewrite Nat.sub_0_r in H'.
  - by apply (skip_while_yields fuel (make_pipeline fuel p) f _ _ true); [apply IHp |].
  - by apply map_yields, IHp.
  - by eapply flatmap_yields; [apply IHp | |].
  - destruct Hfit as [Hn Hfit]. apply pack_yields; [done | done | by apply IHp].
  - destruct Hfit as [Hp Hq]. by apply concat_yields; [apply IHp1 | apply IHp2].
Qed.

(** Terminal operations on what is yielded. *)
Lemma for_each_yields {A B} (P : processor A) (f : B -> A -> B) n s l b :
  yields P s l -> length l < n -> for_each_loop P f n s b = Ok (foldl f b l).
Proof.
  intros H. revert n b. induction H as [s s' E | s a s' l E H IH]; intros [|n] b Hn; simpl in *; try lia;
    rewrite E; simpl; [done |]. apply IH. lia.
Qed.

Lemma search_yields {A} (P : processor A) pred stop n s l :
  yields P s l -> length l < n -> search_loop P pred stop n s = Ok (existsb (fun a => eqb (pred a) stop) l).
Proof.
  intros H. revert n. induction H as [s s' E | s a s' l E H IH]; intros [|n] Hn; simpl in *; try lia;
    rewrite E; simpl; [done |]. destruct (eqb (pred a) stop); [done |]. apply IH. lia.
Qed.

Lemma foldl_snoc {A} (l acc : list A) : foldl (fun l a => l ++ [a]) acc l = acc ++ l.
Proof.
  revert acc. induction l as [|a l IH]; intros acc; simpl; [by rewrite app_nil_r |].
  rewrite IH. by rewrite <- app_assoc.
Qed.

Lemma foldl_count {A} (l : list A) n : foldl (fun n _ => S n) n l = n + length l.
Proof. revert n. induction l as [|a l IH]; intros n; simpl; [lia |]. rewrite IH. lia. Qed.

Lemma first_yields {A} (P : processor A) s l :
  yields P s l -> exists s', process P s = Ok (hd_error l, s').
Proof. destruct 1; eauto. Qed.

Lemma reduce_yields {A} fuel (P : processor A) accu l :
  yields P (pinit P) l -> length l < fuel ->
  reduce fuel P accu = Ok (match l with [] => None | a :: l' => Some (foldl accu a l') end).
Proof.
  intros H Hl. unfold reduce. destruct H as [s s' E | s a s' l E H]; rewrite E; simpl; [done |].
  simpl in Hl. rewrite (for_each_yields _ _ _ _ l) by (done || lia). done.
Qed.


(** The pipeline of a test: squares of the even numbers below twelve, in
    pairs. *)
Definition sample_pipeline : pipeline (list Z) :=
  pl_pack 2 (pl_map (fun x => x * x)%Z (pl_filter Z.even (pl_skip 1 (src_range 1 11 1)))).


(** ** The bounds of a range *)
Section range_bounds.
Local Open Scope Z_scope.

(** The loop behind the element [c], which [m] more follow. *)
Lemma range_loop to incr m from c n acc :
  0 < incr -> INT_MIN <= c <= to -> to <= INT_MAX -> Z.of_nat m = (to - c) / incr -> (S m < n)%nat ->
  for_each_loop (make_range from to incr) (fun l a => l ++ [a]) n (false, c) acc
  = if c + (Z.of_nat m + 1) * incr <=? INT_MAX
    then Ok (acc ++ ((fun i => c + Z.of_nat (S i) * incr) <$> seq 0 m))
    else Throw (undefined_behaviour "signed overflow").
Proof.
  intros Hincr. revert c n acc. induction m as [|m IH]; intros c n acc Hc Hto Hm Hn; destruct n as [|n]; [lia | | lia |].
  - replace (c + (Z.of_nat 0 + 1) * incr) with (c + incr) by lia.
    cbn [for_each_loop]. simpl process. unfold int_add. rewrite (proj2 (Z.leb_le INT_MIN _)) by lia.
    destruct (c + incr <=? INT_MAX) eqn:E; [|done]. cbn [andb rbind].
    rewrite (proj2 (Z.leb_gt (c + incr) to)); [by rewrite app_nil_r |].
    symmetry in Hm. apply Z.div_small_iff in Hm; lia.
  - assert (c + incr <= to) as Hle.
    { pose proof (Z.mul_div_le (to - c) incr Hincr). nia. }
    cbn [for_each_loop]. simpl process. rewrite int_add_ok by lia. cbn [rbind].
    rewrite (proj2 (Z.leb_le (c + incr) to)) by lia. cbn [rbind].
    rewrite IH; [| lia | lia | | lia].
    2:{ replace (to - (c + incr)) with (to - c + (-1) * incr) by lia. rewrite Z.div_add by lia. lia. }
    replace (c + incr + (Z.of_nat m + 1) * incr) with (c + (Z.of_nat (S m) + 1) * incr) by lia.
    case_match; [|done]. f_equal. rewrite <- app_assoc. f_equal.
    change (seq 0 (S m)) with (0%nat :: seq 1 m). rewrite fmap_cons, <- seq_shift, <- list_fmap_compose.
    replace (c + Z.of_nat 1 * incr) with (c + incr) by lia. cbn [app]. f_equal.
    apply list_fmap_ext. intros i x Hx. simpl. lia.
Qed.

(** A range of [int]s yields from, from + incr, ... up to [to] exactly when
    one step behind its last element is still an [int]: otherwise computing
    the element that ends the loop overflows, which is undefined. *)
Lemma range_bounds from to incr fuel :
  0 < incr -> INT_MIN <= from < to -> to <= INT_MAX -> (Z.to_nat ((to - from) / incr) + 2 < fuel)%nat ->
  collect fuel (make_range from to incr)
  = if from + ((to - from) / incr + 1) * incr <=? INT_MAX
    then Ok (range_list from to incr)
    else Throw (undefined_behaviour "signed overflow").
Proof.
  intros Hincr Hf Hto Hfuel. destruct fuel as [|n]; [lia |]. unfold collect, for_each. cbn [for_each_loop].
  simpl process. simpl pinit. rewrite (proj2 (Z.ltb_lt from to)) by lia. cbn [andb rbind].
  assert (0 <= (to - from) / incr) by (apply Z.div_pos; lia).
  rewrite (range_loop to incr (Z.to_nat ((to - from) / incr))); [| lia | lia | lia | lia | lia].
  rewrite Z2Nat.id by lia. case_match; [|done]. f_equal.
  unfold range_list. rewrite (proj2 (Z.ltb_lt from to)) by lia.
  change (seq 0 (S ?n)) with (0%nat :: seq 1 n). rewrite fmap_cons, <- seq_shift, <- list_fmap_compose.
  cbn [app]. f_equal. lia.
Qed.

Lemma range_bounds_witness :
  collect 10 (make_range (INT_MAX - 2) INT_MAX 1) = Throw (undefined_behaviour "signed overflow").
Proof.
  apply (range_bounds (INT_MAX - 2) INT_MAX 1 10); vm_compute; (split; congruence) || congruence || lia.
Defined.
End range_bounds.

(** *** Corner cases *)

(** A range with one element is empty. *)
Example range_single : collect 5 (make_range 3 3 1) = Ok [].
Proof. reflexivity. Qed.

(** Joining an empty stream dereferences a null pointer. *)
Example join_empty : join 5 (make_from []) (lit ",") [] [] = Throw (undefined_behaviour "null pointer").
Proof. reflexivity. Qed.

(** Groups of zero elements never end. *)
Example pack_every_zero n : collect n (make_pack_every (make_from [1; 2]) 0) = Throw out_of_fuel.
Proof.
  unfold collect, for_each. generalize (pinit (make_pack_every (make_from [1; 2]) 0)).
  assert (forall s acc, for_each_loop (make_pack_every (make_from [1; 2]) 0) (fun l a => l ++ [a]) n s acc
                        = Throw out_of_fuel) as H; [|by intros].
  induction n as [|n IH]; intros [s [c v]] acc; [done |]. cbn [for_each_loop]. simpl process. apply IH.
Qed.

(** To stop, [take] pulls one element more than it returns. *)
Example take_pulls_one_more :
  (process (make_take (make_peek (make_from [1; 2; 3])) 0) (pinit (make_take (make_peek (make_from [1; 2; 3])) 0)))
  = Ok (None, (((false, [1; 2; 3]), [1]), 1)).
Proof. reflexivity. Qed.
