(* ===== verification/ThreadPool.v ===== *)
(** * The thread pool

    src/utils/thread_pool.cpp: worker threads that take tasks from a queue,
    and callers that schedule tasks, wait for all of them or shut the pool
    down. A transition system whose steps are what a thread does while it
    holds the mutex, or between two such sections: a worker counts [busy_] down
    and notifies without the mutex. The histories [scheduled], [started] and
    [executed] are not in the code; they are what the theorems speak about. *)

From S2P Require Import Prelude.
Local Open Scope cxx_scope.

Module ThreadPool.

Abbreviation task := nat.

(** Where a worker is in [execute]: before the lock, waiting for a task,
    notified, running a task, behind it, behind [--busy_], at the end. *)
Inductive worker :=
| Ready
| Waiting
| Woken
| Running (t : task)
| Ran
| Counted
| Finished.

(** Where a caller of [wait] is: it has tested the condition and still holds
    the mutex, waits, was notified, has returned. *)
Inductive caller :=
| Calling
| Tested
| Blocked
| Notified
| Returned.

#[export] Instance worker_eq_dec : EqDecision worker.
Proof. solve_decision. Defined.
#[export] Instance caller_eq_dec : EqDecision caller.
Proof. solve_decision. Defined.

Record thread_pool := mk_pool {
  busy_ : nat;
  tasks_ : list task;
  threads_ : list worker;
  running : bool;
  callers : list caller;
  scheduled : list task;
  started : list task;
  executed : list task }.

Definition set_worker (i : nat) (w : worker) (p : thread_pool) : thread_pool :=
  mk_pool (busy_ p) (tasks_ p) (<[i := w]> (threads_ p)) (running p) (callers p) (scheduled p) (started p) (executed p).
Definition set_caller (i : nat) (c : caller) (p : thread_pool) : thread_pool :=
  mk_pool (busy_ p) (tasks_ p) (threads_ p) (running p) (<[i := c]> (callers p)) (scheduled p) (started p) (executed p).

(** The pool with its threads, and [n] callers that will wait for it. *)
Definition make_pool (size n : nat) : thread_pool := mk_pool 0 [] (replicate size Ready) true (replicate n Calling) [] [] [].

(** [notify_one] on a condition variable: the chosen thread, if one waits. *)
Definition wake_worker (w : option nat) (l : list worker) : list worker := match w with Some i => <[i := Woken]> l | None => l end.
Definition wake_caller (w : option nat) (l : list caller) : list caller := match w with Some i => <[i := Notified]> l | None => l end.

Definition schedule (t : task) (w : option nat) (p : thread_pool) : thread_pool :=
  mk_pool (busy_ p) (tasks_ p ++ [t]) (wake_worker w (threads_ p)) (running p) (callers p)
    (scheduled p ++ [t]) (started p) (executed p).

(** The thread runs from its creation on, before it is entered in [threads_]. *)
Definition add_task (p : thread_pool) : thread_pool :=
  mk_pool (busy_ p) (tasks_ p) (threads_ p ++ [Ready]) (running p) (callers p) (scheduled p) (started p) (executed p).

(** The first half of [shutdown]; then the caller joins the threads. *)
Definition shutdown (p : thread_pool) : thread_pool :=
  if running p then
    mk_pool (busy_ p) (tasks_ p) ((fun w => match w with Waiting => Woken | _ => w end) <$> threads_ p) false (callers p)
      (scheduled p) (started p) (executed p)
  else p.

(** [execute] with the mutex: from the wait on until the mutex is released. *)
Definition take_task (i : nat) (p : thread_pool) : thread_pool :=
  if negb (running p) then set_worker i Finished p
  else
    match tasks_ p with
    | [] => set_worker i Waiting p
    | t :: ts =>
      mk_pool (S (busy_ p)) ts (<[i := Running t]> (threads_ p)) (running p) (callers p)
        (scheduled p) (started p ++ [t]) (executed p)
    end.

(** [func()], [--busy_], [notify_one()]. *)
Definition run_task (i : nat) (t : task) (p : thread_pool) : thread_pool :=
  mk_pool (busy_ p) (tasks_ p) (<[i := Ran]> (threads_ p)) (running p) (callers p) (scheduled p) (started p) (executed p ++ [t]).
Definition count_down (i : nat) (p : thread_pool) : thread_pool :=
  mk_pool (pred (busy_ p)) (tasks_ p) (<[i := Counted]> (threads_ p)) (running p) (callers p) (scheduled p) (started p) (executed p).
Definition notify_finished (i : nat) (w : option nat) (p : thread_pool) : thread_pool :=
  mk_pool (busy_ p) (tasks_ p) (<[i := Ready]> (threads_ p)) (running p) (wake_caller w (callers p))
    (scheduled p) (started p) (executed p).

(** The test of [wait]. *)
Definition test_finished (c : nat) (p : thread_pool) : thread_pool :=
  if bool_decide (tasks_ p = []) && (busy_ p =? 0)%nat then set_caller c Returned p else set_caller c Tested p.

(** Nobody is between the test and the wait, which is inside the mutex. *)
Definition unlocked (p : thread_pool) : Prop := Tested ∉ callers p.

Definition notified {A} (waiting : A) (w : option nat) (l : list A) : Prop :=
  match w with Some i => l !! i = Some waiting | None => waiting ∉ l end.

Inductive step : thread_pool -> thread_pool -> Prop :=
| step_schedule t w p : unlocked p -> notified Waiting w (threads_ p) -> step p (schedule t w p)
| step_add_task p : step p (add_task p)
| step_shutdown p : unlocked p -> step p (shutdown p)
| step_take i p :
    unlocked p -> threads_ p !! i = Some Ready \/ threads_ p !! i = Some Woken -> step p (take_task i p)
| step_spurious i p : threads_ p !! i = Some Waiting -> step p (set_worker i Woken p)
| step_run i t p : threads_ p !! i = Some (Running t) -> step p (run_task i t p)
| step_count i p : threads_ p !! i = Some Ran -> step p (count_down i p)
| step_notify i w p :
    threads_ p !! i = Some Counted -> notified Blocked w (callers p) -> step p (notify_finished i w p)
| step_test c p :
    unlocked p -> callers p !! c = Some Calling \/ callers p !! c = Some Notified -> step p (test_finished c p)
| step_block c p : callers p !! c = Some Tested -> step p (set_caller c Blocked p)
| step_spurious_caller c p : callers p !! c = Some Blocked -> step p (set_caller c Notified p).

Definition reachable (size n : nat) (p : thread_pool) : Prop := rtc step (make_pool size n) p.

(** ** The invariant *)

Definition task_of (w : worker) : option task := match w with Running t => Some t | _ => None end.
Definition counted (w : worker) : bool := match w with Running _ | Ran => true | _ => false end.
Definition idle (w : worker) : Prop := w = Waiting \/ w = Finished.

Record pool_inv (p : thread_pool) : Prop := {
  inv_queue : scheduled p = started p ++ tasks_ p;
  inv_started : Permutation (started p) (executed p ++ omap task_of (threads_ p));
  inv_busy : busy_ p = length (List.filter counted (threads_ p));
  inv_awake : running p = true -> tasks_ p <> [] -> threads_ p <> [] -> exists i w, threads_ p !! i = Some w /\ ~ idle w;
  inv_finished : running p = true -> Finished ∉ threads_ p }.

Lemma omap_insert (l : list worker) i w w' :
  l !! i = Some w -> Permutation (omap task_of (<[i := w']> l) ++ option_list (task_of w)) (omap task_of l ++ option_list (task_of w')).
Proof.
  intros Hi. rewrite insert_take_drop by by eapply lookup_lt_Some.
  rewrite <- (take_drop_middle l i w Hi) at 3. rewrite !omap_app; cbn [omap list_omap].
  destruct (task_of w), (task_of w'); cbn [option_list]; rewrite ?app_nil_r; try done; solve_Permutation.
Qed.

Lemma counted_insert (l : list worker) i w w' :
  l !! i = Some w ->
  (length (List.filter counted (<[i := w']> l)) + Nat.b2n (counted w) = length (List.filter counted l) + Nat.b2n (counted w'))%nat.
Proof.
  intros Hi. rewrite insert_take_drop by by eapply lookup_lt_Some.
  rewrite <- (take_drop_middle l i w Hi) at 3. rewrite !List.filter_app, !length_app; cbn [List.filter].
  destruct (counted w), (counted w'); cbn [length Nat.b2n]; lia.
Qed.

(** A worker that goes on from one place to another, with the task it takes
    ([task_of] afterwards) or leaves behind ([task_of] before). *)
Lemma started_insert (l : list worker) i w w' ex st :
  l !! i = Some w -> Permutation st (ex ++ omap task_of l) ->
  Permutation (st ++ option_list (task_of w')) (ex ++ option_list (task_of w) ++ omap task_of (<[i := w']> l)).
Proof.
  intros Hi ->. rewrite <- app_assoc. apply Permutation_app_head.
  rewrite <- (omap_insert _ _ _ w' Hi). solve_Permutation.
Qed.

Definition silent (w w' : worker) : Prop := task_of w = None /\ task_of w' = None /\ counted w = counted w'.

Lemma awake_insert (l : list worker) i w w' : l !! i = Some w -> ~ idle w' -> exists j v, <[i := w']> l !! j = Some v /\ ~ idle v.
Proof. intros Hi Hw. exists i, w'. by rewrite list_lookup_insert_eq by by eapply lookup_lt_Some. Qed.

Lemma finished_insert (l : list worker) i w' : Finished ∉ l -> w' <> Finished -> Finished ∉ <[i := w']> l.
Proof.
  intros Hl Hw [j Hj]%list_elem_of_lookup. apply list_lookup_insert_Some in Hj as [(_ & Hj & _)|[_ Hj]]; [done|].
  by apply Hl, list_elem_of_lookup_2 with j.
Qed.

(** A step that only moves one worker, silently and not to rest. *)
Lemma inv_move p i w w' tk cl sch :
  pool_inv p -> threads_ p !! i = Some w -> silent w w' -> ~ idle w' ->
  sch = started p ++ tk ->
  pool_inv (mk_pool (busy_ p) tk (<[i := w']> (threads_ p)) (running p) cl sch (started p) (executed p)).
Proof.
  intros [Hq Hs Hb Ha Hf] Hi (H1 & H2 & H3) Hw Hsch. constructor; cbn; [done| | | |].
  - pose proof (started_insert _ _ _ w' _ _ Hi Hs) as H. rewrite H1, H2 in H. cbn in H. by rewrite app_nil_r in H.
  - pose proof (counted_insert _ _ _ w' Hi). rewrite H3 in *. lia.
  - intros _ _ _. by eapply awake_insert.
  - intros Hr. apply finished_insert; [auto|]. intros ->. apply Hw. by right.
Qed.

Lemma inv_callers p cl : pool_inv p -> pool_inv (mk_pool (busy_ p) (tasks_ p) (threads_ p) (running p) cl (scheduled p) (started p) (executed p)).
Proof. intros [Hq Hs Hb Ha Hf]. by constructor. Qed.

Lemma inv_schedule t w p : pool_inv p -> notified Waiting w (threads_ p) -> pool_inv (schedule t w p).
Proof.
  intros HI Hw. pose proof HI as [Hq Hs Hb Ha Hf]. unfold schedule, wake_worker. destruct w as [i|]; cbn in Hw.
  - eapply inv_move; [done|done|done|by intros [|]|]. by rewrite Hq, app_assoc.
  - constructor; cbn; [by rewrite Hq, app_assoc|done|done| |done].
    intros Hr _ Hth. destruct (threads_ p) as [|v l]; [done|]. exists O, v. split; [done|].
    intros [-> | ->]; [apply Hw | apply (Hf Hr)]; left.
Qed.

Lemma inv_add_task p : pool_inv p -> pool_inv (add_task p).
Proof.
  intros [Hq Hs Hb Ha Hf]. constructor; cbn; [done| | | |].
  - by rewrite omap_app, app_nil_r.
  - by rewrite List.filter_app, app_nil_r.
  - intros _ _ _. exists (length (threads_ p)), Ready. split; [|by intros [|]]. by rewrite list_lookup_middle.
  - intros Hr [H|H]%elem_of_app; [by apply Hf|]. by apply list_elem_of_singleton in H.
Qed.

Lemma inv_shutdown p : pool_inv p -> pool_inv (shutdown p).
Proof.
  intros HI. unfold shutdown. destruct (running p) eqn:Hr; [|done]. destruct HI as [Hq Hs Hb Ha Hf].
  constructor; cbn; [done| | |done|done].
  - rewrite Hs. apply Permutation_app_head. clear. induction (threads_ p) as [|[] l IH]; cbn; rewrite ?IH; auto.
  - rewrite Hb. clear. induction (threads_ p) as [|[] l IH]; cbn; by rewrite ?IH.
Qed.

Lemma inv_take i p : pool_inv p -> threads_ p !! i = Some Ready \/ threads_ p !! i = Some Woken -> pool_inv (take_task i p).
Proof.
  intros HI Hi. pose proof HI as [Hq Hs Hb Ha Hf].
  assert (exists w, threads_ p !! i = Some w /\ task_of w = None /\ counted w = false) as (w & Hw & H1 & H2) by (destruct Hi; eauto).
  pose proof (fun w' => started_insert _ _ _ w' _ _ Hw Hs) as Hst. rewrite H1 in Hst. cbn in Hst.
  pose proof (fun w' => counted_insert _ _ _ w' Hw) as Hct. rewrite H2 in Hct. cbn in Hct.
  unfold take_task, set_worker. destruct (running p) eqn:Hr; cbn; [destruct (tasks_ p) as [|t ts] eqn:Ht|].
  - constructor; cbn; [done| | |done|].
    + pose proof (Hst Waiting) as H. cbn in H. by rewrite app_nil_r in H.
    + specialize (Hct Waiting). cbn in Hct. lia.
    + intros _. by apply finished_insert; [apply Hf|].
  - constructor; cbn; [by rewrite Hq, cons_middle, app_assoc|apply (Hst (Running t))| | |].
    + specialize (Hct (Running t)). cbn in Hct. lia.
    + intros _ _ _. eapply awake_insert; [done|by intros [|]].
    + intros _. by apply finished_insert; [apply Hf|].
  - constructor; cbn; [done| | |done|done].
    + pose proof (Hst Finished) as H. cbn in H. by rewrite app_nil_r in H.
    + specialize (Hct Finished). cbn in Hct. lia.
Qed.

Lemma inv_run i t p : pool_inv p -> threads_ p !! i = Some (Running t) -> pool_inv (run_task i t p).
Proof.
  intros [Hq Hs Hb Ha Hf] Hi. constructor; cbn; [done| | | |].
  - pose proof (started_insert _ _ _ Ran _ _ Hi Hs) as H. cbn in H. rewrite app_nil_r in H. by rewrite <- app_assoc.
  - pose proof (counted_insert _ _ _ Ran Hi) as H. cbn in H. lia.
  - intros _ _ _. eapply awake_insert; [done|by intros [|]].
  - intros Hr. apply finished_insert; auto.
Qed.

Lemma inv_count i p : pool_inv p -> threads_ p !! i = Some Ran -> pool_inv (count_down i p).
Proof.
  intros [Hq Hs Hb Ha Hf] Hi. constructor; cbn; [done| | | |].
  - pose proof (started_insert _ _ _ Counted _ _ Hi Hs) as H. cbn in H. by rewrite app_nil_r in H.
  - pose proof (counted_insert _ _ _ Counted Hi) as H. cbn in H. lia.
  - intros _ _ _. eapply awake_insert; [done|by intros [|]].
  - intros Hr. apply finished_insert; auto.
Qed.

Lemma inv_step p p' : step p p' -> pool_inv p -> pool_inv p'.
Proof.
  intros Hst HI. pose proof (inv_queue _ HI). destruct Hst.
  - by apply inv_schedule.
  - by apply inv_add_task.
  - by apply inv_shutdown.
  - by apply inv_take.
  - eapply inv_move; [done|done|done|by intros [|]|done].
  - by apply inv_run.
  - by apply inv_count.
  - eapply inv_move; [done|done|done|by intros [|]|done].
  - unfold test_finished. case_match; by apply inv_callers.
  - by apply inv_callers.
  - by apply inv_callers.
Qed.

Lemma inv_make size n : pool_inv (make_pool size n).
Proof.
  constructor; cbn; [done| | |done|].
  - induction size; cbn; auto.
  - induction size; cbn; auto.
  - intros _ H%elem_of_replicate. by destruct H.
Qed.

Lemma reachable_pool_inv size n p : reachable size n p -> pool_inv p.
Proof. intros H. pose proof (inv_make size n) as HI. unfold reachable in H. induction H; eauto using inv_step. Qed.

Lemma none_busy (l : list worker) : length (List.filter counted l) = O -> omap task_of l = [].
Proof. induction l as [|[] l IH]; cbn; intros; auto; discriminate. Qed.

(** ** What the pool promises *)

(** The callers that may test whether the pool has finished. *)
Definition may_test (c : nat) (p : thread_pool) : Prop :=
  unlocked p /\ (callers p !! c = Some Calling \/ callers p !! c = Some Notified).

(** C28: in every interleaving of workers, callers and [shutdown], tasks are
    taken in the order they were scheduled and none is taken twice or lost;
    when [wait] returns every scheduled task has been executed, exactly once;
    and while the pool runs, has a thread and a task is pending, some worker
    neither sleeps nor has ended. *)
Theorem pool_serves size n p :
  reachable size n p ->
  scheduled p = started p ++ tasks_ p /\
  (forall c, may_test c p -> callers (test_finished c p) !! c = Some Returned -> Permutation (scheduled p) (executed p)) /\
  (running p = true -> tasks_ p <> [] -> threads_ p <> [] -> exists i w, threads_ p !! i = Some w /\ ~ idle w).
Proof.
  intros [Hq Hs Hb Ha _]%reachable_pool_inv. split_and!; [done| |done]. intros c [_ Hc]. unfold test_finished.
  assert (c < length (callers p))%nat by (destruct Hc; by eapply lookup_lt_Some).
  destruct (bool_decide_reflect (tasks_ p = [])) as [Ht|]; [destruct (Nat.eqb_spec (busy_ p) 0) as [H0|]|]; cbn;
    rewrite list_lookup_insert_eq by done; try done.
  intros _. rewrite Hq, Ht, Hs, none_busy, !app_nil_r by lia. done.
Qed.

(** One worker, one caller: the task is scheduled, taken, run and counted. *)
Definition run_counted : thread_pool := mk_pool 0 [] [Counted] true [Calling] [7%nat] [7%nat] [7%nat].

Lemma run_counted_reachable : reachable 1 1 run_counted.
Proof.
  eapply rtc_l; [apply (step_schedule 7 None); [apply not_elem_of_cons; split; [done|apply not_elem_of_nil]|]|].
  { apply not_elem_of_cons. split; [done|apply not_elem_of_nil]. }
  eapply rtc_l; [apply (step_take 0); [apply not_elem_of_cons; split; [done|apply not_elem_of_nil]|by left]|].
  eapply rtc_l; [by apply (step_run 0 7)|]. eapply rtc_l; [by apply (step_count 0)|]. apply rtc_refl.
Defined.

Lemma pool_serves_witness :
  may_test 0 run_counted /\ callers (test_finished 0 run_counted) !! 0%nat = Some Returned /\
  Permutation (scheduled run_counted) (executed run_counted).
Proof.
  assert (H : may_test 0 run_counted)
    by (split; [apply not_elem_of_cons; split; [done|apply not_elem_of_nil]|by left]).
  split; [exact H|]. split; [reflexivity|].
  destruct (pool_serves 1 1 run_counted run_counted_reachable) as (_ & Hw & _). apply (Hw 0%nat H). reflexivity.
Defined.

(** [busy_] is counted down and the caller notified without the mutex: when
    that happens between the test of [wait] and its sleep, nobody wakes the
    caller, although all tasks are done and the worker sleeps, too. *)
Example wait_sleeps_on :
  exists p, reachable 1 1 p /\ tasks_ p = [] /\ busy_ p = O /\ threads_ p = [Waiting] /\ callers p = [Blocked].
Proof.
  assert (Hf : forall (c : caller), c <> Tested -> Tested ∉ [c]) by (intros c Hc ?%list_elem_of_singleton; congruence).
  exists (mk_pool 0 [] [Waiting] true [Blocked] [7%nat] [7%nat] [7%nat]); split; [|split_and!; reflexivity].
  eapply rtc_l; [apply (step_schedule 7 None); [by apply Hf|by intros ?%list_elem_of_singleton]|].
  eapply rtc_l; [apply (step_take 0); [by apply Hf|by left]|].
  eapply rtc_l; [apply (step_test 0); [by apply Hf|by left]|].
  eapply rtc_l; [by apply (step_run 0 7)|]. eapply rtc_l; [by apply (step_count 0)|].
  eapply rtc_l; [apply (step_notify 0 None); [done|by intros ?%list_elem_of_singleton]|].
  eapply rtc_l; [by apply (step_block 0)|].
  eapply rtc_l; [apply (step_take 0); [by apply Hf|by left]|]. apply rtc_refl.
Qed.

(** After [shutdown] the workers end; a task that was still queued is lost. *)
Example shutdown_drops_tasks :
  exists p, reachable 1 0 p /\ tasks_ p = [7%nat] /\ threads_ p = [Finished] /\ executed p = [].
Proof.
  assert (Hf : Tested ∉ ([] : list caller)) by apply not_elem_of_nil.
  exists (mk_pool 0 [7%nat] [Finished] false [] [7%nat] [] []); split; [|split_and!; reflexivity].
  eapply rtc_l; [apply (step_schedule 7 None); [done|by intros ?%list_elem_of_singleton]|].
  eapply rtc_l; [by apply step_shutdown|]. eapply rtc_l; [apply (step_take 0); [done|by left]|]. apply rtc_refl.
Qed.

End ThreadPool.
