(* ===== verification/LeaderFollower.v ===== *)
(** * The leader/follower thread pool

    src/net/leader_follower_thread_pool.cpp: one thread, the leader, waits for
    events in the function the pool was given (the reactor's [handle_events]),
    promotes a new leader when it has got one and handles it; the other
    threads wait on a condition variable. The pool is a transition system: a
    step is what one thread does between taking the mutex and giving it back,
    so steps of different threads interleave as the mutex allows. Waking up
    without a notification, which condition variables permit, is a step too. *)

From S2P Require Import Prelude.
Local Open Scope cxx_scope.

(** Where a thread is: before its first lock, inside [join_()] (has it
    promoted another leader since it became one?), waiting on the condition
    variable, notified and waiting for the mutex, at the end of [execute]. *)
Inductive phase :=
| Start
| Join (promoted : bool)
| Waiting
| Woken
| Finished.

#[export] Instance phase_eq_dec : EqDecision phase.
Proof. solve_decision. Defined.

(** Threads are numbered; [None] is the [null_id]. *)
Record pool := mk_pool {
  leader_ : option nat;
  signal_ready_ : bool;
  signal_shutdown_ : bool;
  is_running_ : bool;
  threads_ : list phase;
}.

Definition set_phase (t : nat) (ph : phase) (p : pool) : pool :=
  mk_pool (leader_ p) (signal_ready_ p) (signal_shutdown_ p) (is_running_ p) (<[t := ph]> (threads_ p)).
Definition clear_ready (p : pool) : pool :=
  mk_pool (leader_ p) false (signal_shutdown_ p) (is_running_ p) (threads_ p).

Definition start (num_threads : nat) : pool := mk_pool None false false true (replicate num_threads Start).

Definition stop (p : pool) : pool :=
  mk_pool (leader_ p) (signal_ready_ p) (signal_shutdown_ p) false (threads_ p).

(** [notify_all]. *)
Definition wake (ph : phase) : phase := match ph with Waiting => Woken | _ => ph end.

(** The first half of [shutdown]; then the caller joins the threads. *)
Definition shutdown (p : pool) : pool :=
  mk_pool (leader_ p) (signal_ready_ p) true false (wake <$> threads_ p).

(** [promote_new_leader] called by thread [t]; [w] is the waiting thread that
    [notify_one] chooses, if there is one. *)
Definition promote_new_leader (t : nat) (w : option nat) (p : pool) : pool :=
  if bool_decide (leader_ p = Some t) then
    let ths := <[t := Join true]> (threads_ p) in
    mk_pool None true (signal_shutdown_ p) (is_running_ p)
            (match w with Some i => <[i := Woken]> ths | None => ths end)
  else p.

(** The inner loop of [execute], from its test of [leader_] on. The fuel
    counts the rounds in which the wait returns at once; [None]: the thread
    spins with the mutex held. *)
Fixpoint inner (fuel : nat) (t : nat) (p : pool) : option pool :=
  match fuel with
  | O => None
  | S fuel' =>
    match leader_ p with
    | None =>
      Some (set_phase t (Join false)
             (mk_pool (Some t) (signal_ready_ p) (signal_shutdown_ p) (is_running_ p) (threads_ p)))
    | Some _ =>
      if signal_ready_ p || signal_shutdown_ p then
        let p := clear_ready p in
        if is_running_ p then inner fuel' t p else Some (set_phase t Finished p)
      else Some (set_phase t Waiting p)
    end
  end.

(** [execute] from the head of the outer loop. *)
Definition outer (t : nat) (p : pool) : option pool :=
  if is_running_ p then inner 2 t p else Some (set_phase t Finished p).

(** [execute] from the wait on: the predicate is tested with the mutex held. *)
Definition resume (t : nat) (p : pool) : option pool :=
  if signal_ready_ p || signal_shutdown_ p then
    let p := clear_ready p in
    if is_running_ p then inner 2 t p else Some (set_phase t Finished p)
  else Some (set_phase t Waiting p).

(** What thread [t] does next once it gets the mutex. *)
Definition advance (t : nat) (p : pool) : option pool :=
  match threads_ p !! t with
  | Some Start => outer t p
  | Some (Join _) => outer t p
  | Some Woken => resume t p
  | _ => None
  end.

(** The choice of [notify_one]: a waiting thread if there is one. *)
Definition notified (w : option nat) (p : pool) : Prop :=
  match w with
  | Some i => threads_ p !! i = Some Waiting
  | None => Waiting ∉ threads_ p
  end.

Inductive step : pool -> pool -> Prop :=
| step_advance t p p' : advance t p = Some p' -> step p p'
| step_promote t b w p :
    threads_ p !! t = Some (Join b) -> notified w p -> step p (promote_new_leader t w p)
| step_spurious t p : threads_ p !! t = Some Waiting -> step p (set_phase t Woken p)
| step_stop p : step p (stop p)
| step_shutdown p : step p (shutdown p).

Definition reachable (n : nat) (p : pool) : Prop := rtc step (start n) p.

(** ** The invariant *)
Definition follower (ph : phase) : Prop := ph = Waiting \/ ph = Woken.

Record pool_inv (p : pool) : Prop := {
  inv_leader t : threads_ p !! t = Some (Join false) -> leader_ p = Some t;
  inv_shutdown : signal_shutdown_ p = true -> is_running_ p = false /\ Waiting ∉ threads_ p;
  inv_ready i ph :
    is_running_ p = true -> leader_ p = None -> threads_ p !! i = Some ph -> follower ph ->
    signal_ready_ p = true /\ exists j, threads_ p !! j = Some Woken;
}.

Lemma insert_case (l : list phase) t ph i x :
  <[t := ph]> l !! i = Some x -> i = t /\ x = ph \/ i <> t /\ l !! i = Some x.
Proof. rewrite list_lookup_insert_Some. intuition congruence. Qed.

Lemma waiting_insert (l : list phase) t ph :
  ph <> Waiting -> Waiting ∉ l -> Waiting ∉ <[t := ph]> l.
Proof.
  intros Hne Hl [i Hi]%list_elem_of_lookup. apply insert_case in Hi as [[_ ?] | [_ Hi]]; [congruence |].
  apply Hl. by eapply list_elem_of_lookup_2.
Qed.

(** What a thread can do with the mutex: become leader, wait, or finish; [b]
    is the new [signal_ready_]. *)
Definition becomes_leader (t : nat) (b : bool) (p : pool) : pool :=
  mk_pool (Some t) b (signal_shutdown_ p) (is_running_ p) (<[t := Join false]> (threads_ p)).
Definition moves_to (t : nat) (ph : phase) (b : bool) (p : pool) : pool :=
  mk_pool (leader_ p) b (signal_shutdown_ p) (is_running_ p) (<[t := ph]> (threads_ p)).

Inductive outcome (t : nat) (p : pool) : pool -> Prop :=
| outcome_leader b :
    is_running_ p = true -> leader_ p = None -> outcome t p (becomes_leader t b p)
| outcome_wait b :
    signal_shutdown_ p = false ->
    (leader_ p = None -> threads_ p !! t = Some Woken /\ signal_ready_ p = false) ->
    outcome t p (moves_to t Waiting b p)
| outcome_finish b : is_running_ p = false -> outcome t p (moves_to t Finished b p).

Lemma inner_outcome t p b :
  is_running_ p = true -> signal_shutdown_ p = false ->
  exists p', inner 2 t (mk_pool (leader_ p) b (signal_shutdown_ p) (is_running_ p) (threads_ p)) = Some p'
    /\ outcome t p p' /\ (leader_ p = None -> leader_ p' = Some t).
Proof.
  intros Hr Hs. destruct p as [l r s run ths]. simpl in *. subst. destruct l as [l|].
  - eexists. destruct b; simpl; (split; [reflexivity |]; split; [|done]);
      by apply (outcome_wait t (mk_pool (Some l) r false true ths) false).
  - eexists. split; [reflexivity |]. split; [|done].
    by apply (outcome_leader t (mk_pool None r false true ths) b).
Qed.

(** A thread that is neither waiting nor finished always gets on. *)
Lemma advance_total t p ph :
  pool_inv p -> threads_ p !! t = Some ph -> ph <> Waiting -> ph <> Finished ->
  exists p', advance t p = Some p' /\ outcome t p p'
    /\ (is_running_ p = true -> leader_ p = None -> ph = Woken -> signal_ready_ p = true -> leader_ p' = Some t).
Proof.
  intros Hp Ht Hw Hf. unfold advance. rewrite Ht.
  assert (is_running_ p = true -> signal_shutdown_ p = false) as Hns.
  { intros Hr. destruct (signal_shutdown_ p) eqn:E; [|done]. destruct (inv_shutdown p Hp E). congruence. }
  assert (exists p', outer t p = Some p' /\ outcome t p p') as Houter.
  { unfold outer. destruct (is_running_ p) eqn:Er.
    - destruct (inner_outcome t p (signal_ready_ p) Er (Hns eq_refl)) as (p' & E & Ho & _).
      exists p'. split; [|done]. rewrite <- E. by destruct p.
    - eexists. split; [reflexivity |]. by apply (outcome_finish t p (signal_ready_ p)). }
  destruct ph; try done; try (destruct Houter as (p' & E & Ho); by exists p').
  unfold resume. destruct (signal_ready_ p || signal_shutdown_ p) eqn:Es.
  - simpl. destruct (is_running_ p) eqn:Er.
    + destruct (inner_outcome t p false Er (Hns eq_refl)) as (p' & E & Ho & Hl).
      exists p'. unfold clear_ready. rewrite Er in E. rewrite Er. auto.
    + eexists. split; [reflexivity |]. split; [|congruence]. by apply (outcome_finish t p false).
  - apply orb_false_iff in Es as [E1 E2]. eexists. split; [reflexivity |]. split; [|congruence].
    apply (outcome_wait t p (signal_ready_ p)); auto.
Qed.

Lemma outcome_inv t p p' : pool_inv p -> outcome t p p' -> pool_inv p'.
Proof.
  intros Hp H. destruct H as [b Hr Hl | b Hs Hl | b Hr]; split; simpl.
  - intros i [[-> _] | [Hi Ht]]%insert_case; [done |]. apply (inv_leader p Hp) in Ht. congruence.
  - intros E. destruct (inv_shutdown p Hp E). congruence.
  - congruence.
  - intros i [[_ ?] | [Hi Ht]]%insert_case; [done |]. by apply (inv_leader p Hp).
  - congruence.
  - intros i ph Hr E _ _. destruct (Hl E) as [Ht Hready].
    destruct (inv_ready p Hp t Woken Hr E Ht) as [? _]; [by right | congruence].
  - intros i [[_ ?] | [Hi Ht]]%insert_case; [done |]. by apply (inv_leader p Hp).
  - intros E. split; [done |]. apply waiting_insert; [done |]. by apply (inv_shutdown p Hp).
  - congruence.
Qed.

Lemma advance_outcome t p p' : pool_inv p -> advance t p = Some p' -> outcome t p p'.
Proof.
  intros Hp H. unfold advance in H. destruct (threads_ p !! t) as [ph|] eqn:Ht; [|done].
  destruct (advance_total t p ph Hp Ht) as (q & E & Ho & _); [by intros -> .. |].
  unfold advance in E. rewrite Ht in E. congruence.
Qed.

Lemma promote_inv t b w p :
  pool_inv p -> threads_ p !! t = Some (Join b) -> notified w p -> pool_inv (promote_new_leader t w p).
Proof.
  intros Hp Ht Hw. unfold promote_new_leader. case_bool_decide as Hl; [|done].
  assert (forall i x, match w with Some i => <[i := Woken]> (<[t := Join true]> (threads_ p))
                      | None => <[t := Join true]> (threads_ p) end !! i = Some x ->
            x = Woken \/ x = Join true \/ i <> t /\ threads_ p !! i = Some x) as Hcase.
  { intros i x. destruct w as [j|].
    - intros [[_ ->] | [_ [[_ ->] | ?]%insert_case]]%insert_case; auto.
    - intros [[_ ->] | ?]%insert_case; auto. }
  split; simpl.
  - intros i [? | [? | [Hi Hx]]]%Hcase; try done. apply (inv_leader p Hp) in Hx. congruence.
  - intros E. destruct (inv_shutdown p Hp E) as [? Hn]. split; [done |].
    intros [i [? | [? | [Hi Hx]]]%Hcase]%list_elem_of_lookup; try done. apply Hn. by eapply list_elem_of_lookup_2.
  - intros i ph Hr _ Hi Hf. split; [done |]. destruct w as [j|].
    + exists j. apply list_lookup_insert_eq. rewrite length_insert. by eapply lookup_lt_Some.
    + exists i. destruct (Hcase i ph Hi) as [-> | [-> | [Hne Hx]]]; [done | by destruct Hf |].
      destruct Hf as [-> | ->]; [|done]. exfalso. apply Hw. by eapply list_elem_of_lookup_2.
Qed.

Lemma step_inv p p' : step p p' -> pool_inv p -> pool_inv p'.
Proof.
  intros H Hp. destruct H as [t p p' H | t b w p Ht Hw | t p Ht | p | p].
  - eapply outcome_inv; [exact Hp |]. by apply advance_outcome.
  - by eapply promote_inv.
  - split; simpl.
    + intros i [[_ ?] | [Hi Hx]]%insert_case; [done |]. by apply (inv_leader p Hp).
    + intros E. destruct (inv_shutdown p Hp E). split; [done |]. by apply waiting_insert.
    + intros i ph Hr E Hi Hf. destruct (inv_ready p Hp t Waiting Hr E Ht) as [? _]; [by left |].
      split; [done |]. exists t. apply list_lookup_insert_eq. by eapply lookup_lt_Some.
  - split; simpl; [apply (inv_leader p Hp) | | done].
    intros E. by destruct (inv_shutdown p Hp E).
  - split; simpl.
    + intros t. rewrite list_lookup_fmap. intros ([] & E & Ht)%fmap_Some; simplify_eq/=.
      by apply (inv_leader p Hp).
    + intros _. split; [done |]. intros (ph & E & _)%list_elem_of_fmap. by destruct ph.
    + done.
Qed.

Lemma reachable_inv n p : reachable n p -> pool_inv p.
Proof.
  intros H. unfold reachable in H.
  assert (pool_inv (start n)) as H0.
  { split; simpl.
    - by intros t [? _]%lookup_replicate.
    - done.
    - intros i ph _ _ [-> _]%lookup_replicate [? | ?]; done. }
  revert H0. induction H as [|p q r Hs _ IH]; [done |]. intros Hp. by eapply IH, step_inv.
Qed.

(** ** The theorems *)

(** At most one thread leads: in every reachable state of the pool, with
    any interleaving of its threads, spurious wake-ups, stops and shutdowns,
    a thread that is in [join_()] and has not promoted another leader is the
    one [leader_] names, so there are never two of them. *)
Lemma leader_unique n p t u :
  reachable n p ->
  threads_ p !! t = Some (Join false) -> threads_ p !! u = Some (Join false) ->
  t = u /\ leader_ p = Some t.
Proof.
  intros Hr Ht Hu. pose proof (reachable_inv n p Hr) as Hp.
  pose proof (inv_leader p Hp t Ht). pose proof (inv_leader p Hp u Hu). split; congruence.
Qed.

(** C35: No wake-up is lost: while the pool runs and has no leader, and a
    thread waits for its turn, there is a thread that has been woken and
    becomes the leader as soon as it gets the mutex. *)
Theorem wakeup_not_lost n p i ph :
  reachable n p -> is_running_ p = true -> leader_ p = None ->
  threads_ p !! i = Some ph -> follower ph ->
  exists t p', threads_ p !! t = Some Woken /\ advance t p = Some p' /\ step p p' /\ leader_ p' = Some t.
Proof.
  intros Hr Hrun Hl Hi Hf. pose proof (reachable_inv n p Hr) as Hp.
  destruct (inv_ready p Hp i ph Hrun Hl Hi Hf) as (Hs & t & Ht).
  destruct (advance_total t p Woken Hp Ht ltac:(done) ltac:(done)) as (p' & E & _ & H).
  exists t, p'. split_and!; auto. by eapply step_advance.
Qed.

(** C36: After [shutdown] every thread ends: no thread waits any more, and the
    next thing any thread that has not ended does with the mutex is to
    finish (the leader once [join_()] has returned), so that the threads
    can be joined. *)
Theorem shutdown_finishes n p t ph :
  reachable n p -> signal_shutdown_ p = true -> threads_ p !! t = Some ph -> ph <> Finished ->
  exists p', advance t p = Some p' /\ threads_ p' = <[t := Finished]> (threads_ p)
    /\ signal_shutdown_ p' = true.
Proof.
  intros Hr Hs Ht Hf. pose proof (reachable_inv n p Hr) as Hp.
  destruct (inv_shutdown p Hp Hs) as [Hrun Hw].
  assert (ph <> Waiting) as Hne by (intros ->; apply Hw; by eapply list_elem_of_lookup_2).
  destruct (advance_total t p ph Hp Ht Hne Hf) as (p' & E & Ho & _). exists p'.
  destruct Ho as [b H1 _ | b H1 _ | b _]; [congruence | congruence |]. done.
Qed.

(** *** A run of three threads *)

(** Thread 0 leads, 1 and 2 wait, 0 promotes and 1 is notified. *)
Definition run_promoted : pool := mk_pool None true false true [Join true; Woken; Waiting].
Definition run_leading : pool := mk_pool (Some 0) false false true [Join false; Waiting; Waiting].

Lemma run_leading_reachable : reachable 3 run_leading.
Proof.
  eapply rtc_l; [by eapply (step_advance 0) |]. eapply rtc_l; [by eapply (step_advance 1) |].
  eapply rtc_l; [by eapply (step_advance 2) |]. apply rtc_refl.
Qed.

Lemma run_promoted_reachable : reachable 3 run_promoted.
Proof.
  eapply rtc_r; [exact run_leading_reachable |]. by apply (step_promote 0 false (Some 1) run_leading).
Qed.

Lemma leader_unique_witness : (0 = 0 /\ leader_ run_leading = Some 0).
Proof. apply (leader_unique 3 run_leading 0 0); [apply run_leading_reachable | reflexivity | reflexivity]. Defined.

Lemma wakeup_not_lost_witness :
  exists t p', threads_ run_promoted !! t = Some Woken /\ advance t run_promoted = Some p'
    /\ step run_promoted p' /\ leader_ p' = Some t.
Proof.
  apply (wakeup_not_lost 3 run_promoted 2 Waiting);
    [apply run_promoted_reachable | reflexivity | reflexivity | reflexivity | by left].
Defined.

Lemma shutdown_finishes_witness :
  exists p', advance 2 (shutdown run_promoted) = Some p'
    /\ threads_ p' = [Join true; Woken; Finished] /\ signal_shutdown_ p' = true.
Proof.
  apply (shutdown_finishes 3 (shutdown run_promoted) 2 Woken); [| reflexivity | reflexivity | done].
  eapply rtc_r; [exact run_promoted_reachable | apply step_shutdown].
Defined.

(** ** A leader that does not promote

    When [join_()] returns without having promoted another leader, the thread
    finds [leader_] set to itself and waits. From then on no thread leads
    until the pool is stopped. The reactor does this when [select] is
    interrupted by a signal ([Reactor.eintr_stalls]). *)
Definition stalled (p : pool) : Prop :=
  leader_ p <> None /\ signal_ready_ p = false /\ signal_shutdown_ p = false
  /\ Forall follower (threads_ p).

Definition run_stalled : pool := mk_pool (Some 0) false false true [Waiting; Waiting].

Lemma run_stalled_reachable : reachable 2 run_stalled.
Proof.
  eapply rtc_l; [by eapply (step_advance 0) |]. eapply rtc_l; [by eapply (step_advance 1) |].
  eapply rtc_l; [by eapply (step_advance 0) |]. apply rtc_refl.
Qed.

Lemma stalled_step p p' :
  stalled p -> step p p' -> p' = stop p \/ p' = shutdown p \/ stalled p'.
Proof.
  intros (Hl & Hr & Hs & Hf) H. destruct H as [t p p' H | t b w p Ht _ | t p Ht | p | p]; auto.
  - right. right. unfold advance in H. destruct (threads_ p !! t) as [ph|] eqn:Ht; [|done].
    destruct (Forall_lookup_1 _ _ _ _ Hf Ht) as [-> | ->]; [done |].
    unfold resume in H. rewrite Hr, Hs in H. injection H as <-. split_and!; try done.
    apply Forall_insert; [done | by left].
  - destruct (Forall_lookup_1 _ _ _ _ Hf Ht); done.
  - right. right. split_and!; try done. apply Forall_insert; [done | by right].
Qed.

Example run_is_stalled : stalled run_stalled.
Proof. split_and!; try done. repeat constructor. Qed.

(** A pool that is started again after a shutdown: the wait returns at once,
    and a thread that is not the leader spins with the mutex held. *)
Example restart_spins fuel :
  inner fuel 1 (mk_pool (Some 0) false true true [Join false; Start]) = None.
Proof. induction fuel as [|fuel IH]; [done |]. exact IH. Qed.
