(* ===== verification/Reactor.v ===== *)
(** * The reactor

    src/net/reactor.cpp: the list of handlers with the events they are
    interested in, and [handle_events], which the threads of the
    leader/follower pool run: the leader waits in select for the handlers
    that are ready, picks one, takes its event out of the handler's mask,
    promotes another leader and handles the event. The reactor is a
    transition system on top of the one of [LeaderFollower]: a step is what a
    thread does while it holds a mutex, so [handle_events] is cut where the
    code releases them. What the system and the handlers decide (which
    descriptors are ready, when timers expire, what a handler does while it is
    called) is left open. *)

From S2P Require Import Prelude LeaderFollower.
Local Open Scope cxx_scope.

Module Reactor.
Local Open Scope Z_scope.

(** ** Event masks (event_type.hpp) *)
Abbreviation event_type := Z.
Definition NONE_MASK : event_type := 0.
Definition READ_MASK : event_type := 1.
Definition WRITE_MASK : event_type := 2.
Definition EXCEPT_MASK : event_type := 4.
Definition TIMEOUT_MASK : event_type := 8.
Definition READ_WRITE_MASK : event_type := Z.lor READ_MASK WRITE_MASK.

Definition is_event_type_set (source needle : event_type) : bool := 0 <? Z.land source needle.

(** ** The list of handlers: a handler is known by its address. *)
Abbreviation handler := nat.
Abbreviation t_handler_list := (list (handler * event_type)).

Definition find_handler_type (h : handler) (hs : t_handler_list) : option event_type := assoc h hs.

(** [f] applied to the mask of the first entry of [h]. *)
Fixpoint update (h : handler) (f : event_type -> event_type) (hs : t_handler_list) : t_handler_list :=
  match hs with
  | [] => []
  | (h', m) :: hs' => if decide (h' = h) then (h', f m) :: hs' else (h', m) :: update h f hs'
  end.
Fixpoint erase (h : handler) (hs : t_handler_list) : t_handler_list :=
  match hs with
  | [] => []
  | (h', m) :: hs' => if decide (h' = h) then hs' else (h', m) :: erase h hs'
  end.

Definition register_handler (h : handler) (et : event_type) (hs : t_handler_list) : t_handler_list :=
  match find_handler_type h hs with
  | None => hs ++ [(h, et)]
  | Some _ => update h (fun m => Z.lor m et) hs
  end.
Definition unregister_handler (h : handler) (hs : t_handler_list) : t_handler_list := erase h hs.
Definition schedule_timer (h : handler) (hs : t_handler_list) : t_handler_list :=
  match find_handler_type h hs with
  | None => hs ++ [(h, TIMEOUT_MASK)]
  | Some _ => hs
  end.
Definition cancel_timer (h : handler) (hs : t_handler_list) : t_handler_list := erase h hs.
Definition activate_handler (h : handler) (ev : event_type) (hs : t_handler_list) : t_handler_list :=
  update h (fun m => Z.lor m ev) hs.
Definition deactivate_handler (h : handler) (ev : event_type) (hs : t_handler_list) : t_handler_list :=
  update h (fun m => Z.land m (Z.lnot ev)) hs.
(** A turn of the loop in [remove_deleted]: a handler leaves the list of those
    to be deleted, and then the list of handlers. *)
Definition pop_deleted (deleted : list handler) : option (handler * list handler) :=
  match deleted with [] => None | h :: deleted => Some (h, deleted) end.
Definition remove_deleted (h : handler) (hs : t_handler_list) : t_handler_list := erase h hs.
(** The loop in [cleanup]. *)
Fixpoint cleanup (hs : t_handler_list) : t_handler_list :=
  match hs with [] => [] | _ :: hs => cleanup hs end.

(** ** Descriptor sets (fdset.cpp): [FD_SET] writes behind the set for a
    descriptor of [FD_SETSIZE] or more. *)
Definition FD_SETSIZE : Z := 1024.
Definition fd_set (fd : Z) (s : gset Z) : result (gset Z) :=
  if (0 <=? fd) && (fd <? FD_SETSIZE) then Ok ({[fd]} ∪ s)
  else Throw (undefined_behaviour "FD_SET behind the end of the set").

Section HandleEvents.
Context (handle : handler -> Z) (interrupter_id : Z).

Definition TIME_MAX : Z := 2 ^ 63 - 1.

(** What the handlers answer when they are asked. *)
Record answers := mk_answers { is_ready_read : handler -> bool; is_ready_write : handler -> bool; next_timeout : handler -> Z }.

(** The loop of [prepare_select_bits]. *)
Fixpoint select_bits (a : answers) (now : Z) (hs : t_handler_list) (timeout : Z) (rs ws : gset Z) : result (Z * gset Z * gset Z) :=
  match hs with
  | [] => Ok (timeout, rs, ws)
  | (h, m) :: hs' =>
    let? rs := if is_ready_read a h && is_event_type_set m READ_MASK then fd_set (handle h) rs else Ok rs in
    let? ws := if is_ready_write a h && is_event_type_set m WRITE_MASK then fd_set (handle h) ws else Ok ws in
    let timeout :=
      if (0 <? next_timeout a h) && is_event_type_set m TIMEOUT_MASK
      then Z.min timeout (if next_timeout a h <=? now then 0 else next_timeout a h - now)
      else timeout in
    select_bits a now hs' timeout rs ws
  end.

Definition prepare_select_bits (a : answers) (now : Z) (hs : t_handler_list) : result (Z * gset Z * gset Z) :=
  let? rs := fd_set interrupter_id ∅ in select_bits a now hs TIME_MAX rs ∅.

Fixpoint resolve_next_handler (a : answers) (now : Z) (rs ws : gset Z) (hs : t_handler_list) : option (handler * event_type) :=
  match hs with
  | [] => None
  | (h, _) :: hs' =>
    if (0 <? handle h) && bool_decide (handle h ∈ ws) then Some (h, WRITE_MASK)
    else if (0 <? handle h) && bool_decide (handle h ∈ rs) then Some (h, READ_MASK)
    else if (0 <? next_timeout a h) && (next_timeout a h <=? now) then Some (h, TIMEOUT_MASK)
    else resolve_next_handler a now rs ws hs'
  end.

(** ** The threads: where in [handle_events] a thread is. [Outside]: not in it;
    [Selecting] and [Selected]: before and after [select], with the sets;
    [Resolved]: a handler was chosen; [Deactivated]: its event is out of the
    mask; [Handling]: a new leader was promoted; [Cleaning] and [Removing]: in
    the loop of [remove_deleted], with a handler to remove. *)
Inductive point :=
| Outside
| Entered
| Selecting (rs ws : gset Z)
| Selected (rs ws : gset Z)
| Resolved (h : handler) (ev : event_type)
| Deactivated (h : handler) (ev : event_type)
| Handling (h : handler) (ev : event_type)
| Cleaning
| Removing (h : handler).

Record reactor := mk_reactor {
  handlers_ : t_handler_list;
  thread_pool_ : pool;
  points : list point;
  handlers_to_delete_ : list handler }.

Definition goto (t : nat) (pt : point) (s : reactor) : reactor :=
  mk_reactor (handlers_ s) (thread_pool_ s) (<[t := pt]> (points s)) (handlers_to_delete_ s).
Definition with_handlers (hs : t_handler_list) (s : reactor) : reactor :=
  mk_reactor hs (thread_pool_ s) (points s) (handlers_to_delete_ s).
Definition with_pool (p : pool) (s : reactor) : reactor := mk_reactor (handlers_ s) p (points s) (handlers_to_delete_ s).
Definition with_deleted (l : list handler) (s : reactor) : reactor := mk_reactor (handlers_ s) (thread_pool_ s) (points s) l.

(** A thread is busy with an event of a handler, from the time the event is
    taken out of the mask until it is put back. *)
Definition busy (s : reactor) (t : nat) (h : handler) (ev : event_type) : Prop :=
  points s !! t = Some (Deactivated h ev) \/ points s !! t = Some (Handling h ev).

(** Where a thread is when the pool lets it in. *)
Definition entry (ph : option phase) : point :=
  match ph with Some (Join false) => Entered | _ => Outside end.

Inductive rstep : reactor -> reactor -> Prop :=
(* the pool: a thread that is not in handle_events moves on *)
| rstep_pool t s p' :
    points s !! t = Some Outside -> advance t (thread_pool_ s) = Some p' ->
    rstep s (goto t (entry (threads_ p' !! t)) (with_pool p' s))
| rstep_spurious t s :
    threads_ (thread_pool_ s) !! t = Some Waiting -> rstep s (with_pool (set_phase t Woken (thread_pool_ s)) s)
| rstep_stop s : rstep s (with_pool (stop (thread_pool_ s)) s)
| rstep_shutdown s : rstep s (with_pool (shutdown (thread_pool_ s)) s)
(* handle_events *)
| rstep_prepare t s a now timeout rs ws :
    points s !! t = Some Entered -> prepare_select_bits a now (handlers_ s) = Ok (timeout, rs, ws) ->
    rstep s (goto t (Selecting rs ws) s)
| rstep_select t s rs ws rs' ws' :
    points s !! t = Some (Selecting rs ws) -> rs' ⊆ rs -> ws' ⊆ ws -> rstep s (goto t (Selected rs' ws') s)
| rstep_eintr t s rs ws :
    points s !! t = Some (Selecting rs ws) -> rstep s (goto t Outside s)
| rstep_interrupted t s rs ws w :
    points s !! t = Some (Selected rs ws) -> interrupter_id ∈ rs -> notified w (thread_pool_ s) ->
    rstep s (goto t Outside (with_pool (promote_new_leader t w (thread_pool_ s)) s))
| rstep_interrupted_shutdown t s rs ws :
    points s !! t = Some (Selected rs ws) -> interrupter_id ∈ rs -> rstep s (goto t Outside s)
| rstep_nothing t s rs ws a now w :
    points s !! t = Some (Selected rs ws) -> resolve_next_handler a now rs ws (handlers_ s) = None ->
    notified w (thread_pool_ s) ->
    rstep s (goto t Outside (with_pool (promote_new_leader t w (thread_pool_ s)) s))
| rstep_resolve t s rs ws a now h ev :
    points s !! t = Some (Selected rs ws) -> resolve_next_handler a now rs ws (handlers_ s) = Some (h, ev) ->
    rstep s (goto t (Resolved h ev) s)
| rstep_deactivate t s h ev :
    points s !! t = Some (Resolved h ev) ->
    rstep s (goto t (Deactivated h ev) (with_handlers (deactivate_handler h ev (handlers_ s)) s))
| rstep_promote t s h ev w :
    points s !! t = Some (Deactivated h ev) -> notified w (thread_pool_ s) ->
    rstep s (goto t (Handling h ev) (with_pool (promote_new_leader t w (thread_pool_ s)) s))
| rstep_activate t s h ev :
    points s !! t = Some (Handling h ev) ->
    rstep s (goto t Cleaning (with_handlers (activate_handler h ev (handlers_ s)) s))
(* remove_deleted, which holds no mutex *)
| rstep_pop t s h deleted :
    points s !! t = Some Cleaning -> pop_deleted (handlers_to_delete_ s) = Some (h, deleted) ->
    rstep s (goto t (Removing h) (with_deleted deleted s))
| rstep_remove t s h :
    points s !! t = Some (Removing h) -> rstep s (goto t Cleaning (with_handlers (remove_deleted h (handlers_ s)) s))
| rstep_cleaned t s :
    points s !! t = Some Cleaning -> pop_deleted (handlers_to_delete_ s) = None -> rstep s (goto t Outside s)
(* what handlers and other threads do; a handler is not registered or
   activated for an event it is just being handled for *)
| rstep_mark s h : rstep s (with_deleted (handlers_to_delete_ s ++ [h]) s)
| rstep_cleanup s : rstep s (with_handlers (cleanup (handlers_ s)) s)
| rstep_activated s h et :
    (forall t ev, busy s t h ev -> Z.land et ev = 0) -> rstep s (with_handlers (activate_handler h et (handlers_ s)) s)
| rstep_deactivated s h et : rstep s (with_handlers (deactivate_handler h et (handlers_ s)) s)
| rstep_register s h et :
    (forall t ev, busy s t h ev -> Z.land et ev = 0) -> rstep s (with_handlers (register_handler h et (handlers_ s)) s)
| rstep_unregister s h : rstep s (with_handlers (unregister_handler h (handlers_ s)) s)
| rstep_schedule s h : rstep s (with_handlers (schedule_timer h (handlers_ s)) s)
| rstep_cancel s h : rstep s (with_handlers (cancel_timer h (handlers_ s)) s).

Definition initial (n : nat) : reactor := mk_reactor [] (start n) (replicate n Outside) [].
Definition rreachable (n : nat) (s : reactor) : Prop := rtc rstep (initial n) s.

(** ** The invariant *)

Definition leading (pt : point) : Prop :=
  match pt with Outside | Handling _ _ | Cleaning | Removing _ => False | _ => True end.
Definition rw (ev : event_type) : Prop := ev = READ_MASK \/ ev = WRITE_MASK.
Definition selecting (s : reactor) (t : nat) (rs ws : gset Z) : Prop :=
  points s !! t = Some (Selecting rs ws) \/ points s !! t = Some (Selected rs ws).
Definition ready_set (ev : event_type) (rs ws : gset Z) : gset Z := if decide (ev = READ_MASK) then rs else ws.

(** The leader is the pool's leader; a mask lacks the events that are being
    handled; nobody handles what the leader may choose. *)
Record rinv (s : reactor) : Prop := {
  ri_pool : pool_inv (thread_pool_ s);
  ri_leader t pt : points s !! t = Some pt -> leading pt -> threads_ (thread_pool_ s) !! t = Some (Join false);
  ri_nodup : NoDup (handlers_ s).*1;
  ri_event t h ev : busy s t h ev \/ points s !! t = Some (Resolved h ev) -> rw ev \/ ev = TIMEOUT_MASK;
  ri_mask t h ev m : busy s t h ev -> rw ev -> (h, m) ∈ handlers_ s -> Z.land m ev = 0;
  ri_sets t rs ws u h ev :
    selecting s t rs ws -> busy s u h ev -> rw ev -> 0 < handle h -> handle h ∉ ready_set ev rs ws;
  ri_resolved t u h ev : points s !! t = Some (Resolved h ev) -> rw ev -> ~ busy s u h ev;
  ri_unique t u h ev : busy s t h ev -> busy s u h ev -> rw ev -> t = u }.

Lemma leader_only s t u pt pt' :
  rinv s -> points s !! t = Some pt -> leading pt -> points s !! u = Some pt' -> leading pt' -> t = u.
Proof.
  intros Hs Ht Hl Hu Hl'. pose proof (inv_leader _ (ri_pool s Hs) t (ri_leader s Hs t pt Ht Hl)).
  pose proof (inv_leader _ (ri_pool s Hs) u (ri_leader s Hs u pt' Hu Hl')). congruence.
Qed.

Lemma insert_point (l : list point) t pt i x :
  <[t := pt]> l !! i = Some x -> i = t /\ x = pt \/ i <> t /\ l !! i = Some x.
Proof. rewrite list_lookup_insert_Some. intuition congruence. Qed.

Lemma busy_goto t pt s u h ev :
  busy (goto t pt s) u h ev ->
  u = t /\ (pt = Deactivated h ev \/ pt = Handling h ev) \/ u <> t /\ busy s u h ev.
Proof.
  unfold busy. simpl. intros [H | H]; apply insert_point in H as [[-> <-] | [Hne H]]; auto.
Qed.

(** Steps of the pool. *)
Lemma rinv_pool p' s :
  rinv s -> pool_inv p' ->
  (forall t pt, points s !! t = Some pt -> leading pt -> threads_ p' !! t = Some (Join false)) ->
  rinv (with_pool p' s).
Proof. intros [] Hp Hl. split; done. Qed.

(** Changes of the list of handlers. *)
Lemma rinv_handlers hs s :
  rinv s -> NoDup hs.*1 ->
  (forall t h ev m, busy s t h ev -> rw ev -> (h, m) ∈ hs -> Z.land m ev = 0) -> rinv (with_handlers hs s).
Proof. intros [] Hn Hm. split; done. Qed.

(** Threads moving on without taking or leaving an event. *)
Lemma rinv_goto t pt pt0 s :
  rinv s -> points s !! t = Some pt0 ->
  (leading pt -> threads_ (thread_pool_ s) !! t = Some (Join false)) ->
  (forall h ev, (pt = Deactivated h ev \/ pt = Handling h ev) -> busy s t h ev) ->
  (forall rs ws, (pt = Selecting rs ws \/ pt = Selected rs ws) ->
     forall u h ev, u <> t -> busy s u h ev -> rw ev -> 0 < handle h -> handle h ∉ ready_set ev rs ws) ->
  (forall h ev, pt = Resolved h ev -> rw ev -> forall u, u <> t -> ~ busy s u h ev) ->
  (forall h ev, pt = Resolved h ev -> rw ev \/ ev = TIMEOUT_MASK) ->
  rinv (goto t pt s).
Proof.
  intros Hs Ht Hl Hb Hsel Hres Hev.
  assert (forall u h ev, busy (goto t pt s) u h ev -> busy s u h ev) as Hbusy.
  { intros u h ev [[-> Hpt] | [_ Hu]]%busy_goto; [by apply Hb | done]. }
  split; simpl.
  - apply Hs.
  - intros u x [[-> ->] | [_ Hu]]%insert_point Hx; [by apply Hl | by eapply ri_leader].
  - apply Hs.
  - intros u h ev [Hu | Hu]; [apply (ri_event s Hs u h); left; by apply Hbusy |]. simpl in Hu.
    apply insert_point in Hu as [[-> <-] | [_ Hu]]; [by eapply Hev | apply (ri_event s Hs u h); by right].
  - intros u h ev m Hu. eapply ri_mask; [done | by apply Hbusy].
  - intros u rs ws v h ev Hu Hv Hrw Hpos. assert (v <> t \/ v = t) as Hvt by lia. unfold selecting in Hu. simpl in Hu.
    destruct Hu as [Hu | Hu]; apply insert_point in Hu as [[-> <-] | [Hne Hu]].
    1, 3: destruct Hvt as [Hvt | ->]; [eapply Hsel; eauto |];
      apply busy_goto in Hv as [[_ [? | ?]] | [? _]]; done.
    all: apply (ri_sets s Hs u rs ws v h ev); [first [by left | by right] | by apply Hbusy | done | done].
  - intros u v h ev [[-> <-] | [_ Hu]]%insert_point Hrw Hv; [|by eapply ri_resolved; eauto].
    apply busy_goto in Hv as [[_ [? | ?]] | [? Hv]]; try done. by eapply Hres.
  - intros u v h ev Hu Hv. eapply ri_unique; eauto.
Qed.

(** *** The list of handlers *)

Lemma update_keys h f hs : (update h f hs).*1 = hs.*1.
Proof. induction hs as [|[h' m] hs IH]; [done |]. simpl. case_decide; cbn [fmap list_fmap fst]; [done | f_equal; exact IH]. Qed.

Lemma elem_of_update h f hs x m :
  NoDup hs.*1 -> (x, m) ∈ update h f hs ->
  x <> h /\ (x, m) ∈ hs \/ x = h /\ exists m0, (h, m0) ∈ hs /\ m = f m0.
Proof.
  induction hs as [|[h' m'] hs IH]; intros Hn H; simpl in *; [by apply elem_of_nil in H |].
  apply list.NoDup_cons in Hn as [Hh Hn]. case_decide as E.
  - subst h'. apply elem_of_cons in H as [[= -> ->] | H].
    + right. split; [done |]. exists m'. split; [by left | done].
    + left. split; [|by right]. intros ->. apply Hh. apply list_elem_of_fmap. by exists (h, m).
  - apply elem_of_cons in H as [[= -> ->] | H]; [left; split; [done | by left] |].
    destruct (IH Hn H) as [[? ?] | (-> & m0 & ? & ->)]; [left; split; [done | by right] |].
    right. split; [done |]. exists m0. split; [by right | done].
Qed.

Lemma erase_sublist h hs : erase h hs `sublist_of` hs.
Proof.
  induction hs as [|[h' m] hs IH]; simpl; [constructor |]. case_decide; [by apply sublist_cons | by apply sublist_skip].
Qed.

Lemma cleanup_nil hs : cleanup hs = [].
Proof. by induction hs. Qed.

Lemma assoc_none h (hs : t_handler_list) : assoc h hs = None -> h ∉ hs.*1.
Proof.
  induction hs as [|[h' m] hs IH]; simpl; [intros _ H; by apply elem_of_nil in H |]. case_decide; [done |].
  intros Ha [? | ?]%elem_of_cons; [congruence | by apply IH].
Qed.

(** Removing handlers keeps the invariant. *)
Lemma rinv_sublist hs s : rinv s -> hs `sublist_of` handlers_ s -> rinv (with_handlers hs s).
Proof.
  intros Hs Hl. apply rinv_handlers; [done | |].
  - eapply sublist_NoDup; [apply (ri_nodup s Hs) |]. by apply fmap_sublist.
  - intros t h ev m Hb Hrw Hin. eapply ri_mask; [done.. |]. by eapply elem_of_sublist.
Qed.

Lemma land_lor_0 m et ev : Z.land m ev = 0 -> Z.land et ev = 0 -> Z.land (Z.lor m et) ev = 0.
Proof. intros H1 H2. rewrite Z.land_lor_distr_l, H1, H2. done. Qed.

Lemma land_clear m ev : Z.land (Z.land m (Z.lnot ev)) ev = 0.
Proof. rewrite <- Z.land_assoc, (Z.land_comm (Z.lnot ev)), Z.land_lnot_diag. apply Z.land_0_r. Qed.

(** Clearing bits. *)
Lemma rinv_clear h et s : rinv s -> rinv (with_handlers (deactivate_handler h et (handlers_ s)) s).
Proof.
  intros Hs. unfold deactivate_handler. apply rinv_handlers; [done | rewrite update_keys; apply Hs |].
  intros t x ev m Hb Hrw [[_ Hin] | (-> & m0 & Hin & ->)]%elem_of_update; [by eapply ri_mask | | apply Hs].
  rewrite <- Z.land_assoc, (Z.land_comm (Z.lnot et)), Z.land_assoc, (ri_mask s Hs t h ev m0 Hb Hrw Hin). done.
Qed.

(** Setting bits that nobody handles. *)
Lemma rinv_set h et s :
  rinv s -> (forall t ev, busy s t h ev -> rw ev -> Z.land et ev = 0) ->
  rinv (with_handlers (update h (fun m => Z.lor m et) (handlers_ s)) s).
Proof.
  intros Hs Het. apply rinv_handlers; [done | rewrite update_keys; apply Hs |].
  intros t x ev m Hb Hrw [[_ Hin] | (-> & m0 & Hin & ->)]%elem_of_update; [by eapply ri_mask | | apply Hs].
  apply land_lor_0; [by eapply ri_mask | by eapply Het].
Qed.

(** A new handler at the end of the list. *)
Lemma rinv_new h et s :
  rinv s -> find_handler_type h (handlers_ s) = None -> (forall t ev, busy s t h ev -> rw ev -> Z.land et ev = 0) ->
  rinv (with_handlers (handlers_ s ++ [(h, et)]) s).
Proof.
  intros Hs Hn%assoc_none Het. apply rinv_handlers; [done | |].
  - rewrite fmap_app. apply list.NoDup_app. split; [apply Hs |]. split; [|apply NoDup_singleton].
    intros x Hx Hx2. apply list_elem_of_singleton in Hx2. by subst.
  - intros t x ev m Hb Hrw [Hin | Hin]%elem_of_app; [by eapply ri_mask |]. apply list_elem_of_singleton in Hin as [= -> ->]. by eapply Het.
Qed.

(** *** Choosing a handler *)

Lemma fd_set_Ok fd s s' x : fd_set fd s = Ok s' -> x ∈ s' -> x = fd \/ x ∈ s.
Proof. unfold fd_set. destruct (_ && _); intros [= <-]; set_solver. Qed.

Lemma select_bits_from a now hs timeout rs ws timeout' rs' ws' x :
  select_bits a now hs timeout rs ws = Ok (timeout', rs', ws') ->
  (x ∈ rs' -> x ∈ rs \/ exists h m, (h, m) ∈ hs /\ handle h = x /\ is_event_type_set m READ_MASK = true)
  /\ (x ∈ ws' -> x ∈ ws \/ exists h m, (h, m) ∈ hs /\ handle h = x /\ is_event_type_set m WRITE_MASK = true).
Proof.
  revert timeout rs ws. induction hs as [|[h m] hs IH]; intros timeout rs ws H; simpl in H; [simplify_eq; auto |].
  apply rbind_Ok in H as (rs1 & H1 & H). apply rbind_Ok in H as (ws1 & H2 & H). destruct (IH _ _ _ H) as [IHr IHw].
  split.
  - intros Hx. destruct (IHr Hx) as [Hx1 | (h' & m' & ? & ? & ?)]; [|right; exists h', m'; split; [by right | done]].
    destruct (is_ready_read a h && is_event_type_set m READ_MASK) eqn:E; [|simplify_eq; by left].
    apply andb_true_iff in E as [_ E]. destruct (fd_set_Ok _ _ _ _ H1 Hx1) as [-> | ?]; [|by left].
    right. exists h, m. split; [by left | done].
  - intros Hx. destruct (IHw Hx) as [Hx1 | (h' & m' & ? & ? & ?)]; [|right; exists h', m'; split; [by right | done]].
    destruct (is_ready_write a h && is_event_type_set m WRITE_MASK) eqn:E; [|simplify_eq; by left].
    apply andb_true_iff in E as [_ E]. destruct (fd_set_Ok _ _ _ _ H2 Hx1) as [-> | ?]; [|by left].
    right. exists h, m. split; [by left | done].
Qed.

Lemma resolve_from a now rs ws hs h ev :
  resolve_next_handler a now rs ws hs = Some (h, ev) ->
  ev = TIMEOUT_MASK \/ rw ev /\ 0 < handle h /\ handle h ∈ ready_set ev rs ws.
Proof.
  induction hs as [|[h' m] hs IH]; simpl; [done |].
  destruct ((0 <? handle h') && bool_decide (handle h' ∈ ws)) eqn:E1.
  { intros [= -> <-]. apply andb_true_iff in E1 as [E1%Z.ltb_lt E2%bool_decide_eq_true]. right. split; [by right | done]. }
  destruct ((0 <? handle h') && bool_decide (handle h' ∈ rs)) eqn:E2.
  { intros [= -> <-]. apply andb_true_iff in E2 as [E3%Z.ltb_lt E4%bool_decide_eq_true]. right. split; [by left | done]. }
  destruct ((0 <? next_timeout a h') && _); [intros H; simplify_eq; by left | exact IH].
Qed.

(** Descriptors: every handler has its own, and the interrupter too. *)
Context (handle_inj : forall h h', 0 < handle h -> handle h = handle h' -> h = h').
Context (handle_interrupter : forall h, handle h <> interrupter_id).

Lemma prepare_free a now timeout rs ws s t h ev :
  rinv s -> prepare_select_bits a now (handlers_ s) = Ok (timeout, rs, ws) ->
  busy s t h ev -> rw ev -> 0 < handle h -> handle h ∉ ready_set ev rs ws.
Proof.
  intros Hs H Hb Hrw Hpos Hin. unfold prepare_select_bits in H. apply rbind_Ok in H as (rs0 & H0 & H).
  destruct (select_bits_from _ _ _ _ _ _ _ _ _ (handle h) H) as [Hr Hw].
  assert (exists h' m, (h', m) ∈ handlers_ s /\ handle h' = handle h /\ is_event_type_set m ev = true) as (h' & m & Hm & He & Hset).
  { destruct Hrw as [-> | ->]; unfold ready_set in Hin.
    - rewrite decide_True in Hin by done. destruct (Hr Hin) as [Hx | Hx]; [|done]. exfalso.
      destruct (fd_set_Ok _ _ _ _ H0 Hx) as [E | E]; [by apply (handle_interrupter h) | set_solver].
    - rewrite decide_False in Hin by done. destruct (Hw Hin) as [Hx | Hx]; [set_solver | done]. }
  assert (h = h') as <- by (by apply handle_inj). unfold is_event_type_set in Hset.
  rewrite (ri_mask s Hs t h ev m Hb Hrw Hm) in Hset. done.
Qed.

(** *** Every step keeps the invariant *)

Lemma rinv_pool_step p' s :
  rinv s -> step (thread_pool_ s) p' ->
  (forall t pt, points s !! t = Some pt -> leading pt -> threads_ (thread_pool_ s) !! t = Some (Join false) ->
     threads_ p' !! t = Some (Join false)) ->
  rinv (with_pool p' s).
Proof.
  intros Hs Hp Hl. apply rinv_pool; [done | by eapply step_inv, Hs |]. intros t pt Ht Hpt. eapply Hl; [done.. |].
  by eapply ri_leader.
Qed.

(** A thread that leaves [handle_events], or comes back to its beginning, or
    cleans up. *)
Lemma rinv_leaves t pt pt' s : rinv s -> points s !! t = Some pt ->
  match pt' with Outside | Cleaning | Removing _ => True | _ => False end -> rinv (goto t pt' s).
Proof. intros Hs Ht Hp. eapply rinv_goto; try done; intros; destruct pt'; simplify_eq; naive_solver. Qed.
Lemma rinv_outside t pt s : rinv s -> points s !! t = Some pt -> rinv (goto t Outside s).
Proof. intros Hs Ht. by eapply rinv_leaves. Qed.
Lemma rinv_deleted l s : rinv s -> rinv (with_deleted l s).
Proof. by intros []. Qed.

(** The leader gives up the lead. *)
Lemma rinv_promote t pt pt' w s :
  rinv s -> points s !! t = Some pt -> leading pt -> notified w (thread_pool_ s) ->
  rinv (goto t pt' s) -> ~ leading pt' ->
  rinv (goto t pt' (with_pool (promote_new_leader t w (thread_pool_ s)) s)).
Proof.
  intros Hs Ht Hpt Hw Hg Hn. pose proof (ri_leader s Hs t pt Ht Hpt) as Hj.
  change (rinv (with_pool (promote_new_leader t w (thread_pool_ (goto t pt' s))) (goto t pt' s))).
  apply rinv_pool_step; [done | by eapply step_promote |]. simpl. intros u pu Hu Hl _.
  apply insert_point in Hu as [[-> ->] | [Hne Hu]]; [done |]. exfalso. apply Hne.
  by eapply (leader_only s u t pu pt).
Qed.

Lemma advance_other t u p p' : pool_inv p -> advance t p = Some p' -> u <> t -> threads_ p' !! u = threads_ p !! u.
Proof.
  intros Hp H Hne. destruct (advance_outcome _ _ _ Hp H); simpl; by rewrite list_lookup_insert_ne.
Qed.

Lemma rstep_pool_inv t s p' :
  rinv s -> points s !! t = Some Outside -> advance t (thread_pool_ s) = Some p' ->
  rinv (goto t (entry (threads_ p' !! t)) (with_pool p' s)).
Proof.
  intros Hs Ht Ha.
  assert (rinv (with_pool p' s)) as Hs'.
  { apply rinv_pool_step; [done | by eapply step_advance |]. intros u pu Hu Hl Hj.
    rewrite (advance_other t u (thread_pool_ s)); [done | apply Hs | done |]. intros ->. rewrite Ht in Hu. by simplify_eq. }
  eapply (rinv_goto t _ Outside); [done | done | | | | |]; unfold entry; simpl;
    destruct (threads_ p' !! t) as [[|[]| | |]|]; intros; simplify_eq; naive_solver.
Qed.

(** Taking the event out of the mask. *)
Lemma rstep_deactivate_inv t s h ev :
  rinv s -> points s !! t = Some (Resolved h ev) ->
  rinv (goto t (Deactivated h ev) (with_handlers (deactivate_handler h ev (handlers_ s)) s)).
Proof.
  intros Hs Ht.
  assert (forall u x ev', busy (goto t (Deactivated h ev) (with_handlers (deactivate_handler h ev (handlers_ s)) s)) u x ev' ->
    u = t /\ x = h /\ ev' = ev \/ u <> t /\ busy s u x ev') as Hb.
  { intros u x ev' [[-> [Hp | Hp]] | [Hne Hu]]%busy_goto; simplify_eq; [by left | by right]. }
  split; simpl.
  - apply Hs.
  - intros u pu [[-> ->] | [_ Hu]]%insert_point Hl; by eapply ri_leader.
  - unfold deactivate_handler. rewrite update_keys. apply Hs.
  - intros u x ev' [[(-> & -> & ->) | [_ Hu]]%Hb | [[_ ?] | [_ Hu]]%insert_point]; simplify_eq.
    + apply (ri_event s Hs t h). by right.
    + apply (ri_event s Hs u x). by left.
    + apply (ri_event s Hs u x). by right.
  - intros u x ev' m Hu Hrw Hin. unfold deactivate_handler in Hin.
    apply elem_of_update in Hin as [[Hne Hin] | (-> & m0 & Hin & ->)]; [| |apply Hs].
    + apply Hb in Hu as [(-> & -> & ->) | [_ Hu]]; [done |]. by eapply ri_mask.
    + apply Hb in Hu as [(-> & _ & ->) | [_ Hu]]; [apply land_clear |].
      rewrite <- Z.land_assoc, (Z.land_comm (Z.lnot ev)), Z.land_assoc, (ri_mask s Hs u h ev' m0 Hu Hrw Hin). done.
  - intros u rs ws v x ev' Hu Hv Hrw Hpos. exfalso.
    assert (u <> t /\ selecting s u rs ws) as [Hne Hu'].
    { destruct Hu as [Hu | Hu]; simpl in Hu; apply insert_point in Hu as [[_ ?] | [? ?]]; try done; split; try done; [by left | by right]. }
    apply Hne. destruct Hu' as [Hu' | Hu']; by eapply (leader_only s).
  - intros u v x ev' [[_ ?] | [Hne Hu]]%insert_point _ _; [done |]. apply Hne. by eapply (leader_only s).
  - intros u v x ev' [(-> & -> & ->) | [Hu1 Hu]]%Hb [(-> & E1 & E2) | [Hv1 Hv]]%Hb Hrw; try done.
    + exfalso. by eapply (ri_resolved s Hs t v h ev).
    + subst. exfalso. by eapply (ri_resolved s Hs t u h ev).
    + by eapply ri_unique.
Qed.

Lemma rw_disjoint ev ev' : rw ev \/ ev = TIMEOUT_MASK -> rw ev' -> ev <> ev' -> Z.land ev ev' = 0.
Proof. intros [[-> | ->] | ->] [-> | ->] ?; done. Qed.

(** Putting the event back. *)
Lemma rstep_activate_inv t s h ev :
  rinv s -> points s !! t = Some (Handling h ev) ->
  rinv (goto t Cleaning (with_handlers (activate_handler h ev (handlers_ s)) s)).
Proof.
  intros Hs Ht. set (s1 := goto t Cleaning s).
  assert (rinv s1) as Hs1 by (by eapply rinv_leaves).
  change (rinv (with_handlers (activate_handler h ev (handlers_ s)) s1)).
  apply (rinv_set h ev s1); [done |]. intros u ev' Hb Hrw.
  apply busy_goto in Hb as [[_ [? | ?]] | [Hne Hb]]; [done.. |].
  apply rw_disjoint; [apply (ri_event s Hs t h); left; by right | done |]. intros ->. apply Hne.
  apply (ri_unique s Hs u t h ev' Hb); [by right | done].
Qed.

Lemma rstep_inv s s' : rstep s s' -> rinv s -> rinv s'.
Proof.
  intros H Hs. destruct H as [t s p' Ht Ha | t s Ht | s | s | t s a now timeout rs ws Ht Hp | t s rs ws rs' ws' Ht Hr Hw
    | t s rs ws Ht | t s rs ws w Ht Hi Hw | t s rs ws Ht Hi | t s rs ws a now w Ht Hr Hw | t s rs ws a now h ev Ht Hr
    | t s h ev Ht | t s h ev w Ht Hw | t s h ev Ht | t s h deleted Ht Hd | t s h Ht | t s Ht Hd | s h | s | s h et Hb | s h et
    | s h et Hb | s h | s h | s h].
  - by apply rstep_pool_inv.
  - apply rinv_pool_step; [done | by apply step_spurious |]. intros u pu Hu Hl Hj. simpl.
    rewrite list_lookup_insert_ne; [done |]. intros ->. congruence.
  - apply rinv_pool_step; [done | apply step_stop | done].
  - apply rinv_pool_step; [done | apply step_shutdown |]. intros u pu Hu Hl Hj. simpl. by rewrite list_lookup_fmap, Hj.
  - eapply rinv_goto; try done; [intros _; by eapply ri_leader | naive_solver |].
    intros rs0 ws0 [Hx | Hx] u h ev Hne Hb Hrw Hpos; simplify_eq. by eapply prepare_free.
  - eapply rinv_goto; try done; [intros _; by eapply ri_leader | naive_solver |].
    intros rs0 ws0 [Hx | Hx] u h ev Hne Hb Hrw Hpos; simplify_eq.
    pose proof (ri_sets s Hs t rs ws u h ev (or_introl Ht) Hb Hrw Hpos) as Hn.
    destruct Hrw as [-> | ->]; unfold ready_set in *; [rewrite decide_True in * by done | rewrite decide_False in * by done]; set_solver.
  - by eapply rinv_outside.
  - eapply rinv_promote; [done.. | by eapply rinv_outside | tauto].
  - by eapply rinv_outside.
  - eapply rinv_promote; [done.. | by eapply rinv_outside | tauto].
  - apply resolve_from in Hr. eapply rinv_goto; try done; [intros _; by eapply ri_leader | naive_solver | naive_solver | |].
    + intros h0 ev0 [= <- <-] Hrw u Hne Hb. destruct Hr as [-> | (_ & Hpos & Hin)]; [by destruct Hrw |].
      by apply (ri_sets s Hs t rs ws u h ev (or_intror Ht) Hb Hrw Hpos).
    + intros h0 ev0 [= <- <-]. naive_solver.
  - by apply rstep_deactivate_inv.
  - eapply rinv_promote; [done.. | | tauto]. eapply rinv_goto; try done; [|by intros ?? [? | ?]].
    intros h0 ev0 [? | ?]; simplify_eq. by left.
  - by apply rstep_activate_inv.
  - eapply (rinv_leaves t Cleaning); [by apply rinv_deleted | done | done].
  - eapply (rinv_leaves t (Removing h)); [by apply rinv_sublist; [| apply erase_sublist] | done | done].
  - by eapply rinv_outside.
  - by apply rinv_deleted.
  - apply rinv_sublist; [done |]. rewrite cleanup_nil. apply sublist_nil_l.
  - apply rinv_set; [done |]. intros t ev Ht _. by eapply Hb.
  - by apply rinv_clear.
  - unfold register_handler. destruct (find_handler_type h (handlers_ s)) eqn:E.
    + apply rinv_set; [done |]. intros t ev Ht _. by eapply Hb.
    + apply rinv_new; [done | done |]. intros t ev Ht _. by eapply Hb.
  - apply rinv_sublist; [done | apply erase_sublist].
  - unfold schedule_timer. destruct (find_handler_type h (handlers_ s)) eqn:E; [by destruct s |].
    apply rinv_new; [done | done |]. intros t ev _ [-> | ->]; done.
  - apply rinv_sublist; [done | apply erase_sublist].
Qed.

Lemma rreachable_inv n s : rreachable n s -> rinv s.
Proof.
  intros H. unfold rreachable in H. assert (rinv (initial n)) as H0.
  { assert (forall t pt, points (initial n) !! t = Some pt -> pt = Outside) as Ho by (by intros t pt [? _]%lookup_replicate).
    assert (forall t h ev, ~ busy (initial n) t h ev) as Hb by (by intros t h ev [?%Ho | ?%Ho]).
    split; simpl.
    - apply (reachable_inv n). apply rtc_refl.
    - by intros t pt ->%Ho.
    - constructor.
    - intros t h ev [?%Hb | ?%Ho]; done.
    - by intros t h ev m ?%Hb.
    - by intros t rs ws u h ev _ ?%Hb.
    - by intros t u h ev ?%Ho.
    - by intros t u h ev ?%Hb. }
  revert H0. induction H as [|s s1 s2 Hst _ IH]; [done |]. intros Hs. by eapply IH, rstep_inv.
Qed.

(** C27: reading and writing are handled by one thread at a time: in every
    reachable state of the reactor, with any interleaving of its threads, no
    two threads are handling the reading of the same handler, or the writing;
    and while one does, the event is not in the handler's mask. Nobody
    registers or activates a handler for an event that is just being handled;
    every handler has one descriptor, different from those of the other
    handlers and of the interrupter, and keeps it. For timers it does not hold
    ([timer_handled_twice]). What [remove_deleted] does without the mutex is
    interleaved step by step with the other threads. *)
Theorem event_exclusive n s t u h ev :
  rreachable n s -> rw ev -> busy s t h ev -> u <> t ->
  ~ busy s u h ev /\ forall m, (h, m) ∈ handlers_ s -> is_event_type_set m ev = false.
Proof.
  intros Hr Hrw Ht Hne. apply rreachable_inv in Hr as Hs. split.
  - intros Hu. apply Hne. by eapply ri_unique.
  - intros m Hm. unfold is_event_type_set. by rewrite (ri_mask s Hs t h ev m Ht Hrw Hm).
Qed.
End HandleEvents.

(** *** Runs with two threads, a timer (5) and a connection (6) *)
Definition fds (h : handler) : Z := Z.of_nat h + 10.
Definition ask : answers := mk_answers (fun h => bool_decide (h = 6%nat)) (fun _ => false) (fun h => if bool_decide (h = 5%nat) then 1 else 0).
Definition quiet : answers := mk_answers (fun h => bool_decide (h = 6%nat)) (fun _ => false) (fun _ => 0).

Definition run_start : reactor :=
  mk_reactor [(5%nat, TIMEOUT_MASK); (6%nat, READ_MASK)]
    (mk_pool (Some 0%nat) false false true [Join false; Waiting]) [Entered; Outside] [].

Tactic Notation "by_step" uconstr(r) := eapply rtc_l; [by eapply r |].

Lemma run_start_reachable : rreachable fds 9 2 run_start.
Proof.
  eapply rtc_l; [apply (rstep_schedule _ _ _ 5%nat) |].
  eapply rtc_l; [apply (rstep_register _ _ _ 6%nat READ_MASK) |].
  { intros t ev [H | H]; by destruct t as [|[|t]]. }
  by_step (rstep_pool fds 9 0%nat). by_step (rstep_pool fds 9 1%nat). apply rtc_refl.
Qed.

(** Thread 0 reads from the connection, thread 1 has been promoted. *)
Definition run_reading : reactor :=
  mk_reactor [(5%nat, TIMEOUT_MASK); (6%nat, 0)]
    (mk_pool None true false true [Join true; Woken]) [Handling 6%nat READ_MASK; Outside] [].

Lemma run_reading_reachable : rreachable fds 9 2 run_reading.
Proof.
  unfold rreachable; etrans; [exact run_start_reachable |].
  by_step (rstep_prepare fds 9 0%nat run_start quiet 10).
  eapply rtc_l; [eapply (rstep_select fds 9 0%nat _ _ _ {[16]} ∅); [done | set_solver | set_solver] |].
  by_step (rstep_resolve fds 9 0%nat _ {[16]} ∅ quiet 10).
  by_step (rstep_deactivate fds 9 0%nat). 
  eapply rtc_l; [by apply (rstep_promote fds 9 0%nat _ 6%nat READ_MASK (Some 1%nat)) |]. apply rtc_refl.
Qed.

Lemma event_exclusive_witness :
  ~ busy run_reading 1 6 READ_MASK /\ forall m, (6%nat, m) ∈ handlers_ run_reading -> is_event_type_set m READ_MASK = false.
Proof.
  apply (event_exclusive fds 9) with (n := 2%nat) (t := 0%nat).
  - unfold fds. intros. lia.
  - unfold fds. intros. lia.
  - exact run_reading_reachable.
  - by left.
  - by right.
  - done.
Defined.

(** [resolve_next_handler] does not look at the mask for a timer that has
    expired: as long as the first thread has not set the next timeout, a
    second one handles the same timer again. *)
Example timer_handled_twice :
  exists s, rreachable fds 9 2 s /\ busy s 0 5 TIMEOUT_MASK /\ busy s 1 5 TIMEOUT_MASK.
Proof.
  eexists. split.
  - unfold rreachable; etrans; [exact run_start_reachable |].
    by_step (rstep_prepare fds 9 0%nat run_start ask 10).
    eapply rtc_l; [eapply (rstep_select fds 9 0%nat _ _ _ ∅ ∅); [done | set_solver | set_solver] |].
    by_step (rstep_resolve fds 9 0%nat _ ∅ ∅ ask 10).
    by_step (rstep_deactivate fds 9 0%nat).
    eapply rtc_l; [by apply (rstep_promote fds 9 0%nat _ 5%nat TIMEOUT_MASK (Some 1%nat)) |].
    by_step (rstep_pool fds 9 1%nat).
    by_step (rstep_prepare fds 9 1%nat _ ask 10).
    eapply rtc_l; [eapply (rstep_select fds 9 1%nat _ _ _ {[16]} ∅); [done | set_solver | set_solver] |].
    by_step (rstep_resolve fds 9 1%nat _ {[16]} ∅ ask 10).
    by_step (rstep_deactivate fds 9 1%nat). apply rtc_refl.
  - split; [by right | by left].
Qed.

(** [remove_deleted] holds no mutex: while one thread is about to erase a
    handler from the list, another one is about to walk through the list in
    [prepare_select_bits]. *)
Example removing_unlocked :
  exists s, rreachable fds 9 2 s /\ points s !! 0%nat = Some (Removing 6%nat) /\ points s !! 1%nat = Some Entered.
Proof.
  eexists. split.
  - unfold rreachable; etrans; [exact run_reading_reachable |].
    eapply rtc_l; [apply (rstep_mark fds 9 _ 6%nat) |].
    by_step (rstep_activate fds 9 0%nat). by_step (rstep_pop fds 9 0%nat). by_step (rstep_pool fds 9 1%nat). apply rtc_refl.
  - done.
Qed.

(** When [select] is interrupted by a signal, the leader leaves without
    promoting another one, and the pool is stalled. *)
Example eintr_stalls :
  exists s, rreachable fds 9 2 s /\ stalled (thread_pool_ s).
Proof.
  eexists. split.
  - unfold rreachable; etrans; [exact run_start_reachable |].
    by_step (rstep_prepare fds 9 0%nat run_start quiet 10).
    by_step (rstep_eintr fds 9 0%nat). by_step (rstep_pool fds 9 0%nat). apply rtc_refl.
  - split_and!; try done. repeat constructor.
Qed.

(** A descriptor that does not fit. *)
Example fd_set_overflows : is_ok (fd_set 1024 ∅) = false.
Proof. reflexivity. Qed.

End Reactor.
