(* ===== verification/Sql.v ===== *)
(** * SQL statements and the query builder

    The token classes of src/sql (dialect_token, column, columns, value,
    condition), the statement object [sql] that collects them, and the
    builder [query<row>] with its state machine. What a dialect makes of a
    statement is in [Dialect]. *)

From S2P Require Import Prelude.
Local Open Scope cxx_scope.

(** ** Data types, attributes and values *)

Inductive data_type : Type :=
| type_char | type_short | type_int | type_long | type_long_long
| type_unsigned_char | type_unsigned_short | type_unsigned_int
| type_unsigned_long | type_unsigned_long_long | type_float | type_double
| type_bool | type_char_pointer | type_varchar | type_text | type_date
| type_time | type_blob | type_null | type_unknown.

Definition NOT_NULL_CONSTRAINT : Z := 1.
Definition UNIQUE_CONSTRAINT : Z := 4.
Definition PRIMARY_KEY_CONSTRAINT : Z := 8.
Definition is_constraint_set (source needle : Z) : bool := (0 <? Z.land source needle)%Z.

Record field_attributes := mk_attributes {
  size_ : Z;
  options_ : Z;
}.
Definition null_attributes : field_attributes := mk_attributes 0 0.

(** What a [matador::any] in a value can hold, as far as the visitors tell it
    apart: all the integral types but [bool] print as decimal numbers; a
    floating point number, a time and a date are given by the text they print
    as; [any_other] is a type no visitor is registered for. *)
Inductive any : Type :=
| any_empty
| any_int (z : Z)
| any_bool (b : bool)
| any_float (text : str)
| any_string (s : str)
| any_time (text : str)
| any_date (text : str)
| any_other.

Abbreviation value := any.

(** The types the visitors of the SQL component register a function for. *)
Definition registered (a : any) : bool :=
  match a with any_empty | any_other => false | _ => true end.

(** ** Columns *)

Definition opt_empty : Z := 0.
Definition with_quotes : Z := 1.
Definition with_type : Z := 2.
Definition with_value : Z := 4.
Definition is_build_options_set (source needle : Z) : bool := (0 <? Z.land source needle)%Z.

Record column := mk_column {
  name : str;
  build_options : Z;
  val : value;
  type : data_type;
  attributes : field_attributes;
  index : Z;
}.

Definition column_of_name (col : str) : column :=
  mk_column col with_quotes any_empty type_unknown null_attributes 0.
Definition column_with_options (col : str) (options : Z) : column :=
  mk_column col options any_empty type_unknown null_attributes 0.
(** [make_column(name, type, index, attr)]. *)
Definition make_typed_column (n : str) (t : data_type) (i : Z) (attr : field_attributes) : column :=
  mk_column n (Z.lor with_quotes with_type) any_empty t attr i.
(** [make_column<Type>(name, val, attr)]. *)
Definition make_value_column (n : str) (t : data_type) (v : any) : column :=
  mk_column n (Z.lor with_quotes with_value) v t null_attributes 0.

Inductive t_brackets := WITH_BRACKETS | WITHOUT_BRACKETS.

Record columns := mk_columns {
  columns_ : list column;
  with_brackets_ : t_brackets;
}.

Definition columns_of_names (names : list str) (b : t_brackets) : columns :=
  mk_columns (column_of_name <$> names) b.
Definition without_brackets (c : columns) : columns := mk_columns (columns_ c) WITHOUT_BRACKETS.
Definition columns_all : columns :=
  mk_columns [column_with_options (lit "*") opt_empty] WITHOUT_BRACKETS.
Definition columns_count_all : column := column_with_options (lit "COUNT(*)") opt_empty.

(** ** Conditions and tokens *)

Inductive t_operand :=
| EQUAL | NOT_EQUAL | LESS | LESS_EQUAL | GREATER | GREATER_EQUAL
| OR | AND | NOT | IN_LIST | LIKE.

Definition operands (op : t_operand) : str :=
  match op with
  | EQUAL => lit "="
  | NOT_EQUAL => lit "<>"
  | LESS => lit "<"
  | LESS_EQUAL => lit "<="
  | GREATER => lit ">"
  | GREATER_EQUAL => lit ">="
  | OR => lit "OR"
  | AND => lit "AND"
  | NOT => lit "NOT"
  | IN_LIST => lit "IN"
  | LIKE => lit "LIKE"
  end.

(** A scalar a condition compares a column with; [operator<<] prints it. A
    floating point number is given by the text it prints as. *)
Inductive scalar :=
| sc_int (z : Z)
| sc_bool (b : bool)
| sc_char (c : ascii)
| sc_float (text : str).

Definition print_scalar (v : scalar) : str :=
  match v with
  | sc_int z => to_string_z z
  | sc_bool b => if b then lit "1" else lit "0"
  | sc_char c => [c]
  | sc_float text => text
  end.

(** An element of an IN list or a bound of a range. *)
Inductive arg :=
| arg_scalar (v : scalar)
| arg_string (s : str).

Definition print_arg (a : arg) : str :=
  match a with
  | arg_scalar v => print_scalar v
  | arg_string s => s
  end.

(** The partial specialisations of the template [condition<L, R>], and the
    token classes. A sub-query is the token list of its statement. *)
Inductive condition : Type :=
| cond_scalar (field_ : column) (op : t_operand) (v : scalar)
| cond_string (field_ : column) (op : t_operand) (v : str)
| cond_scalar_left (v : scalar) (op : t_operand) (field_ : column)
| cond_string_left (v : str) (op : t_operand) (field_ : column)
| cond_in (field_ : column) (args_ : list arg)
| cond_query (field_ : column) (op : t_operand) (query_ : list token)
| cond_between (field_ : column) (low high : arg)
| cond_pair (left right : condition) (operand : t_operand)
| cond_not (cond : condition)
with token : Type :=
| begin_tok | commit_tok | rollback_tok
| create_tok (table_name : str)
| drop_tok (table_name : str)
| insert_tok (table_name : str)
| select_tok | distinct_tok | update_tok | remove_tok | set_tok
| tablename_tok (table_name : str)
| from_tok (table_name : str)
| as_tok (alias : str)
| top_tok (limit_ : Z)
| values_tok (values_ : list (option value))
| columns_tok (cols : columns)
| column_tok (col : column)
| order_by_tok (col : str)
| group_by_tok (col : str)
| asc_tok | desc_tok
| where_tok (cond : condition)
| query_tok (query_ : list token).

(** Operators of condition.hpp. *)
Definition cond_and (l r : condition) : condition := cond_pair l r AND.
Definition cond_or (l r : condition) : condition := cond_pair l r OR.
Definition equals (c : column) (q : list token) : condition := cond_query c EQUAL q.
Definition in_query (c : column) (q : list token) : condition := cond_query c IN_LIST q.
Definition like (c : column) (v : str) : condition := cond_string c LIKE v.

(** ** Statements *)

Inductive t_query_command := CMD_UNKNOWN | CMD_CREATE | CMD_DROP | CMD_SELECT | CMD_INSERT | CMD_UPDATE | CMD_REMOVE.

Record sql := mk_sql {
  command_type_ : t_query_command;
  token_list_ : list token;
  table_name_ : str;
}.

Definition sql_new : sql := mk_sql CMD_UNKNOWN [] [].
Definition append (t : token) (s : sql) : sql :=
  mk_sql (command_type_ s) (token_list_ s ++ [t]) (table_name_ s).
Definition append_sql (stmt s : sql) : sql := append (query_tok (token_list_ stmt)) s.
Definition sql_reset (cmd : t_query_command) (s : sql) : sql := mk_sql cmd [] (table_name_ s).
Definition set_table_name (n : str) (s : sql) : sql :=
  mk_sql (command_type_ s) (token_list_ s) n.

Definition command (s : sql) : str :=
  match command_type_ s with
  | CMD_CREATE => lit "create"
  | CMD_DROP => lit "drop"
  | CMD_INSERT => lit "insert"
  | CMD_UPDATE => lit "update"
  | CMD_REMOVE => lit "delete"
  | CMD_SELECT => lit "select"
  | CMD_UNKNOWN => lit "unknown"
  end.

(** ** The query builder *)

Inductive state_t :=
| QUERY_BEGIN | QUERY_CREATE | QUERY_DROP | QUERY_SELECT | QUERY_INSERT
| QUERY_UPDATE | QUERY_DELETE | QUERY_COLUMN | QUERY_SET | QUERY_FROM
| QUERY_WHERE | QUERY_VALUES | QUERY_COND_WHERE | QUERY_ORDERBY
| QUERY_ORDER_DIRECTION | QUERY_GROUPBY.

#[export] Instance state_t_eq_dec : EqDecision state_t.
Proof. solve_decision. Defined.

Definition state2text (s : state_t) : string :=
  match s with
  | QUERY_BEGIN => "begin"
  | QUERY_CREATE => "create"
  | QUERY_DROP => "drop"
  | QUERY_SELECT => "select"
  | QUERY_INSERT => "insert"
  | QUERY_UPDATE => "update"
  | QUERY_DELETE => "delete"
  | QUERY_COLUMN => "column"
  | QUERY_SET => "set"
  | QUERY_FROM => "from"
  | QUERY_WHERE => "where"
  | QUERY_COND_WHERE => "condition_where"
  | QUERY_ORDERBY => "order_by"
  | QUERY_ORDER_DIRECTION => "order_direction"
  | QUERY_GROUPBY => "group_by"
  | QUERY_VALUES => "unknown"
  end.

(** The states a step may follow; [None] is the default case of the switch. *)
Definition predecessors (next : state_t) : option (list state_t) :=
  match next with
  | QUERY_CREATE | QUERY_DROP | QUERY_SELECT | QUERY_INSERT | QUERY_UPDATE | QUERY_DELETE =>
    Some [QUERY_BEGIN]
  | QUERY_VALUES => Some [QUERY_INSERT]
  | QUERY_WHERE | QUERY_COND_WHERE =>
    Some [QUERY_SELECT; QUERY_COLUMN; QUERY_UPDATE; QUERY_SET; QUERY_DELETE; QUERY_FROM;
          QUERY_COND_WHERE]
  | QUERY_COLUMN => Some [QUERY_SELECT; QUERY_COLUMN]
  | QUERY_FROM => Some [QUERY_SELECT]
  | QUERY_SET => Some [QUERY_UPDATE; QUERY_SET]
  | QUERY_ORDERBY => Some [QUERY_SELECT; QUERY_WHERE; QUERY_FROM; QUERY_COND_WHERE]
  | QUERY_ORDER_DIRECTION => Some [QUERY_ORDERBY]
  | _ => None
  end.

Definition throw_invalid (next current : state_t) : result () :=
  match predecessors next with
  | Some l =>
    if bool_decide (current ∈ l) then Ok ()
    else Throw (logic_error ("invalid next state: [" +:+ state2text next +:+ "] (current: "
                             +:+ state2text current +:+ ")"))
  | None => Throw (logic_error "unknown state")
  end.

(** [query<row>]: the statement, the state, the columns collected by
    [update], the value the value creator made last, and the columns of the
    row prototype. *)
Record query := mk_query {
  sql_ : sql;
  state : state_t;
  update_columns_ : list column;
  value_ : option value;
  prototype : list str;
}.

Definition query_new : query := mk_query sql_new QUERY_BEGIN [] None [].

Definition add (t : token) (q : query) : query :=
  mk_query (append t (sql_ q)) (state q) (update_columns_ q) (value_ q) (prototype q).
Definition set_table (n : str) (q : query) : query :=
  mk_query (set_table_name n (sql_ q)) (state q) (update_columns_ q) (value_ q) (prototype q).
Definition set_state (s : state_t) (q : query) : query :=
  mk_query (sql_ q) s (update_columns_ q) (value_ q) (prototype q).

Definition reset_query (cmd : t_query_command) (q : query) : query :=
  mk_query (set_table_name [] (sql_reset cmd (sql_ q))) QUERY_BEGIN [] (value_ q) (prototype q).

(** [create(table_name, column_list)]. *)
Definition create (table : str) (cols : list column) (q : query) : result query :=
  let q := reset_query CMD_CREATE q in
  let q := set_table table (add (create_tok table) q) in
  let typed c := mk_column (name c) (Z.lor with_type with_quotes) (val c) (type c)
                           (attributes c) (index c) in
  let q := add (columns_tok (mk_columns (typed <$> cols) WITH_BRACKETS)) q in
  Ok (set_state QUERY_CREATE q).

Definition drop (table : str) (q : query) : result query :=
  let q := reset_query CMD_DROP q in
  Ok (set_state QUERY_DROP (set_table table (add (drop_tok table) q))).

(** [insert(table_name, column_names)]. *)
Definition insert (table : str) (names : list str) (q : query) : result query :=
  let q := reset_query CMD_INSERT q in
  let q := set_table table (add (insert_tok table) q) in
  let q := add (columns_tok (columns_of_names names WITH_BRACKETS)) q in
  Ok (set_state QUERY_INSERT q).

(** [query_value_creator::create_from_any]: the member [value_] is set when a
    visitor is registered for the type, and returned in any case. *)
Definition create_from_any (last : option value) (a : any) : option value :=
  if registered a then Some a else last.

Fixpoint create_values (last : option value) (l : list any) : list (option value) * option value :=
  match l with
  | [] => ([], last)
  | a :: l' =>
    let v := create_from_any last a in
    let '(vs, last') := create_values v l' in (v :: vs, last')
  end.

Definition values (vals : list any) (q : query) : result query :=
  let? _ := throw_invalid QUERY_VALUES (state q) in
  let '(vs, last) := create_values (value_ q) vals in
  let q := mk_query (sql_ q) (state q) (update_columns_ q) last (prototype q) in
  Ok (set_state QUERY_VALUES (add (values_tok vs) q)).

(** [row::add_column] ignores a name the row has already. *)
Definition row_add_column (r : list str) (n : str) : list str :=
  if bool_decide (n ∈ r) then r else r ++ [n].
Definition prepare_select_prototype (cols : columns) (q : query) : query :=
  mk_query (sql_ q) (state q) (update_columns_ q) (value_ q)
           (foldl row_add_column (prototype q) (name <$> columns_ cols)).

(** [select(column_names)]. *)
Definition select_names (names : list str) (q : query) : result query :=
  let q := reset_query CMD_SELECT q in
  let? _ := throw_invalid QUERY_SELECT (state q) in
  let q := add select_tok q in
  let cols := columns_of_names names WITHOUT_BRACKETS in
  let q := add (columns_tok cols) (prepare_select_prototype cols q) in
  Ok (set_state QUERY_SELECT q).

(** [select(columns)]. *)
Definition select (cols : columns) (q : query) : result query :=
  let q := reset_query CMD_SELECT q in
  let? _ := throw_invalid QUERY_SELECT (state q) in
  let q := add select_tok q in
  let cols := without_brackets cols in
  let q := prepare_select_prototype cols (add (columns_tok cols) q) in
  Ok (set_state QUERY_SELECT q).

(** The column [update] adds for a pair of a name and a value; a value of
    a type without a visitor adds none. The data type is not printed. *)
Definition update_column (cv : str * any) : list column :=
  if registered (snd cv) then [make_value_column (fst cv) type_unknown (snd cv)] else [].

(** [update(table_name, column_values)]. *)
Definition update (table : str) (column_values : list (str * any)) (q : query) : result query :=
  let q := reset_query CMD_UPDATE q in
  let q := set_table table (add (tablename_tok table) (add update_tok q)) in
  let q := add set_tok q in
  let cols := update_columns_ q ++ (column_values ≫= update_column) in
  let q := mk_query (sql_ q) (state q) cols (value_ q) (prototype q) in
  let q := add (columns_tok (mk_columns cols WITHOUT_BRACKETS)) q in
  Ok (set_state QUERY_SET q).

Definition from (table : str) (q : query) : result query :=
  let? _ := throw_invalid QUERY_FROM (state q) in
  Ok (set_table table (add (from_tok table) q)).

(** [from(basic_query)]. *)
Definition from_query (sub : sql) (q : query) : result query :=
  let? _ := throw_invalid QUERY_FROM (state q) in
  let q := add (from_tok []) q in
  Ok (mk_query (append_sql sub (sql_ q)) (state q) (update_columns_ q) (value_ q) (prototype q)).

Definition remove (table : str) (q : query) : result query :=
  let q := reset_query CMD_REMOVE q in
  let q := set_table table (add (from_tok table) (add remove_tok q)) in
  Ok (set_state QUERY_DELETE q).

Definition where_ (c : condition) (q : query) : result query :=
  let? _ := throw_invalid QUERY_COND_WHERE (state q) in
  Ok (set_state QUERY_COND_WHERE (add (where_tok c) q)).

Definition order_by (col : str) (q : query) : result query :=
  let? _ := throw_invalid QUERY_ORDERBY (state q) in
  Ok (set_state QUERY_ORDERBY (add (order_by_tok col) q)).

Definition asc (q : query) : result query :=
  let? _ := throw_invalid QUERY_ORDER_DIRECTION (state q) in
  Ok (set_state QUERY_ORDER_DIRECTION (add asc_tok q)).

Definition desc (q : query) : result query :=
  let? _ := throw_invalid QUERY_ORDER_DIRECTION (state q) in
  Ok (set_state QUERY_ORDER_DIRECTION (add desc_tok q)).

Definition limit (l : Z) (q : query) : result query := Ok (add (top_tok l) q).

Definition as_ (alias : str) (q : query) : result query := Ok (add (as_tok alias) q).

Definition group_by (col : str) (q : query) : result query :=
  let? _ := throw_invalid QUERY_GROUPBY (state q) in
  Ok (set_state QUERY_GROUPBY (add (group_by_tok col) q)).

(** [column(name, type, index)]. *)
Definition add_column (n : str) (t : data_type) (i : Z) (q : query) : result query :=
  let? _ := throw_invalid QUERY_COLUMN (state q) in
  Ok (set_state QUERY_COLUMN (add (column_tok (make_typed_column n t i null_attributes)) q)).

(** ** Sequences of builder calls *)

Inductive query_op : Type :=
| op_create (table : str) (cols : list column)
| op_drop (table : str)
| op_insert (table : str) (names : list str)
| op_values (vals : list any)
| op_select_names (names : list str)
| op_select (cols : columns)
| op_update (table : str) (column_values : list (str * any))
| op_from (table : str)
| op_from_query (sub : sql)
| op_remove (table : str)
| op_where (c : condition)
| op_order_by (col : str)
| op_asc
| op_desc
| op_limit (l : Z)
| op_as (alias : str)
| op_group_by (col : str)
| op_column (n : str) (t : data_type) (i : Z).

Definition query_step (op : query_op) : query -> result query :=
  match op with
  | op_create t c => create t c
  | op_drop t => drop t
  | op_insert t n => insert t n
  | op_values v => values v
  | op_select_names n => select_names n
  | op_select c => select c
  | op_update t cv => update t cv
  | op_from t => from t
  | op_from_query s => from_query s
  | op_remove t => remove t
  | op_where c => where_ c
  | op_order_by c => order_by c
  | op_asc => asc
  | op_desc => desc
  | op_limit l => limit l
  | op_as a => as_ a
  | op_group_by c => group_by c
  | op_column n t i => add_column n t i
  end.

Fixpoint query_run (ops : list query_op) (q : query) : result query :=
  match ops with
  | [] => Ok q
  | op :: ops' => let? q' := query_step op q in query_run ops' q'
  end.

(** The queries a program can hold: a call that throws leaves the object as
    it was, since every check comes before the first change. *)
Inductive reachable : query -> Prop :=
| reachable_new : reachable query_new
| reachable_step op q q' : reachable q -> query_step op q = Ok q' -> reachable q'.

(** [limit] and [as] may be called at any point; the other tokens are the
    clauses of the statement. *)
Definition is_clause (t : token) : bool :=
  match t with top_tok _ | as_tok _ => false | _ => true end.
Definition clauses (q : query) : list token := List.filter is_clause (token_list_ (sql_ q)).

Definition is_source (t : token) : bool :=
  match t with from_tok _ | query_tok _ => true | _ => false end.
Definition is_column (t : token) : bool := match t with column_tok _ => true | _ => false end.
Definition is_where (t : token) : bool := match t with where_tok _ => true | _ => false end.
Definition is_direction (t : token) : bool :=
  match t with asc_tok | desc_tok => true | _ => false end.

(** What a statement consists of before its WHERE clauses. *)
Inductive body_shape : state_t -> list token -> Prop :=
| body_select cols sources :
    forallb is_source sources = true ->
    body_shape QUERY_SELECT (select_tok :: columns_tok cols :: sources)
| body_column cols sources more :
    forallb is_source sources = true -> forallb is_column more = true ->
    body_shape QUERY_COLUMN (select_tok :: columns_tok cols :: sources ++ more)
| body_delete t : body_shape QUERY_DELETE [remove_tok; from_tok t]
| body_set t cols : body_shape QUERY_SET [update_tok; tablename_tok t; set_tok; columns_tok cols].

Inductive shape : state_t -> list token -> Prop :=
| shape_begin : shape QUERY_BEGIN []
| shape_create t cols : shape QUERY_CREATE [create_tok t; columns_tok cols]
| shape_drop t : shape QUERY_DROP [drop_tok t]
| shape_insert t cols : shape QUERY_INSERT [insert_tok t; columns_tok cols]
| shape_values t cols vs : shape QUERY_VALUES [insert_tok t; columns_tok cols; values_tok vs]
| shape_body s ts : body_shape s ts -> shape s ts
| shape_where s ts wheres :
    body_shape s ts -> forallb is_where wheres = true ->
    shape QUERY_COND_WHERE (ts ++ wheres)
| shape_order_select cols sources col :
    forallb is_source sources = true ->
    shape QUERY_ORDERBY (select_tok :: columns_tok cols :: sources ++ [order_by_tok col])
| shape_order_where s ts wheres col :
    body_shape s ts -> forallb is_where wheres = true ->
    shape QUERY_ORDERBY (ts ++ wheres ++ [order_by_tok col])
| shape_direction ts d :
    shape QUERY_ORDERBY ts -> is_direction d = true ->
    shape QUERY_ORDER_DIRECTION (ts ++ [d]).

Lemma throw_invalid_Ok next current u :
  throw_invalid next current = Ok u ->
  exists l, predecessors next = Some l /\ current ∈ l.
Proof.
  unfold throw_invalid. destruct (predecessors next) as [l|]; [|done].
  case_bool_decide; [|done]. eauto.
Qed.

Lemma clauses_add t q :
  clauses (add t q) = clauses q ++ (if is_clause t then [t] else []).
Proof. unfold clauses. simpl. rewrite List.filter_app. simpl. by destruct (is_clause t). Qed.

(** The states that can be left by [where_]. *)
Lemma shape_where_step s ts c :
  s ∈ [QUERY_SELECT; QUERY_COLUMN; QUERY_UPDATE; QUERY_SET; QUERY_DELETE; QUERY_FROM;
       QUERY_COND_WHERE] ->
  shape s ts -> shape QUERY_COND_WHERE (ts ++ [where_tok c]).
Proof.
  intros Hs H. destruct H as [| | | | | s ts Hb | s ts wheres Hb Hw | | |];
    try (rewrite !elem_of_cons, elem_of_nil in Hs; naive_solver).
  - by eapply shape_where.
  - rewrite <- app_assoc. eapply shape_where; [done |]. by rewrite forallb_app, Hw.
Qed.

Lemma shape_order_step s ts col :
  s ∈ [QUERY_SELECT; QUERY_WHERE; QUERY_FROM; QUERY_COND_WHERE] ->
  shape s ts -> shape QUERY_ORDERBY (ts ++ [order_by_tok col]).
Proof.
  intros Hs H. destruct H as [| | | | | s ts Hb | s ts wheres Hb Hw | | |];
    try (rewrite !elem_of_cons, elem_of_nil in Hs; naive_solver).
  - destruct Hb; try (rewrite !elem_of_cons, elem_of_nil in Hs; naive_solver).
    by apply shape_order_select.
  - rewrite <- app_assoc. by eapply shape_order_where.
Qed.

Lemma shape_source_step ts t :
  is_source t = true -> shape QUERY_SELECT ts -> shape QUERY_SELECT (ts ++ [t]).
Proof.
  intros Ht H. inversion H as [| | | | | s ts' Hb | | | |]; subst. inversion Hb; subst.
  apply shape_body. simpl. apply body_select. rewrite forallb_app. simpl. by rewrite Ht, H0.
Qed.

Lemma shape_column_step s ts t :
  is_column t = true -> s ∈ [QUERY_SELECT; QUERY_COLUMN] ->
  shape s ts -> shape QUERY_COLUMN (ts ++ [t]).
Proof.
  intros Ht Hs H. apply shape_body.
  destruct H as [| | | | | s ts Hb | | | |];
    try (rewrite !elem_of_cons, elem_of_nil in Hs; naive_solver).
  destruct Hb as [cols srcs Hsrc | cols srcs more Hsrc Hmore | |];
    try (rewrite !elem_of_cons, elem_of_nil in Hs; naive_solver).
  - simpl. apply body_column; [done |]. simpl. by rewrite Ht.
  - simpl. rewrite <- app_assoc. apply body_column; [done |].
    rewrite forallb_app, Hmore. simpl. by rewrite Ht.
Qed.

Lemma shape_values_step ts vs :
  shape QUERY_INSERT ts -> shape QUERY_VALUES (ts ++ [values_tok vs]).
Proof.
  intros H. inversion H as [| | | | | s ts' Hb | | | |]; subst; [constructor |]. inversion Hb.
Qed.

(** Take the check of a builder call apart and name the state it allows. *)
Ltac builder_check H :=
  apply rbind_Ok in H as ([] & Hcheck & H);
  apply throw_invalid_Ok in Hcheck as (? & [= <-] & Hcheck).
Ltac one_state :=
  match goal with H : _ ∈ [_] |- _ => apply list_elem_of_singleton in H end.

Lemma clauses_set_table n q : clauses (set_table n q) = clauses q.
Proof. done. Qed.
Lemma clauses_set_state n q : clauses (set_state n q) = clauses q.
Proof. done. Qed.
#[local] Hint Rewrite clauses_set_table clauses_set_state clauses_add : matador.

Lemma shape_query_step op q q' :
  query_step op q = Ok q' -> shape (state q) (clauses q) -> shape (state q') (clauses q').
Proof.
  intros H Hq. destruct op; simpl in H.
  - injection H as <-. apply shape_create.
  - injection H as <-. apply shape_drop.
  - injection H as <-. apply shape_insert.
  - builder_check H. one_state. rewrite Hcheck in Hq.
    destruct (create_values _ _) as [vs last]. injection H as <-.
    autorewrite with matador. by apply shape_values_step.
  - injection H as <-. by apply shape_body, body_select.
  - injection H as <-. by apply shape_body, body_select.
  - injection H as <-. apply shape_body, body_set.
  - builder_check H. one_state. rewrite Hcheck in Hq. injection H as <-. simpl state.
    autorewrite with matador. rewrite Hcheck. by apply shape_source_step.
  - builder_check H. one_state. rewrite Hcheck in Hq. injection H as <-. simpl state.
    rewrite Hcheck. unfold clauses. simpl. rewrite !List.filter_app. simpl.
    by apply shape_source_step, shape_source_step.
  - injection H as <-. apply shape_body, body_delete.
  - builder_check H. injection H as <-. autorewrite with matador. by eapply shape_where_step.
  - builder_check H. injection H as <-. autorewrite with matador. by eapply shape_order_step.
  - builder_check H. one_state. rewrite Hcheck in Hq. injection H as <-.
    autorewrite with matador. by apply shape_direction.
  - builder_check H. one_state. rewrite Hcheck in Hq. injection H as <-.
    autorewrite with matador. by apply shape_direction.
  - injection H as <-. autorewrite with matador. simpl. by rewrite app_nil_r.
  - injection H as <-. autorewrite with matador. simpl. by rewrite app_nil_r.
  - done.
  - builder_check H. injection H as <-. autorewrite with matador.
    by eapply shape_column_step.
Qed.

(** Whatever calls a program makes on a query builder (calls that throw
    included), the clauses of the statement stand in the order SQL wants them:
    a command with what belongs to it, the sources and extra columns of a
    SELECT, the conditions, at most one ORDER BY and at most one direction
    behind it, as the state of the builder says. [limit] and [as] are left
    out, they may be called at any time. *)
Lemma builder_shape q : reachable q -> shape (state q) (clauses q).
Proof.
  induction 1 as [| op q q' _ IH H]; [apply shape_begin |].
  by eapply shape_query_step.
Qed.

Definition sample_ops : list query_op :=
  [op_select columns_all; op_from (lit "person"); op_where (like (column_of_name (lit "name")) (lit "a%"));
   op_order_by (lit "name"); op_desc; op_limit 3].

Lemma reachable_run ops q q' : reachable q -> query_run ops q = Ok q' -> reachable q'.
Proof.
  revert q. induction ops as [|op ops IH]; intros q Hq H; simpl in H; [by injection H as <- |].
  apply rbind_Ok in H as (q1 & H1 & H2). eapply IH; [by eapply reachable_step | done].
Qed.

Lemma builder_shape_witness :
  shape QUERY_ORDER_DIRECTION
    [select_tok; columns_tok columns_all; from_tok (lit "person");
     where_tok (like (column_of_name (lit "name")) (lit "a%")); order_by_tok (lit "name"); desc_tok].
Proof.
  apply (builder_shape (ok_or query_new (query_run sample_ops query_new))).
  apply (reachable_run sample_ops query_new); [apply reachable_new | reflexivity].
Defined.

(** GROUP BY cannot be reached: its state is missing from [throw_invalid]. *)
Example group_by_refused col q : group_by col q = Throw (logic_error "unknown state").
Proof. reflexivity. Qed.

(** A value without a visitor is replaced by the value before it. *)
Example stale_value :
  fst (create_values None [any_int 7; any_empty]) = [Some (any_int 7); Some (any_int 7)].
Proof. reflexivity. Qed.
