(* ===== verification/Dialect.v ===== *)
(** * Building SQL text: the dialect, its compiler and its linker

    [basic_dialect] (src/sql/basic_dialect.cpp) turns a statement into text:
    a compiler may rearrange the tokens, then the linker
    (basic_dialect_linker.cpp) visits them and appends to the result on top
    of a stack, one entry per query being built. Conditions print themselves
    ([evaluate], condition.hpp) and start nested builds for sub-queries. The
    concrete dialects are in [Dialects]. *)

From S2P Require Import Prelude Sql.
Local Open Scope cxx_scope.

(** ** Replacing in strings *)

Fixpoint starts_with (p s : str) : bool :=
  match p, s with
  | [], _ => true
  | a :: p', b :: s' => bool_decide (a = b) && starts_with p' s'
  | _ :: _, [] => false
  end.

(** The loop of [replace_all]: [skip] characters belong to the match that was
    replaced last. *)
Fixpoint replace_loop (from to : str) (skip : nat) (s : str) : str :=
  match s with
  | [] => []
  | c :: s' =>
    match skip with
    | S k => replace_loop from to k s'
    | O => if starts_with from s
           then to ++ replace_loop from to (length from - 1) s'
           else c :: replace_loop from to 0 s'
    end
  end.

Definition replace_all (s from to : str) : str :=
  match from with
  | [] => s
  | _ => replace_loop from to 0 s
  end.

(** ** Dialects *)

Inductive t_token :=
| CREATE_TABLE | DROP | REMOVE | INSERT | VALUES | VALUE | UPDATE | SELECT | COLUMNS | COLUMN
| FROM | WHERE | TOK_AND | TOK_OR | TOK_LIKE | ORDER_BY | GROUP_BY | ASC | DESC | TOP | AS | OFFSET
| DISTINCT | CONDITION | SET | NOT_NULL | PRIMARY_KEY | BEGIN | COMMIT | TABLE | ROLLBACK
| START_QUOTE | END_QUOTE | STRING_QUOTE | NONE.

#[export] Instance t_token_eq_dec : EqDecision t_token.
Proof. solve_decision. Defined.

Inductive escape_type := ESCAPE_BOTH_SAME | ESCAPE_CLOSING_BRACKET.
Inductive t_compile_type := PREPARED | DIRECT.

#[export] Instance escape_type_eq_dec : EqDecision escape_type.
Proof. solve_decision. Defined.
#[export] Instance t_compile_type_eq_dec : EqDecision t_compile_type.
Proof. solve_decision. Defined.

(** The token map every dialect starts from. *)
Definition basic_tokens : list (t_token * str) :=
  [(CREATE_TABLE, lit "CREATE TABLE"); (DROP, lit "DROP TABLE"); (REMOVE, lit "DELETE");
   (INSERT, lit "INSERT INTO"); (VALUES, lit "VALUES"); (UPDATE, lit "UPDATE");
   (SELECT, lit "SELECT"); (COLUMNS, lit "COLUMNS"); (COLUMN, lit "COLUMN"); (FROM, lit "FROM");
   (WHERE, lit "WHERE"); (TOK_AND, lit "AND"); (TOK_OR, lit "OR"); (TOK_LIKE, lit "LIKE");
   (ORDER_BY, lit "ORDER BY"); (GROUP_BY, lit "GROUP BY"); (ASC, lit "ASC"); (DESC, lit "DESC");
   (TOP, lit "LIMIT"); (AS, lit "AS"); (OFFSET, lit "OFFSET"); (DISTINCT, lit "DISTINCT");
   (SET, lit "SET"); (NOT_NULL, lit "NOT NULL"); (PRIMARY_KEY, lit "PRIMARY KEY");
   (BEGIN, lit "BEGIN TRANSACTION"); (COMMIT, lit "COMMIT TRANSACTION");
   (ROLLBACK, lit "ROLLBACK TRANSACTION"); (START_QUOTE, [DQUOTE]); (END_QUOTE, [DQUOTE]);
   (STRING_QUOTE, lit "'"); (NONE, [])].

(** [replace_token]: the new entry hides the old one. *)
Definition replace_token (tok : t_token) (s : str) (m : list (t_token * str)) := (tok, s) :: m.

(** The members of a compiler that outlive a call of [compile]. *)
Record compiler_flags := mk_flags {
  is_update : bool;
  is_delete : bool;
}.

(** A dialect: its token map and the virtual functions it implements. The
    compiler of a dialect is its function from the tokens of the statement to
    the tokens to link; [visit_top] is the linker's visit of a limit, the only
    one that is overridden. *)
Record dialect := mk_dialect {
  tokens : list (t_token * str);
  identifier_escape_type : escape_type;
  next_placeholder : list str -> str;
  to_database_type_string : data_type -> result str;
  compiler : compiler_flags -> list token -> result (compiler_flags * list token);
  top_text : str -> Z -> str;
}.

Definition basic_next_placeholder (host_vars : list str) : str := lit "?".
(** The compiler whose visits do nothing. *)
Definition basic_compile (fl : compiler_flags) (ts : list token) :
  result (compiler_flags * list token) := Ok (fl, ts).
(** [res << token_string(top.type) << " " << top.limit_ << " "]. *)
Definition basic_top_text (kw : str) (limit : Z) : str :=
  kw ++ lit " " ++ to_string_z limit ++ lit " ".

Section quoting.
Variable d : dialect.

Definition token_at (tok : t_token) : result str := assoc_at tok (tokens d).

Definition escape_quotes_in_identifier (s : str) : result str :=
  let? open_char := token_at START_QUOTE in
  let? close_char := token_at END_QUOTE in
  Ok (match identifier_escape_type d with
      | ESCAPE_CLOSING_BRACKET => replace_all s close_char (close_char ++ close_char)
      | ESCAPE_BOTH_SAME => replace_all s open_char (open_char ++ open_char)
      end).

Definition quote_identifier (s : str) : result str :=
  let? open_char := token_at START_QUOTE in
  let? close_char := token_at END_QUOTE in
  Ok (open_char ++ s ++ close_char).

Definition prepare_identifier (s : str) : result str :=
  let? r := escape_quotes_in_identifier s in quote_identifier r.

Definition escape_quotes_in_literals (s : str) : result str :=
  let? q := token_at STRING_QUOTE in Ok (replace_all s q (q ++ q)).

Definition prepare_literal (s : str) : result str := escape_quotes_in_literals s.

(** [value_to_string_processor::process]: [escape] is [prepare_literal] of the
    dialect for [to_safe_string], and nothing for [to_string]. A type without a
    visitor leaves the result empty. *)
Definition process (escape : str -> result str) (v : value) : result str :=
  let quoted s := let? t := escape s in Ok (lit "'" ++ t ++ lit "'") in
  match v with
  | any_empty | any_other => Ok []
  | any_int z => Ok (to_string_z z)
  | any_bool b => Ok (if b then lit "1" else lit "0")
  | any_float text => Ok text
  | any_string s => quoted s
  | any_time text => quoted text
  | any_date text => quoted text
  end.

Definition to_string (v : value) : result str := process Ok v.
Definition to_safe_string (v : value) : result str := process prepare_literal v.
End quoting.

(** ** The state of a build

    [build_info] is an entry of the stack: the tokens to link and the text so
    far. *)
Record build_info := mk_info {
  tokens_ : list token;
  info_result : str;
}.

Record dstate := mk_dstate {
  compile_type_ : t_compile_type;
  host_vars_ : list str;
  result_columns_ : list str;
  build_info_stack_ : list build_info;
  flags : compiler_flags;
}.

(** State and exceptions. *)
Definition M (A : Type) : Type := dstate -> result (A * dstate).
Definition ret {A} (a : A) : M A := fun st => Ok (a, st).
Definition bind {A B} (m : M A) (k : A -> M B) : M B :=
  fun st => let? (a, st') := m st in k a st'.
Definition lift {A} (r : result A) : M A := fun st => let? a := r in Ok (a, st).

Notation "'let!' x ':=' m 'in' k" := (bind m (fun x => k))
  (at level 10, x pattern, m at level 200, k at level 200) : cxx_scope.
Notation "m ';!' k" := (bind m (fun _ => k)) (at level 60, right associativity) : cxx_scope.

Definition get_compile_type : M t_compile_type := fun st => Ok (compile_type_ st, st).

Definition with_stack (st : dstate) (stk : list build_info) : dstate :=
  mk_dstate (compile_type_ st) (host_vars_ st) (result_columns_ st) stk (flags st).

Definition push (ts : list token) : M () :=
  fun st => Ok ((), with_stack st (mk_info ts [] :: build_info_stack_ st)).

Definition pop : M () :=
  fun st => match build_info_stack_ st with
            | _ :: stk => Ok ((), with_stack st stk)
            | [] => Throw (undefined_behaviour "pop of an empty stack")
            end.

Definition top : M build_info :=
  fun st => match build_info_stack_ st with
            | i :: _ => Ok (i, st)
            | [] => Throw (undefined_behaviour "top of an empty stack")
            end.

Definition append_to_result (part : str) : M () :=
  fun st => match build_info_stack_ st with
            | i :: stk => Ok ((), with_stack st (mk_info (tokens_ i) (info_result i ++ part) :: stk))
            | [] => Throw (undefined_behaviour "top of an empty stack")
            end.

Definition add_host_var (v : str) : M () :=
  fun st => Ok ((), mk_dstate (compile_type_ st) (host_vars_ st ++ [v]) (result_columns_ st)
                              (build_info_stack_ st) (flags st)).

Definition add_result_column (c : str) : M () :=
  fun st => Ok ((), mk_dstate (compile_type_ st) (host_vars_ st) (result_columns_ st ++ [c])
                              (build_info_stack_ st) (flags st)).

(** ** The linker *)
Section linker.
Variable d : dialect.

Definition placeholder : M str := fun st => Ok (next_placeholder d (host_vars_ st), st).
Definition identifier (s : str) : M str := lift (prepare_identifier d s).

Definition compile : M () :=
  fun st => match build_info_stack_ st with
            | i :: stk =>
              let? (fl, ts) := compiler d (flags st) (tokens_ i) in
              Ok ((), mk_dstate (compile_type_ st) (host_vars_ st) (result_columns_ st)
                                (mk_info ts (info_result i) :: stk) fl)
            | [] => Throw (undefined_behaviour "top of an empty stack")
            end.

Section visits.
(** [continue_build] for the sub-queries. *)
Variable continue_build : list token -> M str.

Fixpoint add_host_vars (n : nat) (v : str) : M () :=
  match n with
  | O => ret ()
  | S n' => add_host_var v ;! add_host_vars n' v
  end.

(** The elements of an IN list. *)
Fixpoint in_list (args : list arg) : M str :=
  match args with
  | [] => ret []
  | a :: rest =>
    let! ct := get_compile_type in
    let! p := (match ct with DIRECT => ret (print_arg a) | PREPARED => placeholder end) in
    match rest with
    | [] => ret p
    | _ => let! s := in_list rest in ret (p ++ lit "," ++ s)
    end
  end.

Fixpoint evaluate (c : condition) : M str :=
  match c with
  | cond_scalar field_ op v =>
    add_host_var (name field_) ;!
    let! ct := get_compile_type in
    let! id := identifier (name field_) in
    match ct with
    | DIRECT => ret (id ++ lit " " ++ operands op ++ lit " " ++ print_scalar v)
    | PREPARED => let! p := placeholder in ret (id ++ lit " " ++ operands op ++ lit " " ++ p)
    end
  | cond_string field_ op v =>
    add_host_var (name field_) ;!
    let! ct := get_compile_type in
    let! id := identifier (name field_) in
    match ct with
    | DIRECT => ret (id ++ lit " " ++ operands op ++ lit " '" ++ v ++ lit "'")
    | PREPARED => let! p := placeholder in ret (id ++ lit " " ++ operands op ++ lit " " ++ p)
    end
  | cond_scalar_left v op field_ =>
    let! id := identifier (name field_) in
    ret (print_scalar v ++ lit " " ++ operands op ++ lit " " ++ id)
  | cond_string_left v op field_ =>
    let! id := identifier (name field_) in
    ret (lit "'" ++ v ++ lit "' " ++ operands op ++ lit " " ++ id)
  | cond_in field_ args_ =>
    add_host_vars (length args_) (name field_) ;!
    let! id := identifier (name field_) in
    let! s := in_list args_ in
    ret (id ++ lit " IN (" ++ s ++ lit ")")
  | cond_query field_ op query_ =>
    let! id := identifier (name field_) in
    let! s := continue_build query_ in
    ret (id ++ lit " " ++ operands op ++ lit " (" ++ s ++ lit ")")
  | cond_between field_ low high =>
    add_host_var (name field_) ;!
    add_host_var (name field_) ;!
    let! ct := get_compile_type in
    let! id := identifier (name field_) in
    match ct with
    | DIRECT => ret (id ++ lit " BETWEEN " ++ print_arg low ++ lit " AND " ++ print_arg high)
    | PREPARED =>
      let! p := placeholder in
      let! p' := placeholder in
      ret (id ++ lit " BETWEEN " ++ p ++ lit " AND " ++ p')
    end
  | cond_pair l r operand =>
    let! cl := evaluate l in
    let! cr := evaluate r in
    ret (match operand with
         | AND => lit "(" ++ cl ++ lit " " ++ operands operand ++ lit " " ++ cr ++ lit ")"
         | _ => cl ++ lit " " ++ operands operand ++ lit " " ++ cr
         end)
  | cond_not cond =>
    let! s := evaluate cond in
    ret (operands NOT ++ lit " (" ++ s ++ lit ")")
  end.

Definition token_string (tok : t_token) : M str := lift (token_at d tok).

(** Most tokens print a keyword, or a keyword and an identifier. *)
Definition visit_keyword (tok : t_token) : M () :=
  let! kw := token_string tok in append_to_result (kw ++ lit " ").
Definition visit_keyword_identifier (tok : t_token) (s : str) : M () :=
  let! kw := token_string tok in
  let! id := identifier s in
  append_to_result (kw ++ lit " " ++ id ++ lit " ").

Definition visit_value (v : value) : M () :=
  let! ct := get_compile_type in
  match ct with
  | DIRECT => let! s := lift (to_safe_string d v) in append_to_result s
  | PREPARED =>
    let! s := lift (to_string v) in
    add_host_var s ;!
    let! p := placeholder in
    append_to_result p
  end.

(** A null pointer in the list of values is dereferenced. *)
Definition visit_value_ptr (v : option value) : M () :=
  match v with
  | Some v => visit_value v
  | None => lift (Throw (undefined_behaviour "null pointer"))
  end.

(** The elements of a list, separated by commas. *)
Fixpoint visit_list {A} (visit : A -> M ()) (l : list A) : M () :=
  match l with
  | [] => ret ()
  | [a] => visit a
  | a :: l' => visit a ;! append_to_result (lit ", ") ;! visit_list visit l'
  end.

Definition visit_column (col : column) : M () :=
  (if is_build_options_set (build_options col) with_quotes
   then let! id := identifier (name col) in append_to_result id
   else append_to_result (name col)) ;!
  (if is_build_options_set (build_options col) with_type
   then
     let! ty := lift (to_database_type_string d (type col)) in
     append_to_result (lit " " ++ ty) ;!
     (if (0 <? size_ (attributes col))%Z
      then append_to_result (lit "(" ++ to_string_z (size_ (attributes col)) ++ lit ")")
      else ret ()) ;!
     (if is_constraint_set (options_ (attributes col)) NOT_NULL_CONSTRAINT
      then append_to_result (lit " NOT NULL") else ret ()) ;!
     (if is_constraint_set (options_ (attributes col)) PRIMARY_KEY_CONSTRAINT
      then append_to_result (lit " PRIMARY KEY") else ret ()) ;!
     (if is_constraint_set (options_ (attributes col)) UNIQUE_CONSTRAINT
      then append_to_result (lit " UNIQUE") else ret ())
   else ret ()) ;!
  (if is_build_options_set (build_options col) with_value
   then append_to_result (lit "=") ;! visit_value (val col)
   else ret ()) ;!
  add_result_column (name col).

Definition visit_columns (cols : columns) : M () :=
  (match with_brackets_ cols with
   | WITH_BRACKETS => append_to_result (lit "(")
   | WITHOUT_BRACKETS => ret ()
   end) ;!
  visit_list visit_column (columns_ cols) ;!
  (match with_brackets_ cols with
   | WITH_BRACKETS => append_to_result (lit ")")
   | WITHOUT_BRACKETS => ret ()
   end) ;!
  append_to_result (lit " ").

Definition visit (t : token) : M () :=
  match t with
  | begin_tok => visit_keyword BEGIN
  | commit_tok => visit_keyword COMMIT
  | rollback_tok => visit_keyword ROLLBACK
  | create_tok n => visit_keyword_identifier CREATE_TABLE n
  | drop_tok n => visit_keyword_identifier DROP n
  | insert_tok n => visit_keyword_identifier INSERT n
  | select_tok => visit_keyword SELECT
  | distinct_tok => visit_keyword DISTINCT
  | update_tok => visit_keyword UPDATE
  | remove_tok => visit_keyword REMOVE
  | set_tok => visit_keyword SET
  | tablename_tok n =>
    let! id := identifier n in append_to_result (id ++ lit " ")
  | from_tok n =>
    match n with
    | [] => visit_keyword FROM
    | _ => visit_keyword_identifier FROM n
    end
  | as_tok alias =>
    let! kw := token_string AS in
    append_to_result (kw ++ lit " " ++ alias ++ lit " ")
  | top_tok l =>
    let! kw := token_string TOP in append_to_result (top_text d kw l)
  | values_tok vs =>
    let! kw := token_string VALUES in
    append_to_result (kw ++ lit " (") ;!
    visit_list visit_value_ptr vs ;!
    append_to_result (lit ") ")
  | columns_tok cols => visit_columns cols
  | column_tok col => visit_column col
  | order_by_tok c => visit_keyword_identifier ORDER_BY c
  | group_by_tok c => visit_keyword_identifier GROUP_BY c
  | asc_tok => visit_keyword ASC
  | desc_tok => visit_keyword DESC
  | where_tok c =>
    visit_keyword WHERE ;!
    let! s := evaluate c in
    append_to_result s ;!
    append_to_result (lit " ")
  | query_tok q =>
    append_to_result (lit "(") ;!
    let! s := continue_build q in
    append_to_result s ;!
    append_to_result (lit ") ")
  end.

Fixpoint link (ts : list token) : M () :=
  match ts with
  | [] => ret ()
  | t :: ts' => visit t ;! link ts'
  end.
End visits.

(** [continue_build(s, compile_type())]; the fuel bounds how deep queries are
    nested, see [Statements.cost]. *)
Fixpoint continue_build (fuel : nat) (ts : list token) : M str :=
  match fuel with
  | O => lift (Throw out_of_fuel)
  | S fuel' =>
    push ts ;!
    compile ;!
    let! i := top in
    link (continue_build fuel') (tokens_ i) ;!
    let! i := top in
    pop ;!
    ret (info_result i)
  end.

(** [build]. *)
Definition build (fuel : nat) (s : sql) (ct : t_compile_type) : M str :=
  fun st =>
    continue_build fuel (token_list_ s)
      (mk_dstate ct [] [] (build_info_stack_ st) (flags st)).

Definition direct (fuel : nat) (s : sql) : M str := build fuel s DIRECT.

(** [statement_context]: text, bound variables, result columns, table name and
    command. *)
Record statement_context := mk_context {
  ctx_sql : str;
  bind_vars : list str;
  ctx_columns : list str;
  ctx_table_name : str;
  command_name : str;
}.

Definition prepare (fuel : nat) (s : sql) : M statement_context :=
  let! text := build fuel s PREPARED in
  fun st => Ok (mk_context text (host_vars_ st) (result_columns_ st) (table_name_ s) (command s), st).
End linker.
