(* ===== verification/Dialects.v ===== *)
(** * The four dialects

    mysql, sqlite, postgresql and mssql (src/db/<backend>): their keywords,
    quotes, type names and placeholders, and the compilers that move or
    rewrite a LIMIT clause. *)

From S2P Require Import Prelude Sql Dialect.
Local Open Scope cxx_scope.

(** The value of the enumerator in the messages about unknown types. *)
Definition type_number (t : data_type) : string :=
  match t with
  | type_blob => "18"
  | type_null => "19"
  | _ => "20"
  end.

(** ** MySQL *)

(** The version of the client library decides how a time is stored. *)
Definition mysql_type (version : Z) (t : data_type) : result str :=
  match t with
  | type_char => Ok (lit "TINYINT")
  | type_short => Ok (lit "SMALLINT")
  | type_int => Ok (lit "INTEGER")
  | type_long | type_long_long => Ok (lit "BIGINT")
  | type_unsigned_char => Ok (lit "SMALLINT")
  | type_unsigned_short => Ok (lit "SMALLINT UNSIGNED")
  | type_unsigned_int => Ok (lit "INTEGER UNSIGNED")
  | type_unsigned_long | type_unsigned_long_long => Ok (lit "BIGINT UNSIGNED")
  | type_bool => Ok (lit "INTEGER")
  | type_float => Ok (lit "FLOAT")
  | type_double => Ok (lit "DOUBLE")
  | type_date => Ok (lit "DATE")
  | type_time => Ok (if (version <? 50604)%Z then lit "VARCHAR(256)" else lit "DATETIME(3)")
  | type_char_pointer => Ok (lit "VARCHAR")
  | type_varchar => Ok (lit "VARCHAR")
  | type_text => Ok (lit "TEXT")
  | _ => Throw (logic_error ("mysql sql: unknown type xxx [" +:+ type_number t +:+ "]"))
  end.

Definition mysql_tokens : list (t_token * str) :=
  replace_token END_QUOTE (lit "`")
    (replace_token START_QUOTE (lit "`")
      (replace_token ROLLBACK (lit "ROLLBACK")
        (replace_token COMMIT (lit "COMMIT")
          (replace_token BEGIN (lit "START TRANSACTION") basic_tokens)))).

Definition mysql_dialect (version : Z) : dialect :=
  mk_dialect mysql_tokens ESCAPE_BOTH_SAME basic_next_placeholder (mysql_type version)
             basic_compile basic_top_text.

(** ** SQLite and PostgreSQL

    Their compilers replace the condition of a limited UPDATE or DELETE by a
    sub-select on the row id. [where_pos] is the iterator [where_] as a
    position among the tokens visited. The condition is swapped inside the
    token object, which the statement shares: the model keeps the tokens that
    are linked. *)

Record limit_state := mk_limit_state {
  lm_flags : compiler_flags;
  lm_table : str;
  where_pos : option nat;
}.

Definition set_where_cond (c : condition) (t : token) : token :=
  match t with where_tok _ => where_tok c | _ => t end.
Definition where_cond (t : token) : option condition :=
  match t with where_tok c => Some c | _ => None end.

(** [matador::select({rowid}).from(table).where(cond).limit(n)]. *)
Definition limited_select (rowid : column) (table : str) (c : condition) (n : Z) : result (list token) :=
  let? q := query_run [op_select (mk_columns [rowid] WITH_BRACKETS); op_from table; op_where c;
                       op_limit n] query_new in
  Ok (token_list_ (sql_ q)).

Section limit_compiler.
(** The row id and the operator: [rowid IN (...)] or [ctid = (...)]. *)
Variable rowid : column.
Variable op : t_operand.

(** Visit of a limit: the tokens visited so far with the condition replaced. *)
Definition rewrite_limit (st : limit_state) (n : Z) (done : list token) : result (list token) :=
  match where_pos st with
  | None => Throw (undefined_behaviour "dereference of end()")
  | Some i =>
    match done !! i ≫= where_cond with
    | None => Throw (undefined_behaviour "not a where token")
    | Some c =>
      let? sub_select := limited_select rowid (lm_table st) c n in
      Ok (alter (set_where_cond (cond_query rowid op sub_select)) i done)
    end
  end.

Fixpoint limit_loop (st : limit_state) (done todo : list token) :
  result (compiler_flags * list token) :=
  match todo with
  | [] => Ok (lm_flags st, done)
  | t :: todo' =>
    let keep st := limit_loop st (done ++ [t]) todo' in
    match t with
    | select_tok => keep (mk_limit_state (mk_flags false false) (lm_table st) (where_pos st))
    | update_tok => keep (mk_limit_state (mk_flags true false) (lm_table st) (where_pos st))
    | remove_tok => keep (mk_limit_state (mk_flags false true) (lm_table st) (where_pos st))
    | tablename_tok n => keep (mk_limit_state (lm_flags st) n (where_pos st))
    | from_tok n => keep (mk_limit_state (lm_flags st) n (where_pos st))
    | where_tok _ =>
      if is_update (lm_flags st) || is_delete (lm_flags st)
      then keep (mk_limit_state (lm_flags st) (lm_table st) (Some (length done)))
      else keep st
    | top_tok n =>
      if is_update (lm_flags st) || is_delete (lm_flags st)
      then let? done' := rewrite_limit st n done in limit_loop st done' todo'
      else keep st
    | _ => keep st
    end
  end.

(** [on_compile_start] resets the iterator and the table, not the flags. *)
Definition limit_compile (fl : compiler_flags) (ts : list token) :
  result (compiler_flags * list token) :=
  limit_loop (mk_limit_state fl [] None) [] ts.
End limit_compiler.

Definition sqlite_compile := limit_compile (column_of_name (lit "rowid")) IN_LIST.
Definition postgresql_compile := limit_compile (column_of_name (lit "ctid")) EQUAL.

Definition sqlite_type (t : data_type) : result str :=
  match t with
  | type_char => Ok (lit "TINYINT")
  | type_short => Ok (lit "SMALLINT")
  | type_int => Ok (lit "INTEGER")
  | type_long | type_long_long => Ok (lit "BIGINT")
  | type_unsigned_char => Ok (lit "TINYINT")
  | type_unsigned_short => Ok (lit "INTEGER")
  | type_unsigned_int | type_unsigned_long | type_unsigned_long_long => Ok (lit "BIGINT")
  | type_bool => Ok (lit "BOOLEAN")
  | type_float => Ok (lit "FLOAT")
  | type_double => Ok (lit "DOUBLE")
  | type_char_pointer | type_varchar => Ok (lit "VARCHAR")
  | type_text => Ok (lit "TEXT")
  | type_date => Ok (lit "DATE")
  | type_time => Ok (lit "DATETIME")
  | _ => Throw (logic_error ("sqlite sql: unknown type [" +:+ type_number t +:+ "]"))
  end.

Definition sqlite_tokens : list (t_token * str) :=
  replace_token ROLLBACK (lit "ROLLBACK TRANSACTION")
    (replace_token COMMIT (lit "COMMIT TRANSACTION")
      (replace_token BEGIN (lit "BEGIN TRANSACTION") basic_tokens)).

Definition sqlite_dialect : dialect :=
  mk_dialect sqlite_tokens ESCAPE_BOTH_SAME basic_next_placeholder sqlite_type sqlite_compile
             basic_top_text.

Definition postgresql_type (t : data_type) : result str :=
  match t with
  | type_char | type_short => Ok (lit "SMALLINT")
  | type_int => Ok (lit "INTEGER")
  | type_long | type_long_long => Ok (lit "BIGINT")
  | type_unsigned_char => Ok (lit "SMALLINT")
  | type_unsigned_short => Ok (lit "INTEGER")
  | type_unsigned_int | type_unsigned_long | type_unsigned_long_long => Ok (lit "BIGINT")
  | type_bool => Ok (lit "INTEGER")
  | type_float => Ok (lit "FLOAT4")
  | type_double => Ok (lit "FLOAT8")
  | type_date => Ok (lit "DATE")
  | type_time => Ok (lit "TIMESTAMP")
  | type_char_pointer | type_varchar => Ok (lit "VARCHAR")
  | type_text => Ok (lit "TEXT")
  | _ => Throw (logic_error ("postgresql sql: unknown type xxx [" +:+ type_number t +:+ "]"))
  end.

Definition postgresql_next_placeholder (host_vars : list str) : str :=
  lit "$" ++ to_string_u (Z.of_nat (length host_vars)).

Definition postgresql_dialect : dialect :=
  mk_dialect basic_tokens ESCAPE_BOTH_SAME postgresql_next_placeholder postgresql_type
             postgresql_compile basic_top_text.

(** ** SQL Server

    The compiler moves a limit behind the command it belongs to; [commands] is
    the stack of iterators, as positions among the tokens visited. *)

Definition is_command (t : token) : bool :=
  match t with select_tok | update_tok | remove_tok => true | _ => false end.
Definition is_top (t : token) : bool := match t with top_tok _ => true | _ => false end.

Definition insert_behind (p : nat) (t : token) (l : list token) : list token :=
  take (S p) l ++ t :: List.skipn (S p) l.

Fixpoint mssql_loop (commands : list nat) (done todo : list token) : list token :=
  match todo with
  | [] => done
  | t :: todo' =>
    if is_command t then mssql_loop (length done :: commands) (done ++ [t]) todo'
    else if is_top t then
      match commands with
      | [] => mssql_loop [] (done ++ [t]) todo'
      | p :: commands' => mssql_loop commands' (insert_behind p t done) todo'
      end
    else mssql_loop commands (done ++ [t]) todo'
  end.

Definition mssql_compile (fl : compiler_flags) (ts : list token) :
  result (compiler_flags * list token) := Ok (fl, mssql_loop [] [] ts).

Definition mssql_top_text (kw : str) (limit : Z) : str :=
  kw ++ lit " (" ++ to_string_z limit ++ lit ") ".

Definition mssql_type (t : data_type) : result str :=
  match t with
  | type_char | type_short => Ok (lit "SMALLINT")
  | type_int => Ok (lit "INT")
  | type_long | type_long_long => Ok (lit "BIGINT")
  | type_unsigned_char => Ok (lit "SMALLINT")
  | type_unsigned_short => Ok (lit "INT")
  | type_unsigned_int => Ok (lit "BIGINT")
  | type_unsigned_long | type_unsigned_long_long => Ok (lit "NUMERIC(21,0)")
  | type_bool => Ok (lit "BIT")
  | type_float => Ok (lit "FLOAT(24)")
  | type_double => Ok (lit "FLOAT(53)")
  | type_char_pointer | type_varchar => Ok (lit "VARCHAR")
  | type_text => Ok (lit "VARCHAR(MAX)")
  | type_date => Ok (lit "DATE")
  | type_time => Ok (lit "DATETIME")
  | _ => Throw (logic_error ("mssql connection: unknown type [" +:+ type_number t +:+ "]"))
  end.

Definition mssql_tokens : list (t_token * str) :=
  replace_token END_QUOTE (lit "]")
    (replace_token START_QUOTE (lit "[")
      (replace_token TOP (lit "TOP")
        (replace_token ROLLBACK (lit "ROLLBACK")
          (replace_token COMMIT (lit "COMMIT")
            (replace_token BEGIN (lit "BEGIN TRANSACTION") basic_tokens))))).

Definition mssql_dialect : dialect :=
  mk_dialect mssql_tokens ESCAPE_CLOSING_BRACKET basic_next_placeholder mssql_type mssql_compile
             mssql_top_text.

(** ** Some statements *)

Definition initial_dstate : dstate := mk_dstate DIRECT [] [] [] (mk_flags false false).

(** The text of a direct statement, and of a prepared one with the number of
    its host variables. *)
Definition direct_text (d : dialect) (ops : list query_op) : result str :=
  let? q := query_run ops query_new in
  let? (text, _) := direct d 5 (sql_ q) initial_dstate in
  Ok text.
Definition prepared_text (d : dialect) (ops : list query_op) : result (str * nat) :=
  let? q := query_run ops query_new in
  let? (ctx, _) := prepare d 5 (sql_ q) initial_dstate in
  Ok (ctx_sql ctx, length (bind_vars ctx)).

(** A text with bars for the double quotes. *)
Definition dq (s : string) : str :=
  (fun c => if bool_decide (c = "|"%char) then DQUOTE else c) <$> lit s.

Definition age : column := column_of_name (lit "age").
Definition person : str := lit "person".

Example sqlite_limited_delete :
  direct_text sqlite_dialect
    [op_remove person; op_where (cond_scalar age LESS (sc_int 7)); op_limit 1]
  = Ok (dq "DELETE FROM |person| WHERE |rowid| IN (SELECT |rowid| FROM |person| WHERE |age| < 7 LIMIT 1 ) ").
Proof. reflexivity. Qed.

(** Without a WHERE clause there is no token to rewrite, and the end iterator
    is dereferenced. *)
Example limited_delete_without_where :
  direct_text sqlite_dialect [op_remove person; op_limit 1]
  = Throw (undefined_behaviour "dereference of end()").
Proof. reflexivity. Qed.

Example mssql_top :
  direct_text mssql_dialect
    [op_select columns_all; op_from person; op_where (cond_scalar age LESS (sc_int 7)); op_limit 3]
  = Ok (lit "SELECT TOP (3) * FROM [person] WHERE [age] < 7 ").
Proof. reflexivity. Qed.

(** Both bounds of a range get the number of the second host variable. *)
Example postgresql_between_placeholders :
  prepared_text postgresql_dialect
    [op_select columns_all; op_from person;
     op_where (cond_between age (arg_scalar (sc_int 1)) (arg_scalar (sc_int 2)))]
  = Ok (dq "SELECT * FROM |person| WHERE |age| BETWEEN $2 AND $2 ", 2%nat).
Proof. reflexivity. Qed.

(** A disjunction inside a conjunction is printed without brackets. *)
Example or_inside_and :
  direct_text (mysql_dialect 50700)
    [op_select columns_all; op_from person;
     op_where (cond_and (cond_or (cond_scalar age LESS (sc_int 7)) (cond_scalar age GREATER (sc_int 70)))
                        (cond_string (column_of_name (lit "name")) EQUAL (lit "jane")))]
  = Ok (lit "SELECT * FROM `person` WHERE (`age` < 7 OR `age` > 70 AND `name` = 'jane') ").
Proof. reflexivity. Qed.

(** The value of a string condition is not escaped. *)
Example condition_injection :
  direct_text (mysql_dialect 50700)
    [op_remove person; op_where (cond_string (column_of_name (lit "name")) EQUAL (lit "x' OR '1'='1"))]
  = Ok (lit "DELETE FROM `person` WHERE `name` = 'x' OR '1'='1' ").
Proof. reflexivity. Qed.

(** A comparison with the value on the left prints it even when preparing. *)
Example left_value_not_prepared :
  prepared_text (mysql_dialect 50700)
    [op_remove person; op_where (cond_scalar_left (sc_int 7) LESS age)]
  = Ok (lit "DELETE FROM `person` WHERE 7 < `age` ", 0%nat).
Proof. reflexivity. Qed.

(** Strings of an IN list are printed without quotes. *)
Example in_list_unquoted :
  direct_text (mysql_dialect 50700)
    [op_remove person; op_where (cond_in (column_of_name (lit "name")) [arg_string (lit "jane"); arg_string (lit "joe")])]
  = Ok (lit "DELETE FROM `person` WHERE `name` IN (jane,joe) ").
Proof. reflexivity. Qed.

(** A column added by [column] is not separated from what follows. *)
Example column_runs_into_where :
  direct_text (mysql_dialect 50700)
    [op_select_names [lit "id"]; op_from person; op_column (lit "age") type_int 0;
     op_where (cond_scalar age LESS (sc_int 7))]
  = Ok (lit "SELECT `id` FROM `person` `age` INTEGERWHERE `age` < 7 ").
Proof. reflexivity. Qed.
