(* ===== verification/SqlLexer.v ===== *)
(** * Reading SQL text back

    A lexer for SQL, as a database reads a statement: words, quoted
    identifiers, string literals and symbols. It is the yardstick for the
    text the dialects build: what was put in as a name or a string must come
    out as one lexeme with the same characters. *)

From S2P Require Import Prelude Sql Dialect.
Local Open Scope cxx_scope.

Inductive lexeme :=
| Word (s : str)
| Ident (s : str)
| Str (s : str)
| Sym (c : ascii).

#[export] Instance lexeme_eq_dec : EqDecision lexeme.
Proof. solve_decision. Defined.

Inductive lex_state :=
| Between
| InWord (w : str)
| InIdent (s : str)
| IdentQuote (s : str)
| InString (s : str)
| StringEscape (s : str)
| StringQuote (s : str).

Definition QUOTE : ascii := "'"%char.

(** Letters, digits and what numbers and placeholders consist of. *)
Definition word_char (c : ascii) : bool :=
  isalnum c || bool_decide (c ∈ lit "_$.+-").
(** The characters that end a lexeme and start none that goes on. *)
Definition separator (c : ascii) : bool := isspace c || bool_decide (c ∈ lit ",()=").

Section lexer.
(** The quotes around identifiers; does a backslash in a string escape the
    character behind it? *)
Variables opn cls : ascii.
Variable esc : bool.

(** A quote inside a quoted text is doubled. *)
Definition start (c : ascii) : lex_state * list lexeme :=
  if isspace c then (Between, [])
  else if bool_decide (c = opn) then (InIdent [], [])
  else if bool_decide (c = QUOTE) then (InString [], [])
  else if word_char c then (InWord [c], [])
  else (Between, [Sym c]).

Definition emit (l : lexeme) (r : lex_state * list lexeme) : lex_state * list lexeme :=
  (r.1, l :: r.2).

(** What a backslash and [c] stand for, as MySQL reads them; [%] and [_] keep
    their backslash for patterns. *)
Definition escaped (c : ascii) : str :=
  if bool_decide (c = "n"%char) then [LF]
  else if bool_decide (c = "t"%char) then [TAB]
  else if bool_decide (c = "r"%char) then [CR]
  else if bool_decide (c = "b"%char) then [ascii_of_nat 8]
  else if bool_decide (c = "0"%char) then [NUL]
  else if bool_decide (c = "Z"%char) then [ascii_of_nat 26]
  else if bool_decide (c ∈ lit "%_") then [BACKSLASH; c]
  else [c].

Definition step (st : lex_state) (c : ascii) : lex_state * list lexeme :=
  match st with
  | Between => start c
  | InWord w => if word_char c then (InWord (w ++ [c]), []) else emit (Word w) (start c)
  | InIdent s => if bool_decide (c = cls) then (IdentQuote s, []) else (InIdent (s ++ [c]), [])
  | IdentQuote s => if bool_decide (c = cls) then (InIdent (s ++ [c]), []) else emit (Ident s) (start c)
  | InString s =>
    if bool_decide (c = QUOTE) then (StringQuote s, [])
    else if esc && bool_decide (c = BACKSLASH) then (StringEscape s, [])
    else (InString (s ++ [c]), [])
  | StringEscape s => (InString (s ++ escaped c), [])
  | StringQuote s => if bool_decide (c = QUOTE) then (InString (s ++ [c]), []) else emit (Str s) (start c)
  end.

Fixpoint run (st : lex_state) (s : str) : lex_state * list lexeme :=
  match s with
  | [] => (st, [])
  | c :: s' =>
    let '(st1, l1) := step st c in
    let '(st2, l2) := run st1 s' in (st2, l1 ++ l2)
  end.

(** The lexeme that is complete at the end of the text; [None] inside quotes. *)
Definition flush (st : lex_state) : option (list lexeme) :=
  match st with
  | Between => Some []
  | InWord w => Some [Word w]
  | IdentQuote s => Some [Ident s]
  | StringQuote s => Some [Str s]
  | InIdent _ | InString _ | StringEscape _ => None
  end.

Definition lex (s : str) : option (list lexeme) :=
  let '(st, l) := run Between s in
  match flush st with
  | Some l' => Some (l ++ l')
  | None => None
  end.

(** The quotes are no other characters of interest. *)
Definition quotes_ok : bool :=
  negb (isspace opn) && negb (bool_decide (opn = QUOTE)) && negb (separator opn)
  && negb (separator cls) && negb (word_char opn).

(** A text without escapes. *)
Definition unescaped (s : str) : bool := negb esc || bool_decide (BACKSLASH ∉ s).

(** The text [s] ends between two lexemes. *)
Definition closed (s : str) (l : list lexeme) : Prop := run Between s = (Between, l).

Lemma run_app st s t :
  run st (s ++ t) = ((run (run st s).1 t).1, (run st s).2 ++ (run (run st s).1 t).2).
Proof.
  revert st. induction s as [|c s IH]; intros st; simpl; [by destruct (run st t) |].
  destruct (step st c) as [st1 l1]. rewrite IH. destruct (run st1 s) as [st2 l2]. simpl.
  by rewrite app_assoc.
Qed.

Lemma closed_nil : closed [] [].
Proof. done. Qed.

Lemma closed_lex s l : closed s l -> lex s = Some l.
Proof. unfold closed, lex. intros ->. simpl. by rewrite app_nil_r. Qed.

Lemma closed_app s t k l : closed s k -> closed t l -> closed (s ++ t) (k ++ l).
Proof. unfold closed. intros Hs Ht. rewrite run_app, Hs. simpl. by rewrite Ht. Qed.

Lemma closed_app_lex s t k l : closed s k -> lex t = Some l -> lex (s ++ t) = Some (k ++ l).
Proof.
  unfold closed, lex. intros Hs Ht. rewrite run_app, Hs. simpl.
  destruct (run Between t) as [st l1]. simpl. destruct (flush st); [|done].
  injection Ht as <-. by rewrite app_assoc.
Qed.

(** A separator closes what stands before it. *)
Definition sep_lexemes (c : ascii) : list lexeme := if isspace c then [] else [Sym c].

Lemma separator_not_word c : separator c = true -> word_char c = false.
Proof.
  pose proof (forall_chars (fun c => implb (separator c) (negb (word_char c))) eq_refl c) as H.
  simpl in H. intros Hc. rewrite Hc in H. simpl in H. by breflect.
Qed.

Context (Hq : quotes_ok = true).

Lemma separator_not_quote c :
  separator c = true -> c <> opn /\ c <> cls /\ c <> QUOTE.
Proof.
  unfold quotes_ok in Hq. breflect. intros Hc. split_and!; [congruence | congruence |].
  intros ->. done.
Qed.

Lemma start_separator c : separator c = true -> start c = (Between, sep_lexemes c).
Proof.
  intros Hc. pose proof (separator_not_quote c Hc) as (H1 & H2 & H3). unfold start, sep_lexemes.
  destruct (isspace c); [done |].
  by rewrite !bool_decide_eq_false_2, (separator_not_word c Hc) by done.
Qed.

Lemma lex_separator s l c :
  lex s = Some l -> separator c = true -> closed (s ++ [c]) (l ++ sep_lexemes c).
Proof.
  intros H Hc. pose proof (separator_not_quote c Hc) as (H1 & H2 & H3).
  unfold lex in H. unfold closed. rewrite run_app. destruct (run Between s) as [st k]. simpl.
  pose proof (start_separator c Hc) as Hs.
  destruct st; simpl in H; simplify_eq; simpl;
    rewrite ?bool_decide_eq_false_2, ?(separator_not_word c Hc) by done; rewrite Hs; simpl;
    by rewrite ?app_nil_r, <- ?app_assoc.
Qed.

(** A word. *)
Lemma run_word w s : forallb word_char s = true -> run (InWord w) s = (InWord (w ++ s), []).
Proof.
  revert w. induction s as [|c s IH]; intros w H; simpl in *; [by rewrite app_nil_r |]. breflect.
  rewrite H. rewrite IH by done. by rewrite <- app_assoc.
Qed.

Lemma lex_word s : s <> [] -> forallb word_char s = true -> lex s = Some [Word s].
Proof.
  unfold quotes_ok in Hq. breflect. destruct s as [|c s]; [done |]. simpl. intros _ Hw. breflect.
  assert (isspace c = false /\ c <> QUOTE) as [Hs Hc].
  { pose proof (forall_chars (fun c => implb (word_char c)
      (negb (isspace c) && negb (bool_decide (c = QUOTE)))) eq_refl c) as H'.
    simpl in H'. rewrite H4 in H'. simpl in H'. by breflect. }
  unfold lex. simpl. unfold start. rewrite Hs, !bool_decide_eq_false_2, H4 by congruence.
  by rewrite run_word by done.
Qed.

(** Two texts with a separator between them. *)
Lemma lex_sep_cons c t l :
  separator c = true -> lex t = Some l -> lex (c :: t) = Some (sep_lexemes c ++ l).
Proof. intros Hc Ht. apply (closed_app_lex [c]); [by apply (lex_separator [] []) | done]. Qed.

Lemma lex_sep_app s k c t l :
  lex s = Some k -> separator c = true -> lex t = Some l ->
  lex (s ++ c :: t) = Some (k ++ sep_lexemes c ++ l).
Proof.
  intros Hs Hc Ht. rewrite app_assoc. change (c :: t) with ([c] ++ t). rewrite app_assoc.
  apply closed_app_lex; [by apply lex_separator | done].
Qed.

Lemma closed_sep_cons c t l :
  separator c = true -> closed t l -> closed (c :: t) (sep_lexemes c ++ l).
Proof. intros Hc Ht. apply (closed_app [c]); [by apply (lex_separator [] []) | done]. Qed.

Lemma closed_sep_app s k c t l :
  lex s = Some k -> separator c = true -> closed t l ->
  closed (s ++ c :: t) (k ++ sep_lexemes c ++ l).
Proof.
  intros Hs Hc Ht. rewrite app_assoc. change (c :: t) with ([c] ++ t). rewrite app_assoc.
  apply closed_app; [by apply lex_separator | done].
Qed.

Lemma lex_number z : lex (to_string_z z) = Some [Word (to_string_z z)].
Proof.
  assert (forall z, (0 <= z)%Z -> to_string_u z <> [] /\ forallb word_char (to_string_u z) = true) as Hu.
  { intros z0 Hz. destruct (to_string_u_nonempty z0 Hz) as (c & s & E & _). split; [congruence |].
    apply forallb_forall. intros c' Hc'. pose proof (to_string_u_digits z0 Hz) as Hd.
    rewrite List.Forall_forall in Hd. specialize (Hd c' Hc'). unfold word_char, isalnum.
    by rewrite Hd, orb_true_r. }
  unfold to_string_z. destruct (z <? 0)%Z eqn:E; breflect.
  - destruct (Hu (- z)%Z ltac:(lia)) as [H1 H2]. apply lex_word; [done |]. simpl. by rewrite H2.
  - destruct (Hu z ltac:(lia)). by apply lex_word.
Qed.

(** ** Quoted text *)

(** Doubling the character [q]. *)
Fixpoint double (q : ascii) (s : str) : str :=
  match s with
  | [] => []
  | c :: s' => if bool_decide (c = q) then q :: q :: double q s' else c :: double q s'
  end.

Lemma replace_all_double q s : replace_all s [q] [q; q] = double q s.
Proof.
  unfold replace_all. simpl app. induction s as [|c s IH]; [done |].
  cbn [replace_loop starts_with double]. rewrite andb_true_r.
  case_bool_decide as H1; case_bool_decide as H2; subst; try done; cbn [app length Nat.sub]; by rewrite IH.
Qed.

Lemma run_ident_double s0 s : run (InIdent s0) (double cls s) = (InIdent (s0 ++ s), []).
Proof.
  revert s0. induction s as [|c s IH]; intros s0; simpl; [by rewrite app_nil_r |].
  case_bool_decide as Hc; simpl.
  - subst. rewrite bool_decide_eq_true_2 by done. simpl. rewrite bool_decide_eq_true_2 by done.
    rewrite IH. by rewrite <- app_assoc.
  - rewrite bool_decide_eq_false_2 by done. rewrite IH. by rewrite <- app_assoc.
Qed.

Lemma run_string_double s0 s : unescaped s = true ->
  run (InString s0) (double QUOTE s) = (InString (s0 ++ s), []).
Proof.
  unfold unescaped. revert s0. induction s as [|c s IH]; intros s0 Hs; cbn [double]; [by rewrite app_nil_r |].
  assert (esc && bool_decide (c = BACKSLASH) = false /\ (negb esc || bool_decide (BACKSLASH ∉ s)) = true) as [He Ht].
  { destruct esc; [| done]. cbn in Hs |- *. breflect. rewrite not_elem_of_cons in Hs.
    split; [by rewrite bool_decide_eq_false_2 by (intros ->; tauto) | apply bool_decide_eq_true_2; tauto]. }
  destruct (decide (c = QUOTE)) as [-> | Hc]; cbn [run step].
  - assert (bool_decide (QUOTE = QUOTE) = true) as Hqq by done. rewrite Hqq. cbn [run step]. rewrite Hqq. cbn [step]. rewrite Hqq, IH by done. by rewrite <- app_assoc.
  - rewrite (bool_decide_eq_false_2 (c = QUOTE)) by done. cbn [run step].
    rewrite (bool_decide_eq_false_2 (c = QUOTE)), He, IH by done. by rewrite <- app_assoc.
Qed.

Lemma lex_ident s : lex ([opn] ++ double cls s ++ [cls]) = Some [Ident s].
Proof.
  unfold quotes_ok in Hq. breflect. unfold lex. cbn [app run step start].
  unfold start. rewrite H, bool_decide_eq_true_2 by done.
  rewrite run_app, run_ident_double. simpl. by rewrite bool_decide_eq_true_2 by done.
Qed.

Lemma lex_string s : unescaped s = true -> lex ([QUOTE] ++ double QUOTE s ++ [QUOTE]) = Some [Str s].
Proof.
  intros Ht. unfold quotes_ok in Hq. breflect.
  assert (start QUOTE = (InString [], [])) as Hs.
  { unfold start. by rewrite (bool_decide_eq_false_2 (QUOTE = opn)) by congruence. }
  unfold lex. cbn [app run step]. by rewrite Hs, run_app, run_string_double by done.
Qed.

Lemma double_clean q s : q ∉ s -> double q s = s.
Proof.
  induction s as [|c s IH]; [done |]. rewrite not_elem_of_cons. intros [Hc Hs]. simpl.
  by rewrite bool_decide_eq_false_2, IH by done.
Qed.
End lexer.

Create HintDb sql_lex.
#[export] Hint Resolve closed_nil closed_lex lex_ident lex_string lex_number : sql_lex.
