(* ===== verification/Statements.v ===== *)
(** * What a built statement means

    The lexemes a statement stands for ([tokens_lx]), next to the text the
    dialect builds for it: reading the text with [SqlLexer.lex] gives exactly
    these lexemes, and every placeholder has its host variable. The proofs
    are against an interface, [DialectLaws], that every dialect of
    [Dialects] implements. *)

From S2P Require Import Prelude Sql Dialect SqlLexer Dialects.
Local Open Scope cxx_scope.

(** ** Nested queries

    [cost] bounds the depth of nested builds: a limited UPDATE or DELETE may
    get one more level for each limit. *)

Definition ntops (ts : list token) : nat := length (List.filter is_top ts).
Definition extra (ts : list token) : nat :=
  match ts with
  | update_tok :: ts' | remove_tok :: ts' => ntops ts'
  | _ => 0
  end.

Fixpoint nest_cond (c : condition) : nat :=
  match c with
  | cond_query _ _ q =>
    S (extra q + (fix go l := match l with [] => 0 | t :: l' => Nat.max (nest_token t) (go l') end) q)
  | cond_pair l r _ => Nat.max (nest_cond l) (nest_cond r)
  | cond_not c => nest_cond c
  | _ => 0
  end
with nest_token (t : token) : nat :=
  match t with
  | where_tok c => nest_cond c
  | query_tok q =>
    S (extra q + (fix go l := match l with [] => 0 | t :: l' => Nat.max (nest_token t) (go l') end) q)
  | _ => 0
  end.

Fixpoint nest (ts : list token) : nat :=
  match ts with
  | [] => 0
  | t :: ts' => Nat.max (nest_token t) (nest ts')
  end.
Definition cost (ts : list token) : nat := S (extra ts + nest ts).

Lemma nest_cond_query f op q : nest_cond (cond_query f op q) = cost q.
Proof. reflexivity. Qed.
Lemma nest_token_query q : nest_token (query_tok q) = cost q.
Proof. reflexivity. Qed.

(** ** Well-formed statements *)

(** A command stands at the head only; a limit needs a command, and a WHERE
    before it in an UPDATE or DELETE. *)
Fixpoint limits_ok (seen : bool) (ts : list token) : bool :=
  match ts with
  | [] => true
  | where_tok _ :: ts' => limits_ok true ts'
  | top_tok _ :: ts' => seen && limits_ok seen ts'
  | _ :: ts' => limits_ok seen ts'
  end.

Definition commands_ok (ts : list token) : bool :=
  match ts with
  | select_tok :: ts' => forallb (fun t => negb (is_command t)) ts'
  | update_tok :: ts' | remove_tok :: ts' =>
    forallb (fun t => negb (is_command t)) ts' && limits_ok false ts'
  | _ => forallb (fun t => negb (is_command t) && negb (is_top t)) ts
  end.

(** A lexeme that is a placeholder. *)
Definition is_placeholder (l : lexeme) : bool :=
  match l with
  | Sym c => bool_decide (c = "?"%char)
  | Word (c :: _) => bool_decide (c = "$"%char)
  | _ => false
  end.
Abbreviation no_placeholder := (fun l => negb (is_placeholder l)).

(** The keywords the linker prints. *)
Definition keywords : list t_token :=
  [CREATE_TABLE; DROP; REMOVE; INSERT; VALUES; UPDATE; SELECT; FROM; WHERE; ORDER_BY; GROUP_BY;
   ASC; DESC; TOP; AS; DISTINCT; SET; BEGIN; COMMIT; ROLLBACK].

Section statements.
Context (d : dialect) (opn cls : ascii) (esc : bool).

Abbreviation lexd := (lex opn cls esc).

(** A text without user input, read by the lexer. *)
Definition const (s : str) : list lexeme := default [] (lexd s).
Definition const_ok (s : str) : bool :=
  match lexd s with
  | Some l => forallb no_placeholder l
  | None => false
  end.
Definition kw (tok : t_token) : list lexeme := const (ok_or [] (token_at d tok)).

Definition safe_scalar (v : scalar) : bool :=
  match v with
  | sc_char c => const_ok [c]
  | sc_float text => const_ok text
  | _ => true
  end.
Definition safe_arg (a : arg) : bool :=
  match a with
  | arg_scalar v => safe_scalar v
  | arg_string _ => false
  end.
Definition safe_value (v : value) : bool :=
  match v with
  | any_float text => const_ok text
  | any_string s => unescaped esc s
  | any_time text => unescaped esc text
  | any_date text => unescaped esc text
  | _ => true
  end.

(** Are all placeholders the same text? *)
Variable uniform : bool.

Section mode.
Variable ct : t_compile_type.
Abbreviation direct_only b := (match ct with DIRECT => b | PREPARED => true end).

(** What the text of a statement can be trusted with: in a direct statement
    the strings of conditions have no quotes and, where the database reads
    escapes, no string has a backslash; in a prepared one with numbered
    placeholders a condition has at most one of them. *)
Definition safe_column (col : column) : bool :=
  (is_build_options_set (build_options col) with_quotes || const_ok (name col))
  && (negb (is_build_options_set (build_options col) with_type)
      || is_ok (to_database_type_string d (type col)))
  && (negb (is_build_options_set (build_options col) with_value)
      || direct_only (safe_value (val col))).

Definition safe_value_ptr (v : option value) : bool :=
  match v with
  | Some v => direct_only (safe_value v)
  | None => false
  end.

Fixpoint safe_cond (c : condition) : bool :=
  match c with
  | cond_scalar _ _ v => direct_only (safe_scalar v)
  | cond_string _ _ v => direct_only (bool_decide (QUOTE ∉ v) && unescaped esc v)
  | cond_scalar_left v _ _ => safe_scalar v
  | cond_string_left v _ _ => bool_decide (QUOTE ∉ v) && unescaped esc v
  | cond_in _ args =>
    match ct with
    | DIRECT => forallb safe_arg args
    | PREPARED => uniform || (length args <=? 1)
    end
  | cond_query _ _ q =>
    commands_ok q
    && (fix go l := match l with [] => true | t :: l' => safe_token t && go l' end) q
  | cond_between _ a b =>
    match ct with
    | DIRECT => safe_arg a && safe_arg b
    | PREPARED => uniform
    end
  | cond_pair l r _ => safe_cond l && safe_cond r
  | cond_not c => safe_cond c
  end
with safe_token (t : token) : bool :=
  match t with
  | as_tok alias => const_ok alias
  | values_tok vs => forallb safe_value_ptr vs
  | columns_tok cols => forallb safe_column (columns_ cols)
  | column_tok _ => false
  | where_tok c => safe_cond c
  | query_tok q =>
    commands_ok q
    && (fix go l := match l with [] => true | t :: l' => safe_token t && go l' end) q
  | _ => true
  end.

Definition stmt_ok (ts : list token) : bool := commands_ok ts && forallb safe_token ts.

Lemma safe_cond_query f op q : safe_cond (cond_query f op q) = stmt_ok q.
Proof. reflexivity. Qed.
Lemma safe_token_query q : safe_token (query_tok q) = stmt_ok q.
Proof. reflexivity. Qed.
End mode.

(** ** The lexemes of a statement *)

(** Placeholder number [n]. *)
Variable ph_lexeme : nat -> lexeme.
Variable top_lexemes : Z -> list lexeme.

Definition scalar_lx (v : scalar) : list lexeme :=
  match v with
  | sc_int z => [Word (to_string_z z)]
  | sc_bool b => [Word (if b then lit "1" else lit "0")]
  | sc_char c => const [c]
  | sc_float text => const text
  end.
Definition arg_lx (a : arg) : list lexeme :=
  match a with
  | arg_scalar v => scalar_lx v
  | arg_string s => const s
  end.
Definition value_lx (v : value) : list lexeme :=
  match v with
  | any_empty | any_other => []
  | any_int z => [Word (to_string_z z)]
  | any_bool b => [Word (if b then lit "1" else lit "0")]
  | any_float text => const text
  | any_string s => [Str s]
  | any_time text => [Str text]
  | any_date text => [Str text]
  end.

Definition comma : lexeme := Sym ","%char.
Definition bracket_open : lexeme := Sym "("%char.
Definition bracket_close : lexeme := Sym ")"%char.
Definition word (s : string) : lexeme := Word (lit s).

(** The elements of a list with commas between them; [vars] counts the host
    variables of an element. *)
Fixpoint list_lx {A} (lx : nat -> A -> list lexeme) (vars : A -> nat) (n : nat) (l : list A) :
  list lexeme :=
  match l with
  | [] => []
  | [a] => lx n a
  | a :: l' => lx n a ++ comma :: list_lx lx vars (n + vars a) l'
  end.
Definition sum_vars {A} (vars : A -> nat) (l : list A) : nat := foldr (fun a k => vars a + k) 0 l.

Section lexemes.
Variable ct : t_compile_type.
(** Lexemes and host variables of a nested query. *)
Variable sub : nat -> list token -> list lexeme.
Variable sub_vars : list token -> nat.

Definition slot (n : nat) (l : list lexeme) : list lexeme :=
  match ct with DIRECT => l | PREPARED => [ph_lexeme n] end.
Definition slot_vars : nat := match ct with DIRECT => 0 | PREPARED => 1 end.

Definition cols_vars (col : column) : nat :=
  if is_build_options_set (build_options col) with_value then slot_vars else 0.
Definition column_lx (n : nat) (col : column) : list lexeme :=
  (if is_build_options_set (build_options col) with_quotes then [Ident (name col)]
   else const (name col))
  ++ (if is_build_options_set (build_options col) with_type
      then const (ok_or [] (to_database_type_string d (type col)))
           ++ (if (0 <? size_ (attributes col))%Z
               then [bracket_open; Word (to_string_z (size_ (attributes col))); bracket_close] else [])
           ++ (if is_constraint_set (options_ (attributes col)) NOT_NULL_CONSTRAINT
               then [word "NOT"; word "NULL"] else [])
           ++ (if is_constraint_set (options_ (attributes col)) PRIMARY_KEY_CONSTRAINT
               then [word "PRIMARY"; word "KEY"] else [])
           ++ (if is_constraint_set (options_ (attributes col)) UNIQUE_CONSTRAINT
               then [word "UNIQUE"] else [])
      else [])
  ++ (if is_build_options_set (build_options col) with_value
      then Sym "="%char :: slot (S n) (value_lx (val col)) else []).

Fixpoint cond_vars (c : condition) : nat :=
  match c with
  | cond_scalar _ _ _ | cond_string _ _ _ => 1
  | cond_scalar_left _ _ _ | cond_string_left _ _ _ => 0
  | cond_in _ args => length args
  | cond_query _ _ q => sub_vars q
  | cond_between _ _ _ => 2
  | cond_pair l r _ => cond_vars l + cond_vars r
  | cond_not c => cond_vars c
  end.

Fixpoint cond_lx (n : nat) (c : condition) : list lexeme :=
  match c with
  | cond_scalar f op v => Ident (name f) :: const (operands op) ++ slot (S n) (scalar_lx v)
  | cond_string f op v => Ident (name f) :: const (operands op) ++ slot (S n) [Str v]
  | cond_scalar_left v op f => scalar_lx v ++ const (operands op) ++ [Ident (name f)]
  | cond_string_left v op f => Str v :: const (operands op) ++ [Ident (name f)]
  | cond_in f args =>
    Ident (name f) :: word "IN" :: bracket_open
    :: list_lx (fun n a => slot n (arg_lx a)) (fun _ => 0) (n + length args) args
    ++ [bracket_close]
  | cond_query f op q =>
    Ident (name f) :: const (operands op) ++ bracket_open :: sub n q ++ [bracket_close]
  | cond_between f a b =>
    Ident (name f) :: word "BETWEEN" :: slot (2 + n) (arg_lx a)
    ++ word "AND" :: slot (2 + n) (arg_lx b)
  | cond_pair l r op =>
    let body := cond_lx n l ++ const (operands op) ++ cond_lx (n + cond_vars l) r in
    match op with AND => bracket_open :: body ++ [bracket_close] | _ => body end
  | cond_not c => word "NOT" :: bracket_open :: cond_lx n c ++ [bracket_close]
  end.

Definition value_vars (v : option value) : nat := slot_vars.
Definition value_ptr_lx (n : nat) (v : option value) : list lexeme :=
  match v with
  | Some v => slot (S n) (value_lx v)
  | None => []
  end.

Definition token_vars (t : token) : nat :=
  match t with
  | values_tok vs => sum_vars value_vars vs
  | columns_tok cols => sum_vars cols_vars (columns_ cols)
  | column_tok col => cols_vars col
  | where_tok c => cond_vars c
  | query_tok q => sub_vars q
  | _ => 0
  end.

Definition token_lx (n : nat) (t : token) : list lexeme :=
  match t with
  | begin_tok => kw BEGIN
  | commit_tok => kw COMMIT
  | rollback_tok => kw ROLLBACK
  | create_tok s => kw CREATE_TABLE ++ [Ident s]
  | drop_tok s => kw DROP ++ [Ident s]
  | insert_tok s => kw INSERT ++ [Ident s]
  | select_tok => kw SELECT
  | distinct_tok => kw DISTINCT
  | update_tok => kw UPDATE
  | remove_tok => kw REMOVE
  | set_tok => kw SET
  | tablename_tok s => [Ident s]
  | from_tok s => kw FROM ++ match s with [] => [] | _ => [Ident s] end
  | as_tok alias => kw AS ++ const alias
  | top_tok l => kw TOP ++ top_lexemes l
  | values_tok vs =>
    kw VALUES ++ bracket_open :: list_lx value_ptr_lx value_vars n vs ++ [bracket_close]
  | columns_tok cols =>
    let body := list_lx column_lx cols_vars n (columns_ cols) in
    match with_brackets_ cols with
    | WITH_BRACKETS => bracket_open :: body ++ [bracket_close]
    | WITHOUT_BRACKETS => body
    end
  | column_tok col => column_lx n col
  | order_by_tok c => kw ORDER_BY ++ [Ident c]
  | group_by_tok c => kw GROUP_BY ++ [Ident c]
  | asc_tok => kw ASC
  | desc_tok => kw DESC
  | where_tok c => kw WHERE ++ cond_lx n c
  | query_tok q => bracket_open :: sub n q ++ [bracket_close]
  end.

Fixpoint tokens_lx (n : nat) (ts : list token) : list lexeme :=
  match ts with
  | [] => []
  | t :: ts' => token_lx n t ++ tokens_lx (n + token_vars t) ts'
  end.
End lexemes.

(** The tokens that are linked. *)
Definition compiled (ts : list token) : list token :=
  match compiler d (mk_flags false false) ts with
  | Ok (_, ts') => ts'
  | Throw _ => ts
  end.

Fixpoint stmt_vars (fuel : nat) (ct : t_compile_type) (ts : list token) : nat :=
  match fuel with
  | O => 0
  | S fuel' => sum_vars (token_vars ct (stmt_vars fuel' ct)) (compiled ts)
  end.
Fixpoint stmt_lx (fuel : nat) (ct : t_compile_type) (n : nat) (ts : list token) : list lexeme :=
  match fuel with
  | O => []
  | S fuel' => tokens_lx ct (stmt_lx fuel' ct) (stmt_vars fuel' ct) n (compiled ts)
  end.
End statements.

(** ** What a dialect promises *)
Class DialectLaws (d : dialect) (opn cls : ascii) (esc : bool) (uniform : bool) (ph_lexeme : nat -> lexeme)
  (top_lexemes : Z -> list lexeme) : Prop := {
  law_quotes : quotes_ok opn cls = true;
  law_open : token_at d START_QUOTE = Ok [opn];
  law_close : token_at d END_QUOTE = Ok [cls];
  law_string : token_at d STRING_QUOTE = Ok [QUOTE];
  law_escape : identifier_escape_type d = ESCAPE_BOTH_SAME -> opn = cls;
  law_keywords :
    forallb (fun tok => match token_at d tok with
                        | Ok k => const_ok opn cls esc k
                        | Throw _ => false
                        end) keywords = true;
  law_operands op : const_ok opn cls esc (operands op) = true;
  law_types t s : to_database_type_string d t = Ok s -> const_ok opn cls esc s = true;
  law_top k l :
    const_ok opn cls esc k = true ->
    closed opn cls esc (top_text d k l) (const opn cls esc k ++ top_lexemes l);
  law_top_placeholder l : forallb no_placeholder (top_lexemes l) = true;
  law_placeholder vars : lex opn cls esc (next_placeholder d vars) = Some [ph_lexeme (length vars)];
  law_is_placeholder n : is_placeholder (ph_lexeme n) = true;
  law_uniform n m : uniform = true -> ph_lexeme n = ph_lexeme m;
  law_compile ct fl ts :
    stmt_ok d opn cls esc uniform ct ts = true ->
    (exists fl', compiler d fl ts = Ok (fl', compiled d ts))
    /\ forallb (safe_token d opn cls esc uniform ct) (compiled d ts) = true
    /\ nest (compiled d ts) < cost ts;
}.

Lemma const_lex opn cls esc s : const_ok opn cls esc s = true -> lex opn cls esc s = Some (const opn cls esc s).
Proof. unfold const_ok, const. by destruct (lex opn cls esc s). Qed.

(** ** Quoting *)
Section quoting_laws.
Context {d : dialect} {opn cls : ascii} {esc : bool} {uniform : bool} {ph_lexeme : nat -> lexeme} {top_lexemes : Z -> list lexeme}.
Context `{!DialectLaws d opn cls esc uniform ph_lexeme top_lexemes}.

Lemma prepare_identifier_lex s :
  exists t, prepare_identifier d s = Ok t /\ lex opn cls esc t = Some [Ident s].
Proof.
  unfold prepare_identifier, escape_quotes_in_identifier, quote_identifier.
  rewrite law_open, law_close. simpl. eexists. split; [reflexivity |].
  rewrite <- (lex_ident opn cls esc law_quotes s). do 2 f_equal.
  pose proof law_escape as He. destruct (identifier_escape_type d); simpl.
  - rewrite He by done. by rewrite <- replace_all_double.
  - by rewrite <- replace_all_double.
Qed.

Lemma lex_raw_string s : QUOTE ∉ s -> unescaped esc s = true -> lex opn cls esc (lit "'" ++ s ++ lit "'") = Some [Str s].
Proof.
  intros H Ht. rewrite <- (lex_string opn cls esc law_quotes s Ht). do 2 f_equal.
  by rewrite double_clean.
Qed.

Lemma to_safe_string_lex v :
  safe_value opn cls esc v = true ->
  exists t, to_safe_string d v = Ok t /\ lex opn cls esc t = Some (value_lx opn cls esc v).
Proof.
  assert (forall s, unescaped esc s = true -> exists t, (let? t := prepare_literal d s in Ok (lit "'" ++ t ++ lit "'")) = Ok t
          /\ lex opn cls esc t = Some [Str s]) as Hs.
  { intros s Ht. unfold prepare_literal, escape_quotes_in_literals. rewrite law_string. simpl rbind.
    eexists. split; [reflexivity |]. etransitivity; [|apply (lex_string opn cls esc law_quotes s Ht)].
    by rewrite <- replace_all_double. }
  intros Hv. unfold to_safe_string, process. destruct v; simpl; eauto.
  - eexists. split; [done |]. apply lex_number, law_quotes.
  - eexists. split; [done |]. destruct b; apply lex_word; try done; apply law_quotes.
  - eexists. split; [done |]. by apply const_lex.
Qed.
End quoting_laws.

(** ** Running the linker

    [returns m n n' P]: started with [n] host variables, [m] ends with [n'],
    leaves the stack as it was and returns a value that satisfies [P].
    [prints m n n' P]: [m] appends a text that satisfies [P] to the result on
    top of the stack. *)
Section running.
Variable ct : t_compile_type.

Definition returns {A} (m : M A) (n n' : nat) (P : A -> Prop) : Prop :=
  forall st, compile_type_ st = ct -> length (host_vars_ st) = n ->
  exists a st', m st = Ok (a, st') /\ P a /\ compile_type_ st' = ct
    /\ length (host_vars_ st') = n' /\ build_info_stack_ st' = build_info_stack_ st.

Definition prints (m : M ()) (n n' : nat) (P : str -> Prop) : Prop :=
  forall st i stk, compile_type_ st = ct -> length (host_vars_ st) = n ->
  build_info_stack_ st = i :: stk ->
  exists t st', m st = Ok ((), st') /\ P t /\ compile_type_ st' = ct
    /\ length (host_vars_ st') = n'
    /\ build_info_stack_ st' = mk_info (tokens_ i) (info_result i ++ t) :: stk.

Lemma returns_ret {A} (a : A) n (P : A -> Prop) : P a -> returns (ret a) n n P.
Proof. intros H st Hc Hn. by exists a, st. Qed.

Lemma returns_lift {A} (r : result A) a n (P : A -> Prop) : r = Ok a -> P a -> returns (lift r) n n P.
Proof. intros -> H st Hc Hn. by exists a, st. Qed.

Lemma returns_bind {A B} (m : M A) (k : A -> M B) n n1 n2 P Q :
  returns m n n1 P -> (forall a, P a -> returns (k a) n1 n2 Q) -> returns (bind m k) n n2 Q.
Proof.
  intros Hm Hk st Hc Hn. destruct (Hm st Hc Hn) as (a & st1 & E & Ha & Hc1 & Hn1 & Hs1).
  destruct (Hk a Ha st1 Hc1 Hn1) as (b & st2 & E2 & Hb & Hc2 & Hn2 & Hs2).
  exists b, st2. unfold bind. rewrite E. simpl. split_and!; try done. congruence.
Qed.

Lemma returns_compile_type n : returns get_compile_type n n (eq ct).
Proof. intros st Hc Hn. exists ct, st. unfold get_compile_type. by rewrite Hc. Qed.

Lemma returns_host_var v n : returns (add_host_var v) n (S n) (fun _ => True).
Proof.
  intros st Hc Hn. eexists tt, _. split; [reflexivity |]. simpl. rewrite length_app. simpl.
  split_and!; auto. lia.
Qed.

Lemma returns_host_vars v k n : returns (add_host_vars k v) n (n + k) (fun _ => True).
Proof.
  revert n. induction k as [|k IH]; intros n; simpl.
  - rewrite Nat.add_0_r. by apply returns_ret.
  - eapply returns_bind; [apply returns_host_var |]. intros _ _.
    rewrite <- Nat.add_succ_comm. apply IH.
Qed.

Lemma prints_conseq m n n' (P Q : str -> Prop) :
  (forall t, P t -> Q t) -> prints m n n' P -> prints m n n' Q.
Proof.
  intros HPQ Hm st i stk Hc Hn Hs. destruct (Hm st i stk Hc Hn Hs) as (t & st' & ? & ? & ?). eauto 6.
Qed.

Lemma prints_append t n (P : str -> Prop) : P t -> prints (append_to_result t) n n P.
Proof.
  intros H st i stk Hc Hn Hs. unfold append_to_result. rewrite Hs. eexists t, _.
  split; [reflexivity |]. done.
Qed.

Lemma prints_quiet (m : M ()) n n' (P : str -> Prop) :
  returns m n n' (fun _ => True) -> P [] -> prints m n n' P.
Proof.
  intros Hm HP st i stk Hc Hn Hs. destruct (Hm st Hc Hn) as ([] & st' & E & _ & Hc' & Hn' & Hs').
  exists [], st'. split_and!; try done. rewrite Hs', Hs, app_nil_r. by destruct i.
Qed.

Lemma prints_bind {A} (m : M A) (k : A -> M ()) n n1 n2 P Q :
  returns m n n1 P -> (forall a, P a -> prints (k a) n1 n2 Q) -> prints (bind m k) n n2 Q.
Proof.
  intros Hm Hk st i stk Hc Hn Hs. destruct (Hm st Hc Hn) as (a & st1 & E & Ha & Hc1 & Hn1 & Hs1).
  rewrite Hs in Hs1. destruct (Hk a Ha st1 i stk Hc1 Hn1 Hs1) as (t & st2 & E2 & ?).
  exists t, st2. unfold bind. by rewrite E.
Qed.

(** Two commands one after the other; the second is proved for any text of
    the first. *)
Lemma prints_seq (m k : M ()) n n1 n2 P (Q : str -> Prop) :
  prints m n n1 P -> (forall t, P t -> prints k n1 n2 (fun t' => Q (t ++ t'))) ->
  prints (m ;! k) n n2 Q.
Proof.
  intros Hm Hk st i stk Hc Hn Hs.
  destruct (Hm st i stk Hc Hn Hs) as (t & st1 & E & Ht & Hc1 & Hn1 & Hs1).
  destruct (Hk t Ht st1 _ _ Hc1 Hn1 Hs1) as (t' & st2 & E2 & Ht' & Hc2 & Hn2 & Hs2).
  exists (t ++ t'), st2. unfold bind. rewrite E. simpl. split_and!; try done.
  rewrite Hs2. simpl. by rewrite app_assoc.
Qed.
End running.

Lemma list_lx_cons {A} (lx : nat -> A -> list lexeme) vars n a b l :
  list_lx lx vars n (a :: b :: l) = lx n a ++ comma :: list_lx lx vars (n + vars a) (b :: l).
Proof. reflexivity. Qed.

Lemma closed_eq opn cls esc s k l : closed opn cls esc s k -> k = l -> closed opn cls esc s l.
Proof. by intros H <-. Qed.

(** Read a concatenation with separators between its parts. *)
Ltac lexing :=
  lazymatch goal with
  | |- lex _ _ _ (_ ++ _ :: _) = _ => eapply lex_sep_app; [apply law_quotes | lexing | reflexivity | lexing]
  | |- lex _ _ _ (_ :: _) = _ =>
    first [apply lex_word; [apply law_quotes | done | reflexivity]
          | eapply lex_sep_cons; [apply law_quotes | reflexivity | lexing]]
  | |- closed _ _ _ (_ ++ _ :: _) _ =>
    eapply closed_sep_app; [apply law_quotes | lexing | reflexivity | lexing]
  | |- closed _ _ _ (_ :: _) _ => eapply closed_sep_cons; [apply law_quotes | reflexivity | lexing]
  | |- closed _ _ _ [] _ => apply closed_nil
  | |- lex _ _ _ [] = _ => reflexivity
  | |- lex _ _ _ (lit _) = _ => apply lex_word; [apply law_quotes | done | reflexivity]
  | |- _ => first [eassumption | by apply const_lex | apply lex_number, law_quotes]
  end.
(** The lexemes found are the lexemes expected, up to association. *)
Ltac lexed :=
  cbv beta in *;
  lazymatch goal with
  | |- lex _ _ _ _ = _ => eapply eq_trans; [lexing |]
  | |- closed _ _ _ _ _ => eapply closed_eq; [lexing |]
  end;
  simpl; rewrite <- ?app_assoc; try reflexivity.

(** A keyword is in the list. *)
Ltac by_keyword := refine (bool_decide_unpack _ _); exact I.

Section conditions.
Context {d : dialect} {opn cls : ascii} {esc : bool} {uniform : bool} {ph_lexeme : nat -> lexeme} {top_lexemes : Z -> list lexeme}.
Context `{HL : !DialectLaws d opn cls esc uniform ph_lexeme top_lexemes}.
Variable ct : t_compile_type.
Variable continue_build : list token -> M str.
Variable sub : nat -> list token -> list lexeme.
Variable sub_vars : list token -> nat.
(** Nested queries up to a depth. *)
Variable depth : nat.
Hypothesis nested : forall n q,
  cost q <= depth -> stmt_ok d opn cls esc uniform ct q = true ->
  returns ct (continue_build q) n (n + sub_vars q) (fun t => lex opn cls esc t = Some (sub n q)).

Lemma returns_identifier s n :
  returns ct (identifier d s) n n (fun t => lex opn cls esc t = Some [Ident s]).
Proof. destruct (prepare_identifier_lex (d := d) s) as (t & E & Ht). by eapply returns_lift. Qed.

Lemma returns_placeholder n :
  returns ct (placeholder d) n n (fun t => lex opn cls esc t = Some [ph_lexeme n]).
Proof.
  intros st Hc Hn. eexists _, st. split; [reflexivity |]. split_and!; try done.
  rewrite law_placeholder. by rewrite Hn.
Qed.

Lemma operand_lex op : lex opn cls esc (operands op) = Some (const opn cls esc (operands op)).
Proof. apply const_lex, law_operands. Qed.

Lemma scalar_lex v :
  safe_scalar opn cls esc v = true -> lex opn cls esc (print_scalar v) = Some (scalar_lx opn cls esc v).
Proof.
  destruct v; simpl; intros H.
  - apply lex_number, law_quotes.
  - destruct b; apply lex_word; try done; apply law_quotes.
  - by apply const_lex.
  - by apply const_lex.
Qed.

Lemma arg_lex a : safe_arg opn cls esc a = true -> lex opn cls esc (print_arg a) = Some (arg_lx opn cls esc a).
Proof. destruct a; [apply scalar_lex | done]. Qed.

(** A value or its placeholder, number [n]. *)
Lemma returns_slot (text : str) (l : list lexeme) n :
  (ct = DIRECT -> lex opn cls esc text = Some l) ->
  returns ct (match ct with DIRECT => ret text | PREPARED => placeholder d end)
    n n (fun t => lex opn cls esc t = Some (slot ph_lexeme ct n l)).
Proof.
  intros H. pose proof (returns_placeholder n) as Hp. unfold slot. destruct ct; [done |].
  apply returns_ret. auto.
Qed.

(** The two branches of a condition on the compile type. *)
Lemma returns_either (f : str -> str) (text : str) (l : list lexeme) n (Q : str -> Prop) :
  (ct = DIRECT -> lex opn cls esc text = Some l) ->
  (forall t, lex opn cls esc t = Some (slot ph_lexeme ct n l) -> Q (f t)) ->
  returns ct (match ct with
              | DIRECT => ret (f text)
              | PREPARED => let! p := placeholder d in ret (f p)
              end) n n Q.
Proof.
  intros H HQ. pose proof (returns_placeholder n) as Hp. unfold slot in HQ. destruct ct.
  - eapply returns_bind; [apply Hp |]. intros t Ht. by apply returns_ret, HQ.
  - apply returns_ret. auto.
Qed.

Lemma in_list_lex args n :
  (ct = DIRECT -> forallb (safe_arg opn cls esc) args = true) ->
  returns ct (in_list d args) n n
    (fun t => lex opn cls esc t
              = Some (list_lx (fun n a => slot ph_lexeme ct n (arg_lx opn cls esc a)) (fun _ => 0) n args)).
Proof.
  revert n. induction args as [|a args IH]; intros n H; [by apply returns_ret |].
  assert (ct = DIRECT -> safe_arg opn cls esc a = true) as Ha
    by (intros E; specialize (H E); simpl in H; by breflect).
  assert (ct = DIRECT -> forallb (safe_arg opn cls esc) args = true) as Hargs
    by (intros E; specialize (H E); simpl in H; by breflect).
  cbn [in_list]. eapply returns_bind; [apply returns_compile_type |]. intros ? <-.
  eapply returns_bind; [apply returns_slot; intros E; apply arg_lex; auto |].
  intros t Ht. destruct args as [|a' args]; [by apply returns_ret |].
  eapply returns_bind; [apply IH, Hargs |]. intros t' Ht'. apply returns_ret.
  change (lit "," ++ t') with (","%char :: t'). cbv beta in *. etransitivity; [lexing |].
  by rewrite list_lx_cons, Nat.add_0_r.
Qed.

Lemma safe_direct b b' :
  match ct with DIRECT => b | PREPARED => b' end = true -> ct = DIRECT -> b = true.
Proof. intros H E. by rewrite E in H. Qed.

(** The two bounds of a range; both placeholders have the number of the last
    host variable. *)
Lemma returns_between id f a b n :
  (ct = DIRECT -> lex opn cls esc (print_arg a) = Some (arg_lx opn cls esc a)
                  /\ lex opn cls esc (print_arg b) = Some (arg_lx opn cls esc b)) ->
  lex opn cls esc id = Some [Ident f] ->
  returns ct (match ct with
              | DIRECT => ret (id ++ lit " BETWEEN " ++ print_arg a ++ lit " AND " ++ print_arg b)
              | PREPARED =>
                let! p := placeholder d in
                let! p' := placeholder d in ret (id ++ lit " BETWEEN " ++ p ++ lit " AND " ++ p')
              end) n n
    (fun t => lex opn cls esc t
              = Some (Ident f :: word "BETWEEN" :: slot ph_lexeme ct n (arg_lx opn cls esc a)
                      ++ word "AND" :: slot ph_lexeme ct n (arg_lx opn cls esc b))).
Proof.
  intros Hab Hid.
  assert (forall p p' l l', lex opn cls esc p = Some l -> lex opn cls esc p' = Some l' ->
            lex opn cls esc (id ++ lit " BETWEEN " ++ p ++ lit " AND " ++ p')
            = Some (Ident f :: word "BETWEEN" :: l ++ word "AND" :: l')) as Ht.
  { intros p p' l l' Hp Hp'.
    change (lit " BETWEEN " ++ p ++ lit " AND " ++ p')
      with (" "%char :: lit "BETWEEN" ++ " "%char :: p ++ " "%char :: lit "AND" ++ " "%char :: p').
    lexed. }
  pose proof (returns_placeholder n) as Hph. unfold slot. destruct ct.
  - eapply returns_bind; [apply Hph |]. intros p Hp. eapply returns_bind; [apply Hph |].
    intros p' Hp'. by apply returns_ret, Ht.
  - destruct Hab as [Ha Hb]; [done |]. by apply returns_ret, Ht.
Qed.

Ltac sp := change (lit " ") with [" "%char] in *; cbn [app].

Lemma evaluate_lex c n :
  nest_cond c <= depth -> safe_cond d opn cls esc uniform ct c = true ->
  returns ct (evaluate d continue_build c) n (n + cond_vars sub_vars c)
    (fun t => lex opn cls esc t = Some (cond_lx opn cls esc ph_lexeme ct sub sub_vars n c)).
Proof.
  revert n. induction c as [f op v | f op v | v op f | v op f | f args | f op q | f a b | l IHl r IHr op | c IH];
    intros n Hd Hs; cbn [evaluate cond_vars cond_lx]; cbn [safe_cond] in Hs;
    pose proof operand_lex as Hop.
  - rewrite Nat.add_1_r. eapply returns_bind; [apply returns_host_var |]. intros _ _.
    eapply returns_bind; [apply returns_compile_type |]. intros ? <-.
    eapply returns_bind; [apply returns_identifier |]. intros id Hid.
    apply (returns_either (fun p => id ++ lit " " ++ operands op ++ lit " " ++ p) _ (scalar_lx opn cls esc v)).
    + intros E. apply scalar_lex. by eapply safe_direct.
    + intros t Ht. sp. specialize (Hop op). lexed.
  - rewrite Nat.add_1_r. eapply returns_bind; [apply returns_host_var |]. intros _ _.
    eapply returns_bind; [apply returns_compile_type |]. intros ? <-.
    eapply returns_bind; [apply returns_identifier |]. intros id Hid.
    apply (returns_either (fun p => id ++ lit " " ++ operands op ++ lit " " ++ p) (lit "'" ++ v ++ lit "'") [Str v]).
    + intros E. apply safe_direct in Hs; [| done]. breflect. by apply lex_raw_string.
    + intros t Ht. sp. specialize (Hop op). lexed.
  - rewrite Nat.add_0_r. eapply returns_bind; [apply returns_identifier |]. intros id Hid.
    apply returns_ret. apply scalar_lex in Hs. sp. specialize (Hop op). lexed.
  - rewrite Nat.add_0_r. eapply returns_bind; [apply returns_identifier |]. intros id Hid.
    apply returns_ret. apply andb_true_iff in Hs as [Hs Ht]. apply bool_decide_eq_true, lex_raw_string in Hs; [| done]. specialize (Hop op).
    change (lit "'" ++ v ++ lit "' " ++ operands op ++ lit " " ++ id)
      with (lit "'" ++ v ++ lit "'" ++ " "%char :: operands op ++ " "%char :: id).
    rewrite (app_assoc v), (app_assoc (lit "'")). lexed.
  - eapply returns_bind; [apply returns_host_vars |]. intros _ _.
    eapply returns_bind; [apply returns_identifier |]. intros id Hid.
    eapply returns_bind; [apply in_list_lex; intros E; by eapply safe_direct |]. intros t Ht. apply returns_ret.
    change (lit " IN (" ++ t ++ lit ")") with (" "%char :: lit "IN" ++ " "%char :: "("%char :: t ++ [")"%char]).
    lexed.
  - eapply returns_bind; [apply returns_identifier |]. intros id Hid.
    eapply returns_bind; [by apply nested |]. intros t Ht. apply returns_ret.
    specialize (Hop op).
    change (lit " " ++ operands op ++ lit " (" ++ t ++ lit ")")
      with (" "%char :: operands op ++ " "%char :: "("%char :: t ++ [")"%char]). lexed.
  - eapply returns_bind; [apply returns_host_var |]. intros _ _.
    eapply returns_bind; [apply returns_host_var |]. intros _ _.
    eapply returns_bind; [apply returns_compile_type |]. intros ? <-.
    eapply returns_bind; [apply returns_identifier |]. intros id Hid.
    rewrite (Nat.add_comm n 2). apply returns_between; [|done].
    intros E. apply safe_direct in Hs; [|done]. breflect. split; by apply arg_lex.
  - cbn [nest_cond] in Hd. breflect.
    eapply returns_bind; [apply IHl; [lia | done] |]. intros cl Hcl.
    eapply returns_bind; [apply IHr; [lia | done] |]. intros cr Hcr.
    rewrite <- Nat.add_assoc. apply returns_ret. specialize (Hop op).
    destruct op; sp;
      change (lit ")") with [")"%char]; change (lit "(" ++ ?x) with ("("%char :: x); lexed.
  - eapply returns_bind; [by apply IH |]. intros t Ht. apply returns_ret. specialize (Hop NOT).
    change (operands NOT ++ lit " (" ++ t ++ lit ")")
      with (lit "NOT" ++ " "%char :: "("%char :: t ++ [")"%char]). lexed.
Qed.

(** *** Tokens *)

Lemma keyword_lex tok :
  tok ∈ keywords ->
  exists k, token_at d tok = Ok k /\ const_ok opn cls esc k = true /\ kw d opn cls esc tok = const opn cls esc k.
Proof.
  intros H. pose proof law_keywords as Hk. rewrite forallb_forall in Hk.
  specialize (Hk tok ltac:(by apply list_elem_of_In)). unfold kw.
  destruct (token_at d tok) as [k|]; [|done]. eauto.
Qed.

Lemma returns_keyword tok n :
  tok ∈ keywords ->
  returns ct (token_string d tok) n n (fun t => lex opn cls esc t = Some (kw d opn cls esc tok)).
Proof.
  intros H. destruct (keyword_lex tok H) as (k & E & Hk & ->).
  eapply returns_lift; [exact E |]. by apply const_lex.
Qed.

Lemma visit_keyword_lex tok n :
  tok ∈ keywords ->
  prints ct (visit_keyword d tok) n n (fun t => closed opn cls esc t (kw d opn cls esc tok)).
Proof.
  intros H. eapply prints_bind; [by apply returns_keyword |]. intros k Hk. apply prints_append.
  change (lit " ") with [" "%char]. lexed. apply app_nil_r.
Qed.

Lemma visit_keyword_identifier_lex tok s n :
  tok ∈ keywords ->
  prints ct (visit_keyword_identifier d tok s) n n
    (fun t => closed opn cls esc t (kw d opn cls esc tok ++ [Ident s])).
Proof.
  intros H. eapply prints_bind; [by apply returns_keyword |]. intros k Hk.
  eapply prints_bind; [apply returns_identifier |]. intros id Hid. apply prints_append.
  sp. change (lit " ") with [" "%char]. lexed.
Qed.

Lemma visit_value_lex v n :
  (ct = DIRECT -> safe_value opn cls esc v = true) ->
  prints ct (visit_value d v) n (n + slot_vars ct)
    (fun t => lex opn cls esc t = Some (slot ph_lexeme ct (S n) (value_lx opn cls esc v))).
Proof.
  intros Hv. pose proof (returns_placeholder (S n)) as Hp.
  assert (exists t, to_string v = Ok t) as [text Htext] by (destruct v; eexists; reflexivity).
  eapply prints_bind; [apply returns_compile_type |]. intros ? <-. unfold slot, slot_vars.
  destruct ct.
  - rewrite Nat.add_1_r. eapply prints_bind; [by eapply (returns_lift _ _ _ _ (fun _ => True)) |].
    intros s _. eapply prints_bind; [apply returns_host_var |]. intros _ _.
    eapply prints_bind; [apply Hp |]. intros p Hph. by apply prints_append.
  - rewrite Nat.add_0_r. destruct (to_safe_string_lex (d := d) v (Hv eq_refl)) as (t & E & Ht).
    eapply prints_bind; [by eapply (returns_lift _ _ _ _ (fun t => lex opn cls esc t = Some (value_lx opn cls esc v))) |].
    intros s Hs. by apply prints_append.
Qed.

(** A list with commas. *)
Lemma visit_list_lex {A} (visit : A -> M ()) (lx : nat -> A -> list lexeme) vars l n :
  (forall a n, a ∈ l -> prints ct (visit a) n (n + vars a) (fun t => lex opn cls esc t = Some (lx n a))) ->
  prints ct (visit_list visit l) n (n + sum_vars vars l)
    (fun t => lex opn cls esc t = Some (list_lx lx vars n l)).
Proof.
  revert n. induction l as [|a l IH]; intros n H; simpl sum_vars.
  - rewrite Nat.add_0_r. apply prints_quiet; [by apply returns_ret | done].
  - destruct l as [|b l].
    + simpl. rewrite Nat.add_0_r. apply H. by left.
    + cbn [visit_list]. rewrite Nat.add_assoc. eapply prints_seq; [apply H; by left |].
      intros t Ht. eapply prints_seq; [by apply (prints_append _ _ _ (eq (lit ", "))) |]. intros ? <-.
      eapply prints_conseq; [|apply IH; intros; apply H; by right]. intros t' Ht'.
      change (lit ", " ++ t') with (","%char :: " "%char :: t'). rewrite list_lx_cons.
      cbv beta in *. etransitivity; [lexing |]. reflexivity.
Qed.

(** A text that continues any other: empty or after a separator. *)
Definition continues (l : list lexeme) (t : str) : Prop :=
  forall s k, lex opn cls esc s = Some k -> lex opn cls esc (s ++ t) = Some (k ++ l).

Lemma continues_nil : continues [] [].
Proof. intros s k H. by rewrite !app_nil_r. Qed.

Lemma continues_sep c t l :
  separator c = true -> lex opn cls esc t = Some l -> continues (sep_lexemes c ++ l) (c :: t).
Proof. intros Hc Ht s k Hs. apply lex_sep_app; [apply law_quotes | done..]. Qed.

Lemma prints_continues (m k : M ()) n n1 n2 l1 l2 :
  prints ct m n n1 (continues l1) -> prints ct k n1 n2 (continues l2) ->
  prints ct (m ;! k) n n2 (continues (l1 ++ l2)).
Proof.
  intros Hm Hk. eapply prints_seq; [done |]. intros t Ht. eapply prints_conseq; [|done].
  intros t' Ht' s j Hs. rewrite !app_assoc. by apply Ht', Ht.
Qed.

Lemma prints_optional (b : bool) (m : M ()) l n :
  prints ct m n n (continues l) ->
  prints ct (if b then m else ret ()) n n (continues (if b then l else [])).
Proof. destruct b; [done |]. intros _. apply prints_quiet; [by apply returns_ret | apply continues_nil]. Qed.

(** The optional parts of a column with its type. *)
Lemma column_type_lex col n :
  is_ok (to_database_type_string d (type col)) = true ->
  prints ct
    (let! ty := lift (to_database_type_string d (type col)) in
     append_to_result (lit " " ++ ty) ;!
     (if (0 <? size_ (attributes col))%Z
      then append_to_result (lit "(" ++ to_string_z (size_ (attributes col)) ++ lit ")")
      else ret ()) ;!
     (if is_constraint_set (options_ (attributes col)) NOT_NULL_CONSTRAINT
      then append_to_result (lit " NOT NULL") else ret ()) ;!
     (if is_constraint_set (options_ (attributes col)) PRIMARY_KEY_CONSTRAINT
      then append_to_result (lit " PRIMARY KEY") else ret ()) ;!
     (if is_constraint_set (options_ (attributes col)) UNIQUE_CONSTRAINT
      then append_to_result (lit " UNIQUE") else ret ())) n n
    (continues
       (const opn cls esc (ok_or [] (to_database_type_string d (type col)))
        ++ (if (0 <? size_ (attributes col))%Z
            then [bracket_open; Word (to_string_z (size_ (attributes col))); bracket_close] else [])
        ++ (if is_constraint_set (options_ (attributes col)) NOT_NULL_CONSTRAINT
            then [word "NOT"; word "NULL"] else [])
        ++ (if is_constraint_set (options_ (attributes col)) PRIMARY_KEY_CONSTRAINT
            then [word "PRIMARY"; word "KEY"] else [])
        ++ (if is_constraint_set (options_ (attributes col)) UNIQUE_CONSTRAINT
            then [word "UNIQUE"] else []))).
Proof.
  intros Hok. destruct (to_database_type_string d (type col)) as [ty|] eqn:E; [|done].
  eapply prints_bind; [by eapply (returns_lift _ _ _ _ (eq ty)) |]. intros ? <-. simpl ok_or.
  repeat (apply (prints_continues _ _ n n n) || apply prints_optional); apply prints_append.
  - apply (continues_sep " "%char); [done |]. apply const_lex. by eapply law_types.
  - change (lit "(" ++ ?x ++ lit ")") with ("("%char :: x ++ [")"%char]).
    apply (continues_sep "("%char); [done |]. lexed.
  - change (lit " NOT NULL") with (" "%char :: lit "NOT" ++ " "%char :: lit "NULL").
    apply (continues_sep " "%char); [done |]. lexed.
  - change (lit " PRIMARY KEY") with (" "%char :: lit "PRIMARY" ++ " "%char :: lit "KEY").
    apply (continues_sep " "%char); [done |]. lexed.
  - apply (continues_sep " "%char _ [word "UNIQUE"]); [done |]. lexed.
Qed.

Lemma visit_column_lex col n :
  safe_column d opn cls esc ct col = true ->
  prints ct (visit_column d col) n (n + cols_vars ct col)
    (fun t => lex opn cls esc t = Some (column_lx d opn cls esc ph_lexeme ct n col)).
Proof.
  intros Hs. unfold safe_column in Hs. breflect. unfold visit_column, column_lx.
  apply (prints_seq _ _ _ _ n _ (fun t => lex opn cls esc t
    = Some (if is_build_options_set (build_options col) with_quotes then [Ident (name col)]
            else const opn cls esc (name col)))).
  { destruct (is_build_options_set _ with_quotes); simpl in *.
    - eapply prints_bind; [apply returns_identifier |]. intros id Hid. by apply prints_append.
    - apply prints_append. by apply const_lex. }
  intros t Ht. eapply prints_conseq with (P := continues _); [intros t' Ht'; apply Ht', Ht |].
  rewrite <- (app_nil_r (_ ++ (if is_build_options_set _ with_value then _ else _))), <- app_assoc.
  eapply prints_continues.
  { instantiate (1 := n). destruct (is_build_options_set _ with_type); simpl in *.
    - by apply column_type_lex.
    - apply prints_quiet; [by apply returns_ret | apply continues_nil]. }
  eapply prints_continues.
  { instantiate (1 := n + cols_vars ct col). unfold cols_vars.
    destruct (is_build_options_set _ with_value); simpl in *.
    - eapply prints_seq; [by apply (prints_append _ _ _ (eq (lit "="))) |]. intros ? <-.
      eapply prints_conseq; [|apply visit_value_lex; intros E; by eapply safe_direct].
      intros t' Ht'. by apply (continues_sep "="%char).
    - rewrite Nat.add_0_r. apply prints_quiet; [by apply returns_ret | apply continues_nil]. }
  apply prints_quiet; [|apply continues_nil].
  intros st Hc Hn. eexists tt, _. split; [reflexivity |]. done.
Qed.

Lemma visit_columns_lex cols n :
  forallb (safe_column d opn cls esc ct) (columns_ cols) = true ->
  prints ct (visit_columns d cols) n (n + sum_vars (cols_vars ct) (columns_ cols))
    (fun t => closed opn cls esc t
      (let body := list_lx (column_lx d opn cls esc ph_lexeme ct) (cols_vars ct) n (columns_ cols) in
       match with_brackets_ cols with
       | WITH_BRACKETS => bracket_open :: body ++ [bracket_close]
       | WITHOUT_BRACKETS => body
       end)).
Proof.
  intros Hs. rewrite forallb_forall in Hs.
  assert (prints ct (visit_list (visit_column d) (columns_ cols)) n
            (n + sum_vars (cols_vars ct) (columns_ cols))
            (fun t => lex opn cls esc t
              = Some (list_lx (column_lx d opn cls esc ph_lexeme ct) (cols_vars ct) n (columns_ cols)))) as Hl.
  { apply visit_list_lex. intros a n' Ha. apply visit_column_lex, Hs. by apply list_elem_of_In. }
  unfold visit_columns. destruct (with_brackets_ cols).
  - eapply prints_seq; [by apply (prints_append _ _ _ (eq (lit "("))) |]. intros ? <-.
    eapply prints_seq; [exact Hl |]. intros t Ht.
    eapply prints_seq; [by apply (prints_append _ _ _ (eq (lit ")"))) |]. intros ? <-.
    apply prints_append. change (lit "(" ++ t ++ lit ")" ++ lit " ") with ("("%char :: t ++ ")"%char :: " "%char :: []).
    lexed.
  - eapply prints_bind; [by apply (returns_ret _ _ _ (fun _ => True)) |]. intros _ _.
    eapply prints_seq; [exact Hl |]. intros t Ht.
    eapply prints_bind; [by apply (returns_ret _ _ _ (fun _ => True)) |]. intros _ _.
    apply prints_append. change (lit " ") with [" "%char]. lexed. apply app_nil_r.
Qed.

Lemma visit_values_lex vs n :
  forallb (safe_value_ptr opn cls esc ct) vs = true ->
  prints ct (visit d continue_build (values_tok vs)) n (n + sum_vars (value_vars ct) vs)
    (fun t => closed opn cls esc t
      (kw d opn cls esc VALUES ++ bracket_open
       :: list_lx (value_ptr_lx opn cls esc ph_lexeme ct) (value_vars ct) n vs ++ [bracket_close])).
Proof.
  intros Hs. rewrite forallb_forall in Hs. cbn [visit].
  eapply prints_bind; [apply returns_keyword; by_keyword |]. intros k Hk.
  eapply prints_seq; [by apply (prints_append _ _ _ (eq (k ++ lit " ("))) |]. intros ? <-.
  eapply prints_seq.
  { apply (visit_list_lex _ (value_ptr_lx opn cls esc ph_lexeme ct) (value_vars ct)). intros [v|] n' Ha.
    - apply visit_value_lex. intros E. specialize (Hs (Some v) ltac:(by apply list_elem_of_In)).
      by eapply safe_direct.
    - specialize (Hs None ltac:(by apply list_elem_of_In)). done. }
  intros t Ht. apply prints_append.
  rewrite <- app_assoc.
  change (lit " (" ++ t ++ lit ") ") with (" "%char :: "("%char :: t ++ ")"%char :: " "%char :: []).
  lexed.
Qed.

Lemma visit_lex t n :
  nest_token t <= depth -> safe_token d opn cls esc uniform ct t = true ->
  prints ct (visit d continue_build t) n (n + token_vars ct sub_vars t)
    (fun s => closed opn cls esc s (token_lx d opn cls esc ph_lexeme top_lexemes ct sub sub_vars n t)).
Proof.
  intros Hd Hs. destruct t; cbn [token_vars token_lx]; cbn [safe_token] in Hs; cbn [visit];
    try (rewrite Nat.add_0_r; first [apply visit_keyword_lex | apply visit_keyword_identifier_lex]; by_keyword);
    rewrite ?Nat.add_0_r.
  - eapply prints_bind; [apply returns_identifier |]. intros id Hid. apply prints_append.
    change (lit " ") with [" "%char]. lexed.
  - destruct table_name; [|apply visit_keyword_identifier_lex; by_keyword].
    rewrite app_nil_r. apply visit_keyword_lex. by_keyword.
  - eapply prints_bind; [apply returns_keyword; by_keyword |]. intros k Hk. apply prints_append.
    change (lit " ") with [" "%char]. sp. lexed. by rewrite app_nil_r.
  - destruct (keyword_lex TOP) as (k & E & Hk & ->); [by_keyword |].
    eapply prints_bind; [by eapply (returns_lift _ _ _ _ (eq k)) |]. intros ? <-.
    apply prints_append. by apply law_top.
  - by apply visit_values_lex.
  - by apply visit_columns_lex.
  - done.
  - eapply prints_seq; [apply visit_keyword_lex; by_keyword |]. intros s Hk.
    eapply prints_bind; [by apply evaluate_lex |]. intros c Hc.
    eapply prints_seq; [by apply (prints_append _ _ _ (eq c)) |]. intros ? <-.
    apply prints_append. apply closed_app; [done |]. change (lit " ") with [" "%char]. lexed.
    apply app_nil_r.
  - eapply prints_seq; [by apply (prints_append _ _ _ (eq (lit "("))) |]. intros ? <-.
    eapply prints_bind; [by apply nested |]. intros c Hc.
    eapply prints_seq; [by apply (prints_append _ _ _ (eq c)) |]. intros ? <-.
    apply prints_append.
    change (lit "(" ++ c ++ lit ") ") with ("("%char :: c ++ ")"%char :: " "%char :: []). lexed.
Qed.

Lemma link_lex ts n :
  nest ts <= depth -> forallb (safe_token d opn cls esc uniform ct) ts = true ->
  prints ct (link d continue_build ts) n (n + sum_vars (token_vars ct sub_vars) ts)
    (fun s => closed opn cls esc s (tokens_lx d opn cls esc ph_lexeme top_lexemes ct sub sub_vars n ts)).
Proof.
  revert n. induction ts as [|t ts IH]; intros n Hd Hs; simpl in *.
  - rewrite Nat.add_0_r. apply prints_quiet; [by apply returns_ret | done].
  - breflect. rewrite Nat.add_assoc. eapply prints_seq; [apply visit_lex; [lia | done] |].
    intros s Hsx. eapply prints_conseq; [|apply IH; [lia | done]]. intros s' Hs'.
    by apply closed_app.
Qed.
End conditions.

(** ** The theorem on built statements *)
Section building.
Context {d : dialect} {opn cls : ascii} {esc : bool} {uniform : bool} {ph_lexeme : nat -> lexeme} {top_lexemes : Z -> list lexeme}.
Context `{HL : !DialectLaws d opn cls esc uniform ph_lexeme top_lexemes}.
Variable ct : t_compile_type.

Lemma continue_build_lex fuel ts n :
  cost ts <= fuel -> stmt_ok d opn cls esc uniform ct ts = true ->
  returns ct (continue_build d fuel ts) n (n + stmt_vars d fuel ct ts)
    (fun t => lex opn cls esc t = Some (stmt_lx d opn cls esc ph_lexeme top_lexemes fuel ct n ts)).
Proof.
  revert ts n. induction fuel as [|fuel IH]; intros ts n Hf Hs; [unfold cost in Hf; lia |].
  cbn [continue_build stmt_vars stmt_lx]. intros st Hc Hn.
  destruct (law_compile (d := d) ct (flags st) ts Hs) as ((fl' & E) & Hsafe & Hnest).
  unfold bind at 1. unfold push. simpl rbind. cbn beta iota.
  unfold bind at 1. unfold compile. simpl build_info_stack_. cbn beta iota. simpl flags. simpl tokens_.
  rewrite E. simpl rbind. cbn beta iota.
  unfold bind at 1. unfold top at 1. simpl build_info_stack_. cbn beta iota. simpl rbind. cbn beta iota.
  set (st1 := mk_dstate _ _ _ _ _).
  destruct (link_lex ct (continue_build d fuel) (stmt_lx d opn cls esc ph_lexeme top_lexemes fuel ct)
              (stmt_vars d fuel ct) fuel ltac:(intros; by apply IH) (compiled d ts) n ltac:(lia) Hsafe
              st1 (mk_info (compiled d ts) []) (build_info_stack_ st) Hc Hn eq_refl)
    as (t & st2 & E2 & Ht & Hc2 & Hn2 & Hs2).
  unfold bind at 1. simpl tokens_. rewrite E2. simpl rbind. cbn beta iota.
  unfold bind at 1, top. rewrite Hs2. simpl rbind. cbn beta iota.
  unfold bind, pop. rewrite Hs2. simpl.
  eexists t, _. split; [reflexivity |]. split_and!; try done. by apply closed_lex.
Qed.
End building.

(** ** Placeholders and host variables *)
Section placeholders.
Context {d : dialect} {opn cls : ascii} {esc : bool} {uniform : bool} {ph_lexeme : nat -> lexeme} {top_lexemes : Z -> list lexeme}.
Context `{HL : !DialectLaws d opn cls esc uniform ph_lexeme top_lexemes}.
Variable ct : t_compile_type.

Definition placeholders (l : list lexeme) : list lexeme := List.filter is_placeholder l.

(** The placeholders of [k] host variables behind [n] others. *)
Definition numbered (n k : nat) : list lexeme :=
  match ct with
  | PREPARED => ph_lexeme <$> seq (S n) k
  | DIRECT => []
  end.

Lemma numbered_app n a b : numbered n (a + b) = numbered n a ++ numbered (n + a) b.
Proof. unfold numbered. destruct ct; [|done]. by rewrite seq_app, fmap_app. Qed.

Lemma numbered_0 n : numbered n 0 = [].
Proof. unfold numbered. by destruct ct. Qed.

Lemma placeholders_app k l : placeholders (k ++ l) = placeholders k ++ placeholders l.
Proof. apply List.filter_app. Qed.

Lemma placeholders_skip x l : is_placeholder x = false -> placeholders (x :: l) = placeholders l.
Proof. intros H. simpl. by rewrite H. Qed.

Lemma placeholders_none l : forallb no_placeholder l = true -> placeholders l = [].
Proof.
  induction l as [|x l IH]; simpl; [done |]. intros H. breflect. rewrite H. auto.
Qed.

Lemma placeholders_const s : const_ok opn cls esc s = true -> placeholders (const opn cls esc s) = [].
Proof.
  unfold const_ok, const. destruct (lex opn cls esc s); [|done]. apply placeholders_none.
Qed.

Lemma placeholders_kw tok : tok ∈ keywords -> placeholders (kw d opn cls esc tok) = [].
Proof.
  intros H. destruct (keyword_lex (d := d) tok H) as (k & _ & Hk & ->). by apply placeholders_const.
Qed.

Lemma placeholders_number z l : placeholders (Word (to_string_z z) :: l) = placeholders l.
Proof.
  assert (exists c s, to_string_z z = c :: s /\ c <> "$"%char) as (c & s & -> & Hc).
  { unfold to_string_z. destruct (z <? 0)%Z eqn:E; [by eexists _, _ |]. breflect.
    destruct (to_string_u_nonempty z E) as (c & s & -> & Hc). exists c, s. split; [done |].
    intros ->. done. }
  simpl. by rewrite bool_decide_eq_false_2.
Qed.

Lemma placeholders_scalar v :
  safe_scalar opn cls esc v = true -> placeholders (scalar_lx opn cls esc v) = [].
Proof.
  destruct v as [z|b|c|text]; simpl; intros H.
  - apply (placeholders_number z []).
  - by destruct b.
  - by apply placeholders_const.
  - by apply placeholders_const.
Qed.

Lemma placeholders_arg a : safe_arg opn cls esc a = true -> placeholders (arg_lx opn cls esc a) = [].
Proof. destruct a; [apply placeholders_scalar | done]. Qed.

Lemma placeholders_value v :
  safe_value opn cls esc v = true -> placeholders (value_lx opn cls esc v) = [].
Proof.
  destruct v as [|z|b|text| | | |]; simpl; intros H; try done.
  - apply (placeholders_number z []).
  - by destruct b.
  - by apply placeholders_const.
Qed.

Lemma placeholders_slot n l :
  (ct = DIRECT -> placeholders l = []) -> placeholders (slot ph_lexeme ct (S n) l) = numbered n 1.
Proof.
  intros H. unfold slot, numbered. destruct ct; [|auto]. simpl. by rewrite law_is_placeholder.
Qed.

Lemma placeholders_list {A} (lx : nat -> A -> list lexeme) vars l n :
  (forall a n, a ∈ l -> placeholders (lx n a) = numbered n (vars a)) ->
  placeholders (list_lx lx vars n l) = numbered n (sum_vars vars l).
Proof.
  revert n. induction l as [|a l IH]; intros n H; simpl sum_vars; [by rewrite numbered_0 |].
  destruct l as [|b l].
  - simpl. rewrite Nat.add_0_r. apply H. by left.
  - rewrite list_lx_cons, placeholders_app, numbered_app. rewrite H by (by left). f_equal.
    simpl placeholders. apply IH. intros. apply H. by right.
Qed.

Lemma placeholders_repeat args m :
  placeholders (list_lx (fun n a => slot ph_lexeme PREPARED n (arg_lx opn cls esc a)) (fun _ => 0) m args)
  = replicate (length args) (ph_lexeme m).
Proof.
  induction args as [|a args IH]; [done |]. destruct args as [|b args].
  - simpl. by rewrite law_is_placeholder.
  - rewrite list_lx_cons, placeholders_app, Nat.add_0_r.
    cbn [length]. rewrite replicate_S. simpl placeholders at 1. rewrite law_is_placeholder.
    simpl. f_equal. exact IH.
Qed.

Lemma replicate_seq n m k :
  (forall i j, ph_lexeme i = ph_lexeme j) -> replicate k (ph_lexeme m) = ph_lexeme <$> seq n k.
Proof.
  intros H. revert n. induction k as [|k IH]; intros n; [done |].
  change (ph_lexeme m :: replicate k (ph_lexeme m) = ph_lexeme n :: (ph_lexeme <$> seq (S n) k)).
  rewrite <- (IH (S n)). f_equal. apply H.
Qed.

Lemma placeholders_in args n :
  match ct with
  | DIRECT => forallb (safe_arg opn cls esc) args
  | PREPARED => uniform || (length args <=? 1)
  end = true ->
  placeholders (list_lx (fun n a => slot ph_lexeme ct n (arg_lx opn cls esc a)) (fun _ => 0)
                        (n + length args) args) = numbered n (length args).
Proof.
  intros H. unfold numbered. destruct ct.
  - rewrite placeholders_repeat. apply orb_true_iff in H as [H | H].
    + apply replicate_seq. intros. by apply law_uniform.
    + breflect. destruct args as [|a [|b args]]; [done | | simpl in H; lia].
      simpl. by rewrite Nat.add_1_r.
  - rewrite forallb_forall in H. generalize (n + length args). intros m.
    induction args as [|a args IH]; [done |]. 
    assert (placeholders (arg_lx opn cls esc a) = []) as Ha by (apply placeholders_arg, H; by left).
    destruct args as [|b args]; [done |].
    rewrite list_lx_cons, placeholders_app. unfold slot at 1. rewrite Ha, Nat.add_0_r.
    apply IH. intros. apply H. by right.
Qed.

Section nested_placeholders.
Variable sub : nat -> list token -> list lexeme.
Variable sub_vars : list token -> nat.
Variable depth : nat.
Hypothesis nested : forall n q,
  cost q <= depth -> stmt_ok d opn cls esc uniform ct q = true ->
  placeholders (sub n q) = numbered n (sub_vars q).

Lemma placeholders_operand op l : placeholders (const opn cls esc (operands op) ++ l) = placeholders l.
Proof. by rewrite placeholders_app, placeholders_const by apply law_operands. Qed.

Lemma placeholders_cond c n :
  nest_cond c <= depth -> safe_cond d opn cls esc uniform ct c = true ->
  placeholders (cond_lx opn cls esc ph_lexeme ct sub sub_vars n c) = numbered n (cond_vars sub_vars c).
Proof.
  revert n. induction c as [f op v | f op v | v op f | v op f | f args | f op q | f a b | l IHl r IHr op | c IH];
    intros n Hd Hs; cbn [cond_vars cond_lx]; cbn [safe_cond nest_cond] in Hs, Hd.
  - rewrite placeholders_skip by done. rewrite placeholders_operand. apply placeholders_slot.
    intros E. apply placeholders_scalar. by eapply safe_direct.
  - rewrite placeholders_skip by done. rewrite placeholders_operand. by apply placeholders_slot.
  - rewrite placeholders_app, placeholders_operand, placeholders_scalar by done. by rewrite numbered_0.
  - rewrite placeholders_skip by done. rewrite placeholders_operand. by rewrite numbered_0.
  - rewrite !placeholders_skip by done. rewrite placeholders_app, (placeholders_in args n Hs).
    apply app_nil_r.
  - rewrite placeholders_skip by done. rewrite placeholders_operand, placeholders_skip by done.
    rewrite placeholders_app. rewrite nested by done. apply app_nil_r.
  - rewrite !placeholders_skip by done. rewrite placeholders_app, placeholders_skip by done.
    unfold numbered, slot. destruct ct.
    + simpl. rewrite !law_is_placeholder. by rewrite (law_uniform (S (S n)) (S n)).
    + breflect. by rewrite !placeholders_arg.
  - breflect. rewrite numbered_app, <- IHl, <- IHr by (done || lia).
    pose proof (fun op => placeholders_const _ (law_operands (d := d) op)) as Hop.
    destruct op; cbn zeta; rewrite ?placeholders_skip by done; rewrite !placeholders_app, Hop;
      simpl; by rewrite ?app_nil_r.
  - rewrite !placeholders_skip by done. rewrite placeholders_app, IH by done. apply app_nil_r.
Qed.

Lemma placeholders_column col n :
  safe_column d opn cls esc ct col = true ->
  placeholders (column_lx d opn cls esc ph_lexeme ct n col) = numbered n (cols_vars ct col).
Proof.
  intros Hs. unfold safe_column in Hs. breflect. unfold column_lx, cols_vars, slot_vars.
  rewrite placeholders_app.
  assert (placeholders (if is_build_options_set (build_options col) with_quotes then [Ident (name col)]
                        else const opn cls esc (name col)) = []) as ->.
  { destruct (is_build_options_set _ with_quotes); [done |]. by apply placeholders_const. }
  rewrite placeholders_app. simpl app.
  replace (placeholders _) with (@nil lexeme) at 1.
  2:{ symmetry. destruct (is_build_options_set _ with_type); [|done]. simpl in *.
      rewrite !placeholders_app.
      destruct (to_database_type_string d (type col)) as [ty|] eqn:E; [|done]. simpl ok_or.
      rewrite placeholders_const by (by eapply law_types).
      repeat case_match; try done; rewrite ?placeholders_skip, ?placeholders_number by done; done. }
  destruct (is_build_options_set _ with_value); simpl in *; [|by rewrite numbered_0].
  rewrite placeholders_slot.
  - unfold numbered. by destruct ct.
  - intros E. apply placeholders_value. by eapply safe_direct.
Qed.

Lemma placeholders_token t n :
  nest_token t <= depth -> safe_token d opn cls esc uniform ct t = true ->
  placeholders (token_lx d opn cls esc ph_lexeme top_lexemes ct sub sub_vars n t)
  = numbered n (token_vars ct sub_vars t).
Proof.
  intros Hd Hs. destruct t; cbn [token_vars token_lx]; cbn [safe_token] in Hs;
    rewrite ?placeholders_app, ?placeholders_kw by by_keyword; rewrite ?numbered_0; try done.
  - by destruct table_name.
  - by apply placeholders_const.
  - apply placeholders_none, law_top_placeholder.
  - rewrite forallb_forall in Hs. rewrite app_nil_l. rewrite placeholders_skip by done.
    rewrite placeholders_app, app_nil_r. apply placeholders_list. intros [v|] m Hv.
    + simpl. unfold value_vars, slot_vars. rewrite placeholders_slot.
      * unfold numbered. by destruct ct.
      * intros E. specialize (Hs (Some v) ltac:(by apply list_elem_of_In)).
        apply placeholders_value. by eapply safe_direct.
    + specialize (Hs None ltac:(by apply list_elem_of_In)). done.
  - rewrite forallb_forall in Hs. cbn zeta.
    assert (placeholders (list_lx (column_lx d opn cls esc ph_lexeme ct) (cols_vars ct) n (columns_ cols))
            = numbered n (sum_vars (cols_vars ct) (columns_ cols))) as Hc.
    { apply placeholders_list. intros a m Ha. apply placeholders_column, Hs. by apply list_elem_of_In. }
    destruct (with_brackets_ cols); [|done]. rewrite placeholders_skip by done.
    by rewrite placeholders_app, Hc, app_nil_r.
  - rewrite app_nil_l. by apply placeholders_cond.
  - rewrite placeholders_skip by done. rewrite placeholders_app, nested by done. apply app_nil_r.
Qed.

Lemma placeholders_tokens ts n :
  nest ts <= depth -> forallb (safe_token d opn cls esc uniform ct) ts = true ->
  placeholders (tokens_lx d opn cls esc ph_lexeme top_lexemes ct sub sub_vars n ts)
  = numbered n (sum_vars (token_vars ct sub_vars) ts).
Proof.
  revert n. induction ts as [|t ts IH]; intros n Hd Hs; simpl in *; [by rewrite numbered_0 |].
  breflect. rewrite placeholders_app, numbered_app, placeholders_token, IH by (done || lia). done.
Qed.
End nested_placeholders.

Lemma placeholders_stmt fuel ts n :
  cost ts <= fuel -> stmt_ok d opn cls esc uniform ct ts = true ->
  placeholders (stmt_lx d opn cls esc ph_lexeme top_lexemes fuel ct n ts)
  = numbered n (stmt_vars d fuel ct ts).
Proof.
  revert ts n. induction fuel as [|fuel IH]; intros ts n Hf Hs; [unfold cost in Hf; lia |].
  destruct (law_compile (d := d) ct (mk_flags false false) ts Hs) as (_ & Hsafe & Hnest).
  cbn [stmt_lx stmt_vars]. apply (placeholders_tokens _ _ fuel); [by intros; apply IH | lia | done].
Qed.
End placeholders.
