(* ===== verification/SqlSafety.v ===== *)
(** * The dialects keep their promise

    Instances of [Statements.DialectLaws] for MySQL, SQLite, PostgreSQL and
    SQL Server, and the theorems on the statements they build. *)

From S2P Require Import Prelude Sql Dialect SqlLexer Dialects Statements.
Local Open Scope cxx_scope.

(** ** The compilers *)

Lemma nest_app l k : nest (l ++ k) = Nat.max (nest l) (nest k).
Proof. induction l as [|t l IH]; simpl; [done |]. rewrite IH. lia. Qed.

Lemma nest_elem t l : t ∈ l -> nest_token t <= nest l.
Proof. induction 1; simpl; lia. Qed.

Lemma nest_perm l k : l ≡ₚ k -> nest l = nest k.
Proof. induction 1; simpl; lia. Qed.

Lemma forallb_perm {A} (f : A -> bool) l k : l ≡ₚ k -> forallb f l = forallb f k.
Proof.
  induction 1 as [| | x y l | ]; simpl; [done | congruence | | congruence].
  by rewrite !andb_assoc, (andb_comm (f x)).
Qed.

Lemma stmt_ok_safe d opn cls esc u ct ts :
  stmt_ok d opn cls esc u ct ts = true -> forallb (safe_token d opn cls esc u ct) ts = true.
Proof. unfold stmt_ok. intros H. by breflect. Qed.

Lemma insert_behind_perm p t l : insert_behind p t l ≡ₚ t :: l.
Proof.
  unfold insert_behind. rewrite <- Permutation_middle. by rewrite take_drop.
Qed.

Lemma mssql_loop_perm todo cmds done : mssql_loop cmds done todo ≡ₚ done ++ todo.
Proof.
  revert cmds done. induction todo as [|t todo IH]; intros cmds done; simpl; [by rewrite app_nil_r |].
  repeat case_match; rewrite IH, <- ?app_assoc; simpl; try done.
  rewrite insert_behind_perm. simpl. apply Permutation_middle.
Qed.

Lemma alter_split {A} (f : A -> A) l i x :
  l !! i = Some x -> alter f i l = take i l ++ f x :: List.skipn (S i) l.
Proof.
  revert i. induction l as [|y l IH]; intros [|i] H; simplify_eq/=; [done |]. f_equal. by apply IH.
Qed.

Section limit_compiler.
Variables (n : str) (op : t_operand).
Abbreviation rowid := (column_of_name n).

(** Without a command or with a SELECT nothing changes. *)
Lemma limit_loop_keeps st done todo :
  (is_update (lm_flags st) || is_delete (lm_flags st) = false
   \/ forallb (fun t => negb (is_top t)) todo = true) ->
  forallb (fun t => negb (is_command t)) todo = true ->
  limit_loop rowid op st done todo = Ok (lm_flags st, done ++ todo).
Proof.
  revert st done. induction todo as [|t todo IH]; intros st done Ht Hc; simpl in *.
  - by rewrite app_nil_r.
  - breflect.
    assert (is_update (lm_flags st) || is_delete (lm_flags st) = false
            \/ is_top t = false /\ forallb (fun t => negb (is_top t)) todo = true) as Hcase
      by (destruct Ht; [by left | right; by breflect]).
    assert (forall st', lm_flags st' = lm_flags st ->
              limit_loop rowid op st' (done ++ [t]) todo = Ok (lm_flags st, done ++ t :: todo)) as Hk.
    { intros st' E. rewrite IH; [by rewrite E, <- app_assoc | rewrite E; tauto | done]. }
    destruct t; try done; try (by apply Hk).
    + destruct Hcase as [-> | [? _]]; [by apply Hk | done].
    + destruct (is_update (lm_flags st) || is_delete (lm_flags st)); by apply Hk.
Qed.

Context {d : dialect} {opn cls : ascii} {esc : bool} {u : bool} {ct : t_compile_type}.
Abbreviation safe := (safe_token d opn cls esc u ct).

Lemma limited_select_tokens table c k :
  limited_select rowid table c k
  = Ok [select_tok; columns_tok (mk_columns [rowid] WITHOUT_BRACKETS); from_tok table; where_tok c; top_tok k].
Proof. reflexivity. Qed.

(** The rewritten condition. *)
Lemma rewrite_limit_ok st k done i c :
  where_pos st = Some i -> done !! i = Some (where_tok c) -> forallb safe done = true ->
  exists done' c', rewrite_limit rowid op st k done = Ok done'
    /\ done' !! i = Some (where_tok c')
    /\ forallb safe done' = true /\ nest done' <= S (nest done).
Proof.
  intros Hp Hi Hs. unfold rewrite_limit. rewrite Hp, Hi. simpl mbind. cbn iota beta.
  rewrite limited_select_tokens. simpl rbind.
  set (c' := cond_query _ _ _).
  assert (safe (where_tok c) = true) as Hc.
  { rewrite forallb_forall in Hs. apply Hs, list_elem_of_In. by eapply list_elem_of_lookup_2. }
  assert (safe (where_tok c') = true) as Hc'.
  { change (stmt_ok d opn cls esc u ct
      [select_tok; columns_tok (mk_columns [rowid] WITHOUT_BRACKETS); from_tok (lm_table st);
       where_tok c; top_tok k] = true).
    unfold stmt_ok. cbn [commands_ok forallb]. by rewrite Hc. }
  assert (nest_token (where_tok c') <= S (nest done)) as Hn.
  { apply list_elem_of_lookup_2, nest_elem in Hi. unfold c'. cbn [nest_token] in *.
    rewrite nest_cond_query. unfold cost. simpl. lia. }
  exists (alter (set_where_cond c') i done), c'. split; [done |].
  rewrite list_lookup_alter_eq, Hi. split; [done |].
  rewrite (alter_split _ _ _ _ Hi). apply take_drop_middle in Hi as Hsplit. simpl set_where_cond.
  rewrite <- Hsplit in Hs. rewrite forallb_app in Hs. simpl in Hs. breflect. split.
  - rewrite forallb_app. cbn [forallb]. by rewrite H, Hc', H1.
  - pose proof (f_equal nest Hsplit) as Hmax. rewrite nest_app in Hmax |- *. cbn [nest] in Hmax |- *.
    lia.
Qed.

(** A limited UPDATE or DELETE. *)
Lemma limit_loop_rewrites seen todo st done :
  is_update (lm_flags st) || is_delete (lm_flags st) = true ->
  forallb (fun t => negb (is_command t)) todo = true -> limits_ok seen todo = true ->
  (seen = true -> exists i c, where_pos st = Some i /\ done !! i = Some (where_tok c)) ->
  forallb safe done = true -> forallb safe todo = true ->
  exists ts, limit_loop rowid op st done todo = Ok (lm_flags st, ts)
    /\ forallb safe ts = true /\ nest ts <= ntops todo + Nat.max (nest done) (nest todo).
Proof.
  revert seen st done. induction todo as [|t todo IH]; intros seen st done Hf Hc Hl Hw Hd Ht.
  { exists done. simpl. split_and!; [done | done | lia]. }
  cbn [forallb] in Hc, Ht. breflect.
  assert (forall seen' st', lm_flags st' = lm_flags st ->
            (is_top t = false) -> limits_ok seen' todo = true ->
            (seen' = true -> exists i c, where_pos st' = Some i /\ (done ++ [t]) !! i = Some (where_tok c)) ->
            exists ts, limit_loop rowid op st' (done ++ [t]) todo = Ok (lm_flags st, ts)
              /\ forallb safe ts = true
              /\ nest ts <= ntops (t :: todo) + Nat.max (nest done) (nest (t :: todo))) as Hk.
  { intros seen' st' E Htop Hl' Hw'. rewrite <- E.
    destruct (IH seen' st' (done ++ [t])) as (ts & E1 & Hs1 & Hn1); try done.
    - by rewrite E.
    - rewrite forallb_app, Hd. cbn [forallb]. by rewrite H.
    - exists ts. split_and!; try done. unfold ntops in *. simpl. rewrite Htop.
      rewrite nest_app in Hn1. simpl in Hn1. lia. }
  assert (seen = true -> exists i c, where_pos st = Some i /\ (done ++ [t]) !! i = Some (where_tok c)) as Hw'.
  { intros E. destruct (Hw E) as (i & c & Hi & Hlk). exists i, c. split; [done |].
    apply lookup_app_l_Some, Hlk. }
  destruct t; try done; try (by eapply (Hk seen)).
  - cbn [limits_ok] in Hl. breflect. subst seen. cbn [limit_loop]. rewrite Hf.
    destruct (Hw eq_refl) as (i & c & Hi & Hlk).
    destruct (rewrite_limit_ok st limit_ done i c Hi Hlk Hd) as (done' & c' & -> & Hlk' & Hd' & Hn').
    simpl rbind. destruct (IH true st done') as (ts & E1 & Hs1 & Hn1); try done.
    { intros _. by exists i, c'. }
    exists ts. split_and!; try done. unfold ntops in *. simpl. lia.
  - cbn [limit_loop]. rewrite Hf. apply (Hk true); [done | done | done |].
    intros _. exists (length done), cond. split; [done |]. by rewrite list_lookup_middle.
Qed.

Lemma limit_compile_ok fl ts :
  stmt_ok d opn cls esc u ct ts = true ->
  exists fl' ts', limit_compile rowid op fl ts = Ok (fl', ts')
    /\ (exists fl0, limit_compile rowid op (mk_flags false false) ts = Ok (fl0, ts'))
    /\ forallb safe ts' = true /\ nest ts' < cost ts.
Proof.
  intros Hs. pose proof (stmt_ok_safe _ _ _ _ _ _ _ Hs) as Hsafe.
  unfold stmt_ok in Hs. breflect. unfold limit_compile, cost.
  assert (forall fl, forallb (fun t => negb (is_command t) && negb (is_top t)) ts = true ->
            limit_loop rowid op (mk_limit_state fl [] None) [] ts = Ok (fl, ts)) as Hplain.
  { intros fl0 Hp. apply (limit_loop_keeps (mk_limit_state fl0 [] None) []).
    - right. rewrite forallb_forall in *. intros t Ht. specialize (Hp t Ht). by destruct (is_command t), (is_top t).
    - rewrite forallb_forall in *. intros t Ht. specialize (Hp t Ht). by destruct (is_command t), (is_top t). }
  destruct ts as [|t ts]; [by eexists _, _; split_and!; eauto; simpl; lia |].
  assert (forall st, forallb safe [t] = true -> st = mk_limit_state (mk_flags true false) [] None
                     \/ st = mk_limit_state (mk_flags false true) [] None ->
            forallb (fun t => negb (is_command t)) ts && limits_ok false ts = true ->
            exists ts', limit_loop rowid op st [t] ts = Ok (lm_flags st, ts')
              /\ forallb safe ts' = true /\ nest ts' <= ntops ts + Nat.max (nest [t]) (nest ts)) as Hrw.
  { intros st Ht Hst Hok. breflect. eapply (limit_loop_rewrites false); try done.
    - by destruct Hst as [-> | ->].
    - cbn [forallb] in Hsafe. by breflect. }
  destruct t; try (rewrite !Hplain by done; eexists _, _; split_and!; eauto; simpl; lia);
    cbn [commands_ok] in H; cbn [limit_loop lm_table where_pos app].
  - rewrite !(limit_loop_keeps (mk_limit_state (mk_flags false false) [] None)) by auto.
    eexists _, _. split_and!; eauto; simpl; lia.
  - destruct (Hrw (mk_limit_state (mk_flags true false) [] None)) as (ts' & -> & ? & Hn); auto.
    eexists _, _. split_and!; eauto; simpl in *; lia.
  - destruct (Hrw (mk_limit_state (mk_flags false true) [] None)) as (ts' & -> & ? & Hn); auto.
    eexists _, _. split_and!; eauto; simpl in *; lia.
Qed.
End limit_compiler.

(** ** The backends *)

Inductive backend :=
| MySQL (version : Z)
| SQLite
| PostgreSQL
| MSSQL.

Definition dialect_of (b : backend) : dialect :=
  match b with
  | MySQL v => mysql_dialect v
  | SQLite => sqlite_dialect
  | PostgreSQL => postgresql_dialect
  | MSSQL => mssql_dialect
  end.
(** The quotes of identifiers. *)
Definition open_quote (b : backend) : ascii :=
  match b with MySQL _ => "`"%char | SQLite | PostgreSQL => DQUOTE | MSSQL => "["%char end.
Definition close_quote (b : backend) : ascii :=
  match b with MySQL _ => "`"%char | SQLite | PostgreSQL => DQUOTE | MSSQL => "]"%char end.
(** MySQL reads escapes in strings. *)
Definition escapes (b : backend) : bool := match b with MySQL _ => true | _ => false end.
(** PostgreSQL numbers its placeholders. *)
Definition same_placeholders (b : backend) : bool :=
  match b with PostgreSQL => false | _ => true end.
Definition placeholder_of (b : backend) (n : nat) : lexeme :=
  match b with
  | PostgreSQL => Word (lit "$" ++ to_string_u (Z.of_nat n))
  | _ => Sym "?"%char
  end.
Definition limit_of (b : backend) (l : Z) : list lexeme :=
  match b with
  | MSSQL => [bracket_open; Word (to_string_z l); bracket_close]
  | _ => [Word (to_string_z l)]
  end.

Lemma backend_quotes b : quotes_ok (open_quote b) (close_quote b) = true.
Proof. by destruct b. Qed.

Lemma basic_top_lex opn cls esc k l :
  quotes_ok opn cls = true -> const_ok opn cls esc k = true ->
  closed opn cls esc (basic_top_text k l) (const opn cls esc k ++ [Word (to_string_z l)]).
Proof.
  intros Hq Hk. apply const_lex in Hk. unfold basic_top_text.
  eapply closed_eq; [|reflexivity].
  apply (closed_sep_app opn cls esc Hq k _ " "%char _ [Word (to_string_z l)]); [done | done |].
  apply (closed_sep_app opn cls esc Hq _ [Word (to_string_z l)] " "%char [] []); [by apply lex_number | done | done].
Qed.

Lemma placeholder_of_lex b n :
  lex (open_quote b) (close_quote b) (escapes b)
    (next_placeholder (dialect_of b) n) = Some [placeholder_of b (length n)].
Proof.
  destruct b; try reflexivity. apply lex_word; [done | done |].
  apply forallb_forall. intros c [<- | Hc]; [done |].
  pose proof (to_string_u_digits (Z.of_nat (length n)) ltac:(lia)) as Hd.
  rewrite List.Forall_forall in Hd. unfold word_char, isalnum. by rewrite (Hd c Hc), orb_true_r.
Qed.

Lemma number_not_placeholder z : is_placeholder (Word (to_string_z z)) = false.
Proof.
  destruct (is_placeholder (Word (to_string_z z))) eqn:E; [|done].
  pose proof (placeholders_number z []) as H. simpl in H, E. by rewrite E in H.
Qed.

#[export] Instance backend_laws b :
  DialectLaws (dialect_of b) (open_quote b) (close_quote b) (escapes b) (same_placeholders b)
              (placeholder_of b) (limit_of b).
Proof.
  split.
  - apply backend_quotes.
  - by destruct b.
  - by destruct b.
  - by destruct b.
  - by destruct b.
  - by destruct b.
  - intros op. by destruct b, op.
  - intros t s. destruct b, t; simpl; try done; intros [= <-]; try done.
    by destruct (version <? 50604)%Z.
  - intros k l Hk. destruct b; try by apply basic_top_lex.
    apply const_lex in Hk. change (top_text (dialect_of MSSQL) k l)
      with (k ++ " "%char :: "("%char :: to_string_z l ++ ")"%char :: " "%char :: []).
    pose proof (lex_number "["%char "]"%char false eq_refl l) as Hl.
    eapply closed_eq; [eapply closed_sep_app; [done | exact Hk | done |] |].
    { eapply closed_sep_cons; [done | done |]. eapply closed_sep_app; [done | exact Hl | done |].
      eapply closed_sep_cons; [done | done |]. apply closed_nil. }
    reflexivity.
  - intros l. destruct b; cbn [limit_of forallb]; by rewrite number_not_placeholder.
  - apply placeholder_of_lex.
  - by destruct b.
  - by destruct b.
  - intros ct fl ts Hs. destruct b.
    + split_and!; [by eexists | by apply stmt_ok_safe |]. unfold cost. simpl. unfold compiled. simpl. lia.
    + destruct (limit_compile_ok (lit "rowid") IN_LIST fl ts Hs) as (fl' & ts' & E & (fl0 & E0) & ? & ?).
      unfold compiled. cbn [compiler dialect_of sqlite_dialect]. unfold sqlite_compile. rewrite E, E0. eauto.
    + destruct (limit_compile_ok (lit "ctid") EQUAL fl ts Hs) as (fl' & ts' & E & (fl0 & E0) & ? & ?).
      unfold compiled. cbn [compiler dialect_of postgresql_dialect]. unfold postgresql_compile. rewrite E, E0. eauto.
    + assert (compiled (dialect_of MSSQL) ts ≡ₚ ts) as Hp by apply (mssql_loop_perm ts [] []).
      split_and!; [by eexists | | unfold cost; rewrite (nest_perm _ _ Hp); lia].
      rewrite (forallb_perm _ _ _ Hp). by apply stmt_ok_safe.
Qed.

(** ** The theorems *)

(** A quoted identifier cannot be broken out of: for every backend and
    every name, whatever quotes and other characters it has, the text that
    [prepare_identifier] makes is read back by the SQL lexer as one
    identifier with exactly the characters of the name. *)
Lemma identifier_quoted b s :
  exists t, prepare_identifier (dialect_of b) s = Ok t
    /\ lex (open_quote b) (close_quote b) (escapes b) t = Some [Ident s].
Proof. apply (prepare_identifier_lex (d := dialect_of b)). Qed.

(** The text of a statement and its lexemes. *)
Lemma build_reads b ct s st fuel :
  stmt_ok (dialect_of b) (open_quote b) (close_quote b) (escapes b) (same_placeholders b) ct (token_list_ s) = true ->
  cost (token_list_ s) <= fuel ->
  exists text st', build (dialect_of b) fuel s ct st = Ok (text, st')
    /\ lex (open_quote b) (close_quote b) (escapes b) text
       = Some (stmt_lx (dialect_of b) (open_quote b) (close_quote b) (escapes b) (placeholder_of b) (limit_of b)
                       fuel ct 0 (token_list_ s))
    /\ build_info_stack_ st' = build_info_stack_ st.
Proof.
  intros Hs Hf.
  destruct (continue_build_lex ct fuel (token_list_ s) 0 Hf Hs
              (mk_dstate ct [] [] (build_info_stack_ st) (flags st)) eq_refl eq_refl)
    as (text & st' & E & Hl & _ & _ & Hst).
  by exists text, st'.
Qed.


(** MySQL reads a backslash in a string as an escape, and [prepare_literal]
    leaves it as it is: the quote it has doubled closes the string. *)
Example mysql_backslash_injection :
  let value := [BACKSLASH; QUOTE] ++ lit " OR 1=1" in
  let text := lit "UPDATE `t` SET `a`='" ++ [BACKSLASH; QUOTE; QUOTE] ++ lit " OR 1=1'" in
  (let? q := query_run [op_update (lit "t") [(lit "a", any_string value)]] query_new in
   let? r := build (mysql_dialect 50700) 1 (sql_ q) DIRECT initial_dstate in Ok r.1) = Ok (text ++ lit " ")
  /\ lex "`"%char "`"%char true (lit "'" ++ [BACKSLASH; QUOTE; QUOTE] ++ lit " OR 1=1")
     = Some [Str [QUOTE]; word "OR"; word "1"; Sym "="%char; word "1"]
  /\ lex "`"%char "`"%char true text = None.
Proof. split_and!; vm_compute; reflexivity. Qed.

(** C40: Every host variable has its placeholder. For every backend and every
    statement that [stmt_ok] admits (see [statement_text]; for PostgreSQL that
    excludes BETWEEN and longer IN lists, [postgresql_between_placeholders],
    and in all prepared statements conditions with the value on the left bind
    no variable, [left_value_not_prepared]): read back by the SQL lexer, the
    placeholders in the text of a prepared statement are, in their order,
    those of number 1 to the number of host variables that [build] has
    collected, for PostgreSQL literally $1, $2 and so on; a direct statement
    has none. *)
Theorem placeholders_match b ct s st fuel :
  stmt_ok (dialect_of b) (open_quote b) (close_quote b) (escapes b) (same_placeholders b) ct (token_list_ s) = true ->
  cost (token_list_ s) <= fuel ->
  exists text st' l, build (dialect_of b) fuel s ct st = Ok (text, st')
    /\ lex (open_quote b) (close_quote b) (escapes b) text = Some l
    /\ placeholders l = match ct with
                        | PREPARED => placeholder_of b <$> seq 1 (length (host_vars_ st'))
                        | DIRECT => []
                        end.
Proof.
  intros Hs Hf.
  destruct (continue_build_lex ct fuel (token_list_ s) 0 Hf Hs
              (mk_dstate ct [] [] (build_info_stack_ st) (flags st)) eq_refl eq_refl)
    as (text & st' & E & Hl & _ & Hn & _).
  eexists text, st', _. split; [exact E |]. split; [exact Hl |].
  rewrite (placeholders_stmt ct fuel _ 0 Hf Hs), Hn. unfold numbered. by destruct ct.
Qed.

(** *** Witnesses *)

Definition o_brien : column := column_of_name (lit "o'b`]r").
Definition sample_query : query :=
  ok_or query_new
    (query_run
      [op_remove (lit "per`s]on");
       op_where (cond_and (cond_string o_brien EQUAL (lit "x")) (cond_scalar age LESS (sc_int 7)));
       op_limit 2] query_new).


Lemma placeholders_match_witness :
  exists text st' l, build (dialect_of PostgreSQL) 2 (sql_ sample_query) PREPARED initial_dstate = Ok (text, st')
    /\ lex DQUOTE DQUOTE false text = Some l
    /\ placeholders l = placeholder_of PostgreSQL <$> seq 1 (length (host_vars_ st')).
Proof. apply (placeholders_match PostgreSQL PREPARED (sql_ sample_query) initial_dstate 2); vm_compute; [reflexivity | lia]. Defined.

(** ** Where the limit goes *)

Definition plain (t : token) : bool := negb (is_command t) && negb (is_top t).

Lemma mssql_loop_plain cmds done l todo :
  forallb plain l = true -> mssql_loop cmds done (l ++ todo) = mssql_loop cmds (done ++ l) todo.
Proof.
  revert done. induction l as [|t l IH]; intros done H; simpl in *; [by rewrite app_nil_r |].
  unfold plain in H. breflect. rewrite H, H1, IH by done. by rewrite <- app_assoc.
Qed.

(** The SQL Server compiler moves the limit of a SELECT, UPDATE or DELETE
    directly behind the command and leaves the order of all other tokens as
    it is. *)
Lemma mssql_limit_moved fl cmd l n r :
  is_command cmd = true -> forallb plain l = true -> forallb plain r = true ->
  mssql_compile fl (cmd :: l ++ top_tok n :: r) = Ok (fl, cmd :: top_tok n :: l ++ r).
Proof.
  intros Hc Hl Hr. unfold mssql_compile. do 2 f_equal. cbn [mssql_loop app length]. rewrite Hc.
  rewrite mssql_loop_plain by done. cbn [mssql_loop is_command is_top].
  rewrite <- (app_nil_r r) at 1. rewrite mssql_loop_plain by done. done.
Qed.

Lemma mssql_limit_moved_witness :
  mssql_compile (mk_flags false false) [select_tok; columns_tok columns_all; from_tok person; top_tok 3; desc_tok]
  = Ok (mk_flags false false, [select_tok; top_tok 3; columns_tok columns_all; from_tok person; desc_tok]).
Proof.
  apply (mssql_limit_moved (mk_flags false false) select_tok [columns_tok columns_all; from_tok person] 3 [desc_tok]);
    reflexivity.
Defined.

(** The table a token names. *)
Definition names_table (t : token) (table : str) : str :=
  match t with
  | tablename_tok n => n
  | from_tok n => n
  | _ => table
  end.
Definition not_where (t : token) : bool := plain t && negb (is_where t).

Lemma limit_loop_plain rowid op fl pos table l done todo :
  forallb not_where l = true ->
  limit_loop rowid op (mk_limit_state fl table pos) done (l ++ todo)
  = limit_loop rowid op (mk_limit_state fl (foldl (fun a t => names_table t a) table l) pos) (done ++ l) todo.
Proof.
  revert table done. induction l as [|t l IH]; intros table done H; simpl in *; [by rewrite app_nil_r |].
  apply andb_true_iff in H as [Ht Hl].
  assert (done ++ t :: l = (done ++ [t]) ++ l) as -> by (by rewrite <- app_assoc).
  rewrite <- IH by done. by destruct t.
Qed.

Lemma rewrite_limit_eq rowid op st n done i c sub :
  where_pos st = Some i -> done !! i = Some (where_tok c) ->
  limited_select rowid (lm_table st) c n = Ok sub ->
  rewrite_limit rowid op st n done = Ok (alter (set_where_cond (cond_query rowid op sub)) i done).
Proof. intros Hp Hi Hs. unfold rewrite_limit. rewrite Hp, Hi. simpl mbind. cbn iota beta. by rewrite Hs. Qed.

(** The compilers of SQLite and PostgreSQL turn a limited UPDATE or DELETE
    into one without limit: the condition becomes a test of the row id
    against a SELECT of the row ids from the same table, with the old
    condition and the limit, and nothing else changes. *)
Lemma limit_rewritten rowid op fl cmd l c m n r :
  cmd = update_tok \/ cmd = remove_tok ->
  forallb not_where l = true -> forallb not_where m = true -> forallb not_where r = true ->
  exists fl' sub,
    limited_select rowid (foldl (fun a t => names_table t a) [] (l ++ m)) c n = Ok sub
    /\ limit_compile rowid op fl (cmd :: l ++ where_tok c :: m ++ top_tok n :: r)
       = Ok (fl', cmd :: l ++ where_tok (cond_query rowid op sub) :: m ++ r).
Proof.
  intros Hcmd Hl Hm Hr.
  set (fl' := match cmd with update_tok => mk_flags true false | _ => mk_flags false true end).
  assert (is_update fl' || is_delete fl' = true) as Hf by (by destruct Hcmd as [-> | ->]).
  assert (exists sub, limited_select rowid (foldl (fun a t => names_table t a) [] (l ++ m)) c n = Ok sub)
    as [sub Hsub] by (by eexists).
  exists fl', sub. split; [done |]. unfold limit_compile.
  assert (forall todo, limit_loop rowid op (mk_limit_state fl [] None) [] (cmd :: todo)
            = limit_loop rowid op (mk_limit_state fl' [] None) [cmd] todo) as ->
    by (intros todo; by destruct Hcmd as [-> | ->]).
  rewrite limit_loop_plain by done. cbn [limit_loop lm_flags lm_table]. rewrite Hf.
  rewrite limit_loop_plain by done. cbn [limit_loop lm_flags lm_table]. rewrite Hf.
  assert ((([cmd] ++ l) ++ [where_tok c]) ++ m = (cmd :: l) ++ where_tok c :: m) as ->
    by (by rewrite <- app_assoc).
  assert (((cmd :: l) ++ where_tok c :: m) !! length ([cmd] ++ l) = Some (where_tok c)) as Hi
    by (by rewrite list_lookup_middle).
  rewrite foldl_app in Hsub. rewrite (rewrite_limit_eq _ _ _ _ _ (length ([cmd] ++ l)) c sub) by done.
  cbn [rbind]. rewrite (alter_split _ _ _ _ Hi).
  rewrite <- (app_nil_r r) at 1. rewrite limit_loop_plain by done. cbn [limit_loop lm_flags].
  do 2 f_equal. change (length ([cmd] ++ l)) with (length (cmd :: l)). rewrite take_app_length.
  rewrite drop_app_ge by lia.
  replace (S (length (cmd :: l)) - length (cmd :: l)) with 1 by lia.
  rewrite <- app_assoc. reflexivity.
Qed.

Lemma limit_rewritten_witness :
  exists fl' sub,
    limited_select (column_of_name (lit "rowid")) person (cond_scalar age LESS (sc_int 7)) 1 = Ok sub
    /\ sqlite_compile (mk_flags false false)
         [remove_tok; from_tok person; where_tok (cond_scalar age LESS (sc_int 7)); top_tok 1]
       = Ok (fl', [remove_tok; from_tok person; where_tok (cond_query (column_of_name (lit "rowid")) IN_LIST sub)]).
Proof.
  apply (limit_rewritten (column_of_name (lit "rowid")) IN_LIST (mk_flags false false) remove_tok
           [from_tok person] (cond_scalar age LESS (sc_int 7)) [] 1 []); [by right | reflexivity..].
Defined.
