(* ===== verification/ClassMapping.v ===== *)
(** * The statements of a class

    The visitors of src/sql that turn the fields of a mapped class into the
    columns of a table, the columns and values of an INSERT and the
    assignments of an UPDATE; the operations of [query<T>] that use them; and
    the statements a table of the ORM creates and prepares (orm/table,
    identifier_column_resolver). Every statement a table uses reads, for every
    backend, as the statement it is meant to be: the same columns in the same
    order, and one placeholder for each value the table binds. *)
From S2P Require Import Prelude Sql Dialect SqlLexer Dialects Statements SqlSafety.
Local Open Scope cxx_scope.

Module ClassMapping.

(** ** The fields of a class

    What [process] hands to a visitor, in order: strings are [std::string]s
    ([text]) or arrays of [char] ([chars]). A reference to another object has
    the identifier of its holder when the holder has one, and else the one
    created for its type. *)
Inductive foreign_key :=
| no_key
| integral_key (t : data_type) (v : Z) (size : Z)
| string_key (v : str) (size : Z).

Inductive field :=
| primary_key (id : str) (t : data_type) (v : Z)
| primary_string (id : str) (v : str) (size : Z)
| revision (id : str) (v : Z)
| attribute (id : str) (t : data_type) (v : any) (attr : field_attributes)
| text (id : str) (v : str) (attr : field_attributes)
| chars (id : str) (v : str) (attr : field_attributes)
| belongs_to (id : str) (has_primary_key : bool) (key : foreign_key)
| has_one (id : str) (has_primary_key : bool) (key : foreign_key)
| has_many (id : str).

Abbreviation class := (list field).

(** ** typed_column_serializer: the columns of CREATE TABLE *)
Definition text_type (attr : field_attributes) : data_type :=
  if (size_ attr =? 0)%Z then type_text else type_varchar.

(** [make_typed_column(id, pk)] of the visitor for identifiers. *)
Definition typed_key (id : str) (key : foreign_key) (index : Z) : list column :=
  match key with
  | no_key => []
  | integral_key t _ size => [make_typed_column id t index (mk_attributes size 0)]
  | string_key _ size => [make_typed_column id (text_type (mk_attributes size 0)) index (mk_attributes size 0)]
  end.

Definition typed_field (f : field) (index : Z) : list column :=
  match f with
  | primary_key id t _ => [make_typed_column id t index (mk_attributes 0 PRIMARY_KEY_CONSTRAINT)]
  | primary_string id _ size =>
    let attr := mk_attributes size PRIMARY_KEY_CONSTRAINT in [make_typed_column id (text_type attr) index attr]
  | revision id _ => [make_typed_column id type_unsigned_long_long index null_attributes]
  | attribute id t _ attr => [make_typed_column id t index attr]
  | text id _ attr | chars id _ attr => [make_typed_column id (text_type attr) index attr]
  | belongs_to id _ key => typed_key id key index
  | has_one id _ key => typed_key id key index
  | has_many _ => []
  end.

Fixpoint typed_columns (fs : class) (index : Z) : list column :=
  match fs with
  | [] => []
  | f :: fs => let cs := typed_field f index in cs ++ typed_columns fs (index + Z.of_nat (length cs))
  end.

(** ** column_serializer: the names of the columns *)
Definition named_field (f : field) : list column :=
  match f with
  | primary_key id _ _ | primary_string id _ _ | revision id _ | attribute id _ _ _ | text id _ _ | chars id _ _
  | belongs_to id _ _ | has_one id _ _ => [column_of_name id]
  | has_many _ => []
  end.
Definition column_serializer (b : t_brackets) (fs : class) : columns := mk_columns (fs ≫= named_field) b.

(** ** value_serializer: the values of INSERT *)
Definition key_value (key : foreign_key) : list value :=
  match key with
  | no_key => []
  | integral_key _ v _ => [any_int v]
  | string_key v _ => [any_string v]
  end.

Definition value_field (f : field) : list value :=
  match f with
  | primary_key _ _ v => [any_int v]
  | primary_string _ v _ => [any_string v]
  | revision _ v => [any_int v]
  | attribute _ _ v _ => [v]
  | text _ v _ | chars _ v _ => [any_string v]
  | belongs_to _ _ key => key_value key
  | has_one _ _ key => key_value key
  | has_many _ => []
  end.
Definition value_serializer (fs : class) : list (option value) := Some <$> (fs ≫= value_field).

(** ** value_column_serializer: the assignments of UPDATE *)
Definition assigned (id : str) (v : value) (t : data_type) (attr : field_attributes) : column :=
  mk_column id (Z.lor with_quotes with_value) v t attr 0.
(** [data_type_traits<std::string>::builtin_type]. *)
Definition string_type (size : Z) : data_type := if (size =? 0)%Z then type_text else type_char_pointer.

Definition assigned_key (id : str) (key : foreign_key) : list column :=
  match key with
  | no_key => []
  | integral_key t v size => [assigned id (any_int v) t (mk_attributes size 0)]
  | string_key v size => [assigned id (any_string v) (string_type size) (mk_attributes size 0)]
  end.

Definition value_column_field (f : field) : list column :=
  match f with
  | primary_key id t v => [assigned id (any_int v) t (mk_attributes 0 PRIMARY_KEY_CONSTRAINT)]
  | primary_string id v size => [assigned id (any_string v) (string_type size) (mk_attributes size PRIMARY_KEY_CONSTRAINT)]
  | revision id v => [assigned id (any_int v) type_unsigned_long_long null_attributes]
  | attribute id t v attr => [assigned id v t attr]
  | text id v attr | chars id v attr => [assigned id (any_string v) (string_type (size_ attr)) attr]
  | belongs_to id _ key => assigned_key id key
  | has_one id _ key => assigned_key id key
  | has_many _ => []
  end.
Definition value_columns (fs : class) : list column := fs ≫= value_column_field.

(** ** identifier_column_resolver: the column of the primary key *)
Definition resolve_step (col : str) (f : field) : str :=
  match f with
  | primary_key id _ _ => id
  | primary_string id _ _ => id
  | _ => col
  end.
Definition resolve_column (fs : class) : column := column_of_name (foldl resolve_step [] fs).

(** ** query<T> *)
Definition create_class (table : str) (fs : class) (q : query) : result query :=
  let q := reset_query CMD_CREATE q in
  let q := set_table table (add (create_tok table) q) in
  let q := add (columns_tok (mk_columns (typed_columns fs 0) WITH_BRACKETS)) q in
  Ok (set_state QUERY_CREATE q).

Definition insert_class (table : str) (fs : class) (q : query) : result query :=
  let q := reset_query CMD_INSERT q in
  let q := set_table table (add (insert_tok table) q) in
  let q := add (columns_tok (column_serializer WITH_BRACKETS fs)) q in
  let q := add (values_tok (value_serializer fs)) q in
  Ok (set_state QUERY_VALUES q).

Definition select_class (fs : class) (q : query) : result query :=
  let q := reset_query CMD_SELECT q in
  let? _ := throw_invalid QUERY_SELECT (state q) in
  let q := add select_tok q in
  let q := add (columns_tok (column_serializer WITHOUT_BRACKETS fs)) q in
  Ok (set_state QUERY_SELECT q).

Definition update_class (table : str) (fs : class) (q : query) : result query :=
  let q := reset_query CMD_UPDATE q in
  let q := set_table table (add (tablename_tok table) (add update_tok q)) in
  let q := add set_tok q in
  let cols := update_columns_ q ++ value_columns fs in
  let q := mk_query (sql_ q) (state q) cols (value_ q) (prototype q) in
  let q := add (columns_tok (mk_columns cols WITHOUT_BRACKETS)) q in
  Ok (set_state QUERY_SET q).

(** ** orm/table *)
Definition table_create (table : str) (fs : class) : result sql :=
  let? q := create_class table fs query_new in Ok (sql_ q).

Definition table_drop (table : str) : result sql :=
  let? q := drop table query_new in Ok (sql_ q).

Record prepared := Prepared {
  insert_ : sql;
  update_ : sql;
  delete_ : sql;
  select_ : sql }.

(** [prepare]: one query object after the other statement is prepared. *)
Definition table_prepare (table : str) (fs : class) : result prepared :=
  let? q := insert_class table fs query_new in
  let insert_stmt := sql_ q in
  let id := resolve_column fs in
  let is_id := cond_scalar id EQUAL (sc_int 1) in
  let? q := update_class table fs q in
  let? q := where_ is_id q in
  let update_stmt := sql_ q in
  let? q := remove table q in
  let? q := where_ is_id q in
  let delete_stmt := sql_ q in
  let? q := select_class fs q in
  let? q := from table q in
  Ok (Prepared insert_stmt update_stmt delete_stmt (sql_ q)).

(** ** What the statements are meant to be *)

(** The column of a field: every field but a container has one. *)
Definition field_name (f : field) : option str :=
  match f with
  | primary_key id _ _ | primary_string id _ _ | revision id _ | attribute id _ _ _ | text id _ _ | chars id _ _
  | belongs_to id _ _ | has_one id _ _ => Some id
  | has_many _ => None
  end.
(** The column of the primary key. *)
Definition key_name (f : field) : option str :=
  match f with primary_key id _ _ | primary_string id _ _ => Some id | _ => None end.

(** The columns as the visitor names them. *)
Definition column_names (fs : class) : list str := name <$> (fs ≫= named_field).

(** Every reference leads to a class with a primary key. *)
Definition key_given (key : foreign_key) : bool := match key with no_key => false | _ => true end.
Definition keyed (f : field) : bool :=
  match f with
  | belongs_to _ _ key | has_one _ _ key => key_given key
  | _ => true
  end.

(** The names of the types in SQL. *)
Definition type_words (b : backend) (t : data_type) : list lexeme :=
  match t with
  | type_char => match b with MySQL _ | SQLite => [word "TINYINT"] | _ => [word "SMALLINT"] end
  | type_short => [word "SMALLINT"]
  | type_int => match b with MSSQL => [word "INT"] | _ => [word "INTEGER"] end
  | type_long | type_long_long => [word "BIGINT"]
  | type_unsigned_char => match b with SQLite => [word "TINYINT"] | _ => [word "SMALLINT"] end
  | type_unsigned_short =>
    match b with
    | MySQL _ => [word "SMALLINT"; word "UNSIGNED"]
    | MSSQL => [word "INT"]
    | _ => [word "INTEGER"]
    end
  | type_unsigned_int => match b with MySQL _ => [word "INTEGER"; word "UNSIGNED"] | _ => [word "BIGINT"] end
  | type_unsigned_long | type_unsigned_long_long =>
    match b with
    | MySQL _ => [word "BIGINT"; word "UNSIGNED"]
    | MSSQL => [word "NUMERIC"; bracket_open; word "21"; comma; word "0"; bracket_close]
    | _ => [word "BIGINT"]
    end
  | type_float =>
    match b with
    | PostgreSQL => [word "FLOAT4"]
    | MSSQL => [word "FLOAT"; bracket_open; word "24"; bracket_close]
    | _ => [word "FLOAT"]
    end
  | type_double =>
    match b with
    | PostgreSQL => [word "FLOAT8"]
    | MSSQL => [word "FLOAT"; bracket_open; word "53"; bracket_close]
    | _ => [word "DOUBLE"]
    end
  | type_bool => match b with SQLite => [word "BOOLEAN"] | MSSQL => [word "BIT"] | _ => [word "INTEGER"] end
  | type_date => [word "DATE"]
  | type_time =>
    match b with
    | MySQL version =>
      if (version <? 50604)%Z then [word "VARCHAR"; bracket_open; word "256"; bracket_close]
      else [word "DATETIME"; bracket_open; word "3"; bracket_close]
    | PostgreSQL => [word "TIMESTAMP"]
    | _ => [word "DATETIME"]
    end
  | type_char_pointer | type_varchar => [word "VARCHAR"]
  | type_text => match b with MSSQL => [word "VARCHAR"; bracket_open; word "MAX"; bracket_close] | _ => [word "TEXT"] end
  | type_blob | type_null | type_unknown => []
  end.
Definition known_type (t : data_type) : bool :=
  match t with type_blob | type_null | type_unknown => false | _ => true end.

Lemma type_lx b t : known_type t = true ->
  is_ok (to_database_type_string (dialect_of b) t) = true
  /\ const (open_quote b) (close_quote b) (escapes b) (ok_or [] (to_database_type_string (dialect_of b) t)) = type_words b t.
Proof. destruct b as [version | | |], t; try done. intros _. cbn. by destruct (version <? 50604)%Z. Qed.

Section meaning.
Variable b : backend.

Definition commas (l : list (list lexeme)) : list lexeme := list_lx (fun _ x => x) (fun _ => 0) 0 l.

(** The lexemes a text is read as. *)
Definition reads (ct : t_compile_type) (s : sql) (l : list lexeme) : Prop :=
  forall st fuel, 1 <= fuel -> exists text st', build (dialect_of b) fuel s ct st = Ok (text, st')
    /\ lex (open_quote b) (close_quote b) (escapes b) text = Some l.

Abbreviation ph n := (placeholder_of b n).

Definition size_words (size : Z) : list lexeme :=
  if (0 <? size)%Z then [bracket_open; Word (to_string_z size); bracket_close] else [].
(** A string is a VARCHAR of its size, without a size a TEXT. *)
Definition string_words (size : Z) : list lexeme :=
  if (size =? 0)%Z then type_words b type_text else word "VARCHAR" :: size_words size.
Definition constraint_words (options : Z) : list lexeme :=
  (if Z.testbit options 0 then [word "NOT"; word "NULL"] else [])
  ++ (if Z.testbit options 3 then [word "PRIMARY"; word "KEY"] else [])
  ++ (if Z.testbit options 2 then [word "UNIQUE"] else []).

(** The column of a field in CREATE TABLE. *)
Definition reference_words (id : str) (key : foreign_key) : option (list lexeme) :=
  match key with
  | no_key => None
  | integral_key t _ size => Some (Ident id :: type_words b t ++ size_words size)
  | string_key _ size => Some (Ident id :: string_words size)
  end.
Definition field_words (f : field) : option (list lexeme) :=
  match f with
  | primary_key id t _ => Some (Ident id :: type_words b t ++ [word "PRIMARY"; word "KEY"])
  | primary_string id _ size => Some (Ident id :: string_words size ++ [word "PRIMARY"; word "KEY"])
  | revision id _ => Some (Ident id :: type_words b type_unsigned_long_long)
  | attribute id t _ attr => Some (Ident id :: type_words b t ++ size_words (size_ attr) ++ constraint_words (options_ attr))
  | text id _ attr | chars id _ attr => Some (Ident id :: string_words (size_ attr) ++ constraint_words (options_ attr))
  | belongs_to id _ key | has_one id _ key => reference_words id key
  | has_many _ => None
  end.
(** The dialect has a name for its type. *)
Definition field_typed (f : field) : bool :=
  match f with
  | primary_key _ t _ => known_type t
  | attribute _ t _ _ => known_type t
  | belongs_to _ _ (integral_key t _ _) | has_one _ _ (integral_key t _ _) => known_type t
  | _ => true
  end.

Definition create_meaning (table : str) (fs : class) : list lexeme :=
  word "CREATE" :: word "TABLE" :: Ident table :: bracket_open :: commas (omap field_words fs) ++ [bracket_close].

Definition insert_meaning (table : str) (fs : class) : list lexeme :=
  word "INSERT" :: word "INTO" :: Ident table
  :: bracket_open :: commas ((fun c => [Ident c]) <$> omap field_name fs) ++ bracket_close
  :: word "VALUES" :: bracket_open :: commas ((fun i => [ph i]) <$> seq 1 (length (omap field_name fs))) ++ [bracket_close].

Definition update_meaning (table : str) (fs : class) (key : str) : list lexeme :=
  word "UPDATE" :: Ident table :: word "SET"
  :: commas (imap (fun i c => [Ident c; Sym "="%char; ph (S i)]) (omap field_name fs))
  ++ [word "WHERE"; Ident key; Sym "="%char; ph (S (length (omap field_name fs)))].

Definition delete_meaning (table : str) (key : str) : list lexeme :=
  [word "DELETE"; word "FROM"; Ident table; word "WHERE"; Ident key; Sym "="%char; ph 1].

Definition select_meaning (table : str) (fs : class) : list lexeme :=
  word "SELECT" :: commas ((fun c => [Ident c]) <$> omap field_name fs) ++ [word "FROM"; Ident table].

(** ** The statements are what they are meant to be *)

Lemma commas_cons x y l : commas (x :: y :: l) = x ++ comma :: commas (y :: l).
Proof. done. Qed.

Lemma list_lx_commas {A} (lx : nat -> A -> list lexeme) (vars : A -> nat) k n l :
  Forall (fun a => vars a = k) l ->
  list_lx lx vars n l = commas (imap (fun i a => lx (n + i * k) a) l).
Proof.
  intros H. revert n. induction H as [|a l Ha Hl IH]; intros n; [done |].
  destruct l as [|a' l]; [cbn; by rewrite Nat.add_0_r |].
  change (list_lx lx vars n (a :: a' :: l)) with (lx n a ++ comma :: list_lx lx vars (n + vars a) (a' :: l)).
  rewrite IH, Ha, (imap_cons _ a).
  assert (imap ((fun i x => lx (n + i * k) x) ∘ S) (a' :: l) = imap (fun i x => lx (n + k + i * k) x) (a' :: l)) as ->.
  { apply imap_ext. intros i x _. cbn. f_equal. lia. }
  rewrite imap_cons, commas_cons. cbn. by rewrite !Nat.add_0_r.
Qed.

Abbreviation words := (kw (dialect_of b) (open_quote b) (close_quote b) (escapes b)).

Lemma words_text : words CREATE_TABLE = [word "CREATE"; word "TABLE"] /\ words INSERT = [word "INSERT"; word "INTO"]
  /\ words VALUES = [word "VALUES"] /\ words UPDATE = [word "UPDATE"] /\ words SET = [word "SET"]
  /\ words WHERE = [word "WHERE"] /\ words REMOVE = [word "DELETE"] /\ words FROM = [word "FROM"] /\ words SELECT = [word "SELECT"].
Proof. destruct b; split_and!; reflexivity. Qed.

Abbreviation lexemes_of ct sub vars := (tokens_lx (dialect_of b) (open_quote b) (close_quote b) (escapes b) (placeholder_of b) (limit_of b) ct sub vars 0).

(** A statement without nesting that the compilers leave as it is. *)
Lemma reads_tokens ct s ts l : token_list_ s = ts -> compiled (dialect_of b) ts = ts -> cost ts = 1 ->
  stmt_ok (dialect_of b) (open_quote b) (close_quote b) (escapes b) (same_placeholders b) ct ts = true ->
  (forall sub vars, lexemes_of ct sub vars ts = l) -> reads ct s l.
Proof.
  intros <- Hc Hk Hok Hl st [|fuel] Hf; [lia |].
  destruct (build_reads b ct s st (S fuel) Hok) as (text & st' & E & Hlex & _); [lia |].
  exists text, st'. split; [done |]. rewrite Hlex. cbn [stmt_lx]. by rewrite Hc, Hl.
Qed.

(** The columns of the three visitors, and their lexemes. *)
Lemma column_names_omap fs : column_names fs = omap field_name fs.
Proof.
  unfold column_names. induction fs as [|f fs IH]; [done |]. rewrite bind_cons, fmap_app, IH. by destruct f.
Qed.

Lemma resolve_column_key fs key : omap key_name fs = [key] -> name (resolve_column fs) = key.
Proof.
  unfold resolve_column. cbn [name column_of_name]. generalize ([] : str).
  assert (forall fs col, omap key_name fs = [] -> foldl resolve_step col fs = col) as Hn.
  { clear. induction fs as [|f fs IH]; intros col H; [done |]. destruct f; try discriminate H; cbn; by apply IH. }
  induction fs as [|f fs IH]; intros col H; [done |].
  destruct f; cbn; try (by apply IH); injection H as -> H; by apply Hn.
Qed.

Lemma named_columns fs : fs ≫= named_field = column_of_name <$> column_names fs.
Proof.
  unfold column_names. induction fs as [|f fs IH]; [done |]. rewrite bind_cons, !fmap_app, <- IH.
  f_equal. by destruct f.
Qed.

Lemma imap_constant {A B} (f : A -> B) l : imap (fun _ => f) l = f <$> l.
Proof. induction l as [|a l IH]; [done |]. rewrite imap_cons, fmap_cons. by f_equal. Qed.

Lemma imap_seq {A B} (f : nat -> B) (l : list A) n : imap (fun i _ => f (n + i)) l = f <$> seq n (length l).
Proof.
  revert n. induction l as [|a l IH]; intros n; [done |]. rewrite imap_cons. cbn. f_equal; [f_equal; lia |].
  rewrite <- IH. apply imap_ext. intros i x _. cbn. f_equal. lia.
Qed.

Lemma names_lx ct n fs :
  list_lx (column_lx (dialect_of b) (open_quote b) (close_quote b) (escapes b) (placeholder_of b) ct) (cols_vars ct) n
    (fs ≫= named_field) = commas ((fun c => [Ident c]) <$> column_names fs).
Proof.
  rewrite named_columns, (list_lx_commas _ _ 0), imap_fmap.
  - f_equal. exact (imap_constant (fun c => [Ident c]) (column_names fs)).
  - by apply Forall_fmap, Forall_true.
Qed.

Lemma values_length fs : forallb keyed fs = true -> length (fs ≫= value_field) = length (column_names fs).
Proof.
  unfold column_names. rewrite length_fmap. induction fs as [|f fs IH]; [done |]. cbn [forallb]. intros H. breflect.
  rewrite !bind_cons, !length_app, IH by done. f_equal. by destruct f as [| | | | | | ? ? [] | ? ? [] |].
Qed.

Lemma values_lx fs : forallb keyed fs = true ->
  list_lx (value_ptr_lx (open_quote b) (close_quote b) (escapes b) (placeholder_of b) PREPARED) (value_vars PREPARED) 0
    (value_serializer fs) = commas ((fun i => [ph i]) <$> seq 1 (length (column_names fs))).
Proof.
  intros H. rewrite <- values_length by done. unfold value_serializer.
  rewrite (list_lx_commas _ _ 1) by (by apply Forall_true). f_equal. rewrite imap_fmap, <- imap_seq.
  apply imap_ext. intros i v _. cbn. do 2 f_equal. lia.
Qed.

Lemma assigned_columns fs : forallb keyed fs = true ->
  name <$> value_columns fs = column_names fs
  /\ Forall (fun c => build_options c = Z.lor with_quotes with_value) (value_columns fs).
Proof.
  unfold column_names, value_columns. induction fs as [|f fs IH]; [done |]. cbn [forallb]. intros H. breflect.
  destruct IH as [IH Hf]; [done |]. rewrite !bind_cons, !fmap_app, IH. split.
  - f_equal. by destruct f as [| | | | | | ? ? [] | ? ? [] |].
  - apply Forall_app. split; [| done]. destruct f as [| | | | | | ? ? [] | ? ? [] |]; cbn; repeat constructor.
Qed.

Lemma assignments_lx fs : forallb keyed fs = true ->
  list_lx (column_lx (dialect_of b) (open_quote b) (close_quote b) (escapes b) (placeholder_of b) PREPARED) (cols_vars PREPARED) 0
    (value_columns fs) = commas (imap (fun i c => [Ident c; Sym "="%char; ph (S i)]) (column_names fs))
  /\ sum_vars (cols_vars PREPARED) (value_columns fs) = length (column_names fs).
Proof.
  intros [<- Hf]%assigned_columns. rewrite length_fmap. split.
  - rewrite (list_lx_commas _ _ 1) by (eapply list.Forall_impl; [exact Hf |]; intros c E; unfold cols_vars; by rewrite E).
    rewrite imap_fmap. f_equal. apply imap_ext. intros i c Hc.
    eapply Forall_lookup_1 in Hf; [| exact Hc]. unfold column_lx. rewrite Hf. cbn. by rewrite Nat.mul_1_r.
  - induction Hf as [|c l Hc Hf IH]; [done |]. change (cols_vars PREPARED c + sum_vars (cols_vars PREPARED) l = S (length l)). rewrite IH. unfold cols_vars. by rewrite Hc.
Qed.

Lemma typed_options fs i :
  Forall (fun c => build_options c = Z.lor with_quotes with_type) (typed_columns fs i).
Proof.
  revert i. induction fs as [|f fs IH]; intros i; [constructor |]. cbn. apply Forall_app. split; [| apply IH].
  destruct f as [| | | | | | ? ? [] | ? ? [] |]; cbn; repeat constructor.
Qed.

Lemma constraint_bit o k : (0 <= k)%Z -> is_constraint_set o (2 ^ k) = Z.testbit o k.
Proof.
  intros Hk. unfold is_constraint_set.
  assert (Z.land o (2 ^ k) = if Z.testbit o k then 2 ^ k else 0)%Z as ->.
  { apply Z.bits_inj'. intros n Hn. rewrite Z.land_spec, Z.pow2_bits_eqb by done.
    destruct (Z.eqb_spec k n) as [-> | Hne].
    - destruct (Z.testbit o n); [by rewrite Z.pow2_bits_true | by rewrite Z.bits_0].
    - rewrite andb_false_r. destruct (Z.testbit o k); [by rewrite Z.pow2_bits_false | by rewrite Z.bits_0]. }
  pose proof (Z.pow_pos_nonneg 2 k eq_refl Hk). destruct (Z.testbit o k); [by apply Z.ltb_lt | done].
Qed.

(** What the linker prints for a column with a type. *)
Definition typed_column_words (c : column) : list lexeme :=
  Ident (name c) :: type_words b (type c) ++ size_words (size_ (attributes c)) ++ constraint_words (options_ (attributes c)).

Lemma typed_column_lx ct n c : build_options c = Z.lor with_quotes with_type -> known_type (type c) = true ->
  column_lx (dialect_of b) (open_quote b) (close_quote b) (escapes b) (placeholder_of b) ct n c = typed_column_words c.
Proof.
  intros Hc [_ Ht]%(type_lx b). unfold column_lx, typed_column_words, constraint_words, size_words.
  rewrite Hc, Ht, <- !constraint_bit by lia. cbn. by rewrite app_nil_r.
Qed.

Lemma string_column_words id i attr :
  known_type (type (make_typed_column id (text_type attr) i attr)) = true
  /\ typed_column_words (make_typed_column id (text_type attr) i attr)
     = Ident id :: string_words (size_ attr) ++ constraint_words (options_ attr).
Proof.
  unfold typed_column_words, string_words, text_type. cbn [type name attributes make_typed_column].
  destruct (Z.eqb_spec (size_ attr) 0) as [-> |]; split; try done.
Qed.

(** The columns of CREATE TABLE are those of the fields. *)
Lemma typed_field_words f i : field_typed f = true ->
  Forall (fun c => known_type (type c) = true) (typed_field f i)
  /\ typed_column_words <$> typed_field f i = option_list (field_words f).
Proof.
  intros Hf.
  destruct f as [| id v size | | | id v attr | id v attr | id h [| t v size | v size] | id h [| t v size | v size] |];
    cbn [typed_field typed_key field_words reference_words option_list]; try (by repeat constructor).
  all: try (match goal with |- context [make_typed_column ?id (text_type ?attr) ?i ?attr] =>
         destruct (string_column_words id i attr) as [Hk Hw] end;
       split; [by repeat constructor |]; rewrite list_fmap_singleton, Hw; cbn; by rewrite ?app_nil_r).
  all: split; [by repeat constructor |]; unfold typed_column_words; cbn; by rewrite ?app_nil_r.
Qed.

Lemma typed_columns_words fs i : forallb field_typed fs = true ->
  Forall (fun c => known_type (type c) = true) (typed_columns fs i)
  /\ typed_column_words <$> typed_columns fs i = omap field_words fs.
Proof.
  revert i. induction fs as [|f fs IH]; intros i H; [by split; [constructor |] |]. cbn [forallb] in H. breflect.
  cbn [typed_columns]. destruct (typed_field_words f i) as [Hk Hw]; [done |].
  destruct (IH (i + Z.of_nat (length (typed_field f i)))%Z) as [Hks Hws]; [done |].
  split; [by apply Forall_app |]. rewrite fmap_app, Hw, Hws. cbn. by destruct (field_words f).
Qed.

Lemma definitions_lx ct n fs : forallb field_typed fs = true ->
  list_lx (column_lx (dialect_of b) (open_quote b) (close_quote b) (escapes b) (placeholder_of b) ct) (cols_vars ct) n
    (typed_columns fs 0) = commas (omap field_words fs).
Proof.
  intros Hf. destruct (typed_columns_words fs 0 Hf) as [Hk <-]. pose proof (typed_options fs 0) as Ho.
  rewrite (list_lx_commas _ _ 0) by (eapply list.Forall_impl; [exact Ho |]; intros c E; unfold cols_vars; by rewrite E).
  f_equal. rewrite <- imap_constant. apply imap_ext. intros i c Hc.
  eapply Forall_lookup_1 in Ho; [| exact Hc]. eapply Forall_lookup_1 in Hk; [| exact Hc]. by apply typed_column_lx.
Qed.

Lemma forallb_all {A} (p : A -> bool) l : (forall x, p x = true) -> forallb p l = true.
Proof. intros H. induction l as [|x l IH]; [done |]. cbn. by rewrite H. Qed.

Abbreviation safe_cols ct cols := (forallb (safe_column (dialect_of b) (open_quote b) (close_quote b) (escapes b) ct) cols = true).

Lemma names_safe ct fs : safe_cols ct (fs ≫= named_field).
Proof. rewrite named_columns. by induction (column_names fs). Qed.

Lemma assignments_safe fs : forallb keyed fs = true -> safe_cols PREPARED (value_columns fs).
Proof.
  intros [_ Hf]%assigned_columns. induction Hf as [|c l Hc Hf IH]; [done |]. cbn. rewrite IH. unfold safe_column.
  by rewrite Hc.
Qed.

Lemma definitions_safe fs : forallb field_typed fs = true -> safe_cols DIRECT (typed_columns fs 0).
Proof.
  intros [Hk _]%(fun H => typed_columns_words fs 0 H). apply forallb_forall. intros c Hc.
  pose proof (typed_options fs 0) as Hf. rewrite List.Forall_forall in Hf, Hk.
  destruct (type_lx b _ (Hk c Hc)) as [Ht _]. unfold safe_column. rewrite (Hf c Hc). cbn. by rewrite Ht.
Qed.

(** Each statement, by its tokens. *)
Ltac reads_by H :=
  apply (reads_tokens _ _ _ _ H); [clear H; by destruct b | done | cbn | intros sub vars];
  [| cbn [tokens_lx token_lx token_vars columns_ with_brackets_ column_serializer];
     destruct words_text as (Hcreate & Hinsert & Hvalues & Hupdate & Hset & Hwhere & Hremove & Hfrom & Hselect);
     rewrite ?Hcreate, ?Hinsert, ?Hvalues, ?Hupdate, ?Hset, ?Hwhere, ?Hremove, ?Hfrom, ?Hselect].

Lemma equal_text : const (open_quote b) (close_quote b) (escapes b) (operands EQUAL) = [Sym "="%char].
Proof. by destruct b. Qed.

Lemma create_reads table fs s : forallb field_typed fs = true ->
  token_list_ s = [create_tok table; columns_tok (mk_columns (typed_columns fs 0) WITH_BRACKETS)] ->
  reads DIRECT s (create_meaning table fs).
Proof.
  intros Ht Hs. reads_by Hs; [by rewrite definitions_safe |]. by rewrite definitions_lx, app_nil_r by done.
Qed.

Lemma drop_reads table s : token_list_ s = [drop_tok table] -> reads DIRECT s [word "DROP"; word "TABLE"; Ident table].
Proof.
  intros Hs. reads_by Hs; [done |]. assert (words DROP = [word "DROP"; word "TABLE"]) as -> by (clear; by destruct b). done.
Qed.

Lemma insert_reads table fs s : forallb keyed fs = true ->
  token_list_ s = [insert_tok table; columns_tok (column_serializer WITH_BRACKETS fs); values_tok (value_serializer fs)] ->
  reads PREPARED s (insert_meaning table fs).
Proof.
  intros Hk Hs. reads_by Hs.
  - rewrite names_safe. cbn. unfold value_serializer. induction (fs ≫= value_field); [done |]. cbn. done.
  - rewrite names_lx, app_nil_r.
    assert (sum_vars (cols_vars PREPARED) (fs ≫= named_field) = 0) as ->.
    { rewrite named_columns. by induction (column_names fs). }
    rewrite values_lx, column_names_omap by done. cbn. by rewrite <- app_assoc.
Qed.

Lemma update_reads table fs key s : forallb keyed fs = true -> omap key_name fs = [key] ->
  token_list_ s = [update_tok; tablename_tok table; set_tok; columns_tok (mk_columns (value_columns fs) WITHOUT_BRACKETS);
                   where_tok (cond_scalar (resolve_column fs) EQUAL (sc_int 1))] ->
  reads PREPARED s (update_meaning table fs key).
Proof.
  intros Hk Hkey Hs. reads_by Hs; [by rewrite assignments_safe |].
  destruct (assignments_lx fs Hk) as [Hl Hn]. cbn [Nat.add]. rewrite Hl, Hn, column_names_omap, app_nil_r. cbn [cond_lx].
  by rewrite equal_text, (resolve_column_key _ _ Hkey).
Qed.

Lemma delete_reads table fs key s : table <> [] -> omap key_name fs = [key] ->
  token_list_ s = [remove_tok; from_tok table; where_tok (cond_scalar (resolve_column fs) EQUAL (sc_int 1))] ->
  reads PREPARED s (delete_meaning table key).
Proof.
  intros Ht Hkey Hs. reads_by Hs; [done |]. destruct table; [done |]. cbn [cond_lx].
  by rewrite equal_text, (resolve_column_key _ _ Hkey).
Qed.

Lemma select_reads table fs s : table <> [] ->
  token_list_ s = [select_tok; columns_tok (column_serializer WITHOUT_BRACKETS fs); from_tok table] ->
  reads PREPARED s (select_meaning table fs).
Proof.
  intros Ht Hs. reads_by Hs; [by rewrite names_safe |]. rewrite names_lx, column_names_omap, app_nil_r. destruct table; [done |]. reflexivity.
Qed.
End meaning.

(** The tokens of the statements. *)
Lemma table_prepare_tokens table fs : exists p, table_prepare table fs = Ok p
  /\ token_list_ (insert_ p) = [insert_tok table; columns_tok (column_serializer WITH_BRACKETS fs); values_tok (value_serializer fs)]
  /\ token_list_ (update_ p) = [update_tok; tablename_tok table; set_tok; columns_tok (mk_columns (value_columns fs) WITHOUT_BRACKETS);
                                where_tok (cond_scalar (resolve_column fs) EQUAL (sc_int 1))]
  /\ token_list_ (delete_ p) = [remove_tok; from_tok table; where_tok (cond_scalar (resolve_column fs) EQUAL (sc_int 1))]
  /\ token_list_ (select_ p) = [select_tok; columns_tok (column_serializer WITHOUT_BRACKETS fs); from_tok table].
Proof. eexists. split; [reflexivity |]. split_and!; reflexivity. Qed.

(** C19: The statements of a mapped class say what they should, for every
    backend and every class with one primary key, whose references lead to
    classes with a primary key ([keyless_reference_columns]) and whose types
    are not blobs or unknown: [table::create] builds CREATE TABLE with one
    column for each field but containers, of the SQL type of the field, its
    size and constraints, PRIMARY KEY for the primary key; [table::drop] DROP
    TABLE; [table::prepare] builds, one after the other with one query
    object, an INSERT of exactly these columns with one placeholder for each,
    an UPDATE that assigns a placeholder to each and selects the row by the
    primary key with the placeholder behind them, a DELETE by primary key
    and a SELECT of all columns. Read back by the SQL lexer of the database
    the texts are these statements, names with quotes in them included. *)
Theorem class_statements b table fs key :
  table <> [] -> omap key_name fs = [key] -> forallb keyed fs = true -> forallb field_typed fs = true ->
  (exists s, table_create table fs = Ok s /\ reads b DIRECT s (create_meaning b table fs))
  /\ (exists s, table_drop table = Ok s /\ reads b DIRECT s [word "DROP"; word "TABLE"; Ident table])
  /\ (exists p, table_prepare table fs = Ok p
       /\ reads b PREPARED (insert_ p) (insert_meaning b table fs)
       /\ reads b PREPARED (update_ p) (update_meaning b table fs key)
       /\ reads b PREPARED (delete_ p) (delete_meaning b table key)
       /\ reads b PREPARED (select_ p) (select_meaning table fs)).
Proof.
  intros Ht Hkey Hk Hy. split.
  - eexists. split; [reflexivity |]. by apply create_reads.
  - split; [eexists; split; [reflexivity |]; by apply drop_reads |].
    destruct (table_prepare_tokens table fs) as (p & E & Hi & Hu & Hd & Hs). exists p. split; [done |].
    split_and!; [by apply insert_reads | by apply update_reads | by eapply delete_reads | by apply select_reads].
Qed.

(** *** A class *)
Definition person : class :=
  [primary_key (lit "id") type_unsigned_long 0; revision (lit "rev") 0;
   text (lit "na`me") (lit "") (mk_attributes 64 UNIQUE_CONSTRAINT);
   attribute (lit "height") type_int (any_int 0) null_attributes;
   belongs_to (lit "department") false (string_key [] 0); has_many (lit "jobs")].

Lemma class_statements_witness :
  (exists s, table_create (lit "person") person = Ok s
     /\ reads PostgreSQL DIRECT s
          [word "CREATE"; word "TABLE"; Ident (lit "person"); bracket_open;
           Ident (lit "id"); word "BIGINT"; word "PRIMARY"; word "KEY"; comma; Ident (lit "rev"); word "BIGINT"; comma;
           Ident (lit "na`me"); word "VARCHAR"; bracket_open; word "64"; bracket_close; word "UNIQUE"; comma;
           Ident (lit "height"); word "INTEGER"; comma; Ident (lit "department"); word "TEXT"; bracket_close])
  /\ (exists p, table_prepare (lit "person") person = Ok p
     /\ reads PostgreSQL PREPARED (update_ p)
          [word "UPDATE"; Ident (lit "person"); word "SET"; Ident (lit "id"); Sym "="%char; word "$1"; comma;
           Ident (lit "rev"); Sym "="%char; word "$2"; comma; Ident (lit "na`me"); Sym "="%char; word "$3"; comma;
           Ident (lit "height"); Sym "="%char; word "$4"; comma;
           Ident (lit "department"); Sym "="%char; word "$5"; word "WHERE"; Ident (lit "id"); Sym "="%char; word "$6"]).
Proof.
  destruct (class_statements PostgreSQL (lit "person") person (lit "id")) as ((s & Ec & Hc) & _ & p & E & _ & Hu & _);
    [done | done | done | done |].
  split; [exists s | exists p]; by split.
Defined.

(** *** Where the columns differ *)

(** A reference to a class without a primary key: CREATE TABLE has no column
    for it, INSERT and SELECT name one, and INSERT has no value for it. *)
Example keyless_reference_columns :
  let c := [primary_key (lit "id") type_int 0; belongs_to (lit "owner") false no_key] in
  name <$> typed_columns c 0 = [lit "id"] /\ column_names c = [lit "id"; lit "owner"]
  /\ length (value_serializer c) = 1 /\ name <$> value_columns c = [lit "id"].
Proof. by vm_compute. Qed.

(** The identifier of a referenced class is made by assignment and has no
    size: a foreign key to a VARCHAR(32) is a TEXT. *)
Example string_reference_is_text :
  typed_column_words (MySQL 80000) <$> typed_columns [primary_string (lit "name") [] 32; belongs_to (lit "boss") false (string_key [] 0)] 0
  = [[Ident (lit "name"); word "VARCHAR"; bracket_open; word "32"; bracket_close; word "PRIMARY"; word "KEY"];
     [Ident (lit "boss"); word "TEXT"]].
Proof. by vm_compute. Qed.

(** Without a primary key UPDATE and DELETE select the row by a column with an
    empty name. *)
Example no_primary_key_where :
  exists p, table_prepare (lit "t") [revision (lit "rev") 0] = Ok p
    /\ token_list_ (delete_ p) = [remove_tok; from_tok (lit "t"); where_tok (cond_scalar (column_of_name []) EQUAL (sc_int 1))].
Proof. eexists. split; reflexivity. Qed.

End ClassMapping.
