(* ===== verification/ParameterBinder.v ===== *)
(** * Binding the values of an object

    How a table of the ORM hands the values of an object to the statements it
    has prepared: [parameter_binder<void>] walks the fields and binds one
    after the other (include/matador/sql/parameter_binder.hpp),
    [identifier_binder] binds the primary key behind them, and the binder of
    the backend passes each value to the database: SQLite
    (src/db/sqlite/sqlite_parameter_binder.cpp) and PostgreSQL
    (src/db/postgresql/postgresql_parameter_binder.cpp). The value of every
    column meets the placeholder of that column. *)
From S2P Require Import Prelude Sql Dialect SqlLexer Dialects Statements SqlSafety ClassMapping.
Local Open Scope cxx_scope.

Module ParameterBinder.
Import ClassMapping.

#[global] Instance data_type_eq_dec : EqDecision data_type.
Proof. solve_decision. Defined.

(** ** parameter_binder_impl

    The calls a backend gets: one overload of [bind] for each type, while the
    flag [bind_null_] says whether values stand for NULL. *)
Inductive bind_arg :=
| bind_integer (t : data_type) (z : Z)
| bind_bool (v : bool)
| bind_floating (t : str)
| bind_char_array (s : str) (size : Z)
| bind_string (s : str)
| bind_sized_string (s : str) (size : Z)
| bind_time (t : str)
| bind_date (t : str).

Record call := Call {
  call_arg : bind_arg;
  call_index : nat;
  call_null : bool }.

(** A statement: the names of its host variables, what is bound since the last
    reset, and the flag of its binder. *)
Record stmt := Stmt {
  vars : list str;
  calls : list call;
  bind_null_ : bool }.
Definition reset (s : stmt) : stmt := Stmt (vars s) [] (bind_null_ s).
Definition bind (a : bind_arg) (index : nat) (s : stmt) : stmt :=
  Stmt (vars s) (calls s ++ [Call a index (bind_null_ s)]) (bind_null_ s).
Definition bind_null (is_null : bool) (s : stmt) : stmt := Stmt (vars s) (calls s) is_null.

(** ** parameter_binder<void>

    The position and the statement are threaded through the fields. *)
Definition bind_value (a : bind_arg) (st : nat * stmt) : nat * stmt := (S st.1, bind a st.1 st.2).

(** The overload for the value of an attribute. *)
Definition bind_any (t : data_type) (v : value) (st : nat * stmt) : nat * stmt :=
  match v with
  | any_int z => bind_value (bind_integer t z) st
  | any_bool x => bind_value (bind_bool x) st
  | any_float x => bind_value (bind_floating x) st
  | any_string s => bind_value (bind_string s) st
  | any_time x => bind_value (bind_time x) st
  | any_date x => bind_value (bind_date x) st
  | any_empty | any_other => st
  end.

Definition string_arg (s : str) (size : Z) : bind_arg :=
  if (size =? 0)%Z then bind_string s else bind_sized_string s size.
(** Without a size the pointer is converted to [bool]: the conversion to
    [std::string] is a user-defined one. *)
Definition chars_arg (s : str) (size : Z) : bind_arg :=
  if (size =? 0)%Z then bind_bool true else bind_char_array s size.

(** [identifier::serialize] on the binder's visitor for identifiers. *)
Definition serialize_key (key : foreign_key) (st : nat * stmt) : nat * stmt :=
  match key with
  | no_key => (st.1, bind_null true st.2)
  | integral_key t v _ => bind_value (bind_integer t v) st
  | string_key v _ => bind_value (bind_string v) st
  end.

(** [on_belongs_to], [on_has_one]. *)
Definition bind_reference (has_primary_key : bool) (key : foreign_key) (st : nat * stmt) : nat * stmt :=
  if has_primary_key then serialize_key key st
  else let st := serialize_key key (st.1, bind_null true st.2) in (st.1, bind_null false st.2).

Definition bind_field (f : field) (st : nat * stmt) : nat * stmt :=
  match f with
  | primary_key _ t v => bind_value (bind_integer t v) st
  | primary_string _ v size => bind_value (string_arg v size) st
  | revision _ v => bind_value (bind_integer type_unsigned_long_long v) st
  | attribute _ t v _ => bind_any t v st
  | text _ v attr => bind_value (string_arg v (size_ attr)) st
  | chars _ v attr => bind_value (chars_arg v (size_ attr)) st
  | belongs_to _ has_pk key => bind_reference has_pk key st
  | has_one _ has_pk key => bind_reference has_pk key st
  | has_many _ => st
  end.
Definition bind_fields (fs : class) (st : nat * stmt) : nat * stmt := foldl (fun st f => bind_field f st) st fs.

(** [statement_impl::bind(T *o, size_t pos)]. *)
Definition bind_object (fs : class) (pos : nat) (s : stmt) : nat * stmt := bind_fields fs (pos, reset s).

(** ** identifier_binder *)
Definition is_valid_host_var (host_var : str) (pos : nat) (s : stmt) : result bool :=
  match vars s !! pos with
  | Some v => Ok (bool_decide (v = host_var))
  | None => Throw (out_of_range "vector::_M_range_check")
  end.

(** [is_similar_type] and [serialize] at a primary key. *)
Definition bind_key (name : str) (pos : nat) (id : foreign_key) (s : stmt) : result stmt :=
  match id with
  | integral_key t v _ =>
    if (length (vars s) <=? pos)%nat then Throw (out_of_range "host index out of range")
    else let? ok := is_valid_host_var name pos s in
         Ok (if ok then bind (bind_integer t v) pos s else s)
  | string_key v size =>
    let? ok := is_valid_host_var name pos s in
    Ok (if ok then bind (bind_sized_string v size) pos s else s)
  | no_key => Ok s
  end.

Definition similar (id : foreign_key) (f : field) : bool :=
  match f, id with
  | primary_key _ t _, integral_key t' _ _ => bool_decide (t = t')
  | primary_string _ _ _, string_key _ _ => true
  | primary_key _ _ _, _ | primary_string _ _ _, _ => false
  | _, _ => true
  end.

Definition identifier_field (pos : nat) (id : foreign_key) (f : field) (s : stmt) : result stmt :=
  match f with
  | primary_key name _ _ | primary_string name _ _ =>
    if similar id f then bind_key name pos id s else Throw (object_exception "identifier types aren't equal")
  | _ => Ok s
  end.

Fixpoint identifier_binder (pos : nat) (id : foreign_key) (fs : class) (s : stmt) : result stmt :=
  match fs with
  | [] => Ok s
  | f :: fs => let? s := identifier_field pos id f s in identifier_binder pos id fs s
  end.

(** ** What a table binds before it executes a statement *)
Definition bind_insert (fs : class) (s : stmt) : stmt := (bind_object fs 0 s).2.
Definition bind_update (fs : class) (id : foreign_key) (s : stmt) : result stmt :=
  let '(pos, s) := bind_object fs 0 (reset s) in identifier_binder pos id fs s.
Definition bind_delete (fs : class) (id : foreign_key) (s : stmt) : result stmt :=
  identifier_binder 0 id fs (reset s).

(** The statement of a connection: [prepare] of the dialect. *)
Definition prepared_stmt (b : backend) (fuel : nat) (s : sql) : result stmt :=
  let? (ctx, _) := prepare (dialect_of b) fuel s initial_dstate in Ok (Stmt (bind_vars ctx) [] false).

(** ** What the statements should receive *)

(** The row of an object: every column with its value, for a reference the key
    it refers to, and whether the reference is empty. *)
Definition key_of (key : foreign_key) : value :=
  match key with
  | integral_key _ v _ => any_int v
  | string_key v _ => any_string v
  | no_key => any_empty
  end.
Definition entry (f : field) : option (str * (value * bool)) :=
  match f with
  | primary_key id _ v => Some (id, (any_int v, false))
  | primary_string id v _ => Some (id, (any_string v, false))
  | revision id v => Some (id, (any_int v, false))
  | attribute id _ v _ => Some (id, (v, false))
  | text id v _ | chars id v _ => Some (id, (any_string v, false))
  | belongs_to id has_pk key | has_one id has_pk key => Some (id, (key_of key, negb has_pk))
  | has_many _ => None
  end.
Definition entries (fs : class) : list (str * (value * bool)) := omap entry fs.
(** What the database should hold: [None] stands for NULL. *)
Definition row (fs : class) : list (str * option value) :=
  (fun e : str * (value * bool) => (e.1, if e.2.2 then None else Some e.2.1)) <$> entries fs.

(** The value of a call. *)
Definition arg_value (a : bind_arg) : value :=
  match a with
  | bind_integer _ z => any_int z
  | bind_bool v => any_bool v
  | bind_floating t => any_float t
  | bind_char_array s _ | bind_string s | bind_sized_string s _ => any_string s
  | bind_time t => any_time t
  | bind_date t => any_date t
  end.
(** The position, the value and the flag of a call. *)
Definition received (c : call) : nat * (value * bool) := (call_index c, (arg_value (call_arg c), call_null c)).

(** Attributes have values, arrays of characters a size and references keys. *)
Definition bindable (f : field) : bool :=
  keyed f
  && match f with
     | attribute _ _ v _ => registered v
     | chars _ _ attr => negb (size_ attr =? 0)%Z
     | _ => true
     end.

(** The same class with other values. *)
Definition erase_key (key : foreign_key) : foreign_key :=
  match key with
  | no_key => no_key
  | integral_key t _ size => integral_key t 0 size
  | string_key _ size => string_key [] size
  end.
Definition erase (f : field) : field :=
  match f with
  | primary_key id t _ => primary_key id t 0
  | primary_string id _ size => primary_string id [] size
  | revision id _ => revision id 0
  | attribute id t _ attr => attribute id t any_empty attr
  | text id _ attr => text id [] attr
  | chars id _ attr => chars id [] attr
  | belongs_to id _ key => belongs_to id false (erase_key key)
  | has_one id _ key => has_one id false (erase_key key)
  | has_many id => has_many id
  end.

Definition is_primary (f : field) : bool :=
  match f with primary_key _ _ _ | primary_string _ _ _ => true | _ => false end.
(** ** The fields in order *)
Lemma bind_field_spec f pos vs cs0 : bindable f = true ->
  exists cs, bind_field f (pos, Stmt vs cs0 false) = (pos + length cs, Stmt vs (cs0 ++ cs) false)
    /\ received <$> cs = match entry f with Some e => [(pos, e.2)] | None => [] end.
Proof.
  unfold bindable. intros H. breflect.
  assert (forall a, exists cs, bind_value a (pos, Stmt vs cs0 false) = (pos + length cs, Stmt vs (cs0 ++ cs) false)
            /\ received <$> cs = [(pos, (arg_value a, false))]) as Hv.
  { intros a. exists [Call a pos false]. split; [|done]. unfold bind_value, bind. cbn. by rewrite Nat.add_1_r. }
  assert (forall pk key, key_given key = true ->
            exists cs, bind_reference pk key (pos, Stmt vs cs0 false) = (pos + length cs, Stmt vs (cs0 ++ cs) false)
              /\ received <$> cs = [(pos, (key_of key, negb pk))]) as Hk.
  { intros [] [| t v size | v size] Hg; try done; try apply Hv.
    - exists [Call (bind_integer t v) pos true]. cbn. by rewrite Nat.add_1_r.
    - exists [Call (bind_string v) pos true]. cbn. by rewrite Nat.add_1_r. }
  destruct f; cbn [bind_field entry snd]; try apply Hv; try (by apply Hk).
  - unfold string_arg. case_match; apply Hv.
  - unfold bind_any. destruct v; try done; apply Hv.
  - unfold string_arg. case_match; apply Hv.
  - unfold chars_arg. case_match; [done | apply Hv].
  - exists []. cbn. by rewrite Nat.add_0_r, app_nil_r.
Qed.

Lemma entries_cons f fs : entries (f :: fs) = match entry f with Some e => e :: entries fs | None => entries fs end.
Proof. reflexivity. Qed.

Lemma bind_fields_spec fs pos vs cs0 : forallb bindable fs = true ->
  exists cs, bind_fields fs (pos, Stmt vs cs0 false) = (pos + length (entries fs), Stmt vs (cs0 ++ cs) false)
    /\ received <$> cs = imap (fun i e => (pos + i, e.2)) (entries fs).
Proof.
  revert pos cs0. induction fs as [|f fs IH]; intros pos cs0 H; cbn [forallb] in H; breflect.
  { exists []. by rewrite Nat.add_0_r, app_nil_r. }
  destruct (bind_field_spec f pos vs cs0) as (cs & E & Hc); [done |].
  destruct (IH (pos + length cs) (cs0 ++ cs)) as (cs' & E' & Hc'); [done |].
  exists (cs ++ cs'). cbn [bind_fields foldl]. rewrite E. fold (bind_fields fs (pos + length cs, Stmt vs (cs0 ++ cs) false)).
  rewrite E', fmap_app, Hc, Hc', <- app_assoc. pose proof (f_equal length Hc) as Hl. rewrite length_fmap in Hl.
  rewrite entries_cons. destruct (entry f) as [e|]; cbn [length] in *; rewrite Hl.
  - split; [f_equal; lia |]. rewrite imap_cons. cbn. rewrite Nat.add_0_r. f_equal.
    apply imap_ext. intros i x _. cbn. f_equal. lia.
  - by rewrite Nat.add_0_r.
Qed.

Lemma entries_names fs : (entries fs).*1 = column_names fs.
Proof.
  unfold entries, column_names. induction fs as [|f fs IH]; [done |]. rewrite bind_cons, fmap_app, <- IH.
  by destruct f.
Qed.

Lemma one_primary fs key : omap key_name fs = [key] -> length (filter is_primary fs) = 1.
Proof.
  assert (forall fs, length (filter is_primary fs) = length (omap key_name fs)) as H.
  { clear. induction fs as [|f fs IH]; [done |]. rewrite filter_cons. by destruct f; cbn; rewrite <- ?IH. }
  intros E. by rewrite H, E.
Qed.

(** ** The primary key *)
Lemma identifier_none pos id fs s : filter is_primary fs = [] -> identifier_binder pos id fs s = Ok s.
Proof.
  induction fs as [|f fs IH]; [done |]. rewrite filter_cons. case_decide as H; [done |]. intros E. cbn.
  destruct f; try (by apply IH); by destruct H.
Qed.

Lemma resolve_none fs col : filter is_primary fs = [] -> foldl resolve_step col fs = col.
Proof.
  revert col. induction fs as [|f fs IH]; [done |]. intros col. rewrite filter_cons. case_decide as H; [done |]. intros E. cbn.
  rewrite IH by done. destruct f; try done; by destruct H.
Qed.

Lemma bind_key_spec n pos id vs cs0 : key_given id = true -> vs !! pos = Some n ->
  exists c, bind_key n pos id (Stmt vs cs0 false) = Ok (Stmt vs (cs0 ++ [c]) false) /\ received c = (pos, (key_of id, false)).
Proof.
  intros Hg Hv. assert ((length vs <=? pos)%nat = false) as Hlen by (apply Nat.leb_gt; by eapply lookup_lt_Some).
  unfold bind_key, is_valid_host_var. cbn [vars]. rewrite Hv, Hlen. cbn. rewrite bool_decide_eq_true_2 by done.
  destruct id; [done | |]; by eexists.
Qed.

Lemma similar_given id f : is_primary f -> similar id f = true -> key_given id = true.
Proof. by destruct f, id. Qed.

Lemma identifier_spec fs pos id vs cs0 : length (filter is_primary fs) = 1 -> forallb (similar id) fs = true ->
  vs !! pos = Some (name (resolve_column fs)) ->
  exists c, identifier_binder pos id fs (Stmt vs cs0 false) = Ok (Stmt vs (cs0 ++ [c]) false) /\ received c = (pos, (key_of id, false)).
Proof.
  unfold resolve_column. cbn [name column_of_name]. generalize ([] : str).
  induction fs as [|f fs IH]; intros col; [done |]. rewrite filter_cons. cbn [forallb foldl identifier_binder].
  intros Hl Hs Hv. breflect. case_decide as Hp.
  - cbn in Hl. assert (filter is_primary fs = []) as Hn by (apply length_zero_iff_nil; lia).
    rewrite resolve_none in Hv by done.
    destruct (bind_key_spec (resolve_step col f) pos id vs cs0) as (c & E & Hc); [by eapply similar_given | done |].
    exists c. split; [| done]. unfold identifier_field. destruct f; try done; cbn [resolve_step] in E; rewrite H, E; cbn;
      by rewrite identifier_none.
  - assert (identifier_field pos id f (Stmt vs cs0 false) = Ok (Stmt vs cs0 false)) as -> by (destruct f; try done; by destruct Hp).
    assert (resolve_step col f = col) as Hr by (destruct f; try done; by destruct Hp).
    rewrite Hr in Hv. by apply (IH col).
Qed.

(** ** The host variables of the statements *)
Lemma bound_ok {A B} (m : M A) (k : A -> M B) st r : Dialect.bind m k st = Ok r -> exists a st', m st = Ok (a, st') /\ k a st' = Ok r.
Proof. unfold Dialect.bind. destruct (m st) as [[a st']|]; [| done]. by exists a, st'. Qed.

Lemma link_last d cb ts t st r : link d cb (ts ++ [t]) st = Ok r -> exists st1, visit d cb t st1 = Ok r.
Proof.
  revert st. induction ts as [|t' ts IH]; intros st H; cbn [app link] in H; apply bound_ok in H as ([] & st' & E & H).
  - exists st. rewrite E. cbn in H. by injection H as <-.
  - by eapply IH.
Qed.

Lemma append_vars part st st' : append_to_result part st = Ok ((), st') -> host_vars_ st' = host_vars_ st.
Proof. unfold append_to_result. destruct (build_info_stack_ st); [done |]. by intros [= <-]. Qed.

Lemma visit_where_vars d cb f op v st st' : visit d cb (where_tok (cond_scalar f op v)) st = Ok ((), st') ->
  exists vs, host_vars_ st' = vs ++ [name f].
Proof.
  cbn [visit evaluate]. intros ([] & st1 & _ & (x & st2 & E & ([] & st3 & E3%append_vars & E4%append_vars)%bound_ok)%bound_ok)%bound_ok.
  exists (host_vars_ st1). rewrite E4, E3.
  apply bound_ok in E as ([] & st4 & [= <-] & (ct & st5 & [= <- <-] & (id & st6 & E6 & E)%bound_ok)%bound_ok).
  unfold identifier, lift in E6. destruct (prepare_identifier d (name f)); [| done]. injection E6 as <- <-.
  cbn in E. destruct (compile_type_ st1); by injection E as <- <-.
Qed.

Lemma continue_build_where d fuel ts f op v st text st' fl :
  compiler d (flags st) (ts ++ [where_tok (cond_scalar f op v)]) = Ok (fl, ts ++ [where_tok (cond_scalar f op v)]) ->
  continue_build d (S fuel) (ts ++ [where_tok (cond_scalar f op v)]) st = Ok (text, st') ->
  exists vs, host_vars_ st' = vs ++ [name f].
Proof.
  intros Hc. cbn [continue_build].
  intros ([] & st1 & [= <-] & ([] & st2 & E2 & (i & st3 & E3 & ([] & st4 & E4 & (j & st5 & E5 & ([] & st6 & E6 & [= _ <-])%bound_ok)%bound_ok)%bound_ok)%bound_ok)%bound_ok)%bound_ok.
  unfold compile in E2. cbn in E2. rewrite Hc in E2. cbn in E2. injection E2 as <-.
  unfold top in E3. cbn in E3. injection E3 as <- <-. cbn [tokens_] in E4.
  apply link_last in E4 as (st0 & E4). apply visit_where_vars in E4 as (vs & E4). exists vs. rewrite <- E4.
  unfold top in E5. destruct (build_info_stack_ st4) eqn:Es; [done |]. injection E5 as <- <-.
  unfold pop in E6. rewrite Es in E6. by injection E6 as <-.
Qed.

(** A statement whose tokens the compiler leaves as they are. *)
Lemma prepared_vars b s ts fuel : token_list_ s = ts -> compiled (dialect_of b) ts = ts -> cost ts = 1 -> 1 <= fuel ->
  stmt_ok (dialect_of b) (open_quote b) (close_quote b) (escapes b) (same_placeholders b) PREPARED ts = true ->
  exists vs, prepared_stmt b fuel s = Ok (Stmt vs [] false)
    /\ (exists sv, length vs = sum_vars (token_vars PREPARED sv) ts)
    /\ (forall f op v ts', ts = ts' ++ [where_tok (cond_scalar f op v)] -> exists vs', vs = vs' ++ [name f]).
Proof.
  intros <- Hc Hk Hf Hs. destruct fuel as [|fuel]; [lia |].
  set (st0 := mk_dstate PREPARED [] [] [] (mk_flags false false)).
  destruct (continue_build_lex (d := dialect_of b) PREPARED (S fuel) (token_list_ s) 0 ltac:(lia) Hs st0 eq_refl eq_refl)
    as (text & st' & E & _ & _ & Hn & _).
  destruct (law_compile (d := dialect_of b) PREPARED (flags st0) (token_list_ s) Hs) as ((fl & El) & _).
  exists (host_vars_ st'). split_and!.
  - unfold prepared_stmt, prepare, build, Dialect.bind. change (mk_dstate PREPARED _ _ _ _) with st0. by rewrite E.
  - eexists. rewrite Hn. cbn [Nat.add stmt_vars]. by rewrite Hc.
  - intros f op v ts' Ht. rewrite Hc, Ht in El. rewrite Ht in E. by eapply continue_build_where.
Qed.

(** *** The statements of a table *)
Section statements.
Variables (b : backend) (fuel : nat).
Context (Hfuel : 1 <= fuel).

Lemma sum_vars_cons {A} (f : A -> nat) a l : sum_vars f (a :: l) = f a + sum_vars f l.
Proof. reflexivity. Qed.

Lemma insert_vars table fs s : forallb keyed fs = true ->
  token_list_ s = [insert_tok table; columns_tok (column_serializer WITH_BRACKETS fs); values_tok (value_serializer fs)] ->
  exists vs, prepared_stmt b fuel s = Ok (Stmt vs [] false) /\ length vs = length (column_names fs).
Proof.
  intros Hk Hs. destruct (prepared_vars b s _ fuel Hs) as (vs & E & (sv & Hn) & _); [by destruct b | done | done | |].
  - cbn. rewrite names_safe. cbn. unfold value_serializer. by induction (fs ≫= value_field).
  - exists vs. split; [done |]. rewrite Hn, !sum_vars_cons. cbn [token_vars columns_ column_serializer].
    rewrite <- values_length by done. unfold value_serializer.
    assert (sum_vars (cols_vars PREPARED) (fs ≫= named_field) = 0) as ->
      by (rewrite named_columns; by induction (column_names fs)).
    induction (fs ≫= value_field) as [|v l IH]; [done |]. rewrite fmap_cons, sum_vars_cons. cbn in IH |- *. lia.
Qed.

Lemma update_vars table fs s : forallb keyed fs = true ->
  token_list_ s = [update_tok; tablename_tok table; set_tok; columns_tok (mk_columns (value_columns fs) WITHOUT_BRACKETS);
                   where_tok (cond_scalar (resolve_column fs) EQUAL (sc_int 1))] ->
  exists vs, prepared_stmt b fuel s = Ok (Stmt vs [] false) /\ length vs = S (length (column_names fs))
    /\ vs !! length (column_names fs) = Some (name (resolve_column fs)).
Proof.
  intros Hk Hs. destruct (prepared_vars b s _ fuel Hs) as (vs & E & (sv & Hn) & Hw); [by destruct b | done | done | |].
  { cbn. by rewrite assignments_safe. }
  destruct (Hw _ _ _ [_; _; _; _] eq_refl) as (vs' & ->).
  destruct (assignments_lx b fs Hk) as [_ Hv]. rewrite !sum_vars_cons in Hn. cbn [token_vars columns_ cond_vars] in Hn.
  rewrite Hv, length_app in Hn. cbn in Hn. exists (vs' ++ [name (resolve_column fs)]). split; [done |]. rewrite length_app. cbn.
  assert (length (column_names fs) = length vs') as -> by lia. split; [lia |]. by rewrite list_lookup_middle.
Qed.

Lemma delete_vars table fs s :
  token_list_ s = [remove_tok; from_tok table; where_tok (cond_scalar (resolve_column fs) EQUAL (sc_int 1))] ->
  prepared_stmt b fuel s = Ok (Stmt [name (resolve_column fs)] [] false).
Proof.
  intros Hs. destruct (prepared_vars b s _ fuel Hs) as (vs & E & (sv & Hn) & Hw); [by destruct b | done | done | done |].
  destruct (Hw _ _ _ [_; _] eq_refl) as (vs' & ->). rewrite length_app in Hn. cbn in Hn.
  by destruct vs'; [| cbn in Hn; lia].
Qed.
End statements.

(** Objects of one class have the same columns. *)
Lemma erased_columns fs fs' : erase <$> fs = erase <$> fs' ->
  column_names fs = column_names fs' /\ resolve_column fs = resolve_column fs' /\ forallb keyed fs = forallb keyed fs'.
Proof.
  assert (forall fs, column_names (erase <$> fs) = column_names fs /\ resolve_column (erase <$> fs) = resolve_column fs
            /\ forallb keyed (erase <$> fs) = forallb keyed fs) as H.
  { clear. intros fs. split_and!.
    - unfold column_names. f_equal. induction fs as [|f fs IH]; [done |]. rewrite fmap_cons, !bind_cons, IH. by destruct f.
    - unfold resolve_column. f_equal. generalize ([] : str). induction fs as [|f fs IH]; intros col; [done |]. cbn.
      rewrite IH. by destruct f.
    - induction fs as [|f fs IH]; [done |]. cbn. rewrite IH. by destruct f as [| | | | | | ? ? [] | ? ? [] |]. }
  intros E. destruct (H fs) as (<- & <- & <-). destruct (H fs') as (<- & <- & <-). by rewrite E.
Qed.

(** C20: The values of an object meet the placeholders of its columns. A table
    prepares its statements with a default object of the class; for any
    object of the class and any backend, binding it for INSERT hands the
    binder of the backend, in the order of the columns and at positions 0 to
    n-1, exactly the values of the object's fields, for references the keys
    of the objects referred to, with the flag [bind_null_] set for exactly
    the references that are empty; the statement has as many host variables.
    For UPDATE the primary key follows at position n, for DELETE it is the
    only value, and these are the positions of the host variable that has
    its name. The class has one primary key, of the type of the identifier,
    references to classes with primary keys, and a size for each array of
    characters ([chars_bound_as_bool]). What the backends make of the flag is
    another matter: they do not read it ([null_not_stored]). *)
Theorem table_binds b table fs0 fs key id fuel : 1 <= fuel -> erase <$> fs = erase <$> fs0 ->
  forallb bindable fs = true -> omap key_name fs = [key] -> forallb (similar id) fs = true ->
  let n := length (omap field_name fs0) in
  let values := imap (fun i e => (i, e.2)) (entries fs) in
  (entries fs).*1 = omap field_name fs0
  /\ exists p si su sd, table_prepare table fs0 = Ok p
    /\ prepared_stmt b fuel (insert_ p) = Ok si /\ length (vars si) = n
    /\ received <$> calls (bind_insert fs si) = values
    /\ prepared_stmt b fuel (update_ p) = Ok su /\ length (vars su) = S n /\ vars su !! n = Some key
    /\ (exists s, bind_update fs id su = Ok s /\ received <$> calls s = values ++ [(n, (key_of id, false))])
    /\ prepared_stmt b fuel (delete_ p) = Ok sd /\ vars sd = [key]
    /\ (exists s, bind_delete fs id sd = Ok s /\ received <$> calls s = [(0, (key_of id, false))]).
Proof.
  intros Hf He Hb Hkey Hs n values. destruct (erased_columns _ _ He) as (Hn & Hr & Hk).
  pose proof (one_primary _ _ Hkey) as Hp. pose proof (resolve_column_key _ _ Hkey) as Hc0. rewrite Hr in Hc0.
  subst n. rewrite <- column_names_omap. split; [by rewrite entries_names |].
  assert (forallb keyed fs0 = true) as Hk0.
  { rewrite <- Hk. rewrite forallb_forall in *. intros f Hin. specialize (Hb f Hin). unfold bindable in Hb. by breflect. }
  destruct (table_prepare_tokens table fs0) as (p & Ep & Hi & Hu & Hd & _).
  destruct (insert_vars b fuel Hf table fs0 _ Hk0 Hi) as (vi & Ei & Li).
  destruct (update_vars b fuel Hf table fs0 _ Hk0 Hu) as (vu & Eu & Lu & Ku).
  pose proof (delete_vars b fuel Hf table fs0 _ Hd) as Ed. rewrite Hc0 in Ed. rewrite Hc0 in Ku.
  exists p. eexists _, _, _. split; [exact Ep |]. split; [exact Ei |]. split; [exact Li |].
  split; [| split; [exact Eu |]; split; [exact Lu |]; split; [exact Ku |]; split; [| split; [exact Ed |]; split; [done |]]].
  - destruct (bind_fields_spec fs 0 vi [] Hb) as (cs & E & Hc). unfold bind_insert, bind_object, reset. cbn [vars bind_null_]. by rewrite E.
  - destruct (bind_fields_spec fs 0 vu [] Hb) as (cs & E & Hc). unfold bind_update, bind_object, reset. cbn [vars bind_null_]. rewrite E.
    assert (length (entries fs) = length (column_names fs0)) as Hl by (rewrite <- (length_fmap fst), entries_names, Hn; done). rewrite Hl.
    destruct (identifier_spec fs (length (column_names fs0)) id vu cs) as (c & E2 & Hc2); [done | done | by rewrite Hr, Hc0 |].
    eexists. split; [exact E2 |]. cbn [calls]. by rewrite fmap_app, Hc, fmap_cons, Hc2.
  - destruct (identifier_spec fs 0 id [key] []) as (c & E2 & Hc2); [done | done | by rewrite Hr, Hc0 |].
    eexists. split; [exact E2 |]. cbn. by rewrite Hc2.
Qed.

(** ** sqlite_parameter_binder

    The parameters of an SQLite statement by their number. The functions of
    SQLite take an [int], a 64 bit integer, a [double] or a text; the flag
    for NULL is not read. *)
Inductive sqlite_value :=
| sqlite_integer (z : Z)
| sqlite_double (t : str)
| sqlite_text (s : str).

Definition adjust_index (index : nat) : Z := s32 (Z.of_nat index) + 1.

Definition cut (len : Z) (s : str) : str :=
  take (Z.to_nat (if (len <? Z.of_nat (length s))%Z then len else Z.of_nat (length s))) s.

Definition sqlite_arg (a : bind_arg) : sqlite_value :=
  match a with
  | bind_integer t z =>
    sqlite_integer (if bool_decide (t = type_long_long \/ t = type_unsigned_long_long) then swrap 64 z else s32 z)
  | bind_bool v => sqlite_integer (if v then 1 else 0)
  | bind_floating t => sqlite_double t
  | bind_char_array s len => sqlite_text (cut len s)
  | bind_string s => sqlite_text s
  | bind_sized_string s len => sqlite_text (if (len =? 0)%Z then s else cut len s)
  | bind_time t => sqlite_text t
  | bind_date t => sqlite_text t
  end.

Definition sqlite_bind (m : gmap Z sqlite_value) (c : call) : gmap Z sqlite_value :=
  <[adjust_index (call_index c) := sqlite_arg (call_arg c)]> m.
Definition sqlite_params (cs : list call) : gmap Z sqlite_value := foldl sqlite_bind ∅ cs.

(** What should be stored for a value. *)
Definition sqlite_of (v : value) : option sqlite_value :=
  match v with
  | any_int z => Some (sqlite_integer z)
  | any_bool v => Some (sqlite_integer (if v then 1 else 0))
  | any_float t => Some (sqlite_double t)
  | any_string s | any_time s | any_date s => Some (sqlite_text s)
  | any_empty | any_other => None
  end.

(** The values that survive: small integers where the binder calls
    [sqlite3_bind_int], and texts that are no longer than their size. *)
Definition fits (t : data_type) (z : Z) : bool :=
  let w := if bool_decide (t = type_long_long \/ t = type_unsigned_long_long) then 63%Z else 31%Z in
  ((- 2 ^ w <=? z) && (z <? 2 ^ w))%Z.
Definition arg_fits (a : bind_arg) : bool :=
  match a with
  | bind_integer t z => fits t z
  | bind_char_array s len => (Z.of_nat (length s) <=? len)%Z
  | bind_sized_string s len => ((len =? 0) || (Z.of_nat (length s) <=? len))%Z
  | _ => true
  end.
Definition call_fits (c : call) : bool := arg_fits (call_arg c) && negb (call_null c).
Definition text_fits (s : str) (size : Z) : bool := ((size =? 0) || (Z.of_nat (length s) <=? size))%Z.
Definition key_fits (has_pk : bool) (key : foreign_key) : bool :=
  has_pk && match key with
            | integral_key t v _ => fits t v
            | string_key _ _ => true
            | no_key => false
            end.
Definition field_fits (f : field) : bool :=
  match f with
  | primary_key _ t v => fits t v
  | primary_string _ v size => text_fits v size
  | revision _ v => fits type_unsigned_long_long v
  | attribute _ t (any_int v) _ => fits t v
  | text _ v attr | chars _ v attr => text_fits v (size_ attr)
  | belongs_to _ has_pk key | has_one _ has_pk key => key_fits has_pk key
  | _ => true
  end.

Lemma cut_all s len : (Z.of_nat (length s) <= len)%Z -> cut len s = s.
Proof. intros H. unfold cut. rewrite (proj2 (Z.ltb_ge _ _)) by done. by rewrite Nat2Z.id, take_ge. Qed.

Lemma sqlite_arg_fits a : arg_fits a = true -> Some (sqlite_arg a) = sqlite_of (arg_value a).
Proof.
  destruct a; cbn; intros H; try done; unfold fits in *.
  - do 2 f_equal. case_bool_decide; breflect; apply swrap_small; lia.
  - by rewrite cut_all by lia.
  - destruct (size =? 0)%Z; [done |]. cbn in H. by rewrite cut_all by lia.
Qed.

Lemma text_arg_fits s size : text_fits s size = true -> arg_fits (string_arg s size) = true /\ arg_fits (chars_arg s size) = true.
Proof. unfold text_fits, string_arg, chars_arg. destruct (size =? 0)%Z eqn:E; cbn; [done |]. by rewrite E. Qed.

Lemma bind_field_fits f st : bindable f = true -> field_fits f = true -> bind_null_ st.2 = false ->
  Forall call_fits (calls st.2) -> Forall call_fits (calls (bind_field f st).2) /\ bind_null_ (bind_field f st).2 = false.
Proof.
  destruct st as [pos [vs cs null]]. cbn [snd calls bind_null_]. intros Hb Hf -> Hc. unfold bindable in Hb. breflect.
  assert (forall a, arg_fits a = true -> Forall call_fits (calls (bind_value a (pos, Stmt vs cs false)).2)
            /\ bind_null_ (bind_value a (pos, Stmt vs cs false)).2 = false) as Hv.
  { intros a Ha. split; [| done]. cbn. apply Forall_app. split; [done |]. constructor; [| done]. unfold call_fits. cbn. by rewrite Ha. }
  destruct f; cbn [bind_field]; try (by apply Hv).
  - by apply Hv, text_arg_fits.
  - unfold bind_any. destruct v; try done; by apply Hv.
  - by apply Hv, text_arg_fits.
  - by apply Hv, text_arg_fits.
  - cbn in Hf. unfold key_fits in Hf. breflect. subst. destruct key; try done; by apply Hv.
  - cbn in Hf. unfold key_fits in Hf. breflect. subst. destruct key; try done; by apply Hv.
  - by split.
Qed.

Lemma bind_fields_fit fs st : forallb bindable fs = true -> forallb field_fits fs = true -> bind_null_ st.2 = false ->
  Forall call_fits (calls st.2) -> Forall call_fits (calls (bind_fields fs st).2).
Proof.
  revert st. induction fs as [|f fs IH]; intros st Hb Hf Hn Hc; [done |]. cbn [forallb] in Hb, Hf. breflect.
  destruct (bind_field_fits f st) as [Hc' Hn']; [done.. |]. by apply IH.
Qed.

Lemma sqlite_params_app cs cs' : sqlite_params (cs ++ cs') = foldl sqlite_bind (sqlite_params cs) cs'.
Proof. apply foldl_app. Qed.

(** Calls for the positions of a list of values. *)
Lemma sqlite_params_values cs l : received <$> cs = imap (fun i v => (i, (v, false))) l ->
  Forall call_fits cs -> (Z.of_nat (length l) < 2 ^ 31)%Z ->
  forall i, sqlite_params cs !! (Z.of_nat i + 1)%Z = l !! i ≫= sqlite_of.
Proof.
  revert l. induction cs as [|c cs IH] using rev_ind; intros l H Hf Hl i.
  { by destruct l. }
  destruct l as [|v l _] using rev_ind; [by destruct cs |].
  rewrite fmap_app, imap_app in H. apply app_inj_2 in H as [H Hv]; [| done]. cbn in Hv. rewrite Nat.add_0_r in Hv.
  apply Forall_app in Hf as [Hf Hc]. apply Forall_cons_iff in Hc as [Hc _]. rewrite length_app in Hl. cbn in Hl.
  rewrite sqlite_params_app. cbn [foldl]. unfold sqlite_bind, adjust_index, received, call_fits in *.
  apply Is_true_true in Hc. breflect. injection Hv as -> <- _.
  unfold s32. rewrite swrap_small by lia. destruct (decide (i = length l)) as [-> | Hi].
  - rewrite lookup_insert_eq, list_lookup_middle by done. cbn. by apply sqlite_arg_fits.
  - rewrite lookup_insert_ne, (IH l) by (done || lia). destruct (decide (i < length l)) as [Hlt | Hge].
    + by rewrite lookup_app_l.
    + by rewrite !lookup_ge_None_2 by (rewrite ?length_app; cbn; lia).
Qed.

(** ** postgresql_parameter_binder

    A parameter is a pointer to a C string, null until it is bound; sizes and
    the flag for NULL are not read. An index outside of the vectors is
    undefined behaviour. *)
Fixpoint c_string (s : str) : str :=
  match s with
  | [] => []
  | c :: s => if bool_decide (c = NUL) then [] else c :: c_string s
  end.

Section postgresql.
(** How [std::to_string] prints a floating point number, and [matador::to_string]
    a time. *)
Variables float_text time_text : str -> str.

Definition postgresql_arg (a : bind_arg) : str :=
  match a with
  | bind_integer _ z => to_string_z z
  | bind_bool v => if v then lit "1" else lit "0"
  | bind_floating t => float_text t
  | bind_char_array s _ => c_string s
  | bind_string s => c_string s
  | bind_sized_string s _ => c_string s
  | bind_time t => time_text t
  | bind_date t => t
  end.

Definition postgresql_bind (c : call) (params : list (option str)) : result (list (option str)) :=
  if (call_index c <? length params)%nat then Ok (<[call_index c := Some (postgresql_arg (call_arg c))]> params)
  else Throw (undefined_behaviour "vector index out of range").

Fixpoint postgresql_params (cs : list call) (params : list (option str)) : result (list (option str)) :=
  match cs with
  | [] => Ok params
  | c :: cs => let? params := postgresql_bind c params in postgresql_params cs params
  end.

(** The binder of a statement that was prepared. *)
Definition postgresql_run (s : stmt) : result (list (option str)) :=
  postgresql_params (calls s) (replicate (length (vars s)) None).

Definition postgresql_of (v : value) : str :=
  match v with
  | any_int z => to_string_z z
  | any_bool v => if v then lit "1" else lit "0"
  | any_float t => float_text t
  | any_string s => c_string s
  | any_time t => time_text t
  | any_date t => t
  | any_empty | any_other => []
  end.

Lemma postgresql_params_values cs vs pre : received <$> cs = imap (fun i v => (length pre + i, (v, false))) vs ->
  postgresql_params cs ((Some <$> pre) ++ replicate (length vs) None) = Ok (Some <$> pre ++ (postgresql_of <$> vs)).
Proof.
  revert vs pre. induction cs as [|c cs IH]; intros [|v vs] pre H;
    [cbn; by rewrite !app_nil_r | by rewrite imap_cons in H | done |].
  rewrite imap_cons, Nat.add_0_r in H. cbn in H. injection H as Hi <- _ H.
  cbn [postgresql_params length replicate]. unfold postgresql_bind. rewrite length_app, length_fmap. cbn [length].
  rewrite Hi, (proj2 (Nat.ltb_lt _ _)) by lia. cbn [rbind].
  rewrite insert_app_r_alt, length_fmap, Nat.sub_diag by (rewrite length_fmap; lia).
  change (<[0:=Some (postgresql_arg (call_arg c))]> (None :: replicate (length vs) None))
    with (Some (postgresql_arg (call_arg c)) :: replicate (length vs) (@None str)).
  specialize (IH vs (pre ++ [postgresql_arg (call_arg c)])). rewrite fmap_app, <- !app_assoc in IH. cbn in IH. rewrite IH.
  - do 3 f_equal. cbn. f_equal. by destruct (call_arg c).
  - rewrite H. apply imap_ext. intros i x _. cbn. rewrite length_app. cbn. f_equal. lia.
Qed.
End postgresql.

(** ** What the databases receive *)

(** No reference is empty. *)
Definition reference_set (f : field) : bool :=
  match f with
  | belongs_to _ has_pk _ | has_one _ has_pk _ => has_pk
  | _ => true
  end.

Lemma entries_set fs : forallb reference_set fs = true ->
  entries fs = (fun e : str * (value * bool) => (e.1, (e.2.1, false))) <$> entries fs.
Proof.
  induction fs as [|f fs IH]; [done |]. cbn [forallb]. intros Hr. breflect. specialize (IH ltac:(done)). rewrite entries_cons.
  destruct f as [| | | | | | ? [] ? | ? [] ? |]; try done; cbn [entry]; rewrite ?fmap_cons; cbn; by rewrite <- ?IH.
Qed.

Lemma row_set fs : forallb reference_set fs = true ->
  (row fs).*2 = Some <$> omap snd (row fs) /\ omap snd (row fs) = (entries fs).*2.*1.
Proof.
  intros Hr. unfold row. rewrite (entries_set fs Hr). clear Hr.
  induction (entries fs) as [|e l [IH IH']]; [done |]. rewrite !fmap_cons. cbn [fst snd omap list_omap]. by rewrite fmap_cons, <- IH, <- IH'.
Qed.

Lemma bind_insert_calls fs s : forallb bindable fs = true -> forallb reference_set fs = true -> bind_null_ s = false ->
  exists cs, bind_insert fs s = Stmt (vars s) cs false
    /\ received <$> cs = imap (fun i v => (i, (v, false))) (omap snd (row fs)).
Proof.
  intros Hb Hr Hn. destruct (bind_fields_spec fs 0 (vars s) [] Hb) as (cs & E & Hc).
  exists cs. unfold bind_insert, bind_object, reset. rewrite Hn, E. split; [done |]. destruct (row_set fs Hr) as [_ ->].
  rewrite Hc, (entries_set fs Hr), !imap_fmap. done.
Qed.

(** C34: What SQLite and PostgreSQL receive for an object without empty
    references: PostgreSQL the text of every value of the row, in the order
    of the columns and one for each parameter of the statement; SQLite under
    number i + 1 the value of column i and nothing else, provided that the
    values fit: integers of up to 32 bits where the binder calls
    [sqlite3_bind_int], which is for every type but the two 64 bit ones
    spelled [long long], and texts not longer than the size of their
    column. *)
Theorem parameters_received float_text time_text fs s :
  forallb bindable fs = true -> forallb reference_set fs = true -> bind_null_ s = false ->
  length (vars s) = length (row fs) ->
  postgresql_run float_text time_text (bind_insert fs s)
    = Ok ((fun v => Some (postgresql_of float_text time_text v)) <$> omap snd (row fs))
  /\ (forallb field_fits fs = true -> (Z.of_nat (length (row fs)) < 2 ^ 31)%Z ->
      forall i, sqlite_params (calls (bind_insert fs s)) !! (Z.of_nat i + 1)%Z = ((row fs).*2 !! i ≫= id) ≫= sqlite_of).
Proof.
  intros Hb Hr Hn Hl. destruct (bind_insert_calls fs s Hb Hr Hn) as (cs & E & Hc).
  destruct (row_set fs Hr) as [Hs _].
  assert (length (row fs) = length (omap snd (row fs))) as Hlen by (by rewrite <- (length_fmap snd (row fs)), Hs, length_fmap).
  split.
  - rewrite E. unfold postgresql_run. cbn [vars calls]. rewrite Hl, Hlen.
    pose proof (postgresql_params_values float_text time_text cs (omap snd (row fs)) [] Hc) as Hp. cbn [fmap list_fmap app] in Hp.
    rewrite Hp. f_equal. by rewrite <- list_fmap_compose.
  - intros Hf Hz i. rewrite (sqlite_params_values _ (omap snd (row fs))).
    + rewrite Hs, list_lookup_fmap. by destruct (omap snd (row fs) !! i).
    + by rewrite E.
    + apply (bind_fields_fit fs (0, reset s)); try done.
    + by rewrite <- Hlen.
Qed.

(** *** A person *)
Definition alice : class :=
  [primary_key (lit "id") type_unsigned_long 7; revision (lit "rev") 1;
   text (lit "na`me") (lit "Alice") (mk_attributes 64 UNIQUE_CONSTRAINT);
   attribute (lit "height") type_int (any_int 170) null_attributes;
   belongs_to (lit "department") true (string_key (lit "R & D") 0); has_many (lit "jobs")].

(** Bob has no department. *)
Definition bob : class :=
  [primary_key (lit "id") type_unsigned_long 8; revision (lit "rev") 1;
   text (lit "na`me") (lit "Bob") (mk_attributes 64 UNIQUE_CONSTRAINT);
   attribute (lit "height") type_int (any_int 180) null_attributes;
   belongs_to (lit "department") false (string_key [] 0); has_many (lit "jobs")].

Lemma table_binds_witness :
  exists p su, table_prepare (lit "person") person = Ok p
    /\ prepared_stmt PostgreSQL 1 (update_ p) = Ok su /\ length (vars su) = 6 /\ vars su !! 5 = Some (lit "id")
    /\ exists s, bind_update bob (integral_key type_unsigned_long 8 0) su = Ok s
       /\ received <$> calls s
          = [(0, (any_int 8, false)); (1, (any_int 1, false)); (2, (any_string (lit "Bob"), false));
             (3, (any_int 180, false)); (4, (any_string [], true)); (5, (any_int 8, false))].
Proof.
  destruct (table_binds PostgreSQL (lit "person") person bob (lit "id") (integral_key type_unsigned_long 8 0) 1)
    as (_ & p & si & su & sd & Ep & _ & _ & _ & Eu & Lu & Ku & Bu & _); [lia | done | done | done | done |].
  by exists p, su.
Defined.

Lemma parameters_received_witness :
  let s := Stmt (replicate 5 []) [] false in
  postgresql_run id id (bind_insert alice s)
    = Ok [Some (lit "7"); Some (lit "1"); Some (lit "Alice"); Some (lit "170"); Some (lit "R & D")]
  /\ sqlite_params (calls (bind_insert alice s)) !! 5%Z = Some (sqlite_text (lit "R & D")).
Proof.
  destruct (parameters_received id id alice (Stmt (replicate 5 []) [] false)) as [H1 H2]; [done | done | done | done |].
  split; [exact H1 |]. by apply (H2 eq_refl ltac:(vm_compute; reflexivity) 4).
Defined.

(** *** Where values are lost *)

(** [long], [unsigned long] and [unsigned int] go through [sqlite3_bind_int]:
    a primary key of 2{^32} + 7 becomes 7, and 3000000000 becomes negative. *)
Example sqlite_long_truncated :
  sqlite_params (calls (bind_insert [primary_key (lit "id") type_unsigned_long (2 ^ 32 + 7);
                                     attribute (lit "n") type_unsigned_int (any_int 3000000000) null_attributes]
                          (Stmt [] [] false)))
  = <[2%Z := sqlite_integer (-1294967296)]> {[1%Z := sqlite_integer 7]}.
Proof. by vm_compute. Qed.

(** A reference that is not set is marked as NULL, and stored as the default
    value of the key by SQLite and PostgreSQL. *)
Example null_not_stored :
  let s := bind_insert [belongs_to (lit "department") false (integral_key type_int 0 0)] (Stmt [[]] [] false) in
  received <$> calls s = [(0, (any_int 0, true))]
  /\ sqlite_params (calls s) = {[1%Z := sqlite_integer 0]}
  /\ postgresql_run id id s = Ok [Some (lit "0")].
Proof. by vm_compute. Qed.

(** An array of characters without a size is bound as a truth value. *)
Example chars_bound_as_bool :
  received <$> calls (bind_insert [chars (lit "name") (lit "Alice") null_attributes] (Stmt [[]] [] false))
  = [(0, (any_bool true, false))].
Proof. by vm_compute. Qed.

(** An identifier of another type than the primary key is an error. *)
Example other_key_type :
  bind_delete [primary_key (lit "id") type_int 1] (integral_key type_long 1 0) (Stmt [lit "id"] [] false)
  = Throw (object_exception "identifier types aren't equal").
Proof. by vm_compute. Qed.
End ParameterBinder.
