(* ===== verification/Http.v ===== *)
(** * HTTP vocabulary and message records

    Model of the tables and records both HTTP parsers share:
    include/matador/http/http.hpp and src/http/http.cpp (methods, status
    codes and their texts), src/http/mime_types.cpp,
    src/http/request.cpp and src/http/response.cpp (the request and response
    objects and their wire form). [std::unordered_map] fields are [gmap]s;
    where the code iterates one of them, the order is a parameter: any
    enumeration of the map. *)

From S2P Require Import Prelude.

Local Open Scope cxx_scope.

Module Http.

Inductive method_t := UNKNOWN | GET | POST | PUT | DEL | OPTIONS | HEAD.

#[export] Instance method_t_eq_dec : EqDecision method_t.
Proof. solve_decision. Defined.

Inductive status_t :=
| OK | CREATED | ACCEPTED | NO_CONTENT
| MULTIPLE_CHOICES | MOVED_PERMANENTLY | MOVED_TEMPORARILY | NOT_MODIFIED
| BAD_REQUEST | UNAUTHORIZED | FORBIDDEN | NOT_FOUND
| INTERNAL_SERVER_ERROR | NOT_IMPLEMENTED | BAD_GATEWAY | SERVICE_UNAVAILABLE.

#[export] Instance status_t_eq_dec : EqDecision status_t.
Proof. solve_decision. Defined.

(** The enumerators' values. *)
Definition status_code (s : status_t) : Z :=
  match s with
  | OK => 200 | CREATED => 201 | ACCEPTED => 202 | NO_CONTENT => 204
  | MULTIPLE_CHOICES => 300 | MOVED_PERMANENTLY => 301 | MOVED_TEMPORARILY => 302
  | NOT_MODIFIED => 304
  | BAD_REQUEST => 400 | UNAUTHORIZED => 401 | FORBIDDEN => 403 | NOT_FOUND => 404
  | INTERNAL_SERVER_ERROR => 500 | NOT_IMPLEMENTED => 501 | BAD_GATEWAY => 502
  | SERVICE_UNAVAILABLE => 503
  end.

Definition method_string_map : list (method_t * str) :=
  [(GET, lit "GET"); (POST, lit "POST"); (PUT, lit "PUT"); (DEL, lit "DELETE");
   (OPTIONS, lit "OPTIONS"); (HEAD, lit "HEAD"); (UNKNOWN, lit "UNKNOWN")].

Definition string_method_map : list (str * method_t) :=
  [(lit "GET", GET); (lit "POST", POST); (lit "PUT", PUT); (lit "DELETE", DEL);
   (lit "OPTIONS", OPTIONS); (lit "HEAD", HEAD); (lit "UNKNOWN", UNKNOWN)].

Definition CRLF : str := [CR; LF].

Definition request_status_string_map : list (status_t * str) :=
  [(OK, lit "HTTP/1.1 200 OK" ++ CRLF);
   (CREATED, lit "HTTP/1.1 201 Created" ++ CRLF);
   (ACCEPTED, lit "HTTP/1.1 202 Accepted" ++ CRLF);
   (NO_CONTENT, lit "HTTP/1.1 204 No Content" ++ CRLF);
   (MULTIPLE_CHOICES, lit "HTTP/1.1 300 Multiple Choices" ++ CRLF);
   (MOVED_PERMANENTLY, lit "HTTP/1.1 301 Moved Permanently" ++ CRLF);
   (MOVED_TEMPORARILY, lit "HTTP/1.1 302 Moved Temporarily" ++ CRLF);
   (NOT_MODIFIED, lit "HTTP/1.1 304 Not Modified" ++ CRLF);
   (BAD_REQUEST, lit "HTTP/1.1 400 Bad Request" ++ CRLF);
   (UNAUTHORIZED, lit "HTTP/1.1 401 Unauthorized" ++ CRLF);
   (FORBIDDEN, lit "HTTP/1.1 403 Forbidden" ++ CRLF);
   (NOT_FOUND, lit "HTTP/1.1 404 Not Found" ++ CRLF);
   (INTERNAL_SERVER_ERROR, lit "HTTP/1.1 500 Internal Server error" ++ CRLF);
   (NOT_IMPLEMENTED, lit "HTTP/1.1 501 Not Implemented" ++ CRLF);
   (BAD_GATEWAY, lit "HTTP/1.1 502 Bad Gateway" ++ CRLF);
   (SERVICE_UNAVAILABLE, lit "HTTP/1.1 503 Service unavailable" ++ CRLF)].

Definition status_string_map : list (status_t * str) :=
  [(OK, lit "OK"); (CREATED, lit "Created"); (ACCEPTED, lit "Accepted");
   (NO_CONTENT, lit "No Content"); (MULTIPLE_CHOICES, lit "Multiple Choices");
   (MOVED_PERMANENTLY, lit "Moved Permanently"); (MOVED_TEMPORARILY, lit "Moved Temporarily");
   (NOT_MODIFIED, lit "Not Modified"); (BAD_REQUEST, lit "Bad Request");
   (UNAUTHORIZED, lit "Unauthorized"); (FORBIDDEN, lit "Forbidden"); (NOT_FOUND, lit "Not Found");
   (INTERNAL_SERVER_ERROR, lit "Internal Server error"); (NOT_IMPLEMENTED, lit "Not Implemented");
   (BAD_GATEWAY, lit "Bad Gateway"); (SERVICE_UNAVAILABLE, lit "Service unavailable")].

Definition string_status_map : list (str * status_t) :=
  [(lit "200", OK); (lit "201", CREATED); (lit "202", ACCEPTED); (lit "204", NO_CONTENT);
   (lit "300", MULTIPLE_CHOICES); (lit "301", MOVED_PERMANENTLY); (lit "302", MOVED_TEMPORARILY);
   (lit "304", NOT_MODIFIED); (lit "400", BAD_REQUEST); (lit "401", UNAUTHORIZED);
   (lit "403", FORBIDDEN); (lit "404", NOT_FOUND); (lit "500", INTERNAL_SERVER_ERROR);
   (lit "501", NOT_IMPLEMENTED); (lit "502", BAD_GATEWAY); (lit "503", SERVICE_UNAVAILABLE)].

(** [http::to_string(method_t)], [http::to_method]. *)
Definition method_to_string (m : method_t) : result str := assoc_at m method_string_map.
Definition to_method (s : str) : method_t := default UNKNOWN (assoc s string_method_map).

(** [http::to_request_string], [http::to_string(status_t)], [http::to_status]. *)
Definition to_request_string (s : status_t) : result str := assoc_at s request_status_string_map.
Definition status_to_string (s : status_t) : result str := assoc_at s status_string_map.
Definition to_status (s : str) : result status_t := assoc_at s string_status_map.

Record version := Version { major : Z; minor : Z }.
Definition version0 : version := Version 0 0.

Record content := Content {
  length_ : str; type_ : str; md5_ : str; language_ : str }.
Definition content0 : content := Content (lit "0") [] [] [].

Abbreviation t_string_param_map := (gmap (list ascii) (list ascii)).

(** ** Requests *)
Record request := Request {
  method_ : method_t;
  url_ : str;
  query_ : str;
  fragment_ : str;
  version_ : version;
  host_ : str;
  content_ : content;
  headers_ : t_string_param_map;
  path_params_ : t_string_param_map;
  query_params_ : t_string_param_map;
  form_data_ : t_string_param_map;
  body_ : str }.

Definition request0 : request :=
  Request UNKNOWN [] [] [] version0 [] content0 ∅ ∅ ∅ ∅ [].

Definition set_method (m : method_t) (r : request) : request :=
  Request m (url_ r) (query_ r) (fragment_ r) (version_ r) (host_ r) (content_ r) (headers_ r)
          (path_params_ r) (query_params_ r) (form_data_ r) (body_ r).
Definition set_url (u : str) (r : request) : request :=
  Request (method_ r) u (query_ r) (fragment_ r) (version_ r) (host_ r) (content_ r) (headers_ r)
          (path_params_ r) (query_params_ r) (form_data_ r) (body_ r).
Definition set_fragment (f : str) (r : request) : request :=
  Request (method_ r) (url_ r) (query_ r) f (version_ r) (host_ r) (content_ r) (headers_ r)
          (path_params_ r) (query_params_ r) (form_data_ r) (body_ r).
Definition set_version (v : version) (r : request) : request :=
  Request (method_ r) (url_ r) (query_ r) (fragment_ r) v (host_ r) (content_ r) (headers_ r)
          (path_params_ r) (query_params_ r) (form_data_ r) (body_ r).
Definition set_host (h : str) (r : request) : request :=
  Request (method_ r) (url_ r) (query_ r) (fragment_ r) (version_ r) h (content_ r) (headers_ r)
          (path_params_ r) (query_params_ r) (form_data_ r) (body_ r).
Definition set_content (c : content) (r : request) : request :=
  Request (method_ r) (url_ r) (query_ r) (fragment_ r) (version_ r) (host_ r) c (headers_ r)
          (path_params_ r) (query_params_ r) (form_data_ r) (body_ r).
Definition set_headers (h : t_string_param_map) (r : request) : request :=
  Request (method_ r) (url_ r) (query_ r) (fragment_ r) (version_ r) (host_ r) (content_ r) h
          (path_params_ r) (query_params_ r) (form_data_ r) (body_ r).
Definition set_path_params (p : t_string_param_map) (r : request) : request :=
  Request (method_ r) (url_ r) (query_ r) (fragment_ r) (version_ r) (host_ r) (content_ r) (headers_ r)
          p (query_params_ r) (form_data_ r) (body_ r).
Definition set_query_params (p : t_string_param_map) (r : request) : request :=
  Request (method_ r) (url_ r) (query_ r) (fragment_ r) (version_ r) (host_ r) (content_ r) (headers_ r)
          (path_params_ r) p (form_data_ r) (body_ r).
Definition set_form_data (p : t_string_param_map) (r : request) : request :=
  Request (method_ r) (url_ r) (query_ r) (fragment_ r) (version_ r) (host_ r) (content_ r) (headers_ r)
          (path_params_ r) (query_params_ r) p (body_ r).
Definition set_body (b : str) (r : request) : request :=
  Request (method_ r) (url_ r) (query_ r) (fragment_ r) (version_ r) (host_ r) (content_ r) (headers_ r)
          (path_params_ r) (query_params_ r) (form_data_ r) b.

(** Header names the code compares with or writes. *)
Definition HOST : str := lit "Host".
Definition CONTENT_TYPE : str := lit "Content-Type".
Definition CONTENT_LENGTH : str := lit "Content-Length".
Definition CONTENT_MD5 : str := lit "Content-MD5".

(** ** Mime types *)
Inductive mime_type :=
| TYPE_IMAGE_GIF | TYPE_IMAGE_JPEG | TYPE_IMAGE_PNG | TYPE_TEXT_HTML | TYPE_TEXT_PLAIN
| TYPE_TEXT_XML | TYPE_TEXT_CSS | TYPE_APPLICATION_JSON | TYPE_APPLICATION_GZIP
| TYPE_APPLICATION_ZIP | TYPE_APPLICATION_JAVASCRIPT | TYPE_APPLICATION_X_WWW_FORM_URLENCODED.

#[export] Instance mime_type_eq_dec : EqDecision mime_type.
Proof. solve_decision. Defined.

Definition TEXT_PLAIN : str := lit "text/plain".
Definition APPLICATION_X_WWW_FORM_URLENCODED : str := lit "application/x-www-form-urlencoded".

Definition extension_mime_type_map : list (str * str) :=
  [(lit "gif", lit "image/gif"); (lit "jpg", lit "image/jpeg"); (lit "jpeg", lit "image/jpeg");
   (lit "jpe", lit "image/jpeg"); (lit "png", lit "image/png"); (lit "html", lit "text/html");
   (lit "htm", lit "text/html"); (lit "shtml", lit "text/html"); (lit "txt", TEXT_PLAIN);
   (lit "xml", lit "text/xml"); (lit "css", lit "text/css"); (lit "json", lit "application/json");
   (lit "gz", lit "application/gzip"); (lit "zip", lit "application/zip");
   (lit "js", lit "application/javascript")].

Definition mime_type_map : list (mime_type * str) :=
  [(TYPE_IMAGE_GIF, lit "image/gif"); (TYPE_IMAGE_JPEG, lit "image/jpeg");
   (TYPE_IMAGE_PNG, lit "image/png"); (TYPE_TEXT_HTML, lit "text/html");
   (TYPE_TEXT_PLAIN, TEXT_PLAIN); (TYPE_TEXT_XML, lit "text/xml"); (TYPE_TEXT_CSS, lit "text/css");
   (TYPE_APPLICATION_JSON, lit "application/json"); (TYPE_APPLICATION_GZIP, lit "application/gzip");
   (TYPE_APPLICATION_ZIP, lit "application/zip");
   (TYPE_APPLICATION_JAVASCRIPT, lit "application/javascript")].

Definition from_file_extension (ext : str) : str := default TEXT_PLAIN (assoc ext extension_mime_type_map).
Definition from_type (t : mime_type) : str := default TEXT_PLAIN (assoc t mime_type_map).

(** [request(method, host, url)], [add_header], [remove_header], [body(content)]. *)
Definition make_request (m : method_t) (host url : str) : request :=
  set_headers (map_insert_new HOST host ∅) (set_host host (set_url url (set_method m request0))).
Definition add_header (k v : str) (r : request) : bool * request :=
  (bool_decide (headers_ r !! k = None), set_headers (map_insert_new k v (headers_ r)) r).
Definition remove_header (k : str) (r : request) : bool * request :=
  (bool_decide (is_Some (headers_ r !! k)), set_headers (delete k (headers_ r)) r).
Definition with_body (b : str) (r : request) : request :=
  set_content (Content (to_string_u (Z.of_nat (length b))) TEXT_PLAIN (md5_ (content_ r)) (language_ (content_ r)))
    (set_body b r).

(** One header line as written to the socket. *)
Definition header_line (kv : str * str) : str := kv.1 ++ lit ": " ++ kv.2 ++ CRLF.

(** [request::to_buffers], the buffers joined; [hs] is the order in which the
    map of headers is walked. *)
Definition request_to_buffers (hs : list (str * str)) (r : request) : result str :=
  let? m := method_to_string (method_ r) in
  Ok (m ++ lit " " ++ url_ r ++ lit " " ++ lit "HTTP/1.1" ++ CRLF
      ++ concat (header_line <$> hs)
      ++ (if bool_decide (body_ r = []) then []
          else header_line (CONTENT_LENGTH, length_ (content_ r))
               ++ header_line (CONTENT_TYPE, type_ (content_ r)))
      ++ CRLF ++ body_ r).

(** ** Responses *)
Record response := Response {
  rversion : version;
  rcontent : content;
  status_ : status_t;
  rheaders : t_string_param_map;
  rbody : str }.

Definition response0 : response := Response version0 content0 OK ∅ [].

Definition set_rversion (v : version) (r : response) : response :=
  Response v (rcontent r) (status_ r) (rheaders r) (rbody r).
Definition set_rcontent (c : content) (r : response) : response :=
  Response (rversion r) c (status_ r) (rheaders r) (rbody r).
Definition set_status (s : status_t) (r : response) : response :=
  Response (rversion r) (rcontent r) s (rheaders r) (rbody r).
Definition set_rheaders (h : t_string_param_map) (r : response) : response :=
  Response (rversion r) (rcontent r) (status_ r) h (rbody r).
Definition set_rbody (b : str) (r : response) : response :=
  Response (rversion r) (rcontent r) (status_ r) (rheaders r) b.

(** [response::create(status)]; the formatted current time is an argument. *)
Definition create (now : str) (s : status_t) : response :=
  Response (Version 1 1) content0 s
    (map_insert_new (lit "Connection") (lit "Closed")
      (map_insert_new (lit "Server") (lit "Matador/0.7.0")
        (map_insert_new (lit "Date") now ∅))) [].

(** [response::create(status, body, type)] and [response::ok(body, type)]. *)
Definition create_body (now : str) (s : status_t) (body : str) (t : mime_type) : response :=
  let r := create now s in
  set_rcontent (Content (to_string_u (Z.of_nat (length body))) (from_type t)
                        (md5_ (rcontent r)) (language_ (rcontent r)))
    (set_rbody body r).
Definition ok_response (now body : str) (t : mime_type) : response := create_body now OK body t.
Definition no_content (now : str) : response := create now NO_CONTENT.
Definition not_found (now : str) : response := create now NOT_FOUND.
Definition bad_request (now : str) : response := create now BAD_REQUEST.
Definition redirect (now location : str) : response :=
  let r := create now MOVED_TEMPORARILY in
  set_rheaders (map_insert_new (lit "Location") location (rheaders r)) r.

(** [response::to_buffers], the buffers joined. *)
Definition response_to_buffers (hs : list (str * str)) (r : response) : result str :=
  let? line := to_request_string (status_ r) in
  Ok (line ++ concat (header_line <$> hs)
      ++ (if bool_decide (rbody r = []) then []
          else header_line (CONTENT_LENGTH, length_ (rcontent r))
               ++ header_line (CONTENT_TYPE, type_ (rcontent r)))
      ++ CRLF ++ rbody r).

(** [response::to_string]: the same wire form built with stream inserts. *)
Definition response_to_string (hs : list (str * str)) (r : response) : result str :=
  let? text := status_to_string (status_ r) in
  Ok (lit "HTTP/" ++ to_string_z (major (rversion r)) ++ lit "." ++ to_string_z (minor (rversion r))
      ++ lit " " ++ to_string_z (status_code (status_ r)) ++ lit " " ++ text ++ CRLF
      ++ concat (header_line <$> hs)
      ++ (if bool_decide (rbody r = []) then []
          else header_line (CONTENT_LENGTH, length_ (rcontent r))
               ++ header_line (CONTENT_TYPE, type_ (rcontent r)))
      ++ CRLF ++ rbody r).

(** ** Properties of the tables *)

Lemma to_method_to_string m s : method_to_string m = Ok s -> to_method s = m.
Proof. destruct m; intros [= <-]; reflexivity. Qed.

Lemma method_to_string_total m : exists s, method_to_string m = Ok s /\ s <> [] /\ Forall (fun c => isupper c = true) s.
Proof. destruct m; eexists; (split; [reflexivity |]); (split; [done |]); repeat constructor. Qed.

Lemma to_status_code s : to_status (to_string_z (status_code s)) = Ok s.
Proof. destruct s; reflexivity. Qed.

(** Both renderings of a version 1.1 response are the same bytes: the
    prepared status line of [to_buffers] is what [to_string] assembles. *)
Lemma to_string_is_to_buffers hs r :
  rversion r = Version 1 1 -> response_to_string hs r = response_to_buffers hs r.
Proof.
  intros Hv. unfold response_to_string, response_to_buffers. rewrite Hv.
  destruct (status_ r); reflexivity.
Qed.

End Http.
