(* ===== verification/RequestParser.v ===== *)
(** * The HTTP request parser

    Model of [request_parser] (include/matador/http/request_parser.hpp,
    src/http/request_parser.cpp): a character-driven state machine that is fed
    the bytes of a connection as they arrive. One definition per handler of
    the source, the dispatch loop, the body handling and the form decoder.
    The position in the message is the suffix that is still unread. *)

From S2P Require Import Prelude Http.

Local Open Scope cxx_scope.

Module RequestParser.
Import Http.

Inductive return_t := INVALID | PARTIAL | FINISH.

#[export] Instance return_t_eq_dec : EqDecision return_t.
Proof. solve_decision. Defined.

Inductive state_t :=
| METHOD | URL_PATH | URL_QUERY_FIELD | URL_QUERY_VALUE | URL_FRAGMENT
| VERSION | MAJOR_VERSION | MINOR_VERSION
| HEADER | HEADER_KEY | HEADER_VALUE_BEGIN | HEADER_VALUE | HEADER_NEWLINE | HEADER_FINISH
| BODY.

#[export] Instance state_t_eq_dec : EqDecision state_t.
Proof. solve_decision. Defined.

Inductive hex_parse_t := HEX_FIRST | HEX_SECOND | HEX_FINISHED.

#[export] Instance hex_parse_t_eq_dec : EqDecision hex_parse_t.
Proof. solve_decision. Defined.

Record request_parser := Parser {
  state_ : state_t;
  http_prefix_index_ : nat;
  current_method_ : str;
  current_key_ : str;
  current_value_ : str;
  current_query_field_ : str;
  current_query_value_ : str;
  blanks_ : str;
  skip_blanks_ : bool;
  hex_parse_state_ : hex_parse_t;
  hex_str_ : str }.

Definition parser0 : request_parser := Parser METHOD 0 [] [] [] [] [] [] false HEX_FINISHED [].

Definition set_state (s : state_t) (p : request_parser) : request_parser :=
  Parser s (http_prefix_index_ p) (current_method_ p) (current_key_ p) (current_value_ p)
    (current_query_field_ p) (current_query_value_ p) (blanks_ p) (skip_blanks_ p)
    (hex_parse_state_ p) (hex_str_ p).
Definition set_prefix_index (n : nat) (p : request_parser) : request_parser :=
  Parser (state_ p) n (current_method_ p) (current_key_ p) (current_value_ p)
    (current_query_field_ p) (current_query_value_ p) (blanks_ p) (skip_blanks_ p)
    (hex_parse_state_ p) (hex_str_ p).
Definition set_current_method (m : str) (p : request_parser) : request_parser :=
  Parser (state_ p) (http_prefix_index_ p) m (current_key_ p) (current_value_ p)
    (current_query_field_ p) (current_query_value_ p) (blanks_ p) (skip_blanks_ p)
    (hex_parse_state_ p) (hex_str_ p).
Definition set_key (k : str) (p : request_parser) : request_parser :=
  Parser (state_ p) (http_prefix_index_ p) (current_method_ p) k (current_value_ p)
    (current_query_field_ p) (current_query_value_ p) (blanks_ p) (skip_blanks_ p)
    (hex_parse_state_ p) (hex_str_ p).
Definition set_value (v : str) (p : request_parser) : request_parser :=
  Parser (state_ p) (http_prefix_index_ p) (current_method_ p) (current_key_ p) v
    (current_query_field_ p) (current_query_value_ p) (blanks_ p) (skip_blanks_ p)
    (hex_parse_state_ p) (hex_str_ p).
Definition set_query_field (f : str) (p : request_parser) : request_parser :=
  Parser (state_ p) (http_prefix_index_ p) (current_method_ p) (current_key_ p) (current_value_ p)
    f (current_query_value_ p) (blanks_ p) (skip_blanks_ p) (hex_parse_state_ p) (hex_str_ p).
Definition set_query_value (v : str) (p : request_parser) : request_parser :=
  Parser (state_ p) (http_prefix_index_ p) (current_method_ p) (current_key_ p) (current_value_ p)
    (current_query_field_ p) v (blanks_ p) (skip_blanks_ p) (hex_parse_state_ p) (hex_str_ p).
Definition set_blanks (b : str) (p : request_parser) : request_parser :=
  Parser (state_ p) (http_prefix_index_ p) (current_method_ p) (current_key_ p) (current_value_ p)
    (current_query_field_ p) (current_query_value_ p) b (skip_blanks_ p) (hex_parse_state_ p) (hex_str_ p).
Definition set_skip_blanks (b : bool) (p : request_parser) : request_parser :=
  Parser (state_ p) (http_prefix_index_ p) (current_method_ p) (current_key_ p) (current_value_ p)
    (current_query_field_ p) (current_query_value_ p) (blanks_ p) b (hex_parse_state_ p) (hex_str_ p).
Definition set_hex_state (h : hex_parse_t) (p : request_parser) : request_parser :=
  Parser (state_ p) (http_prefix_index_ p) (current_method_ p) (current_key_ p) (current_value_ p)
    (current_query_field_ p) (current_query_value_ p) (blanks_ p) (skip_blanks_ p) h (hex_str_ p).
Definition set_hex_str (h : str) (p : request_parser) : request_parser :=
  Parser (state_ p) (http_prefix_index_ p) (current_method_ p) (current_key_ p) (current_value_ p)
    (current_query_field_ p) (current_query_value_ p) (blanks_ p) (skip_blanks_ p) (hex_parse_state_ p) h.

Definition URL_SPECIAL_CHAR : str := lit "-._~:/?#[]@!$&'()*+,;=".
Definition HEX_CHAR : str := lit "ABCDEF0123456789".
Definition HTTP_VERSION_PREFIX : str := lit "HTTP".
Definition HTTP_VERSION_PREFIX_LEN : nat := length HTTP_VERSION_PREFIX.

Definition ceq (a b : ascii) : bool := bool_decide (a = b).

(** ** Character handlers: the returned flag is the handler's return value. *)

Definition apply_method (m : str) (r : request) : request := set_method (to_method m) r.

Definition parse_method (c : ascii) (p : request_parser) (r : request) : bool * request_parser * request :=
  if isupper c then (true, set_current_method (current_method_ p ++ [c]) p, r)
  else if ceq c " " then
    (true, set_state URL_PATH (set_current_method [] p), apply_method (current_method_ p) r)
  else (false, p, r).

Definition is_url_char (c : ascii) : bool := isalnum c || strchr URL_SPECIAL_CHAR c.
Definition is_hex_char (c : ascii) : bool := isalnum c || strchr HEX_CHAR c.

Definition parse_url_path (c : ascii) (p : request_parser) (r : request) : bool * request_parser * request :=
  if ceq c "?" then (true, set_state URL_QUERY_FIELD (set_query_field [] p), r)
  else if is_url_char c then (true, p, set_url (url_ r ++ [c]) r)
  else if ceq c " " then (true, set_state VERSION (set_prefix_index 0 p), r)
  else (false, p, r).

Definition parse_url_query_field (c : ascii) (p : request_parser) : bool * request_parser :=
  if ceq c "=" then (true, set_state URL_QUERY_VALUE p)
  else if is_url_char c && negb (ceq c "?") then
    (true, set_query_field (current_query_field_ p ++ [c]) p)
  else (false, p).

(** [static_cast<char>(std::strtol(hex_str_.c_str(), &err, 16))]: [hex_str_]
    holds no sign or space, so the number is its longest hexadecimal prefix. *)
Definition strtol16 (s : str) : ascii := chr (digits 16 0 0 s).1.1.

Definition flush_query (st : state_t) (p : request_parser) (params : t_string_param_map) :
    request_parser * t_string_param_map :=
  (set_state st (set_query_value [] (set_query_field [] p)),
   map_insert_new (current_query_field_ p) (current_query_value_ p) params).

Definition parse_url_query_value (c : ascii) (p : request_parser) (params : t_string_param_map) :
    bool * request_parser * t_string_param_map :=
  if decide (hex_parse_state_ p = HEX_FIRST) then
    if negb (is_hex_char c) then (false, p, params)
    else (true, set_hex_state HEX_SECOND (set_hex_str (hex_str_ p ++ [c]) p), params)
  else if decide (hex_parse_state_ p = HEX_SECOND) then
    if negb (is_hex_char c) then (false, p, params)
    else
      let h := hex_str_ p ++ [c] in
      (true, set_hex_state HEX_FINISHED
               (set_query_value (current_query_value_ p ++ [strtol16 h]) (set_hex_str h p)), params)
  else if ceq c "%" then (true, set_hex_state HEX_FIRST (set_hex_str [] p), params)
  else if ceq c "&" then
    if decide (hex_parse_state_ p = HEX_FINISHED) then
      let '(p', params') := flush_query URL_QUERY_FIELD p params in (true, p', params')
    else (false, p, params)
  else if ceq c "#" then
    if decide (hex_parse_state_ p = HEX_FINISHED) then
      let '(p', params') := flush_query URL_FRAGMENT p params in (true, p', params')
    else (false, p, params)
  else if ceq c "+" then
    (true, set_query_value (current_query_value_ p ++ [" "%char]) p, params)
  else if is_url_char c && negb (ceq c "?") then
    (true, set_query_value (current_query_value_ p ++ [c]) p, params)
  else if ceq c " " then
    if decide (hex_parse_state_ p = HEX_FINISHED) then
      let '(p', params') := flush_query VERSION p params in (true, set_prefix_index 0 p', params')
    else (false, p, params)
  else (false, p, params).

Definition parse_url_fragment (c : ascii) (p : request_parser) (r : request) : bool * request_parser * request :=
  if is_url_char c then (true, p, set_fragment (fragment_ r ++ [c]) r)
  else if ceq c " " then (true, set_state VERSION (set_prefix_index 0 p), r)
  else (false, p, r).

Definition parse_version (c : ascii) (p : request_parser) : bool * request_parser :=
  if (http_prefix_index_ p <? HTTP_VERSION_PREFIX_LEN)%nat then
    (bool_decide (HTTP_VERSION_PREFIX !! http_prefix_index_ p = Some c),
     set_prefix_index (S (http_prefix_index_ p)) p)
  else if ceq c "/" then (true, set_state MAJOR_VERSION p)
  else (false, p).

Definition parse_major_version (c : ascii) (p : request_parser) (r : request) : bool * request_parser * request :=
  if isdigit c then (true, p, set_version (Version (digit_value c) (minor (version_ r))) r)
  else if ceq c "." then (true, set_state MINOR_VERSION p, r)
  else (false, p, r).

Definition parse_minor_version (c : ascii) (p : request_parser) (r : request) : bool * request_parser * request :=
  if isdigit c then (true, p, set_version (Version (major (version_ r)) (digit_value c)) r)
  else if ceq c CR then (true, set_state HEADER p, r)
  else (false, p, r).

Definition parse_header (c : ascii) (p : request_parser) : bool * request_parser :=
  if ceq c LF then (true, set_state HEADER_KEY (set_value [] (set_key [] p)))
  else (false, p).

Definition parse_header_key (c : ascii) (p : request_parser) : bool * request_parser :=
  if isalnum c || ceq c "-" then (true, set_key (current_key_ p ++ [c]) p)
  else if ceq c ":" then (true, set_state HEADER_VALUE_BEGIN p)
  else (ceq c " ", p).

Definition parse_header_value_begin (c : ascii) (p : request_parser) : bool * request_parser :=
  if ceq c " " then (true, p)
  else if isalnum c || ispunct c then
    (true, set_state HEADER_VALUE (set_value [c] (set_blanks [] p)))
  else (false, p).

Definition parse_header_value (c : ascii) (p : request_parser) : bool * request_parser :=
  if ceq c " " || ceq c TAB then (true, set_blanks (blanks_ p ++ [c]) p)
  else if isalnum c || ispunct c then
    let p1 :=
      if negb (bool_decide (blanks_ p = [])) && negb (skip_blanks_ p)
      then set_blanks [] (set_value (current_value_ p ++ blanks_ p) p)
      else if skip_blanks_ p then set_skip_blanks false (set_blanks [] p)
      else p in
    (true, set_value (current_value_ p1 ++ [c]) p1)
  else if ceq c CR then (true, set_state HEADER_NEWLINE p)
  else (false, p).

Definition insert_header (key value : str) (r : request) : request :=
  let r := set_headers (map_insert_new key value (headers_ r)) r in
  if strcasecmp0 key CONTENT_TYPE then
    set_content (Content (length_ (content_ r)) value (md5_ (content_ r)) (language_ (content_ r))) r
  else if strcasecmp0 key CONTENT_LENGTH then
    set_content (Content value (type_ (content_ r)) (md5_ (content_ r)) (language_ (content_ r))) r
  else if strcasecmp0 key CONTENT_MD5 then
    set_content (Content (length_ (content_ r)) (type_ (content_ r)) value (language_ (content_ r))) r
  else if strcasecmp0 key HOST then set_host value r
  else r.

Definition parse_header_newline (c : ascii) (p : request_parser) (r : request) : bool * request_parser * request :=
  if ceq c LF then (true, p, r)
  else if ceq c " " || ceq c TAB then (true, set_skip_blanks true (set_state HEADER_VALUE p), r)
  else if isalnum c || ispunct c then
    (true, set_state HEADER_KEY (set_key [c] p), insert_header (current_key_ p) (current_value_ p) r)
  else if ceq c CR then
    (true, set_state HEADER_FINISH (set_key [] p), insert_header (current_key_ p) (current_value_ p) r)
  else (false, p, r).

Definition parse_header_finish (c : ascii) (p : request_parser) : bool * request_parser :=
  if ceq c LF then (true, set_state BODY p) else (false, p).

(** ** The dispatch loop *)

(** One iteration: [ret], [finished] and the new state. *)
Definition dispatch (c : ascii) (p : request_parser) (r : request) : bool * bool * request_parser * request :=
  let ro '(ret, p', r') := (ret, false, p', r') in
  let po '(ret, p') := (ret, false, p', r) in
  match state_ p with
  | METHOD => ro (parse_method c p r)
  | URL_PATH => ro (parse_url_path c p r)
  | URL_QUERY_FIELD => po (parse_url_query_field c p)
  | URL_QUERY_VALUE =>
    let '(ret, p', params) := parse_url_query_value c p (query_params_ r) in
    (ret, false, p', set_query_params params r)
  | URL_FRAGMENT => ro (parse_url_fragment c p r)
  | VERSION => po (parse_version c p)
  | MAJOR_VERSION => ro (parse_major_version c p r)
  | MINOR_VERSION => ro (parse_minor_version c p r)
  | HEADER => po (parse_header c p)
  | HEADER_KEY => po (parse_header_key c p)
  | HEADER_VALUE_BEGIN => po (parse_header_value_begin c p)
  | HEADER_VALUE => po (parse_header_value c p)
  | HEADER_NEWLINE => ro (parse_header_newline c p r)
  | HEADER_FINISH =>
    let '(ret, p') := parse_header_finish c p in (ret, ret, p', r)
  | BODY => (false, false, p, r)
  end.

(** How the loop is left: by a [return], by the [break] after the empty line
    (with the unread rest of the message) or at the end of the message. *)
Inductive loop_exit :=
| LReturn (res : return_t)
| LBreak (rest : str)
| LEnd.

Fixpoint parse_loop (msg : str) (p : request_parser) (r : request) : loop_exit * request_parser * request :=
  match msg with
  | [] => (LEnd, p, r)
  | c :: msg' =>
    if ceq c NUL then (LReturn PARTIAL, p, r)
    else
      match dispatch c p r with
      | (false, _, p', r') => (LReturn INVALID, p', r')
      | (true, true, p', r') => (LBreak msg', p', r')
      | (true, false, p', r') => parse_loop msg' p' r'
      end
  end.

(** ** Form data *)

Fixpoint form_loop (body : str) (ret : bool) (p : request_parser) (params : t_string_param_map) :
    bool * request_parser * t_string_param_map :=
  match body with
  | [] => (ret, p, params)
  | c :: body' =>
    if ceq c NUL then (ret, p, params)
    else
      match state_ p with
      | URL_QUERY_FIELD =>
        let '(ret', p') := parse_url_query_field c p in
        if ret' then form_loop body' true p' params else (false, p', params)
      | URL_QUERY_VALUE =>
        let '(ret', p', params') := parse_url_query_value c p params in
        if ret' then form_loop body' true p' params' else (false, p', params')
      | _ => (false, p, params)
      end
  end.

Definition parse_form_data (p : request_parser) (r : request) : bool * request_parser * request :=
  let '(ret, p1, params) := form_loop (body_ r) false (set_state URL_QUERY_FIELD p) (form_data_ r) in
  let params' :=
    if ret && negb (bool_decide (current_query_field_ p1 = []))
    then map_insert_new (current_query_field_ p1) (current_query_value_ p1) params
    else params in
  (ret, set_query_field [] (set_query_field [] p1), set_form_data params' r).

Definition process_body (p : request_parser) (r : request) : request_parser * request :=
  if bool_decide (type_ (content_ r) = APPLICATION_X_WWW_FORM_URLENCODED)
  then let '(_, p', r') := parse_form_data p r in (p', r')
  else (p, r).

(** ** Body *)

(** The block after the loop: [rest] is the message from [++pos] on. *)
Definition parse_body (res : return_t) (rest : str) (p : request_parser) (r : request) :
    result (return_t * request_parser * request) :=
  let? len := stoul (length_ (content_ r)) in
  let missing := u64 (len - Z.of_nat (length (body_ r))) in
  let remaining := Z.of_nat (length rest) in
  if (0 <? missing)%Z then
    let r1 := set_body (body_ r ++ rest) r in
    if (remaining =? missing)%Z then
      let '(p2, r2) := process_body p r1 in
      Ok (FINISH, set_state METHOD p2, r2)
    else if (remaining <? missing)%Z then Ok (PARTIAL, p, r1)
    else Ok (res, p, r1)
  else if (0 <? remaining)%Z then
    Ok (FINISH, set_state METHOD p, set_body rest r)
  else Ok (res, p, r).

Definition has_body (m : method_t) : bool :=
  bool_decide (m = POST) || bool_decide (m = PUT).

(** The tail of [parse], from the test for a body on. *)
Definition parse_finish (res : return_t) (rest : str) (p : request_parser) (r : request) :
    result (return_t * request_parser * request) :=
  let? (res', p', r') :=
    (if bool_decide (state_ p = BODY) && has_body (method_ r)
     then parse_body res rest p r
     else Ok (res, p, r)) in
  Ok (res', if decide (res' = FINISH) then set_state METHOD p' else p', r').

Definition parse (msg : str) (p : request_parser) (r : request) :
    result (return_t * request_parser * request) :=
  let p := set_prefix_index 0 p in
  if bool_decide (state_ p = BODY) then parse_finish PARTIAL msg p r
  else
    match parse_loop msg p r with
    | (LReturn res, p', r') => Ok (res, p', r')
    | (LBreak rest, p', r') => parse_finish FINISH rest p' r'
    | (LEnd, p', r') => parse_finish PARTIAL [] p' r'
    end.

Definition reset (p : request_parser) : request_parser :=
  set_skip_blanks false (set_blanks [] (set_current_method [] (set_value [] (set_key []
    (set_prefix_index 0 (set_state METHOD p)))))).

(** ** Feeding a message in pieces *)

(** [http_prefix_index_] only matters while the version prefix is read: two
    parsers that agree on everything else behave alike. *)
Definition peq (p q : request_parser) : Prop :=
  set_prefix_index 0 p = set_prefix_index 0 q
  /\ (state_ p = VERSION -> http_prefix_index_ p = http_prefix_index_ q).

#[export] Instance peq_equiv : Equivalence peq.
Proof.
  split.
  - by split.
  - intros p q [H1 H2]. split; [done |]. intros H.
    destruct p, q; simplify_eq/=. symmetry. auto.
  - intros p q s [H1 H2] [H3 H4]. split; [congruence |]. intros H.
    destruct p, q, s; simplify_eq/=. rewrite H2, H4; auto.
Qed.

(** Results with equivalent parsers. *)
Abbreviation step_eq := (prod_relation (prod_relation (prod_relation (=) (=)) peq) (=)).
Abbreviation query_eq := (prod_relation (prod_relation (=) peq) (=)).

Lemma parse_url_query_value_peq c p q m :
  peq p q -> state_ p <> VERSION -> query_eq (parse_url_query_value c p m) (parse_url_query_value c q m).
Proof.
  intros [H1 H2] Hs. destruct p as [st], q; simplify_eq/=. unfold parse_url_query_value; simpl.
  repeat case_goal; repeat split; simpl in *; try done.
Qed.

#[export] Instance dispatch_proper : Proper ((=) ==> peq ==> (=) ==> step_eq) dispatch.
Proof.
  intros c ? <- p q Hpq r ? <-. destruct (decide (state_ p = URL_QUERY_VALUE)) as [Hs | Hs].
  - pose proof (parse_url_query_value_peq c p q (query_params_ r) Hpq) as H.
    unfold dispatch. assert (state_ q = URL_QUERY_VALUE) as Hs'.
    { destruct Hpq as [H1 _]. destruct p, q; by simplify_eq/=. }
    rewrite Hs, Hs'. destruct H as [[H1 H2] H3]; [by rewrite Hs |].
    destruct (parse_url_query_value c p _) as [[]], (parse_url_query_value c q _) as [[]].
    simpl in *. by subst.
  - destruct Hpq as [H1 H2]. destruct p as [st i], q as [st' i']; simplify_eq/=.
    destruct st'; simpl in *; try done; try (rewrite (H2 eq_refl) by done);
    unfold dispatch, parse_method, parse_url_path, parse_url_query_field, parse_url_fragment,
      parse_major_version, parse_minor_version, parse_header, parse_header_key,
      parse_header_value_begin, parse_header_value, parse_header_newline, parse_header_finish; simpl;
    repeat case_goal; repeat split; simpl in *; try done.
Qed.

#[export] Instance parse_loop_proper : Proper ((=) ==> peq ==> (=) ==> query_eq) parse_loop.
Proof.
  intros msg ? <-. induction msg as [|c msg IH]; intros p q Hpq r ? <-; simpl; [done |].
  destruct (ceq c NUL); [done |].
  pose proof (dispatch_proper c c eq_refl p q Hpq r r eq_refl) as [[[H1 H2] H3] H4].
  destruct (dispatch c p r) as [[[ret fin] p'] r'], (dispatch c q r) as [[[ret' fin'] q'] r''].
  simpl in *. subst. destruct ret', fin'; try done. by apply IH.
Qed.

Lemma form_loop_peq body ret p q m :
  peq p q -> query_eq (form_loop body ret p m) (form_loop body ret q m).
Proof.
  revert ret p q m. induction body as [|c body IH]; intros ret p q m Hpq; simpl; [done |].
  destruct (ceq c NUL); [done |].
  assert (state_ p = state_ q) as Hs by (destruct Hpq as [H _]; destruct p, q; by simplify_eq/=).
  rewrite <- Hs. destruct (state_ p) eqn:E; try done.
  - assert (prod_relation (=) peq (parse_url_query_field c p) (parse_url_query_field c q)) as [H1 H2].
    { destruct Hpq as [H1 H2]. destruct p as [st i], q as [st' i']; simplify_eq/=.
      unfold parse_url_query_field; simpl. repeat case_goal; repeat split; simpl in *; done. }
    destruct (parse_url_query_field c p) as [b p'], (parse_url_query_field c q) as [b' q'].
    simpl in *. subst. destruct b'; [by apply IH | done].
  - pose proof (parse_url_query_value_peq c p q m Hpq) as [[H1 H2] H3]; [by rewrite E |].
    destruct (parse_url_query_value c p m) as [[b p'] m'], (parse_url_query_value c q m) as [[b' q'] m''].
    simpl in *. subst. destruct b'; [by apply IH | done].
Qed.

Lemma set_state_peq st p q : peq p q -> st <> VERSION -> peq (set_state st p) (set_state st q).
Proof. intros [H1 H2] Hs. destruct p, q; simplify_eq/=. by split. Qed.

Lemma set_query_field_peq f p q : peq p q -> peq (set_query_field f p) (set_query_field f q).
Proof. intros [H1 H2]. destruct p, q; simplify_eq/=. by split. Qed.

Lemma process_body_peq p q r : peq p q -> prod_relation peq (=) (process_body p r) (process_body q r).
Proof.
  intros Hpq. unfold process_body, parse_form_data. case_goal; [|done].
  pose proof (form_loop_peq (body_ r) false (set_state URL_QUERY_FIELD p) (set_state URL_QUERY_FIELD q)
                (form_data_ r)) as [[H1 H2] H3]; [by apply set_state_peq |].
  destruct (form_loop _ _ (set_state URL_QUERY_FIELD p) _) as [[b p'] m'],
    (form_loop _ _ (set_state URL_QUERY_FIELD q) _) as [[b' q'] m''].
  simpl in *. subst. split; simpl; [by do 2 apply set_query_field_peq |].
  assert (current_query_field_ p' = current_query_field_ q' /\ current_query_value_ p' = current_query_value_ q')
    as [-> ->] by (destruct H2 as [H _]; destruct p', q'; by simplify_eq/=).
  done.
Qed.

(** Two outcomes of [parse] that no further use of the parser distinguishes. *)
Definition outcome_eq (a b : result (return_t * request_parser * request)) : Prop :=
  match a, b with
  | Ok (x, p, r), Ok (y, q, s) => x = y /\ peq p q /\ r = s
  | Throw e, Throw e' => e = e'
  | _, _ => False
  end.

#[export] Instance outcome_eq_refl : Reflexive outcome_eq.
Proof. intros [[[x p] r] | e]; simpl; [by split_and! | done]. Qed.

#[export] Instance outcome_eq_trans : Transitive outcome_eq.
Proof.
  intros [[[x p] r] | e] [[[y q] s] | e'] [[[z t] u] | e'']; simpl; try done; [|congruence].
  intros (-> & H1 & ->) (-> & H2 & ->). split_and!; try done. by trans q.
Qed.

Lemma parse_body_peq res rest p q r : peq p q -> outcome_eq (parse_body res rest p r) (parse_body res rest q r).
Proof.
  intros Hpq. unfold parse_body. destruct (stoul _) as [len | e]; simpl; [|done].
  pose proof (process_body_peq p q (set_body (body_ r ++ rest) r) Hpq) as [H1 H2].
  destruct (process_body p _) as [p' r'], (process_body q _) as [q' r'']. simpl in *. subst.
  repeat case_goal; simpl; split_and!; try done; by apply set_state_peq.
Qed.

Lemma parse_finish_peq res rest p q r :
  peq p q -> outcome_eq (parse_finish res rest p r) (parse_finish res rest q r).
Proof.
  intros Hpq. unfold parse_finish.
  assert (state_ p = state_ q) as -> by (destruct Hpq as [H _]; destruct p, q; by simplify_eq/=).
  assert (outcome_eq
    (if bool_decide (state_ q = BODY) && has_body (method_ r) then parse_body res rest p r else Ok (res, p, r))
    (if bool_decide (state_ q = BODY) && has_body (method_ r) then parse_body res rest q r else Ok (res, q, r)))
    as H by (destruct (_ && _); [by apply parse_body_peq | simpl; auto]).
  revert H. generalize (if bool_decide (state_ q = BODY) && has_body (method_ r) then parse_body res rest p r else Ok (res, p, r)).
  generalize (if bool_decide (state_ q = BODY) && has_body (method_ r) then parse_body res rest q r else Ok (res, q, r)).
  intros [[[x p'] r'] | e] [[[x' q'] r''] | e']; simpl; try done.
  intros (-> & H & ->). split_and!; try done. case_decide; [by apply set_state_peq | done].
Qed.

Lemma parse_loop_app a b p r p' r' :
  parse_loop a p r = (LEnd, p', r') -> parse_loop (a ++ b) p r = parse_loop b p' r'.
Proof.
  revert p r. induction a as [|c a IH]; intros p r; simpl; [by intros [= -> ->] |].
  destruct (ceq c NUL); [done |]. destruct (dispatch c p r) as [[[[] []] p1] r1]; try done. apply IH.
Qed.

Lemma parse_loop_break a b p r rest p' r' :
  parse_loop a p r = (LBreak rest, p', r') -> parse_loop (a ++ b) p r = (LBreak (rest ++ b), p', r').
Proof.
  revert p r. induction a as [|c a IH]; intros p r; simpl; [done |].
  destruct (ceq c NUL); [done |]. destruct (dispatch c p r) as [[[[] []] p1] r1]; try done; [|apply IH].
  by intros [= -> -> ->].
Qed.

Lemma parse_loop_return a p r res p' r' :
  parse_loop a p r = (LReturn res, p', r') -> NUL ∉ a -> res = INVALID.
Proof.
  revert p r. induction a as [|c a IH]; intros p r; simpl; [done |]. intros H Ha.
  apply not_elem_of_cons in Ha as [Hc Ha]. unfold ceq in H.
  rewrite bool_decide_eq_false_2 in H by congruence.
  destruct (dispatch c p r) as [[[[] []] p1] r1]; try done; [by eapply IH | by simplify_eq..].
Qed.

(** Only the end of the headers leads to the body. *)
Lemma dispatch_body c p r ret fin p' r' :
  dispatch c p r = (ret, fin, p', r') -> state_ p <> BODY ->
  (state_ p' = BODY <-> ret = true /\ fin = true).
Proof.
  destruct p as [st]. unfold dispatch, flush_query. destruct st; simpl; try done;
  unfold parse_method, parse_url_path, parse_url_query_field, parse_url_query_value, parse_url_fragment,
      parse_version, parse_major_version, parse_minor_version, parse_header, parse_header_key,
      parse_header_value_begin, parse_header_value, parse_header_newline, parse_header_finish; simpl;
  intros H _; repeat case_match; simplify_eq/=; naive_solver.
Qed.

Lemma parse_loop_body a p r ex p' r' :
  parse_loop a p r = (ex, p', r') -> state_ p <> BODY ->
  (state_ p' = BODY <-> exists rest, ex = LBreak rest).
Proof.
  revert p r. induction a as [|c a IH]; intros p r; simpl; [intros; simplify_eq; naive_solver |].
  destruct (ceq c NUL); [intros; simplify_eq; naive_solver |].
  destruct (dispatch c p r) as [[[ret fin] p1] r1] eqn:E. intros H Hs.
  pose proof (dispatch_body _ _ _ _ _ _ _ E Hs) as Hb.
  destruct ret, fin; simplify_eq; naive_solver.
Qed.

Lemma set_prefix_index_peq p :
  (state_ p = VERSION -> http_prefix_index_ p = 0) -> peq p (set_prefix_index 0 p).
Proof. intros H. destruct p. by split. Qed.

(** What is left to read of a body that does not exceed the announced length. *)
Definition body_room (r : request) (n : nat) : Prop :=
  exists len, stoul (length_ (content_ r)) = Ok len /\ (Z.of_nat (length (body_ r) + n) <= len)%Z.

Lemma missing_room r len n :
  stoul (length_ (content_ r)) = Ok len -> (Z.of_nat (length (body_ r) + n) <= len)%Z ->
  u64 (len - Z.of_nat (length (body_ r))) = (len - Z.of_nat (length (body_ r)))%Z.
Proof.
  intros H Hn. apply stoul_range in H. unfold u64. apply wrap_small. unfold ULONG_MAX in H. lia.
Qed.

(** A body that is not complete yet: either the piece was appended to what
    has been read, or there was nothing to read and nothing came. *)
Lemma parse_body_partial res a p r p1 r1 len :
  parse_body res a p r = Ok (PARTIAL, p1, r1) -> stoul (length_ (content_ r)) = Ok len ->
  p1 = p /\
  (r1 = set_body (body_ r ++ a) r /\ (0 < u64 (len - Z.of_nat (length (body_ r))))%Z
     /\ Z.of_nat (length a) <> u64 (len - Z.of_nat (length (body_ r)))
   \/ r1 = r /\ a = [] /\ res = PARTIAL /\ u64 (len - Z.of_nat (length (body_ r))) = 0%Z).
Proof.
  intros H Hlen. revert H. unfold parse_body. rewrite Hlen. simpl.
  assert (0 <= u64 (len - Z.of_nat (length (body_ r))))%Z by (apply Z.mod_pos_bound; done).
  destruct (0 <? _)%Z eqn:E0; breflect.
  - destruct (_ =? _)%Z eqn:E1; breflect; [by destruct (process_body _ _) |].
    destruct (_ <? _)%Z; intros; simplify_eq; auto.
  - destruct (0 <? _)%Z eqn:E1; breflect; [done |]. intros; simplify_eq. destruct a; [|simpl in *; lia].
    split; [done |]. right. split_and!; auto. lia.
Qed.

Lemma parse_body_split res a b p q r p1 r1 :
  peq q p -> parse_body res a p r = Ok (PARTIAL, p1, r1) ->
  body_room r1 (length b) ->
  p1 = p /\ outcome_eq (parse_body res (a ++ b) q r) (parse_body PARTIAL b p1 r1).
Proof.
  intros Hpq H (len & Hlen & Hroom).
  assert (stoul (length_ (content_ r)) = Ok len) as Hlen0.
  { destruct (stoul (length_ (content_ r))) as [len' | e] eqn:E; [|unfold parse_body in H; by rewrite E in H].
    apply (parse_body_partial _ _ _ _ _ _ len') in H as [_ [(-> & _) | (-> & _)]]; simpl in Hlen; congruence. }
  destruct (parse_body_partial _ _ _ _ _ _ _ H Hlen0) as [-> [(-> & H0 & H1) | (-> & -> & -> & H0)]].
  - split; [done |]. simpl in Hlen, Hroom. rewrite length_app in Hroom.
    rewrite (missing_room r len (length a)) in H0, H1 by (done || lia).
    unfold parse_body; simpl. rewrite Hlen0; simpl.
    rewrite (missing_room r len (length a)) by (done || lia).
    pose proof (stoul_range _ _ Hlen).
    assert (u64 (len - Z.of_nat (length (body_ r ++ a)))
            = (len - Z.of_nat (length (body_ r)) - Z.of_nat (length a))%Z) as ->.
    { rewrite length_app. unfold u64, ULONG_MAX in *. rewrite wrap_small; lia. }
    rewrite !length_app, (proj2 (Z.ltb_lt 0 _)) by lia.
    rewrite (proj2 (Z.ltb_lt 0 (_ - _ - _))) by lia.
    destruct (Z.of_nat (length b) =? _)%Z eqn:E4; breflect.
    + rewrite (proj2 (Z.eqb_eq _ _)) by lia.
      pose proof (process_body_peq q p (set_body (body_ r ++ a ++ b) r) Hpq) as [HA HB].
      assert (set_body ((body_ r ++ a) ++ b) (set_body (body_ r ++ a) r) = set_body (body_ r ++ a ++ b) r)
        as -> by (by rewrite <- app_assoc).
      destruct (process_body q _), (process_body p _). simpl in *. subst.
      split_and!; auto. by apply set_state_peq.
    + rewrite (proj2 (Z.eqb_neq _ _)) by lia. rewrite !(proj2 (Z.ltb_lt _ _)) by lia.
      simpl. split_and!; auto. unfold set_body; simpl. by rewrite <- app_assoc.
  - split; [done |]. by apply parse_body_peq.
Qed.

Lemma parse_finish_partial res a p r p1 r1 :
  parse_finish res a p r = Ok (PARTIAL, p1, r1) ->
  p1 = p /\
  (if bool_decide (state_ p = BODY) && has_body (method_ r)
   then parse_body res a p r else Ok (res, p, r)) = Ok (PARTIAL, p1, r1).
Proof.
  unfold parse_finish. intros H. apply rbind_Ok in H as ([[res' p'] r'] & H & E).
  rewrite H. case_decide; simplify_eq. split; [|done].
  revert H. destruct (_ && _); intros H; [|by simplify_eq].
  destruct (stoul (length_ (content_ r))) as [len | e] eqn:E; [|unfold parse_body in H; by rewrite E in H].
  by eapply parse_body_partial.
Qed.

Lemma parse_body_method res a p r res1 p1 r1 :
  parse_body res a p r = Ok (res1, p1, r1) -> method_ r1 = method_ r.
Proof.
  unfold parse_body. intros H. apply rbind_Ok in H as (len & _ & H). revert H.
  unfold process_body, parse_form_data. destruct (form_loop _ _ _ _) as [[]].
  repeat case_goal; intros; by simplify_eq.
Qed.

(** The tail of [parse] may see the body in two pieces. *)
Lemma parse_finish_split res a b p q r p1 r1 :
  peq q p -> state_ p = BODY ->
  parse_finish res a p r = Ok (PARTIAL, p1, r1) ->
  (has_body (method_ r1) = true -> body_room r1 (length b)) ->
  p1 = p /\ outcome_eq (parse_finish res (a ++ b) q r) (parse_finish PARTIAL b p1 r1).
Proof.
  intros Hpq Hs H Hroom. apply parse_finish_partial in H as [_ H]. rewrite (bool_decide_eq_true_2 _ Hs) in H.
  simpl in H. destruct (has_body (method_ r)) eqn:Em; simpl in H.
  - rewrite (parse_body_method _ _ _ _ _ _ _ H) in Hroom.
    destruct (parse_body_split res a b p q r p1 r1) as [-> Ho]; [done.. | by auto |]. split; [done |].
    assert (state_ q = BODY) as Hq by (destruct Hpq as [HA _]; destruct p, q; by simplify_eq/=).
    unfold parse_finish. rewrite (bool_decide_eq_true_2 _ Hs), (bool_decide_eq_true_2 _ Hq), Em.
    rewrite (parse_body_method _ _ _ _ _ _ _ H), Em. simpl.
    destruct (parse_body res (a ++ b) q r) as [[[x p'] r'] | e], (parse_body PARTIAL b p r1) as [[[x' q'] r''] | e'];
      simpl in *; try done. destruct Ho as (-> & Ho & ->). split_and!; try done.
    case_decide; [by apply set_state_peq | done].
  - simplify_eq. split; [done |]. trans (parse_finish PARTIAL b q r1); [|by apply parse_finish_peq].
    unfold parse_finish. by rewrite Em, andb_false_r.
Qed.

(** C2: a request may arrive in pieces. When the first piece leaves the parser
    waiting for more, parsing the second piece gives what parsing both at once
    gives; the split must not fall inside the version prefix, whose position
    [parse] forgets between calls, and the body must not be longer than its
    announced length. *)
Theorem parse_incremental p r a b p1 r1 :
  parse a p r = Ok (PARTIAL, p1, r1) -> NUL ∉ a ->
  (state_ p1 = VERSION -> http_prefix_index_ p1 = 0) ->
  (state_ p1 = BODY -> has_body (method_ r1) = true -> body_room r1 (length b)) ->
  outcome_eq (parse (a ++ b) p r) (parse b p1 r1).
Proof.
  unfold parse. intros H Ha Hv Hb.
  assert (forall q, state_ (set_prefix_index 0 q) = state_ q) as Hst by (by intros []).
  rewrite !Hst in *. destruct (decide (state_ p = BODY)) as [Hs | Hs].
  - rewrite (bool_decide_eq_true_2 _ Hs) in *.
    destruct (parse_finish_partial _ _ _ _ _ _ H) as [-> _]. rewrite Hst in *.
    rewrite (bool_decide_eq_true_2 _ Hs).
    change (set_prefix_index 0 (set_prefix_index 0 p)) with (set_prefix_index 0 p).
    by destruct (parse_finish_split PARTIAL a b (set_prefix_index 0 p) (set_prefix_index 0 p) r
                   (set_prefix_index 0 p) r1) as [_ Ho]; [.. | auto |].
  - rewrite (bool_decide_eq_false_2 _ Hs) in *.
    destruct (parse_loop a _ r) as [[ex p'] r'] eqn:El.
    pose proof (parse_loop_body _ _ _ _ _ _ El) as Hbody. rewrite Hst in Hbody. specialize (Hbody Hs).
    destruct ex as [res | rest |].
    + apply parse_loop_return in El; [|done]. by simplify_eq.
    + rewrite (parse_loop_break _ _ _ _ _ _ _ El).
      assert (state_ p' = BODY) as Hs' by naive_solver.
      destruct (parse_finish_split FINISH rest b p' p' r' p1 r1) as [-> Ho]; [done.. | |].
      { destruct (parse_finish_partial _ _ _ _ _ _ H) as [-> _]. auto. }
      rewrite (bool_decide_eq_true_2 _ Hs'). etrans; [exact Ho |].
      by apply parse_finish_peq, set_prefix_index_peq.
    + rewrite (parse_loop_app _ _ _ _ _ _ El).
      assert (state_ p' <> BODY) as Hs' by naive_solver.
      destruct (parse_finish_partial _ _ _ _ _ _ H) as [-> H']. rewrite (bool_decide_eq_false_2 _ Hs') in H'.
      simpl in H'. simplify_eq. rewrite (bool_decide_eq_false_2 _ Hs').
      pose proof (parse_loop_proper b b eq_refl p' _ (set_prefix_index_peq p' Hv) r1 r1 eq_refl) as [[H1 H2] H3].
      destruct (parse_loop b p' r1) as [[ex q] s], (parse_loop b (set_prefix_index 0 p') r1) as [[ex' q'] s'].
      simpl in *. subst. destruct ex'; [by split_and! | by apply parse_finish_peq..].
Qed.

(** ** What a client writes is what the server reads *)

Definition url_char (c : ascii) : bool := is_url_char c && negb (ceq c "?") && negb (ceq c NUL).
Definition key_char (c : ascii) : bool := isalnum c || ceq c "-".
Definition text_char (c : ascii) : bool := isalnum c || ispunct c.
Definition blank_char (c : ascii) : bool := ceq c " " || ceq c TAB.

(** A header the parser takes apart as written: a key of letters, digits and
    dashes, a value of printable characters that neither starts nor ends with
    a blank. *)
Definition valid_key (k : str) : Prop := k <> [] /\ Forall (fun c => key_char c = true) k.
Definition valid_value (v : str) : Prop :=
  exists c w, v = c :: w /\ text_char c = true /\ Forall (fun c => text_char c || blank_char c = true) w
              /\ (forall w' d, w = w' ++ [d] -> text_char d = true).
Definition valid_header (kv : str * str) : Prop := valid_key kv.1 /\ valid_value kv.2.

Lemma key_char_facts c :
  key_char c = true -> ceq c NUL = false /\ ceq c LF = false /\ blank_char c = false /\ text_char c = true.
Proof. by_chars c. Qed.

Lemma text_char_facts c :
  text_char c = true -> ceq c NUL = false /\ blank_char c = false /\ ceq c " " = false.
Proof. by_chars c. Qed.

Lemma blank_char_facts c : blank_char c = true -> ceq c NUL = false.
Proof. by_chars c. Qed.

Lemma method_char_facts c : isupper c = true -> ceq c NUL = false.
Proof. by_chars c. Qed.

Lemma parse_loop_cons c msg p r p' r' :
  ceq c NUL = false -> dispatch c p r = (true, false, p', r') -> parse_loop (c :: msg) p r = parse_loop msg p' r'.
Proof. intros Hc Hd. simpl. by rewrite Hc, Hd. Qed.

Section Segments.
Context (i : nat) (qf qv : str) (hs : hex_parse_t) (hx : str).

(** The parser while it reads the method, the url and the headers. *)
Definition at_start (st : state_t) (j : nat) (m k v b : str) : request_parser :=
  Parser st j m k v qf qv b false hs hx.
Local Definition at_header (st : state_t) (k v b : str) : request_parser :=
  Parser st i [] k v qf qv b false hs hx.

Lemma loop_method s j m k v b msg r :
  Forall (fun c => isupper c = true) s ->
  parse_loop (s ++ msg) (at_start METHOD j m k v b) r = parse_loop msg (at_start METHOD j (m ++ s) k v b) r.
Proof.
  revert m. induction s as [|c s IH]; intros m Hs; [by rewrite app_nil_r |].
  apply Forall_cons_1 in Hs as [Hc Hs]. rewrite <- app_comm_cons.
  erewrite parse_loop_cons; [|by apply method_char_facts | by cbn; unfold parse_method; rewrite Hc].
  cbn. unfold set_current_method; cbn. fold (at_start METHOD j (m ++ [c]) k v b). rewrite IH by done.
  by rewrite <- app_assoc.
Qed.

Lemma loop_url u j m k v b msg r :
  Forall (fun c => url_char c = true) u ->
  parse_loop (u ++ msg) (at_start URL_PATH j m k v b) r
  = parse_loop msg (at_start URL_PATH j m k v b) (set_url (url_ r ++ u) r).
Proof.
  revert r. induction u as [|c u IH]; intros r Hu; [by destruct r; rewrite app_nil_r |].
  apply Forall_cons_1 in Hu as [Hc Hu]. apply andb_true_iff in Hc as [[H1 H2%negb_true_iff]%andb_true_iff H3%negb_true_iff].
  rewrite <- app_comm_cons.
  erewrite parse_loop_cons; [|done | by cbn; unfold parse_url_path; rewrite H2, H1].
  fold (at_start URL_PATH j m k v b). rewrite IH by done. destruct r; cbn. by rewrite <- app_assoc.
Qed.

Lemma loop_key s k v b msg r :
  Forall (fun c => key_char c = true) s ->
  parse_loop (s ++ msg) (at_header HEADER_KEY k v b) r = parse_loop msg (at_header HEADER_KEY (k ++ s) v b) r.
Proof.
  revert k. induction s as [|c s IH]; intros k Hs; [by rewrite app_nil_r |].
  apply Forall_cons_1 in Hs as [Hc Hs]. rewrite <- app_comm_cons.
  erewrite parse_loop_cons; [|by apply key_char_facts |
    cbn; unfold parse_header_key; unfold key_char in Hc; by rewrite Hc].
  cbn. unfold set_key; cbn. fold (at_header HEADER_KEY (k ++ [c]) v b). rewrite IH by done.
  by rewrite <- app_assoc.
Qed.

(** Blanks are held back until a printable character follows. *)
Lemma loop_value s k v b msg r :
  Forall (fun c => text_char c || blank_char c = true) s ->
  exists v' b', v' ++ b' = v ++ b ++ s
    /\ (forall s' d, s = s' ++ [d] -> text_char d = true -> b' = []) /\ (s = [] -> b' = b)
    /\ parse_loop (s ++ msg) (at_header HEADER_VALUE k v b) r = parse_loop msg (at_header HEADER_VALUE k v' b') r.
Proof.
  revert v b. induction s as [|c s IH]; intros v b Hs.
  { exists v, b. rewrite app_nil_r. split_and!; try done. intros [] ? ?; done. }
  apply Forall_cons_1 in Hs as [Hc Hs]. rewrite <- app_comm_cons.
  destruct (text_char c) eqn:Et.
  - destruct (text_char_facts _ Et) as (Hn & Hb & _).
    destruct (IH (v ++ b ++ [c]) [] Hs) as (v' & b' & E1 & E2 & E3 & E4).
    exists v', b'. split; [by rewrite E1, <- !app_assoc |]. split.
    { intros s' d E Hd. destruct s' as [|e s']; simplify_eq/=; [by apply E3 | by eapply E2]. }
    split; [done |]. rewrite <- E4. erewrite parse_loop_cons; [done | done |].
    cbn. unfold parse_header_value; cbn. unfold blank_char in Hb. unfold text_char in Et. rewrite Hb, Et.
    case_goal; cbn in *; unfold at_header, set_value, set_blanks; cbn; [by rewrite <- app_assoc |].
    destruct b; [done |]. by cbn in *.
  - cbn in Hc. destruct (IH v (b ++ [c]) Hs) as (v' & b' & E1 & E2 & E3 & E4).
    exists v', b'. split; [by rewrite E1, <- !app_assoc |]. split.
    { intros s' d E Hd. destruct s' as [|e s']; simplify_eq/=; [congruence | by eapply E2]. }
    split; [done |]. rewrite <- E4.
    erewrite parse_loop_cons; [done | by apply blank_char_facts |].
    cbn. unfold parse_header_value. unfold blank_char in Hc. by rewrite Hc.
Qed.

Lemma loop_rest_of_header k v v0 b0 msg r :
  valid_value v ->
  parse_loop (lit ": " ++ v ++ CRLF ++ msg) (at_header HEADER_KEY k v0 b0) r
  = parse_loop msg (at_header HEADER_NEWLINE k v []) r.
Proof.
  intros (c & w & -> & Hc & Hw & Hl). destruct (text_char_facts _ Hc) as (Hn & _ & Hs).
  change (lit ": ") with [":"%char; " "%char]. cbn [app].
  do 2 (erewrite parse_loop_cons; [|done | done]).
  erewrite parse_loop_cons; [|done |
    cbn; unfold parse_header_value_begin; unfold text_char in Hc; by rewrite Hs, Hc].
  destruct (loop_value w k [c] [] (CRLF ++ msg) r Hw) as (v' & b' & E1 & E2 & E3 & E4).
  etrans; [exact E4 |].
  assert (b' = []) as ->.
  { destruct w as [|d w _] using rev_ind; [by apply E3 |]. eapply E2; eauto. }
  rewrite app_nil_r in E1. cbn in E1. by subst.
Qed.

Lemma loop_first_header k v v0 b0 msg r :
  valid_header (k, v) ->
  parse_loop (header_line (k, v) ++ msg) (at_header HEADER_KEY [] v0 b0) r
  = parse_loop msg (at_header HEADER_NEWLINE k v []) r.
Proof.
  intros [[_ Hk] Hv]. unfold header_line. rewrite <- !app_assoc. cbn [fst snd] in *.
  rewrite loop_key by done. by apply loop_rest_of_header.
Qed.

(** A further header flushes the one read before. *)
Lemma loop_next_header k v k' v' msg r :
  valid_header (k', v') ->
  parse_loop (header_line (k', v') ++ msg) (at_header HEADER_NEWLINE k v []) r
  = parse_loop msg (at_header HEADER_NEWLINE k' v' []) (insert_header k v r).
Proof.
  intros [[Hk' Hk] Hv]. unfold header_line. rewrite <- !app_assoc. cbn [fst snd] in *.
  destruct k' as [|c k']; [done |]. apply Forall_cons_1 in Hk as [Hc Hk].
  destruct (key_char_facts _ Hc) as (H1 & H2 & H3 & H4). rewrite <- app_comm_cons.
  erewrite parse_loop_cons; [|done |
    cbn; unfold parse_header_newline; unfold blank_char in H3; unfold text_char in H4; by rewrite H2, H3, H4].
  change (set_state HEADER_KEY _) with (at_header HEADER_KEY [c] v []).
  rewrite loop_key by done. by apply loop_rest_of_header.
Qed.

Lemma loop_headers hdrs k v msg r :
  Forall valid_header hdrs ->
  exists vl, parse_loop (concat (header_line <$> hdrs) ++ CRLF ++ msg) (at_header HEADER_NEWLINE k v []) r
  = (LBreak msg, at_header BODY [] vl [],
     foldl (fun r kv => insert_header kv.1 kv.2 r) r ((k, v) :: hdrs)).
Proof.
  revert k v r. induction hdrs as [|[k' v'] hdrs IH]; intros k v r Hh; [by exists v |].
  apply Forall_cons_1 in Hh as [H1 Hh]. cbn [fmap list_fmap concat]. rewrite <- app_assoc.
  rewrite loop_next_header by done. by apply IH.
Qed.

End Segments.

(** The header lines [to_buffers] writes, and their effect on a request. *)
Definition wire_headers (hs : list (str * str)) (r : request) : list (str * str) :=
  hs ++ (if bool_decide (body_ r = []) then []
         else [(CONTENT_LENGTH, length_ (content_ r)); (CONTENT_TYPE, type_ (content_ r))]).

Abbreviation absorb := (foldl (fun r kv => insert_header kv.1 kv.2 r)).

Lemma request_to_buffers_wire hs r m :
  method_to_string (method_ r) = Ok m ->
  request_to_buffers hs r =
    Ok (m ++ lit " " ++ url_ r ++ lit " HTTP/1.1" ++ CRLF
        ++ concat (header_line <$> wire_headers hs r) ++ CRLF ++ body_ r).
Proof.
  intros Hm. unfold request_to_buffers, wire_headers. rewrite Hm. cbn [rbind]. rewrite fmap_app, concat_app.
  destruct (bool_decide _); cbn [fmap list_fmap concat]; by rewrite <- !app_assoc.
Qed.

Lemma insert_header_fields k v r :
  method_ (insert_header k v r) = method_ r /\ url_ (insert_header k v r) = url_ r
  /\ version_ (insert_header k v r) = version_ r /\ body_ (insert_header k v r) = body_ r
  /\ headers_ (insert_header k v r) = map_insert_new k v (headers_ r).
Proof. unfold insert_header. by repeat case_goal. Qed.

Lemma absorb_fields hdrs r :
  method_ (absorb r hdrs) = method_ r /\ url_ (absorb r hdrs) = url_ r
  /\ version_ (absorb r hdrs) = version_ r /\ body_ (absorb r hdrs) = body_ r.
Proof.
  revert r. induction hdrs as [|[k v] hdrs IH]; intros r; simpl; [done |].
  destruct (IH (insert_header k v r)) as (-> & -> & -> & ->).
  by destruct (insert_header_fields k v r) as (-> & -> & -> & -> & _).
Qed.

Lemma absorb_headers hdrs r k :
  headers_ (absorb r hdrs) !! k = match headers_ r !! k with Some v => Some v | None => assoc k hdrs end.
Proof.
  revert r. induction hdrs as [|[k' v'] hdrs IH]; intros r; simpl; [by destruct (headers_ r !! k) |].
  rewrite IH. destruct (insert_header_fields k' v' r) as (_ & _ & _ & _ & ->).
  case_decide as E; [subst; rewrite lookup_map_insert_new; by destruct (headers_ r !! k') |].
  by rewrite lookup_map_insert_new_ne by done.
Qed.

Lemma absorb_length hdrs r :
  Forall (fun kv => strcasecmp0 kv.1 CONTENT_LENGTH = false) hdrs ->
  length_ (content_ (absorb r hdrs)) = length_ (content_ r).
Proof.
  revert r. induction hdrs as [|[k v] hdrs IH]; intros r Hh; simpl; [done |].
  apply Forall_cons_1 in Hh as [Hk Hh]. rewrite IH by done. simpl in Hk.
  unfold insert_header. repeat case_goal; try done; congruence.
Qed.

Lemma absorb_host hdrs r h :
  (forall kv, kv ∈ hdrs -> strcasecmp0 kv.1 HOST = true -> kv.2 = h) ->
  (exists v, (HOST, v) ∈ hdrs) \/ host_ r = h -> host_ (absorb r hdrs) = h.
Proof.
  revert r. induction hdrs as [|[k v] hdrs IH]; intros r Hh He; simpl.
  { destruct He as [[v Hv] | He]; [by apply elem_of_nil in Hv | done]. }
  apply IH; [intros kv Hkv; apply Hh; by right |].
  destruct He as [[w Hw] | He].
  - apply elem_of_cons in Hw as [Hw | Hw]; [right | left; by exists w]. injection Hw as <- <-.
    assert (w = h) as -> by (apply (Hh (HOST, w)); [by left | done]). done.
  - right. unfold insert_header. repeat case_goal; try done. apply (Hh (k, v)); [by left | done].
Qed.

(** A parser at the start of a message. *)
Definition ready (p : request_parser) : Prop :=
  state_ p = METHOD /\ current_method_ p = [] /\ skip_blanks_ p = false.

Lemma parse_loop_message p m u hdrs body :
  ready p -> Forall (fun c => url_char c = true) u ->
  Forall valid_header hdrs -> hdrs <> [] ->
  forall ms, method_to_string m = Ok ms ->
  exists p', state_ p' = BODY /\
    parse_loop (ms ++ lit " " ++ u ++ lit " HTTP/1.1" ++ CRLF ++ concat (header_line <$> hdrs) ++ CRLF ++ body)
      (set_prefix_index 0 p) request0
    = (LBreak body, p', absorb (set_version (Version 1 1) (set_url u (set_method m request0))) hdrs).
Proof.
  intros (Hst & Hm & Hsk) Hu Hh Hne ms Hms.
  destruct p as [st j cm k v qf qv b sk hx hs]. cbn in Hst, Hm, Hsk. subst.
  destruct hdrs as [|[k1 v1] hdrs]; [done |]. apply Forall_cons_1 in Hh as [Hh1 Hh].
  assert (Forall (fun c => isupper c = true) ms) as Hup
    by (destruct (method_to_string_total m) as (? & ? & _ & ?); congruence).
  change (set_prefix_index 0 _) with (at_start qf qv hx hs METHOD 0 [] k v b).
  rewrite loop_method by done. change (lit " ") with [" "%char]. cbn [app].
  erewrite parse_loop_cons; [|done | done].
  change (set_state URL_PATH _) with (at_start qf qv hx hs URL_PATH 0 [] k v b).
  rewrite loop_url by done. change (lit " HTTP/1.1") with (" "%char :: lit "HTTP/1.1").
  cbn [fmap list_fmap concat]. rewrite <- app_assoc.
  destruct (loop_headers 4 qf qv hx hs hdrs k1 v1 body
             (set_version (Version 1 1) (set_url u (set_method m request0))) Hh) as (vl & El).
  eexists. split; [|etrans; [|exact El]]; [done |].
  rewrite <- (loop_first_header 4 qf qv hx hs k1 v1 [] b _ _ Hh1).
  cbn [app]. unfold apply_method. change (current_method_ (at_start _ _ _ _ _ _ ms _ _ _)) with ms.
  by rewrite (to_method_to_string m ms Hms).
Qed.

(** A request a client may send: its headers, in the order [hs] in which they
    are written, are valid, one of them names the host, and a body goes with a
    method that has one and with its length, as [with_body] leaves it. *)
Record sendable (hs : list (str * str)) (r : request) : Prop := {
  sendable_url : Forall (fun c => url_char c = true) (url_ r);
  sendable_headers : Forall valid_header (wire_headers hs r);
  sendable_length : Forall (fun kv => strcasecmp0 kv.1 CONTENT_LENGTH = false) hs;
  sendable_host : (HOST, host_ r) ∈ hs;
  sendable_host_only : forall kv, kv ∈ hs -> strcasecmp0 kv.1 HOST = true -> kv.2 = host_ r;
  sendable_body : body_ r <> [] ->
    has_body (method_ r) = true /\ length_ (content_ r) = to_string_u (Z.of_nat (length (body_ r)))
    /\ (Z.of_nat (length (body_ r)) <= ULONG_MAX)%Z }.

Lemma process_body_fields p r p' r' :
  process_body p r = (p', r') ->
  method_ r' = method_ r /\ url_ r' = url_ r /\ version_ r' = version_ r /\ host_ r' = host_ r
  /\ headers_ r' = headers_ r /\ body_ r' = body_ r.
Proof.
  unfold process_body, parse_form_data. destruct (form_loop _ _ _ _) as [[]].
  case_goal; intros; by simplify_eq.
Qed.

(** What is left after the headers, given that the length in the headers is
    the length of the body. *)
Lemma parse_finish_body body p r :
  state_ p = BODY -> body_ r = [] -> (body <> [] -> has_body (method_ r) = true) ->
  (has_body (method_ r) = true -> stoul (length_ (content_ r)) = Ok (Z.of_nat (length body))) ->
  exists p' r', parse_finish FINISH body p r = Ok (FINISH, p', r')
    /\ state_ p' = METHOD /\ method_ r' = method_ r /\ url_ r' = url_ r /\ version_ r' = version_ r
    /\ host_ r' = host_ r /\ headers_ r' = headers_ r /\ body_ r' = body.
Proof.
  intros Hs Hb0 Hhas Hlen. unfold parse_finish. rewrite (bool_decide_eq_true_2 _ Hs).
  destruct (has_body (method_ r)) eqn:E; cbn [andb].
  - unfold parse_body. rewrite Hlen, Hb0 by done. cbn.
    pose proof (stoul_range _ _ (Hlen eq_refl)) as Hr. unfold ULONG_MAX in Hr.
    rewrite Z.sub_0_r. unfold u64. rewrite wrap_small by lia. rewrite Z.eqb_refl.
    destruct (0 <? _)%Z eqn:E0; breflect.
    + destruct (process_body p _) as [p' r'] eqn:Ep. cbn. eexists _, _. split; [done |].
      apply process_body_fields in Ep. naive_solver.
    + destruct body; [|simpl in *; lia]. cbn. by eexists _, _.
  - destruct body; [|by specialize (Hhas ltac:(done))]. cbn. by eexists _, _.
Qed.

(** C1: The request parser, at the start of a message, reads back the bytes
    that a sendable request is sent as, as one finished request: method, url,
    version 1.1, host, every header and the body. Sendable: the url has no
    query and no escapes (a query is cut off the url, see [query_leaves_url]),
    the headers have keys of letters, digits and dashes and printable values
    that are not empty, one of them is the host, and a body is sent only with
    POST and PUT and with its length. *)
Theorem request_roundtrip p hs r :
  ready p -> sendable hs r ->
  exists msg p' r', request_to_buffers hs r = Ok msg
    /\ parse msg p request0 = Ok (FINISH, p', r') /\ state_ p' = METHOD
    /\ method_ r' = method_ r /\ url_ r' = url_ r /\ version_ r' = Version 1 1 /\ host_ r' = host_ r
    /\ (forall k, headers_ r' !! k = assoc k (wire_headers hs r)) /\ body_ r' = body_ r.
Proof.
  intros Hp [Hu Hh Hl Ho Ho' Hb]. destruct (method_to_string_total (method_ r)) as (ms & Hms & _).
  rewrite (request_to_buffers_wire _ _ _ Hms). eexists. unfold parse.
  assert (state_ (set_prefix_index 0 p) <> BODY) as Hnb by (destruct Hp as [Hp _]; simpl; congruence).
  rewrite (bool_decide_eq_false_2 _ Hnb).
  destruct (parse_loop_message p (method_ r) (url_ r) (wire_headers hs r) (body_ r) Hp Hu Hh)
    with (ms := ms) as (p' & Hs' & El); [|done |].
  { unfold wire_headers. intros E. apply app_eq_nil in E as [-> _]. by apply elem_of_nil in Ho. }
  rewrite El. set (r0 := set_version _ _). destruct (absorb_fields (wire_headers hs r) r0) as (Em & Eu & Ev & Eb).
  destruct (parse_finish_body (body_ r) p' (absorb r0 (wire_headers hs r)))
    as (p2 & r2 & H & H1 & H2 & H3 & H4 & H5 & H6 & H7); [done | done | | |].
  - rewrite Em. intros Hne. by apply Hb.
  - rewrite Em. intros _. unfold wire_headers. destruct (decide (body_ r = [])) as [Hn | Hn].
    + rewrite (bool_decide_eq_true_2 _ Hn), app_nil_r, absorb_length, Hn by done. reflexivity.
    + rewrite (bool_decide_eq_false_2 _ Hn), foldl_app. cbn. destruct (Hb Hn) as (_ & -> & Hr).
      apply stoul_to_string. lia.
  - exists p2, r2. split_and!; try done; [by rewrite H2 | by rewrite H3 | by rewrite H4 | |].
    + rewrite H5. apply absorb_host; [|left; eexists; apply elem_of_app; by left].
      intros kv [Hkv | Hkv]%elem_of_app; [by apply Ho' |].
      destruct (bool_decide _); [by apply elem_of_nil in Hkv |].
      apply elem_of_cons in Hkv as [-> | [-> | []%elem_of_nil]%elem_of_cons]; done.
    + intros k. rewrite H6. apply absorb_headers.
Qed.

(** ** Witnesses *)

Definition valid_value_b (v : str) : bool :=
  match v with
  | [] => false
  | c :: w => text_char c && forallb (fun c => text_char c || blank_char c) w
              && match unsnoc w with None => true | Some (_, d) => text_char d end
  end.

Lemma valid_value_intro v : valid_value_b v = true -> valid_value v.
Proof.
  destruct v as [|c w]; simpl; [done |]. intros [[Hc Hw]%andb_true_iff Hl]%andb_true_iff.
  exists c, w. split_and!; try done.
  - apply Forall_forall. intros x Hx. rewrite forallb_forall in Hw. by apply Hw.
  - intros w' d ->. by rewrite unsnoc_snoc in Hl.
Qed.

Definition sample_post : request :=
  with_body (lit "name=value&name2=value%202") (make_request POST (lit "localhost:8000") (lit "/test/form")).

(** ** Test messages *)
Definition get_short : str :=
  lit "GET /api HTTP/1.1" ++ CRLF ++ lit "Host: de.wikipedia.org" ++ CRLF ++ CRLF.

Example get_short_parses :
  match parse get_short parser0 request0 with
  | Ok (FINISH, _, r) => method_ r = GET /\ url_ r = lit "/api" /\ host_ r = lit "de.wikipedia.org"
                         /\ version_ r = Version 1 1
  | _ => False
  end.
Proof. vm_compute. auto. Qed.

(** [parse] resets the position in the version prefix, so a message whose
    pieces meet inside "HTTP" is refused although it is complete. *)
Example split_in_prefix_is_refused :
  match parse (take 12 get_short) parser0 request0 with
  | Ok (PARTIAL, p1, r1) =>
    match parse (drop 12 get_short) p1 r1 with Ok (INVALID, _, _) => True | _ => False end
  | _ => False
  end.
Proof. vm_compute. auto. Qed.

(** A query is not part of the url that arrives. *)
Example query_leaves_url :
  match parse (lit "GET /a?b=c HTTP/1.1" ++ CRLF ++ lit "Host: x" ++ CRLF ++ CRLF) parser0 request0 with
  | Ok (FINISH, _, r) => url_ r = lit "/a" /\ query_params_ r !! lit "b" = Some (lit "c")
  | _ => False
  end.
Proof. vm_compute. auto. Qed.

(** The text of [Content-Length] goes to [std::stoul] unchecked. *)
Example bad_content_length_throws :
  exists e, parse (lit "POST / HTTP/1.1" ++ CRLF ++ lit "Content-Length: many" ++ CRLF ++ CRLF) parser0 request0
            = Throw e.
Proof. eexists. vm_compute. reflexivity. Qed.

(** [parse_form_data] empties the field name twice and the value never: the
    last value of one form is the beginning of the first value of the next. *)
Definition form_post (body : str) : str :=
  lit "POST / HTTP/1.1" ++ CRLF ++ lit "Content-Type: application/x-www-form-urlencoded" ++ CRLF
  ++ lit "Content-Length: " ++ to_string_u (Z.of_nat (length body)) ++ CRLF ++ CRLF ++ body.

Example form_value_leaks :
  match parse (form_post (lit "a=one")) parser0 request0 with
  | Ok (FINISH, p1, r1) =>
    form_data_ r1 !! lit "a" = Some (lit "one") /\
    match parse (form_post (lit "b=two")) p1 request0 with
    | Ok (FINISH, _, r2) => form_data_ r2 !! lit "b" = Some (lit "onetwo")
    | _ => False
    end
  | _ => False
  end.
Proof. vm_compute. auto. Qed.

(** The value of the last header with the length of the body, or nothing. *)
Definition length_header (hdrs : list (str * str)) : option str :=
  snd <$> list.last (filter (fun kv => strcasecmp0 kv.1 CONTENT_LENGTH = true) hdrs).

Lemma absorb_length_header hdrs r :
  length_ (content_ (absorb r hdrs)) = default (length_ (content_ r)) (length_header hdrs).
Proof.
  unfold length_header. induction hdrs as [|[k v] hdrs IH] using rev_ind; [done |].
  rewrite foldl_app, list.filter_app, list.filter_cons, list.filter_nil. cbn [foldl fst snd]. case_decide as E.
  - rewrite last_snoc. cbn. unfold insert_header. rewrite E.
    assert (strcasecmp0 k CONTENT_TYPE = false) as ->; [| done].
    unfold strcasecmp0 in *. apply bool_decide_eq_true in E. rewrite E. reflexivity.
  - rewrite app_nil_r, <- IH. unfold insert_header. apply not_true_is_false in E. rewrite E. by repeat case_goal.
Qed.

Lemma parse_finish_throws res rest p r e : state_ p = BODY ->
  parse_finish res rest p r = Throw e <-> has_body (method_ r) = true /\ stoul (length_ (content_ r)) = Throw e.
Proof.
  intros Hp. unfold parse_finish. rewrite bool_decide_eq_true_2 by done. cbn [andb]. destruct (has_body (method_ r)); [| naive_solver].
  unfold parse_body. destruct (stoul _); cbn [rbind]; [| naive_solver]. split; [| naive_solver].
  destruct (process_body p _). by repeat case_goal.
Qed.

(** C39: [parse] throws for a request with one or more headers, all valid,
    exactly when the method has a body (POST, PUT), there is a header named
    Content-Length, in whatever case, and [std::stoul] throws for the value of
    the last one; the exception is that of [std::stoul]. The message may have
    any body; its url has no query and no escapes, and the parser is at the
    start of a message. *)
Theorem length_throws p m ms u hdrs body e :
  ready p -> Forall (fun c => url_char c = true) u -> Forall valid_header hdrs -> hdrs <> [] -> method_to_string m = Ok ms ->
  parse (ms ++ lit " " ++ u ++ lit " HTTP/1.1" ++ CRLF ++ concat (header_line <$> hdrs) ++ CRLF ++ body) p request0 = Throw e
  <-> (m = POST \/ m = PUT) /\ exists v, length_header hdrs = Some v /\ stoul v = Throw e.
Proof.
  intros Hr Hu Hh Hne Hms. destruct (parse_loop_message p m u hdrs body Hr Hu Hh Hne ms Hms) as (p' & Hp' & E).
  unfold parse. rewrite bool_decide_eq_false_2 by (destruct Hr as [Hst _]; cbn; rewrite Hst; done). rewrite E, (parse_finish_throws _ _ _ _ _ Hp').
  rewrite absorb_length_header. destruct (absorb_fields hdrs (set_version (Version 1 1) (set_url u (set_method m request0)))) as (-> & _).
  cbn [method_ content_ length_ set_version set_url set_method request0]. unfold has_body. rewrite orb_true_iff, !bool_decide_eq_true. clear.
  destruct (length_header hdrs) as [v|]; cbn [default].
  - split; [intros [H ?]; split; [exact H |]; by exists v | intros [H (w & [= <-] & ?)]; by split].
  - split; [intros [_ H] | intros [_ (w & H & _)]; discriminate H]. change (stoul (length_ content0)) with (@Ok Z 0%Z) in H. discriminate H.
Qed.

Lemma length_throws_witness :
  parse (lit "POST" ++ lit " " ++ lit "/a" ++ lit " HTTP/1.1" ++ CRLF
         ++ concat (header_line <$> [(HOST, lit "localhost"); (lit "content-length", lit "many")]) ++ CRLF ++ lit "x=1") parser0 request0
  = Throw (invalid_argument "stoul").
Proof.
  apply (length_throws parser0 POST (lit "POST") (lit "/a") [(HOST, lit "localhost"); (lit "content-length", lit "many")] (lit "x=1")).
  - by split_and!.
  - repeat constructor.
  - repeat constructor; try done; by apply valid_value_intro.
  - done.
  - reflexivity.
  - split; [by left |]. exists (lit "many"). split; reflexivity.
Defined.

Lemma parse_incremental_witness :
  exists p1 r1,
    parse (take 20 get_short) parser0 request0 = Ok (PARTIAL, p1, r1)
    /\ outcome_eq (parse (take 20 get_short ++ drop 20 get_short) parser0 request0)
                  (parse (drop 20 get_short) p1 r1).
Proof.
  eexists _, _. split; [vm_compute; reflexivity |].
  eapply parse_incremental; [vm_compute; reflexivity | | vm_compute; discriminate | vm_compute; discriminate].
  vm_compute. intros H. repeat (apply elem_of_cons in H as [H | H]; [discriminate H |]). by apply elem_of_nil in H.
Defined.

Lemma request_roundtrip_witness :
  exists msg p' r', request_to_buffers [(HOST, lit "localhost:8000")] sample_post = Ok msg
    /\ parse msg parser0 request0 = Ok (FINISH, p', r') /\ body_ r' = lit "name=value&name2=value%202".
Proof.
  destruct (request_roundtrip parser0 [(HOST, lit "localhost:8000")] sample_post)
    as (msg & p' & r' & H1 & H2 & _ & _ & _ & _ & _ & _ & H3).
  - by split_and!.
  - split.
    + repeat constructor.
    + repeat constructor; try done; by apply valid_value_intro.
    + repeat constructor.
    + by left.
    + intros kv Hkv _. by apply list_elem_of_singleton in Hkv as ->.
    + intros _. split_and!; done.
  - by exists msg, p', r'.
Defined.

End RequestParser.
