(* ===== verification/ResponseParser.v ===== *)
(** * The HTTP response parser

    Model of [response_parser] (include/matador/http/response_parser.hpp,
    src/http/response_parser.cpp), the state machine a client feeds with the
    bytes of a response, and the proof that it reads what [response::to_buffers]
    writes, however the bytes are cut into pieces. The position in the message
    is the suffix that is still unread. *)

From S2P Require Import Prelude Http RequestParser.
Local Open Scope cxx_scope.

Module ResponseParser.
Import Http.
Import RequestParser (return_t, INVALID, PARTIAL, FINISH, ceq, loop_exit, LReturn, LBreak, LEnd, HTTP_VERSION_PREFIX,
  HTTP_VERSION_PREFIX_LEN).

(** The enumerators that are never assigned ([METHOD], the [URL] states and
    the chunked ones) are left out. *)
Inductive state_t :=
| VERSION | MAJOR_VERSION | MINOR_VERSION | STATUS_CODE | STATUS_TEXT
| HEADER | HEADER_KEY | HEADER_VALUE_BEGIN | HEADER_VALUE | HEADER_NEWLINE | HEADER_FINISH
| BODY.

#[export] Instance state_t_eq_dec : EqDecision state_t.
Proof. solve_decision. Defined.

Record response_parser := Parser {
  state_ : state_t;
  http_prefix_index_ : nat;
  current_status_ : str;
  current_key_ : str;
  current_value_ : str;
  blanks_ : str;
  skip_blanks_ : bool }.

Definition parser0 : response_parser := Parser VERSION 0 [] [] [] [] false.

Definition set_state (s : state_t) (p : response_parser) : response_parser :=
  Parser s (http_prefix_index_ p) (current_status_ p) (current_key_ p) (current_value_ p) (blanks_ p) (skip_blanks_ p).
Definition set_prefix_index (n : nat) (p : response_parser) : response_parser :=
  Parser (state_ p) n (current_status_ p) (current_key_ p) (current_value_ p) (blanks_ p) (skip_blanks_ p).
Definition set_current_status (s : str) (p : response_parser) : response_parser :=
  Parser (state_ p) (http_prefix_index_ p) s (current_key_ p) (current_value_ p) (blanks_ p) (skip_blanks_ p).
Definition set_key (k : str) (p : response_parser) : response_parser :=
  Parser (state_ p) (http_prefix_index_ p) (current_status_ p) k (current_value_ p) (blanks_ p) (skip_blanks_ p).
Definition set_value (v : str) (p : response_parser) : response_parser :=
  Parser (state_ p) (http_prefix_index_ p) (current_status_ p) (current_key_ p) v (blanks_ p) (skip_blanks_ p).
Definition set_blanks (b : str) (p : response_parser) : response_parser :=
  Parser (state_ p) (http_prefix_index_ p) (current_status_ p) (current_key_ p) (current_value_ p) b (skip_blanks_ p).
Definition set_skip_blanks (b : bool) (p : response_parser) : response_parser :=
  Parser (state_ p) (http_prefix_index_ p) (current_status_ p) (current_key_ p) (current_value_ p) (blanks_ p) b.

(** ** Character handlers: the returned flag is the handler's return value. *)

Definition parse_version (c : ascii) (p : response_parser) : bool * response_parser :=
  if (http_prefix_index_ p <? HTTP_VERSION_PREFIX_LEN)%nat then
    (bool_decide (HTTP_VERSION_PREFIX !! http_prefix_index_ p = Some c),
     set_prefix_index (S (http_prefix_index_ p)) p)
  else if ceq c "/" then (true, set_state MAJOR_VERSION p)
  else (false, p).

Definition parse_major_version (c : ascii) (p : response_parser) (r : response) : bool * response_parser * response :=
  if isdigit c then (true, p, set_rversion (Version (digit_value c) (minor (rversion r))) r)
  else if ceq c "." then (true, set_state MINOR_VERSION p, r)
  else (false, p, r).

Definition parse_minor_version (c : ascii) (p : response_parser) (r : response) : bool * response_parser * response :=
  if isdigit c then (true, p, set_rversion (Version (major (rversion r)) (digit_value c)) r)
  else if ceq c " " then (true, set_state STATUS_CODE p, r)
  else (false, p, r).

(** [http::to_status] throws on a code that is not in its table. *)
Definition parse_status_code (c : ascii) (p : response_parser) (r : response) :
    result (bool * response_parser * response) :=
  if isdigit c then Ok (true, set_current_status (current_status_ p ++ [c]) p, r)
  else if ceq c " " then
    let? s := to_status (current_status_ p) in
    Ok (true, set_state STATUS_TEXT (set_current_status [] p), set_status s r)
  else Ok (false, p, r).

Definition parse_status_text (c : ascii) (p : response_parser) : bool * response_parser :=
  if isalnum c || ceq c " " then (true, set_current_status (current_status_ p ++ [c]) p)
  else if ceq c CR then (true, set_state HEADER (set_current_status [] p))
  else (false, p).

Definition parse_header (c : ascii) (p : response_parser) : bool * response_parser :=
  if ceq c LF then (true, set_state HEADER_KEY (set_value [] (set_key [] p)))
  else (false, p).

Definition parse_header_key (c : ascii) (p : response_parser) : bool * response_parser :=
  if isalnum c || ceq c "-" then (true, set_key (current_key_ p ++ [c]) p)
  else if ceq c ":" then (true, set_state HEADER_VALUE_BEGIN p)
  else (ceq c " ", p).

Definition parse_header_value_begin (c : ascii) (p : response_parser) : bool * response_parser :=
  if ceq c " " then (true, p)
  else if isalnum c || ispunct c then
    (true, set_state HEADER_VALUE (set_value [c] (set_blanks [] p)))
  else (false, p).

Definition isutf8 (c : ascii) : bool := (0 <? Z.land (code c) 128)%Z.

Definition parse_header_value (c : ascii) (p : response_parser) : bool * response_parser :=
  if ceq c " " || ceq c TAB then (true, set_blanks (blanks_ p ++ [c]) p)
  else if ceq c CR then (true, set_state HEADER_NEWLINE p)
  else if isutf8 c || isalnum c || ispunct c then
    let p1 :=
      if negb (bool_decide (blanks_ p = [])) && negb (skip_blanks_ p)
      then set_blanks [] (set_value (current_value_ p ++ blanks_ p) p)
      else if skip_blanks_ p then set_skip_blanks false (set_blanks [] p)
      else p in
    (true, set_value (current_value_ p1 ++ [c]) p1)
  else (false, p).

Definition insert_header (key value : str) (r : response) : response :=
  let r := set_rheaders (map_insert_new key value (rheaders r)) r in
  if strcasecmp0 key CONTENT_TYPE then
    set_rcontent (Content (length_ (rcontent r)) value (md5_ (rcontent r)) (language_ (rcontent r))) r
  else if strcasecmp0 key CONTENT_LENGTH then
    set_rcontent (Content value (type_ (rcontent r)) (md5_ (rcontent r)) (language_ (rcontent r))) r
  else if strcasecmp0 key CONTENT_MD5 then
    set_rcontent (Content (length_ (rcontent r)) (type_ (rcontent r)) value (language_ (rcontent r))) r
  else r.

Definition parse_header_newline (c : ascii) (p : response_parser) (r : response) : bool * response_parser * response :=
  if ceq c LF then (true, p, r)
  else if ceq c " " || ceq c TAB then (true, set_skip_blanks true (set_state HEADER_VALUE p), r)
  else if isalnum c || ispunct c then
    (true, set_state HEADER_KEY (set_key [c] p), insert_header (current_key_ p) (current_value_ p) r)
  else if ceq c CR then
    (true, set_state HEADER_FINISH (set_key [] p), insert_header (current_key_ p) (current_value_ p) r)
  else (false, p, r).

Definition parse_header_finish (c : ascii) (p : response_parser) : bool * response_parser :=
  if ceq c LF then (true, set_state BODY p) else (false, p).

(** ** The dispatch loop *)

(** One iteration: [ret], [finished] and the new state. *)
Definition dispatch (c : ascii) (p : response_parser) (r : response) :
    result (bool * bool * response_parser * response) :=
  let ro '(ret, p', r') := Ok (ret, false, p', r') in
  let po '(ret, p') := Ok (ret, false, p', r) in
  match state_ p with
  | VERSION => po (parse_version c p)
  | MAJOR_VERSION => ro (parse_major_version c p r)
  | MINOR_VERSION => ro (parse_minor_version c p r)
  | STATUS_CODE => let? x := parse_status_code c p r in ro x
  | STATUS_TEXT => po (parse_status_text c p)
  | HEADER => po (parse_header c p)
  | HEADER_KEY => po (parse_header_key c p)
  | HEADER_VALUE_BEGIN => po (parse_header_value_begin c p)
  | HEADER_VALUE => po (parse_header_value c p)
  | HEADER_NEWLINE => ro (parse_header_newline c p r)
  | HEADER_FINISH => let '(ret, p') := parse_header_finish c p in Ok (ret, ret, p', r)
  | BODY => Ok (false, false, p, r)
  end.

Fixpoint parse_loop (msg : str) (p : response_parser) (r : response) :
    result (loop_exit * response_parser * response) :=
  match msg with
  | [] => Ok (LEnd, p, r)
  | c :: msg' =>
    let? x := dispatch c p r in
    match x with
    | (false, _, p', r') => Ok (LReturn INVALID, p', r')
    | (true, true, p', r') => Ok (LBreak msg', p', r')
    | (true, false, p', r') => parse_loop msg' p' r'
    end
  end.

(** The block after the loop: [rest] is the message from [++pos] on. *)
Definition parse_body (res : return_t) (rest : str) (p : response_parser) (r : response) :
    result (return_t * response_parser * response) :=
  let? len := stoul (length_ (rcontent r)) in
  let length_left := u64 (len - Z.of_nat (length (rbody r))) in
  let remaining := Z.of_nat (length rest) in
  if (0 <? length_left)%Z then
    let r1 := set_rbody (rbody r ++ rest) r in
    if (remaining =? length_left)%Z then Ok (FINISH, set_state VERSION p, r1)
    else if (remaining <? length_left)%Z then Ok (PARTIAL, p, r1)
    else Ok (res, p, r1)
  else if (0 <? remaining)%Z then Ok (FINISH, set_state VERSION p, set_rbody rest r)
  else Ok (res, p, r).

Definition parse_finish (res : return_t) (rest : str) (p : response_parser) (r : response) :
    result (return_t * response_parser * response) :=
  if bool_decide (state_ p = BODY) then parse_body res rest p r else Ok (res, p, r).

Definition parse (msg : str) (p : response_parser) (r : response) :
    result (return_t * response_parser * response) :=
  if bool_decide (state_ p = BODY) then parse_finish PARTIAL msg p r
  else
    let? (ex, p', r') := parse_loop msg (set_prefix_index 0 p) r in
    match ex with
    | LReturn res => Ok (res, p', r')
    | LBreak rest => parse_finish FINISH rest p' r'
    | LEnd => parse_finish PARTIAL [] p' r'
    end.

Definition reset (p : response_parser) : response_parser :=
  set_skip_blanks false (set_blanks [] (set_value [] (set_key [] (set_prefix_index 0 (set_state VERSION p))))).

(** ** Feeding a message in pieces *)

(** All branches of a step. *)
Ltac dispatch_cases p :=
  destruct p as [st i cs k v b sk];
  unfold dispatch, parse_version, parse_major_version, parse_minor_version,
    parse_status_code, parse_status_text, parse_header, parse_header_key, parse_header_value_begin,
    parse_header_value, parse_header_newline, parse_header_finish; simpl in *;
  destruct st; simpl; try done; try (destruct (to_status cs)); repeat case_goal; simpl.

(** Only [parse_version] looks at [http_prefix_index_], and no handler goes
    back to it. *)
Lemma dispatch_prefix n c p r :
  state_ p <> VERSION ->
  dispatch c (set_prefix_index n p) r
  = (let? (ret, fin, p', r') := dispatch c p r in Ok (ret, fin, set_prefix_index n p', r')).
Proof.
  intros Hs. dispatch_cases p; by simplify_eq/=.
Qed.

Lemma dispatch_state c p r ret fin p' r' :
  dispatch c p r = Ok (ret, fin, p', r') -> state_ p <> VERSION -> state_ p' <> VERSION.
Proof.
  dispatch_cases p; intros; by simplify_eq/=.
Qed.

Lemma parse_loop_prefix n msg p r :
  state_ p <> VERSION ->
  parse_loop msg (set_prefix_index n p) r
  = (let? (ex, p', r') := parse_loop msg p r in Ok (ex, set_prefix_index n p', r')).
Proof.
  revert p r. induction msg as [|c msg IH]; intros p r Hs; [done |]. simpl.
  rewrite dispatch_prefix by done. destruct (dispatch c p r) as [[[[ret fin] p'] r']|] eqn:E; [|done].
  simpl. destruct ret, fin; try done. apply IH. by eapply dispatch_state.
Qed.

Lemma dispatch_finished c p r ret fin p' r' :
  dispatch c p r = Ok (ret, fin, p', r') ->
  (ret = true -> fin = true -> state_ p' = BODY) /\ (fin = false -> state_ p <> BODY -> state_ p' <> BODY).
Proof.
  dispatch_cases p; intros; simplify_eq/=; split; by intros.
Qed.

Lemma parse_loop_state msg p r ex p' r' :
  parse_loop msg p r = Ok (ex, p', r') ->
  match ex with
  | LBreak _ => state_ p' = BODY
  | LEnd => state_ p <> BODY -> state_ p' <> BODY
  | LReturn _ => True
  end.
Proof.
  revert p r. induction msg as [|c msg IH]; intros p r H; simpl in H; [by simplify_eq |].
  destruct (dispatch c p r) as [[[[ret fin] q] s]|] eqn:E; [|done]. simpl in H.
  destruct (dispatch_finished _ _ _ _ _ _ _ E) as [H1 H2].
  destruct ret, fin; simplify_eq; try done; [by apply H1 |]. apply IH in H. destruct ex; try done. auto.
Qed.

Lemma parse_loop_past_version msg p r ex p' r' :
  parse_loop msg p r = Ok (ex, p', r') -> state_ p <> VERSION -> state_ p' <> VERSION.
Proof.
  revert p r. induction msg as [|c msg IH]; intros p r H Hs; simpl in H; [by simplify_eq |].
  destruct (dispatch c p r) as [[[[ret fin] q] s]|] eqn:E; [|done]. simpl in H.
  pose proof (dispatch_state _ _ _ _ _ _ _ E Hs) as Hq. destruct ret, fin; simplify_eq; try done. eauto.
Qed.

(** A message whose header part is complete, cut in two: the cut is in the
    header or in the body. *)
Lemma parse_loop_cut a b p r rest p' r' :
  parse_loop (a ++ b) p r = Ok (LBreak rest, p', r') ->
  (exists q s, parse_loop a p r = Ok (LEnd, q, s) /\ parse_loop b q s = Ok (LBreak rest, p', r'))
  \/ (exists rest', parse_loop a p r = Ok (LBreak rest', p', r') /\ rest = rest' ++ b).
Proof.
  revert p r. induction a as [|c a IH]; intros p r H; simpl in *; [left; by eauto |].
  destruct (dispatch c p r) as [[[[ret fin] q] s]|]; [|done]. simpl in *.
  destruct ret, fin; simplify_eq; [|by apply IH]. right. by exists a.
Qed.

(** What is needed of the body: its length is the announced one. *)
Definition announces (r : response) (body : str) : Prop :=
  stoul (length_ (rcontent r)) = Ok (Z.of_nat (length (rbody r ++ body))).

Lemma parse_body_cut res a b p r :
  announces r (a ++ b) -> a ++ b <> [] ->
  parse_body res a p r
  = Ok (if decide (b = []) then (FINISH, set_state VERSION p, set_rbody (rbody r ++ a) r)
        else (PARTIAL, p, set_rbody (rbody r ++ a) r)).
Proof.
  unfold announces, parse_body. intros Hl Hne. pose proof (stoul_range _ _ Hl) as Hr. unfold ULONG_MAX in Hr.
  rewrite Hl. cbn [rbind]. rewrite !length_app in *. unfold u64. rewrite wrap_small by lia.
  assert (0 < length a + length b) by (destruct a, b; simpl in *; try done; lia).
  rewrite (proj2 (Z.ltb_lt _ _)) by lia. case_decide as Hb; [subst; simpl in * | destruct b; [done |]; simpl in *].
  - by rewrite (proj2 (Z.eqb_eq _ _)) by lia.
  - rewrite (proj2 (Z.eqb_neq _ _)) by lia. by rewrite (proj2 (Z.ltb_lt _ _)) by lia.
Qed.

Lemma parse_body_empty p r : announces r [] -> parse_body FINISH [] p r = Ok (FINISH, p, r).
Proof.
  unfold announces, parse_body. intros ->. cbn [rbind]. rewrite app_nil_r, Z.sub_diag. reflexivity.
Qed.

(** [p] has read a part of a message and [msg] is what is left of it; with
    it, the response becomes [r']. *)
Inductive awaits (p : response_parser) (r : response) (msg : str) (r' : response) : Prop :=
| awaits_body : state_ p = BODY -> announces r msg -> r' = set_rbody (rbody r ++ msg) r -> awaits p r msg r'
| awaits_header body q s :
    state_ p <> BODY -> parse_loop msg (set_prefix_index 0 p) r = Ok (LBreak body, q, s) ->
    announces s body -> r' = set_rbody (rbody s ++ body) s -> awaits p r msg r'.

Lemma set_rbody_app a b r : set_rbody (rbody r ++ a ++ b) r = set_rbody (rbody (set_rbody (rbody r ++ a) r) ++ b) (set_rbody (rbody r ++ a) r).
Proof. destruct r. cbn. by rewrite app_assoc. Qed.

Lemma announces_app r a b : announces r (a ++ b) -> announces (set_rbody (rbody r ++ a) r) b.
Proof. unfold announces. cbn. by rewrite <- app_assoc. Qed.

(** The pieces of a message but the last leave the parser waiting for the
    rest, the last one finishes the response. A piece must not end in the
    version prefix. *)
Lemma parse_piece p r a b r' :
  awaits p r (a ++ b) r' -> a <> [] ->
  (forall q s, parse_loop a (set_prefix_index 0 p) r = Ok (LEnd, q, s) -> state_ q <> VERSION) ->
  if decide (b = []) then exists p', parse a p r = Ok (FINISH, p', r')
  else exists p1 r1, parse a p r = Ok (PARTIAL, p1, r1) /\ state_ p1 <> VERSION /\ awaits p1 r1 b r'.
Proof.
  intros H Ha Hv. unfold parse, parse_finish. assert (a ++ b <> []) as Hne by (by destruct a).
  destruct H as [Hs Hl -> | body q s Hs El Hl ->].
  - rewrite (bool_decide_eq_true_2 _ Hs), (parse_body_cut PARTIAL a b p r Hl Hne).
    case_decide as Hb; [subst; rewrite app_nil_r; by eexists |]. eexists _, _. split; [done |].
    split; [by rewrite Hs |]. apply awaits_body; [done | by apply announces_app | apply set_rbody_app].
  - rewrite (bool_decide_eq_false_2 _ Hs).
    destruct (parse_loop_cut _ _ _ _ _ _ _ El) as [(q1 & s1 & Ea & Eb) | (rest & Ea & ->)]; rewrite Ea; cbn [rbind].
    + case_decide as Hb; [by subst |]. pose proof (parse_loop_state _ _ _ _ _ _ Ea Hs) as Hs1.
      rewrite (bool_decide_eq_false_2 _ Hs1). eexists _, _. split; [done |].
      split; [by eapply Hv |]. eapply awaits_header; [done | | exact Hl | done].
      rewrite parse_loop_prefix by (by eapply Hv). by rewrite Eb.
    + pose proof (parse_loop_state _ _ _ _ _ _ Ea) as Hs1. cbn in Hs1. rewrite (bool_decide_eq_true_2 _ Hs1).
      destruct (decide (rest ++ b = [])) as [En | Hne'].
      * apply app_eq_nil in En as [-> ->]. rewrite decide_True by done. rewrite parse_body_empty by done.
        exists q. cbn. rewrite app_nil_r. by destruct s.
      * rewrite (parse_body_cut FINISH rest b q s Hl Hne'). case_decide as Hb; [subst; rewrite app_nil_r; by eexists |].
        eexists _, _. split; [done |]. split; [by rewrite Hs1 |].
        apply awaits_body; [done | by apply announces_app | apply set_rbody_app].
Qed.

(** ** What a server writes is what the client reads *)

Definition text_char (c : ascii) : bool := isutf8 c || isalnum c || ispunct c.
Definition blank_char (c : ascii) : bool := ceq c " " || ceq c TAB.

(** A value the parser takes as written: it starts with a printable ASCII
    character and does not end with a blank. *)
Definition valid_value (v : str) : Prop :=
  exists c w, v = c :: w /\ isalnum c || ispunct c = true /\ Forall (fun c => text_char c || blank_char c = true) w
              /\ (forall w' d, w = w' ++ [d] -> text_char d = true).
Definition valid_header (kv : str * str) : Prop := RequestParser.valid_key kv.1 /\ valid_value kv.2.

Lemma resp_text_facts c : text_char c = true -> blank_char c = false /\ ceq c CR = false /\ ceq c " " = false.
Proof. by_chars c. Qed.

Lemma resp_key_facts c :
  RequestParser.key_char c = true ->
  ceq c LF = false /\ blank_char c = false /\ isalnum c || ispunct c = true.
Proof. by_chars c. Qed.

Lemma resp_loop_cons c msg p r p' r' :
  dispatch c p r = Ok (true, false, p', r') -> parse_loop (c :: msg) p r = parse_loop msg p' r'.
Proof. intros Hd. simpl. by rewrite Hd. Qed.

Abbreviation absorb := (foldl (fun r kv => insert_header kv.1 kv.2 r)).

Section Segments.
Context (i : nat) (cs : str).

(** The parser while it reads the headers. *)
Local Definition at_header (st : state_t) (k v b : str) : response_parser := Parser st i cs k v b false.

Lemma resp_loop_key s k v b msg r :
  Forall (fun c => RequestParser.key_char c = true) s ->
  parse_loop (s ++ msg) (at_header HEADER_KEY k v b) r = parse_loop msg (at_header HEADER_KEY (k ++ s) v b) r.
Proof.
  revert k. induction s as [|c s IH]; intros k Hs; [by rewrite app_nil_r |].
  apply Forall_cons_1 in Hs as [Hc Hs]. rewrite <- app_comm_cons.
  erewrite resp_loop_cons; [|cbn; unfold parse_header_key; unfold RequestParser.key_char in Hc; by rewrite Hc].
  change (set_key _ _) with (at_header HEADER_KEY (k ++ [c]) v b). rewrite IH by done. by rewrite <- app_assoc.
Qed.

(** Blanks are held back until another character follows. *)
Lemma resp_loop_value s k v b msg r :
  Forall (fun c => text_char c || blank_char c = true) s ->
  exists v' b', v' ++ b' = v ++ b ++ s
    /\ (forall s' d, s = s' ++ [d] -> text_char d = true -> b' = []) /\ (s = [] -> b' = b)
    /\ parse_loop (s ++ msg) (at_header HEADER_VALUE k v b) r = parse_loop msg (at_header HEADER_VALUE k v' b') r.
Proof.
  revert v b. induction s as [|c s IH]; intros v b Hs.
  { exists v, b. rewrite app_nil_r. split_and!; try done. intros [] ? ?; done. }
  apply Forall_cons_1 in Hs as [Hc Hs]. rewrite <- app_comm_cons.
  destruct (text_char c) eqn:Et.
  - destruct (resp_text_facts _ Et) as (Hb & Hcr & _).
    destruct (IH (v ++ b ++ [c]) [] Hs) as (v' & b' & E1 & E2 & E3 & E4).
    exists v', b'. split; [by rewrite E1, <- !app_assoc |]. split.
    { intros s' d E Hd. destruct s' as [|e s']; simplify_eq/=; [by apply E3 | by eapply E2]. }
    split; [done |]. rewrite <- E4. erewrite resp_loop_cons; [done |].
    cbn. unfold parse_header_value; cbn. unfold blank_char in Hb. unfold text_char in Et. rewrite Hb, Hcr, Et.
    case_goal; cbn in *; unfold at_header, set_value, set_blanks; cbn; [by rewrite <- app_assoc |].
    destruct b; [done |]. by cbn in *.
  - cbn in Hc. destruct (IH v (b ++ [c]) Hs) as (v' & b' & E1 & E2 & E3 & E4).
    exists v', b'. split; [by rewrite E1, <- !app_assoc |]. split.
    { intros s' d E Hd. destruct s' as [|e s']; simplify_eq/=; [congruence | by eapply E2]. }
    split; [done |]. rewrite <- E4. erewrite resp_loop_cons; [done |].
    cbn. unfold parse_header_value. unfold blank_char in Hc. by rewrite Hc.
Qed.

Lemma resp_loop_rest_of_header k v v0 b0 msg r :
  valid_value v ->
  parse_loop (lit ": " ++ v ++ CRLF ++ msg) (at_header HEADER_KEY k v0 b0) r
  = parse_loop msg (at_header HEADER_NEWLINE k v []) r.
Proof.
  intros (c & w & -> & Hc & Hw & Hl).
  assert (ceq c " " = false) as Hs.
  { apply resp_text_facts. unfold text_char. rewrite <- orb_assoc, Hc. apply orb_true_r. }
  change (lit ": ") with [":"%char; " "%char]. cbn [app].
  do 2 (erewrite resp_loop_cons; [|done]).
  erewrite resp_loop_cons; [|cbn; unfold parse_header_value_begin; by rewrite Hs, Hc].
  destruct (resp_loop_value w k [c] [] (CRLF ++ msg) r Hw) as (v' & b' & E1 & E2 & E3 & E4).
  etrans; [exact E4 |].
  assert (b' = []) as ->.
  { destruct w as [|d w _] using rev_ind; [by apply E3 |]. eapply E2; eauto. }
  rewrite app_nil_r in E1. cbn in E1. by subst.
Qed.

Lemma resp_loop_first_header k v v0 b0 msg r :
  valid_header (k, v) ->
  parse_loop (header_line (k, v) ++ msg) (at_header HEADER_KEY [] v0 b0) r
  = parse_loop msg (at_header HEADER_NEWLINE k v []) r.
Proof.
  intros [[_ Hk] Hv]. unfold header_line. rewrite <- !app_assoc. cbn [fst snd] in *.
  rewrite resp_loop_key by done. by apply resp_loop_rest_of_header.
Qed.

Lemma resp_loop_next_header k v k' v' msg r :
  valid_header (k', v') ->
  parse_loop (header_line (k', v') ++ msg) (at_header HEADER_NEWLINE k v []) r
  = parse_loop msg (at_header HEADER_NEWLINE k' v' []) (insert_header k v r).
Proof.
  intros [[Hk' Hk] Hv]. unfold header_line. rewrite <- !app_assoc. cbn [fst snd] in *.
  destruct k' as [|c k']; [done |]. apply Forall_cons_1 in Hk as [Hc Hk].
  destruct (resp_key_facts _ Hc) as (H2 & H3 & H4). rewrite <- app_comm_cons.
  erewrite resp_loop_cons; [|cbn; unfold parse_header_newline; unfold blank_char in H3; by rewrite H2, H3, H4].
  change (set_state HEADER_KEY _) with (at_header HEADER_KEY [c] v []).
  rewrite resp_loop_key by done. by apply resp_loop_rest_of_header.
Qed.

Lemma resp_loop_headers hdrs k v msg r :
  Forall valid_header hdrs ->
  exists vl, parse_loop (concat (header_line <$> hdrs) ++ CRLF ++ msg) (at_header HEADER_NEWLINE k v []) r
  = Ok (LBreak msg, at_header BODY [] vl [], absorb r ((k, v) :: hdrs)).
Proof.
  revert k v r. induction hdrs as [|[k' v'] hdrs IH]; intros k v r Hh; [by exists v |].
  apply Forall_cons_1 in Hh as [H1 Hh]. cbn [fmap list_fmap concat]. rewrite <- app_assoc.
  rewrite resp_loop_next_header by done. by apply IH.
Qed.
End Segments.

(** The header lines [to_buffers] writes, and their effect on a response. *)
Definition wire_headers (hs : list (str * str)) (r : response) : list (str * str) :=
  hs ++ (if bool_decide (rbody r = []) then []
         else [(CONTENT_LENGTH, length_ (rcontent r)); (CONTENT_TYPE, type_ (rcontent r))]).

Lemma response_to_buffers_wire hs r line :
  to_request_string (status_ r) = Ok line ->
  response_to_buffers hs r = Ok (line ++ concat (header_line <$> wire_headers hs r) ++ CRLF ++ rbody r).
Proof.
  intros Hl. unfold response_to_buffers, wire_headers. rewrite Hl. cbn [rbind]. rewrite fmap_app, concat_app.
  destruct (bool_decide _); cbn [fmap list_fmap concat]; by rewrite <- !app_assoc.
Qed.

Lemma resp_insert_fields k v r :
  status_ (insert_header k v r) = status_ r /\ rversion (insert_header k v r) = rversion r
  /\ rbody (insert_header k v r) = rbody r /\ rheaders (insert_header k v r) = map_insert_new k v (rheaders r).
Proof. unfold insert_header. by repeat case_goal. Qed.

Lemma resp_absorb_fields hdrs r :
  status_ (absorb r hdrs) = status_ r /\ rversion (absorb r hdrs) = rversion r /\ rbody (absorb r hdrs) = rbody r.
Proof.
  revert r. induction hdrs as [|[k v] hdrs IH]; intros r; simpl; [done |].
  destruct (IH (insert_header k v r)) as (-> & -> & ->). by destruct (resp_insert_fields k v r) as (-> & -> & -> & _).
Qed.

Lemma resp_absorb_headers hdrs r k :
  rheaders (absorb r hdrs) !! k = match rheaders r !! k with Some v => Some v | None => assoc k hdrs end.
Proof.
  revert r. induction hdrs as [|[k' v'] hdrs IH]; intros r; simpl; [by destruct (rheaders r !! k) |].
  rewrite IH. destruct (resp_insert_fields k' v' r) as (_ & _ & _ & ->).
  case_decide as E; [subst; rewrite lookup_map_insert_new; by destruct (rheaders r !! k') |].
  by rewrite lookup_map_insert_new_ne by done.
Qed.

Lemma resp_absorb_length hdrs r :
  Forall (fun kv => strcasecmp0 kv.1 CONTENT_LENGTH = false) hdrs ->
  length_ (rcontent (absorb r hdrs)) = length_ (rcontent r).
Proof.
  revert r. induction hdrs as [|[k v] hdrs IH]; intros r Hh; simpl; [done |].
  apply Forall_cons_1 in Hh as [Hk Hh]. rewrite IH by done. simpl in Hk.
  unfold insert_header. repeat case_goal; try done; congruence.
Qed.

(** The status line leaves the parser at the first header. *)
Lemma resp_loop_status st line k v b msg r :
  to_request_string st = Ok line ->
  parse_loop (line ++ msg) (Parser VERSION 0 [] k v b false) r
  = parse_loop msg (at_header 4 [] HEADER_KEY [] [] b) (set_status st (set_rversion (Version 1 1) r)).
Proof. destruct st; intros [= <-]; reflexivity. Qed.

Lemma resp_line_prefix st line : to_request_string st = Ok line -> exists line', line = lit "HTTP/" ++ line'.
Proof. destruct st; intros [= <-]; by eexists. Qed.

(** A response a server may send: it has headers and they are valid, and a
    body goes with its length, as [create] leaves it. *)
Record answerable (hs : list (str * str)) (r : response) : Prop := {
  answerable_headers : Forall valid_header (wire_headers hs r);
  answerable_some : hs <> [];
  answerable_length : Forall (fun kv => strcasecmp0 kv.1 CONTENT_LENGTH = false) hs;
  answerable_body : rbody r <> [] ->
    length_ (rcontent r) = to_string_u (Z.of_nat (length (rbody r))) /\ (Z.of_nat (length (rbody r)) <= ULONG_MAX)%Z }.

(** What the client holds of a response when it is complete. *)
Definition received (hs : list (str * str)) (r r' : response) : Prop :=
  status_ r' = status_ r /\ rversion r' = Version 1 1
  /\ (forall k, rheaders r' !! k = assoc k (wire_headers hs r)) /\ rbody r' = rbody r.

Lemma response_awaited hs r :
  answerable hs r ->
  exists msg r', response_to_buffers hs r = Ok (lit "HTTP/" ++ msg) /\ awaits parser0 response0 (lit "HTTP/" ++ msg) r'
    /\ received hs r r'.
Proof.
  intros [Hh Hne Hl Hb].
  assert (exists line, to_request_string (status_ r) = Ok line) as [line El] by (destruct (status_ r); by eexists).
  destruct (resp_line_prefix _ _ El) as [line' ->].
  rewrite (response_to_buffers_wire _ _ _ El). rewrite <- app_assoc.
  set (r0 := set_status (status_ r) (set_rversion (Version 1 1) response0)).
  set (hdrs := wire_headers hs r) in *. eexists.
  destruct (resp_absorb_fields hdrs r0) as (Es & Ev & Ebd).
  exists (set_rbody (rbody r) (absorb r0 hdrs)). split; [done |]. split.
  - assert (exists k1 v1 hdrs', hdrs = (k1, v1) :: hdrs') as (k1 & v1 & hdrs' & Eh).
    { unfold hdrs, wire_headers. destruct hs as [|[k1 v1] hs]; [done |]. by eexists _, _, _. }
    rewrite Eh in Hh |- *. apply Forall_cons_1 in Hh as [Hh1 Hh].
    destruct (resp_loop_headers 4 [] hdrs' k1 v1 (rbody r) r0 Hh) as [vl Eloop].
    eapply awaits_header; [done | | |].
    + change (set_prefix_index 0 parser0) with (Parser VERSION 0 [] [] [] [] false).
      rewrite (app_assoc (lit _)), (resp_loop_status _ _ _ _ _ _ _ El). cbn [fmap list_fmap concat]. rewrite <- app_assoc.
      rewrite (resp_loop_first_header 4 [] k1 v1 [] [] _ _ Hh1). exact Eloop.
    + rewrite <- Eh. unfold announces. rewrite Ebd. cbn [rbody r0 set_status set_rversion response0 app].
      unfold hdrs, wire_headers. destruct (decide (rbody r = [])) as [Hn | Hn].
      * rewrite (bool_decide_eq_true_2 _ Hn), app_nil_r, resp_absorb_length, Hn by done. reflexivity.
      * rewrite (bool_decide_eq_false_2 _ Hn), foldl_app. destruct (Hb Hn) as (Hlen & Hr).
        cbn. rewrite Hlen. apply stoul_to_string. lia.
    + rewrite <- Eh, Ebd. reflexivity.
  - split_and!; [exact Es | exact Ev | | done]. intros k. cbn. rewrite resp_absorb_headers. reflexivity.
Qed.

Definition valid_value_b (v : str) : bool :=
  match v with
  | [] => false
  | c :: w => (isalnum c || ispunct c) && forallb (fun c => text_char c || blank_char c) w
              && match unsnoc w with None => true | Some (_, d) => text_char d end
  end.

Lemma resp_value_intro v : valid_value_b v = true -> valid_value v.
Proof.
  destruct v as [|c w]; simpl; [done |]. intros [[Hc Hw]%andb_true_iff Hl]%andb_true_iff.
  exists c, w. split_and!; try done.
  - apply list.Forall_forall. intros x Hx. rewrite forallb_forall in Hw. by apply Hw, list_elem_of_In.
  - intros w' d ->. by rewrite unsnoc_snoc in Hl.
Qed.

(** ** Test messages *)
Definition no_content_message : str :=
  lit "HTTP/1.1 204 No Content" ++ CRLF ++ lit "Server: Matador/0.7.0" ++ CRLF ++ CRLF.

(** After a response without a body the parser stays in the body: the next
    response is read as one. *)
Example second_response_is_body :
  match parse no_content_message parser0 response0 with
  | Ok (FINISH, p, _) =>
    match parse no_content_message p response0 with
    | Ok (FINISH, _, r) => rbody r = no_content_message /\ status_ r = OK
    | _ => False
    end
  | _ => False
  end.
Proof. vm_compute. auto. Qed.

(** [to_status] knows sixteen codes and throws on the others. *)
Example unknown_status_throws : is_ok (parse (lit "HTTP/1.1 206 Partial Content") parser0 response0) = false.
Proof. vm_compute. reflexivity. Qed.

End ResponseParser.
