(* ===== verification/Regex.v ===== *)
(** * std::regex

    The part of the ECMAScript grammar of [std::regex] that the routing code
    uses: alternatives, groups, quantifiers, character classes and escapes.
    [compile] reads a pattern, [regex_match] is the backtracking matcher of
    the ECMAScript standard with its captures. The language of a pattern
    ([lang]) is the specification: the matcher accepts exactly its words, and
    groups capture what they matched. Anchors, look-ahead, back references
    and named classes are refused with [not_modelled]. *)

From S2P Require Import Prelude.
Local Open Scope cxx_scope.

Module Regex.

(** [Rep lo extra]: [lo] rounds, and up to [extra] more ([None]: any number). *)
Inductive regex :=
| Eps
| One (p : ascii -> bool)
| Seq (r s : regex)
| Alt (r s : regex)
| Rep (lo : nat) (extra : option nat) (greedy : bool) (r : regex)
| Group (n : nat) (r : regex).

Abbreviation captures := (gmap nat str).

(** ** Reading a pattern *)

Definition regex_error {A} : result A := Throw (runtime_error "regex_error").
Definition unsupported {A} : result A := Throw (not_modelled "regex").

Definition isc (c : ascii) : ascii -> bool := fun d => bool_decide (c = d).
Definition word_char (c : ascii) : bool := isalnum c || isc "_" c.
Definition any_char (c : ascii) : bool := negb (isc LF c || isc CR c).

(** The class a letter stands for after a backslash. *)
Definition class_escape (c : ascii) : option (ascii -> bool) :=
  if isc "d" c then Some isdigit
  else if isc "D" c then Some (fun x => negb (isdigit x))
  else if isc "w" c then Some word_char
  else if isc "W" c then Some (fun x => negb (word_char x))
  else if isc "s" c then Some isspace
  else if isc "S" c then Some (fun x => negb (isspace x))
  else None.

(** Letters with a meaning of their own after a backslash are refused, every
    other character stands for itself. *)
Definition escape (c : ascii) : result (ascii -> bool) :=
  match class_escape c with
  | Some p => Ok p
  | None =>
    if isc "n" c then Ok (isc LF)
    else if isc "r" c then Ok (isc CR)
    else if isc "t" c then Ok (isc TAB)
    else if isalnum c then unsupported
    else Ok (isc c)
  end.

(** The items of a bracket expression up to the closing bracket. *)
Fixpoint class_items (s : str) (acc : ascii -> bool) : result ((ascii -> bool) * str) :=
  match s with
  | [] => regex_error
  | c :: s' =>
    if isc "]" c then Ok (acc, s')
    else if isc "[" c then unsupported
    else if isc "\" c then
      match s' with
      | [] => regex_error
      | d :: s'' => let? p := escape d in class_items s'' (fun x => acc x || p x)
      end
    else
      match s' with
      | d :: e :: s'' =>
        if isc "-" d && negb (isc "]" e) then
          if isc "[" e || isc "\" e then unsupported
          else if (code e <? code c)%Z then regex_error
          else class_items s'' (fun x => acc x || between (code c) (code e) x)
        else class_items s' (fun x => acc x || isc c x)
      | _ => class_items s' (fun x => acc x || isc c x)
      end
  end.

Definition bracket (s : str) : result (regex * str) :=
  match s with
  | c :: s' =>
    if isc "^" c then let? (p, rest) := class_items s' (fun _ => false) in Ok (One (fun x => negb (p x)), rest)
    else let? (p, rest) := class_items s (fun _ => false) in Ok (One p, rest)
  | [] => regex_error
  end.

(** [{n}], [{n,}] and [{n,m}], behind the brace: the rounds and the extra ones. *)
Fixpoint number (acc : option nat) (s : str) : option nat * str :=
  match s with
  | c :: s' =>
    if isdigit c then number (Some (10 * default 0 acc + Z.to_nat (digit_value c))) s' else (acc, s)
  | [] => (acc, s)
  end.

Definition braces (s : str) : result (nat * option nat * str) :=
  match number None s with
  | (Some lo, c :: s') =>
    if isc "}" c then Ok (lo, Some 0, s')
    else if isc "," c then
      match number None s' with
      | (hi, d :: s'') =>
        if isc "}" d then
          match hi with
          | Some h => if (h <? lo)%nat then regex_error else Ok (lo, Some (h - lo), s'')
          | None => Ok (lo, None, s'')
          end
        else regex_error
      | _ => regex_error
      end
    else regex_error
  | _ => regex_error
  end.

Definition lazy_mark (s : str) : bool * str :=
  match s with
  | c :: s' => if isc "?" c then (false, s') else (true, s)
  | [] => (true, s)
  end.

Definition quantifier (r : regex) (s : str) : result (regex * str) :=
  let rep lo extra s := let '(greedy, rest) := lazy_mark s in Ok (Rep lo extra greedy r, rest) in
  match s with
  | c :: s' =>
    if isc "*" c then rep 0 None s'
    else if isc "+" c then rep 1 None s'
    else if isc "?" c then rep 0 (Some 1) s'
    else if isc "{" c then let? (lo, extra, rest) := braces s' in rep lo extra rest
    else Ok (r, s)
  | [] => Ok (r, s)
  end.

(** The counter is the number of groups opened so far. *)
Fixpoint disjunction (fuel n : nat) (s : str) : result (regex * nat * str) :=
  match fuel with
  | O => Throw out_of_fuel
  | S f =>
    let? (r, n, s) := alternative f n s in
    match s with
    | c :: s' =>
      if isc "|" c then let? (r', n, s) := disjunction f n s' in Ok (Alt r r', n, s) else Ok (r, n, s)
    | [] => Ok (r, n, s)
    end
  end
with alternative (fuel n : nat) (s : str) : result (regex * nat * str) :=
  match fuel with
  | O => Throw out_of_fuel
  | S f =>
    match s with
    | [] => Ok (Eps, n, s)
    | c :: _ =>
      if isc "|" c || isc ")" c then Ok (Eps, n, s)
      else
        let? (r, n, s) := atom f n s in
        let? (r, s) := quantifier r s in
        let? (r', n, s) := alternative f n s in
        Ok (Seq r r', n, s)
    end
  end
with atom (fuel n : nat) (s : str) : result (regex * nat * str) :=
  match fuel with
  | O => Throw out_of_fuel
  | S f =>
    match s with
    | [] => regex_error
    | c :: s' =>
      if isc "(" c then
        match s' with
        | d :: s'' =>
          if isc "?" d then unsupported
          else
            let? (r, n', s) := disjunction f (S n) s' in
            match s with
            | e :: rest => if isc ")" e then Ok (Group (S n) r, n', rest) else regex_error
            | [] => regex_error
            end
        | [] => regex_error
        end
      else if isc "\" c then
        match s' with
        | d :: s'' => let? p := escape d in Ok (One p, n, s'')
        | [] => regex_error
        end
      else if isc "[" c then let? (r, rest) := bracket s' in Ok (r, n, rest)
      else if isc "." c then Ok (One any_char, n, s')
      else if bool_decide (c ∈ lit "*+?") then regex_error
      else if bool_decide (c ∈ lit "^${}]") then unsupported
      else Ok (One (isc c), n, s')
    end
  end.

(** The constructor of [std::regex]: the expression and its number of groups. *)
Definition compile (s : str) : result (regex * nat) :=
  let? (r, n, rest) := disjunction (3 * length s + 3) 0 s in
  match rest with
  | [] => Ok (r, n)
  | _ => regex_error
  end.

(** ** Matching *)

Fixpoint groups (r : regex) : list nat :=
  match r with
  | Eps | One _ => []
  | Seq r s | Alt r s => groups r ++ groups s
  | Rep _ _ _ r => groups r
  | Group n r => n :: groups r
  end.

Definition clear (r : regex) (c : captures) : captures := foldr delete c (groups r).

Definition orelse {A} (x y : option A) : option A := match x with Some a => Some a | None => y end.

Abbreviation cont := (str -> captures -> option captures).

(** The rounds of a repetition, [m] matching one of them; an optional round
    that consumes nothing is given up. *)
Fixpoint rounds (m : str -> captures -> cont -> option captures) (clr : captures -> captures) (greedy : bool) (k : cont)
    (fuel lo : nat) (extra : option nat) (s : str) (c : captures) : option captures :=
  match fuel with
  | O => None
  | S f =>
    match lo with
    | S lo' => m s (clr c) (fun s' c' => rounds m clr greedy k f lo' extra s' c')
    | O =>
      if bool_decide (extra = Some 0) then k s c
      else
        let again :=
          m s (clr c) (fun s' c' =>
            if (length s' =? length s)%nat then None else rounds m clr greedy k f 0 (pred <$> extra) s' c') in
        if greedy then orelse again (k s c) else orelse (k s c) again
    end
  end.

(** The matcher of the ECMAScript standard: [k] matches the rest. *)
Fixpoint mtch (r : regex) (s : str) (c : captures) (k : cont) : option captures :=
  match r with
  | Eps => k s c
  | One p => match s with x :: s' => if p x then k s' c else None | [] => None end
  | Seq r1 r2 => mtch r1 s c (fun s' c' => mtch r2 s' c' k)
  | Alt r1 r2 => orelse (mtch r1 s c k) (mtch r2 s c k)
  | Group n r1 => mtch r1 s c (fun s' c' => k s' (<[n := take (length s - length s') s]> c'))
  | Rep lo extra greedy r1 => rounds (mtch r1) (clear r1) greedy k (lo + length s + 1) lo extra s c
  end.

(** [std::regex_match]: the whole string must match; a group that took no part
    in the match has no entry. *)
Definition regex_match (r : regex) (s : str) : option captures :=
  mtch r s ∅ (fun s' c => if bool_decide (s' = []) then Some c else None).

Definition route_example : str := lit "\/api\/(\w+)\/([0-9]{2,3})".
Example route_example_matches :
  (let? (r, n) := compile route_example in
   Ok ((fun c : captures => (c !! 1, c !! 2, c !! 3)) <$> regex_match r (lit "/api/user/175"), n))
  = Ok (Some (Some (lit "user"), Some (lit "175"), None), 2).
Proof. vm_compute. reflexivity. Qed.

(** ** The language of an expression *)

Fixpoint lang (r : regex) (s : str) : Prop :=
  match r with
  | Eps => s = []
  | One p => exists x, s = [x] /\ p x = true
  | Seq r1 r2 => exists s1 s2, s = s1 ++ s2 /\ lang r1 s1 /\ lang r2 s2
  | Alt r1 r2 => lang r1 s \/ lang r2 s
  | Group _ r1 => lang r1 s
  | Rep lo extra _ r1 =>
    exists l, s = concat l /\ Forall (lang r1) l /\ (lo <= length l)%nat
              /\ (forall e, extra = Some e -> (length l <= lo + e)%nat)
  end.

Lemma orelse_Some {A} (x y : option A) a : orelse x y = Some a -> x = Some a \/ y = Some a.
Proof. destruct x; simpl; auto. Qed.

Lemma orelse_is_Some {A} (x y : option A) : is_Some x \/ is_Some y -> is_Some (orelse x y).
Proof. destruct x; simpl; [by eexists |]. intros [H | H]; [by apply is_Some_None in H | done]. Qed.

(** A match of [r] on a prefix of [s]; without groups in [r] the captures are
    untouched. *)
Definition found (r : regex) (s : str) (c : captures) (k : cont) (x : captures) : Prop :=
  exists s1 s2 c', s = s1 ++ s2 /\ lang r s1 /\ k s2 c' = Some x /\ (groups r = [] -> c' = c).

Lemma clear_none r c : groups r = [] -> clear r c = c.
Proof. unfold clear. by intros ->. Qed.

Lemma found_stop r extra greedy s c (k : cont) x : k s c = Some x -> found (Rep 0 extra greedy r) s c k x.
Proof.
  intros Hk. exists [], s, c. split_and!; try done. exists []. split_and!; try done. simpl. intros e _. lia.
Qed.

(** One more round before a match of the remaining ones. *)
Lemma found_round r lo lo' extra extra' greedy s1 s2 c c1 (k : cont) x :
  lang r s1 -> found (Rep lo' extra' greedy r) s2 c1 k x -> (groups r = [] -> c1 = c) ->
  (lo <= S lo')%nat -> (forall e, extra = Some e -> exists e', extra' = Some e' /\ (S (lo' + e') <= lo + e)%nat) ->
  found (Rep lo extra greedy r) (s1 ++ s2) c k x.
Proof.
  intros Hl (t1 & t2 & c2 & -> & (l & -> & Hf & Hlo & Hhi) & Hk & Hc2) Hc1 Hlo' He.
  exists (s1 ++ concat l), t2, c2. split; [by rewrite <- app_assoc |]. split; [|split; [done |]].
  - exists (s1 :: l). split_and!; [done | by constructor | simpl; lia |].
    intros e Ee. destruct (He e Ee) as (e' & Ee' & Hle). specialize (Hhi e' Ee'). simpl. lia.
  - simpl in *. intros Hg. by rewrite Hc2, Hc1.
Qed.

Lemma rounds_sound r greedy k :
  (forall s c k x, mtch r s c k = Some x -> found r s c k x) ->
  forall fuel lo extra s c x,
    rounds (mtch r) (clear r) greedy k fuel lo extra s c = Some x -> found (Rep lo extra greedy r) s c k x.
Proof.
  intros IH. induction fuel as [|f IHf]; intros lo extra s c x H; simpl in H; [done |].
  destruct lo as [|lo].
  - case_bool_decide as Ee; [by apply found_stop |].
    assert (mtch r s (clear r c) (fun s' c' => if (length s' =? length s)%nat then None
              else rounds (mtch r) (clear r) greedy k f 0 (pred <$> extra) s' c') = Some x \/ k s c = Some x) as [Hm | Hk].
    { destruct greedy; apply orelse_Some in H; intuition. }
    + apply IH in Hm as (s1 & s2 & c' & -> & Hl & Hm & Hc). destruct (_ =? _)%nat; [done |].
      eapply found_round; [done | by apply IHf | | lia |].
      * intros Hg. rewrite Hc by done. by apply clear_none.
      * intros e ->. exists (pred e). split; [done |]. destruct e; [done | simpl; lia].
    + by apply found_stop.
  - apply IH in H as (s1 & s2 & c' & -> & Hl & Hm & Hc).
    eapply found_round; [done | by apply IHf | | lia |].
    + intros Hg. rewrite Hc by done. by apply clear_none.
    + intros e ->. exists e. split; [done | lia].
Qed.

Lemma mtch_sound r s c k x : mtch r s c k = Some x -> found r s c k x.
Proof.
  revert s c k x. induction r as [|p|r1 IH1 r2 IH2|r1 IH1 r2 IH2|lo extra greedy r IH|n r IH]; intros s c k x H; simpl in H.
  - by exists [], s, c.
  - destruct s as [|y s]; [done |]. destruct (p y) eqn:Ep; [|done]. exists [y], s, c. split_and!; try done. by exists y.
  - apply IH1 in H as (s1 & s2 & c1 & -> & Hl1 & H & Hc1). apply IH2 in H as (s3 & s4 & c2 & -> & Hl2 & H & Hc2).
    exists (s1 ++ s3), s4, c2. split; [by rewrite <- app_assoc |]. split; [by exists s1, s3 |]. split; [done |].
    simpl. intros [E1 E2]%app_eq_nil. rewrite Hc2, Hc1; done.
  - apply orelse_Some in H as [H | H]; [apply IH1 in H | apply IH2 in H];
      destruct H as (s1 & s2 & c1 & -> & Hl & H & Hc); exists s1, s2, c1; (split; [done |]; split; [simpl; auto |];
      split; [done |]); simpl; intros [E1 E2]%app_eq_nil; auto.
  - by apply rounds_sound in H.
  - apply IH in H as (s1 & s2 & c1 & -> & Hl & H & Hc). eexists s1, s2, _. split_and!; [done | done | exact H | done].
Qed.

(** A group without groups inside captures what it matched. *)
Lemma mtch_group_sound n r s c (k : cont) x :
  groups r = [] -> mtch (Group n r) s c k = Some x ->
  exists s1 s2, s = s1 ++ s2 /\ lang r s1 /\ k s2 (<[n := s1]> c) = Some x.
Proof.
  intros Hg H. simpl in H. apply mtch_sound in H as (s1 & s2 & c1 & -> & Hl & H & Hc). rewrite Hc in H by done.
  exists s1, s2. split_and!; try done. rewrite <- H. do 2 f_equal. rewrite length_app, take_app_length'; [done | lia].
Qed.

Lemma rounds_complete r greedy (k : cont) s2 :
  (forall s1 s2 c (k : cont), lang r s1 -> (forall c', is_Some (k s2 c')) -> is_Some (mtch r (s1 ++ s2) c k)) ->
  (forall c, is_Some (k s2 c)) ->
  forall l fuel lo extra c,
    Forall (lang r) l -> (lo <= length l)%nat -> (forall e, extra = Some e -> (length l <= lo + e)%nat) ->
    (lo + length (concat l ++ s2) < fuel)%nat ->
    is_Some (rounds (mtch r) (clear r) greedy k fuel lo extra (concat l ++ s2) c).
Proof.
  intros IH Hk. induction l as [|s1 l IHl]; intros fuel lo extra c Hf Hlo He Hfuel; (destruct fuel as [|f]; [lia |]).
  - destruct lo as [|lo]; [|simpl in Hlo; lia]. simpl. case_bool_decide; [apply Hk |].
    destruct greedy; apply orelse_is_Some; auto.
  - apply Forall_cons_1 in Hf as [Hs1 Hf]. simpl in Hlo, He, Hfuel. rewrite !length_app in Hfuel. simpl concat. rewrite <- app_assoc.
    destruct lo as [|lo]; simpl.
    + case_bool_decide as Ee; [specialize (He 0 Ee); lia |].
      assert (is_Some (mtch r (s1 ++ concat l ++ s2) (clear r c) (fun s' c' =>
        if (length s' =? length (s1 ++ concat l ++ s2))%nat then None
        else rounds (mtch r) (clear r) greedy k f 0 (pred <$> extra) s' c')) \/ s1 = []) as [Ha | ->].
      { destruct s1 as [|y s1]; [by right | left]. apply IH; [done |]. intros c'.
        rewrite (proj2 (Nat.eqb_neq _ _)) by (simpl; rewrite !length_app; lia).
        apply IHl; [done | lia | | rewrite length_app; simpl in *; lia].
        intros e Hx. destruct extra as [e0|]; simplify_eq/=. specialize (He e0 eq_refl). destruct e0; [done | simpl; lia]. }
      * destruct greedy; apply orelse_is_Some; auto.
      * assert (is_Some (rounds (mtch r) (clear r) greedy k (S f) 0 extra (concat l ++ s2) c)) as Hr.
        { apply IHl; [done | lia | intros e Hx; specialize (He e Hx); lia | rewrite length_app; simpl in *; lia]. }
        simpl in Hr. by rewrite bool_decide_eq_false_2 in Hr by done.
    + apply IH; [done |]. intros c'.
      apply IHl; [done | lia | intros e Hx; specialize (He e Hx); lia | rewrite length_app; lia].
Qed.

Lemma mtch_complete r s1 s2 c (k : cont) :
  lang r s1 -> (forall c', is_Some (k s2 c')) -> is_Some (mtch r (s1 ++ s2) c k).
Proof.
  revert s1 s2 c k. induction r as [|p|r1 IH1 r2 IH2|r1 IH1 r2 IH2|lo extra greedy r IH|n r IH]; intros s1 s2 c k Hl Hk; simpl in Hl |- *.
  - by subst.
  - destruct Hl as (x & -> & Hx). simpl. by rewrite Hx.
  - destruct Hl as (t1 & t2 & -> & H1 & H2). rewrite <- app_assoc. apply IH1; [done |]. intros c'. by apply IH2.
  - apply orelse_is_Some. destruct Hl; [left | right]; auto.
  - destruct Hl as (l & -> & Hf & Hlo & He). apply rounds_complete; try done. lia.
  - apply IH; [done |]. intros c'. apply Hk.
Qed.

(** The matcher accepts the words of the language. *)
Lemma regex_match_lang r s : is_Some (regex_match r s) <-> lang r s.
Proof.
  unfold regex_match. split.
  - intros [x H]. apply mtch_sound in H as (s1 & s2 & c & -> & Hl & H & _). case_bool_decide; [|done]. subst.
    by rewrite app_nil_r.
  - intros H. rewrite <- (app_nil_r s). apply mtch_complete; [done |]. by eexists.
Qed.

(** ** Greedy repetitions of a character class *)

Definition starts_in (p : ascii -> bool) (s : str) : bool := match s with x :: _ => p x | [] => false end.

(** All characters of the class are taken when the rest matches behind them. *)
Lemma rounds_take p (k : cont) a b lo fuel c x :
  Forall (fun y => p y = true) a -> starts_in p b = false -> (lo <= length a)%nat -> (length a < fuel)%nat ->
  k b c = Some x -> rounds (mtch (One p)) (clear (One p)) true k fuel lo None (a ++ b) c = Some x.
Proof.
  intros Ha Hb. revert lo fuel. induction a as [|y a IH]; intros lo fuel Hlo Hf Hk; (destruct fuel as [|f]; [lia |]); simpl in *.
  - destruct lo; [|lia]. destruct b as [|y b]; simpl in *; [done |]. by rewrite Hb.
  - apply Forall_cons_1 in Ha as [Hy Ha]. rewrite Hy. destruct lo as [|lo].
    + rewrite (proj2 (Nat.eqb_neq _ _)) by lia. change (clear (One p) c) with c. rewrite IH by (done || lia). done.
    + change (clear (One p) c) with c. apply IH; done || lia.
Qed.

(** The last character is given back when the rest needs it. *)
Lemma rounds_give_back p (k : cont) a d fuel c x :
  Forall (fun y => p y = true) a -> (S (length a) < fuel)%nat -> k [] c = None -> k [d] c = Some x ->
  rounds (mtch (One p)) (clear (One p)) true k fuel 0 None (a ++ [d]) c = Some x.
Proof.
  intros Ha. revert fuel. induction a as [|y a IH]; intros fuel Hf Hn Hk; (destruct fuel as [|f]; [lia |]); simpl in *.
  - destruct (p d); [|done]. destruct f as [|f]; [lia |]. simpl. change (clear (One p) c) with c. rewrite Hn. done.
  - apply Forall_cons_1 in Ha as [Hy Ha]. rewrite Hy, (proj2 (Nat.eqb_neq _ _)) by lia.
    change (clear (One p) c) with c. rewrite IH by (done || lia). done.
Qed.

Lemma mtch_take p (k : cont) s a b lo c x :
  s = a ++ b -> Forall (fun y => p y = true) a -> starts_in p b = false -> (lo <= length a)%nat ->
  k b c = Some x -> mtch (Rep lo None true (One p)) s c k = Some x.
Proof. intros -> Ha Hb Hlo Hk. apply rounds_take; try done. rewrite length_app. lia. Qed.

Lemma mtch_give_back p (k : cont) a d c x :
  Forall (fun y => p y = true) a -> k [] c = None -> k [d] c = Some x ->
  mtch (Rep 0 None true (One p)) (a ++ [d]) c k = Some x.
Proof. intros Ha Hn Hk. apply rounds_give_back; try done. rewrite length_app. simpl. lia. Qed.

Lemma mtch_seq r1 r2 s c (k : cont) : mtch (Seq r1 r2) s c k = mtch r1 s c (fun s' c' => mtch r2 s' c' k).
Proof. reflexivity. Qed.
Lemma mtch_group n r s c (k : cont) :
  mtch (Group n r) s c k = mtch r s c (fun s' c' => k s' (<[n := take (length s - length s') s]> c')).
Proof. reflexivity. Qed.

(** An optional part that is there, or is not. *)
Lemma mtch_opt_some r s c (k : cont) x :
  mtch r s (clear r c) (fun s' c' => if (length s' =? length s)%nat then None else k s' c') = Some x ->
  mtch (Rep 0 (Some 1) true r) s c k = Some x.
Proof.
  intros H. cbn [mtch]. replace (0 + length s + 1) with (S (length s)) by lia. cbn [rounds].
  rewrite bool_decide_eq_false_2 by done. destruct s as [|y s].
  - apply mtch_sound in H as (s1 & s2 & c' & E & _ & H & _). symmetry in E. by apply app_eq_nil in E as [-> ->].
  - trans (orelse (Some x) (k (y :: s) c)); [rewrite <- H; reflexivity | done].
Qed.

Lemma mtch_opt_none r s c (k : cont) :
  (forall k', mtch r s (clear r c) k' = None) -> mtch (Rep 0 (Some 1) true r) s c k = k s c.
Proof.
  intros H. cbn [mtch]. replace (0 + length s + 1) with (S (length s)) by lia. cbn [rounds].
  rewrite bool_decide_eq_false_2 by done. by rewrite H.
Qed.

(** ** A pattern inside parentheses is read like the pattern alone *)

Abbreviation closing t := (")"%char :: t).

Lemma class_items_app t s acc p rest : class_items s acc = Ok (p, rest) -> class_items (s ++ t) acc = Ok (p, rest ++ t).
Proof.
  remember (length s) as m eqn:Em. assert (length s <= m)%nat as Hm by lia. clear Em.
  revert s acc Hm. induction m as [|m IH]; intros s acc Hm H; (destruct s as [|c s]; [done |]); simpl in Hm; [lia |].
  simpl in H |- *. destruct (isc "]" c); [by simplify_eq |]. destruct (isc "[" c); [done |]. destruct (isc "\" c).
  { destruct s as [|d s]; [done |]. simpl. destruct (escape d); [|done]. simpl in *. apply IH; [lia | done]. }
  destruct s as [|d s]; [done |]. destruct s as [|e s].
  - simpl in H. destruct (isc "]" d) eqn:Ed; [|by repeat case_hyp H].
    assert (isc "-" d = false) as Hd. { unfold isc in *. apply bool_decide_eq_true in Ed. by subst. }
    simplify_eq. destruct t; cbn [app]; [|rewrite Hd; cbn [andb]]; cbn [class_items]; by rewrite Ed.
  - cbn [app]. destruct (isc "-" d && negb (isc "]" e)).
    + destruct (isc "[" e || isc "\" e); [done |]. destruct (_ <? _)%Z; [done |]. apply IH; [simpl in *; lia | done].
    + apply (IH (d :: e :: s)); [simpl in *; lia | exact H].
Qed.

Lemma bracket_app t s r rest : bracket s = Ok (r, rest) -> bracket (s ++ t) = Ok (r, rest ++ t).
Proof.
  destruct s as [|c s]; [done |]. cbn [bracket app]. intros H.
  destruct (isc "^" c); apply rbind_Ok in H as ([p rest'] & H & E); simplify_eq.
  - by rewrite (class_items_app t _ _ _ _ H).
  - pose proof (class_items_app t (c :: s) _ _ _ H) as E'. cbn [app] in E'. by rewrite E'.
Qed.

Lemma number_app t s acc a d rest : number acc s = (a, d :: rest) -> number acc (s ++ t) = (a, d :: rest ++ t).
Proof.
  revert acc. induction s as [|c s IH]; intros acc H; simpl in *; [done |]. destruct (isdigit c); [by apply IH |].
  by simplify_eq.
Qed.

Lemma braces_app t s lo e rest : braces s = Ok (lo, e, rest) -> braces (s ++ t) = Ok (lo, e, rest ++ t).
Proof.
  unfold braces. destruct (number None s) as [[lo0|] [|c s']] eqn:E; try done. rewrite (number_app t _ _ _ _ _ E).
  destruct (isc "}" c); [intros; by simplify_eq |]. destruct (isc "," c); [|done].
  destruct (number None s') as [hi [|d s'']] eqn:E'; [by destruct hi |]. rewrite (number_app t _ _ _ _ _ E').
  destruct (isc "}" d); [|done]. destruct hi as [h|]; [destruct (h <? lo0)%nat |]; intros; by simplify_eq.
Qed.

Lemma lazy_mark_app t s b rest : lazy_mark s = (b, rest) -> lazy_mark (s ++ closing t) = (b, rest ++ closing t).
Proof. destruct s as [|c s]; simpl; [intros; by simplify_eq |]. destruct (isc "?" c); intros; by simplify_eq. Qed.

Lemma quantifier_app t r s r' rest :
  quantifier r s = Ok (r', rest) -> quantifier r (s ++ closing t) = Ok (r', rest ++ closing t).
Proof.
  assert (forall lo e s r' rest, (let '(g, rest) := lazy_mark s in Ok (Rep lo e g r, rest)) = Ok (r', rest) ->
    (let '(g, rest) := lazy_mark (s ++ closing t) in Ok (Rep lo e g r, rest)) = Ok (r', rest ++ closing t)) as Hrep.
  { intros lo e s0 r0 rest0. destruct (lazy_mark s0) as [g rest1] eqn:E. rewrite (lazy_mark_app t _ _ _ E).
    intros; by simplify_eq. }
  unfold quantifier. destruct s as [|c s]; [intros; by simplify_eq |]. cbn [app].
  repeat (case_goal; [by apply Hrep |]). case_goal; [|intros; by simplify_eq].
  intros H. apply rbind_Ok in H as ([[lo e] rest0] & H & E). rewrite (braces_app (closing t) _ _ _ _ H). by apply Hrep.
Qed.

Lemma parse_app t f :
  (forall n s r n' rest f', disjunction f n s = Ok (r, n', rest) -> (f <= f')%nat ->
     disjunction f' n (s ++ closing t) = Ok (r, n', rest ++ closing t))
  /\ (forall n s r n' rest f', alternative f n s = Ok (r, n', rest) -> (f <= f')%nat ->
     alternative f' n (s ++ closing t) = Ok (r, n', rest ++ closing t))
  /\ (forall n s r n' rest f', atom f n s = Ok (r, n', rest) -> (f <= f')%nat ->
     atom f' n (s ++ closing t) = Ok (r, n', rest ++ closing t)).
Proof.
  induction f as [|f (IHd & IHa & IHt)]; [by split_and! |]. split_and!; intros n s r n' rest f' H Hf;
    (destruct f' as [|f']; [lia |]); simpl in H |- *.
  - apply rbind_Ok in H as ([[r1 n1] s1] & H1 & H). rewrite (IHa _ _ _ _ _ f' H1) by lia. cbn [rbind].
    destruct s1 as [|c s1]; [by simplify_eq |]. cbn [app]. destruct (isc "|" c); [|by simplify_eq].
    apply rbind_Ok in H as ([[r2 n2] s2] & H2 & H). rewrite (IHd _ _ _ _ _ f' H2) by lia. by simplify_eq.
  - destruct s as [|c s]; [by simplify_eq |]. cbn [app]. destruct (isc "|" c || isc ")" c); [by simplify_eq |].
    apply rbind_Ok in H as ([[r1 n1] s1] & H1 & H). apply rbind_Ok in H as ([r2 s2] & H2 & H).
    apply rbind_Ok in H as ([[r3 n3] s3] & H3 & H).
    change (c :: s ++ closing t) with ((c :: s) ++ closing t). rewrite (IHt _ _ _ _ _ f' H1) by lia. cbn [rbind].
    rewrite (quantifier_app t _ _ _ _ H2). cbn [rbind]. rewrite (IHa _ _ _ _ _ f' H3) by lia. by simplify_eq.
  - destruct s as [|c s]; [done |]. cbn [app]. destruct (isc "(" c).
    { destruct s as [|d s]; [done |]. cbn [app]. destruct (isc "?" d); [done |].
      apply rbind_Ok in H as ([[r1 n1] s1] & H1 & H). change (d :: s ++ closing t) with ((d :: s) ++ closing t).
      rewrite (IHd _ _ _ _ _ f' H1) by lia. cbn [rbind]. destruct s1 as [|e s1]; [done |]. cbn [app].
      destruct (isc ")" e); by simplify_eq. }
    destruct (isc "\" c).
    { destruct s as [|d s]; [done |]. cbn [app]. destruct (escape d); by simplify_eq/=. }
    destruct (isc "[" c).
    { apply rbind_Ok in H as ([r1 rest1] & H1 & H). rewrite (bracket_app (closing t) _ _ _ H1). by simplify_eq/=. }
    repeat case_goal; by simplify_eq.
Qed.

(** The counter counts the groups. *)
Lemma quantifier_groups r s r' rest : quantifier r s = Ok (r', rest) -> groups r' = groups r.
Proof.
  assert (forall lo e s r' rest, (let '(g, rest) := lazy_mark s in Ok (Rep lo e g r, rest)) = Ok (r', rest) ->
    groups r' = groups r) as Hrep by (intros lo e s0 r0 rest0; destruct (lazy_mark s0); intros; by simplify_eq).
  unfold quantifier. destruct s as [|c s]; [intros; by simplify_eq |].
  repeat (case_goal; [by eapply Hrep |]). case_goal; [|intros; by simplify_eq].
  intros H. apply rbind_Ok in H as ([[lo e] rest0] & _ & E). by eapply Hrep.
Qed.

Lemma bracket_groups s r rest : bracket s = Ok (r, rest) -> groups r = [].
Proof.
  destruct s as [|c s]; [done |]. cbn [bracket]. intros H.
  destruct (isc "^" c); apply rbind_Ok in H as ([p rest'] & H & E); by simplify_eq.
Qed.

(** Without groups the counter does not matter. *)
Lemma parse_groups f :
  (forall n s r n' rest, disjunction f n s = Ok (r, n', rest) ->
     n' = n + length (groups r) /\ (n' = n -> forall m, disjunction f m s = Ok (r, m, rest)))
  /\ (forall n s r n' rest, alternative f n s = Ok (r, n', rest) ->
     n' = n + length (groups r) /\ (n' = n -> forall m, alternative f m s = Ok (r, m, rest)))
  /\ (forall n s r n' rest, atom f n s = Ok (r, n', rest) ->
     n' = n + length (groups r) /\ (n' = n -> forall m, atom f m s = Ok (r, m, rest))).
Proof.
  induction f as [|f (IHd & IHa & IHt)]; [by split_and! |]. split_and!; intros n s r n' rest H; simpl in H |- *.
  - apply rbind_Ok in H as ([[r1 n1] s1] & H1 & H). apply IHa in H1 as [E1 S1].
    assert (forall m, n1 = n -> alternative f m s = Ok (r1, m, s1)) as S1' by auto.
    destruct s1 as [|c s1]; [|destruct (isc "|" c) eqn:Ec; [apply rbind_Ok in H as ([[r2 n2] s2] & H2 & H); apply IHd in H2 as [E2 S2] |]];
      simplify_eq/=; rewrite ?length_app; (split; [lia |]); intros En m; rewrite S1' by lia; cbn [rbind]; rewrite ?Ec; try done.
    by rewrite S2 by lia.
  - destruct s as [|c s]; [simplify_eq; split; [simpl; lia | done] |].
    destruct (isc "|" c || isc ")" c); [simplify_eq; split; [simpl; lia | done] |].
    apply rbind_Ok in H as ([[r1 n1] s1] & H1 & H). apply rbind_Ok in H as ([r2 s2] & H2 & H).
    apply rbind_Ok in H as ([[r3 n3] s3] & H3 & H). apply IHt in H1 as [E1 S1]. apply IHa in H3 as [E3 S3].
    simplify_eq/=. rewrite length_app, (quantifier_groups _ _ _ _ H2). split; [lia |].
    intros En m. rewrite S1 by lia. cbn [rbind]. rewrite H2. cbn [rbind]. by rewrite S3 by lia.
  - destruct s as [|c s]; [done |]. destruct (isc "(" c).
    { destruct s as [|d s]; [done |]. destruct (isc "?" d); [done |].
      apply rbind_Ok in H as ([[r1 n1] s1] & H1 & H). apply IHd in H1 as [E1 S1].
      destruct s1 as [|e s1]; [done |]. destruct (isc ")" e); simplify_eq/=. split; lia. }
    destruct (isc "\" c).
    { destruct s as [|d s]; [done |]. destruct (escape d); simplify_eq/=. split; [simpl; lia | done]. }
    destruct (isc "[" c).
    { apply rbind_Ok in H as ([r1 rest1] & H1 & H). simplify_eq/=. rewrite (bracket_groups _ _ _ H1). split; [simpl; lia |].
      intros _ m. by rewrite H1. }
    repeat case_goal; simplify_eq; (split; [simpl; lia | done]).
Qed.

Lemma compile_alternative s r n : alternative (3 * length s + 2) 0 s = Ok (r, n, []) -> compile s = Ok (r, n).
Proof.
  intros H. unfold compile. replace (3 * length s + 3) with (S (3 * length s + 2)) by lia.
  cbn [disjunction]. by rewrite H.
Qed.

(** A pattern without groups, compiled on its own, means the same inside a
    group of a larger pattern. *)
Lemma compile_inside p r f n t :
  compile p = Ok (r, 0) -> (3 * length p + 3 <= f)%nat ->
  groups r = [] /\ disjunction f n (p ++ closing t) = Ok (r, n, closing t).
Proof.
  unfold compile. intros H Hf. apply rbind_Ok in H as ([[r' n'] rest] & H & E). destruct rest; simplify_eq.
  destruct (parse_groups (3 * length p + 3)) as (Hg & _). destruct (Hg _ _ _ _ _ H) as [E S]. split.
  - destruct (groups r); [done | simpl in E; lia].
  - destruct (parse_app t (3 * length p + 3)) as (Ha & _). by apply (Ha n p r n [] f (S eq_refl n)).
Qed.

End Regex.
