(* ===== verification/Routing.v ===== *)
(** * Routes and middleware

    Model of the routing of a request to its handler: [create_route_endpoint],
    [route_endpoint] and [routing_engine] (src/http/routing_engine.cpp,
    src/http/route_endpoint.cpp), the middleware pipeline
    (src/http/middleware.cpp) and the routing middleware
    (src/http/middleware/routing_middleware.cpp). A route like
    /user/{id: \d+} becomes a regular expression; the theorems say which urls
    it matches and what the handler finds as path parameters. *)

From S2P Require Import Prelude Http Regex.
Local Open Scope cxx_scope.

Module Routing.
Import Http Regex.

Definition prepare_route_path_elements (path : str) : list str :=
  match split path "/" with
  | [] :: rpe => rpe
  | rpe => rpe
  end.

Abbreviation t_request_handler := (request -> result response).
Abbreviation t_size_string_map := (gmap nat str).

Record route_endpoint := mk_route_endpoint {
  path_spec : str;
  path_regex : regex * nat;
  path_regex_str : str;
  method : method_t;
  request_handler : t_request_handler;
  param_index_map : t_size_string_map }.

Definition make_route_endpoint (spec re : str) (m : method_t) (h : t_request_handler) (params : t_size_string_map) :
    result route_endpoint :=
  let? r := compile re in Ok (mk_route_endpoint spec r re m h params).

Definition route_regex_str : str := lit "(\*\.\*)|\{(\w+)(:\s*(.*))?\}|([a-zA-Z0-9-_]+)".

Fixpoint route_parts (route_regex : regex) (parts : list str) (re : str) (index : nat) (params : t_size_string_map) :
    result (str * t_size_string_map) :=
  match parts with
  | [] => Ok (re, params)
  | part :: parts' =>
    if bool_decide (part = []) then route_parts route_regex parts' re index params
    else
      match regex_match route_regex part with
      | None => Throw (logic_error ("invalid route spec part: " +:+ String.string_of_list_ascii part))
      | Some what =>
        let re := re ++ lit "\/" in
        match what !! 1, what !! 5, what !! 4, what !! 2 with
        | Some _, _, _, _ => route_parts route_regex parts' (re ++ lit "([^?]*)") index params
        | None, Some w, _, _ => route_parts route_regex parts' (re ++ w) index params
        | None, None, Some p, _ =>
          route_parts route_regex parts' (re ++ lit "(" ++ p ++ lit ")") (S index)
            (map_insert_new (S index) (default [] (what !! 2)) params)
        | None, None, None, Some name =>
          route_parts route_regex parts' (re ++ lit "(\w+)") (S index) (map_insert_new (S index) name params)
        | None, None, None, None => Throw (logic_error "invalid route spec pattern match")
        end
      end
  end.

Definition create_route_endpoint (spec : str) (m : method_t) (h : t_request_handler) : result route_endpoint :=
  let? (route_regex, _) := compile route_regex_str in
  if bool_decide (spec = lit "/") then make_route_endpoint spec (lit "\/") m h ∅
  else
    let? (re, params) := route_parts route_regex (prepare_route_path_elements spec) [] 0 ∅ in
    make_route_endpoint spec re m h params.

(** [for (i = 1; i < what.size(); ++i)]: the captured groups that are
    parameters; a group that took no part gives the empty string. *)
Definition add_param (what : captures) (names : t_size_string_map) (params : t_string_param_map) (i : nat) :
    t_string_param_map :=
  match names !! i with
  | Some name => map_insert_new name (default [] (what !! i)) params
  | None => params
  end.

(** [route_endpoint::match]. *)
Definition endpoint_match (ep : route_endpoint) (req : request) : bool * request :=
  if bool_decide (method ep = method_ req) then
    match regex_match (path_regex ep).1 (url_ req) with
    | None => (false, req)
    | Some what =>
      (true, set_path_params
               (foldl (add_param what (param_index_map ep)) (path_params_ req) (seq 1 (path_regex ep).2)) req)
    end
  else (false, req).

Definition execute (ep : route_endpoint) (req : request) : result response := request_handler ep req.

(** ** The engine: [routes_] is a vector of endpoints. *)
Abbreviation routing_engine := (list route_endpoint).

Definition find_internal (path : str) (m : method_t) (e : routing_engine) : option route_endpoint :=
  List.find (fun ep => bool_decide (method ep = m) && bool_decide (path_spec ep = path)) e.

Definition add (path : str) (m : method_t) (h : t_request_handler) (e : routing_engine) : result routing_engine :=
  match find_internal path m e with
  | Some _ => Ok e
  | None => let? ep := create_route_endpoint path m h in Ok (e ++ [ep])
  end.

(** [routing_engine::match]: the first endpoint that matches; endpoints that
    do not match leave the request alone. *)
Fixpoint engine_match (e : routing_engine) (req : request) : option route_endpoint * request :=
  match e with
  | [] => (None, req)
  | ep :: e' =>
    let '(b, req') := endpoint_match ep req in
    if b then (Some ep, req') else engine_match e' req'
  end.

(** ** Middleware: it may change the request, which it shares with the ones
    behind it, and calls [next] or not. *)
Abbreviation next_func_t := (request -> result (response * request)).
Abbreviation middleware := (request -> next_func_t -> result (response * request)).

Section Pipeline.
Context (now : str).

Definition sentinel_middleware : middleware := fun req _ => Ok (bad_request now, req).

Fixpoint processor_process (ms : list middleware) (req : request) : result (response * request) :=
  match ms with
  | [] => Ok (not_found now, req)
  | m :: ms' => m req (processor_process ms')
  end.

(** [middleware_pipeline]: [add] puts a middleware in front of the others. *)
Definition pipeline : list middleware := [sentinel_middleware].
Definition pipeline_add (m : middleware) (ms : list middleware) : list middleware := m :: ms.
Definition pipeline_process (ms : list middleware) (req : request) : result (response * request) :=
  processor_process ms req.

Definition routing_middleware (router : routing_engine) : middleware := fun req _ =>
  match engine_match router req with
  | (None, req') => Ok (not_found now, req')
  | (Some route, req') => let? r := execute route req' in Ok (r, req')
  end.
End Pipeline.

(** ** The routes of the tests *)
Definition sample_request (url : string) : request := set_url (lit url) (set_method GET request0).
Definition no_handler : t_request_handler := fun _ => Ok response0.
Definition sample_routes : result routing_engine :=
  let? e := add (lit "/") GET no_handler [] in
  let? e := add (lit "/api/user") GET no_handler e in
  let? e := add (lit "/api/user/{id}") GET no_handler e in
  let? e := add (lit "/api/role/{id: \d+}") GET no_handler e in
  let? e := add (lit "/api/find/{type}/all") GET no_handler e in
  add (lit "/api/find/{type}/{id: \d+}") GET no_handler e.
Definition routed (url : string) : option (str * option str * option str) :=
  match sample_routes with
  | Ok e =>
    match engine_match e (sample_request url) with
    | (Some ep, req) => Some (path_spec ep, path_params_ req !! lit "id", path_params_ req !! lit "type")
    | _ => None
    end
  | _ => None
  end.
Example routes_found :
  routed "/api/user/a1" = Some (lit "/api/user/{id}", Some (lit "a1"), None)
  /\ routed "/api/role/1234" = Some (lit "/api/role/{id: \d+}", Some (lit "1234"), None)
  /\ routed "/api/find/post/17" = Some (lit "/api/find/{type}/{id: \d+}", Some (lit "17"), Some (lit "post"))
  /\ routed "/api/users" = None /\ routed "/api/role/a1234" = None.
Proof. vm_compute. auto. Qed.

(** [index] counts the parameters, [what] the groups: behind a [*.*] or a
    pattern with groups of its own a parameter gets the wrong value. *)
Definition routed_by (spec url : string) : option (list (str * str)) :=
  match create_route_endpoint (lit spec) GET no_handler with
  | Ok ep =>
    match endpoint_match ep (sample_request url) with
    | (true, req) => Some (map_to_list (path_params_ req))
    | _ => None
    end
  | _ => None
  end.
Example static_shifts_params : routed_by "/*.*/{id}" "/css/main/7" = Some [(lit "id", lit "css/main")].
Proof. vm_compute. reflexivity. Qed.
Example group_shifts_params :
  (fun l => bool_decide ((lit "id", lit "de") ∈ l)) <$> routed_by "/{lang: (de|en)}/{id}" "/de/7" = Some true.
Proof. vm_compute. reflexivity. Qed.

(** ** Reading the parts of a route *)

Definition part_char (x : ascii) : bool :=
  false || between 97 122 x || between 65 90 x || between 48 57 x || isc "-" x || isc "_" x.

Definition param_tail : regex :=
  Seq (One (isc ":")) (Seq (Rep 0 None true (One isspace)) (Seq (Group 4 (Seq (Rep 0 None true (One any_char)) Eps)) Eps)).
Definition route_ast : regex :=
  Alt (Seq (Group 1 (Seq (One (isc "*")) (Seq (One (isc ".")) (Seq (One (isc "*")) Eps)))) Eps)
    (Alt (Seq (One (isc "{")) (Seq (Group 2 (Seq (Rep 1 None true (One word_char)) Eps))
            (Seq (Rep 0 (Some 1) true (Group 3 param_tail)) (Seq (One (isc "}")) Eps))))
         (Seq (Group 5 (Seq (Rep 1 None true (One part_char)) Eps)) Eps)).

Lemma compile_route_regex : compile route_regex_str = Ok (route_ast, 5).
Proof. reflexivity. Qed.

(** What a part of a route can be: a name, a parameter, a parameter with a
    pattern. *)
Inductive segment :=
| Plain (w : str)
| Param (name : str)
| Pattern (name blanks pattern : str).

Definition render (g : segment) : str :=
  match g with
  | Plain w => w
  | Param name => lit "{" ++ name ++ lit "}"
  | Pattern name blanks p => lit "{" ++ name ++ lit ":" ++ blanks ++ p ++ lit "}"
  end.

Definition is_name (name : str) : Prop := name <> [] /\ Forall (fun c => word_char c = true) name.

Lemma part_char_facts y : part_char y = true -> isc "*" y = false /\ isc "{" y = false.
Proof. by_chars y. Qed.

Definition is_end : cont := fun s' c => if bool_decide (s' = []) then Some c else None.

Lemma match_plain w :
  w <> [] -> Forall (fun c => part_char c = true) w ->
  exists c, regex_match route_ast w = Some c /\ c !! 1 = None /\ c !! 5 = Some w.
Proof.
  intros Hne Hw. exists (<[5 := w]> ∅). split; [|done]. unfold regex_match. fold is_end. unfold route_ast.
  destruct w as [|y w]; [done |].
  assert (isc "*" y = false /\ isc "{" y = false) as [E1 E2].
  { apply Forall_cons_1 in Hw as [Hy _]. by apply part_char_facts. }
  cbn [mtch orelse]. rewrite E1, E2. cbn [orelse].
  apply (mtch_take part_char _ (y :: w) (y :: w) []); try done; [by rewrite app_nil_r | simpl; lia |].
  cbn. by rewrite firstn_all.
Qed.

Lemma match_braces s x :
  mtch (Seq (Group 2 (Seq (Rep 1 None true (One word_char)) Eps))
         (Seq (Rep 0 (Some 1) true (Group 3 param_tail)) (Seq (One (isc "}")) Eps))) s ∅ is_end = Some x ->
  regex_match route_ast ("{"%char :: s) = Some x.
Proof. intros H. unfold regex_match. fold is_end. unfold route_ast. cbn [mtch orelse] in H |- *. by rewrite H. Qed.

Lemma match_param name :
  is_name name ->
  exists c, regex_match route_ast (render (Param name)) = Some c
    /\ c !! 1 = None /\ c !! 5 = None /\ c !! 4 = None /\ c !! 2 = Some name.
Proof.
  intros [Hne Hn]. exists (<[2 := name]> ∅). split; [|done]. apply match_braces.
  rewrite mtch_seq, mtch_group, mtch_seq. apply (mtch_take word_char _ _ name (lit "}")); try done.
  { destruct name; [done | simpl; lia]. }
  cbn [mtch]. rewrite length_app, take_app_length' by (simpl; lia). reflexivity.
Qed.

(** The blanks before a pattern are not part of it. *)
Definition is_pattern (p : str) : Prop := Forall (fun c => any_char c = true) p /\ starts_in isspace p = false.

Lemma match_pattern name blanks p :
  is_name name -> Forall (fun c => isspace c = true) blanks -> is_pattern p ->
  exists c, regex_match route_ast (render (Pattern name blanks p)) = Some c
    /\ c !! 1 = None /\ c !! 5 = None /\ c !! 4 = Some p /\ c !! 2 = Some name.
Proof.
  intros [Hne Hn] Hb [Hp Hps].
  assert (starts_in isspace (p ++ lit "}") = false) as Hps' by (by destruct p).
  set (t := lit ":" ++ blanks ++ p ++ lit "}").
  set (c2 := <[2 := name]> ∅ : captures).
  exists (<[3 := lit ":" ++ blanks ++ p]> (<[4 := p]> c2)). split; [|done]. apply match_braces.
  change (name ++ lit ":" ++ blanks ++ p ++ lit "}") with (name ++ t).
  rewrite mtch_seq, mtch_group, mtch_seq. apply (mtch_take word_char _ _ name t); try done.
  { destruct name; [done | simpl; lia]. }
  change (mtch Eps t ∅ ?k) with (k t (∅ : captures)). cbv beta. rewrite length_app, take_app_length' by lia. fold c2.
  rewrite mtch_seq. apply mtch_opt_some. change (clear (Group 3 param_tail) c2) with c2.
  rewrite mtch_group. unfold param_tail. rewrite mtch_seq. unfold t at 2. change (lit ":" ++ ?x) with (":"%char :: x).
  cbn [mtch]. change (isc ":" ":") with true. cbv iota.
  apply (mtch_take isspace _ _ blanks (p ++ lit "}")); try done; [lia |].
  apply (mtch_give_back any_char _ p "}"%char); [done | | ].
  - cbn [mtch length]. by destruct (_ =? _)%nat.
  - cbn [mtch]. rewrite !length_app. cbn [length lit String.list_ascii_of_string].
    rewrite take_app_length' by lia. rewrite (proj2 (Nat.eqb_neq _ _)) by (unfold t; rewrite !length_app; simpl; lia).
    change (isc "}" "}") with true. cbv iota. change (is_end [] ?c) with (Some c). do 2 f_equal.
    unfold t. rewrite !(app_assoc _ _ (lit "}")). apply take_app_length'. rewrite !length_app. simpl. rewrite !length_app. lia.
Qed.

(** ** From the route to its regular expression *)

Definition seg_ok (g : segment) : Prop :=
  match g with
  | Plain w => w <> [] /\ Forall (fun c => part_char c = true) w
  | Param name => is_name name
  | Pattern name blanks p =>
    is_name name /\ Forall (fun c => isspace c = true) blanks /\ is_pattern p
    /\ ("/"%char ∉ p) /\ exists r, compile p = Ok (r, 0)
  end.

(** The text [route_parts] makes of a segment, and how it is read. *)
Definition seg_text (g : segment) : str :=
  match g with
  | Plain w => w
  | Param _ => lit "(\w+)"
  | Pattern _ _ p => lit "(" ++ p ++ lit ")"
  end.
Definition route_text (segs : list segment) : str := concat ((fun g => lit "\/" ++ seg_text g) <$> segs).

Definition seg_name (g : segment) : option str :=
  match g with Plain _ => None | Param name | Pattern name _ _ => Some name end.

Fixpoint seg_names (n : nat) (segs : list segment) (params : t_size_string_map) : t_size_string_map :=
  match segs with
  | [] => params
  | g :: segs' =>
    match seg_name g with
    | None => seg_names n segs' params
    | Some name => seg_names (S n) segs' (map_insert_new (S n) name params)
    end
  end.

Lemma route_parts_text segs re n params :
  Forall seg_ok segs ->
  route_parts route_ast (render <$> segs) re n params = Ok (re ++ route_text segs, seg_names n segs params).
Proof.
  revert re n params. induction segs as [|g segs IH]; intros re n params Hs.
  { unfold route_text. simpl. by rewrite app_nil_r. }
  apply Forall_cons_1 in Hs as [Hg Hs]. cbn [fmap list_fmap route_parts].
  assert (render g <> []) as Hne by (destruct g; [apply Hg | done..]). rewrite bool_decide_eq_false_2 by done.
  unfold route_text. cbn [fmap list_fmap concat]. fold (route_text segs).
  destruct g as [w | name | name blanks p]; cbn [seg_names seg_name seg_text].
  - destruct Hg as [Hw1 Hw2]. destruct (match_plain w Hw1 Hw2) as (c & E & E1 & E5). cbn [render]. rewrite E, E1, E5, IH by done.
    by rewrite !app_assoc.
  - destruct (match_param name Hg) as (c & E & E1 & E5 & E4 & E2). rewrite E, E1, E5, E4, E2, IH by done. by rewrite !app_assoc.
  - destruct Hg as (Hn & Hb & Hp & _). destruct (match_pattern name blanks p Hn Hb Hp) as (c & E & E1 & E5 & E4 & E2).
    rewrite E, E1, E5, E4, E2, IH by done. by rewrite !app_assoc.
Qed.

(** The expression a segment stands for. *)
Definition pattern_regex (p : str) : regex := match compile p with Ok (r, _) => r | Throw _ => Eps end.
Definition seg_regex (g : segment) : regex :=
  match g with
  | Plain _ => Eps
  | Param _ => Seq (Rep 1 None true (One word_char)) Eps
  | Pattern _ _ p => pattern_regex p
  end.

Definition chars (w : str) (r : regex) : regex := foldr (fun c r => Seq (One (isc c)) r) r w.

Fixpoint route_expr (n : nat) (segs : list segment) : regex :=
  match segs with
  | [] => Eps
  | g :: segs' =>
    Seq (One (isc "/"))
      (match g with
       | Plain w => chars w (route_expr n segs')
       | _ => Seq (Group (S n) (seg_regex g)) (route_expr (S n) segs')
       end)
  end.

Definition seg_count (segs : list segment) : nat := length (omap seg_name segs).

(** No quantifier follows. *)
Definition unquantified (s : str) : bool := match s with [] => true | c :: _ => negb (bool_decide (c ∈ lit "*+?{")) end.

Lemma quantifier_none r s : unquantified s = true -> quantifier r s = Ok (r, s).
Proof.
  destruct s as [|c s]; [done |]. unfold unquantified, quantifier. intros H%negb_true_iff%bool_decide_eq_false.
  assert (forall d, d ∈ lit "*+?{" -> isc d c = false) as Hd.
  { intros d Hd. unfold isc. apply bool_decide_eq_false. by intros <-. }
  rewrite !Hd by (by apply list_elem_of_In; simpl; auto). done.
Qed.

Lemma alternative_step f n c s r1 n1 s1 r2 n2 s2 :
  isc "|" c || isc ")" c = false -> atom f n (c :: s) = Ok (r1, n1, s1) -> unquantified s1 = true ->
  alternative f n1 s1 = Ok (r2, n2, s2) -> alternative (S f) n (c :: s) = Ok (Seq r1 r2, n2, s2).
Proof. intros Hc Ha Hu H2. cbn [alternative]. rewrite Hc, Ha. cbn [rbind]. rewrite quantifier_none by done. cbn [rbind]. by rewrite H2. Qed.

Lemma atom_plain f n c s : part_char c = true -> atom (S f) n (c :: s) = Ok (One (isc c), n, s).
Proof.
  intros Hc. assert (isc "(" c = false /\ isc "\" c = false /\ isc "[" c = false /\ isc "." c = false
    /\ bool_decide (c ∈ lit "*+?") = false /\ bool_decide (c ∈ lit "^${}]") = false) as (E1 & E2 & E3 & E4 & E5 & E6).
  { revert c Hc. refine (forall_chars_dec _ _). vm_compute. reflexivity. }
  cbn [atom]. by rewrite E1, E2, E3, E4, E5, E6.
Qed.

Lemma part_char_unquantified c s : part_char c = true -> unquantified (c :: s) = true /\ isc "|" c || isc ")" c = false.
Proof. intros Hc. unfold unquantified. revert c Hc. refine (forall_chars_dec _ _). vm_compute. reflexivity. Qed.

Lemma unquantified_app w t : Forall (fun c => part_char c = true) w -> unquantified t = true -> unquantified (w ++ t) = true.
Proof. destruct w as [|c w]; [done |]. intros [Hc _]%Forall_cons_1 _. by apply part_char_unquantified. Qed.

Lemma alternative_chars w f n t r n' rest :
  Forall (fun c => part_char c = true) w -> unquantified t = true -> (0 < f)%nat ->
  alternative f n t = Ok (r, n', rest) -> alternative (length w + f) n (w ++ t) = Ok (chars w r, n', rest).
Proof.
  intros Hw Ht Hf H. induction w as [|c w IH]; [done |]. apply Forall_cons_1 in Hw as [Hc Hw]. cbn [app length Nat.add chars foldr].
  eapply alternative_step; [by apply (part_char_unquantified c []) | | by apply unquantified_app | by apply IH].
  destruct (length w + f) as [|g] eqn:E; [lia |]. by apply atom_plain.
Qed.

Lemma atom_group f n p r t :
  compile p = Ok (r, 0) -> (3 * length p + 3 <= f)%nat ->
  atom (S f) n ("("%char :: p ++ ")"%char :: t) = Ok (Group (S n) r, S n, t).
Proof.
  intros Hp Hf. destruct (compile_inside p r f (S n) t Hp Hf) as [_ E]. cbn [atom]. change (isc "(" "(") with true. cbv iota.
  destruct p as [|d p]; cbn [app] in E |- *; [by rewrite E |]. destruct (isc "?" d) eqn:Ed; [|by rewrite E].
  exfalso. unfold isc in Ed. apply bool_decide_eq_true in Ed. subst d. revert Hp. unfold compile.
  replace (3 * length ("?"%char :: p) + 3) with (S (S (S (3 * length p + 3)))) by (simpl; lia). done.
Qed.

(** A group with its number; [f] counts the fuel that is left behind it. *)
Lemma alternative_capture f n x p r t r2 n2 rest :
  x = "("%char :: p ++ lit ")" -> compile p = Ok (r, 0) -> (3 * length x <= f)%nat -> unquantified t = true ->
  alternative (pred f) (S n) t = Ok (r2, n2, rest) -> alternative f n (x ++ t) = Ok (Seq (Group (S n) r) r2, n2, rest).
Proof.
  intros -> Hp Hf Ht H. revert Hf. rewrite length_cons, length_app. simpl. intros Hf. rewrite <- app_assoc.
  destruct f as [|[|f]]; [lia.. |]. eapply alternative_step; [done | | exact Ht | exact H].
  apply atom_group; [done | lia].
Qed.

Lemma alternative_slash f n s r n' rest :
  atom f n ("\"%char :: "/"%char :: s) = Ok (One (isc "/"), n, s) -> unquantified s = true ->
  alternative f n s = Ok (r, n', rest) ->
  alternative (S f) n ("\"%char :: "/"%char :: s) = Ok (Seq (One (isc "/")) r, n', rest).
Proof. intros Ha Hu H. by eapply alternative_step. Qed.

Lemma route_text_unquantified segs : unquantified (route_text segs) = true.
Proof. by destruct segs. Qed.

Lemma seg_regex_compile g : seg_ok g -> match g with
  | Plain _ => True
  | _ => exists p, seg_text g = "("%char :: p ++ lit ")" /\ compile p = Ok (seg_regex g, 0)
  end.
Proof.
  destruct g as [w | name | name blanks p]; [done | |].
  - intros _. by exists (lit "\w+").
  - intros (_ & _ & _ & _ & r & Hr). exists p. split; [done |]. simpl. unfold pattern_regex. by rewrite Hr.
Qed.

Lemma alternative_route segs f n :
  Forall seg_ok segs -> (3 * length (route_text segs) < f)%nat ->
  alternative f n (route_text segs) = Ok (route_expr n segs, n + seg_count segs, []).
Proof.
  revert f n. induction segs as [|g segs IH]; intros f n Hs Hf; (destruct f as [|f]; [lia |]).
  { cbn. unfold seg_count. simpl. by rewrite Nat.add_0_r. }
  apply Forall_cons_1 in Hs as [Hg Hs]. pose proof (seg_regex_compile g Hg) as Hc. revert Hf.
  unfold route_text. cbn [fmap list_fmap concat]. fold (route_text segs). rewrite <- app_assoc.
  change (lit "\/" ++ ?x) with ("\"%char :: "/"%char :: x). cbn [length]. rewrite length_app. intros Hf.
  pose proof (route_text_unquantified segs) as Hu. cbn [route_expr].
  assert (atom f n ("\"%char :: "/"%char :: seg_text g ++ route_text segs) = Ok (One (isc "/"), n, seg_text g ++ route_text segs))
    as Ha by (destruct f; [lia | reflexivity]).
  destruct g as [w | name | name blanks p].
  - destruct Hg as [Hne Hw]. apply alternative_slash; [exact Ha | by apply unquantified_app |].
    replace f with (length w + (f - length w)) by (simpl in Hf; lia).
    apply alternative_chars; [done | done | simpl in Hf; lia |]. rewrite IH; [done | done | simpl in Hf; lia].
  - destruct Hc as (p & Et & Hp). apply alternative_slash; [exact Ha | by rewrite Et |].
    change (seg_count (Param name :: segs)) with (S (seg_count segs)). rewrite Nat.add_succ_r.
    eapply alternative_capture; [exact Et | exact Hp | lia | done |]. apply IH; [done | lia].
  - destruct Hc as (p' & Et & Hp). apply alternative_slash; [exact Ha | by rewrite Et |].
    change (seg_count (Pattern name blanks p :: segs)) with (S (seg_count segs)). rewrite Nat.add_succ_r.
    eapply alternative_capture; [exact Et | exact Hp | lia | done |]. apply IH; [done | lia].
Qed.

(** ** Which urls a route matches *)

Definition under_slash (ws : list str) : str := concat (cons "/"%char <$> ws).
Definition route_spec (segs : list segment) : str := under_slash (render <$> segs).

Lemma split_under_slash w ws :
  Forall (fun w => w <> [] /\ ("/"%char ∉ w)) (w :: ws) -> split (under_slash (w :: ws)) "/" = [] :: w :: ws.
Proof.
  unfold split, under_slash. simpl. intros H. f_equal.
  by apply (split_joined "/" w ws).
Qed.

Lemma seg_ok_render g : seg_ok g -> render g <> [] /\ ("/"%char ∉ render g).
Proof.
  assert (forall p : ascii -> bool, p "/"%char = false -> forall w, Forall (fun c => p c = true) w -> "/"%char ∉ w) as Hp.
  { intros p E w Hw Hin. rewrite list.Forall_forall in Hw. specialize (Hw _ Hin). cbv beta in Hw. congruence. }
  destruct g as [w | name | name blanks p]; simpl.
  - intros [Hne Hw]. split; [done |]. by apply (Hp part_char).
  - intros [_ Hn]. split; [done |]. apply (Hp word_char) in Hn; [|done]. set_solver.
  - intros ([_ Hn] & Hb & _ & Hs & _). split; [done |]. apply (Hp word_char) in Hn; [|done]. apply (Hp isspace) in Hb; [|done].
    set_solver.
Qed.

(** The endpoint of a route. *)
Definition seg_endpoint (segs : list segment) (m : method_t) (h : t_request_handler) : route_endpoint :=
  mk_route_endpoint (route_spec segs) (route_expr 0 segs, seg_count segs) (route_text segs) m h (seg_names 0 segs ∅).

Lemma create_route segs m h :
  segs <> [] -> Forall seg_ok segs -> create_route_endpoint (route_spec segs) m h = Ok (seg_endpoint segs m h).
Proof.
  intros Hne Hs. unfold create_route_endpoint. rewrite compile_route_regex. cbn [rbind].
  assert (Forall (fun w => w <> [] /\ ("/"%char ∉ w)) (render <$> segs)) as Hr.
  { apply Forall_fmap. by apply (list.Forall_impl seg_ok _ _ Hs), seg_ok_render. }
  destruct segs as [|g segs]; [done |]. rewrite bool_decide_eq_false_2.
  2: { intros E. apply Forall_cons_1 in Hr as [[Hg _] _]. unfold route_spec, under_slash in E. simpl in E.
       destruct (render g); simplify_eq/=. }
  assert (split (route_spec (g :: segs)) "/" = [] :: (render <$> g :: segs)) as Esp by exact (split_under_slash _ _ Hr).
  unfold prepare_route_path_elements. rewrite Esp, route_parts_text by done. cbn [rbind]. unfold make_route_endpoint.
  change ([] ++ ?x) with x. rewrite (compile_alternative _ (route_expr 0 (g :: segs)) (seg_count (g :: segs))); [done |].
  apply (alternative_route (g :: segs)); [done | lia].
Qed.

(** What a segment accepts. *)
Definition accepts (g : segment) (v : str) : Prop :=
  match g with
  | Plain w => v = w
  | Param _ => is_name v
  | Pattern _ _ p => lang (pattern_regex p) v
  end.

Fixpoint seg_caps (n : nat) (segs : list segment) (vals : list str) (c : captures) : captures :=
  match segs, vals with
  | g :: segs', v :: vals' =>
    match seg_name g with
    | None => seg_caps n segs' vals' c
    | Some _ => seg_caps (S n) segs' vals' (<[S n := v]> c)
    end
  | _, _ => c
  end.

(** Names and values of the parameters, in the order of the route. *)
Fixpoint bindings (segs : list segment) (vals : list str) : list (str * str) :=
  match segs, vals with
  | g :: segs', v :: vals' =>
    match seg_name g with
    | None => bindings segs' vals'
    | Some name => (name, v) :: bindings segs' vals'
    end
  | _, _ => []
  end.

Lemma lang_word v : lang (Seq (Rep 1 None true (One word_char)) Eps) v <-> is_name v.
Proof.
  unfold is_name. simpl. split.
  - intros (s1 & s2 & -> & (l & -> & Hl & Hlo & _) & ->). rewrite app_nil_r.
    assert (Forall (fun c => word_char c = true) (concat l)) as Hc.
    { clear Hlo. induction Hl as [|x l (y & -> & Hy) Hl IH]; simpl; [done |]. by constructor. }
    split; [|done]. destruct l as [|x l]; [simpl in Hlo; lia |]. apply Forall_cons_1 in Hl as [(y & -> & _) _]. done.
  - intros [Hne Hv]. exists v, []. split; [by rewrite app_nil_r |]. split; [|done].
    exists ((fun c => [c]) <$> v). split_and!; [| | |done].
    + clear. induction v as [|c v IH]; simpl; [done |]. by f_equal.
    + apply Forall_fmap. apply (list.Forall_impl _ _ _ Hv). intros c Hc. simpl. by exists c.
    + rewrite length_fmap. destruct v; [done | simpl; lia].
Qed.

Lemma accepts_lang g v : seg_ok g -> match g with Plain _ => True | _ => accepts g v <-> lang (seg_regex g) v end.
Proof. destruct g; simpl; [done | intros _; symmetry; apply lang_word | done]. Qed.

Lemma mtch_chars w r s c (k : cont) x :
  mtch (chars w r) s c k = Some x -> exists s', s = w ++ s' /\ mtch r s' c k = Some x.
Proof.
  revert s. induction w as [|d w IH]; intros s H; [by exists s |]. cbn [chars foldr] in H. rewrite mtch_seq in H.
  cbn [mtch] in H. destruct s as [|e s]; [done |]. destruct (isc d e) eqn:E; [|done].
  unfold isc in E. apply bool_decide_eq_true in E. subst e. apply IH in H as (s' & -> & H). by exists s'.
Qed.

Lemma seg_regex_groups g : seg_ok g -> groups (seg_regex g) = [].
Proof.
  destruct g as [w | name | name blanks p]; [done | done |]. intros (_ & _ & _ & _ & r & Hr). simpl. unfold pattern_regex. rewrite Hr.
  by destruct (compile_inside p r (3 * length p + 3) 0 [] Hr).
Qed.

Lemma route_expr_sound segs n s c x :
  Forall seg_ok segs -> mtch (route_expr n segs) s c is_end = Some x ->
  exists vals, Forall2 accepts segs vals /\ s = under_slash vals /\ x = seg_caps n segs vals c.
Proof.
  revert n s c. induction segs as [|g segs IH]; intros n s c Hs H.
  { cbn in H. unfold is_end in H. case_bool_decide; simplify_eq. by exists []. }
  apply Forall_cons_1 in Hs as [Hg Hs]. cbn [route_expr] in H. rewrite mtch_seq in H. cbn [mtch] in H.
  destruct s as [|e s]; [done |]. destruct (isc "/" e) eqn:E; [|done].
  unfold isc in E. apply bool_decide_eq_true in E. subst e.
  pose proof (seg_regex_groups g Hg) as Hgr. pose proof (fun v => accepts_lang g v Hg) as Hacc.
  destruct g as [w | name | name blanks p].
  - apply mtch_chars in H as (s' & -> & H). apply IH in H as (vals & Hv & -> & ->); [|done].
    exists (w :: vals). split; [by constructor |]. done.
  - apply mtch_group_sound in H as (s1 & s2 & -> & Hl & H); [|done]. apply IH in H as (vals & Hv & -> & ->); [|done].
    exists (s1 :: vals). split; [constructor; [by apply Hacc | done] |]. done.
  - apply mtch_group_sound in H as (s1 & s2 & -> & Hl & H); [|done]. apply IH in H as (vals & Hv & -> & ->); [|done].
    exists (s1 :: vals). split; [constructor; [by apply Hacc | done] |]. done.
Qed.

Lemma route_expr_complete segs n vals :
  Forall seg_ok segs -> Forall2 accepts segs vals -> lang (route_expr n segs) (under_slash vals).
Proof.
  intros Hs Hv. revert n. induction Hv as [|g v segs vals Hg Hv IH]; intros n; [done |].
  apply Forall_cons_1 in Hs as [Hgo Hs]. pose proof (accepts_lang g v Hgo) as Hacc. cbn [route_expr lang].
  exists (lit "/"), (v ++ under_slash vals). split; [done |]. split; [by exists "/"%char |].
  destruct g as [w | name | name blanks p].
  - simpl in Hg. subst v. clear Hacc. destruct Hgo as [_ Hw]. clear Hw.
    induction w as [|c w IHw]; [by apply IH |]. cbn [chars foldr lang]. exists [c], (w ++ under_slash vals).
    split; [done |]. split; [|exact IHw]. exists c. split; [done |]. unfold isc. by apply bool_decide_eq_true.
  - exists v, (under_slash vals). split_and!; [done | by apply Hacc | by apply IH].
  - exists v, (under_slash vals). split_and!; [done | by apply Hacc | by apply IH].
Qed.

(** ** The path parameters *)

Lemma seg_caps_below segs vals n c i : (i <= n)%nat -> seg_caps n segs vals c !! i = c !! i.
Proof.
  revert vals n c. induction segs as [|g segs IH]; intros [|v vals] n c Hi; simpl; try done.
  destruct (seg_name g); [|by apply IH]. rewrite IH by lia. apply lookup_insert_ne. lia.
Qed.

Lemma seg_names_below segs n params i : (i <= n)%nat -> seg_names n segs params !! i = params !! i.
Proof.
  revert n params. induction segs as [|g segs IH]; intros n params Hi; simpl; [done |].
  destruct (seg_name g); [|by apply IH]. rewrite IH by lia. apply lookup_map_insert_new_ne. lia.
Qed.

Abbreviation insert_params := (foldl (fun (ps : t_string_param_map) kv => map_insert_new kv.1 kv.2 ps)).

Lemma add_params segs vals n what names c m params :
  length segs = length vals ->
  (forall i, (n < i)%nat -> what !! i = seg_caps n segs vals c !! i) ->
  (forall i, (n < i)%nat -> m !! i = None) ->
  (forall i, (n < i)%nat -> names !! i = seg_names n segs m !! i) ->
  foldl (add_param what names) params (seq (S n) (seg_count segs)) = insert_params params (bindings segs vals).
Proof.
  revert vals n c m params. induction segs as [|g segs IH]; intros [|v vals] n c m params Hl Hw Hm Hn; try done.
  injection Hl as Hl. simpl in Hw, Hn. cbn [bindings]. destruct (seg_name g) as [name|] eqn:Eg.
  - assert (seg_count (g :: segs) = S (seg_count segs)) as -> by (unfold seg_count; simpl; by rewrite Eg).
    cbn [seq foldl]. unfold add_param at 2. rewrite Hn by lia. rewrite seg_names_below by lia.
    rewrite lookup_map_insert_new, Hm by lia. rewrite Hw by lia. rewrite seg_caps_below, lookup_insert_eq by lia.
    cbn [default from_option fst snd]. apply (IH vals (S n) (<[S n := v]> c) (map_insert_new (S n) name m)); try done.
    + intros i Hi. apply Hw. lia.
    + intros i Hi. rewrite lookup_map_insert_new_ne by lia. apply Hm. lia.
    + intros i Hi. apply Hn. lia.
  - assert (seg_count (g :: segs) = seg_count segs) as -> by (unfold seg_count; simpl; by rewrite Eg). by apply (IH vals n c m).
Qed.

(** ** The engine *)

Lemma endpoint_match_false ep req req' : endpoint_match ep req = (false, req') -> req' = req.
Proof.
  unfold endpoint_match. case_bool_decide; [|by intros [= ->]]. destruct (regex_match _ _); [done |]. by intros [= ->].
Qed.

(** The first endpoint that matches is taken. *)
Lemma engine_match_first e req ep req' :
  engine_match e req = (Some ep, req') <->
  exists e1 e2, e = e1 ++ ep :: e2 /\ Forall (fun ep => (endpoint_match ep req).1 = false) e1
    /\ endpoint_match ep req = (true, req').
Proof.
  induction e as [|ep0 e IH]; simpl.
  { split; [done |]. intros ([|] & ? & ? & _); simplify_eq/=. }
  destruct (endpoint_match ep0 req) as [[] req0] eqn:E.
  - split; [intros [= -> ->]; by exists [], e |]. intros (e1 & e2 & He & Hf & Hm).
    destruct e1 as [|ep1 e1]; simplify_eq/=; [congruence |]. apply Forall_cons_1 in Hf as [Hf _]. by rewrite E in Hf.
  - rewrite (endpoint_match_false _ _ _ E), IH. split.
    + intros (e1 & e2 & -> & Hf & Hm). exists (ep0 :: e1), e2. split_and!; [done | | done]. constructor; [by rewrite E | done].
    + intros (e1 & e2 & He & Hf & Hm). destruct e1 as [|ep1 e1]; simplify_eq/=; [congruence |].
      apply Forall_cons_1 in Hf as [_ Hf]. by exists e1, e2.
Qed.

Lemma engine_match_none e req :
  (engine_match e req).1 = None <-> Forall (fun ep => (endpoint_match ep req).1 = false) e.
Proof.
  induction e as [|ep0 e IH]; simpl; [done |].
  destruct (endpoint_match ep0 req) as [[] req0] eqn:E; [split; [done |]; intros [Hf _]%Forall_cons_1; by rewrite E in Hf |].
  assert (req0 = req) as -> by exact (endpoint_match_false _ _ _ E).
  rewrite IH. split; [intros Hf; constructor; [by rewrite E | done] | by intros [_ Hf]%Forall_cons_1].
Qed.

(** C26: A route of one or more segments, each a name, a parameter {name} or a
    parameter with a pattern {name: pattern} in which the pattern compiles and
    has no groups ([group_shifts_params]) and no slash, can be added, and then
    matches exactly the requests with its method whose url has a value for
    every segment: the name itself, a word, a string in the language of the
    pattern. The handler finds the values under the names of their parameters;
    a request that does not match is not changed. *)
Theorem route_matches segs m h :
  segs <> [] -> Forall seg_ok segs ->
  exists ep, create_route_endpoint (route_spec segs) m h = Ok ep
    /\ forall req,
      (method_ req = m /\ (exists vals, Forall2 accepts segs vals /\ url_ req = under_slash vals)
       <-> (endpoint_match ep req).1 = true)
      /\ match endpoint_match ep req with
         | (true, req') =>
           exists vals, Forall2 accepts segs vals /\ url_ req = under_slash vals
             /\ req' = set_path_params (insert_params (path_params_ req) (bindings segs vals)) req
         | (false, req') => req' = req
         end.
Proof.
  intros Hne Hs. exists (seg_endpoint segs m h). split; [by apply create_route |]. intros req. unfold endpoint_match.
  cbn [method seg_endpoint path_regex param_index_map fst snd]. case_bool_decide as Em; [|naive_solver].
  destruct (regex_match (route_expr 0 segs) (url_ req)) as [what|] eqn:E.
  - unfold regex_match in E. fold is_end in E. apply route_expr_sound in E as (vals & Hv & Hu & ->); [|done].
    split; [naive_solver |]. exists vals. split_and!; try done. f_equal.
    apply (add_params segs vals 0 _ _ ∅ ∅); try done. by eapply Forall2_length.
  - split; [|done]. split; [|done]. intros [_ (vals & Hv & Hu)]. exfalso.
    assert (is_Some (regex_match (route_expr 0 segs) (url_ req))) as [x Hx]; [|congruence].
    apply regex_match_lang. rewrite Hu. by apply route_expr_complete.
Qed.

Definition sample_segments : list segment :=
  [Plain (lit "find"); Param (lit "type"); Pattern (lit "id") (lit " ") (lit "\d+")].

Lemma sample_segments_ok : Forall seg_ok sample_segments.
Proof.
  assert (forall p : ascii -> bool, forall w, forallb p w = true -> Forall (fun c => p c = true) w) as Hf.
  { intros p w H. induction w as [|c w IH]; [done |]. simpl in H. apply andb_true_iff in H as [H1 H2]. constructor; auto. }
  repeat constructor; try done; try by apply Hf.
  - set_solver.
  - by eexists.
Qed.

Lemma route_matches_witness :
  route_spec sample_segments = lit "/find/{type}/{id: \d+}" /\
  exists ep, create_route_endpoint (route_spec sample_segments) GET no_handler = Ok ep
    /\ (endpoint_match ep (sample_request "/find/post/17")).1 = true.
Proof.
  split; [reflexivity |].
  destruct (route_matches sample_segments GET no_handler) as (ep & H1 & H2); [done | exact sample_segments_ok |].
  exists ep. split; [exact H1 |]. apply (H2 (sample_request "/find/post/17")). split; [reflexivity |].
  exists [lit "find"; lit "post"; lit "17"]. split; [|reflexivity].
  constructor; [reflexivity |]. constructor; [by repeat constructor |]. constructor; [|constructor].
  apply regex_match_lang. by eexists.
Defined.

End Routing.
