(* ===== verification/StaticFiles.v ===== *)
(** * Static files

    Model of [static_file_service::serve] (src/http/static_file_service.cpp)
    and [response::from_file] (src/http/response.cpp). The disk is a function
    from the name given to [fopen] to the bytes of the file, [None] if it
    cannot be opened. *)

From S2P Require Import Prelude Url Http.
Local Open Scope cxx_scope.

Module StaticFiles.
Import Http.

Definition DIR_SEPARATOR : ascii := "/".

(** [find("..") != npos]. *)
Fixpoint has_dots (s : str) : bool :=
  match s with
  | a :: s' =>
    match s' with
    | b :: _ => bool_decide (a = "."%char) && bool_decide (b = "."%char) || has_dots s'
    | [] => false
    end
  | [] => false
  end.

(** [find_last_of(c)]: the position, if any. *)
Fixpoint find_last_of (c : ascii) (s : str) : option nat :=
  match s with
  | [] => None
  | d :: s' =>
    match find_last_of c s' with
    | Some i => Some (S i)
    | None => if bool_decide (d = c) then Some 0 else None
    end
  end.

Definition file_extension (file_path : str) : str :=
  let last_slash_pos := default 0 (find_last_of "/" file_path) in
  match find_last_of "." file_path with
  | Some last_dot_pos =>
    if (last_slash_pos <? last_dot_pos)%nat then drop (S last_dot_pos) file_path else []
  | None => []
  end.

(** The characters before the first NUL, which is what [fopen] sees. *)
Fixpoint c_str (s : str) : str :=
  match s with
  | [] => []
  | c :: s' => if bool_decide (c = NUL) then [] else c :: c_str s'
  end.

Section Disk.
Context (disk : str -> option str) (now : str).

(** [response::from_file]; [fread] of an empty file returns 0. *)
Definition from_file (file_path : str) : response :=
  match disk (c_str file_path) with
  | None => not_found now
  | Some [] => bad_request now
  | Some bytes =>
    Response (Version 1 1)
      (Content (to_string_u (Z.of_nat (length bytes))) (from_file_extension (file_extension file_path)) [] [])
      OK (rheaders (create now OK)) bytes
  end.

Definition serve (req : request) : response :=
  match Url.decode (url_ req) with
  | None => bad_request now
  | Some path =>
    match path with
    | [] => bad_request now
    | c :: _ =>
      if negb (bool_decide (c = DIR_SEPARATOR)) || has_dots path then bad_request now
      else
        from_file ("."%char :: (if bool_decide (List.last path NUL = DIR_SEPARATOR) then path ++ lit "index.html" else path))
    end
  end.
End Disk.

(** A name below the current directory: it starts with ./ and never goes up. *)
Definition confined (f : str) : Prop := (exists p, f = lit "./" ++ p) /\ has_dots f = false.

Lemma has_dots_c_str s : has_dots s = false -> has_dots (c_str s) = false.
Proof.
  induction s as [|a s IH]; [done |]. intros H. cbn [c_str]. case_bool_decide; [done |].
  destruct s as [|b s]; [done |]. cbn [has_dots] in H. apply orb_false_iff in H as [H1 H2]. specialize (IH H2).
  cbn [c_str] in IH |- *. destruct (bool_decide (b = NUL)); [done |]. cbn [has_dots] in IH |- *. rewrite H1. exact IH.
Qed.

Lemma has_dots_index s : has_dots s = false -> List.last s NUL = DIR_SEPARATOR -> has_dots (s ++ lit "index.html") = false.
Proof.
  induction s as [|a s IH]; [done |]. intros H Hl. destruct s as [|b s]; [by simpl in Hl; subst |].
  cbn [has_dots] in H. apply orb_false_iff in H as [H1 H2]. cbn [app has_dots]. rewrite H1. apply IH; [done | exact Hl].
Qed.

(** C32: the service never looks outside the directory it serves: whatever the
    url, percent-encoded or not, the answer depends only on files whose name
    starts with ./ and contains no two dots in a row. *)
Theorem files_confined disk disk' now req :
  (forall f, confined f -> disk f = disk' f) -> serve disk now req = serve disk' now req.
Proof.
  intros Hd. unfold serve. destruct (Url.decode (url_ req)) as [[|c path]|]; [done | | done].
  destruct (negb _ || _) eqn:E; [done |]. apply orb_false_iff in E as [Ec%negb_false_iff%bool_decide_eq_true Hdots]. subst c.
  set (f := "."%char :: _). assert (has_dots f = false) as Hf.
  { unfold f. case_bool_decide as El; [|exact Hdots]. apply has_dots_index in El; [|exact Hdots]. exact El. }
  unfold from_file. rewrite Hd; [done |]. split; [|by apply has_dots_c_str].
  unfold f. case_bool_decide; eexists; reflexivity.
Qed.

Lemma files_confined_witness :
  serve (fun f => if bool_decide (f = lit "/etc/passwd") then Some (lit "root") else None) []
    (set_url (lit "/%2e%2e/etc/passwd") request0)
  = serve (fun _ => None) [] (set_url (lit "/%2e%2e/etc/passwd") request0).
Proof.
  apply files_confined. intros f [[p ->] _]; reflexivity.
Defined.

(** An empty file is answered with 400. *)
Example empty_file_is_bad_request :
  status_ (serve (fun _ => Some []) [] (set_url (lit "/empty.css") request0)) = BAD_REQUEST.
Proof. reflexivity. Qed.

End StaticFiles.
