(* ===== verification/HttpExchange.v ===== *)
(** * A request and its response over a connection

    The two ends of an HTTP connection: [http::client]
    (src/http/http_client.cpp) sends a request and reads the response,
    [http_server_connection] (src/http/http_server_connection.cpp) reads a
    request, has the middleware pipeline process it and writes the response;
    [stream_handler::on_output] (src/net/stream_handler.cpp) and
    [client::send_request] hand the buffers of a message to the socket. The
    socket itself is the list of results its calls return: how many bytes were
    taken, or that the call failed; what it delivers is the bytes in order,
    cut into pieces anyhow. *)

From S2P Require Import Prelude Http RequestParser ResponseParser Regex Routing.
Local Open Scope cxx_scope.

Module HttpExchange.
Import Http.
Import RequestParser (return_t, INVALID, PARTIAL, FINISH).

(** ** Views on the buffers of a message *)

(** [buffer_view]: the characters from [start_] on and the position of the
    cursor; [size_] is their number. *)
Record buffer_view := mk_view { start_ : str; cursor_ : nat }.

Definition view (s : str) : buffer_view := mk_view s 0.
Definition size (bv : buffer_view) : nat := length (start_ bv).
Definition capacity (bv : buffer_view) : nat := length (start_ bv) - cursor_ bv.
Definition data (bv : buffer_view) : str := drop (cursor_ bv) (start_ bv).
Definition bump (len : nat) (bv : buffer_view) : buffer_view :=
  mk_view (start_ bv) (cursor_ bv + Nat.min len (capacity bv)).
Definition full (bv : buffer_view) : bool := (capacity bv =? 0)%nat.
Definition clear (bv : buffer_view) : buffer_view := mk_view (start_ bv) 0.

(** What a call of [send] on the socket returns: the number of bytes taken,
    or -1 with or without [EWOULDBLOCK]. *)
Inductive sent :=
| Sent (len : nat)
| Blocked
| Failed.

(** [socket_stream::send] passes [data()] and [size()], so the system may
    read behind the last character of a view that was bumped. *)
Definition transmitted (len : nat) (bv : buffer_view) : result str :=
  if (len <=? capacity bv)%nat then Ok (take len (data bv))
  else Throw (undefined_behaviour "send reads behind the end of the buffer").

(** How a loop over the buffers ends: all of them sent, the stream closed
    before, or more calls to come. *)
Inductive written :=
| Complete (wire : str)
| Closed (wire : str)
| Pending (wire : str).

(** [client::send_request]; [calls] are the results of the calls of [send]. *)
Fixpoint send_request (calls : list sent) (buffer_list : list buffer_view) (wire : str) : result written :=
  match buffer_list with
  | [] => Ok (Complete wire)
  | bv :: rest =>
    match calls with
    | [] => Ok (Pending wire)
    | Sent 0 :: _ => Ok (Closed wire)
    | Failed :: _ => Ok (Closed wire)
    | Blocked :: calls' => send_request calls' buffer_list wire
    | Sent len :: calls' =>
      let? bytes := transmitted len bv in
      let bv := bump len bv in
      send_request calls' (if full bv then rest else bv :: rest) (wire ++ bytes)
    end
  end.

(** [stream_handler::on_output]: a call that fails or sends nothing closes the
    stream, but does not leave the loop. *)
Fixpoint on_output (calls : list sent) (write_buffers : list buffer_view) (wire : str) : result written :=
  match write_buffers with
  | [] => Ok (Complete wire)
  | bv :: rest =>
    match calls with
    | [] => Ok (Pending wire)
    | Sent 0 :: calls' => on_output calls' write_buffers wire
    | Failed :: calls' => on_output calls' write_buffers wire
    | Blocked :: calls' => on_output calls' write_buffers wire
    | Sent len :: calls' =>
      let? bytes := transmitted len bv in
      let bv := bump len bv in
      on_output calls' (if full bv then rest else bv :: rest) (wire ++ bytes)
    end
  end.

(** The buffers of [request::to_buffers] and [response::to_buffers]. *)
Definition header_views (kv : str * str) : list str := [kv.1; lit ": "; kv.2; CRLF].

Definition request_views (hs : list (str * str)) (r : request) : result (list str) :=
  let? m := method_to_string (method_ r) in
  Ok ([m; lit " "; url_ r; lit " "; lit "HTTP/1.1"; CRLF] ++ concat (header_views <$> hs)
      ++ (if bool_decide (body_ r = []) then []
          else header_views (CONTENT_LENGTH, length_ (content_ r)) ++ header_views (CONTENT_TYPE, type_ (content_ r)))
      ++ [CRLF] ++ (if bool_decide (body_ r = []) then [] else [body_ r])).

Definition response_views (hs : list (str * str)) (r : response) : result (list str) :=
  let? line := to_request_string (status_ r) in
  Ok ([line] ++ concat (header_views <$> hs)
      ++ (if bool_decide (rbody r = []) then []
          else header_views (CONTENT_LENGTH, length_ (rcontent r)) ++ header_views (CONTENT_TYPE, type_ (rcontent r)))
      ++ [CRLF] ++ (if bool_decide (rbody r = []) then [] else [rbody r])).

(** ** The server: [http_server_connection] *)
Record http_server_connection := mk_connection {
  parser_ : RequestParser.request_parser;
  request_ : request;
  response_ : response }.

Definition connection0 : http_server_connection := mk_connection RequestParser.parser0 request0 response0.

(** What the connection does next: read again, or write its response. *)
Inductive next_io := Read | Write.

Section Server.
Context (now : str) (process : request -> result (response * request)).

(** The callback of [read]: [nread] bytes have arrived. *)
Definition on_read (request_string : str) (conn : http_server_connection) : result (next_io * http_server_connection) :=
  let? (res, p, r) := RequestParser.parse request_string (parser_ conn) (request_ conn) in
  match res with
  | FINISH =>
    let? (resp, r') := process r in
    Ok (Write, mk_connection (RequestParser.reset p) r' resp)
  | INVALID => Ok (Write, mk_connection p r (bad_request now))
  | PARTIAL => Ok (Read, mk_connection p r (response_ conn))
  end.

(** [start], [read] and the callbacks, for the pieces that arrive; [None]: the
    connection waits for more. *)
Fixpoint serve (pieces : list str) (conn : http_server_connection) : result (option response) :=
  match pieces with
  | [] => Ok None
  | a :: pieces' =>
    let? (next, conn') := on_read a conn in
    match next with
    | Write => Ok (Some (response_ conn'))
    | Read => serve pieces' conn'
    end
  end.
End Server.

(** ** The client: [client::read_response]; the list of pieces ends when the
    peer closes the connection or the read fails. *)
Fixpoint read_response (now : str) (pieces : list str) (p : ResponseParser.response_parser) (resp : response) : result response :=
  match pieces with
  | [] => Ok resp
  | a :: pieces' =>
    let? (res, p', resp') := ResponseParser.parse a p resp in
    match res with
    | INVALID => Ok (bad_request now)
    | FINISH => Ok resp'
    | PARTIAL => read_response now pieces' p' resp'
    end
  end.

Definition receive_response (now : str) (pieces : list str) : result response :=
  read_response now pieces ResponseParser.parser0 response0.

(** ** What is sent *)

Lemma data_bump len bv : (len <= capacity bv)%nat -> data bv = take len (data bv) ++ data (bump len bv).
Proof.
  intros H. unfold data at 3, bump. cbn. rewrite Nat.min_l by done. rewrite <- drop_drop. fold (data bv). by rewrite take_drop.
Qed.

Lemma data_full bv : full bv = true -> data bv = [].
Proof. unfold full, capacity, data. intros H%Nat.eqb_eq. apply drop_ge. lia. Qed.

(** One call of [send] that took bytes. *)
Lemma sent_step len bv rest bytes :
  transmitted len bv = Ok bytes ->
  bytes ++ concat (data <$> (if full (bump len bv) then rest else bump len bv :: rest)) = data bv ++ concat (data <$> rest).
Proof.
  unfold transmitted. destruct (len <=? capacity bv)%nat eqn:E; [|done]. apply Nat.leb_le in E. intros [= <-].
  rewrite (data_bump _ _ E) at 2. rewrite <- app_assoc. f_equal. destruct (full (bump len bv)) eqn:Ef; [|done].
  by rewrite (data_full _ Ef).
Qed.

Lemma send_request_wire calls bufs wire w :
  send_request calls bufs wire = Ok (Complete w) -> w = wire ++ concat (data <$> bufs).
Proof.
  revert bufs wire. induction calls as [|x calls IH]; intros [|bv rest] wire H; simpl in H; simplify_eq;
    try by rewrite app_nil_r.
  destruct x as [[|len] | |]; simplify_eq; [|by apply IH]. apply rbind_Ok in H as (bytes & Hb & H). apply IH in H as ->.
  rewrite <- app_assoc. by rewrite (sent_step _ _ _ _ Hb).
Qed.

Lemma on_output_wire calls bufs wire w :
  on_output calls bufs wire = Ok (Complete w) -> w = wire ++ concat (data <$> bufs).
Proof.
  revert bufs wire. induction calls as [|x calls IH]; intros [|bv rest] wire H; simpl in H; simplify_eq;
    try by rewrite app_nil_r.
  destruct x as [[|len] | |]; try by apply IH. apply rbind_Ok in H as (bytes & Hb & H). apply IH in H as ->.
  rewrite <- app_assoc. by rewrite (sent_step _ _ _ _ Hb).
Qed.

Lemma data_views (l : list str) : data <$> (view <$> l) = l.
Proof. induction l as [|x l IH]; [done |]. cbn [fmap list_fmap]. f_equal. exact IH. Qed.

Lemma header_views_line kv : concat (header_views kv) = header_line kv.
Proof. done. Qed.

Lemma concat_header_views hs : concat (concat (header_views <$> hs)) = concat (header_line <$> hs).
Proof.
  induction hs as [|kv hs IH]; [done |]. cbn [fmap list_fmap concat]. rewrite concat_app, header_views_line. by f_equal.
Qed.

Lemma request_views_wire hs r l : request_views hs r = Ok l -> request_to_buffers hs r = Ok (concat l).
Proof.
  unfold request_views, request_to_buffers. destruct (method_to_string (method_ r)); [|done]. cbn [rbind]. intros [= <-].
  cbn [app concat]. rewrite !concat_app, concat_header_views.
  case_bool_decide as Hb; cbn [concat]; [by rewrite Hb |]. rewrite header_views_line, app_nil_r.
  unfold header_line. cbn [fst snd]. by rewrite <- ?app_assoc.
Qed.

Lemma response_views_wire hs r l : response_views hs r = Ok l -> response_to_buffers hs r = Ok (concat l).
Proof.
  unfold response_views, response_to_buffers. destruct (to_request_string (status_ r)); [|done]. cbn [rbind]. intros [= <-].
  cbn [app concat]. rewrite !concat_app, concat_header_views.
  case_bool_decide as Hb; cbn [concat]; [by rewrite Hb |]. rewrite header_views_line, app_nil_r.
  unfold header_line. cbn [fst snd]. by rewrite <- ?app_assoc.
Qed.

(** The socket is told the size of the whole buffer, also when a part of it
    has been sent: it may then read behind its end. *)
Example partial_send_overreads :
  send_request [Sent 3; Sent 5] [view (lit "hello")] [] = Throw (undefined_behaviour "send reads behind the end of the buffer").
Proof. reflexivity. Qed.

(** A stream that failed is written to forever. *)
Lemma on_output_never_ends n s : s <> [] -> on_output (replicate n Failed) [view s] [] = Ok (Pending []).
Proof. intros Hs. induction n as [|n IH]; [done | exact IH]. Qed.

(** An empty buffer looks like a closed connection to the sender. *)
Example empty_header_closes :
  send_request [Sent 8; Sent 2; Sent 0] (view <$> [lit "Location"; lit ": "; []; CRLF]) [] = Ok (Closed (lit "Location: ")).
Proof. reflexivity. Qed.

(** ** Reading a request in pieces *)
Module Pieces.
Import RequestParser.

(** Behind the version prefix, whose position [parse] forgets. *)
Definition past_version (st : state_t) : bool :=
  match st with
  | METHOD | URL_PATH | URL_QUERY_FIELD | URL_QUERY_VALUE | URL_FRAGMENT | VERSION => false
  | _ => true
  end.

Lemma dispatch_past c p r ret fin p' r' :
  dispatch c p r = (ret, fin, p', r') -> past_version (state_ p) = true -> past_version (state_ p') = true.
Proof.
  destruct p as [st]. unfold dispatch, parse_major_version, parse_minor_version, parse_header, parse_header_key,
    parse_header_value_begin, parse_header_value, parse_header_newline, parse_header_finish.
  destruct st; simpl; try done; intros H _; repeat case_hyp H; by simplify_eq/=.
Qed.

Lemma parse_loop_past msg p r ex p' r' :
  parse_loop msg p r = (ex, p', r') -> past_version (state_ p) = true -> past_version (state_ p') = true.
Proof.
  revert p r. induction msg as [|c msg IH]; intros p r H Hp; simpl in H; [by simplify_eq |].
  destruct (ceq c NUL); [by simplify_eq |]. destruct (dispatch c p r) as [[[ret fin] q] s] eqn:E.
  pose proof (dispatch_past _ _ _ _ _ _ _ E Hp) as Hq. destruct ret, fin; simplify_eq; eauto.
Qed.

Lemma past_peq p : past_version (state_ p) = true -> peq p (set_prefix_index 0 p).
Proof. intros H. apply set_prefix_index_peq. intros E. by rewrite E in H. Qed.

Lemma request_loop_cut a b p r rest p' r' :
  parse_loop (a ++ b) p r = (LBreak rest, p', r') ->
  (exists q s, parse_loop a p r = (LEnd, q, s) /\ parse_loop b q s = (LBreak rest, p', r'))
  \/ (exists rest', parse_loop a p r = (LBreak rest', p', r') /\ rest = rest' ++ b).
Proof.
  revert p r. induction a as [|c a IH]; intros p r H; simpl in *; [left; by eauto |].
  destruct (ceq c NUL); [done |]. destruct (dispatch c p r) as [[[ret fin] q] s].
  destruct ret, fin; simplify_eq; [|by apply IH]. right. by exists a.
Qed.

(** The body that is left has the announced length. *)
Definition announced (r : request) (body : str) : Prop :=
  stoul (length_ (content_ r)) = Ok (Z.of_nat (length (body_ r ++ body))).

Definition finished (p : request_parser) (r : request) (body : str) : request :=
  if has_body (method_ r) && negb (bool_decide (body = [])) then (process_body p (set_body (body_ r ++ body) r)).2 else r.

Lemma finished_peq p q r body : peq p q -> finished p r body = finished q r body.
Proof.
  intros H. unfold finished. destruct (_ && _); [|done].
  by destruct (process_body_peq p q (set_body (body_ r ++ body) r) H) as [_ ->].
Qed.

Lemma finished_app p r a b :
  has_body (method_ r) = true -> b <> [] -> finished p r (a ++ b) = finished p (set_body (body_ r ++ a) r) b.
Proof.
  intros Hm Hb. unfold finished. cbn. rewrite (bool_decide_eq_false_2 (b = [])) by done.
  rewrite bool_decide_eq_false_2 by (by intros [_ ?]%app_eq_nil). rewrite Hm. cbn. by rewrite <- app_assoc.
Qed.

Lemma request_body_cut res a b p r :
  announced r (a ++ b) -> a ++ b <> [] ->
  parse_body res a p r
  = Ok (if decide (b = [])
        then let '(p2, r2) := process_body p (set_body (body_ r ++ a) r) in (FINISH, set_state METHOD p2, r2)
        else (PARTIAL, p, set_body (body_ r ++ a) r)).
Proof.
  unfold announced, parse_body. intros Hl Hne. pose proof (stoul_range _ _ Hl) as Hr. unfold ULONG_MAX in Hr.
  rewrite Hl. cbn [rbind]. rewrite !length_app in *. unfold u64. rewrite wrap_small by lia.
  assert (0 < length a + length b) by (destruct a, b; simpl in *; try done; lia).
  rewrite (proj2 (Z.ltb_lt _ _)) by lia. case_decide as Hb; [subst; simpl in * | destruct b; [done |]; simpl in *].
  - rewrite (proj2 (Z.eqb_eq _ _)) by lia. by destruct (process_body _ _).
  - rewrite (proj2 (Z.eqb_neq _ _)) by lia. by rewrite (proj2 (Z.ltb_lt _ _)) by lia.
Qed.

(** The tail of [parse] at the end of the headers or in the body. *)
Lemma request_finish_cut res a b p r :
  state_ p = BODY -> has_body (method_ r) = true -> announced r (a ++ b) -> a ++ b <> [] ->
  if decide (b = []) then exists p', parse_finish res a p r = Ok (FINISH, p', finished p r a)
  else parse_finish res a p r = Ok (PARTIAL, p, set_body (body_ r ++ a) r).
Proof.
  intros Hs Hm Hl Hne. unfold parse_finish. rewrite (bool_decide_eq_true_2 _ Hs), Hm. cbn [andb].
  rewrite (request_body_cut _ _ _ _ _ Hl Hne). case_decide as Hb; [|done]. subst b. rewrite app_nil_r in Hne.
  unfold finished. rewrite Hm, (bool_decide_eq_false_2 _ Hne). cbn [andb negb].
  destruct (process_body p _) as [p2 r2]. cbn. by eexists.
Qed.

(** [p] has read a part of a message and [msg] is what is left of it; with
    it, the request becomes [r']. *)
Inductive awaits (p : request_parser) (r : request) (msg : str) (r' : request) : Prop :=
| awaits_body :
    state_ p = BODY -> has_body (method_ r) = true -> announced r msg -> r' = finished p r msg -> awaits p r msg r'
| awaits_header body q s :
    state_ p <> BODY -> parse_loop msg (set_prefix_index 0 p) r = (LBreak body, q, s) ->
    (has_body (method_ s) = true -> announced s body) -> (has_body (method_ s) = false -> body = []) ->
    r' = finished q s body -> awaits p r msg r'.

Lemma request_piece_body res p r a b r' :
  state_ p = BODY -> has_body (method_ r) = true -> announced r (a ++ b) -> a ++ b <> [] -> r' = finished p r (a ++ b) ->
  if decide (b = []) then exists p', parse_finish res a p r = Ok (FINISH, p', r')
  else exists p1 r1, parse_finish res a p r = Ok (PARTIAL, p1, r1) /\ past_version (state_ p1) = true /\ awaits p1 r1 b r'.
Proof.
  intros Hs Hm Hl Hne ->. pose proof (request_finish_cut res a b p r Hs Hm Hl Hne) as H. case_decide as Hb.
  - subst b. by rewrite app_nil_r.
  - eexists _, _. split; [exact H |]. split; [by rewrite Hs |]. apply awaits_body; [done | done | | by apply finished_app].
    unfold announced in *. cbn. by rewrite <- app_assoc.
Qed.

Lemma request_piece p r a b r' :
  awaits p r (a ++ b) r' -> a <> [] ->
  (forall q s, parse_loop a (set_prefix_index 0 p) r = (LEnd, q, s) -> past_version (state_ q) = true) ->
  if decide (b = []) then exists p', parse a p r = Ok (FINISH, p', r')
  else exists p1 r1, parse a p r = Ok (PARTIAL, p1, r1) /\ past_version (state_ p1) = true /\ awaits p1 r1 b r'.
Proof.
  intros H Ha Hv. unfold parse. assert (a ++ b <> []) as Hne by (by destruct a).
  destruct H as [Hs Hm Hl -> | body q s Hs El Hl Hn ->].
  - assert (past_version (state_ p) = true) as Hp by (by rewrite Hs).
    rewrite bool_decide_eq_true_2 by exact Hs.
    apply request_piece_body; try done. apply finished_peq, past_peq, Hp.
  - rewrite bool_decide_eq_false_2 by exact Hs.
    destruct (request_loop_cut _ _ _ _ _ _ _ El) as [(q1 & s1 & Ea & Eb) | (rest & Ea & ->)]; rewrite Ea.
    + case_decide as Hb; [by subst |]. pose proof (parse_loop_body _ _ _ _ _ _ Ea Hs) as Hs1.
      assert (state_ q1 <> BODY) as Hq1 by (intros E; apply Hs1 in E as [rest ?]; done).
      exists q1, s1. unfold parse_finish. rewrite (bool_decide_eq_false_2 _ Hq1). cbn [andb]. split; [done |].
      split; [by eapply Hv |]. pose proof (past_peq q1 (Hv _ _ Ea)) as Hpq.
      pose proof (parse_loop_proper b b eq_refl q1 _ Hpq s1 s1 eq_refl) as [[H1 H2] H3]. rewrite Eb in H1, H2, H3.
      destruct (parse_loop b (set_prefix_index 0 q1) s1) as [[ex q2] s2] eqn:E2. cbn in H1, H2, H3. subst ex s2.
      eapply awaits_header; [done | exact E2 | done | done |]. by apply finished_peq.
    + pose proof (parse_loop_body _ _ _ _ _ _ Ea Hs) as Hs1.
      assert (state_ q = BODY) as Hq by (apply Hs1; by eexists).
      destruct (has_body (method_ s)) eqn:Hm.
      * destruct (decide (rest ++ b = [])) as [En | Hne']; [|by apply request_piece_body; auto].
        apply app_eq_nil in En as [-> ->]. rewrite decide_True by done. specialize (Hl eq_refl). unfold announced in Hl.
        unfold parse_finish. rewrite (bool_decide_eq_true_2 _ Hq), Hm. cbn [andb]. unfold parse_body. rewrite Hl.
        cbn [rbind]. rewrite app_nil_r, Z.sub_diag. eexists. cbn. unfold finished. by rewrite Hm.
      * specialize (Hn eq_refl). apply app_eq_nil in Hn as [-> ->]. rewrite decide_True by done.
        unfold parse_finish. rewrite (bool_decide_eq_true_2 _ Hq), Hm. cbn. eexists. unfold finished. by rewrite Hm.
Qed.

(** What the server holds of a request when it is complete. *)
Definition received (hs : list (str * str)) (r r' : request) : Prop :=
  method_ r' = method_ r /\ url_ r' = url_ r /\ version_ r' = Version 1 1 /\ host_ r' = host_ r
  /\ (forall k, headers_ r' !! k = assoc k (wire_headers hs r)) /\ body_ r' = body_ r.

Definition request_line (m url : str) : str := m ++ lit " " ++ url ++ lit " HTTP/".

Lemma request_line_past m ms url rest q s :
  method_to_string m = Ok ms -> Forall (fun c => url_char c = true) url ->
  parse_loop (request_line ms url ++ rest) (set_prefix_index 0 parser0) request0 = (LEnd, q, s) ->
  past_version (state_ q) = true.
Proof.
  intros Hms Hu. unfold request_line. rewrite <- !app_assoc.
  change (set_prefix_index 0 parser0) with (RequestParser.at_start [] [] HEX_FINISHED [] METHOD 0 [] [] [] []).
  rewrite loop_method by (destruct (method_to_string_total m) as (? & ? & _ & ?); congruence).
  change (lit " " ++ ?x) with (" "%char :: x). erewrite parse_loop_cons; [|done | done].
  change (set_state URL_PATH _) with (RequestParser.at_start [] [] HEX_FINISHED [] URL_PATH 0 [] [] [] []).
  rewrite loop_url by done. change (lit " HTTP/" ++ ?x) with (" "%char :: "H"%char :: "T"%char :: "T"%char :: "P"%char :: "/"%char :: x).
  do 6 (erewrite parse_loop_cons; [|done | done]). intros H. by eapply parse_loop_past.
Qed.

Lemma finished_fields p r body :
  (has_body (method_ r) = false -> body = []) ->
  method_ (finished p r body) = method_ r /\ url_ (finished p r body) = url_ r /\ version_ (finished p r body) = version_ r
  /\ host_ (finished p r body) = host_ r /\ headers_ (finished p r body) = headers_ r
  /\ body_ (finished p r body) = body_ r ++ body.
Proof.
  intros Hn. unfold finished. destruct (has_body (method_ r)) eqn:Hm; cbn [andb].
  - case_bool_decide as Hb; cbn [negb]; [subst; by rewrite app_nil_r |].
    destruct (process_body p _) as [p' r'] eqn:E. apply process_body_fields in E. naive_solver.
  - rewrite Hn by done. by rewrite app_nil_r.
Qed.

Lemma request_awaited hs r ms :
  sendable hs r -> method_to_string (method_ r) = Ok ms ->
  exists rest r', request_to_buffers hs r = Ok (request_line ms (url_ r) ++ rest)
    /\ awaits parser0 request0 (request_line ms (url_ r) ++ rest) r' /\ received hs r r'.
Proof.
  intros [Hu Hh Hl Ho Ho' Hb] Hms. rewrite (request_to_buffers_wire _ _ _ Hms).
  set (rest := lit "1.1" ++ CRLF ++ concat (header_line <$> wire_headers hs r) ++ CRLF ++ body_ r).
  assert (ms ++ lit " " ++ url_ r ++ lit " HTTP/1.1" ++ CRLF ++ concat (header_line <$> wire_headers hs r) ++ CRLF ++ body_ r
          = request_line ms (url_ r) ++ rest) as Emsg by (unfold request_line; by rewrite <- !app_assoc).
  destruct (parse_loop_message parser0 (method_ r) (url_ r) (wire_headers hs r) (body_ r)) with (ms := ms)
    as (p' & Hs' & El); [done | done | done | | done |].
  { unfold wire_headers. intros E. apply app_eq_nil in E as [-> _]. by apply elem_of_nil in Ho. }
  set (s := absorb _ _) in El. exists rest, (finished p' s (body_ r)). rewrite <- Emsg. split; [done |].
  set (r0 := set_version (Version 1 1) (set_url (url_ r) (set_method (method_ r) request0))) in s.
  destruct (absorb_fields (wire_headers hs r) r0) as (Em & Eu & Ev & Eb). fold s in Em, Eu, Ev, Eb.
  assert (has_body (method_ s) = false -> body_ r = []) as Hn.
  { rewrite Em. intros E. destruct (decide (body_ r = [])) as [|Hne]; [done |]. destruct (Hb Hne) as [? _]. simpl in E. congruence. }
  split.
  - eapply awaits_header; [done | exact El | | exact Hn | done]. intros _. unfold announced. rewrite Eb. cbn [body_ r0 set_version set_url set_method request0 app].
    unfold s, wire_headers. destruct (decide (body_ r = [])) as [Hnb | Hnb].
    + rewrite (bool_decide_eq_true_2 _ Hnb), app_nil_r, absorb_length, Hnb by done. reflexivity.
    + rewrite (bool_decide_eq_false_2 _ Hnb), foldl_app. cbn. destruct (Hb Hnb) as (_ & -> & Hr).
      apply stoul_to_string. lia.
  - destruct (finished_fields p' s (body_ r) Hn) as (F1 & F2 & F3 & F4 & F5 & F6). unfold received.
    rewrite F1, F2, F3, F4, F5, F6, Em, Eu, Ev, Eb. split_and!; try done.
    + apply absorb_host; [|left; eexists; apply elem_of_app; by left].
      intros kv [Hkv | Hkv]%elem_of_app; [by apply Ho' |].
      destruct (bool_decide _); [by apply elem_of_nil in Hkv |].
      apply elem_of_cons in Hkv as [-> | [-> | []%elem_of_nil]%elem_of_cons]; done.
    + intros k. apply absorb_headers.
Qed.
End Pieces.

(** ** The exchange *)

Section Ends.
Context (now : str).

Lemma serve_pieces process pieces p r resp0 r' resp r2 :
  Forall (fun a => a <> []) pieces -> concat pieces <> [] -> Pieces.awaits p r (concat pieces) r' ->
  (forall a pieces' q s, pieces = a :: pieces' ->
     RequestParser.parse_loop a (RequestParser.set_prefix_index 0 p) r = (RequestParser.LEnd, q, s) ->
     Pieces.past_version (RequestParser.state_ q) = true) ->
  process r' = Ok (resp, r2) ->
  serve now process pieces (mk_connection p r resp0) = Ok (Some resp).
Proof.
  intros Hne Hc Hw Hv Hp. revert p r Hw Hv. induction pieces as [|a pieces IH]; intros p r Hw Hv; [done |].
  apply Forall_cons_1 in Hne as [Ha Hne]. cbn [concat] in Hw. cbn [serve].
  pose proof (Pieces.request_piece p r a (concat pieces) r' Hw Ha (fun q s => Hv a pieces q s eq_refl)) as H.
  unfold on_read. cbn [parser_ request_ response_]. case_decide as Hb.
  - destruct H as [p' ->]. cbn [rbind]. rewrite Hp. done.
  - destruct H as (p1 & r1 & -> & Hpast & Hw'). cbn [rbind]. apply IH; try done.
    intros a' pieces' q s -> Hl. by eapply Pieces.parse_loop_past.
Qed.

Lemma read_pieces pieces p r r' :
  Forall (fun a => a <> []) pieces -> concat pieces <> [] -> ResponseParser.awaits p r (concat pieces) r' ->
  (forall a pieces' q s, pieces = a :: pieces' ->
     ResponseParser.parse_loop a (ResponseParser.set_prefix_index 0 p) r = Ok (RequestParser.LEnd, q, s) ->
     ResponseParser.state_ q <> ResponseParser.VERSION) ->
  read_response now pieces p r = Ok r'.
Proof.
  intros Hne Hc Hw Hv. revert p r Hw Hv. induction pieces as [|a pieces IH]; intros p r Hw Hv; [done |].
  apply Forall_cons_1 in Hne as [Ha Hne]. cbn [concat] in Hw. cbn [read_response].
  pose proof (ResponseParser.parse_piece p r a (concat pieces) r' Hw Ha (fun q s => Hv a pieces q s eq_refl)) as H.
  case_decide as Hb.
  - by destruct H as [p' ->].
  - destruct H as (p1 & r1 & -> & Hpast & Hw'). cbn [rbind]. apply IH; try done.
    intros a' pieces' q s -> Hl. by eapply ResponseParser.parse_loop_past_version.
Qed.
End Ends.

(** The bytes [wire] as they arrive: in pieces, none of them empty, the first
    one with [head] at its front. *)
Definition arrives (wire head : str) (pieces : list str) : Prop :=
  concat pieces = wire /\ Forall (fun a => a <> []) pieces /\ exists a rest, pieces = (head ++ a) :: rest.

Lemma request_views_ok hs r : exists l, request_views hs r = Ok l.
Proof. destruct (method_to_string_total (method_ r)) as (ms & E & _). unfold request_views. rewrite E. by eexists. Qed.

Lemma response_views_ok hs r : exists l, response_views hs r = Ok l.
Proof. unfold response_views. destruct (status_ r); by eexists. Qed.

(** The server gets the request the client sent. *)
Lemma request_delivered now process hs r ms views calls wire pieces resp resp0 :
  RequestParser.sendable hs r -> method_to_string (method_ r) = Ok ms ->
  request_views hs r = Ok views -> send_request calls (view <$> views) [] = Ok (Complete wire) ->
  arrives wire (Pieces.request_line ms (url_ r)) pieces ->
  (forall r', Pieces.received hs r r' -> exists r2, process r' = Ok (resp, r2)) ->
  serve now process pieces (mk_connection RequestParser.parser0 request0 resp0) = Ok (Some resp).
Proof.
  intros Hs Hms Hv Hsend (Hc & Hne & a & rest & Hh) Hp.
  destruct (Pieces.request_awaited hs r ms Hs Hms) as (tl & r' & Hw & Haw & Hr).
  apply send_request_wire in Hsend. rewrite data_views, app_nil_l in Hsend.
  rewrite (request_views_wire _ _ _ Hv) in Hw. injection Hw as Hw. rewrite Hsend in Hc. rewrite <- Hw, <- Hc in Haw.
  destruct (Hp r' Hr) as [r2 Hp2]. eapply serve_pieces; try done.
  - rewrite Hc, Hw. unfold Pieces.request_line. destruct (method_to_string_total (method_ r)) as (ms' & E & Hn & _).
    assert (ms' = ms) as -> by congruence. by destruct ms.
  - intros a' pieces' q s E Hl. rewrite Hh in E. injection E as <- <-. eapply Pieces.request_line_past; [exact Hms | | exact Hl].
    apply Hs.
Qed.

(** The client gets the response the server sent. *)
Lemma response_delivered now hs r views calls wire pieces :
  ResponseParser.answerable hs r ->
  response_views hs r = Ok views -> on_output calls (view <$> views) [] = Ok (Complete wire) ->
  arrives wire (lit "HTTP/") pieces ->
  exists r', receive_response now pieces = Ok r' /\ ResponseParser.received hs r r'.
Proof.
  intros Ha Hv Hsend (Hc & Hne & a & rest & Hh).
  destruct (ResponseParser.response_awaited hs r Ha) as (tl & r' & Hw & Haw & Hr).
  apply on_output_wire in Hsend. rewrite data_views, app_nil_l in Hsend.
  rewrite (response_views_wire _ _ _ Hv) in Hw. assert (concat views = lit "HTTP/" ++ tl) as Hw' by congruence. clear Hw.
  rewrite Hsend in Hc. rewrite <- Hw', <- Hc in Haw.
  exists r'. split; [|done]. apply read_pieces; try done.
  - by rewrite Hc, Hw'.
  - intros a' pieces' q s E Hl. rewrite Hh in E. injection E as <- <-.
    assert (ResponseParser.parse_loop a (ResponseParser.Parser ResponseParser.MAJOR_VERSION 4 [] [] [] [] false) response0
            = Ok (RequestParser.LEnd, q, s)) as Hl' by exact Hl.
    by eapply ResponseParser.parse_loop_past_version.
Qed.

(** C3: A request and its response over a connection, end to end. The client
    hands the buffers of a sendable request (see [request_roundtrip]) to the
    socket; whenever all of them get sent, and the bytes arrive in any number
    of pieces of which the first holds at least the method, the url and
    [HTTP/], the server's connection processes a request with the method, url,
    host, headers and body the client sent, and writes the response the
    pipeline answers with; when that has headers, all with valid keys and
    values that are not empty, and a body only with its length, and arrives in
    pieces of which the first holds at least [HTTP/], the client reads back
    its status, headers and body. (A piece that ends inside the version prefix
    is refused, see [RequestParser.split_in_prefix_is_refused].) *)
Theorem http_exchange now now' process hs r ms views calls wire pieces resp hs' views' calls' wire' pieces' :
  RequestParser.sendable hs r -> method_to_string (method_ r) = Ok ms ->
  request_views hs r = Ok views -> send_request calls (view <$> views) [] = Ok (Complete wire) ->
  arrives wire (Pieces.request_line ms (url_ r)) pieces ->
  (forall r', Pieces.received hs r r' -> exists r2, process r' = Ok (resp, r2)) ->
  ResponseParser.answerable hs' resp ->
  response_views hs' resp = Ok views' -> on_output calls' (view <$> views') [] = Ok (Complete wire') ->
  arrives wire' (lit "HTTP/") pieces' ->
  serve now process pieces connection0 = Ok (Some resp)
  /\ exists resp', receive_response now' pieces' = Ok resp' /\ ResponseParser.received hs' resp resp'.
Proof.
  intros. split; [by eapply request_delivered | by eapply response_delivered].
Qed.

(** A server with one route, and its answer in two pieces. *)
Definition hello : response := ok_response (lit "Mon") (lit "hello") TYPE_TEXT_PLAIN.
Definition hello_headers : list (str * str) := [(lit "Date", lit "Mon"); (lit "Server", lit "Matador/0.7.0")].
Definition hello_router : result Routing.routing_engine := Routing.add (lit "/user/{id}") GET (fun _ => Ok hello) [].
Definition hello_server (req : request) : result (response * request) :=
  let? router := hello_router in
  Routing.pipeline_process [] (Routing.pipeline_add (Routing.routing_middleware [] router) (Routing.pipeline [])) req.
Definition hello_request : request := make_request GET (lit "localhost") (lit "/user/7").

(** The views of a message, a socket that takes each of them whole, and the
    bytes in two pieces. *)
Definition hello_views : list str := ok_or [] (request_views [(HOST, lit "localhost")] hello_request).
Definition hello_views' : list str := ok_or [] (response_views hello_headers hello).
Definition whole (views : list str) : list sent := (fun s => Sent (length s)) <$> views.
Definition in_two (views : list str) : list str := [take 20 (concat views); drop 20 (concat views)].

Lemma hello_sendable : RequestParser.sendable [(HOST, lit "localhost")] hello_request.
Proof.
  split.
  - repeat constructor.
  - repeat constructor; try done; by apply RequestParser.valid_value_intro.
  - repeat constructor.
  - by left.
  - intros kv Hkv _. by apply list_elem_of_singleton in Hkv as ->.
  - done.
Qed.

Lemma hello_answerable : ResponseParser.answerable hello_headers hello.
Proof.
  split; [| done | repeat constructor | done].
  repeat constructor; try done; by apply ResponseParser.resp_value_intro.
Qed.

Lemma hello_served r' : Pieces.received [(HOST, lit "localhost")] hello_request r' -> exists r2, hello_server r' = Ok (hello, r2).
Proof.
  intros (Hm & Hu & _). unfold hello_server, hello_router, Routing.add. cbn [Routing.find_internal List.find].
  change (Routing.create_route_endpoint _ _ _) with
    (Routing.create_route_endpoint (Routing.route_spec [Routing.Plain (lit "user"); Routing.Param (lit "id")]) GET (fun _ => Ok hello)).
  rewrite Routing.create_route by (first [done | by repeat constructor]). cbn [rbind app].
  unfold Routing.pipeline_process, Routing.pipeline_add. cbn [Routing.processor_process]. unfold Routing.routing_middleware.
  cbn [Routing.engine_match]. unfold Routing.endpoint_match. rewrite Hm, Hu.
  rewrite bool_decide_eq_true_2 by done.
  assert (Regex.regex_match (Routing.path_regex
    (Routing.seg_endpoint [Routing.Plain (lit "user"); Routing.Param (lit "id")] GET (fun _ => Ok hello))).1
    (url_ hello_request) = Some {[1 := lit "7"]}) as -> by reflexivity.
  by eexists.
Qed.

Lemma http_exchange_witness :
  serve [] hello_server (in_two hello_views) connection0 = Ok (Some hello)
  /\ exists resp', receive_response [] (in_two hello_views') = Ok resp' /\ rbody resp' = lit "hello".
Proof.
  destruct (http_exchange [] [] hello_server [(HOST, lit "localhost")] hello_request (lit "GET") hello_views (whole hello_views)
    (concat hello_views) (in_two hello_views) hello hello_headers hello_views' (whole hello_views') (concat hello_views')
    (in_two hello_views')) as [H1 (resp' & H2 & H3)].
  - exact hello_sendable.
  - reflexivity.
  - reflexivity.
  - reflexivity.
  - split_and!; [reflexivity | by repeat constructor | by eexists _, _].
  - exact hello_served.
  - exact hello_answerable.
  - reflexivity.
  - reflexivity.
  - split_and!; [reflexivity | by repeat constructor | by eexists _, _].
  - split; [exact H1 |]. exists resp'. split; [exact H2 | apply H3].
Defined.

(** A server that closes the connection without an answer looks like one that
    answers 200: the response the client starts with is returned. *)
Example no_answer_is_ok : (let? r := receive_response [] [] in Ok (status_ r)) = Ok OK.
Proof. reflexivity. Qed.

End HttpExchange.
