(* ===== verification/Template.v ===== *)
(** * The template engine

    Model of [template_engine] (src/http/template_engine.cpp), the parser of
    templates ([template_parser], src/http/detail/template_parser.cpp and .hpp),
    its commands (template_command.cpp), expressions, filters and the parts
    that render themselves (template_part.cpp), with [html::escape]
    (src/utils/html.cpp). The cursor is the unread rest of the C string. The
    callbacks of the commands are a value of [context] that the parser passes
    along. Files are a function from a path to the content. The theorems
    compare the text of a template with its meaning, given directly on its
    structure. *)

From S2P Require Import Prelude Json JsonParser.
Local Open Scope cxx_scope.

Module Template.
Import Json JsonParser.

Definition null_part_deref {A} : result A := Throw (undefined_behaviour "null pointer").

(** ** Filters *)

Inductive template_filter := escape_filter | capfirst_filter | upper_filter | lower_filter.

Definition toupper (c : ascii) : ascii := if islower c then chr (code c - 32) else c.

(** One character in [html::escape]. *)
Definition entity (c : ascii) : str :=
  if bool_decide (c = "&"%char) then lit "&amp;"
  else if bool_decide (c = DQUOTE) then lit "&quot;"
  else if bool_decide (c = "'"%char) then lit "&apos;"
  else if bool_decide (c = "<"%char) then lit "&lt;"
  else if bool_decide (c = ">"%char) then lit "&gt;"
  else [c].
Definition html_escape (value : str) : str := concat (entity <$> value).

(** [template_filter_factory::produce]; null for an unknown name. *)
Definition produce_filter (key : str) : option template_filter :=
  if bool_decide (key = lit "escape") then Some escape_filter
  else if bool_decide (key = lit "capfirst") then Some capfirst_filter
  else if bool_decide (key = lit "upper") then Some upper_filter
  else if bool_decide (key = lit "lower") then Some lower_filter
  else None.

(** ** Reading tokens *)

Fixpoint span (p : ascii -> bool) (cur : str) : str * str :=
  match cur with
  | c :: cur' => if p c then let '(t, rest) := span p cur' in (c :: t, rest) else ([], cur)
  | [] => ([], [])
  end.

Definition is_char (x c : ascii) : bool := bool_decide (c = x).

Definition token_char (c : ascii) : bool := isalnum c || is_char "." c.
Definition filepath_char (c : ascii) : bool := isalnum c || is_char "." c || is_char "_" c || is_char "/" c.
Definition operand_char (c : ascii) : bool := isalnum c || is_char "." c || is_char DQUOTE c.

Definition parse_chars (p : ascii -> bool) (cur : str) : str * str :=
  let '(token, cur) := span p (skip_spaces cur) in (token, skip_spaces cur).
Definition parse_token : str -> str * str := parse_chars token_char.
Definition parse_filepath : str -> str * str := parse_chars filepath_char.
Definition parse_operand : str -> str * str := parse_chars operand_char.

Definition parse_end_of_command_tag (cur : str) : bool * str :=
  match skip_spaces cur with
  | c :: cur1 =>
    if is_char "%" c then
      match cur1 with
      | d :: cur2 => if is_char "}" d then (true, cur2) else (false, cur1)
      | [] => (false, cur1)
      end
    else (false, c :: cur1)
  | [] => (false, [])
  end.

Definition parse_filter (cur : str) : option template_filter * str :=
  let '(name, cur) := parse_token cur in (produce_filter name, cur).

Definition isop (c : ascii) : bool := is_char "=" c || is_char "!" c || is_char "<" c || is_char ">" c.

Fixpoint parse_operator (cur : str) : result (str * str) :=
  match cur with
  | c :: cur' =>
    if isspace c then Ok ([], cur)
    else if isop c then let? (op, cur) := parse_operator cur' in Ok (c :: op, cur)
    else Throw (logic_error "character is not operator")
  | [] => Ok ([], cur)
  end.

Definition operators : list str := [lit "=="; lit "!="; lit "<"; lit "<="; lit ">"; lit ">="].

(** ** Escaped values *)

Definition entities : list (str * ascii) :=
  [(lit "&amp;", "&"%char); (lit "&quot;", DQUOTE); (lit "&apos;", "'"%char); (lit "&lt;", "<"%char); (lit "&gt;", ">"%char)].

(** How a browser reads text: these character references stand for their
    characters, everything else for itself. *)
Fixpoint reference (l : list (str * ascii)) (s : str) : option (ascii * str) :=
  match l with
  | [] => None
  | (e, c) :: l => if bool_decide (take (length e) s = e) then Some (c, drop (length e) s) else reference l s
  end.

Fixpoint html_text (fuel : nat) (s : str) : str :=
  match fuel, s with
  | S fuel, c :: s' =>
    match reference entities s with
    | Some (x, rest) => x :: html_text fuel rest
    | None => c :: html_text fuel s'
    end
  | _, _ => []
  end.

(** The characters that can end a text or an attribute, or start a tag. *)
Definition markup : list ascii := ["<"%char; ">"%char; DQUOTE; "'"%char].

Lemma reference_other c s : c <> "&"%char -> reference entities (c :: s) = None.
Proof.
  intros Hc. unfold entities. cbn [reference]. rewrite !bool_decide_false; [done | ..]; by intros [= -> _].
Qed.

Lemma reference_entity c s :
  entity c <> [c] -> reference entities (entity c ++ s) = Some (c, s).
Proof.
  unfold entity. repeat case_bool_decide; subst; intros; try done; reflexivity.
Qed.

Lemma entity_cases c : (entity c = [c] /\ c <> "&"%char /\ c ∉ markup) \/ entity c <> [c].
Proof.
  unfold entity. repeat case_bool_decide; subst; try (right; done). left. split; [done |]. split; [done |].
  unfold markup. rewrite !elem_of_cons, elem_of_nil. naive_solver.
Qed.

Lemma html_text_escape s fuel : length (html_escape s) <= fuel -> html_text fuel (html_escape s) = s.
Proof.
  revert fuel. induction s as [|c s IH]; intros fuel Hf; [by destruct fuel |].
  unfold html_escape in *. rewrite fmap_cons, concat_cons in *. rewrite length_app in Hf.
  destruct (entity_cases c) as [(E & Hc & _) | E].
  - rewrite E in *. cbn [app length] in *. destruct fuel as [|fuel]; [lia |]. cbn [html_text].
    rewrite reference_other by done. f_equal. apply IH. lia.
  - pose proof (reference_entity c (concat (entity <$> s)) E) as Hr.
    destruct (entity c ++ concat (entity <$> s)) as [|x l] eqn:El.
    { unfold entity in El. repeat case_bool_decide; done. }
    assert (1 <= length (entity c)) by (unfold entity; repeat case_bool_decide; simpl; lia).
    destruct fuel as [|fuel]; [lia |]. cbn [html_text]. rewrite Hr. f_equal. apply IH. lia.
Qed.

Lemma html_escape_inert s : Forall (fun c => c ∉ markup) (html_escape s).
Proof.
  unfold html_escape. induction s as [|c s IH]; simpl; [constructor |]. apply Forall_app_2; [|exact IH].
  revert c. refine (forall_chars_dec _ _). vm_compute. reflexivity.
Qed.

Section Engine.
Context {real : Type}.
Context (real_to_string : real -> str) (real_eqb real_ltb : real -> real -> bool) (real_of : Z -> real).
Context (strtod : str -> real * str * bool) (real_limit : real -> bool).

(** Whether [errno] is [ERANGE] when a number is read. *)
Context (errno : bool).

(** The files that can be opened. *)
Context (disk : str -> option str).

(** [evaluate] of the filters, and a chain of them. *)
Definition as_string (data : json real) : result str :=
  match data with String s => Ok s | _ => Throw (logic_error "wrong type; couldn't cast") end.

Definition evaluate_filter (f : template_filter) (data : json real) : result (json real) :=
  match f with
  | escape_filter => let? s := as_string data in Ok (String (html_escape s))
  | capfirst_filter =>
    match data with String (c :: s) => Ok (String (toupper c :: s)) | _ => Ok data end
  | upper_filter => match data with String s => Ok (String (toupper <$> s)) | _ => Ok data end
  | lower_filter => match data with String s => Ok (String (tolower <$> s)) | _ => Ok data end
  end.

Fixpoint apply (fs : list template_filter) (data : json real) : result (json real) :=
  match fs with
  | [] => Ok data
  | f :: fs => let? data := evaluate_filter f data in apply fs data
  end.

Lemma apply_app fs fs' data : apply (fs ++ fs') data = let? data := apply fs data in apply fs' data.
Proof. revert data. induction fs as [|f fs IH]; intros data; [done |]. simpl. destruct (evaluate_filter f data); simpl; [apply IH | done]. Qed.

(** ** Expressions *)

(** The comparison is kept as its operator. *)
Inductive template_expression :=
| json_value_expression (value_name_ : str)
| json_compare_expression (value_name_ op : str) (operand : json real)
| json_json_compare_expression (left_name_ right_name_ op : str).

(** [build_compare_function], [build_json_compare_function]. *)
Definition compare (op : str) (value operand : json real) : bool :=
  if bool_decide (op = lit "==") then equal real_eqb value operand
  else if bool_decide (op = lit "!=") then negb (equal real_eqb value operand)
  else if bool_decide (op = lit "<") then less real_ltb real_of value operand
  else if bool_decide (op = lit "<=") then less_equal real_ltb real_of value operand
  else if bool_decide (op = lit ">") then greater real_ltb real_of value operand
  else if bool_decide (op = lit ">=") then greater_equal real_ltb real_of value operand
  else false.

Definition truth (val : json real) : bool :=
  match val with
  | Array _ | Object _ | String _ => negb (Json.empty val)
  | Boolean b => b
  | Integer z => (0 <? z)%Z
  | Real r => real_ltb (real_of 0) r
  | Null => false
  end.

Definition evaluate (e : template_expression) (data : json real) : result bool :=
  match e with
  | json_value_expression name =>
    match at_path name "."%char data with Ok val => Ok (truth val) | Throw _ => Ok false end
  | json_compare_expression name op operand =>
    let? value := at_path name "."%char data in Ok (compare op value operand)
  | json_json_compare_expression left_name right_name op =>
    let? l := at_path left_name "."%char data in
    let? r := at_path right_name "."%char data in Ok (compare op l r)
  end.

Definition parse_expression (cur : str) : result (template_expression * str) :=
  let '(token, cur) := parse_token cur in
  if is_char "%" (current_char cur) then Ok (json_value_expression token, cur)
  else
    let? (op, cur) := parse_operator cur in
    if negb (bool_decide (op ∈ operators)) then Throw (logic_error "invalid operator")
    else
      let '(operand, cur) := parse_operand cur in
      if isalpha (current_char operand) then Ok (json_json_compare_expression token operand op, cur)
      else
        let? j := JsonParser.parse strtod real_limit operand errno (JsonParser Null [] []) in
        Ok (json_compare_expression token op j, cur).

(** ** Parts *)

(** [null_part] is the null pointer. Only the variables get filters. *)
#[warnings="-register-all"]
Inductive template_part :=
| static_part (str_ : str)
| variable_part (str_ : str) (filter_ : list template_filter)
| multi_template_part (parts_ : list template_part)
| loop_template_part (part_ loop_part_ : template_part) (list_name_ elem_name_ : str)
| if_template_part (expression_list_ : list (template_expression * template_part)) (else_part_ : template_part)
| null_part.

(** [append_filter]: an unknown filter is null, and appending null does
    nothing. *)
Definition append_filter (f : option template_filter) (p : template_part) : template_part :=
  match p, f with
  | variable_part s fs, Some f => variable_part s (fs ++ [f])
  | _, _ => p
  end.

Fixpoint append_filter_back (f : option template_filter) (ps : list template_part) : list template_part :=
  match ps with
  | [] => []
  | [p] => [append_filter f p]
  | p :: ps => p :: append_filter_back f ps
  end.

(** The end of [variable_part::render]. *)
Definition show (val : json real) : result str :=
  match val with
  | Integer z => Ok (to_string_z (s32 z))
  | Real r => Ok (real_to_string r)
  | Boolean b => Ok (if b then lit "1" else lit "0")
  | String s => Ok s
  | Null => Ok (lit "null")
  | _ => Throw (logic_error "couldn't cats object or array to string")
  end.

Definition render_variable (name : str) (fs : list template_filter) (data : json real) : result str :=
  let? val := at_path name "."%char data in
  let? val := apply fs val in
  show val.

(** The strings of a stream, appended. *)
Fixpoint join_strings (l : list (result str)) : result str :=
  match l with
  | [] => Ok []
  | r :: l => let? s := r in let? t := join_strings l in Ok (s ++ t)
  end.

(** The elements [for (const auto &elem : cont)] runs through. *)
Definition elements_of (cont : json real) : list (json real) :=
  match cont with Object m => snd <$> m | Array l => l | _ => [] end.

(** The data of one turn of a loop. *)
Definition loop_item (elem_name : str) (elem data : json real) : json real :=
  let item := set_key elem_name elem (Object []) in
  set_key (lit "forloop") (set_key (lit "parent") data (key_entry (lit "forloop") item).2) item.

Fixpoint render (p : template_part) (data : json real) {struct p} : result str :=
  match p with
  | static_part s => Ok s
  | variable_part name fs => render_variable name fs data
  | multi_template_part ps => join_strings ((fun p => render p data) <$> ps)
  | loop_template_part p lp list_name elem_name =>
    let? cont := at_path list_name "."%char data in
    if negb (is_object cont) && negb (is_array cont) then Throw (logic_error "json object isn't of type array or object")
    else if Json.empty cont then render p data
    else join_strings ((fun elem => render lp (loop_item elem_name elem data)) <$> elements_of cont)
  | if_template_part es p =>
    (fix branches es :=
       match es with
       | [] => render p data
       | (e, q) :: es => let? b := evaluate e data in if b then render q data else branches es
       end) es
  | null_part => null_part_deref
  end.

(** ** The parser *)

Inductive state_t :=
| UNKNOWN | STATIC_TEXT | INITIATE_TEMPLATE | PROCESS_COMMAND | PROCESS_COMMAND_FINISH | PROCESS_VARIABLE
| PROCESS_VARIABLE_READ | PROCESS_VARIABLE_FINISH | PROCESS_FILTER | PROCESS_FILTER_FINISHED.

Inductive on_command_result_t := FINISHED | INTERMEDIATE | NEXT_COMMAND.

(** What the callback [on_command] of a command captures: nothing for a whole
    template, [loop_part_] of [foreach_command], and the variables of
    [if_else_command::parse]. *)
Inductive context :=
| whole
| foreach_context (loop_part_ : template_part)
| if_else_context (expr : template_expression) (has_else : bool) (expression_list : list (template_expression * template_part)).

(** The callbacks. [move_parts] takes the parts read so far and leaves none. *)
Definition on_command (ctx : context) (cmd : str) (parts : list template_part) (cur : str) :
    result (on_command_result_t * context * list template_part * str) :=
  match ctx with
  | whole => Ok (NEXT_COMMAND, ctx, parts, cur)
  | foreach_context loop =>
    if bool_decide (cmd = lit "empty") then Ok (INTERMEDIATE, foreach_context (multi_template_part parts), [], cur)
    else if bool_decide (cmd = lit "endfor") then
      match loop with
      | null_part => Ok (FINISHED, foreach_context (multi_template_part parts), [], cur)
      | _ => Ok (FINISHED, ctx, parts, cur)
      end
    else Ok (NEXT_COMMAND, ctx, parts, cur)
  | if_else_context expr has_else l =>
    let add := l ++ [(expr, multi_template_part parts)] in
    if bool_decide (cmd = lit "else") then Ok (INTERMEDIATE, if_else_context expr true add, [], cur)
    else if bool_decide (cmd = lit "elif") then
      let? (expr, cur) := parse_expression cur in
      Ok (INTERMEDIATE, if_else_context expr has_else add, [], cur)
    else if bool_decide (cmd = lit "endif") then
      if has_else then Ok (FINISHED, ctx, parts, cur) else Ok (FINISHED, if_else_context expr has_else add, [], cur)
    else Ok (NEXT_COMMAND, ctx, parts, cur)
  end.

Definition end_tag (cur : str) : result str :=
  let '(closed, cur) := parse_end_of_command_tag cur in
  if closed then Ok cur else Throw (logic_error "couldn't read expected command end tag '%}'").

(** The commands; [rec] is [parse] of a new [template_parser] on the rest. *)
Section Commands.
Context (rec : context -> str -> result (list template_part * context * str)).

(** The parse of an included file, a template of its own. *)
Context (parse_file : str -> result template_part).

Definition foreach_parse (cur : str) : result (template_part * str) :=
  let '(elem_name, cur) := parse_token cur in
  let '(in_, cur) := parse_token cur in
  if negb (bool_decide (in_ = lit "in")) then Throw (logic_error "expected keyword 'in' for for loop")
  else
    let '(list_name, cur) := parse_token cur in
    let? cur := end_tag cur in
    let? (parts, ctx, cur) := rec (foreach_context null_part) cur in
    let loop_part := match ctx with foreach_context l => l | _ => null_part end in
    Ok (loop_template_part (multi_template_part parts) loop_part list_name elem_name, cur).

Definition if_else_parse (cur : str) : result (template_part * str) :=
  let? (expr, cur) := parse_expression cur in
  let? cur := end_tag cur in
  let? (parts, ctx, cur) := rec (if_else_context expr false []) cur in
  let expression_list := match ctx with if_else_context _ _ l => l | _ => [] end in
  Ok (if_template_part expression_list (multi_template_part parts), cur).

Definition include_parse (cur : str) : result (template_part * str) :=
  let cur := skip_spaces cur in
  if is_char DQUOTE (current_char cur) then
    let? cur := next_char cur in
    let '(filepath, cur) := parse_filepath cur in
    let? cur := next_char cur in
    match disk filepath with
    | None => Throw (logic_error "file doesn't exists")
    | Some content =>
      let? part := parse_file content in
      Ok (part, skip_spaces cur)
    end
  else
    let '(_, cur) := parse_token cur in
    let? cur := end_tag cur in
    Ok (null_part, cur).

(** [template_command_factory::produce] and [parse] of what it returns, which
    is null for an unknown command. *)
Definition parse_command (cmd cur : str) : result (template_part * str) :=
  if bool_decide (cmd = lit "for") then foreach_parse cur
  else if bool_decide (cmd = lit "if") then if_else_parse cur
  else if bool_decide (cmd = lit "include") then include_parse cur
  else null_part_deref.
End Commands.

Section Loop.
Context (parse_file : str -> result template_part).

(** [template_parser::parse]: a turn of the loop, by state. What is neither
    text nor expected sets the state back to [STATIC_TEXT]. *)
Fixpoint parse (fuel : nat) (ctx : context) (state : state_t) (current_part : str) (parts : list template_part)
    (cur : str) : result (list template_part * context * str) :=
  match fuel with
  | O => Throw out_of_fuel
  | S fuel =>
    match cur with
    | [] => Ok (parts ++ [static_part current_part], ctx, [])
    | c :: cur' =>
      match state with
      | STATIC_TEXT =>
        if is_char "{" c then parse fuel ctx INITIATE_TEMPLATE [] (parts ++ [static_part current_part]) cur'
        else parse fuel ctx STATIC_TEXT (current_part ++ [c]) parts cur'
      | INITIATE_TEMPLATE =>
        if is_char "{" c then parse fuel ctx PROCESS_VARIABLE current_part parts cur'
        else if is_char "%" c then parse fuel ctx PROCESS_COMMAND current_part parts cur'
        else parse fuel ctx STATIC_TEXT (current_part ++ [c]) parts cur'
      | PROCESS_VARIABLE_READ | PROCESS_FILTER_FINISHED =>
        if is_char "|" c then parse fuel ctx PROCESS_FILTER current_part parts cur'
        else if is_char "}" c then parse fuel ctx PROCESS_VARIABLE_FINISH current_part parts cur'
        else parse fuel ctx STATIC_TEXT (current_part ++ [c]) parts cur'
      | PROCESS_VARIABLE_FINISH | PROCESS_COMMAND_FINISH =>
        if is_char "}" c then parse fuel ctx STATIC_TEXT current_part parts cur' else parse fuel ctx STATIC_TEXT (current_part ++ [c]) parts cur'
      | PROCESS_FILTER =>
        let '(filter, cur) := parse_filter cur in
        parse fuel ctx PROCESS_FILTER_FINISHED current_part (append_filter_back filter parts) cur
      | PROCESS_VARIABLE =>
        let '(var, cur) := parse_token cur in
        parse fuel ctx PROCESS_VARIABLE_READ current_part (parts ++ [variable_part var []]) cur
      | PROCESS_COMMAND =>
        if is_char "%" c then parse fuel ctx PROCESS_COMMAND_FINISH current_part parts cur'
        else
          let '(cmd, cur) := parse_token cur in
          let? (res, ctx, parts, cur) := on_command ctx cmd parts cur in
          match res with
          | FINISHED => Ok (parts, ctx, cur)
          | INTERMEDIATE => parse fuel ctx PROCESS_COMMAND current_part parts cur
          | NEXT_COMMAND =>
            let? (part, cur) :=
              parse_command (fun ctx cur => parse fuel ctx STATIC_TEXT [] [] cur) parse_file cmd cur in
            parse fuel ctx PROCESS_COMMAND current_part (parts ++ [part]) cur
          end
      | UNKNOWN => parse fuel ctx STATIC_TEXT (current_part ++ [c]) parts cur'
      end
    end
  end.
End Loop.

(** Two turns of the loop read at least one character. *)
Definition template_fuel (cur : str) : nat := 2 * length cur + 2.

(** [template_engine::build]; [depth] bounds the files that include files. *)
Fixpoint build (depth : nat) (format : str) : result template_part :=
  match depth with
  | O => Throw out_of_fuel
  | S depth =>
    let cur := c_str format in
    let? (parts, _, _) := parse (build depth) (template_fuel cur) whole STATIC_TEXT [] [] cur in
    Ok (multi_template_part parts)
  end.

Definition render_format (depth : nat) (format : str) (data : json real) : result str :=
  let? part := build depth format in render part data.

(** ** What a template means

    A template is a list of items. Each tag carries the white space [g] that is
    written between its words. *)

Inductive condition :=
| cond_value (path : str)
| cond_compare (path op : str) (v : json real)
| cond_paths (path op path' : str).

#[warnings="-register-all"]
Inductive item :=
| text (s : str)
| var (g path : str) (fs : list template_filter)
| for_ (g elem lst : str) (body : list item) (on_empty : option (list item))
| if_ (g : str) (c : condition) (body : list item) (elifs : list (condition * list item)) (els : option (list item))
| include (g path : str) (content : list item).

(** What is shown of a value: filters change strings character by character
    and leave other values alone, which cannot be escaped. *)
Definition upper_char (c : ascii) : ascii := if (97 <=? code c)%Z && (code c <=? 122)%Z then chr (code c - 32) else c.
Definition lower_char (c : ascii) : ascii := if (65 <=? code c)%Z && (code c <=? 90)%Z then chr (code c + 32) else c.
Definition escaped_char (c : ascii) : str :=
  match list_find (fun e : str * ascii => e.2 = c) entities with Some (_, (e, _)) => e | None => [c] end.
Definition filtered_string (f : template_filter) (s : str) : str :=
  match f with
  | escape_filter => concat (escaped_char <$> s)
  | capfirst_filter => (upper_char <$> take 1 s) ++ drop 1 s
  | upper_filter => upper_char <$> s
  | lower_filter => lower_char <$> s
  end.
Definition filtered (f : template_filter) (v : json real) : result (json real) :=
  match v, f with
  | String s, _ => Ok (String (filtered_string f s))
  | _, escape_filter => Throw (logic_error "wrong type; couldn't cast")
  | _, _ => Ok v
  end.
Definition printed (v : json real) : result str :=
  match v with
  | Null => Ok (lit "null")
  | Boolean true => Ok (lit "1")
  | Boolean false => Ok (lit "0")
  | Integer z => Ok (to_string_z ((z + 2147483648) mod 4294967296 - 2147483648)%Z)
  | Real r => Ok (real_to_string r)
  | String s => Ok s
  | Array _ | Object _ => Throw (logic_error "couldn't cats object or array to string")
  end.
Definition shown (path : str) (fs : list template_filter) (data : json real) : result str :=
  let? v := foldl (fun r f => let? v := r in filtered f v) (at_path path "."%char data) fs in printed v.

(** Which values count as true: numbers above zero, arrays and objects that
    have something in them, and every string. *)
Definition truthy (v : json real) : bool :=
  match v with
  | Null | Array [] | Object [] => false
  | Boolean b => b
  | Integer z => bool_decide (0 < z)%Z
  | Real r => real_ltb (real_of 0) r
  | String _ | Array _ | Object _ => true
  end.
(** The operators, by the order of the values. *)
Definition related (op : str) (a b : json real) : bool :=
  let lt := less real_ltb real_of in
  default false
    (assoc op [(lit "==", equal real_eqb a b); (lit "!=", negb (equal real_eqb a b)); (lit "<", lt a b);
               (lit "<=", negb (lt b a)); (lit ">", lt b a); (lit ">=", negb (lt a b))]).

Definition holds (c : condition) (data : json real) : result bool :=
  match c with
  | cond_value path => match at_path path "."%char data with Ok val => Ok (truthy val) | Throw _ => Ok false end
  | cond_compare path op v => let? x := at_path path "."%char data in Ok (related op x v)
  | cond_paths path op path' =>
    let? x := at_path path "."%char data in
    let? y := at_path path' "."%char data in Ok (related op x y)
  end.

(** A loop runs through the elements of an array or the values of an object;
    in its body there are the element under its name and [forloop.parent],
    the data around the loop. *)
Definition loop_elements (v : json real) : result (list (json real)) :=
  match v with
  | Array l => Ok l
  | Object m => Ok m.*2
  | _ => Throw (logic_error "json object isn't of type array or object")
  end.
Definition loop_data (elem_name : str) (elem data : json real) : json real :=
  let forloop := (lit "forloop", Object [(lit "parent", data)]) in
  if decide (elem_name = lit "forloop") then Object [(lit "forloop", set_key (lit "parent") data elem)]
  else Object (if str_ltb elem_name (lit "forloop") then [(elem_name, elem); forloop] else [forloop; (elem_name, elem)]).

(** The meaning: the text that an item stands for. *)
Fixpoint meaning (i : item) (data : json real) : result str :=
  match i with
  | text s => Ok s
  | var _ path fs => shown path fs data
  | for_ _ elem lst body on_empty =>
    let? cont := at_path lst "."%char data in
    let? elems := loop_elements cont in
    match elems, on_empty with
    | [], Some ts => join_strings ((fun i => meaning i data) <$> ts)
    | [], None => Ok []
    | _, _ => join_strings ((fun e => join_strings ((fun i => meaning i (loop_data elem e data)) <$> body)) <$> elems)
    end
  | if_ _ c body elifs els =>
    let? b := holds c data in
    if b then join_strings ((fun i => meaning i data) <$> body)
    else
      (fix branches elifs :=
         match elifs with
         | [] => match els with Some ts => join_strings ((fun i => meaning i data) <$> ts) | None => Ok [] end
         | (c, ts) :: elifs =>
           let? b := holds c data in
           if b then join_strings ((fun i => meaning i data) <$> ts) else branches elifs
         end) elifs
  | include _ _ ts => join_strings ((fun i => meaning i data) <$> ts)
  end.
Definition meanings (ts : list item) (data : json real) : result str := join_strings ((fun i => meaning i data) <$> ts).

(** The text of a template. *)
Definition filter_name (f : template_filter) : str :=
  match f with
  | escape_filter => lit "escape" | capfirst_filter => lit "capfirst" | upper_filter => lit "upper"
  | lower_filter => lit "lower"
  end.

Definition condition_text (g : str) (c : condition) : str :=
  match c with
  | cond_value path => path ++ g
  | cond_compare path op v => path ++ g ++ op ++ g ++ dump_with (fun _ => []) v ++ g
  | cond_paths path op path' => path ++ g ++ op ++ g ++ path' ++ g
  end.

Definition command (g cmd rest : str) : str := lit "{%" ++ g ++ cmd ++ g ++ rest ++ lit "%}".

Fixpoint item_text (i : item) : str :=
  match i with
  | text s => s
  | var g path fs => lit "{{" ++ g ++ path ++ g ++ concat ((fun f => lit "|" ++ g ++ filter_name f ++ g) <$> fs) ++ lit "}}"
  | for_ g elem lst body on_empty =>
    command g (lit "for") (elem ++ g ++ lit "in" ++ g ++ lst ++ g) ++ concat (item_text <$> body)
    ++ match on_empty with Some ts => command g (lit "empty") [] ++ concat (item_text <$> ts) | None => [] end
    ++ command g (lit "endfor") []
  | if_ g c body elifs els =>
    command g (lit "if") (condition_text g c) ++ concat (item_text <$> body)
    ++ concat ((fun e => command g (lit "elif") (condition_text g e.1) ++ concat (item_text <$> e.2)) <$> elifs)
    ++ match els with Some ts => command g (lit "else") [] ++ concat (item_text <$> ts) | None => [] end
    ++ command g (lit "endif") []
  | include g path _ => command g (lit "include") (DQUOTE :: path ++ DQUOTE :: g)
  end.
Definition texts (ts : list item) : str := concat (item_text <$> ts).

(** The templates the theorem is about: text without opening braces, names of
    letters, digits and dots, white space between words, comparisons with
    integers and with strings of letters, digits and dots, and included files
    that have the text of their items and include other files at most [depth]
    levels deep. *)
Definition word (p : ascii -> bool) (s : str) : Prop := s <> [] /\ Forall (fun c => p c = true) s.
Definition gap_ok (g : str) : Prop := g <> [] /\ spaces g.
Definition text_char (c : ascii) : Prop := c <> "{"%char /\ c <> NUL.

Definition operand_ok (v : json real) : Prop :=
  match v with
  | Integer z => (0 <= z <= LLONG_MAX)%Z
  | String s => Forall (fun c => token_char c = true) s
  | _ => False
  end.

Definition condition_ok (c : condition) : Prop :=
  match c with
  | cond_value path => word token_char path
  | cond_compare path op v => word token_char path /\ op ∈ operators /\ operand_ok v
  | cond_paths path op path' =>
    word token_char path /\ op ∈ operators /\ word token_char path' /\ isalpha (current_char path') = true
  end.

Fixpoint item_ok (i : item) (depth : nat) : Prop :=
  match i with
  | text s => Forall text_char s
  | var g path _ => spaces g /\ word token_char path
  | for_ g elem lst body on_empty =>
    gap_ok g /\ word token_char elem /\ word token_char lst /\ foldr (fun i P => item_ok i depth /\ P) True body
    /\ match on_empty with Some ts => foldr (fun i P => item_ok i depth /\ P) True ts | None => True end
  | if_ g c body elifs els =>
    gap_ok g /\ condition_ok c /\ foldr (fun i P => item_ok i depth /\ P) True body
    /\ foldr (fun e P => (condition_ok e.1 /\ foldr (fun i P => item_ok i depth /\ P) True e.2) /\ P) True elifs
    /\ match els with Some ts => foldr (fun i P => item_ok i depth /\ P) True ts | None => True end
  | include g path content =>
    gap_ok g /\ word filepath_char path /\ disk path = Some (texts content)
    /\ match depth with O => False | S depth => foldr (fun i P => item_ok i depth /\ P) True content end
  end.
Definition template_ok (ts : list item) (depth : nat) : Prop := foldr (fun i P => item_ok i depth /\ P) True ts.

(** ** The parts of a template *)

Definition expression_of (c : condition) : template_expression :=
  match c with
  | cond_value path => json_value_expression path
  | cond_compare path op v => json_compare_expression path op v
  | cond_paths path op path' => json_json_compare_expression path path' op
  end.

(** A piece of text, perhaps empty, before every tag and at the end. *)
Fixpoint part_of (i : item) : template_part :=
  let parts := fix parts (cp : str) (ts : list item) : list template_part :=
    match ts with
    | [] => [static_part cp]
    | text s :: ts => parts (cp ++ s) ts
    | i :: ts => static_part cp :: part_of i :: parts [] ts
    end in
  match i with
  | text s => static_part s
  | var _ path fs => variable_part path fs
  | for_ _ elem lst body on_empty =>
    loop_template_part (multi_template_part match on_empty with Some ts => parts [] ts | None => [] end)
      (multi_template_part (parts [] body)) lst elem
  | if_ _ c body elifs els =>
    if_template_part
      ((expression_of c, multi_template_part (parts [] body))
       :: ((fun e => (expression_of e.1, multi_template_part (parts [] e.2))) <$> elifs))
      (multi_template_part match els with Some ts => parts [] ts | None => [] end)
  | include _ _ content => multi_template_part (parts [] content)
  end.

Fixpoint parts_of (cp : str) (ts : list item) : list template_part :=
  match ts with
  | [] => [static_part cp]
  | text s :: ts => parts_of (cp ++ s) ts
  | i :: ts => static_part cp :: part_of i :: parts_of [] ts
  end.

Section ItemInd.
Context (P : item -> Prop).
Context (Htext : forall s, P (text s)) (Hvar : forall g path fs, P (var g path fs)).
Context (Hfor : forall g elem lst body on_empty, Forall P body ->
  match on_empty with Some ts => Forall P ts | None => True end -> P (for_ g elem lst body on_empty)).
Context (Hif : forall g c body elifs els, Forall P body -> Forall (fun e => Forall P e.2) elifs ->
  match els with Some ts => Forall P ts | None => True end -> P (if_ g c body elifs els)).
Context (Hinc : forall g path content, Forall P content -> P (include g path content)).

Lemma item_ind' i : P i.
Proof using Htext Hvar Hfor Hif Hinc.
  revert i. fix IH 1. intros [s | g path fs | g elem lst body on_empty | g c body elifs els | g path content].
  - apply Htext.
  - apply Hvar.
  - apply Hfor; [|destruct on_empty as [ts|]; [|done]]; [induction body | induction ts]; constructor; auto.
  - apply Hif; [| |destruct els as [ts|]; [|done]].
    + induction body; constructor; auto.
    + induction elifs as [|[c' ts] elifs IHe]; constructor; [|exact IHe]. clear - IH. induction ts; constructor; auto.
    + induction ts; constructor; auto.
  - apply Hinc. induction content; constructor; auto.
Qed.
End ItemInd.

(** ** Rendering the parts is the meaning *)

Lemma truth_truthy v : truth v = truthy v.
Proof. destruct v as [| z | | | | [] | []]; try done. cbn. by destruct (Z.ltb_spec 0 z), (bool_decide_reflect (0 < z)%Z); try lia. Qed.

Lemma compare_related op a b : compare op a b = related op a b.
Proof.
  unfold compare, related. cbn [assoc]. unfold greater, greater_equal, less_equal.
  repeat (case_bool_decide; [rewrite decide_True by done; cbn; by rewrite ?negb_involutive | rewrite decide_False by done]). done.
Qed.

Lemma evaluate_expression_of c data : evaluate (expression_of c) data = holds c data.
Proof.
  destruct c as [path | path op v | path op path']; cbn [expression_of evaluate holds].
  - destruct (at_path path "."%char data); [by rewrite truth_truthy | done].
  - destruct (at_path path "."%char data); cbn [rbind]; [by rewrite compare_related | done].
  - destruct (at_path path "."%char data); cbn [rbind]; [| done].
    destruct (at_path path' "."%char data); cbn [rbind]; [by rewrite compare_related | done].
Qed.

Lemma filter_chars c : toupper c = upper_char c /\ tolower c = lower_char c /\ entity c = escaped_char c.
Proof. by_chars c. Qed.

Lemma evaluate_filtered f v : evaluate_filter f v = filtered f v.
Proof.
  destruct v as [| | | | s | |]; try by destruct f. unfold filtered, filtered_string, evaluate_filter, as_string, html_escape. cbn [rbind].
  destruct f.
  - do 3 f_equal. apply list_fmap_ext. intros _ c _. apply filter_chars.
  - destruct s as [|c s]; [done |]. cbn. by destruct (filter_chars c) as (-> & _).
  - do 2 f_equal.
  - do 2 f_equal.
Qed.

Lemma render_shown path fs data : render_variable path fs data = shown path fs data.
Proof.
  unfold render_variable, shown. destruct (at_path path "."%char data) as [v|e]; cbn [rbind].
  - assert (forall v, apply fs v = foldl (fun r f => let? v := r in filtered f v) (Ok v) fs) as ->.
    { induction fs as [|f fs IH]; intros w; [done |]. cbn [apply foldl rbind]. rewrite evaluate_filtered.
      destruct (filtered f w) as [w'|e]; cbn [rbind]; [apply IH |]. clear. by induction fs. }
    destruct (foldl _ _ fs) as [w|]; [| done]. cbn [rbind]. by destruct w as [| | | [] | | |].
  - by induction fs.
Qed.

Lemma loop_item_data n e data : loop_item n e data = loop_data n e data.
Proof.
  assert (set_key n e (Object []) = Object [(n, e)]) as Hn by (by rewrite set_key_Object by constructor).
  assert (forall k v, ordered [(k, v : json real)]) as Ho by (intros; repeat constructor).
  unfold loop_item, loop_data. rewrite Hn. unfold key_entry at 1. cbn [assoc]. case_decide as E.
  - subst n. cbn [snd]. rewrite decide_True, set_key_Object by done. cbn [map_set]. by rewrite str_ltb_irrefl.
  - rewrite decide_False by done. cbn [snd]. rewrite set_key_Object by done.
    assert (set_key (lit "parent") data Null = Object [(lit "parent", data)]) as -> by done. cbn [map_set].
    destruct (str_ltb_total n (lit "forloop")) as [H | [H | H]]; [| done |]; by rewrite H, (str_ltb_asym _ _ H).
Qed.

Lemma render_parts_of ts cp data :
  Forall (fun i => forall data, render (part_of i) data = meaning i data) ts ->
  render (multi_template_part (parts_of cp ts)) data = let? s := meanings ts data in Ok (cp ++ s).
Proof.
  intros H. revert cp. cbn [render]. unfold meanings. induction H as [|i ts Hi H IH]; intros cp; cbn.
  - done.
  - destruct i as [s | | | |].
    1: { rewrite IH. cbn. destruct (join_strings _); cbn; [|done]. by rewrite <- app_assoc. }
    all: cbn [fmap list_fmap join_strings]; change (render (static_part cp) data) with (@Ok str cp); cbn [rbind];
      rewrite Hi; destruct (meaning _ data); cbn [rbind]; [|done]; rewrite IH; destruct (join_strings _); done.
Qed.

Lemma rbind_nil (r : result str) : (let? s := r in Ok ([] ++ s)) = r.
Proof. by destruct r. Qed.

Lemma render_option_parts (o : option (list item)) data :
  match o with Some ts => Forall (fun i => forall data, render (part_of i) data = meaning i data) ts | None => True end ->
  render (multi_template_part match o with Some ts => parts_of [] ts | None => [] end) data
  = match o with Some ts => meanings ts data | None => Ok [] end.
Proof. destruct o as [ts|]; intros H; [|done]. rewrite render_parts_of by done. apply rbind_nil. Qed.

Lemma join_strings_ext {A} (f g : A -> result str) l : (forall x, f x = g x) -> join_strings (f <$> l) = join_strings (g <$> l).
Proof. intros H. f_equal. apply list_fmap_ext. auto. Qed.

Lemma render_part_of i data : render (part_of i) data = meaning i data.
Proof.
  revert data. induction i as [s | g path fs | g elem lst body oe Hb He | g c body elifs els Hb Hl He | g path content Hc]
    using item_ind'; intros data; [done | apply render_shown | | |].
  - change (part_of (for_ g elem lst body oe)) with
      (loop_template_part (multi_template_part match oe with Some ts => parts_of [] ts | None => [] end)
         (multi_template_part (parts_of [] body)) lst elem).
    cbn [meaning]. change (render (loop_template_part ?p ?l ?x ?y) data) with
      (let? cont := at_path x "."%char data in
       if negb (is_object cont) && negb (is_array cont) then Throw (logic_error "json object isn't of type array or object")
       else if Json.empty cont then render p data
       else join_strings ((fun elem => render l (loop_item y elem data)) <$> elements_of cont)).
    destruct (at_path lst "."%char data) as [cont|]; cbn [rbind]; [|done].
    assert (forall l : list (json real), l <> [] ->
      join_strings ((fun e => render (multi_template_part (parts_of [] body)) (loop_item elem e data)) <$> l)
      = join_strings ((fun e => meanings body (loop_data elem e data)) <$> l)) as Hl.
    { intros l _. apply join_strings_ext. intros x. rewrite render_parts_of, loop_item_data by done. apply rbind_nil. }
    pose proof (render_option_parts oe data He) as Hoe.
    destruct cont as [| | | | | [|x m] | [|x l]]; cbn -[render join_strings fmap]; try done; by apply Hl.
  - change (part_of (if_ g c body elifs els)) with
      (if_template_part
        ((expression_of c, multi_template_part (parts_of [] body))
         :: ((fun e => (expression_of e.1, multi_template_part (parts_of [] e.2))) <$> elifs))
        (multi_template_part match els with Some ts => parts_of [] ts | None => [] end)).
    pose proof (render_option_parts els data He) as Hels. cbn [meaning].
    change (render (if_template_part ((?e, ?q) :: ?es) ?p) data) with
      (let? b := evaluate e data in if b then render q data else render (if_template_part es p) data).
    rewrite evaluate_expression_of. destruct (holds c data) as [[]|]; cbn [rbind]; [|clear c |done].
    + rewrite render_parts_of by done. apply rbind_nil.
    + induction Hl as [|[c ts] elifs Hts Hl IH]; [exact Hels |]. rewrite fmap_cons.
      change (render (if_template_part ((?e, ?q) :: ?es) ?p) data) with
        (let? b := evaluate e data in if b then render q data else render (if_template_part es p) data).
      cbn [fst snd]. rewrite evaluate_expression_of. destruct (holds c data) as [[]|]; cbn [rbind]; [|exact IH|done].
      rewrite render_parts_of by done. apply rbind_nil.
  - change (part_of (include g path content)) with (multi_template_part (parts_of [] content)).
    rewrite render_parts_of by done. apply rbind_nil.
Qed.

Lemma render_template ts data : render (multi_template_part (parts_of [] ts)) data = meanings ts data.
Proof. rewrite render_parts_of; [apply rbind_nil | apply Forall_true; intros; apply render_part_of]. Qed.

(** ** Reading words *)

Lemma span_word p w s : Forall (fun c => p c = true) w -> p (current_char s) = false -> span p (w ++ s) = (w, s).
Proof.
  intros Hw Hs. induction Hw as [|c w Hc Hw IH]; simpl.
  - destruct s as [|c s]; [done |]. change (p c = false) in Hs. simpl. by rewrite Hs.
  - by rewrite Hc, IH.
Qed.

Definition no_space (p : ascii -> bool) : Prop := forall c, p c = true -> isspace c = false.

Lemma parse_chars_word p g w g' rest :
  no_space p -> spaces g -> word p w -> spaces g' -> isspace (current_char rest) = false ->
  (g' = [] -> p (current_char rest) = false) ->
  parse_chars p (g ++ w ++ g' ++ rest) = (w, rest).
Proof.
  intros Hp Hg [Hw Hall] Hg' Hr Hend. unfold parse_chars. rewrite skip_spaces_app; [|done |].
  - rewrite span_word; [|done |].
    + by rewrite skip_spaces_app.
    + destruct Hg' as [|c g' Hc Hg']; [auto |]. simpl. destruct (p c) eqn:E; [|done]. apply Hp in E. congruence.
  - destruct w as [|c w]; [done |]. apply Forall_cons_1 in Hall as [Hc _]. simpl. auto.
Qed.

Lemma token_no_space : no_space token_char.
Proof. intros c. by_chars c. Qed.
Lemma filepath_no_space : no_space filepath_char.
Proof. intros c. by_chars c. Qed.
Lemma operand_no_space : no_space operand_char.
Proof. intros c. by_chars c. Qed.

Lemma parse_token_word g w g' rest :
  spaces g -> word token_char w -> spaces g' -> isspace (current_char rest) = false ->
  (g' = [] -> token_char (current_char rest) = false) ->
  parse_token (g ++ w ++ g' ++ rest) = (w, rest).
Proof. apply parse_chars_word, token_no_space. Qed.

(** Inside a tag: words followed by white space. *)
Lemma parse_token_gap w g rest :
  word token_char w -> gap_ok g -> isspace (current_char rest) = false -> parse_token (w ++ g ++ rest) = (w, rest).
Proof. intros Hw [Hg Hs] Hr. by apply (parse_token_word [] w g rest); [constructor | | | |]. Qed.

Lemma word_head p w s : word p w -> p (current_char (w ++ s)) = true.
Proof. intros [Hw Hall]. destruct w; [done |]. by apply Forall_cons_1 in Hall as [Hc _]. Qed.

Lemma token_head w s : word token_char w -> isspace (current_char (w ++ s)) = false.
Proof. intros H. apply token_no_space. by apply word_head. Qed.

Lemma end_tag_close rest : end_tag (lit "%}" ++ rest) = Ok rest.
Proof. done. Qed.

(** ** Conditions *)

Lemma parse_operator_word op g rest :
  op ∈ operators -> gap_ok g -> parse_operator (op ++ g ++ rest) = Ok (op, g ++ rest).
Proof.
  intros Hop [Hg Hs]. destruct Hs as [|c g Hc _]; [done |].
  unfold operators in Hop. rewrite !elem_of_cons, elem_of_nil in Hop.
  destruct Hop as [-> | [-> | [-> | [-> | [-> | [-> | []]]]]]];
    cbn [lit String.list_ascii_of_string app parse_operator]; rewrite Hc; reflexivity.
Qed.

Lemma operator_head op s :
  op ∈ operators -> isspace (current_char (op ++ s)) = false /\ is_char "%" (current_char (op ++ s)) = false.
Proof.
  unfold operators. rewrite !elem_of_cons, elem_of_nil.
  intros [-> | [-> | [-> | [-> | [-> | [-> | []]]]]]]; done.
Qed.

Lemma operand_word v : operand_ok v -> word operand_char (dump_with (fun _ => []) v).
Proof.
  destruct v as [| z | | | s | |]; intros Hv; try done; cbn [dump_with].
  - simpl in Hv. unfold to_string_z. rewrite (proj2 (Z.ltb_ge z 0)) by lia.
    destruct (to_string_u_nonempty z) as (c & s & E & _); [lia |]. split; [by rewrite E |].
    eapply Forall_impl; [|apply to_string_u_digits; lia]. intros x. by_chars x.
  - split; [done |]. constructor; [done |]. apply Forall_app_2; [|by repeat constructor].
    eapply Forall_impl; [|exact Hv]. intros x. by_chars x.
Qed.

Lemma operand_head v s : operand_ok v -> isalpha (current_char (dump_with (fun _ => []) v ++ s)) = false.
Proof.
  destruct v as [| z | | | t | |]; intros Hv; try done; cbn [dump_with]. simpl in Hv.
  unfold to_string_z. rewrite (proj2 (Z.ltb_ge z 0)) by lia.
  destruct (to_string_u_nonempty z) as (c & s' & E & Hc); [lia |]. rewrite E. simpl. revert Hc. clear. by_chars c.
Qed.

Lemma operand_parsed v :
  operand_ok v ->
  JsonParser.parse strtod real_limit (dump_with (fun _ => []) v) false (JsonParser Null [] []) = Ok v.
Proof.
  intros Hv. pose proof (parse_text strtod real_limit v (dump_with (fun _ => []) v) [] [] (JsonParser Null [] [])) as H.
  rewrite app_nil_r in H. cbn [app] in H. rewrite H; [by destruct v | | constructor | apply gap_nil].
  apply printable_text. destruct v as [| z | | | s | |]; try done; simpl in *.
  - unfold LLONG_MIN, LLONG_MAX in *. lia.
  - eapply Forall_impl; [|exact Hv]. intros c. by_chars c.
Qed.

Lemma parse_expression_text g c rest :
  errno = false -> gap_ok g -> condition_ok c ->
  parse_expression (condition_text g c ++ lit "%}" ++ rest) = Ok (expression_of c, lit "%}" ++ rest).
Proof.
  intros He Hg Hc. unfold parse_expression.
  destruct c as [path | path op v | path op path']; cbn [condition_text condition_ok expression_of] in *.
  - rewrite <- app_assoc, parse_token_gap by done. done.
  - destruct Hc as (Hp & Hop & Hv). rewrite <- !app_assoc. destruct (operator_head op (g ++ dump_with (fun _ => []) v ++ g ++ lit "%}" ++ rest) Hop) as [H1 H2].
    rewrite parse_token_gap, H2, parse_operator_word by done. cbn [rbind].
    rewrite bool_decide_true by done. cbn [negb]. unfold parse_operand.
    rewrite parse_chars_word; [|apply operand_no_space | apply Hg | by apply operand_word | apply Hg | done | by destruct Hg].
    pose proof (operand_head v [] Hv) as Hh. rewrite app_nil_r in Hh. rewrite Hh, He, operand_parsed by done. done.
  - destruct Hc as (Hp & Hop & Hp' & Ha). rewrite <- !app_assoc. destruct (operator_head op (g ++ path' ++ g ++ lit "%}" ++ rest) Hop) as [H1 H2].
    rewrite parse_token_gap, H2, parse_operator_word by done. cbn [rbind].
    rewrite bool_decide_true by done. cbn [negb]. unfold parse_operand.
    rewrite parse_chars_word; [by rewrite Ha | apply operand_no_space | apply Hg | | apply Hg | done | by destruct Hg].
    destruct Hp' as [Hne Hall]. split; [done |]. eapply Forall_impl; [|exact Hall]. intros x. by_chars x.
Qed.

(** ** Runs of the parser *)

Section Runs.
Context (parse_file : str -> result template_part).

(** The turns that the rest of the text takes at most. *)
Definition need (state : state_t) (cur : str) : nat :=
  2 * length cur + match state with PROCESS_VARIABLE | PROCESS_FILTER => 2 | _ => 1 end.

Definition yields (ctx : context) (state : state_t) (cp : str) (ps : list template_part) (cur : str)
    (r : result (list template_part * context * str)) : Prop :=
  forall fuel, need state cur <= fuel -> parse parse_file fuel ctx state cp ps cur = r.

Lemma yields_step ctx state cp ps cur ctx' state' cp' ps' cur' r :
  (forall fuel, parse parse_file (S fuel) ctx state cp ps cur = parse parse_file fuel ctx' state' cp' ps' cur') ->
  need state' cur' < need state cur -> yields ctx' state' cp' ps' cur' r -> yields ctx state cp ps cur r.
Proof.
  intros E Hn H fuel Hf. destruct fuel as [|fuel]; [unfold need in Hf; destruct state; lia |]. rewrite E. apply H. lia.
Qed.

Lemma yields_text ctx s cp ps rest r :
  Forall text_char s -> yields ctx STATIC_TEXT (cp ++ s) ps rest r -> yields ctx STATIC_TEXT cp ps (s ++ rest) r.
Proof.
  intros Hs. revert cp. induction Hs as [|c s [Hc _] Hs IH]; intros cp H; [by rewrite app_nil_r in H |].
  eapply yields_step.
  - intros fuel. cbn [parse app]. unfold is_char at 1. rewrite bool_decide_false by done. reflexivity.
  - unfold need. simpl. lia.
  - apply IH. by rewrite <- app_assoc.
Qed.

Lemma yields_end ctx cp ps : yields ctx STATIC_TEXT cp ps [] (Ok (ps ++ [static_part cp], ctx, [])).
Proof. intros [|fuel] Hf; [unfold need in Hf; simpl in Hf; lia | done]. Qed.

Lemma yields_open ctx cp ps cur r :
  yields ctx PROCESS_COMMAND [] (ps ++ [static_part cp]) cur r -> yields ctx STATIC_TEXT cp ps (lit "{%" ++ cur) r.
Proof.
  intros H. do 2 (eapply yields_step; [intros; reflexivity | unfold need; simpl; lia |]). exact H.
Qed.

Lemma yields_close ctx cp ps rest r :
  yields ctx STATIC_TEXT cp ps rest r -> yields ctx PROCESS_COMMAND cp ps (lit "%}" ++ rest) r.
Proof.
  intros H. do 2 (eapply yields_step; [intros; reflexivity | unfold need; simpl; lia |]). exact H.
Qed.

(** *** Variables *)

Lemma append_filter_snoc f ps s fs :
  append_filter_back (Some f) (ps ++ [variable_part s fs]) = ps ++ [variable_part s (fs ++ [f])].
Proof.
  induction ps as [|p ps IH]; [done |]. simpl. rewrite IH. by destruct ps.
Qed.

Lemma filter_name_word f : word token_char (filter_name f) /\ produce_filter (filter_name f) = Some f.
Proof. destruct f; (split; [split; [done | by repeat constructor] | done]). Qed.

Lemma yields_filters ctx g fs path fs0 ps state rest r :
  spaces g -> state = PROCESS_VARIABLE_READ \/ state = PROCESS_FILTER_FINISHED ->
  yields ctx STATIC_TEXT [] (ps ++ [variable_part path (fs0 ++ fs)]) rest r ->
  yields ctx state [] (ps ++ [variable_part path fs0])
    (concat ((fun f => lit "|" ++ g ++ filter_name f ++ g) <$> fs) ++ lit "}}" ++ rest) r.
Proof.
  intros Hg. revert fs0 state. induction fs as [|f fs IH]; intros fs0 state Hst H.
  - rewrite app_nil_r in H. destruct Hst as [-> | ->];
      (do 2 (eapply yields_step; [intros; reflexivity | unfold need; simpl; lia |]); exact H).
  - rewrite fmap_cons, concat_cons, <- !app_assoc. cbn [app lit String.list_ascii_of_string].
    eapply yields_step with (state' := PROCESS_FILTER) (ctx' := ctx) (cp' := []).
    { intros. destruct Hst as [-> | ->]; reflexivity. }
    { unfold need. destruct Hst as [-> | ->]; simpl; lia. }
    set (cur := concat _ ++ _). destruct (filter_name_word f) as [Hw Hp].
    assert (parse_filter (g ++ filter_name f ++ g ++ cur) = (Some f, cur)) as E.
    { unfold parse_filter. rewrite parse_token_word; [by rewrite Hp | done.. | |]; subst cur; by destruct fs. }
    eapply yields_step with (state' := PROCESS_FILTER_FINISHED) (cur' := cur) (ps' := ps ++ [variable_part path (fs0 ++ [f])])
      (ctx' := ctx) (cp' := []).
    + intros fuel. destruct (g ++ filter_name f ++ g ++ cur) as [|c s] eqn:Ec.
      { apply app_eq_nil in Ec as [_ [Ec _]%app_eq_nil]. by destruct f. }
      cbn [parse]. rewrite E, append_filter_snoc. reflexivity.
    + unfold need. rewrite !length_app. lia.
    + apply IH; [by right |]. by rewrite <- app_assoc.
Qed.

Lemma yields_var ctx g path fs cp ps rest r :
  spaces g -> word token_char path ->
  yields ctx STATIC_TEXT [] (ps ++ [static_part cp; variable_part path fs]) rest r ->
  yields ctx STATIC_TEXT cp ps (item_text (var g path fs) ++ rest) r.
Proof.
  intros Hg Hw H. cbn [item_text]. rewrite <- !app_assoc. cbn [app lit String.list_ascii_of_string].
  do 2 (eapply yields_step; [intros; reflexivity | unfold need; simpl; lia |]).
  set (cur := concat _ ++ _).
  assert (parse_token (g ++ path ++ g ++ cur) = (path, cur)) as E.
  { apply parse_token_word; try done; subst cur; by destruct fs. }
  eapply yields_step with (state' := PROCESS_VARIABLE_READ) (cur' := cur) (ctx' := ctx) (cp' := [])
    (ps' := (ps ++ [static_part cp]) ++ [variable_part path []]).
  - intros fuel. destruct (g ++ path ++ g ++ cur) as [|c s] eqn:Ec.
    { apply app_eq_nil in Ec as [_ [Ec _]%app_eq_nil]. by destruct Hw. }
    cbn [parse]. by rewrite E.
  - unfold need. rewrite !length_app. lia.
  - apply yields_filters; [done | by left |]. by rewrite <- app_assoc.
Qed.

(** *** Commands *)

Lemma command_head cmd g rest c s :
  gap_ok g -> word token_char cmd -> g ++ cmd ++ g ++ rest = c :: s -> is_char "%" c = false.
Proof.
  intros [Hg Hs] _. destruct Hs as [|d g Hd _]; [done |]. intros [= -> _]. revert Hd. clear. by_chars c.
Qed.

Lemma parse_command_turn ctx cmd g cp ps rest fuel :
  gap_ok g -> word token_char cmd -> isspace (current_char rest) = false ->
  parse parse_file (S fuel) ctx PROCESS_COMMAND cp ps (g ++ cmd ++ g ++ rest)
  = let? (res, ctx, parts, cur) := on_command ctx cmd ps rest in
    match res with
    | FINISHED => Ok (parts, ctx, cur)
    | INTERMEDIATE => parse parse_file fuel ctx PROCESS_COMMAND cp parts cur
    | NEXT_COMMAND =>
      let? (part, cur) :=
        parse_command (fun ctx cur => parse parse_file fuel ctx STATIC_TEXT [] [] cur) parse_file cmd cur in
      parse parse_file fuel ctx PROCESS_COMMAND cp (parts ++ [part]) cur
    end.
Proof.
  intros Hg Hw Hr. pose proof (parse_token_word g cmd g rest (proj2 Hg) Hw (proj2 Hg) Hr) as E.
  specialize (E (fun H => match proj1 Hg H with end)).
  destruct (g ++ cmd ++ g ++ rest) as [|c s] eqn:Ec.
  - apply app_eq_nil in Ec as [Ec _]. by destruct (proj1 Hg).
  - pose proof (command_head cmd g rest c s Hg Hw Ec) as Hc. cbn [parse]. by rewrite Hc, E.
Qed.

Lemma yields_finished ctx cmd g cp ps rest ctx' ps' :
  gap_ok g -> word token_char cmd -> isspace (current_char rest) = false ->
  on_command ctx cmd ps rest = Ok (FINISHED, ctx', ps', rest) ->
  yields ctx PROCESS_COMMAND cp ps (g ++ cmd ++ g ++ rest) (Ok (ps', ctx', rest)).
Proof.
  intros Hg Hw Hr E [|fuel] Hf; [unfold need in Hf; lia |]. rewrite parse_command_turn, E by done. done.
Qed.

Lemma yields_intermediate ctx cmd g cp ps rest ctx' ps' cur r :
  gap_ok g -> word token_char cmd -> isspace (current_char rest) = false ->
  on_command ctx cmd ps rest = Ok (INTERMEDIATE, ctx', ps', cur) -> length cur <= length rest ->
  yields ctx' PROCESS_COMMAND cp ps' cur r ->
  yields ctx PROCESS_COMMAND cp ps (g ++ cmd ++ g ++ rest) r.
Proof.
  intros Hg Hw Hr E Hl H. eapply yields_step; [| |exact H].
  - intros fuel. rewrite parse_command_turn, E by done. reflexivity.
  - unfold need. rewrite !length_app. destruct Hg, g; [done |]. simpl. lia.
Qed.

Lemma yields_next ctx cmd g cp ps rest p cur r :
  gap_ok g -> word token_char cmd -> isspace (current_char rest) = false ->
  on_command ctx cmd ps rest = Ok (NEXT_COMMAND, ctx, ps, rest) -> length cur <= length rest ->
  (forall fuel, need STATIC_TEXT rest <= fuel ->
     parse_command (fun ctx cur => parse parse_file fuel ctx STATIC_TEXT [] [] cur) parse_file cmd rest = Ok (p, cur)) ->
  yields ctx PROCESS_COMMAND cp (ps ++ [p]) cur r ->
  yields ctx PROCESS_COMMAND cp ps (g ++ cmd ++ g ++ rest) r.
Proof.
  intros Hg Hw Hr E Hl Hc H [|fuel] Hf; [unfold need in Hf; lia |]. rewrite parse_command_turn, E by done. cbn [rbind].
  assert (2 * length rest + 4 <= fuel) as Hf'.
  { unfold need in Hf. rewrite !length_app in Hf. destruct Hg as [Hg _], Hw as [Hw _], g, cmd; try done. simpl in Hf. lia. }
  rewrite Hc by (unfold need; lia). cbn [rbind]. apply H. unfold need. lia.
Qed.

(** *** Items *)

Lemma texts_cons i ts : texts (i :: ts) = item_text i ++ texts ts.
Proof. done. Qed.

Lemma template_ok_Forall ts depth : template_ok ts depth <-> Forall (fun i => item_ok i depth) ts.
Proof.
  unfold template_ok. induction ts as [|i ts IH]; simpl; [by split; [constructor |] |]. rewrite Forall_cons_iff. naive_solver.
Qed.

(** Reading a tag pushes the text before it and its part. *)
Definition reads (i : item) : Prop :=
  match i with
  | text s => Forall text_char s
  | _ => forall ctx cp ps rest r,
      yields ctx STATIC_TEXT [] (ps ++ [static_part cp; part_of i]) rest r ->
      yields ctx STATIC_TEXT cp ps (item_text i ++ rest) r
  end.

Lemma yields_items ts ctx cp ps rest r :
  Forall reads ts ->
  (forall cp' ps', ps' ++ [static_part cp'] = ps ++ parts_of cp ts -> yields ctx STATIC_TEXT cp' ps' rest r) ->
  yields ctx STATIC_TEXT cp ps (texts ts ++ rest) r.
Proof.
  intros Hts. revert cp ps. induction Hts as [|i ts Hi Hts IH]; intros cp ps H; [by apply H |].
  rewrite texts_cons, <- app_assoc. destruct i as [s | | | |].
  1: by apply yields_text, IH.
  all: apply Hi, IH; intros cp' ps' E; apply H; rewrite E, <- app_assoc; reflexivity.
Qed.

Lemma yields_body ts ctx g cmd x rest r :
  Forall reads ts ->
  yields ctx PROCESS_COMMAND [] (parts_of [] ts) (g ++ cmd ++ g ++ x ++ lit "%}" ++ rest) r ->
  yields ctx STATIC_TEXT [] [] (texts ts ++ command g cmd x ++ rest) r.
Proof.
  intros Hts H. apply yields_items; [done |]. intros cp' ps' E. unfold command. rewrite <- !app_assoc.
  apply yields_open. by rewrite E.
Qed.

Lemma yields_else ts ctx g cmd rest r :
  Forall reads ts -> yields ctx PROCESS_COMMAND [] (parts_of [] ts) (g ++ cmd ++ g ++ lit "%}" ++ rest) r ->
  yields ctx STATIC_TEXT [] [] (texts ts ++ command g cmd [] ++ rest) r.
Proof. intros Hts H. by apply (yields_body ts ctx g cmd []). Qed.

Lemma command_word cmd : forallb token_char (lit cmd) && negb (bool_decide (lit cmd = [])) = true -> word token_char (lit cmd).
Proof.
  rewrite andb_true_iff, negb_true_iff, forallb_forall, bool_decide_eq_false. intros [H1 H2]. split; [done |].
  apply list.Forall_forall. intros c Hc. by apply H1, list_elem_of_In.
Qed.

Lemma yields_for_body g body oe rest :
  gap_ok g -> Forall reads body -> match oe with Some ts => Forall reads ts | None => True end ->
  yields (foreach_context null_part) STATIC_TEXT [] []
    (texts body ++ match oe with Some ts => command g (lit "empty") [] ++ texts ts | None => [] end
     ++ command g (lit "endfor") [] ++ rest)
    (Ok (match oe with Some ts => parts_of [] ts | None => [] end,
         foreach_context (multi_template_part (parts_of [] body)), lit "%}" ++ rest)).
Proof.
  intros Hg Hb He. destruct oe as [ts|]; [rewrite <- app_assoc |]; (apply yields_else; [done |]).
  - eapply yields_intermediate; [done | by apply command_word | done | reflexivity | done |].
    apply yields_close, yields_else; [done |]. by apply yields_finished; [| apply command_word | |].
  - by apply yields_finished; [| apply command_word | |].
Qed.

Lemma yields_if_body g c body elifs els rest l :
  errno = false -> gap_ok g -> Forall reads body ->
  Forall (fun e => condition_ok e.1 /\ Forall reads e.2) elifs ->
  match els with Some ts => Forall reads ts | None => True end ->
  exists e h, yields (if_else_context (expression_of c) false l) STATIC_TEXT [] []
    (texts body
     ++ concat ((fun e => command g (lit "elif") (condition_text g e.1) ++ texts e.2) <$> elifs)
     ++ match els with Some ts => command g (lit "else") [] ++ texts ts | None => [] end
     ++ command g (lit "endif") [] ++ rest)
    (Ok (match els with Some ts => parts_of [] ts | None => [] end,
         if_else_context e h (l ++ (expression_of c, multi_template_part (parts_of [] body))
                                :: ((fun e => (expression_of e.1, multi_template_part (parts_of [] e.2))) <$> elifs)),
         lit "%}" ++ rest)).
Proof.
  intros He Hg Hb Hl Hels. revert c body l Hb. induction Hl as [|[c' ts] elifs [Hc Hts] Hl IH]; intros c body l Hb.
  - cbn [concat fmap list_fmap app]. destruct els as [ts|]; [rewrite <- app_assoc |]; eexists _, _; (apply yields_else; [done |]).
    + eapply yields_intermediate; [done | by apply command_word | done | reflexivity | done |].
      apply yields_close, yields_else; [done |]. by apply yields_finished; [| apply command_word | |].
    + by apply yields_finished; [| apply command_word | |].
  - destruct (IH c' ts (l ++ [(expression_of c, multi_template_part (parts_of [] body))]) Hts) as (e & h & H).
    exists e, h. rewrite fmap_cons, concat_cons, <- !app_assoc. cbn [fst snd]. apply yields_body; [done |].
    set (tail := texts ts ++ _) in *. eapply yields_intermediate; [done | by apply command_word | | | |].
    + destruct c'; cbn [condition_text]; rewrite <- !app_assoc; apply token_head; apply Hc.
    + cbn [on_command]. cbn [lit String.list_ascii_of_string]. rewrite !bool_decide_false, bool_decide_true by done.
      change ["%"%char; "}"%char] with (lit "%}"). rewrite parse_expression_text by done. reflexivity.
    + rewrite (length_app (condition_text _ _)). lia.
    + apply yields_close. by rewrite <- app_assoc in H.
Qed.

Lemma next_command ctx cmd ps cur :
  cmd = lit "for" \/ cmd = lit "if" \/ cmd = lit "include" ->
  word token_char cmd /\ on_command ctx cmd ps cur = Ok (NEXT_COMMAND, ctx, ps, cur).
Proof. intros [-> | [-> | ->]]; (split; [by apply command_word |]); by destruct ctx. Qed.

(** A command that is followed by its end tag. *)
Lemma yields_command ctx g cmd x p cp ps rest r :
  gap_ok g -> cmd = lit "for" \/ cmd = lit "if" \/ cmd = lit "include" ->
  isspace (current_char x) = false -> length rest + 2 <= length x ->
  (forall fuel, need STATIC_TEXT x <= fuel ->
     parse_command (fun ctx cur => parse parse_file fuel ctx STATIC_TEXT [] [] cur) parse_file cmd x
     = Ok (p, lit "%}" ++ rest)) ->
  yields ctx STATIC_TEXT [] (ps ++ [static_part cp; p]) rest r ->
  yields ctx STATIC_TEXT cp ps (lit "{%" ++ g ++ cmd ++ g ++ x) r.
Proof.
  intros Hg Hcmd Hx Hl Hp H. apply yields_open.
  destruct (next_command ctx cmd (ps ++ [static_part cp]) x Hcmd) as [Hw Hn].
  eapply yields_next; [done | done | done | done | | exact Hp |]; [simpl; lia |]. apply yields_close. by rewrite <- app_assoc.
Qed.

Lemma reads_for g elem lst body oe depth :
  item_ok (for_ g elem lst body oe) depth -> Forall reads body ->
  match oe with Some ts => Forall reads ts | None => True end -> reads (for_ g elem lst body oe).
Proof.
  intros (Hg & Hel & Hls & _) Hb He ctx cp ps rest r H. cbn [item_text].
  change (concat (item_text <$> body)) with (texts body). unfold command at 1. rewrite <- !app_assoc.
  eapply (yields_command ctx g (lit "for") _ _ cp ps rest); [done | by left | by apply token_head | | | exact H].
  { rewrite !length_app. unfold command. rewrite !length_app. simpl. lia. }
  intros fuel Hf. change (parse_command ?rec ?pf (lit "for")) with (foreach_parse rec). unfold foreach_parse.
  rewrite parse_token_gap by done.
  rewrite (parse_token_gap (lit "in")) by (by apply command_word || done || by apply token_head).
  rewrite bool_decide_true by done. cbn [negb]. rewrite parse_token_gap, end_tag_close by done. cbn [rbind].
  pose proof (yields_for_body g body oe rest Hg Hb He) as Hy.
  rewrite Hy; [reflexivity |]. etrans; [|exact Hf]. unfold need, texts. rewrite !length_app. lia.
Qed.

Lemma reads_if g c body elifs els depth :
  errno = false -> item_ok (if_ g c body elifs els) depth -> Forall reads body ->
  Forall (fun e => Forall reads e.2) elifs ->
  match els with Some ts => Forall reads ts | None => True end -> reads (if_ g c body elifs els).
Proof.
  intros He (Hg & Hc & _ & Hl & _) Hb Hr Hels ctx cp ps rest r H. cbn [item_text]. unfold command at 1. rewrite <- !app_assoc.
  assert (Forall (fun e => condition_ok e.1 /\ Forall reads e.2) elifs) as Hl'.
  { clear - Hl Hr. induction Hr as [|e elifs Hr _ IH]; constructor; [by destruct Hl as [[??] _] | by apply IH, Hl]. }
  destruct (yields_if_body g c body elifs els rest [] He Hg Hb Hl' Hels) as (e & h & Hy).
  eapply (yields_command ctx g (lit "if") _ _ cp ps rest); [done | by right; left | | | | exact H].
  { destruct c; cbn [condition_text]; rewrite <- !app_assoc; apply token_head; apply Hc. }
  { rewrite !length_app. unfold command. rewrite !length_app. simpl. lia. }
  intros fuel Hf. change (parse_command ?rec ?pf (lit "if")) with (if_else_parse rec). unfold if_else_parse.
  rewrite parse_expression_text by done. cbn [rbind]. rewrite end_tag_close. cbn [rbind].
  rewrite Hy; [reflexivity |]. etrans; [|exact Hf]. unfold need, texts. rewrite !length_app. lia.
Qed.

Lemma reads_include g path content depth :
  item_ok (include g path content) depth ->
  parse_file (texts content) = Ok (multi_template_part (parts_of [] content)) -> reads (include g path content).
Proof.
  intros (Hg & Hp & Hd & _) Hpf ctx cp ps rest r H. cbn [item_text]. unfold command. rewrite <- !app_assoc.
  eapply (yields_command ctx g (lit "include") _ _ cp ps rest); [done | by right; right | done | | | exact H].
  { rewrite !length_app. simpl. lia. }
  intros fuel _. change (parse_command ?rec ?pf (lit "include")) with (include_parse pf). unfold include_parse.
  cbn [app]. change (skip_spaces (DQUOTE :: ?s)) with (DQUOTE :: s). cbn [current_char next_char rbind].
  change (is_char DQUOTE DQUOTE) with true. cbn iota. rewrite <- app_assoc. cbn [app].
  pose proof (parse_chars_word filepath_char [] path [] (DQUOTE :: g ++ lit "%}" ++ rest) filepath_no_space spaces_nil Hp
    spaces_nil eq_refl (fun _ => eq_refl)) as E. cbn [app] in E. unfold parse_filepath. rewrite E.
  cbn [next_char rbind]. rewrite Hd, Hpf. cbn [rbind]. by rewrite skip_spaces_app by (apply Hg || done).
Qed.

Lemma reads_item i depth :
  errno = false -> item_ok i depth ->
  (forall content d, depth = S d -> template_ok content d ->
     parse_file (texts content) = Ok (multi_template_part (parts_of [] content))) ->
  reads i.
Proof.
  intros He Hok Hpf.
  assert (forall ts, Forall (fun i => item_ok i depth -> reads i) ts -> template_ok ts depth -> Forall reads ts) as Hall.
  { intros ts H1 H2%template_ok_Forall. rewrite list.Forall_forall in *. auto. }
  induction i as [s | g path fs | g elem lst body oe Hb Ho | g c body elifs els Hb Hl Ho | g path content _]
    using item_ind'.
  - exact Hok.
  - intros ctx cp ps rest r. apply yields_var; apply Hok.
  - pose proof Hok as (_ & _ & _ & Hb' & Ho'). eapply reads_for; [done | by apply Hall |]. destruct oe; [by apply Hall | done].
  - pose proof Hok as (_ & _ & Hb' & Hl' & Ho'). eapply reads_if; [done | done | by apply Hall | |].
    + clear - Hall Hl Hl'. induction Hl as [|e elifs H _ IH]; constructor.
      * apply Hall; [exact H | apply Hl'].
      * apply IH, Hl'.
    + destruct els; [by apply Hall | done].
  - pose proof Hok as (_ & _ & _ & Hc). eapply reads_include; [done |]. destruct depth as [|d]; [done |]. by eapply Hpf.
Qed.

End Runs.

(** ** Whole templates *)

Abbreviation no_nul := (Forall (fun c : ascii => c <> NUL)).

Lemma no_nul_concat {A} (f : A -> str) l : Forall (fun x => no_nul (f x)) l -> no_nul (concat (f <$> l)).
Proof. intros H. induction H; simpl; [constructor | by apply Forall_app_2]. Qed.

Lemma lit_no_nul s : forallb (fun c => negb (is_char NUL c)) (lit s) = true -> no_nul (lit s).
Proof.
  rewrite forallb_forall. intros H. apply list.Forall_forall. intros c Hc%list_elem_of_In Hn. specialize (H c Hc). by subst c.
Qed.

Lemma word_no_nul p w : p NUL = false -> word p w -> no_nul w.
Proof. intros Hp [_ H]. eapply Forall_impl; [|exact H]. intros c Hc ->. congruence. Qed.

Lemma command_no_nul g cmd x : gap_ok g -> no_nul (lit cmd) -> no_nul x -> no_nul (command g (lit cmd) x).
Proof. intros [_ Hg%spaces_no_nul] Hc Hx. unfold command. repeat apply Forall_app_2; try done; by apply lit_no_nul. Qed.

Lemma condition_no_nul g c : gap_ok g -> condition_ok c -> no_nul (condition_text g c).
Proof.
  intros [_ Hg%spaces_no_nul] Hc. pose proof (fun w => word_no_nul token_char w eq_refl) as Hw.
  assert (forall op, op ∈ operators -> no_nul op) as Ho.
  { unfold operators. intros op. rewrite !elem_of_cons, elem_of_nil.
    intros [-> | [-> | [-> | [-> | [-> | [-> | []]]]]]]; by apply lit_no_nul. }
  destruct c as [path | path op v | path op path']; cbn [condition_text condition_ok] in *.
  - by apply Forall_app_2; auto.
  - destruct Hc as (H1 & H2 & H3%operand_word). repeat apply Forall_app_2; auto. by eapply word_no_nul; [|exact H3].
  - destruct Hc as (H1 & H2 & H3 & _). repeat apply Forall_app_2; auto.
Qed.

Lemma item_no_nul i depth : item_ok i depth -> no_nul (item_text i).
Proof.
  pose proof (fun w => word_no_nul token_char w eq_refl) as Hw.
  induction i as [s | g path fs | g elem lst body oe Hb Ho | g c body elifs els Hb Hl Ho | g path content _]
    using item_ind'; intros Hok; cbn [item_text].
  1: { eapply Forall_impl; [|exact Hok]. by intros c [_ ?]. }
  1: { destruct Hok as [Hg%spaces_no_nul Hp]. repeat apply Forall_app_2; auto; try by apply lit_no_nul.
       apply no_nul_concat, list.Forall_forall. intros f _. repeat apply Forall_app_2; auto.
       - by apply lit_no_nul.
       - apply Hw, filter_name_word. }
  all: assert (forall ts, Forall (fun i => item_ok i depth -> no_nul (item_text i)) ts -> template_ok ts depth ->
         no_nul (concat (item_text <$> ts))) as Hall
    by (intros ts H1 H2%template_ok_Forall; apply no_nul_concat; rewrite list.Forall_forall in *; auto).
  - destruct Hok as (Hg & H1 & H2 & H3 & H4). apply Forall_app_2; [|apply Forall_app_2; [by apply Hall | apply Forall_app_2]].
    + apply command_no_nul; [done | by apply lit_no_nul |]. pose proof (spaces_no_nul g (proj2 Hg)); repeat apply Forall_app_2; auto; by apply lit_no_nul.
    + destruct oe; [|constructor]. apply Forall_app_2; [|by apply Hall]. by apply command_no_nul; [| apply lit_no_nul | constructor].
    + by apply command_no_nul; [| apply lit_no_nul | constructor].
  - destruct Hok as (Hg & Hc & H1 & H2 & H3).
    apply Forall_app_2; [|apply Forall_app_2; [by apply Hall | apply Forall_app_2; [|apply Forall_app_2]]].
    + apply command_no_nul; [done | by apply lit_no_nul | by apply condition_no_nul].
    + apply no_nul_concat. clear - Hg Hall Hl H2. induction Hl as [|e elifs H _ IH]; constructor; [|by apply IH, H2].
      destruct H2 as [[Hc Hts] _]. apply Forall_app_2; [|by apply Hall]. apply command_no_nul; [done | by apply lit_no_nul | by apply condition_no_nul].
    + destruct els; [|constructor]. apply Forall_app_2; [|by apply Hall]. by apply command_no_nul; [| apply lit_no_nul | constructor].
    + by apply command_no_nul; [| apply lit_no_nul | constructor].
  - destruct Hok as (Hg & Hp & _). apply command_no_nul; [done | by apply lit_no_nul |].
    constructor; [done |]. apply Forall_app_2; [by eapply word_no_nul; [|exact Hp] |]. constructor; [done |]. apply spaces_no_nul, Hg.
Qed.

Lemma build_texts ts depth :
  errno = false -> template_ok ts depth -> build (S depth) (texts ts) = Ok (multi_template_part (parts_of [] ts)).
Proof.
  intros He. revert ts. induction depth as [depth IH] using lt_wf_ind. intros ts Hok. cbn [build].
  assert (no_nul (texts ts)) as Hn.
  { apply no_nul_concat. apply template_ok_Forall in Hok. eapply list.Forall_impl; [exact Hok |]. intros i. apply item_no_nul. }
  rewrite (c_str_no_nul _ Hn).
  assert (Forall (reads (build depth)) ts) as Hr.
  { apply template_ok_Forall in Hok. eapply list.Forall_impl; [exact Hok |]. intros i Hi. apply (reads_item _ i depth He Hi).
    intros content d -> Hc. apply IH; [lia | done]. }
  assert (yields (build depth) whole STATIC_TEXT [] [] (texts ts) (Ok (parts_of [] ts, whole, []))) as Hy.
  { rewrite <- (app_nil_r (texts ts)). apply yields_items; [done |]. intros cp ps E. cbn [app] in E. rewrite <- E. apply yields_end. }
  rewrite Hy; [done |]. unfold need, template_fuel. lia.
Qed.

(** C14: rendering the text of a template gives what the template means, on
    every data: variables with their filters, loops with their part for empty
    lists, the first branch of an [if] whose condition holds, and included
    files, errors included. The templates are those of [template_ok]: their
    text has no opening brace outside of tags ([brace_lost]), names consist of
    letters, digits and dots, values are compared with other values, with
    integers that are not negative and with strings of such characters
    ([true_is_a_name]), every [if] and [for] is closed ([if_not_closed],
    [for_not_closed]), files exist and include each other at most [depth]
    levels deep ([self_include_endless]), and [errno] is not [ERANGE]. *)
Theorem template_renders ts depth data :
  errno = false -> template_ok ts depth -> render_format (S depth) (texts ts) data = meanings ts data.
Proof. intros He Hok. unfold render_format. rewrite build_texts by done. apply render_template. Qed.

(** What a variable with the filter [escape] puts into the page is text
    only: it has no character that starts a tag or ends an attribute, and a
    browser reads it as exactly the string that the other filters made of the
    data. *)
Lemma escaped_is_text depth g path fs data out :
  errno = false -> spaces g -> word token_char path ->
  render_format (S depth) (item_text (var g path (fs ++ [escape_filter]))) data = Ok out ->
  exists v s, at_path path "."%char data = Ok v /\ apply fs v = Ok (String s)
    /\ Forall (fun c => c ∉ markup) out /\ html_text (length out) out = s.
Proof.
  intros He Hg Hw. pose proof (build_texts [var g path (fs ++ [escape_filter])] depth He (conj (conj Hg Hw) I)) as Hb.
  unfold texts in Hb. cbn [fmap list_fmap concat] in Hb. rewrite app_nil_r in Hb.
  unfold render_format. rewrite Hb. cbn [rbind]. rewrite render_template. unfold meanings. cbn [fmap list_fmap meaning].
  cbn [join_strings]. rewrite <- render_shown. unfold render_variable. destruct (at_path path "."%char data) as [v|]; [|done]. cbn [rbind].
  rewrite apply_app. destruct (apply fs v) as [w|] eqn:Ea; [|done]. cbn [rbind apply evaluate_filter].
  destruct w as [| | | | s | |]; try done. cbn. rewrite app_nil_r. intros [= <-].
  exists v, s. rewrite html_text_escape by done. auto using html_escape_inert.
Qed.

(** ** Parsing ends *)

Section Ends.
Context (strtod_ends : forall s, length (strtod s).1.2 <= length s).

Lemma span_length p s : length (span p s).1 + length (span p s).2 = length s.
Proof. induction s as [|c s IH]; simpl; [done |]. destruct (p c); [|done]. destruct (span p s); simpl in *; lia. Qed.

Lemma parse_chars_length p cur : length (parse_chars p cur).1 + length (parse_chars p cur).2 <= length cur.
Proof.
  unfold parse_chars. pose proof (span_length p (skip_spaces cur)). pose proof (skip_spaces_length cur).
  destruct (span p (skip_spaces cur)) as [t r]. simpl in *. pose proof (skip_spaces_length r). lia.
Qed.

Definition ends {A} (n : nat) (r : result (A * str)) : Prop :=
  match r with Ok (_, cur) => length cur <= n | Throw e => e <> out_of_fuel end.

Lemma parse_operator_ends cur : ends (length cur) (parse_operator cur).
Proof.
  induction cur as [|c cur IH]; simpl; [lia |]. destruct (isspace c); [simpl; lia |]. destruct (isop c); [|done].
  destruct (parse_operator cur) as [[op cur']|]; simpl in *; [lia | done].
Qed.

Lemma parse_expression_ends cur : ends (length cur) (parse_expression cur).
Proof using strtod_ends.
  unfold parse_expression. pose proof (parse_chars_length token_char cur) as H.
  unfold parse_token. destruct (parse_chars token_char cur) as [token cur1]. simpl in H.
  destruct (is_char _ _); [simpl; lia |]. pose proof (parse_operator_ends cur1) as H1.
  destruct (parse_operator cur1) as [[op cur2]|]; [|done]. cbn [rbind ends] in *. destruct (negb _); [done |].
  unfold parse_operand. pose proof (parse_chars_length operand_char cur2) as H2.
  destruct (parse_chars operand_char cur2) as [operand cur3]. simpl in H2. destruct (isalpha _); [simpl; lia |].
  pose proof (parse_ends strtod real_limit operand errno (JsonParser Null [] []) strtod_ends) as H3.
  destruct (JsonParser.parse _ _ _ _ _) as [j|e]; cbn [rbind ends]; [lia | congruence].
Qed.

Lemma end_tag_ends cur : match end_tag cur with Ok cur' => length cur' <= length cur | Throw e => e <> out_of_fuel end.
Proof.
  unfold end_tag, parse_end_of_command_tag. pose proof (skip_spaces_length cur) as H.
  destruct (skip_spaces cur) as [|c [|d cur1]]; simpl in *; [done | by destruct (is_char _ c) |].
  destruct (is_char _ c); [|done]. destruct (is_char _ d); [lia | done].
Qed.

(** What a run may end with. *)
Definition run_ends (n : nat) (r : result (list template_part * context * str)) : Prop :=
  match r with Ok (_, _, cur) => length cur <= n | Throw e => e <> out_of_fuel end.

Lemma on_command_ends ctx cmd ps cur :
  match on_command ctx cmd ps cur with
  | Ok (res, _, _, cur') => length cur' <= length cur /\ (cmd = [] -> res = NEXT_COMMAND)
  | Throw e => e <> out_of_fuel
  end.
Proof using strtod_ends.
  destruct ctx as [| loop | expr has_else l]; simpl; [by split; [lia |] | |].
  - repeat case_bool_decide; subst; [by split; [lia |] | | by split; [lia |]]. destruct loop; by split; [lia |].
  - pose proof (parse_expression_ends cur) as H. case_bool_decide; [subst; by split; [lia |] |]. case_bool_decide.
    { destruct (parse_expression cur) as [[e cur']|]; simpl in *; [split; [lia | by intros ->] | done]. }
    case_bool_decide; [subst | by split; [lia |]]. destruct has_else; by split; [lia |].
Qed.

Context (parse_file : str -> result template_part).
Context (parse_file_ends : forall path content, disk path = Some content -> parse_file content <> Throw out_of_fuel).

Lemma parse_command_ends rec cmd cur :
  (forall ctx cur', length cur' <= length cur -> run_ends (length cur') (rec ctx cur')) ->
  ends (length cur) (parse_command rec parse_file cmd cur).
Proof using strtod_ends parse_file_ends.
  intros Hrec. unfold parse_command. case_bool_decide; [|case_bool_decide; [|case_bool_decide; [|done]]].
  - unfold foreach_parse, parse_token. pose proof (parse_chars_length token_char cur) as H1.
    destruct (parse_chars token_char cur) as [elem cur1]. pose proof (parse_chars_length token_char cur1) as H2.
    destruct (parse_chars token_char cur1) as [in_ cur2]. destruct (negb _); [done |].
    pose proof (parse_chars_length token_char cur2) as H3. destruct (parse_chars token_char cur2) as [lst cur3].
    simpl in H1, H2, H3. pose proof (end_tag_ends cur3) as H4. destruct (end_tag cur3) as [cur4|]; [|done]. cbn [rbind].
    specialize (Hrec (foreach_context null_part) cur4 ltac:(lia)). destruct (rec _ cur4) as [[[ps ctx] cur5]|]; simpl in *; [lia | done].
  - unfold if_else_parse. pose proof (parse_expression_ends cur) as H1.
    destruct (parse_expression cur) as [[expr cur1]|]; [|done]. cbn [rbind ends] in *.
    pose proof (end_tag_ends cur1) as H4. destruct (end_tag cur1) as [cur4|]; [|done]. cbn [rbind].
    specialize (Hrec (if_else_context expr false []) cur4 ltac:(lia)). destruct (rec _ cur4) as [[[ps ctx] cur5]|]; simpl in *; [lia | done].
  - unfold include_parse. pose proof (skip_spaces_length cur) as L1. set (cur1 := skip_spaces cur) in *.
    destruct (is_char _ _).
    + pose proof (next_char_halts cur1) as L2. destruct (next_char cur1) as [cur2|]; [|done]. cbn [rbind].
      unfold parse_filepath. pose proof (parse_chars_length filepath_char cur2) as L3.
      destruct (parse_chars filepath_char cur2) as [path cur3]. simpl in L3. pose proof (next_char_halts cur3) as L4.
      destruct (next_char cur3) as [cur4|]; [|done]. cbn [rbind]. destruct (disk path) as [content|] eqn:Ed; [|done].
      pose proof (parse_file_ends path content Ed) as L5. destruct (parse_file content); cbn [rbind ends]; [|congruence].
      pose proof (skip_spaces_length cur4). lia.
    + unfold parse_token. pose proof (parse_chars_length token_char cur1) as L2.
      destruct (parse_chars token_char cur1) as [t cur2]. simpl in L2. pose proof (end_tag_ends cur2) as L4.
      destruct (end_tag cur2) as [cur4|]; [|done]. simpl. lia.
Qed.
Lemma parse_run_ends fuel ctx state cp ps cur :
  need state cur <= fuel -> run_ends (length cur) (parse parse_file fuel ctx state cp ps cur).
Proof using strtod_ends parse_file_ends.
  revert ctx state cp ps cur. induction fuel as [|fuel IH]; intros ctx state cp ps cur Hf.
  { unfold need in Hf. destruct state; lia. }
  destruct cur as [|c cur]; [simpl; lia |].
  assert (forall ctx state' cp ps cur', need state' cur' < need state (c :: cur) -> length cur' <= length (c :: cur) ->
    run_ends (length (c :: cur)) (parse parse_file fuel ctx state' cp ps cur')) as Hgo.
  { intros ctx' state' cp' ps' cur' Hn Hl. pose proof (IH ctx' state' cp' ps' cur' ltac:(lia)) as H.
    destruct (parse _ _ _ _ _ _ _) as [[[? ?] ?]|]; simpl in *; [lia | done]. }
  assert (forall ctx state' cp ps, run_ends (length (c :: cur)) (parse parse_file fuel ctx state' cp ps cur)) as Hnext.
  { intros ctx' state' cp' ps'. apply Hgo; [|simpl; lia]. unfold need. destruct state', state; simpl; lia. }
  pose proof (parse_chars_length token_char (c :: cur)) as Ht.
  assert (need PROCESS_COMMAND (c :: cur) <= S fuel) as Hf' by (unfold need in *; destruct state; lia).
  cbn [parse]. unfold parse_filter, parse_token.
  destruct state; try (repeat destruct (is_char _ c); by apply Hnext).
  - destruct (is_char "%" c); [by apply Hnext |]. destruct (parse_chars token_char (c :: cur)) as [cmd cur1]. cbn [fst snd] in Ht.
    pose proof (on_command_ends ctx cmd ps cur1) as Ho.
    destruct (on_command ctx cmd ps cur1) as [[[[res ctx'] ps'] cur2]|]; [|done]. cbn [rbind]. destruct Ho as [Ho1 Ho2].
    destruct cmd as [|x cmd]; [by rewrite Ho2 |]. cbn [length] in *. unfold need in Hf'. cbn [length] in Hf'.
    destruct res; [simpl; lia | apply Hgo; unfold need; simpl; lia |].
    pose proof (parse_command_ends (fun ctx cur => parse parse_file fuel ctx STATIC_TEXT [] [] cur) (x :: cmd) cur2) as Hc.
    destruct (parse_command _ _ _ _) as [[p cur3]|]; cbn [rbind ends] in *.
    + assert (length cur3 <= length cur2) by (apply Hc; intros; apply IH; unfold need; lia).
      apply Hgo; unfold need; simpl; lia.
    + apply Hc. intros. apply IH. unfold need. lia.
  - destruct (parse_chars token_char (c :: cur)) as [var cur1]. cbn [fst snd] in Ht. apply Hgo; unfold need; simpl in *; lia.
  - destruct (parse_chars token_char (c :: cur)) as [name cur1]. cbn [fst snd] in Ht. apply Hgo; unfold need; simpl in *; lia.
Qed.
End Ends.

(** Parsing a template comes to an end on every text, valid or not, within
    the turns its length allows, unless files include each other without
    end. *)
Lemma template_parse_ends depth format :
  (forall s, length (strtod s).1.2 <= length s) ->
  (forall path content, disk path = Some content -> build depth content <> Throw out_of_fuel) ->
  build (S depth) format <> Throw out_of_fuel.
Proof.
  intros Hs Hd. cbn [build].
  pose proof (parse_run_ends Hs (build depth) Hd (template_fuel (c_str format)) whole STATIC_TEXT [] [] (c_str format)) as H.
  destruct (parse _ _ _ _ _ _ _) as [[[ps ctx] cur]|e]; cbn [rbind run_ends] in *; [done |].
  intros [= ->]. apply H; [unfold need, template_fuel; lia | done].
Qed.

End Engine.
(** ** Examples *)

(** Templates without floating-point numbers, and one file. *)
Definition header_file (path : str) : option str :=
  if bool_decide (path = lit "header.html") then Some (lit "<title>{{ title }}</title>")
  else None.
Definition show_format (format : str) (data : json unit) : result str :=
  render_format (fun _ => []) (fun _ _ => true) (fun _ _ => false) (fun _ => tt) (fun s => (tt, s, false)) (fun _ => false)
    false header_file 3 format data.

Definition named (k v : string) : str * json unit := (lit k, String (lit v)).
Definition people : json unit :=
  Object [(lit "persons", Array [Object [(lit "id", Integer 2); named "name" "George"];
                                 Object [(lit "id", Integer 1); named "name" "Jane"];
                                 Object [(lit "id", Integer 3); named "name" "Otto"]])].

Example elif_rendered :
  show_format (lit "<h1>Header</h1>{% for person in persons %}{% if person.id == 2 %}1 {{ person.name }}{% elif person.id < 2 %}2 {{ person.name }}{% else %}none{% endif %};{% empty %}nobody{% endfor %}") people
  = Ok (lit "<h1>Header</h1>1 George;2 Jane;none;").
Proof. vm_compute. reflexivity. Qed.

Example include_rendered :
  show_format (lit "{% include " ++ DQUOTE :: lit "header.html" ++ DQUOTE :: lit " %}") (Object [named "title" "Hello"])
  = Ok (lit "<title>Hello</title>").
Proof. vm_compute. reflexivity. Qed.

(** An opening brace that starts no tag is lost. *)
Example brace_lost : show_format (lit "if (x) { y(); }") Null = Ok (lit "if (x)  y(); }").
Proof. vm_compute. reflexivity. Qed.

(** Without the end of an [if], what should depend on the condition is shown
    when it does not hold. *)
Example if_not_closed :
  show_format (lit "{% if admin %}secret") (Object [(lit "admin", Boolean false)]) = Ok (lit "secret").
Proof. vm_compute. reflexivity. Qed.

(** The name of a filter that does not exist is ignored. *)
Example filter_misspelled : show_format (lit "{{ name | escpe }}") (Object [named "name" "<b>"]) = Ok (lit "<b>").
Proof. vm_compute. reflexivity. Qed.

(** A command that does not exist, a loop that is not closed and an include
    without quotes dereference a null pointer; an include whose quotes are not
    closed reads behind the end. *)
Example command_unknown : show_format (lit "{% block content %}") Null = null_part_deref.
Proof. vm_compute. reflexivity. Qed.
Example for_not_closed : show_format (lit "{% for p in persons %}x") people = null_part_deref.
Proof. vm_compute. reflexivity. Qed.
Example include_variable : show_format (lit "{% include header %}if x %}{% endif %}") Null = null_part_deref.
Proof. vm_compute. reflexivity. Qed.
Example include_not_closed :
  show_format (lit "{% include " ++ DQUOTE :: lit "header.html") Null
  = Throw (undefined_behaviour "read behind the end of the string").
Proof. vm_compute. reflexivity. Qed.

(** Integers are shown with 32 bits, the empty string counts as true, and a
    constant [true] is taken for the name of a value. *)
Example integer_cut : show_format (lit "{{ n }}") (Object [(lit "n", Integer (2 ^ 32 + 1))]) = Ok (lit "1").
Proof. vm_compute. reflexivity. Qed.
Example empty_string_true : show_format (lit "{% if s %}yes{% endif %}") (Object [named "s" ""]) = Ok (lit "yes").
Proof. vm_compute. reflexivity. Qed.
Example true_is_a_name :
  show_format (lit "{% if b == true %}yes{% endif %}") (Object [(lit "b", Boolean true)])
  = Throw (logic_error "object doesn't contain key").
Proof. vm_compute. reflexivity. Qed.

(** A file that includes itself: parsing does not end. *)
Definition self_tail : str := DQUOTE :: lit "self" ++ DQUOTE :: lit " %}".
Definition self_file : str := lit "{%" ++ lit " " ++ lit "include" ++ lit " " ++ self_tail.
Definition self_disk (path : str) : option str := if bool_decide (path = lit "self") then Some self_file else None.

Example self_include_endless depth :
  build (real := unit) (fun s => (tt, s, false)) (fun _ => false) false self_disk depth self_file = Throw out_of_fuel.
Proof.
  induction depth as [|depth IH]; [done |]. cbn [build]. change (c_str self_file) with self_file.
  set (pf := build _ _ _ _ depth) in *.
  assert (include_parse (real := unit) self_disk pf self_tail = Throw out_of_fuel) as E.
  { unfold include_parse. change (skip_spaces self_tail) with self_tail.
    change (is_char DQUOTE (current_char self_tail)) with true. cbn iota.
    change (next_char self_tail) with (Ok (lit "self" ++ DQUOTE :: lit " %}")). cbn [rbind].
    change (parse_filepath (lit "self" ++ DQUOTE :: lit " %}")) with (lit "self", DQUOTE :: lit " %}"). cbn iota.
    cbn [next_char rbind]. change (self_disk (lit "self")) with (Some self_file). cbn iota. by rewrite IH. }
  assert (yields (real := unit) (fun s => (tt, s, false)) (fun _ => false) false self_disk pf whole STATIC_TEXT [] [] self_file
    (Throw out_of_fuel)) as Hy; [|rewrite Hy; [done | vm_compute; lia]].
  apply yields_open. intros [|fuel] Hf; [unfold need in Hf; simpl in Hf; lia |].
  rewrite parse_command_turn; [|split; [done | apply spaces_one] | by apply command_word | done].
  cbn [on_command rbind]. unfold parse_command. rewrite !bool_decide_false, bool_decide_true by done. by rewrite E.
Qed.

(** *** A page *)

(** Greets everybody in the list, with a header from a file. *)
Definition page : list (item (real := unit)) :=
  [include (lit " ") (lit "header.html")
     [text (lit "<title>"); var (lit " ") (lit "title") []; text (lit "</title>")];
   for_ (lit " ") (lit "p") (lit "persons")
     [if_ (lit "  ") (cond_compare (lit "p.id") (lit "==") (Integer 2)) [text (lit "you")]
        [(cond_compare (lit "p.name") (lit "==") (String (lit "Jane")), [text (lit "boss")])]
        (Some [var [] (lit "p.name") [upper_filter; escape_filter]]);
      text (lit ";")]
     (Some [text (lit "nobody")])].

Lemma page_ok : template_ok header_file page 2.
Proof. repeat (split || constructor); try done; by refine (bool_decide_eq_true_1 (_ ∈ _) _). Qed.

Definition guests : json unit :=
  Object [named "title" "Guests"; (lit "persons", Array [Object [(lit "id", Integer 2); named "name" "George"];
                                 Object [(lit "id", Integer 1); named "name" "Jane"];
                                 Object [(lit "id", Integer 3); named "name" "A<b>"]])].

Lemma template_renders_witness :
  show_format (texts page) guests = Ok (lit "<title>Guests</title>you;boss;A&lt;B&gt;;").
Proof.
  unfold show_format. etrans.
  - apply (template_renders (fun _ => []) (fun _ _ => true) (fun _ _ => false) (fun _ => tt) (fun s => (tt, s, false)) (fun _ => false)
      false header_file page 2 guests); [reflexivity | exact page_ok].
  - vm_compute. reflexivity.
Defined.

Lemma escaped_is_text_witness :
  exists out, show_format (lit "{{ name | lower | escape }}") (Object [named "name" "<B>"]) = Ok out
    /\ Forall (fun c => c ∉ markup) out /\ html_text (length out) out = lit "<b>".
Proof.
  eexists. split; [vm_compute; reflexivity |].
  destruct (escaped_is_text (fun _ => []) (fun _ _ => true) (fun _ _ => false) (fun _ => tt) (fun s => (tt, s, false)) (fun _ => false)
      false header_file 2 (lit " ") (lit "name") [lower_filter] (Object [named "name" "<B>"]) (lit "&lt;b&gt;"))
    as (v & s & H1 & H2 & H3 & H4).
  - reflexivity.
  - apply spaces_one.
  - apply command_word. reflexivity.
  - vm_compute. reflexivity.
  - vm_compute in H1. injection H1 as <-. vm_compute in H2. injection H2 as <-. split; [exact H3 | exact H4].
Defined.

Lemma template_parse_ends_witness :
  build (real := unit) (fun s => (tt, s, false)) (fun _ => false) false (fun _ => None) 1 (lit "{% for {{ }} {%") <> Throw out_of_fuel.
Proof. apply template_parse_ends; [intros s; simpl; lia | done]. Defined.

End Template.
